(* ===== verification/_CoqProject ===== *)
-Q . S2P
Prelude.v
Path.v
Clock.v
Hash.v
Metadata.v
Verify.v
CacheSystem.v
Watcher.v
Recovery.v
RequestFingerprint.v
RustStr.v
KeyEnv.v
ContextKeys.v
DepGraph.v
DepGraphIndex.v
DepGraphVerdict.v
GnuArgs.v
Depfile.v
CompileCommands.v
IncludeLexer.v
Scanner.v
CompilerTrace.v
Detect.v
RustcPlan.v
Invocation.v
DepfileRoot.v
CcContext.v
ResponseFile.v
IndexWal.v
WireMessages.v
Wire.v
Connection.v
DiskMaintenance.v
Eviction.v
Fingerprint.v
FingerprintScan.v
FpManager.v
StagedStore.v
StagedPublish.v
StagedDamage.v
LinkArgs.v
RequestKeys.v
LinkKey.v
FastPath.v
