(* ===== verification/Prelude.v ===== *)
(** * zccache: a verified model of a compiler cache

    zccache is a compiler cache: a daemon that answers, for a C/C++ or rustc
    invocation, whether an earlier result can be used.  These questions make it
    correct, and this development follows them.

    - Which content does a file have now?  [zccache-fscache] keeps a metadata
      cache of stat stamps and hashes, a change journal with a logical clock fed
      by the file watcher, and lookups that re-verify what they return.
    - Did something change?  [zccache-watcher] turns host notifications or
      polled snapshots into settled batches, which the daemon applies.
    - Which inputs does a compilation have, and is the stored result theirs?
      [zccache-core], [zccache-hash] and [zccache-depgraph] compute request,
      context and artifact keys and keep a graph of contexts, their files and
      their last keys, shared between checkouts of one workspace.
    - Which invocations may be cached at all, and what do they read and write?
      [zccache-compiler] classifies command lines and expands response files;
      the scanner, the dependency files and the compiler's traces find includes.
    - Are results kept, and found again, within bounds?  The artifact index with
      its write-ahead log, the retention of artifacts on disk, the eviction of
      the in-memory caches.
    - Does a client get its own answer?  Protocol, frames and connections.
    - May a whole task be skipped?  [zccache-fingerprint] and the daemon's
      watches.

    ** Files

    - [Prelude]: the state-and-error monad [SE], 64-bit wrap-around, bytes as
      strings, NUL-terminated fields, stable sorting, ordered maps, hexadecimal
      and decimal text.
    - [Path]: [zccache-core/src/path.rs] on Linux.  A path is its text; a
      [NormalizedPath] is a normalized text and is compared by it.
    - [Clock]: [zccache-fscache/src/clock.rs].  [ChangeJournal] with its
      operations, and the full history it summarises.
    - [Hash]: [zccache-hash/src/native.rs], [cache_key.rs], [link_cache_key.rs].
      Blake3 is the class [Blake3] with 32-byte digests; theorems that conclude
      equality of inputs name the two texts on which blake3 would have to
      collide.  [toy_blake3] is an instance to evaluate with.
    - [Metadata], [Verify], [CacheSystem]: [metadata.rs], [verify.rs] and
      [cache_system.rs] of [zccache-fscache].  The file system is an environment
      that gives, at each instant, the state of each path; an operation that
      observes it advances the instant, so files change between observations.
    - [Watcher]: [ignore.rs], [notify_watcher.rs], [settle.rs] and
      [polling_watcher.rs] of [zccache-watcher], and the consumer task of the
      daemon's [server/run.rs].  The settle loop is a step function from wait to
      wait, driven by wake-ups with their times.
    - [Recovery]: [zccache-watcher/src/recovery.rs], the deferred re-scan after an
      overflow as interleaved steps of its task, the watcher and builds.
    - [RequestFingerprint]: [zccache-hash/src/request_fingerprint.rs] and
      [request_fingerprint_cursor.rs], the cursor as a state machine.
    - [RustStr], [KeyEnv]: Rust's string operations, and
      [zccache-core/src/key_env.rs], the variables that take part in keys.
    - [ContextKeys]: [zccache-depgraph/src/context/] and [native_cpu.rs].
      Every key keeps its preimage visible ([context_preimage],
      [rustc_context_preimage], [artifact_preimage], [fold_preimage]).
    - [DepGraph]: [zccache-depgraph/src/graph/] (mod, register, update, check,
      maintenance): the record [DepGraph] has the maps of the struct, each
      method is a function of the same name that returns the new graph.
    - [DepGraphIndex], [DepGraphVerdict]: theorems about it.
    - [GnuArgs], [CompileCommands], [CcContext]: [args.rs] with
      [args/dep_flags.rs], [compile_commands.rs], [msvc_args.rs] of
      [zccache-depgraph], and the two builders of a C/C++ context in the daemon
      ([server/rustc.rs], [handle_compile_multi_context.rs], [keys.rs],
      [dependency_policy.rs]).
    - [Depfile], [DepfileRoot]: [zccache-depgraph/src/depfile/] and the daemon's
      [depfile_root.rs].
    - [IncludeLexer], [Scanner], [CompilerTrace]: [scanner/lex.rs], [scanner.rs],
      [show_includes.rs], [header_trace.rs].
    - [Detect], [RustcPlan], [Invocation], [ResponseFile]: [zccache-compiler]
      ([lib.rs], [detect.rs], [side_outputs.rs], [output_policy.rs],
      [parse_rustc.rs], [parse.rs], [parse_msvc.rs], [response_file.rs]) and the
      daemon's [rsp_cache.rs].
    - [IndexWal]: [zccache-artifact/src/store.rs] and [reconcile.rs], the
      daemon's [wal.rs] and [index_reconcile.rs].
    - [WireMessages], [Wire], [Connection]: [zccache-protocol],
      [zccache-ipc/src/transport/] and the daemon's [connection/mod.rs].
      Requests and responses are inductive types with the source's constructors.
    - [DiskMaintenance], [Eviction]: [server/disk_maintenance.rs] and
      [daemon/eviction.rs].
    - [Fingerprint], [FingerprintScan], [FpManager]: [zccache-fingerprint] and
      [daemon/fingerprint/].
    - [StagedStore], [StagedPublish], [StagedDamage]:
      [zccache-artifact/src/layout.rs] and the daemon's
      [persist/staged_store.rs] with its parts.  The disk separates what
      is visible from what is synced; each access works, fails, or is the last
      one of the process.
    - [LinkArgs]: [parse_archiver.rs], [parse_linker/] and [parse_rustfmt.rs] of
      [zccache-compiler].
    - [RequestKeys]: the daemon's [keys.rs] and [request_cache.rs], and the remap
      arguments in its [rustc.rs].
    - [LinkKey]: [link_helpers.rs], and [handle_link.rs] up to the cache key.
    - [FastPath]: the hits of [handle_compile/hit_branches.rs] with the freshness
      checks of [util.rs], [keys.rs] and [out_dir.rs], and [cache_trim.rs].  The
      record [Daemon] has the state these paths share; what the watcher reports
      during a request is an argument.

    ** What is shown

    - Lookups are honest: over any history of operations, a hash returned is the
      hash of the file at an instant of the call, unless the history has a
      re-scan and an earlier lookup found the file changing under its hands
      ([lookup_since_sound], [lookup_sound]; [rescan_trusts_torn_hash] shows that
      the exception is real); it is assumed that a file with a matching stamp
      (modification time and size) has the same contents ([HonestFs]).  A reported change is hashed again
      ([reported_changes_rehashed], [raw_events_untrust]); an unchanged file is
      served from the cache and a readable file gets its hash
      ([unchanged_file_fast_path], [lookup_complete]).
    - The journal is a sound summary of its history ([changed_since_sound],
      [changes_since_window]), and eviction keeps cache and journal in step
      ([eviction_settles_journal], [evict_candidates_safe],
      [evict_oldest_oldest]); mutations set the dirty flag
      ([dirty_tracks_mutation]).
    - Settling and polling lose nothing and delay by a bounded time
      ([settle_replay_complete], [settle_bounded_delay],
      [poll_reports_differences], [convert_reports_relevant]), and no overflow
      goes without a re-scan ([overflow_is_rescanned]).
    - Keys identify what they stand for and survive moving a workspace
      ([context_key_identifies], [context_key_relocatable],
      [artifact_key_sound], [rustc_env_selection],
      [check_build_share_compat_key], [fingerprint_injective],
      [emit_spells_fragments], [link_key_identifies_inputs],
      [link_key_identifies]); two checkouts share their requests, with the remap
      arguments and the rebased paths that this takes
      ([request_shared_across_worktrees], [remap_covers_root],
      [captured_path_rebases], [remap_plan_covers_libraries]).
    - Hits in front of the graph are backed: one without hashing by the full
      history of the watcher ([unhashed_hit_unreported]), one for another
      worktree by the hashes of its own files ([cross_root_validated]); the
      caches behind them stay bounded ([trim_ephemeral_bounds]).
    - The graph finds recorded compiles again and a hit means that no input
      changed ([update_then_hit], [hit_means_unchanged], [checks_agree]), its
      indexes never dangle ([graph_indexes_consistent], [trim_removes_expired]),
      evicted artifacts are forgotten ([invalidate_forgets]) and a second
      checkout inherits hits ([worktree_inherits_hit]).
    - Inputs are found: dependency rules read back as they were written and move
      between worktrees ([depfile_roundtrip], [depfile_relocates]), the lexer
      agrees with the phases of translation ([lexer_agrees]), the scan is the
      closure under includes ([scan_is_closure]), a trace that is not understood
      is not called exact ([dependency_graph_fails_closed]).
    - Command lines are read completely ([gnu_args_accounted],
      [link_args_accounted], [ar_args_accounted], [builders_agree]), rustfmt's
      nearest configuration is found ([find_rustfmt_config_nearest]), response files are substituted, also from the cache
      ([expansion_is_substitution], [cached_expansion_current]), and only what
      may be cached is accepted ([gnu_admission_safe], [parsed_invocation_wf]).
    - The index is a map whatever the schedule of flushes, failed writes and
      crashes ([wal_refines_map], [crash_leaves_past_rows]); a retention pass
      ends, relieves the pressure of a volume of 40 GiB or more, keeps fresh
      artifacts and leaves no dangling row ([pass_terminates],
      [pressure_relieved], [fresh_artifact_survives],
      [pass_keeps_index_backed]); a pass that an error aborts in the middle of a
      deletion may leave one ([failed_unlink_dangles],
      [failed_tree_evicts_earlier]).  Memory sweeps settle and take the graph last
      ([memory_sweep_settles], [graph_evicted_last]).
    - Publications are atomic whatever fails, durable once reported, and what is
      served was published ([publish_atomic], [published_survives],
      [staged_serves_published], [staged_answer_authentic]).
    - However the stream is cut, each request is dispatched once, in order, and
      answered on its lane ([connection_serves]).
    - A skipped task had the same inputs at an earlier success
      ([two_layer_is_full_hash], [two_layer_skip_sound],
      [watch_skip_verified]); the pruned walk is the filter of all files
      ([glob_walk_is_filter]).
    - Where code and intent differ, the difference is a theorem:
      [rescan_trusts_torn_hash], [build_misses_second_overflow],
      [key_flag_env_ambiguous], [context_key_define_undefine_clash],
      [failed_update_unmarked], [rsp_cache_misses_retarget],
      [flush_before_load_drops], [other_version_clients],
      [fast_path_misses_replacement], [aggregate_hash_ambiguous],
      [verified_change_dropped], [damaged_generation_kept],
      [link_key_forgets], [fast_hit_serves_stale].

    ** Bounds and fuel

    Counters and clocks are 64-bit and wrap; theorems about the journal assume
    fewer than [2 ^ 64] operations, where the clock has not wrapped.  A torn
    snapshot is retried three times, as in the source.  One call of
    [next_fragment] gets a turn per raw argument and five more, which is enough
    for every cursor that [fp_new] leads to; [emit_request_fingerprint] gets one
    call per fragment and one to see the end.  The lexer gets a turn per byte,
    the include scan one per file that exists, the retention pass the number of
    artifacts and two, the sweep its polls, the search for a free name one more
    than the names taken ([free_counter_free]), a walk to the root of the file
    system the number of components of its start.  All of them are proved to be
    enough;
    the nesting of response files is bounded by the code itself.

    ** What is not modelled

    Threads and locks: operations of one component run one after the other, and
    where a component drops its lock the other threads' effect is an argument.
    The sharded maps are finite maps; where an operation skips a locked shard,
    whether it is locked is an argument.  Logging, profiling and asynchronous
    plumbing.  The Windows and macOS variants of paths.  The closures the daemon
    passes to the graph ([is_fresh], [get_hash], [env_value]) are functions that
    do not change during a call.  Codecs (bincode, JSON, protobuf), glob
    matching, directory walks and blake3 are packages: parameters with their
    laws.

    Of the daemon's server, the compile pipeline around the hit paths (running
    the compiler, collecting outputs, delivering artifacts to requested paths),
    sessions and start-up are asynchronous glue over processes and files.  The
    persistence formats of the graph and of the metadata cache are package
    codecs.  The command-line front ends, the audit and lifecycle tools and the
    language bindings hold no state the cached answers depend on. *)

From stdpp Require Export prelude gmap strings list sorting fin_maps.
From Stdlib Require Export ZArith Ascii.
From Stdlib Require Import Lia.

Open Scope string_scope.
Open Scope Z_scope.
Open Scope list_scope.

(** Lemmas that close the routine goals of the components. *)
Create HintDb zccache.

(** ** Machine integers

    The sources use [u64] (clock ticks, sizes, hit counters, wall-clock
    milliseconds), [u32] (frame lengths and versions) and [usize].  An integer
    of width [w] is a [Z]; the places where the code wraps or saturates say so
    with these operations. *)

Definition wrap64 (z : Z) : Z := z `mod` 2 ^ 64.
Definition saturating_sub (a b : Z) : Z := Z.max 0 (a - b).

Lemma wrap64_small (z : Z) : 0 <= z < 2 ^ 64 -> wrap64 z = z.
Proof. apply Z.mod_small. Qed.

Lemma wrap64_bound (z : Z) : 0 <= wrap64 z < 2 ^ 64.
Proof. unfold wrap64. apply Z.mod_pos_bound. lia. Qed.

(** ** A state and error monad

    [SE S E A] is a computation over a state [S] that fails with [E] or
    returns an [A].  As in the Rust code, the state changes made before a
    failure are kept: [?] returns early, it does not roll back. *)

Definition SE (S E A : Type) : Type := S -> (E + A) * S.

#[export] Instance SE_ret S E : MRet (SE S E) := fun A a s => (inr a, s).
#[export] Instance SE_bind S E : MBind (SE S E) := fun A B k m s =>
  match m s with
  | (inl e, s') => (inl e, s')
  | (inr a, s') => k a s'
  end.

Definition se_fail {S E A} (e : E) : SE S E A := fun s => (inl e, s).
Definition se_get {S E} : SE S E S := fun s => (inr s, s).
Definition se_modify {S E} (f : S -> S) : SE S E unit := fun s => (inr tt, f s).

Lemma se_bind_inr {S E A B} (m : SE S E A) (k : A -> SE S E B) s a s' :
  m s = (inr a, s') -> (m ≫= k) s = k a s'.
Proof. unfold mbind, SE_bind. by intros ->. Qed.

Lemma se_bind_inl {S E A B} (m : SE S E A) (k : A -> SE S E B) s e s' :
  m s = (inl e, s') -> (m ≫= k) s = (inl e, s').
Proof. unfold mbind, SE_bind. by intros ->. Qed.

(** Inversion of a sequence that succeeded. *)
Lemma se_bind_inr_inv {S E A B} (m : SE S E A) (k : A -> SE S E B) s b s' :
  (m ≫= k) s = (inr b, s') ->
  exists a s1, m s = (inr a, s1) /\ k a s1 = (inr b, s').
Proof.
  unfold mbind, SE_bind. destruct (m s) as [[e|a] s1]; intros H; [done|].
  by exists a, s1.
Qed.

(** The count of a [retain] and what stays make up the map. *)
Lemma map_size_removed `{Countable K} {A} (P : K * A -> Prop) `{!forall x, Decision (P x)}
    (m : gmap K A) :
  (size m - size (filter P m) + size (filter P m) = size m)%nat.
Proof. pose proof (map_size_filter P m). lia. Qed.

(** ** Bytes

    A Rust byte string ([&[u8]], or the UTF-8 bytes of a [&str]) is a [string],
    which is a sequence of 8-bit characters. *)

#[global] Arguments String.append : simpl nomatch.

Abbreviation bytes := string (only parsing).

Definition NUL : ascii := ascii_of_nat 0.
Definition nul : bytes := String NUL "".

(** The byte [0] does not occur: true of file names, of arguments and of
    environment strings, which the operating system passes NUL-terminated. *)
Fixpoint no_nul (s : bytes) : bool :=
  match s with
  | EmptyString => true
  | String c s' => negb (bool_decide (c = NUL)) && no_nul s'
  end.

Lemma string_app_assoc (a b c : bytes) : (a +:+ b) +:+ c = a +:+ (b +:+ c).
Proof. induction a; simpl; congruence. Qed.

Lemma string_app_nil_r (a : bytes) : a +:+ "" = a.
Proof. induction a; simpl; congruence. Qed.

Lemma string_length_app (a b : bytes) :
  String.length (a +:+ b) = (String.length a + String.length b)%nat.
Proof. induction a; simpl; congruence. Qed.

Lemma string_app_inv_len (a b r s : bytes) :
  String.length a = String.length b -> a +:+ r = b +:+ s -> a = b /\ r = s.
Proof.
  revert b. induction a as [|c a IH]; intros [|d b] Hl Heq; simpl in *; try done.
  injection Heq as -> Heq. injection Hl as Hl. by destruct (IH _ Hl Heq) as [-> ->].
Qed.

Lemma no_nul_app (a b : bytes) : no_nul (a +:+ b) = no_nul a && no_nul b.
Proof. induction a as [|c a IH]; simpl; [done|]. rewrite IH. by destruct (negb _). Qed.

(** A NUL-terminated field is read back without ambiguity. *)
Lemma nul_field_inv (a b r s : bytes) :
  no_nul a = true -> no_nul b = true ->
  a +:+ nul +:+ r = b +:+ nul +:+ s -> a = b /\ r = s.
Proof.
  revert b. induction a as [|c a IH]; intros [|d b] Ha Hb Heq; simpl in *.
  - by injection Heq.
  - injection Heq as <- _. rewrite bool_decide_eq_true_2 in Hb by done. done.
  - injection Heq as -> _. rewrite bool_decide_eq_true_2 in Ha by done. done.
  - injection Heq as -> Heq. apply andb_prop in Ha as [_ Ha], Hb as [_ Hb].
    by destruct (IH _ Ha Hb Heq) as [-> ->].
Qed.

(** The concatenation of a list of byte strings, [hasher.update] by
    [hasher.update]. *)
Fixpoint concat_bytes (l : list bytes) : bytes :=
  match l with
  | [] => ""
  | x :: l' => x +:+ concat_bytes l'
  end.

Lemma concat_bytes_app (l k : list bytes) :
  concat_bytes (l ++ k) = concat_bytes l +:+ concat_bytes k.
Proof. induction l as [|x l IH]; simpl; [done|]. by rewrite IH, string_app_assoc. Qed.

Lemma concat_bytes_flat_map {A} (f : A -> list bytes) (l : list A) :
  concat_bytes (flat_map f l) = concat_bytes (map (fun x => concat_bytes (f x)) l).
Proof.
  induction l as [|x l IH]; simpl; [done|]. by rewrite concat_bytes_app, IH.
Qed.

(** ** Stable sorting

    [slice::sort] and [slice::sort_by] are stable: elements with equal keys
    keep their order.  Insertion from the right, placing an element before the
    first one that is not smaller, computes the one stable result. *)

Section sort_by.
Context {A : Type} (leb : A -> A -> bool).

Fixpoint insert_by (x : A) (l : list A) : list A :=
  match l with
  | [] => [x]
  | y :: l' => if leb x y then x :: y :: l' else y :: insert_by x l'
  end.

Fixpoint sort_by (l : list A) : list A :=
  match l with
  | [] => []
  | x :: l' => insert_by x (sort_by l')
  end.

Lemma insert_by_perm x l : insert_by x l ≡ₚ x :: l.
Proof.
  induction l as [|y l IH]; simpl; [done|]. destruct (leb x y); [done|].
  rewrite IH. apply Permutation_swap.
Qed.

Lemma sort_by_perm l : sort_by l ≡ₚ l.
Proof. induction l as [|x l IH]; simpl; [done|]. by rewrite insert_by_perm, IH. Qed.

Lemma sort_by_length l : length (sort_by l) = length l.
Proof. by rewrite sort_by_perm. Qed.

Context (leb_total : forall x y, leb x y = true \/ leb y x = true).
Context (leb_trans : forall x y z, leb x y = true -> leb y z = true -> leb x z = true).

Lemma insert_by_sorted x l :
  StronglySorted (fun a b => leb a b = true) l ->
  StronglySorted (fun a b => leb a b = true) (insert_by x l).
Proof.
  induction l as [|y l IH]; simpl; intros Hs; [repeat constructor|].
  apply StronglySorted_inv in Hs as [Hs Hf]. destruct (leb x y) eqn:Hxy.
  - constructor; [by constructor|]. constructor; [done|].
    eapply Forall_impl; [done|]. eauto.
  - constructor; [by apply IH|]. rewrite insert_by_perm. constructor; [|done].
    destruct (leb_total x y); congruence.
Qed.

Lemma sort_by_sorted l : StronglySorted (fun a b => leb a b = true) (sort_by l).
Proof. induction l; simpl; [constructor|]. by apply insert_by_sorted. Qed.
End sort_by.

(** Sorting by a string key, the bytewise order of Rust's [str]. *)
Definition key_leb {A} (f : A -> bytes) (x y : A) : bool := String.leb (f x) (f y).
Definition sort_by_key {A} (f : A -> bytes) (l : list A) : list A := sort_by (key_leb f) l.

Lemma string_leb_le (a b : bytes) : String.leb a b = true <-> String.le a b.
Proof. unfold String.le. by rewrite Is_true_true. Qed.

Lemma key_leb_total {A} (f : A -> bytes) x y : key_leb f x y = true \/ key_leb f y x = true.
Proof. apply String.leb_total. Qed.

Lemma key_leb_trans {A} (f : A -> bytes) x y z :
  key_leb f x y = true -> key_leb f y z = true -> key_leb f x z = true.
Proof. unfold key_leb. rewrite !string_leb_le. intros; by etrans. Qed.

Lemma sort_by_key_perm {A} (f : A -> bytes) l : sort_by_key f l ≡ₚ l.
Proof. apply sort_by_perm. Qed.

Lemma sort_by_key_sorted {A} (f : A -> bytes) l :
  StronglySorted (fun a b => key_leb f a b = true) (sort_by_key f l).
Proof. apply sort_by_sorted; [apply key_leb_total|apply key_leb_trans]. Qed.

Lemma sort_by_key_idem {A} (f : A -> bytes) l : sort_by_key f (sort_by_key f l) = sort_by_key f l.
Proof.
  pose proof (sort_by_key_sorted f l) as Hs. unfold sort_by_key in *. revert Hs.
  generalize (sort_by (key_leb f) l). clear l. intros l Hs.
  induction Hs as [|x l Hs IH Hx]; simpl; [done|]. rewrite IH. destruct l as [|y l]; simpl; [done|].
  apply Forall_cons in Hx as [-> _]. done.
Qed.

Lemma sort_by_key_fmap {A B} (f : A -> bytes) (f' : B -> bytes) (g : A -> B) l :
  (forall x, f' (g x) = f x) -> sort_by_key f' (g <$> l) = g <$> sort_by_key f l.
Proof.
  intros Hg. unfold sort_by_key.
  assert (forall x l, insert_by (key_leb f') (g x) (g <$> l) = g <$> insert_by (key_leb f) x l) as Hi.
  { intros x k. induction k as [|y k IH]; [done|]. cbn. unfold key_leb at 1 3. rewrite !Hg.
    destruct (String.leb (f x) (f y)); cbn; [done|]. f_equal. exact IH. }
  induction l as [|x l IH]; [done|]. cbn. rewrite <- Hi. f_equal. exact IH.
Qed.

(** With distinct keys the sorted list does not depend on the order of the
    input. *)
Lemma sort_by_key_canonical {A} (f : A -> bytes) (l k : list A) :
  NoDup (f <$> l) -> l ≡ₚ k -> sort_by_key f l = sort_by_key f k.
Proof.
  intros Hnd Hp.
  eapply StronglySorted_unique_strong; [|apply sort_by_key_sorted..|].
  - intros x y Hx Hy Hxy Hyx. rewrite sort_by_key_perm in Hx, Hy.
    rewrite <- Hp in Hy. unfold key_leb in *. rewrite string_leb_le in *.
    assert (f x = f y) as Heq by by apply (anti_symm String.le).
    apply list_elem_of_lookup in Hx as [i Hi], Hy as [j Hj].
    assert (i = j) as ->; [|congruence].
    eapply NoDup_lookup; [done|rewrite list_lookup_fmap, Hi; done|].
    by rewrite list_lookup_fmap, Hj, Heq.
  - by rewrite !sort_by_key_perm.
Qed.

(** ** Ordered maps

    A [BTreeMap] is its list of entries in increasing key order. *)

Section btree.
Context {K V : Type} (cmp : K -> K -> comparison).

Fixpoint bt_insert (k : K) (v : V) (m : list (K * V)) : list (K * V) :=
  match m with
  | [] => [(k, v)]
  | (k', v') :: m' =>
      match cmp k k' with
      | Lt => (k, v) :: m
      | Eq => (k, v) :: m'
      | Gt => (k', v') :: bt_insert k v m'
      end
  end.
End btree.

Lemma bt_insert_last {V} (k : Z) (v : V) (m : list (Z * V)) :
  Forall (fun e => e.1 < k) m -> bt_insert Z.compare k v m = m ++ [(k, v)].
Proof.
  induction m as [|[k' v'] m IH]; simpl; [done|].
  intros [Hlt Hm]%Forall_cons. simpl in Hlt. rewrite (proj2 (Z.compare_gt_iff k k')) by lia.
  by rewrite IH.
Qed.

(** ** Hexadecimal formatting *)

Definition byte_val (c : ascii) : Z := Z.of_N (N_of_ascii c).

Definition hex_digit (d : Z) : ascii :=
  ascii_of_N (Z.to_N (if d <? 10 then 48 + d else 87 + d)).

(** The low [n] hex digits of [z], most significant first: [{:0n x}] for a
    value that fits in them. *)
Fixpoint hex_fixed (n : nat) (z : Z) : bytes :=
  match n with
  | O => ""
  | S n' => hex_fixed n' (z `div` 16) +:+ String (hex_digit (z `mod` 16)) ""
  end.

Lemma byte_val_bound c : 0 <= byte_val c < 256.
Proof. unfold byte_val. pose proof (N_ascii_bounded c). lia. Qed.

Lemma byte_val_inj c d : byte_val c = byte_val d -> c = d.
Proof.
  unfold byte_val. intros H%N2Z.inj. rewrite <- (ascii_N_embedding c), H.
  apply ascii_N_embedding.
Qed.

(** The byte of a value below 256 ([z as u8]). *)
Definition byte_of (z : Z) : ascii := ascii_of_N (Z.to_N z).

Lemma byte_val_of z : 0 <= z < 256 -> byte_val (byte_of z) = z.
Proof. intros Hz. unfold byte_val, byte_of. rewrite N_ascii_embedding by lia. lia. Qed.

(** ** Little-endian integers *)

Fixpoint le_bytes (n : nat) (z : Z) : bytes :=
  match n with O => "" | S n' => String (byte_of (z `mod` 256)) (le_bytes n' (z `div` 256)) end.
Fixpoint le_value (s : bytes) : Z :=
  match s with EmptyString => 0 | String c s' => byte_val c + 256 * le_value s' end.

Lemma le_bytes_length n z : String.length (le_bytes n z) = n.
Proof. revert z. induction n as [|n IH]; intros z; simpl; [done|]. by rewrite IH. Qed.

Lemma le_value_bytes n z : 0 <= z < 256 ^ Z.of_nat n -> le_value (le_bytes n z) = z.
Proof.
  revert z. induction n as [|n IH]; intros z Hz; [change (256 ^ Z.of_nat 0) with 1 in Hz; simpl; lia|].
  rewrite Nat2Z.inj_succ, Z.pow_succ_r in Hz by lia. cbn [le_bytes le_value].
  pose proof (Z.mod_pos_bound z 256 ltac:(lia)). rewrite byte_val_of by lia.
  rewrite IH by (split; [apply Z.div_pos; lia|apply Z.div_lt_upper_bound; lia]).
  pose proof (Z.div_mod z 256 ltac:(lia)). lia.
Qed.

Lemma le_bytes_inj n a b :
  0 <= a < 256 ^ Z.of_nat n -> 0 <= b < 256 ^ Z.of_nat n -> le_bytes n a = le_bytes n b -> a = b.
Proof. intros Ha Hb H. rewrite <- (le_value_bytes n a), <- (le_value_bytes n b) by done. by rewrite H. Qed.

Lemma hex_digit_inj a b : 0 <= a < 16 -> 0 <= b < 16 -> hex_digit a = hex_digit b -> a = b.
Proof.
  intros Ha Hb Heq. unfold hex_digit in Heq. apply (f_equal N_of_ascii) in Heq.
  rewrite !N_ascii_embedding in Heq by (repeat case_match; lia).
  destruct (Z.ltb_spec a 10), (Z.ltb_spec b 10); lia.
Qed.

Lemma hex_fixed_length n z : String.length (hex_fixed n z) = n.
Proof.
  revert z. induction n as [|n IH]; intros z; simpl; [done|].
  rewrite string_length_app, IH. simpl. lia.
Qed.

Lemma hex_fixed_inj n a b :
  0 <= a < 16 ^ Z.of_nat n -> 0 <= b < 16 ^ Z.of_nat n ->
  hex_fixed n a = hex_fixed n b -> a = b.
Proof.
  revert a b. induction n as [|n IH]; intros a b Ha Hb Heq; [simpl in *; lia|].
  rewrite Nat2Z.inj_succ, Z.pow_succ_r in Ha, Hb by lia. cbn [hex_fixed] in Heq.
  apply string_app_inv_len in Heq as [Hhi Hlo]; [|by rewrite !hex_fixed_length].
  apply IH in Hhi; [|split; [apply Z.div_pos; lia|apply Z.div_lt_upper_bound; lia]..].
  injection Hlo as Hlo. apply hex_digit_inj in Hlo; [|apply Z.mod_pos_bound; lia..].
  rewrite (Z.div_mod a 16), (Z.div_mod b 16) by lia. lia.
Qed.

(** ** [str::parse::<u64>] *)

Definition digit_val (c : ascii) : option Z :=
  let v := byte_val c - 48 in if (0 <=? v) && (v <=? 9) then Some v else None.

(** Checked multiply-and-add at every digit, as the standard library does. *)
Fixpoint parse_digits (acc : Z) (s : bytes) : option Z :=
  match s with
  | EmptyString => Some acc
  | String c s' =>
      v ← digit_val c;
      let acc' := acc * 10 + v in
      if acc' <? 2 ^ 64 then parse_digits acc' s' else None
  end.

Definition parse_u64 (s : bytes) : option Z :=
  match s with
  | EmptyString => None
  | String c s' =>
      if bool_decide (c = "+"%char)
      then match s' with EmptyString => None | _ => parse_digits 0 s' end
      else parse_digits 0 s
  end.
