(* ===== verification/Path.v ===== *)
(** * Lexical paths ([zccache-core/src/path.rs])

    [NormalizedPath] is the key type of every map of the daemon.  The file
    models it on a Linux host, where the normalized spelling and the comparison
    key are the same string: [normalize] on the components of a path, the
    component-wise [starts_with] and [strip_prefix], [join], and the FNV-1a
    identifier [stable_path_id].  The parts of [std::path] the code uses
    ([components], [push]) are modelled from their documentation. *)

From S2P Require Import Prelude.
From Stdlib Require Import Lia.

(** ** [std::path] *)

Inductive Component :=
  | RootDir
  | CurDir
  | ParentDir
  | Normal (name : bytes).

#[export] Instance Component_eq_dec : EqDecision Component.
Proof. solve_decision. Defined.

Definition slash : ascii := "/"%char.

(** The pieces between separators; never empty. *)
Fixpoint split_slash (s : bytes) : list bytes :=
  match s with
  | EmptyString => [""]
  | String c s' =>
      if bool_decide (c = slash) then "" :: split_slash s'
      else match split_slash s' with
           | [] => [String c ""]
           | p :: ps => String c p :: ps
           end
  end.

Definition piece_component (p : bytes) : option Component :=
  if bool_decide (p = "") || bool_decide (p = ".") then None
  else if bool_decide (p = "..") then Some ParentDir
  else Some (Normal p).

Definition has_root (s : bytes) : bool :=
  match s with String c _ => bool_decide (c = slash) | EmptyString => false end.

(** [Path::components]: repeated separators and [.] are dropped, except a
    [.] that starts a relative path. *)
Definition components (s : bytes) : list Component :=
  (if has_root s then [RootDir]
   else if bool_decide (head (split_slash s) = Some ".") then [CurDir] else [])
  ++ omap piece_component (split_slash s).

Definition component_str (c : Component) : bytes :=
  match c with
  | RootDir => "/"
  | CurDir => "."
  | ParentDir => ".."
  | Normal n => n
  end.

Fixpoint ends_with_slash (s : bytes) : bool :=
  match s with
  | EmptyString => false
  | String c EmptyString => bool_decide (c = slash)
  | String _ s' => ends_with_slash s'
  end.

(** [PathBuf::push]: an absolute argument replaces the buffer. *)
Definition path_push (buf p : bytes) : bytes :=
  if has_root p then p
  else if bool_decide (buf = "") || ends_with_slash buf then buf +:+ p
  else buf +:+ "/" +:+ p.

(** [components.iter().collect::<PathBuf>()]. *)
Definition collect_path (cs : list Component) : bytes :=
  fold_left (fun buf c => path_push buf (component_str c)) cs "".

(** ** [path.rs] *)

(** One iteration of the loop of [normalize]; the vector is kept reversed, so
    its last element is the head of the list. *)
Definition normalize_step (acc : list Component) (c : Component) : list Component :=
  match c with
  | CurDir => acc
  | ParentDir =>
      match acc with
      | Normal _ :: acc' => acc'
      | _ => ParentDir :: acc
      end
  | _ => c :: acc
  end.

Definition normalize_components (cs : list Component) : list Component :=
  reverse (fold_left normalize_step cs []).

Definition normalize (path : bytes) : bytes :=
  collect_path (normalize_components (components path)).

(** On Linux [normalize_for_key] is the normalized string itself. *)
Definition normalize_for_key (path : bytes) : bytes := normalize path.

(** A [NormalizedPath] is built by [new] and compared, ordered and hashed by
    its key.  On Linux the key is the normalized spelling, so the type is the
    normalized string. *)
Abbreviation NormalizedPath := string (only parsing).

Definition NormalizedPath_new (path : bytes) : NormalizedPath := normalize path.
Definition case_key (p : NormalizedPath) : bytes := normalize_for_key p.

(** [Path::strip_prefix]: the components that remain after those of [base]. *)
Fixpoint strip_components (cs base : list Component) {struct base} : option (list Component) :=
  match base, cs with
  | [], _ => Some cs
  | b :: base', c :: cs' => if bool_decide (c = b) then strip_components cs' base' else None
  | _ :: _, [] => None
  end.

Definition path_strip_prefix (path base : bytes) : option bytes :=
  collect_path <$> strip_components (components path) (components base).

Definition path_starts_with (path base : bytes) : bool :=
  bool_decide (is_Some (strip_components (components path) (components base))).

(** [NormalizedPath::starts_with], [strip_prefix] and [join]. *)
Definition np_starts_with (self : NormalizedPath) (base : bytes) : bool :=
  path_starts_with (case_key self) (case_key (NormalizedPath_new base)).
Definition np_strip_prefix (self : NormalizedPath) (base : bytes) : option bytes :=
  path_strip_prefix (case_key self) (case_key (NormalizedPath_new base)).
Definition np_join (self : NormalizedPath) (p : bytes) : NormalizedPath :=
  NormalizedPath_new (path_push self p).

(** [Path::file_name]: the last component when it is a name. *)
Definition file_name (path : bytes) : option bytes :=
  match last (components path) with Some (Normal n) => Some n | _ => None end.

(** The part before and after the last dot of a file name; a name whose only
    dot is its first character has no extension. *)
Fixpoint rsplit_dot (s : bytes) : option (bytes * bytes) :=
  match s with
  | EmptyString => None
  | String c s' =>
      match rsplit_dot s' with
      | Some (a, b) => Some (String c a, b)
      | None => if bool_decide (c = "."%char) then Some ("", s') else None
      end
  end.

Definition split_file_at_dot (n : bytes) : bytes * option bytes :=
  match rsplit_dot n with
  | None | Some (EmptyString, _) => (n, None)
  | Some (stem, ext) => (stem, Some ext)
  end.

(** [Path::file_stem], [Path::extension] and [Path::with_extension]. *)
Definition file_stem (path : bytes) : option bytes := (split_file_at_dot <$> file_name path) ≫= fun s => Some s.1.
Definition extension (path : bytes) : option bytes := (split_file_at_dot <$> file_name path) ≫= snd.
Definition with_extension (path ext : bytes) : bytes :=
  match file_name path with
  | None => path
  | Some n =>
      let stem := (split_file_at_dot n).1 in
      collect_path (removelast (components path) ++
                    [Normal (if bool_decide (ext = "") then stem else stem +:+ "." +:+ ext)])
  end.

(** [Path::parent]. *)
Definition path_parent (path : bytes) : option bytes :=
  match last (components path) with
  | None | Some RootDir => None
  | Some _ => Some (collect_path (removelast (components path)))
  end.

(** [stable_path_id]: 64-bit FNV-1a of the key, in sixteen hex digits. *)
Definition FNV_OFFSET : Z := 0xcbf29ce484222325.
Definition FNV_PRIME : Z := 0x100000001b3.

Fixpoint fnv1a (h : Z) (s : bytes) : Z :=
  match s with
  | EmptyString => h
  | String c s' => fnv1a (wrap64 (Z.lxor h (byte_val c) * FNV_PRIME)) s'
  end.

Definition stable_path_id (path : bytes) : bytes :=
  hex_fixed 16 (fnv1a FNV_OFFSET (normalize_for_key path)).

(** ** Lemmas *)

(** A component list as [components] can produce it and [normalize] leaves it:
    the root only at the front, names that are single pieces. *)
Definition name_ok (n : bytes) : bool :=
  negb (bool_decide (n = "")) && negb (bool_decide (n = ".")) && negb (bool_decide (n = ".."))
  && bool_decide (split_slash n = [n]).

Definition comp_ok (c : Component) : bool :=
  match c with ParentDir => true | Normal n => name_ok n | _ => false end.

Lemma split_slash_ne s : split_slash s <> [].
Proof. destruct s as [|c s]; simpl; [done|]. case_bool_decide; [done|]. by destruct (split_slash s). Qed.

(** No piece contains a separator. *)
Lemma split_slash_piece s p : p ∈ split_slash s -> split_slash p = [p].
Proof.
  revert p. induction s as [|c s IH]; intros p; simpl.
  { intros ->%list_elem_of_singleton. done. }
  case_bool_decide as Hc.
  { intros [->|Hp]%elem_of_cons; [done|]. by apply IH. }
  destruct (split_slash s) as [|q qs] eqn:Hq; [by destruct (split_slash_ne s)|].
  intros [->|Hp]%elem_of_cons; [|apply IH; by right].
  simpl. rewrite bool_decide_eq_false_2 by done. rewrite (IH q) by left. done.
Qed.

Lemma piece_component_ok s p c :
  p ∈ split_slash s -> piece_component p = Some c -> comp_ok c = true.
Proof.
  intros Hp%split_slash_piece. unfold piece_component.
  repeat case_bool_decide; simpl; intros [= <-]; simpl; [done|].
  unfold name_ok. rewrite (bool_decide_eq_true_2 _ Hp). by repeat case_bool_decide.
Qed.

Lemma components_shape s :
  exists cs, Forall (fun c => comp_ok c = true) cs /\
    (components s = RootDir :: cs \/ components s = CurDir :: cs \/ components s = cs).
Proof.
  exists (omap piece_component (split_slash s)). split.
  - apply Forall_forall. intros c [p [Hp Hc]]%list_elem_of_omap.
    by eapply piece_component_ok.
  - unfold components. destruct (has_root s); [by left|]. case_bool_decide; eauto.
Qed.

Lemma split_slash_sep a b : split_slash (a +:+ "/" +:+ b) = split_slash a ++ split_slash b.
Proof.
  change ("/" +:+ b) with (String slash b).
  induction a as [|c a IH]; simpl; [done|]. case_bool_decide; [by rewrite IH|].
  rewrite IH. destruct (split_slash a) eqn:Ha; [by destruct (split_slash_ne a)|done].
Qed.

Lemma ends_with_slash_inv s : ends_with_slash s = true -> exists a, s = a +:+ "/".
Proof.
  induction s as [|c s IH]; simpl; [done|]. destruct s as [|d s].
  - case_bool_decide as Hc; [|done]. intros _. exists "". by rewrite Hc.
  - intros [a Ha]%IH. exists (String c a). simpl. by rewrite Ha.
Qed.

Lemma has_root_app a b : a <> "" -> has_root (a +:+ b) = has_root a.
Proof. by destruct a. Qed.

Lemma name_single c : comp_ok c = true -> split_slash (component_str c) = [component_str c].
Proof.
  destruct c as [| | |n]; simpl; try done. unfold name_ok. rewrite !andb_true_iff.
  by intros [[[_ _] _] ?%bool_decide_eq_true].
Qed.

Lemma name_piece c : comp_ok c = true -> piece_component (component_str c) = Some c.
Proof.
  destruct c as [| | |n]; simpl; try done. unfold name_ok, piece_component.
  by repeat case_bool_decide.
Qed.

Lemma name_no_root c : comp_ok c = true -> has_root (component_str c) = false.
Proof.
  intros H%name_single. destruct (component_str c) as [|d s]; [done|]. simpl in *.
  case_bool_decide; [|done]. injection H as Hd. done.
Qed.

Lemma name_not_dot c : comp_ok c = true -> component_str c <> "." /\ component_str c <> "".
Proof.
  intros Hc. pose proof (name_piece c Hc) as Hp. unfold piece_component in Hp.
  by repeat case_bool_decide.
Qed.

(** Pushing a relative path onto a non-empty buffer appends its pieces. *)
Lemma components_push_rel buf r :
  has_root r = false -> buf <> "" ->
  components (path_push buf r) = components buf ++ omap piece_component (split_slash r).
Proof.
  intros Hr Hb. unfold path_push. rewrite Hr, bool_decide_eq_false_2 by done. cbn [orb].
  destruct (ends_with_slash buf) eqn:Hend.
  - destruct (ends_with_slash_inv _ Hend) as [a ->].
    unfold components. rewrite has_root_app by done.
    assert (split_slash (a +:+ "/") = split_slash a ++ [""]) as Hsa
      by exact (split_slash_sep a "").
    rewrite string_app_assoc, split_slash_sep, Hsa, !omap_app. simpl.
    destruct (split_slash a) eqn:Ha; [by destruct (split_slash_ne a)|]. simpl.
    by rewrite app_nil_r, app_assoc.
  - unfold components. rewrite has_root_app, split_slash_sep, omap_app by done.
    destruct (split_slash buf) eqn:Ha; [by destruct (split_slash_ne buf)|]. simpl.
    by rewrite app_assoc.
Qed.

(** Pushing a single component appends it to the component list. *)
Lemma components_push buf c :
  comp_ok c = true ->
  components (path_push buf (component_str c)) = components buf ++ [c].
Proof.
  intros Hc. pose proof (name_no_root c Hc) as Hr. pose proof (name_piece c Hc) as Hp.
  pose proof (name_single c Hc) as Hs. destruct (name_not_dot c Hc) as [Hd He].
  destruct (decide (buf = "")) as [->|Hb].
  - unfold path_push. rewrite Hr. unfold components; simpl.
    rewrite Hr, Hs; simpl. rewrite Hp. by case_bool_decide; simplify_eq.
  - rewrite components_push_rel, Hs by done. simpl. by rewrite Hp.
Qed.

(** The invariant of the accumulator of [normalize]: the root only at the
    bottom, no [.], and no [..] that a name above the root could cancel. *)
Fixpoint acc_ok (acc : list Component) : bool :=
  match acc with
  | [] => true
  | c :: acc' =>
      (match c with
       | RootDir => bool_decide (acc' = [])
       | CurDir => false
       | ParentDir => match acc' with Normal _ :: _ => false | _ => true end
       | Normal n => name_ok n
       end) && acc_ok acc'
  end.

Lemma normalize_step_ok acc c :
  comp_ok c = true -> acc_ok acc = true -> acc_ok (normalize_step acc c) = true.
Proof.
  destruct c as [| | |n]; simpl; try done.
  - intros _. destruct acc as [|[] acc]; simpl; try done. by intros [_ ?]%andb_true_iff.
  - by intros -> ->.
Qed.

Lemma normalize_fold_ok cs acc :
  Forall (fun c => comp_ok c = true) cs -> acc_ok acc = true ->
  acc_ok (fold_left normalize_step cs acc) = true.
Proof.
  intros Hcs. revert acc. induction Hcs; simpl; [done|]. auto using normalize_step_ok.
Qed.

Lemma normalize_acc_ok s : acc_ok (fold_left normalize_step (components s) []) = true.
Proof.
  destruct (components_shape s) as (cs & Hcs & [->|[->| ->]]); simpl;
    by apply normalize_fold_ok.
Qed.

(** A normalized component list survives a round trip through its text. *)
Lemma components_collect acc : acc_ok acc = true -> components (collect_path (reverse acc)) = reverse acc.
Proof.
  unfold collect_path. induction acc as [|c acc IH]; [done|].
  simpl. intros [Hc Hacc]%andb_true_iff. rewrite reverse_cons, fold_left_app. simpl.
  destruct c as [| | |n]; try done.
  - by apply bool_decide_eq_true in Hc as ->.
  - rewrite components_push by done. by rewrite IH.
  - rewrite components_push by done. by rewrite IH.
Qed.

Lemma normalize_fixed acc : acc_ok acc = true -> fold_left normalize_step (reverse acc) [] = acc.
Proof.
  induction acc as [|c acc IH]; [done|]. simpl. intros [Hc Hacc]%andb_true_iff.
  rewrite reverse_cons, fold_left_app, IH by done. simpl.
  destruct c as [| | |n]; try done. by destruct acc as [|[] acc].
Qed.

Lemma components_normalize p : components (normalize p) = normalize_components (components p).
Proof. apply components_collect, normalize_acc_ok. Qed.

(** A path is absolute when its first component is the root; normalization
    keeps it. *)
Lemma has_root_components s : has_root s = true <-> head (components s) = Some RootDir.
Proof.
  unfold components. destruct (has_root s); [done|]. split; [done|]. case_bool_decide as Hh; [done|]. clear Hh. simpl.
  induction (split_slash s) as [|p ps IH]; simpl; [done|].
  unfold piece_component at 1. destruct (_ || _); [exact IH|]. by case_bool_decide.
Qed.

Lemma normalize_keeps_root cs acc :
  last acc = Some RootDir -> last (fold_left normalize_step cs acc) = Some RootDir.
Proof.
  revert acc. induction cs as [|c cs IH]; intros acc H; simpl; [done|]. apply IH.
  destruct acc as [|a acc]; [done|]. destruct c; [done..| |done].
  destruct a; [done..|]. cbn [normalize_step]. by destruct acc.
Qed.

Lemma has_root_normalize p : has_root p = true -> has_root (normalize p) = true.
Proof.
  rewrite !has_root_components, components_normalize. unfold normalize_components.
  destruct (components p) as [|c cs]; [done|]. intros [= ->]. rewrite head_reverse. exact (normalize_keeps_root cs [RootDir] eq_refl).
Qed.

Lemma normalize_components_idem p :
  normalize_components (normalize_components (components p)) = normalize_components (components p).
Proof. unfold normalize_components. by rewrite normalize_fixed by apply normalize_acc_ok. Qed.

Lemma normalize_idem p : normalize (normalize p) = normalize p.
Proof. unfold normalize at 1. by rewrite components_normalize, normalize_components_idem. Qed.

(** Two normalized paths with the same components are the same string. *)
Lemma normalize_inj_components p q :
  components (normalize p) = components (normalize q) -> normalize p = normalize q.
Proof. rewrite !components_normalize. unfold normalize. by intros ->. Qed.

Lemma strip_components_app base rest : strip_components (base ++ rest) base = Some rest.
Proof. induction base; simpl; [done|]. by rewrite bool_decide_eq_true_2. Qed.

Lemma strip_components_Some cs base rest :
  strip_components cs base = Some rest <-> cs = base ++ rest.
Proof.
  split; [|intros ->; apply strip_components_app]. revert cs.
  induction base as [|b base IH]; intros [|c cs]; simpl;
    try (by intros ?; simplify_eq).
  case_bool_decide as Hc; [|done]. intros ->%IH. by rewrite Hc.
Qed.

Lemma acc_ok_no_curdir acc : acc_ok acc = true -> CurDir ∉ acc.
Proof.
  induction acc as [|c acc IH]; simpl; [intros _; apply not_elem_of_nil|].
  intros [Hc Hacc]%andb_true_iff [Heq|Hin]%elem_of_cons; [|by apply IH].
  by subst c.
Qed.

Lemma acc_ok_no_cancel acc l n r :
  acc_ok acc = true -> reverse acc <> l ++ Normal n :: ParentDir :: r.
Proof.
  intros Hok Heq. apply (f_equal reverse) in Heq.
  rewrite reverse_involutive, reverse_app, !reverse_cons, <-!app_assoc in Heq. simpl in Heq.
  subst acc. revert Hok. induction (reverse r) as [|c r' IH]; simpl; [done|].
  by intros [_ ?]%andb_true_iff.
Qed.

Lemma components_collect_rel cs :
  Forall (fun c => comp_ok c = true) cs -> components (collect_path cs) = cs.
Proof.
  unfold collect_path. induction cs as [|c cs IH] using rev_ind; [done|].
  intros [Hcs Hc]%Forall_app. rewrite fold_left_app. simpl.
  apply Forall_cons in Hc as [Hc _]. by rewrite components_push, (IH Hcs).
Qed.

(** The shape of a normalized component list: an optional root and names. *)
Lemma acc_ok_shape acc :
  acc_ok acc = true ->
  exists cs, Forall (fun c => comp_ok c = true) cs /\
    (reverse acc = RootDir :: cs \/ reverse acc = cs).
Proof.
  induction acc as [|c acc IH]; simpl.
  - intros _. exists []. eauto.
  - intros [Hc Hacc]%andb_true_iff. rewrite reverse_cons.
    destruct (IH Hacc) as (cs & Hcs & Hrev).
    destruct c as [| | |n]; try done.
    + apply bool_decide_eq_true in Hc as ->. exists []. split; [done|]. by left.
    + exists (cs ++ [ParentDir]). split; [apply Forall_app; by rewrite Forall_singleton|].
      destruct Hrev as [-> | ->]; eauto.
    + exists (cs ++ [Normal n]). split; [apply Forall_app; by rewrite Forall_singleton|].
      destruct Hrev as [-> | ->]; eauto.
Qed.

(** Pushing the text of plain components appends them. *)
Lemma components_push_names buf rest :
  buf <> "" -> Forall (fun c => comp_ok c = true) rest ->
  components (path_push buf (collect_path rest)) = components buf ++ rest.
Proof.
  intros Hbuf Hrest. pose proof (components_collect_rel _ Hrest) as Hcr.
  assert (has_root (collect_path rest) = false) as Hnr.
  { destruct (has_root (collect_path rest)) eqn:Hr; [|done]. unfold components in Hcr.
    rewrite Hr in Hcr. simpl in Hcr. rewrite <- Hcr in Hrest. by apply Forall_cons in Hrest as [? _]. }
  rewrite components_push_rel by done. f_equal. rewrite <- Hcr at 2. unfold components. rewrite Hnr.
  case_bool_decide as Hdot; [|done]. exfalso. unfold components in Hcr.
  rewrite Hnr, bool_decide_eq_true_2 in Hcr by done. simpl in Hcr. rewrite <- Hcr in Hrest.
  by apply Forall_cons in Hrest as [? _].
Qed.

(** What is left of a normalized path after a prefix rejoins to the path. *)
Lemma components_rejoin p b rest :
  components (normalize p) = components (normalize b) ++ rest ->
  components (path_push (normalize b) (collect_path rest)) = components (normalize p).
Proof.
  intros Heq. destruct (acc_ok_shape _ (normalize_acc_ok p)) as (cs & Hcs & Hshape).
  fold (normalize_components (components p)) in Hshape.
  rewrite <- components_normalize, Heq in Hshape.
  destruct (components (normalize b)) as [|d base] eqn:Hb.
  - assert (normalize b = "") as Hempty.
    { rewrite components_normalize in Hb. unfold normalize. by rewrite Hb. }
    rewrite Hempty. simpl in Heq. rewrite Heq.
    assert (path_push "" (collect_path rest) = collect_path rest) as ->
      by (unfold path_push; by destruct (has_root _)).
    rewrite <- Heq, components_normalize. apply components_collect, normalize_acc_ok.
  - assert (Forall (fun c => comp_ok c = true) rest) as Hrest.
    { destruct Hshape as [H|H]; simplify_eq/=; [by apply Forall_app in Hcs as [_ ?]|].
      apply Forall_cons in Hcs as [_ Hcs]. by apply Forall_app in Hcs as [_ ?]. }
    rewrite components_push_names, Heq, Hb; [done| |done]. intros He. by rewrite He in Hb.
Qed.

(** ** Properties *)

(** [normalize] computes a canonical form.  Normalizing twice changes
    nothing, no [.] is left, and no [..] is left that follows a name: every
    [..] that could be resolved lexically has been. *)
Theorem normalize_canonical (p : bytes) :
  normalize (normalize p) = normalize p /\
  (CurDir ∉ components (normalize p)) /\
  (forall l n r, components (normalize p) <> l ++ Normal n :: ParentDir :: r).
Proof.
  split; [apply normalize_idem|]. rewrite components_normalize. unfold normalize_components.
  split.
  - rewrite elem_of_reverse. apply acc_ok_no_curdir, normalize_acc_ok.
  - intros l n r. apply acc_ok_no_cancel, normalize_acc_ok.
Qed.

Lemma case_key_new (p : bytes) : case_key (NormalizedPath_new p) = NormalizedPath_new p.
Proof. apply normalize_idem. Qed.

(** [NormalizedPath::starts_with] and [strip_prefix] work on whole
    components, and [strip_prefix] is undone by [join]: the path is under
    [base] exactly when the components of the normalized base are a prefix of
    its own ([/include2] is not under [/include]), and then stripping the base
    and joining what is left to it gives the path back. *)
Theorem starts_with_strip_join (p base : bytes) :
  (np_starts_with (NormalizedPath_new p) base = true <->
     exists rest, components (NormalizedPath_new p)
                  = components (NormalizedPath_new base) ++ rest) /\
  (forall rel, np_strip_prefix (NormalizedPath_new p) base = Some rel ->
     np_starts_with (NormalizedPath_new p) base = true /\
     np_join (NormalizedPath_new base) rel = NormalizedPath_new p).
Proof.
  unfold np_starts_with, np_strip_prefix, path_starts_with, path_strip_prefix.
  rewrite !case_key_new. split.
  - rewrite bool_decide_eq_true. split.
    + intros [rest Hs%strip_components_Some]. eauto.
    + intros [rest Hs]. exists rest. by apply strip_components_Some.
  - intros rel (rest & Hs & ->)%fmap_Some. split.
    + by rewrite bool_decide_eq_true, Hs.
    + apply strip_components_Some, components_rejoin in Hs.
      unfold np_join, NormalizedPath_new in *. rewrite <- (normalize_idem p).
      unfold normalize at 1. rewrite Hs. done.
Qed.

Example starts_with_component_boundary :
  np_starts_with (NormalizedPath_new "/usr/include2/a.h") "/usr/include" = false /\
  np_strip_prefix (NormalizedPath_new "/w/./src/../src/a.c") "/w/" = Some "src/a.c" /\
  normalize "/w/a/../../../b" = "/../b".
Proof. vm_compute. done. Qed.
