(* ===== verification/Clock.v ===== *)
(** * The change journal ([zccache-fscache/src/clock.rs])

    The daemon's watcher reports settled batches of changed paths; each batch
    advances a clock.  A client keeps the clock of its last look at a file and
    asks whether the file has changed since.  This file models the journal
    operation by operation and relates it to an abstract history that forgets
    nothing: the per-file map may be trimmed, cleared and re-registered, but it
    never answers "not changed" when the history has a change. *)

From S2P Require Import Prelude Path.
From Stdlib Require Import Lia.

(** A [Clock] is a [u64] tick. *)
Abbreviation Clock := Z (only parsing).
Definition Clock_ZERO : Clock := 0.

Record ChangeJournal := mkJournal {
  current : Z;                                      (* AtomicU64 *)
  journal : list (Clock * list NormalizedPath);     (* BTreeMap *)
  last_change : gmap NormalizedPath Clock;          (* DashMap *)
  last_overflow : Z;                                (* AtomicU64 *)
  max_journal_entries : nat;
}.

Definition with_capacity (max_entries : nat) : ChangeJournal :=
  {| current := 0; journal := []; last_change := ∅; last_overflow := 0;
     max_journal_entries := max_entries |}.

Definition ChangeJournal_new : ChangeJournal := with_capacity (Z.to_nat 10000).

Definition current_clock (j : ChangeJournal) : Clock := current j.

(** [self.current.fetch_add(1) + 1]: the counter wraps at 64 bits. *)
Definition fetch_tick (j : ChangeJournal) : Z := wrap64 (current j + 1).

(** [while journal.len() > max { journal.pop_first(); }] *)
Fixpoint trim_journal (max_entries : nat) (l : list (Clock * list NormalizedPath)) :
    list (Clock * list NormalizedPath) :=
  match l with
  | [] => []
  | _ :: l' => if (max_entries <? length l)%nat then trim_journal max_entries l' else l
  end.

Definition record_last_change (clock : Clock) (paths : list NormalizedPath)
    (m : gmap NormalizedPath Clock) : gmap NormalizedPath Clock :=
  fold_left (fun m p => <[p := clock]> m) paths m.

Definition advance (j : ChangeJournal) (changed_paths : list NormalizedPath) :
    ChangeJournal * Clock :=
  let clock := fetch_tick j in
  ({| current := clock;
      journal := trim_journal (max_journal_entries j)
                   (bt_insert Z.compare clock changed_paths (journal j));
      last_change := record_last_change clock changed_paths (last_change j);
      last_overflow := last_overflow j;
      max_journal_entries := max_journal_entries j |}, clock).

Definition changed_since (j : ChangeJournal) (path : NormalizedPath) (since : Clock) : bool :=
  if (0 <? last_overflow j) && (since <? last_overflow j) then true
  else match last_change j !! path with
       | Some last => since <? last
       | None => true
       end.

Definition changes_since (j : ChangeJournal) (since : Clock) : list NormalizedPath :=
  concat (snd <$> filter (fun e => since < e.1) (journal j)).

Definition mark_overflow (j : ChangeJournal) : ChangeJournal * Clock :=
  let new_tick := fetch_tick j in
  ({| current := new_tick; journal := journal j; last_change := last_change j;
      last_overflow := new_tick; max_journal_entries := max_journal_entries j |}, new_tick).

Definition journal_clear (j : ChangeJournal) : ChangeJournal * Clock :=
  mark_overflow {| current := current j; journal := []; last_change := ∅;
                   last_overflow := last_overflow j;
                   max_journal_entries := max_journal_entries j |}.

Definition retain_paths (j : ChangeJournal) (live : gset NormalizedPath) :
    ChangeJournal * nat :=
  let kept := filter (fun e => e.1 ∈ live) (last_change j) in
  ({| current := current j; journal := journal j; last_change := kept;
      last_overflow := last_overflow j; max_journal_entries := max_journal_entries j |},
   (size (last_change j) - size kept)%nat).

Definition last_change_len (j : ChangeJournal) : nat := size (last_change j).

(** [self.last_change.entry(path).or_insert(current)]. *)
Definition register (j : ChangeJournal) (path : NormalizedPath) : ChangeJournal :=
  {| current := current j; journal := journal j;
     last_change := match last_change j !! path with
                    | Some _ => last_change j
                    | None => <[path := current j]> (last_change j)
                    end;
     last_overflow := last_overflow j; max_journal_entries := max_journal_entries j |}.

(** ** Operation sequences and the abstract history *)

Inductive JournalOp :=
  | Advance (paths : list NormalizedPath)
  | MarkOverflow
  | Clear
  | RetainPaths (live : gset NormalizedPath)
  | Register (path : NormalizedPath).

Definition journal_step (j : ChangeJournal) (op : JournalOp) : ChangeJournal :=
  match op with
  | Advance ps => (advance j ps).1
  | MarkOverflow => (mark_overflow j).1
  | Clear => (journal_clear j).1
  | RetainPaths live => (retain_paths j live).1
  | Register p => register j p
  end.

Definition journal_run (j : ChangeJournal) (ops : list JournalOp) : ChangeJournal :=
  fold_left journal_step ops j.

(** The history keeps what really happened: the tick of the last reported
    change of each path, the tick of the last loss of information, and the
    batches reported since the journal was last cleared. *)
Record History := mkHistory {
  h_now : Z;
  h_last : gmap NormalizedPath Z;
  h_lost : Z;
  h_log : list (Z * list NormalizedPath);
}.

Definition history_init : History :=
  {| h_now := 0; h_last := ∅; h_lost := 0; h_log := [] |}.

Definition history_step (h : History) (op : JournalOp) : History :=
  let t := h_now h + 1 in
  match op with
  | Advance ps =>
      {| h_now := t; h_last := record_last_change t ps (h_last h);
         h_lost := h_lost h; h_log := h_log h ++ [(t, ps)] |}
  | MarkOverflow => {| h_now := t; h_last := h_last h; h_lost := t; h_log := h_log h |}
  | Clear => {| h_now := t; h_last := h_last h; h_lost := t; h_log := [] |}
  | RetainPaths _ | Register _ => h
  end.

Definition history_run (ops : list JournalOp) : History :=
  fold_left history_step ops history_init.

(** "Changed since" as the history knows it. *)
Definition history_changed (h : History) (p : NormalizedPath) (since : Z) : bool :=
  (since <? h_lost h) ||
  match h_last h !! p with Some c => since <? c | None => false end.

(** ** The simulation *)

Record journal_refines (cap : nat) (j : ChangeJournal) (h : History) : Prop := {
  jr_now : current j = h_now h;
  jr_cap : max_journal_entries j = cap;
  jr_lost : last_overflow j = h_lost h;
  jr_pos : 0 <= h_lost h <= h_now h;
  jr_last : forall p c, last_change j !! p = Some c ->
      c <= h_now h /\ (forall c', h_last h !! p = Some c' -> c' <= c);
  jr_hist : forall p c, h_last h !! p = Some c -> c <= h_now h;
  jr_sorted : Forall (fun e => e.1 <= h_now h) (h_log h);
  jr_log : journal j = drop (length (h_log h) - cap) (h_log h);
}.

Lemma trim_journal_drop cap l : trim_journal cap l = drop (length l - cap) l.
Proof.
  induction l as [|e l IH]; [done|]. cbn [trim_journal].
  destruct (Nat.ltb_spec cap (length (e :: l))) as [Hlt|Hge].
  - rewrite IH. simpl in Hlt.
    replace (length (e :: l) - cap)%nat with (S (length l - cap)) by (simpl; lia). done.
  - replace (length (e :: l) - cap)%nat with 0%nat by lia. done.
Qed.

Lemma record_last_change_lookup clock ps m p :
  record_last_change clock ps m !! p = if decide (p ∈ ps) then Some clock else m !! p.
Proof.
  unfold record_last_change. revert m. induction ps as [|q ps IH]; intros m; cbn [fold_left].
  - by rewrite decide_False by apply not_elem_of_nil.
  - rewrite IH. repeat case_decide; try done; try set_solver.
    + assert (p = q) as -> by set_solver. by rewrite lookup_insert_eq.
    + rewrite lookup_insert_ne; [done|]. set_solver.
Qed.

(** Appending to a window of the last [cap] entries and trimming it again is
    the window of the longer list. *)
Lemma drop_window_snoc {A} cap (l : list A) x :
  let w := drop (length l - cap) l ++ [x] in
  drop (length w - cap) w = drop (length (l ++ [x]) - cap) (l ++ [x]).
Proof.
  intros w. unfold w. rewrite <- drop_app_le by lia. rewrite drop_drop, length_drop, length_app.
  f_equal. simpl. lia.
Qed.

Lemma journal_refines_step cap j h op :
  h_now h + 1 < 2 ^ 64 -> journal_refines cap j h ->
  journal_refines cap (journal_step j op) (history_step h op).
Proof.
  intros Hb [Hnow Hcap Hlost Hpos Hlast Hhist Hsort Hlog].
  assert (fetch_tick j = h_now h + 1) as Htick
    by (unfold fetch_tick; rewrite Hnow; apply wrap64_small; lia).
  destruct op as [ps| | |live|q]; simpl.
  - constructor; simpl; try lia; try done.
    + intros p c. rewrite !record_last_change_lookup, Htick. case_decide.
      * intros [= <-]. split; [lia|]. intros c' [= <-]. lia.
      * intros [Hc ?]%Hlast. split; [lia|done].
    + intros p c. rewrite record_last_change_lookup.
      case_decide; [intros [= <-]; lia|intros ?%Hhist; lia].
    + apply Forall_app. split; [|repeat constructor; simpl; lia].
      eapply Forall_impl; [done|]. simpl. lia.
    + rewrite Hcap, Htick, bt_insert_last; [|].
      * rewrite trim_journal_drop, Hlog. apply drop_window_snoc.
      * rewrite Hlog. apply Forall_drop. eapply Forall_impl; [done|]. simpl. lia.
  - constructor; simpl; try lia; try done.
    + intros p c [Hc ?]%Hlast. split; [lia|done].
    + intros p c ?%Hhist. lia.
    + eapply Forall_impl; [done|]. simpl. lia.
  - constructor; simpl; try lia; try done.
    intros p c ?%Hhist. lia.
  - constructor; simpl; try lia; try done.
    intros p c [Hp _]%map_lookup_filter_Some. by apply Hlast.
  - constructor; simpl; try lia; try done.
    intros p c Hp. destruct (last_change j !! q) eqn:Hq; [by apply Hlast|].
    destruct (decide (q = p)) as [->|Hne]; [|rewrite lookup_insert_ne in Hp by done; eauto].
    rewrite lookup_insert_eq in Hp. injection Hp as <-. rewrite Hnow. split; [lia|eauto].
Qed.

Lemma journal_refines_init cap : journal_refines cap (with_capacity cap) history_init.
Proof. constructor; try done; intros p c H; by apply lookup_empty_Some in H. Qed.

Lemma history_run_bound ops : 0 <= h_now (history_run ops) <= Z.of_nat (length ops).
Proof.
  unfold history_run. induction ops as [|op ops IH] using rev_ind; [done|].
  rewrite fold_left_app, length_app. destruct op; simpl in *; lia.
Qed.

Lemma journal_run_refines cap ops :
  Z.of_nat (length ops) < 2 ^ 64 ->
  journal_refines cap (journal_run (with_capacity cap) ops) (history_run ops).
Proof.
  unfold journal_run, history_run.
  induction ops as [|op ops IH] using rev_ind; intros Hlen; [apply journal_refines_init|].
  rewrite length_app in Hlen. simpl in Hlen. rewrite !fold_left_app. simpl.
  pose proof (history_run_bound ops) as Hb. unfold history_run in Hb.
  apply journal_refines_step; [lia|]. apply IH. lia.
Qed.

(** ** Properties *)

(** The journal is a sound summary of the full history.  After any
    sequence of batches, overflows, clears, trims of the per-file map and
    registrations, an answer "not changed since [since]" means that the history
    has neither a change of that path nor a loss of events after [since].
    The sequence is shorter than 2^64 operations, so that the clock has not
    wrapped. *)
Theorem changed_since_sound (cap : nat) (ops : list JournalOp) (p : NormalizedPath) (since : Z) :
  Z.of_nat (length ops) < 2 ^ 64 -> 0 <= since ->
  changed_since (journal_run (with_capacity cap) ops) p since = false ->
  history_changed (history_run ops) p since = false.
Proof.
  intros Hlen Hs. destruct (journal_run_refines cap ops Hlen) as [_ _ Hlost Hpos Hlast _ _ _].
  unfold changed_since, history_changed. rewrite Hlost.
  destruct (Z.ltb_spec since (h_lost (history_run ops))).
  { rewrite (proj2 (Z.ltb_lt 0 _)) by lia. done. }
  rewrite andb_false_r. simpl.
  destruct (last_change _ !! p) as [c|] eqn:Hc; [|done]. rewrite Z.ltb_ge. intros Hle.
  destruct (h_last _ !! p) as [c'|] eqn:Hc'; [|done]. rewrite Z.ltb_ge.
  apply Hlast in Hc as [_ Hc]. specialize (Hc c' Hc'). lia.
Qed.

Definition journal_demo : list JournalOp :=
  [Register "/a.h"; Advance ["/a.h"; "/b.h"]; RetainPaths {["/b.h"]}; Register "/a.h";
   Advance ["/c.h"]].

Lemma changed_since_sound_witness :
  changed_since (journal_run (with_capacity 2) journal_demo) "/a.h" 1 = false /\
  history_changed (history_run journal_demo) "/a.h" 1 = false.
Proof.
  split; [vm_compute; reflexivity|].
  apply (changed_since_sound 2); vm_compute; congruence || reflexivity.
Defined.

(** The journal keeps exactly the last [max_journal_entries] batches
    reported since it was last cleared, in order.  [changes_since] therefore
    never holds more than the capacity, and it is complete (every path of every
    later batch, in order) for each clock after which at most [cap] batches
    were reported. *)
Theorem changes_since_window (cap : nat) (ops : list JournalOp) (since : Z) :
  Z.of_nat (length ops) < 2 ^ 64 ->
  let j := journal_run (with_capacity cap) ops in
  let log := h_log (history_run ops) in
  (length (journal j) <= cap)%nat /\
  journal j = drop (length log - cap) log /\
  (Forall (fun e => e.1 <= since) (take (length log - cap) log) ->
   changes_since j since = concat (snd <$> filter (fun e => since < e.1) log)).
Proof.
  intros Hlen j log. destruct (journal_run_refines cap ops Hlen) as [_ _ _ _ _ _ _ Hlog].
  fold j log in Hlog. split; [rewrite Hlog, length_drop; lia|]. split; [done|].
  intros Hold. unfold changes_since. rewrite Hlog. do 2 f_equal.
  rewrite <- (take_drop (length log - cap) log) at 3. rewrite filter_app.
  replace (filter _ (take _ _)) with (@nil (Z * list NormalizedPath)); [done|].
  induction Hold as [|e l He _ IH]; [done|]. rewrite filter_cons, decide_False by lia. done.
Qed.

Lemma changes_since_window_witness :
  let j := journal_run (with_capacity 2) journal_demo in
  let log := h_log (history_run journal_demo) in
  (length (journal j) <= 2)%nat /\ journal j = drop (length log - 2) log /\
  (Forall (fun e => e.1 <= 0) (take (length log - 2) log) ->
   changes_since j 0 = concat (snd <$> filter (fun e => 0 < e.1) log)).
Proof. apply changes_since_window. vm_compute. reflexivity. Defined.
