(* ===== verification/Hash.v ===== *)
(** * Hashing and cache keys ([zccache-hash])

    [ContentHash], its hex form and shard prefix, the streaming hasher, and the
    two key builders of the crate.  Blake3 itself is an external crate: it is
    the class [Blake3], a function with the digest length it documents.  What a
    key identifies is stated on preimages, and on keys up to an explicit
    blake3 collision. *)

From S2P Require Import Prelude Path.
From Stdlib Require Import Lia.

(** ** Blake3 *)

Class Blake3 := {
  blake3 : bytes -> bytes;
  blake3_length : forall m, String.length (blake3 m) = 32%nat;
}.

(** The two messages are different and have one digest.  Some messages do, so
    the statements below name the messages. *)
Definition blake3_collision {B3 : Blake3} (m1 m2 : bytes) : Prop :=
  m1 <> m2 /\ blake3 m1 = blake3 m2.

Lemma blake3_eq {B3 : Blake3} (m1 m2 : bytes) :
  blake3 m1 = blake3 m2 -> m1 = m2 \/ blake3_collision m1 m2.
Proof.
  intros Heq. destruct (decide (m1 = m2)); [by left|by right].
Qed.

(** A stand-in digest to evaluate the model with: the last 32 bytes of the
    message in reverse, padded. *)
Fixpoint pad_to (n : nat) (s : bytes) : bytes :=
  match n with
  | O => ""
  | S n' => match s with
            | EmptyString => String "." (pad_to n' "")
            | String c s' => String c (pad_to n' s')
            end
  end.

Lemma pad_to_length n s : String.length (pad_to n s) = n.
Proof. revert s. induction n as [|n IH]; intros [|c s]; simpl; by rewrite ?IH. Qed.

Fixpoint string_rev_app (s acc : bytes) : bytes :=
  match s with EmptyString => acc | String c s' => string_rev_app s' (String c acc) end.

Definition toy_blake3 : Blake3 :=
  {| blake3 := fun m => pad_to 32 (string_rev_app m "");
     blake3_length := fun m => pad_to_length 32 (string_rev_app m "") |}.

(** ** [ContentHash] *)

Abbreviation ContentHash := string (only parsing).

Definition hash_wf (h : ContentHash) : Prop := String.length h = 32%nat.

Fixpoint hex_encode (b : bytes) : bytes :=
  match b with
  | EmptyString => ""
  | String c b' => hex_fixed 2 (byte_val c) +:+ hex_encode b'
  end.

Definition to_hex (h : ContentHash) : bytes := hex_encode h.

(** [shard_prefix] panics ([None]) when the prefix is longer than the hash. *)
Definition shard_prefix (h : ContentHash) (levels bytes_per_level : nat) : option (list bytes) :=
  let hex := to_hex h in
  let chars_per_level := (bytes_per_level * 2)%nat in
  if (levels * chars_per_level <=? String.length hex)%nat
  then Some ((fun i => String.substring (i * chars_per_level) chars_per_level hex) <$> seq 0 levels)
  else None.

Definition hash_bytes {B3 : Blake3} (data : bytes) : ContentHash := blake3 data.

(** [StreamHasher]: the bytes fed so far; blake3 of a stream is blake3 of the
    concatenation of its updates. *)
Record StreamHasher := mkStream { fed : bytes }.

Definition stream_new : StreamHasher := {| fed := "" |}.
Definition stream_update (s : StreamHasher) (data : bytes) : StreamHasher :=
  {| fed := fed s +:+ data |}.
Definition stream_finalize {B3 : Blake3} (s : StreamHasher) : ContentHash := blake3 (fed s).

(** [hash_reader]: one [read] at a time into a 16 KiB buffer until a read of
    zero bytes.  A reader is the list of results its reads give; running off the
    list is the end of the file. *)
Fixpoint hash_reader_loop {E} (s : StreamHasher) (reads : list (E + bytes)) : E + StreamHasher :=
  match reads with
  | [] => inr s
  | inl e :: _ => inl e
  | inr chunk :: rest =>
      if bool_decide (chunk = "") then inr s else hash_reader_loop (stream_update s chunk) rest
  end.

Definition hash_reader {B3 : Blake3} {E} (reads : list (E + bytes)) : E + ContentHash :=
  match hash_reader_loop stream_new reads with
  | inl e => inl e
  | inr s => inr (stream_finalize s)
  end.

Definition MMAP_HASH_THRESHOLD_BYTES : Z := 64 * 1024.

(** [hash_open_file]: the empty digest for a recorded length of zero, buffered
    reads below the threshold, and above it the facade's [blake3_open_file],
    which hashes the same handle; [mapped] is what it returns. *)
Definition hash_open_file {B3 : Blake3} {E} (reads : list (E + bytes)) (mapped : E + ContentHash)
    (len : Z) : E + ContentHash :=
  if len =? 0 then inr (hash_bytes "")
  else if len <? MMAP_HASH_THRESHOLD_BYTES then hash_reader reads
  else mapped.

(** ** [CacheKeyBuilder] *)

Record CacheKeyBuilder := mkCacheKeyBuilder {
  compiler_id : option ContentHash;
  arguments : list bytes;
  ck_env_vars : list (bytes * bytes);              (* BTreeMap *)
  source_hash : option ContentHash;
  dependency_hashes : list (bytes * ContentHash);  (* BTreeMap *)
}.

Definition ck_new : CacheKeyBuilder := mkCacheKeyBuilder None [] [] None [].
Definition ck_compiler (h : ContentHash) (b : CacheKeyBuilder) : CacheKeyBuilder :=
  mkCacheKeyBuilder (Some h) (arguments b) (ck_env_vars b) (source_hash b) (dependency_hashes b).
Definition ck_arg (a : bytes) (b : CacheKeyBuilder) : CacheKeyBuilder :=
  mkCacheKeyBuilder (compiler_id b) (arguments b ++ [a]) (ck_env_vars b) (source_hash b)
    (dependency_hashes b).
Definition ck_env (k v : bytes) (b : CacheKeyBuilder) : CacheKeyBuilder :=
  mkCacheKeyBuilder (compiler_id b) (arguments b) (bt_insert String.compare k v (ck_env_vars b))
    (source_hash b) (dependency_hashes b).
Definition ck_source (h : ContentHash) (b : CacheKeyBuilder) : CacheKeyBuilder :=
  mkCacheKeyBuilder (compiler_id b) (arguments b) (ck_env_vars b) (Some h) (dependency_hashes b).
Definition ck_dependency (n : bytes) (h : ContentHash) (b : CacheKeyBuilder) : CacheKeyBuilder :=
  mkCacheKeyBuilder (compiler_id b) (arguments b) (ck_env_vars b) (source_hash b)
    (bt_insert String.compare n h (dependency_hashes b)).

Definition nul_terminated (l : list bytes) : bytes :=
  concat_bytes ((fun a => a +:+ nul) <$> l).
Definition env_section (l : list (bytes * bytes)) : bytes :=
  concat_bytes ((fun '(k, v) => k +:+ "=" +:+ v +:+ nul) <$> l).
Definition hash_section (l : list (bytes * ContentHash)) : bytes :=
  concat_bytes ((fun '(n, h) => n +:+ nul +:+ h +:+ nul) <$> l).

(** The bytes [build] feeds to the hasher; [None] where it panics. *)
Definition ck_preimage (b : CacheKeyBuilder) : option bytes :=
  compiler ← compiler_id b;
  source ← source_hash b;
  Some (("zccache-cache-key-v2" +:+ nul) +:+ compiler +:+ nul_terminated (arguments b)
        +:+ env_section (ck_env_vars b) +:+ source +:+ hash_section (dependency_hashes b)).

Definition ck_build {B3 : Blake3} (b : CacheKeyBuilder) : option ContentHash :=
  blake3 <$> ck_preimage b.

(** ** [LinkCacheKeyBuilder] *)

Record LinkCacheKeyBuilder := mkLinkKeyBuilder {
  tool_id : option ContentHash;
  lk_flags : list bytes;
  lk_env_vars : list (bytes * bytes);              (* BTreeMap *)
  input_hashes : list ContentHash;
}.

Definition lk_new : LinkCacheKeyBuilder := mkLinkKeyBuilder None [] [] [].
Definition lk_tool (h : ContentHash) (b : LinkCacheKeyBuilder) : LinkCacheKeyBuilder :=
  mkLinkKeyBuilder (Some h) (lk_flags b) (lk_env_vars b) (input_hashes b).
Definition lk_flag (f : bytes) (b : LinkCacheKeyBuilder) : LinkCacheKeyBuilder :=
  mkLinkKeyBuilder (tool_id b) (lk_flags b ++ [f]) (lk_env_vars b) (input_hashes b).
Definition lk_env (k v : bytes) (b : LinkCacheKeyBuilder) : LinkCacheKeyBuilder :=
  mkLinkKeyBuilder (tool_id b) (lk_flags b) (bt_insert String.compare k v (lk_env_vars b))
    (input_hashes b).
Definition lk_input (h : ContentHash) (b : LinkCacheKeyBuilder) : LinkCacheKeyBuilder :=
  mkLinkKeyBuilder (tool_id b) (lk_flags b) (lk_env_vars b) (input_hashes b ++ [h]).

Definition lk_preimage (b : LinkCacheKeyBuilder) : option bytes :=
  tool ← tool_id b;
  if bool_decide (input_hashes b = []) then None
  else Some ("zccache-link-key-v1" +:+ tool +:+ nul_terminated (lk_flags b)
             +:+ env_section (lk_env_vars b) +:+ concat_bytes (input_hashes b)).

Definition lk_build {B3 : Blake3} (b : LinkCacheKeyBuilder) : option ContentHash :=
  blake3 <$> lk_preimage b.

(** ** Lemmas *)

Lemma hex_encode_length b : String.length (hex_encode b) = (2 * String.length b)%nat.
Proof.
  induction b as [|c b IH]; simpl; [done|]. rewrite IH. lia.
Qed.

Lemma hex_encode_inj a b : hex_encode a = hex_encode b -> a = b.
Proof.
  revert b. induction a as [|c a IH]; intros [|d b] Heq; try done.
  cbn [hex_encode] in Heq.
  apply string_app_inv_len in Heq as [Hc Hab]; [|by rewrite !hex_fixed_length].
  apply hex_fixed_inj in Hc; [|simpl; pose proof (byte_val_bound c); pose proof (byte_val_bound d); lia..].
  by rewrite (byte_val_inj _ _ Hc), (IH _ Hab).
Qed.

(** A sequence of digests is read back from its concatenation. *)
Lemma concat_hashes_inj (l k : list ContentHash) :
  Forall hash_wf l -> Forall hash_wf k -> concat_bytes l = concat_bytes k -> l = k.
Proof.
  intros Hl. revert k. induction Hl as [|x l Hx Hl IH]; intros k Hk Heq.
  - destruct Hk as [|y k Hy _]; [done|]. simpl in Heq. exfalso.
    apply (f_equal String.length) in Heq. rewrite string_length_app in Heq.
    unfold hash_wf in Hy. simpl in Heq. lia.
  - destruct Hk as [|y k Hy Hk]; simpl in Heq.
    + exfalso. apply (f_equal String.length) in Heq. rewrite string_length_app in Heq.
      unfold hash_wf in Hx. simpl in Heq. lia.
    + apply string_app_inv_len in Heq as [-> Heq]; [|by rewrite Hx, Hy].
      f_equal. by apply IH.
Qed.

(** So is a sequence of named digests, when the names have no NUL. *)
Lemma hash_section_inj (l k : list (bytes * ContentHash)) :
  Forall (fun e => no_nul e.1 = true /\ hash_wf e.2) l ->
  Forall (fun e => no_nul e.1 = true /\ hash_wf e.2) k ->
  hash_section l = hash_section k -> l = k.
Proof.
  intros Hl. revert k. unfold hash_section.
  induction Hl as [|[n h] l [Hn Hh] Hl IH]; intros k Hk Heq.
  - destruct Hk as [|[n' h'] k _ _]; [done|]. cbn in Heq. by destruct n'.
  - destruct Hk as [|[n' h'] k [Hn' Hh'] Hk]; cbn in Heq; [by destruct n|].
    rewrite !string_app_assoc in Heq. simpl in *.
    apply nul_field_inv in Heq as [-> Heq]; [|done..].
    rewrite !string_app_assoc in Heq.
    apply string_app_inv_len in Heq as [-> Heq]; [|by rewrite Hh, Hh'].
    injection Heq as Heq. f_equal. by apply IH.
Qed.

Lemma hash_reader_loop_chunks {E} (chunks : list bytes) (s : StreamHasher) :
  Forall (fun c => c <> "") chunks ->
  hash_reader_loop (E := E) s (inr <$> chunks) = inr {| fed := fed s +:+ concat_bytes chunks |}.
Proof.
  intros Hc. revert s. induction Hc as [|c l Hc _ IH]; intros [s]; simpl.
  - by rewrite string_app_nil_r.
  - rewrite bool_decide_eq_false_2 by done. rewrite IH. simpl. by rewrite string_app_assoc.
Qed.

Lemma substring_split a b s :
  (a + b <= String.length s)%nat ->
  String.substring 0 (a + b) s = String.substring 0 a s +:+ String.substring a b s.
Proof.
  revert a. induction s as [|c s IH]; intros a Hle.
  - simpl in Hle. assert (a = 0%nat /\ b = 0%nat) as [-> ->] by lia. done.
  - destruct a as [|a]; simpl; [by destruct b|]. simpl in Hle. rewrite IH by lia. done.
Qed.

Lemma substring_length a b s :
  (a + b <= String.length s)%nat -> String.length (String.substring a b s) = b.
Proof.
  revert a b. induction s as [|c s IH]; intros [|a] [|b] Hle; simpl in *; try lia.
  - by rewrite IH by (simpl; lia).
  - apply IH. lia.
  - apply IH. lia.
Qed.

Lemma concat_substrings c n s :
  (n * c <= String.length s)%nat ->
  concat_bytes ((fun i => String.substring (i * c) c s) <$> seq 0 n)
  = String.substring 0 (n * c) s.
Proof.
  induction n as [|n IH]; intros Hle; [by destruct s|].
  rewrite seq_S, fmap_app, concat_bytes_app, IH by lia. cbn [fmap list_fmap concat_bytes Nat.add].
  rewrite string_app_nil_r.
  replace (S n * c)%nat with (n * c + c)%nat by lia. by rewrite substring_split by lia.
Qed.

(** ** Properties *)

(** [shard_prefix] panics exactly when more than the 32 bytes of the
    digest are asked for; otherwise it returns [levels] directory names of
    [2 * bytes_per_level] hex digits whose concatenation is the start of the
    hex form, and that hex form identifies the digest. *)
Theorem shard_prefix_spec (h h' : ContentHash) (levels bytes_per_level : nat) :
  hash_wf h ->
  (shard_prefix h levels bytes_per_level = None <-> (32 < levels * bytes_per_level)%nat) /\
  (forall shards, shard_prefix h levels bytes_per_level = Some shards ->
     length shards = levels /\
     Forall (fun s => String.length s = (2 * bytes_per_level)%nat) shards /\
     concat_bytes shards = String.substring 0 (levels * (bytes_per_level * 2)) (to_hex h)) /\
  (to_hex h = to_hex h' <-> h = h').
Proof.
  intros Hwf. unfold shard_prefix. set (c := (bytes_per_level * 2)%nat).
  assert (String.length (to_hex h) = 64%nat) as Hlen
    by (unfold to_hex; rewrite hex_encode_length, Hwf; done).
  split_and!.
  - destruct (Nat.leb_spec (levels * c) (String.length (to_hex h))); split; intros; (done || lia).
  - intros shards. destruct (Nat.leb_spec (levels * c) (String.length (to_hex h))) as [Hle|]; [|done].
    intros [= <-]. split_and!.
    + by rewrite length_fmap, length_seq.
    + apply Forall_fmap, Forall_forall. intros i [_ Hi]%elem_of_seq. simpl.
      rewrite substring_length; [lia|]. nia.
    + by apply concat_substrings.
  - split; [apply hex_encode_inj|by intros ->].
Qed.

Definition demo_hash : ContentHash := "0123456789abcdef0123456789abcdef".

Lemma shard_prefix_spec_witness :
  (shard_prefix demo_hash 2 1 = None <-> (32 < 2 * 1)%nat) /\
  (forall shards, shard_prefix demo_hash 2 1 = Some shards ->
     length shards = 2%nat /\ Forall (fun s => String.length s = (2 * 1)%nat) shards /\
     concat_bytes shards = String.substring 0 (2 * (1 * 2)) (to_hex demo_hash)) /\
  (to_hex demo_hash = to_hex "x" <-> demo_hash = "x").
Proof. apply shard_prefix_spec. reflexivity. Defined.

(** Every route of [hash_open_file] gives the digest of the content.  The
    buffered reader returns the blake3 of the concatenated chunks however the
    reads split them; the empty-file shortcut and the memory-mapped route agree
    with it when the recorded length is the content's and the facade's
    [blake3_open_file] digests the content. *)
Theorem hash_open_file_content {B3 : Blake3} (E : Type) (chunks : list bytes) :
  let content := concat_bytes chunks in
  Forall (fun c => c <> "") chunks ->
  hash_reader (E := E) (inr <$> chunks) = inr (hash_bytes content) /\
  hash_open_file (E := E) (inr <$> chunks) (inr (hash_bytes content))
    (Z.of_nat (String.length content)) = inr (hash_bytes content).
Proof.
  intros content Hc.
  assert (hash_reader (E := E) (inr <$> chunks) = inr (hash_bytes content)) as Hr.
  { unfold hash_reader. by rewrite hash_reader_loop_chunks. }
  split; [done|]. unfold hash_open_file. rewrite Hr.
  case_match eqn:H0; [|by case_match]. apply Z.eqb_eq in H0.
  assert (content = "") as ->; [|done]. destruct content; simpl in *; [done|lia].
Qed.

Lemma hash_open_file_content_witness :
  hash_reader (B3 := toy_blake3) (E := unit) (inr <$> ["ab"; "c"])
    = inr (hash_bytes (B3 := toy_blake3) "abc") /\
  hash_open_file (B3 := toy_blake3) (E := unit) (inr <$> ["ab"; "c"])
    (inr (hash_bytes (B3 := toy_blake3) "abc")) 3
    = inr (hash_bytes (B3 := toy_blake3) "abc").
Proof.
  apply (@hash_open_file_content toy_blake3 unit ["ab"; "c"]). by repeat constructor.
Defined.

(** With the same flags and environment, one link key means one tool and
    the same inputs in the same order (two orders of the inputs get different
    keys), or else blake3 collides on the two texts that were hashed.  The builder produces a key
    exactly when a tool and at least one input were given. *)
Theorem link_key_identifies_inputs {B3 : Blake3} (b1 b2 : LinkCacheKeyBuilder) :
  lk_flags b1 = lk_flags b2 -> lk_env_vars b1 = lk_env_vars b2 ->
  (forall t, tool_id b1 = Some t -> hash_wf t) -> (forall t, tool_id b2 = Some t -> hash_wf t) ->
  Forall hash_wf (input_hashes b1) -> Forall hash_wf (input_hashes b2) ->
  (is_Some (lk_build b1) <-> is_Some (tool_id b1) /\ input_hashes b1 <> []) /\
  (is_Some (lk_build b1) -> lk_build b1 = lk_build b2 ->
   (tool_id b1 = tool_id b2 /\ input_hashes b1 = input_hashes b2) \/
   blake3_collision (default "" (lk_preimage b1)) (default "" (lk_preimage b2))).
Proof.
  intros Hf He Ht1 Ht2 Hi1 Hi2. unfold lk_build, lk_preimage. rewrite <- Hf, <- He. split.
  - destruct (tool_id b1) as [t1|]; simpl; [|split; [by intros [? ?]|by intros [[? ?] _]]].
    case_bool_decide; simpl; [split; [by intros [? ?]|by intros [_ ?]]|]. split; eauto.
  - destruct (tool_id b1) as [t1|] eqn:E1; simpl; [|by intros [? ?]].
    destruct (tool_id b2) as [t2|] eqn:E2; simpl; [|intros [? ->]; done].
    case_bool_decide; [by intros [? ?]|]. case_bool_decide; [intros [? ->]; done|].
    intros _ [= Heq]. apply blake3_eq in Heq as [Heq|Hcol]; [|by right]. left.
    injection Heq as Heq. apply string_app_inv_len in Heq as [-> Heq];
      [|by rewrite (Ht1 t1 eq_refl), (Ht2 t2 eq_refl)].
    split; [done|]. apply (inj (String.append (nul_terminated (lk_flags b1)))) in Heq.
    apply (inj (String.append (env_section (lk_env_vars b1)))) in Heq.
    by apply concat_hashes_inj.
Qed.

Definition demo_link (i j : ContentHash) : LinkCacheKeyBuilder :=
  lk_input j (lk_input i (lk_flag "-shared" (lk_tool demo_hash lk_new))).

Lemma link_key_identifies_inputs_witness :
  let b1 := demo_link demo_hash "fedcba9876543210fedcba9876543210" in
  let b2 := demo_link "fedcba9876543210fedcba9876543210" demo_hash in
  (is_Some (lk_build (B3 := toy_blake3) b1) <-> is_Some (tool_id b1) /\ input_hashes b1 <> []) /\
  (is_Some (lk_build (B3 := toy_blake3) b1) ->
   lk_build (B3 := toy_blake3) b1 = lk_build (B3 := toy_blake3) b2 ->
   (tool_id b1 = tool_id b2 /\ input_hashes b1 = input_hashes b2) \/
   blake3_collision (B3 := toy_blake3) (default "" (lk_preimage b1)) (default "" (lk_preimage b2))).
Proof.
  apply (@link_key_identifies_inputs toy_blake3); try reflexivity;
    try (intros t [= <-]; reflexivity); repeat constructor.
Defined.

(** Neither builder separates its argument section from its environment
    section.  A last flag (or argument) spelled [K=V] feeds the hasher the same
    bytes as an environment variable [K] with value [V], so the two builders,
    which describe different tool runs, get one key for every blake3. *)
Theorem key_flag_env_ambiguous {B3 : Blake3} (lb : LinkCacheKeyBuilder) (cb : CacheKeyBuilder)
    (k v : bytes) :
  lk_env_vars lb = [] -> ck_env_vars cb = [] ->
  lk_build (lk_flag (k +:+ "=" +:+ v) lb) = lk_build (lk_env k v lb) /\
  ck_build (ck_arg (k +:+ "=" +:+ v) cb) = ck_build (ck_env k v cb).
Proof.
  intros Hl Hc.
  assert (forall l r, nul_terminated (l ++ [k +:+ "=" +:+ v]) +:+ env_section [] +:+ r
                      = nul_terminated l +:+ env_section [(k, v)] +:+ r) as Hsec.
  { intros l r. unfold nul_terminated, env_section. rewrite fmap_app, concat_bytes_app. cbn.
    rewrite !string_app_nil_r, !string_app_assoc. cbn. by rewrite !string_app_assoc. }
  unfold lk_build, ck_build, lk_preimage, ck_preimage, lk_flag, lk_env, ck_arg, ck_env.
  cbn [tool_id lk_flags lk_env_vars input_hashes compiler_id arguments ck_env_vars source_hash
       dependency_hashes].
  rewrite Hl, Hc. cbn [bt_insert]. split.
  - destruct (tool_id lb) as [t|]; [|done]. cbn [mbind option_bind].
    case_bool_decide; [done|]. by rewrite Hsec.
  - destruct (compiler_id cb) as [c|], (source_hash cb) as [s|]; try done.
    cbn [mbind option_bind]. by rewrite Hsec.
Qed.

Lemma key_flag_env_ambiguous_witness :
  let lb := demo_link demo_hash demo_hash in
  let cb := ck_compiler demo_hash (ck_source demo_hash ck_new) in
  lk_build (B3 := toy_blake3) (lk_flag "LIBRARY_PATH=/opt/lib" lb)
    = lk_build (B3 := toy_blake3) (lk_env "LIBRARY_PATH" "/opt/lib" lb)
  /\ ck_build (B3 := toy_blake3) (ck_arg "LIBRARY_PATH=/opt/lib" cb)
    = ck_build (B3 := toy_blake3) (ck_env "LIBRARY_PATH" "/opt/lib" cb).
Proof.
  intros lb cb.
  exact (@key_flag_env_ambiguous toy_blake3 lb cb "LIBRARY_PATH" "/opt/lib" eq_refl eq_refl).
Defined.
