(* ===== verification/Metadata.v ===== *)
(** * The file metadata cache ([zccache-fscache/src/metadata.rs])

    A map from paths to the last known [(mtime, size)], content hash and
    confidence.  The filesystem and the monotonic clock are an environment: at
    every observation (a stat, a read, a clock reading) the model moves to the
    next instant, and the file tree may be different at every instant. *)

From S2P Require Import Prelude Path Hash.
From Stdlib Require Import Lia.

(** ** Times

    A [SystemTime] is a number of nanoseconds relative to the Unix epoch, an
    [Instant] one relative to an arbitrary origin, a [Duration] a non-negative
    number of nanoseconds. *)

Definition DEFAULT_MTIME_TOLERANCE_NS : Z := 1000000000.

(** [env] is the value of [ZCCACHE_MTIME_TOLERANCE_NS]. *)
Definition mtime_tolerance_ns (env : option bytes) : Z :=
  default DEFAULT_MTIME_TOLERANCE_NS (s ← env; parse_u64 s).

Definition mtime_components (t : Z) : Z * Z :=
  if t <? 0 then (0, 0) else (t `div` 1000000000, t `mod` 1000000000).

Definition mtimes_match (tolerance_ns : Z) (a b : Z) : bool :=
  if a =? b then true
  else if tolerance_ns =? 0 then false
  else
    let '(a_secs, a_nanos) := mtime_components a in
    let '(b_secs, b_nanos) := mtime_components b in
    if negb (a_nanos =? 0) && negb (b_nanos =? 0) then false
    else
      let a_total := a_secs * 1000000000 + a_nanos in
      let b_total := b_secs * 1000000000 + b_nanos in
      Z.abs (a_total - b_total) <? tolerance_ns.

(** ** Data *)

Inductive Confidence := Low | Medium | High.

#[export] Instance Confidence_eq_dec : EqDecision Confidence.
Proof. solve_decision. Defined.

Record FileMetadata := mkMeta {
  mtime : Z;
  msize : Z;
  confidence : Confidence;
  last_verified : Z;
  content_hash : option ContentHash;
}.

Definition set_confidence (x : Confidence) (m : FileMetadata) : FileMetadata :=
  mkMeta (mtime m) (msize m) x (last_verified m) (content_hash m).

Record EvictionCandidate := mkCandidate {
  cand_path : NormalizedPath;
  cand_last_verified : Z;
}.

Record CandidateEvictionResult := mkEvictionResult {
  removed : nat;
  busy : list EvictionCandidate;
  refreshed : list EvictionCandidate;
}.

Record MetadataCache := mkCache {
  entries : gmap NormalizedPath FileMetadata;
  high_decay : Z;
  medium_decay : Z;
  dirty : bool;
}.

Definition MetadataCache_new : MetadataCache :=
  {| entries := ∅; high_decay := 60 * 1000000000; medium_decay := 30 * 1000000000;
     dirty := false |}.

Definition set_entries (m : gmap NormalizedPath FileMetadata) (d : bool) (c : MetadataCache) :
    MetadataCache :=
  {| entries := m; high_decay := high_decay c; medium_decay := medium_decay c; dirty := d |}.

Definition is_dirty (c : MetadataCache) : bool := dirty c.
Definition take_dirty (c : MetadataCache) : MetadataCache * bool :=
  (set_entries (entries c) false c, dirty c).
Definition mark_dirty (c : MetadataCache) : MetadataCache := set_entries (entries c) true c.

(** ** The environment *)

Inductive IoError := NotFound | OtherIo.

Inductive Error :=
  | Io (e : IoError)
  | Ipc (message : bytes)
  | Protocol (message : bytes)
  | CacheError (message : bytes)
  | FileNotFound (path : NormalizedPath)
  | DaemonNotRunning
  | DaemonAlreadyRunning
  | ConfigError (message : bytes).

Record FileState := mkFile { f_mtime : Z; f_size : Z; f_content : bytes }.

(** What the outside world shows at every instant: the file at a path, the
    bytes a read sees (it may see a file in the middle of a change), and the
    monotonic clock. *)
Record Env := mkEnv {
  disk : nat -> NormalizedPath -> IoError + FileState;
  read_bytes : nat -> NormalizedPath -> IoError + bytes;
  now_at : nat -> Z;
}.

(** ** Operations on the map *)

Definition saturating_duration_since (a b : Z) : Z := Z.max 0 (a - b).

Definition decayed_confidence (c : MetadataCache) (now : Z) (m : FileMetadata) : Confidence :=
  let elapsed := saturating_duration_since now (last_verified m) in
  match confidence m with
  | High => if high_decay c <? elapsed then Medium else High
  | Medium => if medium_decay c <? elapsed then Low else Medium
  | Low => Low
  end.

Definition get (c : MetadataCache) (now : Z) (path : NormalizedPath) : option FileMetadata :=
  (fun m => set_confidence (decayed_confidence c now m) m) <$> (entries c !! path).

Definition insert (path : NormalizedPath) (m : FileMetadata) (c : MetadataCache) : MetadataCache :=
  set_entries (<[path := m]> (entries c)) true c.

Definition downgrade (path : NormalizedPath) (c : MetadataCache) : MetadataCache :=
  match entries c !! path with
  | Some m => set_entries (<[path := set_confidence Low m]> (entries c)) true c
  | None => c
  end.

Definition downgrade_all (c : MetadataCache) : MetadataCache :=
  let any := negb (bool_decide (entries c = ∅)) in
  set_entries (set_confidence Low <$> entries c) (any || dirty c) c.

Definition remove (path : NormalizedPath) (c : MetadataCache) : MetadataCache :=
  match entries c !! path with
  | Some _ => set_entries (delete path (entries c)) true c
  | None => c
  end.

Definition len (c : MetadataCache) : nat := size (entries c).
Definition is_empty (c : MetadataCache) : bool := bool_decide (entries c = ∅).

Definition clear (c : MetadataCache) : MetadataCache := set_entries ∅ true c.

(** Loading a snapshot overwrites entry by entry and is not a mutation to save. *)
Definition merge_from (other : MetadataCache) (c : MetadataCache) : MetadataCache :=
  set_entries (entries other ∪ entries c) (dirty c) c.

Definition get_cached_hash (c : MetadataCache) (path : NormalizedPath) : option ContentHash :=
  m ← entries c !! path;
  match confidence m with
  | High | Medium => content_hash m
  | Low => None
  end.

(** One stat of the environment, at instant [t]. *)
Definition get_cached_hash_if_stat_valid (env : Env) (tolerance_ns : Z) (c : MetadataCache)
    (t : nat) (path : NormalizedPath) : option ContentHash :=
  m ← entries c !! path;
  h ← (match confidence m with High | Medium => content_hash m | Low => None end);
  match disk env t path with
  | inl _ => None
  | inr f =>
      if mtimes_match tolerance_ns (mtime m) (f_mtime f) && (msize m =? f_size f)
      then Some h else None
  end.

Definition paths (c : MetadataCache) : list NormalizedPath := (map_to_list (entries c)).*1.

(** ** Rescan after an overflow *)

Definition low_keys (c : MetadataCache) : list NormalizedPath :=
  (filter (fun e => confidence e.2 = Low) (map_to_list (entries c))).*1.

(** One stat per low-confidence path, each at its own instant; paths that
    cannot be stat'ed are dropped. *)
Fixpoint rescan_stats (env : Env) (t : nat) (ps : list NormalizedPath) :
    list (NormalizedPath * Z * Z) * nat :=
  match ps with
  | [] => ([], t)
  | p :: ps' =>
      let '(rest, t') := rescan_stats env (S t) ps' in
      match disk env t p with
      | inl _ => (rest, t')
      | inr f => ((p, f_mtime f, f_size f) :: rest, t')
      end
  end.

(** The promotion of one entry, and whether it was promoted. *)
Definition promote (now : Z) (r : NormalizedPath * Z * Z)
    (m : gmap NormalizedPath FileMetadata) : gmap NormalizedPath FileMetadata * bool :=
  let '(path, fresh_mtime, fresh_size) := r in
  match m !! path with
  | Some e =>
      if bool_decide (confidence e = Low) && (mtime e =? fresh_mtime) && (msize e =? fresh_size)
      then (<[path := mkMeta (mtime e) (msize e) High now (content_hash e)]> m, true)
      else (m, false)
  | None => (m, false)
  end.

Fixpoint promote_all (env : Env) (t : nat) (rs : list (NormalizedPath * Z * Z))
    (m : gmap NormalizedPath FileMetadata) (n : nat) : gmap NormalizedPath FileMetadata * nat * nat :=
  match rs with
  | [] => (m, n, t)
  | r :: rs' =>
      let '(m', b) := promote (now_at env t) r m in
      promote_all env (S t) rs' m' (if b then S n else n)
  end.

Definition rescan_all (env : Env) (c : MetadataCache) (t : nat) : MetadataCache * nat * nat :=
  match low_keys c with
  | [] => (c, 0%nat, t)
  | ks =>
      let '(results, t1) := rescan_stats env t ks in
      let '(m, promoted, t2) := promote_all env t1 results (entries c) 0 in
      (set_entries m (if (0 <? promoted)%nat then true else dirty c) c, promoted, t2)
  end.

(** ** Trimming and eviction *)

Definition trim (now max_age : Z) (c : MetadataCache) : MetadataCache * nat :=
  let expired e := bool_decide (max_age < saturating_duration_since now (last_verified e)) in
  let kept := filter (fun e => expired e.2 = false) (entries c) in
  let n := (size (entries c) - size kept)%nat in
  (set_entries kept (if (0 <? n)%nat then true else dirty c) c, n).

Definition candidate_leb (a b : EvictionCandidate) : bool :=
  cand_last_verified a <=? cand_last_verified b.

Definition oldest_eviction_candidates (c : MetadataCache) (count : nat) : list EvictionCandidate :=
  if (count =? 0)%nat then []
  else take count (sort_by candidate_leb
         ((fun e => mkCandidate e.1 (last_verified e.2)) <$> map_to_list (entries c))).

(** One iteration of the write phase; [lock_busy] says whether the entry's
    shard cannot be locked without blocking. *)
Definition evict_step (lock_busy : NormalizedPath -> bool)
    (acc : gmap NormalizedPath FileMetadata * CandidateEvictionResult) (cand : EvictionCandidate) :
    gmap NormalizedPath FileMetadata * CandidateEvictionResult :=
  let '(m, r) := acc in
  if lock_busy (cand_path cand) then
    (m, mkEvictionResult (removed r) (busy r ++ [cand]) (refreshed r))
  else match m !! cand_path cand with
       | Some e =>
           if last_verified e =? cand_last_verified cand
           then (delete (cand_path cand) m, mkEvictionResult (S (removed r)) (busy r) (refreshed r))
           else (m, mkEvictionResult (removed r) (busy r) (refreshed r ++ [cand]))
       | None => (m, r)
       end.

Definition try_evict_candidates_detailed (lock_busy : NormalizedPath -> bool)
    (cands : list EvictionCandidate) (c : MetadataCache) : MetadataCache * CandidateEvictionResult :=
  let '(m, r) := fold_left (evict_step lock_busy) cands (entries c, mkEvictionResult 0 [] []) in
  (set_entries m (if (0 <? removed r)%nat then true else dirty c) c, r).

(** The blocking variant never finds a shard busy. *)
Definition evict_candidates_detailed (cands : list EvictionCandidate) (c : MetadataCache) :
    MetadataCache * CandidateEvictionResult :=
  try_evict_candidates_detailed (fun _ => false) cands c.

Definition try_evict_candidates (lock_busy : NormalizedPath -> bool)
    (cands : list EvictionCandidate) (c : MetadataCache) : MetadataCache * nat :=
  let '(c', r) := try_evict_candidates_detailed lock_busy cands c in (c', removed r).

Definition evict_candidates (cands : list EvictionCandidate) (c : MetadataCache) :
    MetadataCache * nat :=
  let '(c', r) := evict_candidates_detailed cands c in (c', removed r).

Definition evict_oldest (count : nat) (c : MetadataCache) : MetadataCache * nat :=
  evict_candidates (oldest_eviction_candidates c count) c.

(** ** Lemmas *)

Lemma mtime_components_total t :
  (mtime_components t).1 * 1000000000 + (mtime_components t).2 = Z.max 0 t /\
  (mtime_components t).2 = Z.max 0 t `mod` 1000000000.
Proof.
  unfold mtime_components. destruct (Z.ltb_spec t 0); simpl.
  - rewrite Z.max_l by lia. done.
  - rewrite Z.max_r by lia. split; [|done]. rewrite Z.mul_comm. symmetry. by apply Z.div_mod.
Qed.

(** The effect of the write phase on one path. *)
Lemma evict_fold_lookup lock cands m r m' r' :
  fold_left (evict_step lock) cands (m, r) = (m', r') ->
  forall p, m' !! p = m !! p \/
    (m' !! p = None /\ lock p = false /\
     exists e, m !! p = Some e /\ mkCandidate p (last_verified e) ∈ cands).
Proof.
  revert m r. induction cands as [|[q tq] cands IH]; intros m r; cbn [fold_left].
  { intros [= -> ->] p. by left. }
  intros Hf p. simpl in Hf.
  assert (forall m1 r1, fold_left (evict_step lock) cands (m1, r1) = (m', r') ->
            (m1 = m \/ (m1 = delete q m /\ lock q = false /\
                        exists e, m !! q = Some e /\ last_verified e = tq)) ->
            m' !! p = m !! p \/
            (m' !! p = None /\ lock p = false /\
             exists e, m !! p = Some e /\
               mkCandidate p (last_verified e) ∈ mkCandidate q tq :: cands)) as Hgen.
  { intros m1 r1 Hm1 Hcase. destruct (IH _ _ Hm1 p) as [Heq|(Hn & Hl & e & He & Hin)].
    - destruct Hcase as [->|(-> & Hl & e & He & <-)]; [by left|].
      destruct (decide (q = p)) as [->|Hne].
      + rewrite lookup_delete_eq in Heq. right. split_and!; [done..|].
        exists e. split; [done|]. by left.
      + rewrite lookup_delete_ne in Heq by done. by left.
    - right. split_and!; [done..|]. destruct Hcase as [->|(-> & _)].
      + exists e. split; [done|]. by right.
      + destruct (decide (q = p)) as [->|Hne]; [by rewrite lookup_delete_eq in He|].
        rewrite lookup_delete_ne in He by done. exists e. split; [done|]. by right. }
  destruct (lock q) eqn:Hl; [eapply Hgen; [done|by left]|].
  destruct (m !! q) as [e|] eqn:He; [|eapply Hgen; [done|by left]].
  destruct (Z.eqb_spec (last_verified e) tq); (eapply Hgen; [done|]); [|by left].
  right. eauto.
Qed.

(** The count is the number of entries that went away, and the busy list holds
    the candidates whose shard was locked. *)
Lemma evict_fold_count lock cands m r m' r' :
  fold_left (evict_step lock) cands (m, r) = (m', r') ->
  (removed r' + size m' = removed r + size m)%nat /\
  busy r' = busy r ++ filter (fun cand => lock (cand_path cand) = true) cands.
Proof.
  revert m r. induction cands as [|[q tq] cands IH]; intros m r; cbn [fold_left].
  { intros [= -> ->]. by rewrite app_nil_r. }
  simpl. rewrite filter_cons. simpl. destruct (lock q) eqn:Hl.
  - rewrite decide_True by done. intros Hf%IH. simpl in Hf. by rewrite <- app_assoc in Hf.
  - rewrite decide_False by done. destruct (m !! q) as [e|] eqn:He; [|by intros ?%IH].
    destruct (last_verified e =? tq); intros [Hs Hb]%IH; simpl in *; [|done].
    split; [|done]. rewrite map_size_delete, He in Hs.
    assert (size m <> 0%nat) by (apply (map_size_ne_0_lookup_2 m q); by rewrite He). lia.
Qed.

Lemma candidate_leb_total x y : candidate_leb x y = true \/ candidate_leb y x = true.
Proof. unfold candidate_leb. rewrite !Z.leb_le. lia. Qed.

Lemma candidate_leb_trans x y z :
  candidate_leb x y = true -> candidate_leb y z = true -> candidate_leb x z = true.
Proof. unfold candidate_leb. rewrite !Z.leb_le. lia. Qed.

(** The candidate list of the read phase, in full. *)
Definition candidates_of (m : gmap NormalizedPath FileMetadata) : list EvictionCandidate :=
  (fun e => mkCandidate e.1 (last_verified e.2)) <$> map_to_list m.

Lemma candidates_of_elem m p t :
  mkCandidate p t ∈ candidates_of m <-> exists e, m !! p = Some e /\ last_verified e = t.
Proof.
  unfold candidates_of. rewrite list_elem_of_fmap. split.
  - intros ([q e] & [= -> ->] & Hin). apply elem_of_map_to_list in Hin. eauto.
  - intros (e & He & <-). exists (p, e). split; [done|]. by apply elem_of_map_to_list.
Qed.

Lemma candidates_of_nodup m : NoDup (cand_path <$> candidates_of m).
Proof.
  unfold candidates_of. rewrite <- list_fmap_compose.
  replace (cand_path ∘ _) with (@fst NormalizedPath FileMetadata); [|done].
  apply NoDup_fst_map_to_list.
Qed.

(** Evicting candidates that are all current removes every one of them. *)
Lemma evict_fold_current cands m r m' r' :
  fold_left (evict_step (fun _ => false)) cands (m, r) = (m', r') ->
  NoDup (cand_path <$> cands) -> (forall cand, cand ∈ cands -> cand ∈ candidates_of m) ->
  removed r' = (removed r + length cands)%nat /\
  (forall p, m' !! p = if decide (p ∈ cand_path <$> cands) then None else m !! p).
Proof.
  revert m r. induction cands as [|[q tq] cands IH]; intros m r; cbn [fold_left].
  { intros [= -> ->] _ _. split; [simpl; lia|]. intros p. rewrite decide_False; [done|].
    apply not_elem_of_nil. }
  simpl. intros Hf [Hq Hnd]%NoDup_cons Hcur.
  assert (mkCandidate q tq ∈ candidates_of m) as Hin by (apply Hcur; by left).
  apply candidates_of_elem in Hin as (e & He & Ht).
  rewrite He, Ht, Z.eqb_refl in Hf.
  apply IH in Hf as [Hr Hp]; [|done|].
  - simpl in Hr. split; [lia|]. intros p. rewrite Hp.
    destruct (decide (p = q)) as [->|Hne].
    + rewrite (decide_False (P := q ∈ _)) by done.
      rewrite lookup_delete_eq, decide_True; [done|by left].
    + destruct (decide (p ∈ cand_path <$> cands)) as [Hp'|Hp'].
      * rewrite decide_True; [done|by right].
      * rewrite decide_False; [by rewrite lookup_delete_ne|].
        by intros [?|?]%elem_of_cons.
  - intros [p t] Hc. apply candidates_of_elem.
    assert (mkCandidate p t ∈ candidates_of m) as (e' & He' & <-)%candidates_of_elem
      by (apply Hcur; by right).
    exists e'. split; [|done]. rewrite lookup_delete_ne; [done|]. intros ->.
    apply Hq. apply list_elem_of_fmap. by eexists (mkCandidate p _).
Qed.

(** *** Rescan *)

(** An entry that [rescan_all] may promote: low confidence, and the disk shows
    the recorded [(mtime, size)] at instant [t]. *)
Definition stamp_matches (env : Env) (t : nat) (p : NormalizedPath) (e : FileMetadata) : bool :=
  match disk env t p with
  | inr f => (mtime e =? f_mtime f) && (msize e =? f_size f)
  | inl _ => false
  end.

Lemma rescan_stats_mono env t ps : (t <= (rescan_stats env t ps).2)%nat.
Proof.
  revert t. induction ps as [|q ps IH]; intros t; simpl; [lia|].
  specialize (IH (S t)). destruct (rescan_stats env (S t) ps) as [rest t'].
  destruct (disk env t q); simpl in *; lia.
Qed.

Lemma rescan_stats_elem env t ps p mt sz :
  (p, mt, sz) ∈ (rescan_stats env t ps).1 ->
  exists t0 f, (t <= t0)%nat /\ (t0 <= (rescan_stats env t ps).2)%nat /\
    disk env t0 p = inr f /\ f_mtime f = mt /\ f_size f = sz.
Proof.
  revert t. induction ps as [|q ps IH]; intros t; cbn [rescan_stats].
  { intros Hin. by apply not_elem_of_nil in Hin. }
  pose proof (rescan_stats_mono env (S t) ps) as Hmono.
  destruct (rescan_stats env (S t) ps) as [rest t'] eqn:Hr.
  specialize (IH (S t)). rewrite Hr in IH. simpl in *.
  destruct (disk env t q) as [e|f] eqn:Hd; simpl.
  - intros Hin. destruct (IH Hin) as (t0 & f & ? & ?). exists t0, f. split; [lia|done].
  - intros [Heq|Hin]%elem_of_cons.
    + simplify_eq. exists t, f. split_and!; (lia || done).
    + destruct (IH Hin) as (t0 & f' & ? & ?). exists t0, f'. split; [lia|done].
Qed.

Lemma promote_all_mono env t rs m n : (t <= (promote_all env t rs m n).2)%nat.
Proof.
  revert t m n. induction rs as [|r rs IH]; intros t m n; simpl; [lia|].
  destruct (promote (now_at env t) r m) as [m' b]. specialize (IH (S t) m' (if b then S n else n)).
  lia.
Qed.

(** [o] becomes [o'] at path [p] given the stat results [rs]: nothing changes,
    or a low-confidence entry whose stamp was found on disk is promoted and
    keeps its stamp and hash. *)
Definition promoted_from (p : NormalizedPath) (rs : list (NormalizedPath * Z * Z))
    (o o' : option FileMetadata) : Prop :=
  o' = o \/ exists e now, o = Some e /\ confidence e = Low /\
              (p, mtime e, msize e) ∈ rs /\
              o' = Some (mkMeta (mtime e) (msize e) High now (content_hash e)).

Lemma promote_spec now r m m1 b :
  promote now r m = (m1, b) ->
  (forall p, promoted_from p [r] (m !! p) (m1 !! p)) /\ (b = false -> m1 = m).
Proof.
  destruct r as [[q mt] sz]. unfold promote, promoted_from. intros Hp.
  destruct (m !! q) as [e|] eqn:He; [|simplify_eq; split; [by left|done]].
  destruct (bool_decide (confidence e = Low) && (mtime e =? mt) && (msize e =? sz)) eqn:Hc;
    simplify_eq; [|split; [by left|done]].
  rewrite !andb_true_iff, bool_decide_eq_true, !Z.eqb_eq in Hc. destruct Hc as [[Hlow <-] <-].
  split; [|done]. intros p. destruct (decide (q = p)) as [->|Hne].
  - right. exists e, now. rewrite lookup_insert_eq. split_and!; try done. by left.
  - left. by rewrite lookup_insert_ne.
Qed.

Lemma promoted_from_cons p r rs o o1 o' :
  promoted_from p [r] o o1 -> promoted_from p rs o1 o' -> promoted_from p (r :: rs) o o'.
Proof.
  intros [->|(e & now & -> & Hlow & Hin & ->)] [->|(e' & now' & He' & Hlow' & Hin' & ->)].
  - by left.
  - right. exists e', now'. split_and!; try done. by right.
  - right. exists e, now. split_and!; try done.
    apply list_elem_of_singleton in Hin as ->. by left.
  - by simplify_eq.
Qed.

Lemma promote_all_spec env t rs m n m' n' t' :
  promote_all env t rs m n = (m', n', t') ->
  (forall p, promoted_from p rs (m !! p) (m' !! p)) /\ (n <= n')%nat /\ (n = n' -> m' = m).
Proof.
  revert t m n. induction rs as [|r rs IH]; intros t m n; cbn [promote_all].
  { intros [= <- <- <-]. split_and!; [by left|lia|done]. }
  destruct (promote (now_at env t) r m) as [m1 b] eqn:Hp. intros Hall.
  apply promote_spec in Hp as [Hp Hb]. apply IH in Hall as (Hlook & Hle & Hsame). split_and!.
  - intros p. eapply promoted_from_cons; eauto.
  - destruct b; lia.
  - intros Heq. destruct b; [lia|]. rewrite Hsame by lia. by apply Hb.
Qed.

(** What [rescan_all] does to the cache. *)
Lemma rescan_all_spec env c t c' n t' :
  rescan_all env c t = (c', n, t') ->
  (t <= t')%nat /\
  (forall p, entries c' !! p = entries c !! p \/
     exists e now t0, (t <= t0 <= t')%nat /\ entries c !! p = Some e /\ confidence e = Low /\
       stamp_matches env t0 p e = true /\
       entries c' !! p = Some (mkMeta (mtime e) (msize e) High now (content_hash e))) /\
  (entries c' <> entries c -> (0 < n)%nat /\ dirty c' = true) /\
  (dirty c = true -> dirty c' = true).
Proof.
  unfold rescan_all. destruct (low_keys c) as [|k ks].
  { intros [= <- <- <-]. split_and!; try done; by left. }
  set (l := k :: ks). destruct (rescan_stats env t l) as [rs t1] eqn:Hrs.
  destruct (promote_all env t1 rs (entries c) 0) as [[m n1] t2] eqn:Hpa. intros [= <- <- <-].
  pose proof (rescan_stats_mono env t l) as Hm1. rewrite Hrs in Hm1. simpl in Hm1.
  pose proof (promote_all_mono env t1 rs (entries c) 0) as Hm2. rewrite Hpa in Hm2. simpl in Hm2.
  apply promote_all_spec in Hpa as (Hlook & _ & Hsame). simpl. split_and!; [lia| | |].
  - intros p. destruct (Hlook p) as [->|(e & now & He & Hlow & Hin & ->)]; [by left|]. right.
    pose proof (rescan_stats_elem env t l p (mtime e) (msize e)) as Hst. rewrite Hrs in Hst. simpl in Hst.
    destruct (Hst Hin) as (t0 & f & ? & ? & Hd & Hmt & Hsz).
    exists e, now, t0. split_and!; try done; [lia|]. unfold stamp_matches.
    by rewrite Hd, Hmt, Hsz, !Z.eqb_refl.
  - intros Hne. destruct n1; [by rewrite Hsame in Hne|]. simpl. split; [lia|done].
  - intros ->. by case_match.
Qed.

(** ** Operation sequences *)

(** The operations of the cache that change it on their own (the filesystem
    lookups are in [Verify]); [MTry] carries which shards are locked. *)
Inductive MetaOp :=
  | MInsert (p : NormalizedPath) (m : FileMetadata)
  | MDowngrade (p : NormalizedPath)
  | MDowngradeAll
  | MRescanAll
  | MRemove (p : NormalizedPath)
  | MClear
  | MTrim (now max_age : Z)
  | MEvictOldest (count : nat)
  | MEvict (cands : list EvictionCandidate)
  | MTry (lock_busy : NormalizedPath -> bool) (cands : list EvictionCandidate).

Definition meta_step (env : Env) (c : MetadataCache) (t : nat) (op : MetaOp) : MetadataCache :=
  match op with
  | MInsert p m => insert p m c
  | MDowngrade p => downgrade p c
  | MDowngradeAll => downgrade_all c
  | MRescanAll => (rescan_all env c t).1.1
  | MRemove p => remove p c
  | MClear => clear c
  | MTrim now max_age => (trim now max_age c).1
  | MEvictOldest n => (evict_oldest n c).1
  | MEvict cands => (evict_candidates cands c).1
  | MTry lock cands => (try_evict_candidates lock cands c).1
  end.

Lemma try_evict_dirty lock cands c :
  let c' := (try_evict_candidates_detailed lock cands c).1 in
  (entries c' <> entries c -> dirty c' = true) /\ (dirty c = true -> dirty c' = true).
Proof.
  unfold try_evict_candidates_detailed.
  destruct (fold_left _ _ _) as [m r] eqn:Hf. simpl.
  pose proof (evict_fold_count _ _ _ _ _ _ Hf) as [Hs _].
  pose proof (evict_fold_lookup _ _ _ _ _ _ Hf) as Hl. split; [|intros ->; by case_match].
  intros Hne. destruct (Nat.ltb_spec 0 (removed r)); [done|]. exfalso. apply Hne.
  apply map_subseteq_size_eq; [|simpl in Hs; lia].
  apply map_subseteq_spec. intros p e Hp. destruct (Hl p) as [?|[? _]]; congruence.
Qed.

Lemma map_filter_size_eq {A} (P : NormalizedPath * A -> Prop) `{!forall x, Decision (P x)}
    (m : gmap NormalizedPath A) :
  (size m - size (filter P m))%nat = 0%nat -> filter P m = m.
Proof.
  intros Hs. apply map_subseteq_size_eq; [apply map_filter_subseteq|].
  pose proof (map_subseteq_size _ _ (map_filter_subseteq P m)). lia.
Qed.

(** ** Properties *)

(** The mtime comparison of the stat fast path.  Two timestamps match
    exactly when they are equal, or the tolerance is on, they differ by less
    than it and one of them falls on a whole second (what an archive restore
    leaves); times before the epoch count as the epoch.  The relation is
    symmetric, and with tolerance zero it is equality. *)
Theorem mtimes_match_spec (tolerance a b : Z) :
  (mtimes_match tolerance a b = true <->
     a = b \/
     (tolerance <> 0 /\ Z.abs (Z.max 0 a - Z.max 0 b) < tolerance /\
      (Z.max 0 a `mod` 1000000000 = 0 \/ Z.max 0 b `mod` 1000000000 = 0))) /\
  mtimes_match tolerance a b = mtimes_match tolerance b a /\
  (mtimes_match 0 a b = true <-> a = b).
Proof.
  assert (forall tol x y, mtimes_match tol x y = true <->
     x = y \/ (tol <> 0 /\ Z.abs (Z.max 0 x - Z.max 0 y) < tol /\
      (Z.max 0 x `mod` 1000000000 = 0 \/ Z.max 0 y `mod` 1000000000 = 0))) as Hspec.
  { intros tol x y. unfold mtimes_match.
    destruct (mtime_components_total x) as [Hx Hxn], (mtime_components_total y) as [Hy Hyn].
    destruct (mtime_components x) as [xs xn], (mtime_components y) as [ys yn]. simpl in *.
    rewrite Hx, Hy, <- Hxn, <- Hyn.
    destruct (Z.eqb_spec x y); [naive_solver|]. destruct (Z.eqb_spec tol 0); [naive_solver|].
    destruct (Z.eqb_spec xn 0), (Z.eqb_spec yn 0); simpl; rewrite ?Z.ltb_lt; naive_solver. }
  split_and!; [apply Hspec| |].
  - apply eq_true_iff_eq. rewrite !Hspec. split; intros [?|(? & ? & ?)]; [by left|right| by left|right];
      (split_and!; [done|lia|naive_solver]).
  - rewrite Hspec. naive_solver lia.
Qed.

(** Two-phase eviction.  Whatever happened to the cache between the
    read-only pass that chose the candidates and the write pass, an entry that
    goes away is one whose shard was free and whose verification time is still
    the one the candidate recorded; every other entry survives unchanged.  The
    count is the number of entries that went away, the busy list is the
    candidates with a locked shard, and a removal sets the dirty flag. *)
Theorem evict_candidates_safe (lock_busy : NormalizedPath -> bool)
    (cands : list EvictionCandidate) (c : MetadataCache) :
  let '(c', r) := try_evict_candidates_detailed lock_busy cands c in
  (forall p e, entries c !! p = Some e ->
     entries c' !! p = Some e \/
     (entries c' !! p = None /\ lock_busy p = false /\
      mkCandidate p (last_verified e) ∈ cands)) /\
  (forall p, entries c !! p = None -> entries c' !! p = None) /\
  (removed r + size (entries c') = size (entries c))%nat /\
  busy r = filter (fun cand => lock_busy (cand_path cand) = true) cands /\
  ((0 < removed r)%nat -> dirty c' = true).
Proof.
  unfold try_evict_candidates_detailed.
  destruct (fold_left _ _ _) as [m r] eqn:Hf. simpl.
  pose proof (evict_fold_count _ _ _ _ _ _ Hf) as [Hs Hb].
  pose proof (evict_fold_lookup _ _ _ _ _ _ Hf) as Hl. split_and!.
  - intros p e Hp. destruct (Hl p) as [->|(? & ? & e' & He' & ?)]; [by left|]. right.
    by simplify_eq.
  - intros p Hp. by destruct (Hl p) as [->|(? & ? & e' & He' & ?)].
  - done.
  - done.
  - intros Hr. by rewrite (proj2 (Nat.ltb_lt _ _) Hr).
Qed.

(** [evict_oldest] removes exactly [min count len] entries, and no entry
    that stays was verified earlier than one that goes; the entries that stay
    are unchanged. *)
Theorem evict_oldest_oldest (count : nat) (c : MetadataCache) :
  let '(c', n) := evict_oldest count c in
  n = Nat.min count (size (entries c)) /\
  (forall p, entries c' !! p = entries c !! p \/ entries c' !! p = None) /\
  (forall p e q d, entries c !! p = Some e -> entries c' !! p = None ->
     entries c' !! q = Some d -> last_verified e <= last_verified d) /\
  (n + size (entries c') = size (entries c))%nat.
Proof.
  unfold evict_oldest, evict_candidates, evict_candidates_detailed.
  unfold try_evict_candidates_detailed.
  set (cands := oldest_eviction_candidates c count).
  destruct (fold_left _ cands _) as [m r] eqn:Hf. simpl.
  set (all := sort_by candidate_leb (candidates_of (entries c))).
  assert (cands = take count all) as Hc.
  { unfold cands, oldest_eviction_candidates. destruct count; [done|]. done. }
  assert (all ≡ₚ candidates_of (entries c)) as Hperm by apply sort_by_perm.
  assert (NoDup (cand_path <$> all)) as Hnd
    by (rewrite Hperm; apply candidates_of_nodup).
  assert (length all = size (entries c)) as Hlen.
  { rewrite Hperm. unfold candidates_of. by rewrite length_fmap, length_map_to_list. }
  assert (StronglySorted (fun a b => candidate_leb a b = true) all) as Hsort
    by (apply sort_by_sorted; [apply candidate_leb_total|apply candidate_leb_trans]).
  pose proof (evict_fold_count _ _ _ _ _ _ Hf) as [Hs _]. simpl in Hs.
  apply evict_fold_current in Hf as [Hr Hp].
  2:{ rewrite Hc, fmap_take. by eapply sublist_NoDup, sublist_take. }
  2:{ intros cand Hin. rewrite <- Hperm. rewrite Hc in Hin. by apply (subseteq_take count all). }
  simpl in Hr. rewrite Hc, length_take, Hlen in Hr. split_and!; [done| | |done].
  - intros p. rewrite Hp. case_decide; eauto.
  - intros p e q d He Hpn Hq. rewrite Hp in Hpn, Hq. rewrite Hc in *.
    destruct (decide (p ∈ cand_path <$> take count all)) as [Hin|]; [|congruence].
    destruct (decide (q ∈ cand_path <$> take count all)) as [|Hout]; [done|].
    apply list_elem_of_fmap in Hin as ([p' tp] & ? & Hin). simpl in *. subst p'.
    assert (tp = last_verified e) as ->.
    { assert (mkCandidate p tp ∈ candidates_of (entries c)) as (e' & ? & <-)%candidates_of_elem
        by (rewrite <- Hperm; by apply (subseteq_take count all)).
      by simplify_eq. }
    assert (mkCandidate q (last_verified d) ∈ all) as Hqa
      by (rewrite Hperm; apply candidates_of_elem; eauto).
    rewrite <- (take_drop count all) in Hqa, Hsort. apply elem_of_app in Hqa as [Hqa|Hqa].
    { exfalso. apply Hout, list_elem_of_fmap. by exists (mkCandidate q (last_verified d)). }
    eapply StronglySorted_app_1_elem_of in Hsort; [|exact Hin|exact Hqa].
    unfold candidate_leb in Hsort. simpl in Hsort. by apply Z.leb_le.
Qed.

(** The dirty flag tells the truth about what has to be saved.  Every
    operation that changes the entries leaves the flag set, and none clears it;
    so a snapshot may be skipped while the flag is clear. *)
Theorem dirty_tracks_mutation (env : Env) (c : MetadataCache) (t : nat) (op : MetaOp) :
  let c' := meta_step env c t op in
  (entries c' <> entries c -> dirty c' = true) /\ (dirty c = true -> dirty c' = true).
Proof.
  destruct op as [p m|p| | |p| |now age|n|cands|lock cands]; cbn [meta_step].
  - done.
  - unfold downgrade. destruct (entries c !! p); done.
  - unfold downgrade_all. simpl. case_bool_decide as He; simpl; [|done].
    rewrite He, fmap_empty. split; [done|]. by intros ->.
  - destruct (rescan_all env c t) as [[c' n] t'] eqn:Hr.
    apply rescan_all_spec in Hr as (_ & _ & Hd & Hk). simpl. naive_solver.
  - unfold remove. destruct (entries c !! p); done.
  - done.
  - unfold trim. simpl. split; [|intros ->; by case_match].
    intros Hne. case_match eqn:Hn; [done|]. apply Nat.ltb_ge in Hn. exfalso. apply Hne.
    apply map_filter_size_eq. lia.
  - unfold evict_oldest, evict_candidates, evict_candidates_detailed.
    pose proof (try_evict_dirty (fun _ => false) (oldest_eviction_candidates c n) c) as Hd.
    by destruct (try_evict_candidates_detailed _ _ _).
  - unfold evict_candidates, evict_candidates_detailed.
    pose proof (try_evict_dirty (fun _ => false) cands c) as Hd.
    by destruct (try_evict_candidates_detailed _ _ _).
  - unfold try_evict_candidates. pose proof (try_evict_dirty lock cands c) as Hd.
    by destruct (try_evict_candidates_detailed _ _ _).
Qed.
