(* ===== verification/Verify.v ===== *)
(** * Stat-verified lookups ([zccache-fscache/src/verify.rs])

    The operations that join the metadata cache with the filesystem: stat,
    verify, lookup, and hashing with a stat before and after.  A computation
    runs over the cache and the current instant of the environment ([FsState])
    in the [SE] monad; every stat and every read moves to the next instant, so
    the file tree may change between any two of them. *)

From S2P Require Import Prelude Path Hash Metadata.
From Stdlib Require Import Lia.

Inductive VerifyResult := Fresh | Stale | Gone.

Record FsState := mkFs { fs_cache : MetadataCache; fs_tick : nat }.

Abbreviation FsM := (SE FsState Error).

(** The daemon's system facade: [blake3_open_file] digests the file behind an
    open handle. *)
Class Facade {B3 : Blake3} := {
  blake3_open_file : bytes -> ContentHash;
  blake3_open_file_ok : forall b, blake3_open_file b = hash_bytes b;
}.

#[global] Arguments Facade : clear implicits.

Definition toy_facade : Facade toy_blake3 :=
  @Build_Facade toy_blake3 (hash_bytes (B3 := toy_blake3)) (fun _ => eq_refl).

(** ** Operations *)

Section operations.
Context {B3 : Blake3} {F : Facade B3} (env : Env).

(** Observe the environment at the current instant and move on. *)
Definition observe {A} (f : nat -> A) : FsM A :=
  fun s => (inr (f (fs_tick s)), mkFs (fs_cache s) (S (fs_tick s))).

(** [std::io::Error] becomes [Error::Io] at a [?]. *)
Definition io_result {A} (r : IoError + A) : FsM A :=
  match r with inl e => se_fail (Io e) | inr a => mret a end.

Definition with_cache (f : MetadataCache -> MetadataCache) : FsM unit :=
  se_modify (fun s => mkFs (f (fs_cache s)) (fs_tick s)).

Definition metadata_from_fs (now : Z) (f : FileState) : FileMetadata :=
  mkMeta (f_mtime f) (f_size f) High now None.

Definition stat_file (path : bytes) : FsM FileMetadata :=
  r ← observe (fun t => (disk env t path, now_at env t));
  f ← io_result r.1;
  mret (metadata_from_fs r.2 f).

Definition cache_get (p : NormalizedPath) : FsM (option FileMetadata) :=
  s ← se_get; mret (get (fs_cache s) (now_at env (fs_tick s)) p).

(** [match Self::stat_file(path) { Ok(m) => .., Err(Io(NotFound)) => .., Err(e) => .. }] *)
Definition stat_or {A} (path : bytes) (ok : FileMetadata -> FsM A) (gone : FsM A) : FsM A :=
  fun s => match stat_file path s with
           | (inl (Io NotFound), s') => gone s'
           | (inl e, s') => (inl e, s')
           | (inr m, s') => ok m s'
           end.

Definition same_stamp (a b : FileMetadata) : bool :=
  (mtime a =? mtime b) && (msize a =? msize b).

Definition verify (path : bytes) : FsM VerifyResult :=
  cached ← cache_get (normalize path);
  match cached with
  | None => se_fail (CacheError ("path not in cache: " +:+ path))
  | Some cached =>
      stat_or path
        (fun fresh => mret (if negb (mtime cached =? mtime fresh)
                               || negb (msize cached =? msize fresh)
                            then Stale else Fresh))
        (mret Gone)
  end.

(** [hash_file_snapshot]: open and stat the handle, read it, stat the path
    again.  The read shows what [read_bytes] says, through the buffered
    reader or the facade's mapping. *)
Definition hash_file_snapshot (path : bytes) : FsM (FileMetadata * ContentHash * FileMetadata) :=
  pre ← stat_file path;
  r ← observe (fun t => read_bytes env t path);
  h ← io_result (match r with
                 | inl e => hash_open_file [inl e] (inl e) (msize pre)
                 | inr b => hash_open_file [inr b] (inr (blake3_open_file b)) (msize pre)
                 end);
  post ← stat_file path;
  mret (pre, h, post).

Definition with_hash (h : ContentHash) (m : FileMetadata) : FileMetadata :=
  mkMeta (mtime m) (msize m) (confidence m) (last_verified m) (Some h).

(** [for _ in 0..n { .. }]: the first stable snapshot is stored and returned. *)
Fixpoint retry_snapshots (n : nat) (path : bytes) (normalized : NormalizedPath) :
    FsM (option ContentHash) :=
  match n with
  | O => mret None
  | S n' =>
      s ← hash_file_snapshot path;
      let '(pre, h, post) := s in
      if same_stamp pre post
      then _ ← with_cache (insert normalized (with_hash h post)); mret (Some h)
      else retry_snapshots n' path normalized
  end.

Definition hash_and_insert (path : bytes) (normalized : NormalizedPath) : FsM ContentHash :=
  s ← hash_file_snapshot path;
  let '(pre_stat, hash, post_stat) := s in
  if negb (mtime pre_stat =? mtime post_stat) || negb (msize pre_stat =? msize post_stat) then
    stable ← retry_snapshots 3 path normalized;
    match stable with
    | Some h => mret h
    | None =>
        meta ← stat_file path;
        _ ← with_cache (insert normalized (set_confidence Low (with_hash hash meta)));
        mret hash
    end
  else
    _ ← with_cache (insert normalized (with_hash hash post_stat));
    mret hash.

Definition lookup_normalized (normalized : NormalizedPath) : FsM ContentHash :=
  let path := normalized in
  cached ← cache_get normalized;
  match cached with
  | None => hash_and_insert path normalized
  | Some entry =>
      stat_or path
        (fun fresh =>
           let rehash := hash_and_insert path normalized in
           if same_stamp entry fresh then
             match confidence entry, content_hash entry with
             | (High | Medium), Some h =>
                 s ← se_get;
                 _ ← with_cache (insert (NormalizedPath_new path)
                       (mkMeta (mtime entry) (msize entry) High (now_at env (fs_tick s))
                          (content_hash entry)));
                 mret h
             | _, _ => rehash
             end
           else rehash)
        (_ ← with_cache (remove normalized); se_fail (FileNotFound (NormalizedPath_new path)))
  end.

Definition lookup (path : bytes) : FsM ContentHash := lookup_normalized (normalize path).
End operations.

(** ** What the filesystem promises

    The stamp of a file is its [(mtime, size)].  [HonestFs env tol] says what
    the design relies on: files seen with stamps that match up to the mtime
    tolerance [tol] have the same content; a read between two stats with one
    stamp saw that content; a size is the length of the content. *)

Definition stamp_of (f : FileState) : Z * Z := (f_mtime f, f_size f).

Class HonestFs (env : Env) (tol : Z) : Prop := {
  honest_stamp : forall i j p f g,
    disk env i p = inr f -> disk env j p = inr g ->
    mtimes_match tol (f_mtime f) (f_mtime g) = true -> f_size f = f_size g ->
    f_content f = f_content g;
  honest_read : forall i p f g b,
    disk env i p = inr f -> disk env (S (S i)) p = inr g -> stamp_of f = stamp_of g ->
    read_bytes env (S i) p = inr b -> b = f_content g;
  honest_size : forall i p f,
    disk env i p = inr f -> f_size f = Z.of_nat (String.length (f_content f));
}.

Lemma mtimes_match_zero a b : mtimes_match 0 a b = true -> a = b.
Proof. unfold mtimes_match. by destruct (Z.eqb_spec a b). Qed.

Lemma mtimes_match_refl tol a : mtimes_match tol a a = true.
Proof. unfold mtimes_match. by rewrite Z.eqb_refl. Qed.

(** The hash [h] is the hash of the file as it was at an instant in [[lo, hi)]
    with the stamp [st]. *)
Definition hash_at {B3 : Blake3} (env : Env) (lo hi : nat) (p : NormalizedPath)
    (st : Z * Z) (h : ContentHash) : Prop :=
  exists i f, (lo <= i < hi)%nat /\ disk env i p = inr f /\ stamp_of f = st /\
    h = hash_bytes (f_content f).

Definition meta_stamp (m : FileMetadata) : Z * Z := (mtime m, msize m).

Definition entry_honest {B3 : Blake3} (env : Env) (t : nat) (p : NormalizedPath)
    (m : FileMetadata) : Prop :=
  forall h, content_hash m = Some h -> hash_at env 0 t p (meta_stamp m) h.

(** The invariant of the cache: every entry that is trusted (not [Low]) has the
    hash of a file that was seen with the entry's stamp. *)
Definition trusted {B3 : Blake3} (env : Env) (s : FsState) : Prop :=
  forall p m, entries (fs_cache s) !! p = Some m -> confidence m <> Low ->
    entry_honest env (fs_tick s) p m.

(** The stronger property that [Low] entries have such a hash too. *)
Definition all_honest {B3 : Blake3} (env : Env) (s : FsState) : Prop :=
  forall p m, entries (fs_cache s) !! p = Some m -> entry_honest env (fs_tick s) p m.

(** A snapshot starting at [i] saw the file change. *)
Definition torn (env : Env) (p : NormalizedPath) (i : nat) : Prop :=
  exists f g, disk env i p = inr f /\ disk env (S (S i)) p = inr g /\ stamp_of f <> stamp_of g.

(** [hash_and_insert] started at [t] gave up: all four snapshots were torn. *)
Definition unstable (env : Env) (p : NormalizedPath) (t : nat) : Prop :=
  forall k, (k < 4)%nat -> torn env p (t + 3 * k).

(** ** Lemmas *)

Lemma same_stamp_true a b : same_stamp a b = true <-> meta_stamp a = meta_stamp b.
Proof.
  unfold same_stamp, meta_stamp. rewrite andb_true_iff, !Z.eqb_eq.
  split; [by intros [-> ->]|by intros [= -> ->]].
Qed.

Lemma same_stamp_negb a b :
  negb (mtime a =? mtime b) || negb (msize a =? msize b) = negb (same_stamp a b).
Proof. unfold same_stamp. by rewrite negb_andb. Qed.

Lemma hash_at_weaken {B3 : Blake3} env lo lo' hi hi' p st h :
  (lo' <= lo)%nat -> (hi <= hi')%nat -> hash_at env lo hi p st h -> hash_at env lo' hi' p st h.
Proof. intros ? ? (i & f & ? & ?). exists i, f. split; [lia|done]. Qed.

Lemma entry_honest_mono {B3 : Blake3} env t t' p m :
  (t <= t')%nat -> entry_honest env t p m -> entry_honest env t' p m.
Proof. intros Ht H h Hh. eapply hash_at_weaken; [| |by apply H]; lia. Qed.

Definition is_io (e : Error) : bool := if e is Io _ then true else false.

(** The two ways a single observation of the file can end. *)
Lemma stat_file_run env path c t :
  stat_file env path (mkFs c t) =
    (match disk env t path with
     | inl e => inl (Io e)
     | inr f => inr (metadata_from_fs (now_at env t) f)
     end, mkFs c (S t)).
Proof. unfold stat_file, mbind, SE_bind, observe. simpl. by destruct (disk env t path). Qed.

Lemma cache_get_run env p c t :
  cache_get env p (mkFs c t) = (inr (get c (now_at env t) p), mkFs c t).
Proof. done. Qed.

(** The hash a lookup takes over from the cached entry, if any. *)
Definition reusable (c : MetadataCache) (now : Z) (e : FileMetadata) (f : FileState) :
    option ContentHash :=
  if bool_decide (meta_stamp e = stamp_of f)
  then match decayed_confidence c now e with Low => None | _ => content_hash e end
  else None.

Lemma lookup_normalized_run {B3 : Blake3} {F : Facade B3} env p c t :
  normalize p = p ->
  lookup_normalized env p (mkFs c t) =
    match entries c !! p with
    | None => hash_and_insert env p p (mkFs c t)
    | Some e =>
        match disk env t p with
        | inl NotFound => (inl (FileNotFound p), mkFs (remove p c) (S t))
        | inl io => (inl (Io io), mkFs c (S t))
        | inr f =>
            match reusable c (now_at env t) e f with
            | Some h => (inr h, mkFs (insert p (mkMeta (mtime e) (msize e) High
                                (now_at env (S t)) (Some h)) c) (S t))
            | None => hash_and_insert env p p (mkFs c (S t))
            end
        end
    end.
Proof.
  intros Hn. unfold lookup_normalized, NormalizedPath_new. rewrite Hn.
  rewrite (se_bind_inr _ _ _ _ _ (cache_get_run env p c t)). unfold get.
  destruct (entries c !! p) as [e|]; [|done]. cbn [fmap option_fmap option_map].
  unfold stat_or. rewrite stat_file_run. destruct (disk env t p) as [[]|f]; [done..|].
  unfold reusable.
  destruct (same_stamp _ (metadata_from_fs (now_at env t) f)) eqn:Hst.
  - apply same_stamp_true in Hst. rewrite bool_decide_eq_true_2 by exact Hst. cbn [confidence].
    simpl. destruct (decayed_confidence c (now_at env t) e), (content_hash e) as [h|]; done.
  - rewrite bool_decide_eq_false_2; [done|]. intros Heq.
    apply not_true_iff_false in Hst. apply Hst, same_stamp_true. exact Heq.
Qed.

Section specs.
Context {B3 : Blake3} {F : Facade B3} (env : Env) (tol : Z).

(** The outcome of a snapshot: it never touches the cache. *)
Lemma snapshot_ok path c t pre h post s' :
  hash_file_snapshot env path (mkFs c t) = (inr (pre, h, post), s') ->
  s' = mkFs c (3 + t) /\
  exists f g, disk env t path = inr f /\ disk env (S (S t)) path = inr g /\
    pre = metadata_from_fs (now_at env t) f /\
    post = metadata_from_fs (now_at env (S (S t))) g /\
    (HonestFs env tol -> same_stamp pre post = true -> h = hash_bytes (f_content g)).
Proof.
  unfold hash_file_snapshot, mbind, SE_bind. rewrite stat_file_run.
  destruct (disk env t path) as [|f] eqn:Hf; [done|]. simpl.
  destruct (io_result _ _) as [[|h'] [c' t']] eqn:Hio; [done|].
  assert (c' = c /\ t' = S (S t)) as [-> ->].
  { unfold io_result in Hio. case_match; [done|]. by injection Hio as ? <- <-. }
  rewrite stat_file_run. destruct (disk env (S (S t)) path) as [|g] eqn:Hg; [done|].
  intros [= <- <- <- <-]. split; [done|]. exists f, g. split_and!; try done.
  intros Hh Hst%same_stamp_true. unfold metadata_from_fs, meta_stamp in Hst. simpl in Hst.
  destruct (read_bytes env (S t) path) as [e|b] eqn:Hb.
  - unfold io_result in Hio. unfold hash_open_file in Hio. simpl in Hio.
    destruct (f_size f =? 0) eqn:Hz; [|by destruct (_ <? _)].
    injection Hio as <-. apply Z.eqb_eq in Hz. injection Hst as _ Hst.
    rewrite (honest_size _ _ _ Hg) in Hst. destruct (f_content g); [done|simpl in Hst; lia].
  - assert (b = f_content g) as -> by exact (honest_read t path f g b Hf Hg Hst Hb).
    unfold io_result, hash_open_file in Hio. simpl in Hio.
    destruct (f_size f =? 0) eqn:Hz.
    + injection Hio as <-. apply Z.eqb_eq in Hz. injection Hst as _ Hst.
      rewrite (honest_size _ _ _ Hg) in Hst. destruct (f_content g); [done|simpl in Hst; lia].
    + unfold hash_reader in Hio. simpl in Hio. rewrite blake3_open_file_ok in Hio.
      destruct (_ <? _); [|by injection Hio]. case_bool_decide as He; simpl in Hio.
      * injection Hio as <-. by rewrite He.
      * injection Hio as <-. unfold stream_finalize. simpl. done.
Qed.

Lemma snapshot_err path c t e s' :
  hash_file_snapshot env path (mkFs c t) = (inl e, s') ->
  fs_cache s' = c /\ (t <= fs_tick s')%nat /\ is_io e.
Proof.
  unfold hash_file_snapshot, mbind, SE_bind. rewrite stat_file_run.
  destruct (disk env t path) as [|f]; [intros [= <- <-]; simpl; split_and!; [done|lia|done]|].
  simpl.
  destruct (io_result _ _) as [[e'|h'] [c' t']] eqn:Hio.
  - intros [= -> <-]. unfold io_result in Hio. case_match; [|done].
    injection Hio as <- <- <-. simpl. split_and!; [done|lia|done].
  - unfold io_result in Hio. case_match; [done|]. injection Hio as ? <- <-.
    rewrite stat_file_run. destruct (disk env (S (S t)) path); [|done].
    intros [= <- <-]. simpl. split_and!; [done|lia|done].
Qed.

(** An entry written from a stable snapshot taken in [[lo, hi)]. *)
Definition stable_entry (lo hi : nat) (p : NormalizedPath) (m : FileMetadata)
    (h : ContentHash) : Prop :=
  confidence m = High /\ content_hash m = Some h /\ hash_at env lo hi p (meta_stamp m) h.

Lemma stable_entry_weaken lo lo' hi hi' p m h :
  (lo' <= lo)%nat -> (hi <= hi')%nat -> stable_entry lo hi p m h -> stable_entry lo' hi' p m h.
Proof. intros ? ? (? & ? & ?). split_and!; [done..|]. by eapply hash_at_weaken. Qed.

Lemma snapshot_stable path c t pre h post s' :
  HonestFs env tol ->
  hash_file_snapshot env path (mkFs c t) = (inr (pre, h, post), s') ->
  if same_stamp pre post then stable_entry t (3 + t) path (with_hash h post) h
  else torn env path t.
Proof.
  intros Hh (_ & f & g & Hf & Hg & -> & -> & Hc)%snapshot_ok.
  destruct (same_stamp _ _) eqn:Hst.
  - specialize (Hc Hh eq_refl). split_and!; [done..|]. exists (S (S t)), g.
    split_and!; [lia..|done|done|done].
  - exists f, g. split_and!; [done..|]. intros Heq. apply not_true_iff_false in Hst.
    apply Hst, same_stamp_true. done.
Qed.

Lemma retry_spec n path p c t r s' :
  HonestFs env tol ->
  retry_snapshots env n path p (mkFs c t) = (r, s') ->
  (t <= fs_tick s')%nat /\
  match r with
  | inl e => fs_cache s' = c /\ is_io e
  | inr None => s' = mkFs c (3 * n + t) /\ forall k, (k < n)%nat -> torn env path (t + 3 * k)
  | inr (Some h) => exists m, fs_cache s' = insert p m c /\
                      stable_entry t (fs_tick s') path m h
  end.
Proof.
  intros Hh. revert t. induction n as [|n IH]; intros t; cbn [retry_snapshots].
  { intros [= <- <-]. simpl. split_and!; [lia|done|lia]. }
  unfold mbind at 1, SE_bind at 1.
  destruct (hash_file_snapshot env path (mkFs c t)) as [[e|[[pre h] post]] s1] eqn:Hs.
  { intros [= <- <-]. by apply snapshot_err in Hs as (-> & ? & ?). }
  pose proof (snapshot_stable _ _ _ _ _ _ _ Hh Hs) as Hst.
  apply snapshot_ok in Hs as [-> _]. destruct (same_stamp pre post).
  - intros [= <- <-]. simpl. split; [lia|]. by eexists.
  - intros [Hle Hr]%IH. split; [lia|]. destruct r as [e|[h'|]]; [done|..].
    + destruct Hr as (m & ? & ?). exists m. split; [done|].
      eapply stable_entry_weaken; [| |done]; lia.
    + destruct Hr as [-> Hk]. split; [f_equal; lia|]. intros [|k] Hlt.
      * by rewrite Nat.mul_0_r, Nat.add_0_r.
      * replace (t + 3 * S k)%nat with (3 + t + 3 * k)%nat by lia. apply Hk. lia.
Qed.

(** The outcome of [hash_and_insert]: an error leaves the cache as it was; a
    hash is stored, at [High] from a stable snapshot, or at [Low] when every
    snapshot was torn. *)
Lemma hash_and_insert_spec path p c t r s' :
  HonestFs env tol ->
  hash_and_insert env path p (mkFs c t) = (r, s') ->
  (t <= fs_tick s')%nat /\
  match r with
  | inl e => fs_cache s' = c /\ is_io e
  | inr h => exists m, fs_cache s' = insert p m c /\ content_hash m = Some h /\
      (stable_entry t (fs_tick s') path m h \/ (confidence m = Low /\ unstable env path t))
  end.
Proof.
  intros Hh. unfold hash_and_insert. unfold mbind at 1, SE_bind at 1.
  destruct (hash_file_snapshot env path (mkFs c t)) as [[e|[[pre h] post]] s1] eqn:Hs.
  { intros [= <- <-]. by apply snapshot_err in Hs as (-> & ? & ?). }
  rewrite same_stamp_negb. pose proof (snapshot_stable _ _ _ _ _ _ _ Hh Hs) as Hst.
  apply snapshot_ok in Hs as [-> _]. destruct (same_stamp pre post); cbn [negb].
  { intros [= <- <-]. simpl. split; [lia|]. exists (with_hash h post). eauto. }
  unfold mbind at 1, SE_bind at 1.
  destruct (retry_snapshots env 3 path p _) as [r1 s1] eqn:Hr.
  apply retry_spec in Hr as [Hle Hr]; [|done]. destruct r1 as [e|[h'|]].
  - intros [= <- <-]. split; [lia|done].
  - intros [= <- <-]. split; [lia|]. destruct Hr as (m & ? & Hm). exists m.
    split_and!; [done|apply Hm|]. left. eapply stable_entry_weaken; [| |done]; lia.
  - destruct Hr as [-> Hk]. unfold mbind at 1, SE_bind at 1. rewrite stat_file_run.
    destruct (disk env _ path); intros [= <- <-]; (split; [simpl; lia|]); [done|].
    eexists. split_and!; [done..|]. right. split; [done|]. intros [|k] Hlt.
    + by rewrite Nat.mul_0_r, Nat.add_0_r.
    + replace (t + 3 * S k)%nat with (3 + t + 3 * k)%nat by lia. apply Hk. lia.
Qed.

Lemma trusted_tick c t t' : (t <= t')%nat -> trusted env (mkFs c t) -> trusted env (mkFs c t').
Proof. intros Ht H p m Hp Hl. eapply entry_honest_mono; [|by apply H]. done. Qed.

Lemma stable_entry_honest lo hi p m h : stable_entry lo hi p m h -> entry_honest env hi p m.
Proof.
  intros (_ & Hh & Ha) h'. rewrite Hh. intros [= <-]. eapply hash_at_weaken; [| |done]; lia.
Qed.

(** A hash taken over from a trusted entry is the hash of the file just seen. *)
Lemma reusable_sound p c t e f h :
  HonestFs env tol -> (confidence e <> Low -> entry_honest env t p e) ->
  disk env t p = inr f -> reusable c (now_at env t) e f = Some h ->
  h = hash_bytes (f_content f) /\ meta_stamp e = stamp_of f.
Proof.
  intros Hh Htr Hf. unfold reusable. case_bool_decide as Hst; [|done].
  intros Hr. split; [|done].
  assert (confidence e <> Low /\ content_hash e = Some h) as [Hc Hhash].
  { unfold decayed_confidence in Hr. destruct (confidence e); [done|..];
      split; [done|by repeat case_match|done|by repeat case_match]. }
  destruct (Htr Hc h Hhash) as (i & g & _ & Hg & Hsg & ->). f_equal.
  rewrite Hst in Hsg. injection Hsg as Hm Hz. apply (honest_stamp i t p); [done..| |done].
  rewrite Hm. apply mtimes_match_refl.
Qed.

(** What a lookup that started at [t] may return. *)
Definition lookup_outcome (p : NormalizedPath) (c : MetadataCache) (t : nat)
    (r : Error + ContentHash) (s' : FsState) : Prop :=
  match r with
  | inl (FileNotFound q) => q = p /\ disk env t p = inl NotFound /\
                            entries (fs_cache s') = delete p (entries c)
  | inl _ => fs_cache s' = c
  | inr h => exists m, entries (fs_cache s') = <[p := m]> (entries c) /\
      content_hash m = Some h /\
      (stable_entry t (fs_tick s') p m h \/
       (confidence m = Low /\ exists t1, (t <= t1 <= fs_tick s')%nat /\ unstable env p t1))
  end.

(** Such an outcome keeps the invariant. *)
Lemma outcome_trusted p c t r s' :
  (t <= fs_tick s')%nat -> trusted env (mkFs c t) -> lookup_outcome p c t r s' -> trusted env s'.
Proof.
  destruct s' as [c' t']. intros Ht Htr Ho. apply (trusted_tick _ _ t') in Htr; [|done].
  assert (forall q m, entries c !! q = Some m -> confidence m <> Low -> entry_honest env t' q m) as Hold by exact Htr.
  intros q m. unfold lookup_outcome in Ho. simpl in *. destruct r as [[]|h]; try (subst c'; by apply Hold).
  - destruct Ho as (_ & _ & ->). intros [_ Hq]%lookup_delete_Some. by apply Hold.
  - destruct Ho as (m1 & -> & _ & Hcase). intros [[<- <-]|[_ Hq]]%lookup_insert_Some Hl; [|by apply Hold].
    destruct Hcase as [Hst|[? _]]; [by eapply stable_entry_honest|done].
Qed.

Lemma hash_and_insert_outcome p c t t0 r s' :
  HonestFs env tol -> (t0 <= t)%nat -> hash_and_insert env p p (mkFs c t) = (r, s') ->
  (t <= fs_tick s')%nat /\ lookup_outcome p c t0 r s'.
Proof.
  intros Hh Ht Hr. pose proof Hr as [Hle H]%hash_and_insert_spec; [|done]. split; [done|].
  destruct s' as [c' t']. simpl in *. destruct r as [e|h].
  - destruct H as [-> Hio]. by destruct e.
  - destruct H as (m & -> & Hm & Hcase). exists m. split_and!; [done..|]. destruct Hcase as [Hst|[? Hu]].
    + left. eapply stable_entry_weaken; [| |done]; simpl; lia.
    + right. split; [done|]. exists t. split; [simpl; lia|done].
Qed.

(** A lookup needs no more than an honest entry for its own path. *)
Lemma lookup_normalized_at p c t r s' :
  HonestFs env tol -> normalize p = p ->
  (forall m, entries c !! p = Some m -> confidence m <> Low -> entry_honest env t p m) ->
  lookup_normalized env p (mkFs c t) = (r, s') -> (t <= fs_tick s')%nat /\ lookup_outcome p c t r s'.
Proof.
  intros Hh Hn Htr. rewrite lookup_normalized_run by done.
  assert (forall r s', hash_and_insert env p p (mkFs c (S t)) = (r, s') -> (t <= fs_tick s')%nat /\ lookup_outcome p c t r s') as Hrehash.
  { intros r1 s1 H. apply (hash_and_insert_outcome _ _ _ t) in H as [??]; [|done|lia]. split; [lia|done]. }
  destruct (entries c !! p) as [e|] eqn:He; [|by apply hash_and_insert_outcome].
  destruct (disk env t p) as [[]|f] eqn:Hf.
  - intros [= <- <-]. simpl. split; [lia|]. split_and!; [done..|]. unfold remove. by rewrite He.
  - intros [= <- <-]. split; [simpl; lia|done].
  - destruct (reusable _ _ _ _) as [h|] eqn:Hr; [|apply Hrehash].
    intros [= <- <-]. apply (reusable_sound p) in Hr as [-> Hst]; [|by auto..].
    split; [simpl; lia|]. eexists. split_and!; [done..|]. left. split_and!; [done..|].
    exists t, f. split_and!; [simpl; lia..|done| |done]. by symmetry.
Qed.

Lemma lookup_normalized_spec p c t r s' :
  HonestFs env tol -> normalize p = p -> trusted env (mkFs c t) ->
  lookup_normalized env p (mkFs c t) = (r, s') ->
  trusted env s' /\ lookup_outcome p c t r s'.
Proof.
  intros Hh Hn Htr Hl. apply lookup_normalized_at in Hl as [Ht Ho]; [|done..|by apply Htr].
  split; [|done]. by eapply outcome_trusted.
Qed.
End specs.

(** A file that is not touched during the lookup. *)
Definition undisturbed (env : Env) (p : NormalizedPath) (f : FileState) (t n : nat) : Prop :=
  forall i, (t <= i < t + n)%nat -> disk env i p = inr f /\ read_bytes env i p = inr (f_content f).

Lemma hash_file_snapshot_undisturbed {B3 : Blake3} {F : Facade B3} env p f c t n :
  undisturbed env p f t (3 + n) -> f_size f = Z.of_nat (String.length (f_content f)) ->
  hash_file_snapshot env p (mkFs c t) =
    (inr (metadata_from_fs (now_at env t) f, hash_bytes (f_content f),
          metadata_from_fs (now_at env (2 + t)) f), mkFs c (3 + t)).
Proof.
  intros Hu Hsz. unfold hash_file_snapshot, mbind, SE_bind. rewrite stat_file_run.
  destruct (Hu t) as [-> _]; [lia|]. simpl. destruct (Hu (S t)) as [_ ->]; [lia|].
  assert (hash_open_file (E := IoError) [inr (f_content f)] (inr (blake3_open_file (f_content f)))
            (f_size f) = inr (hash_bytes (f_content f))) as ->.
  { rewrite Hsz. destruct (f_content f) as [|a b]; [done|]. rewrite blake3_open_file_ok.
    unfold hash_open_file. by repeat case_match. }
  simpl. rewrite stat_file_run. by destruct (Hu (S (S t))) as [-> _]; [lia|].
Qed.

Lemma hash_and_insert_undisturbed {B3 : Blake3} {F : Facade B3} env p q f c t n :
  undisturbed env p f t (3 + n) -> f_size f = Z.of_nat (String.length (f_content f)) ->
  hash_and_insert env p q (mkFs c t) =
    (inr (hash_bytes (f_content f)),
     mkFs (insert q (with_hash (hash_bytes (f_content f))
                       (metadata_from_fs (now_at env (2 + t)) f)) c) (3 + t)).
Proof.
  intros Hu Hsz. unfold hash_and_insert.
  rewrite (se_bind_inr _ _ _ _ _ (hash_file_snapshot_undisturbed env p f c t n Hu Hsz)).
  rewrite same_stamp_negb. unfold same_stamp. simpl. by rewrite !Z.eqb_refl.
Qed.

(** A lookup of a file that is left alone. *)
Lemma lookup_undisturbed {B3 : Blake3} {F : Facade B3} env tol path f c t :
  HonestFs env tol -> trusted env (mkFs c t) -> undisturbed env (normalize path) f t 5 ->
  exists m t', (t < t' <= t + 4)%nat /\
    lookup env path (mkFs c t) =
      (inr (hash_bytes (f_content f)), mkFs (insert (normalize path) m c) t') /\
    m = mkMeta (f_mtime f) (f_size f) High (last_verified m) (Some (hash_bytes (f_content f))).
Proof.
  intros Hh Htr Hu. unfold lookup. set (p := normalize path) in *.
  assert (f_size f = Z.of_nat (String.length (f_content f))) as Hsz.
  { eapply (honest_size t p). apply Hu. lia. }
  assert (forall t0 n, (t <= t0)%nat -> (t0 + (3 + n) <= t + 5)%nat ->
            undisturbed env p f t0 (3 + n)) as Hsub by (intros t0 n ? ? i ?; apply Hu; lia).
  rewrite lookup_normalized_run by apply normalize_idem.
  destruct (Hu t) as [Hd _]; [lia|]. rewrite Hd.
  destruct (entries c !! p) as [e|] eqn:He;
    [destruct (reusable _ _ _ _) as [h|] eqn:Hr|].
  - apply (reusable_sound env tol p) in Hr as [-> [= Hm Hz]]; [|done|by apply Htr|done]. rewrite Hm, Hz.
    eexists _, _. split_and!; [| |done|done]; lia.
  - rewrite (hash_and_insert_undisturbed env p p f c (S t) 1) by (done || apply Hsub; lia).
    eexists _, _. split_and!; [| |done|done]; lia.
  - rewrite (hash_and_insert_undisturbed env p p f c t 1) by (done || apply Hsub; lia).
    eexists _, _. split_and!; [| |done|done]; lia.
Qed.

(** An environment to evaluate with: one file, written continuously until the
    instant [k] and left alone from then on. *)
Definition busy_file (k i : nat) : FileState :=
  mkFile (Z.of_nat (Nat.min i k)) 1 (if (i <? k)%nat then "a" else "b").

Definition busy_env (k : nat) : Env :=
  {| disk := fun i p => if bool_decide (p = "/f") then inr (busy_file k i) else inl NotFound;
     read_bytes := fun i p => if bool_decide (p = "/f") then inr (f_content (busy_file k i))
                              else inl NotFound;
     now_at := Z.of_nat |}.

Lemma busy_file_content k i j :
  f_mtime (busy_file k i) = f_mtime (busy_file k j) -> i <> j ->
  (k <= i)%nat /\ (k <= j)%nat.
Proof. simpl. lia. Qed.

Lemma busy_file_late k i : (k <= i)%nat -> f_content (busy_file k i) = "b".
Proof. intros Hk. simpl. by rewrite (proj2 (Nat.ltb_ge i k) Hk). Qed.

#[export] Instance busy_env_honest k : HonestFs (busy_env k) 0.
Proof.
  split; intros i; simpl.
  - intros j p f g. case_bool_decide; [|done]. intros [= <-] [= <-] Hm _.
    apply mtimes_match_zero in Hm. destruct (decide (i = j)) as [->|Hne]; [done|].
    apply busy_file_content in Hm as [? ?]; [|done]. by rewrite !busy_file_late by done.
  - intros p f g b. case_bool_decide; [|done]. intros [= <-] [= <-] Hst [= <-].
    apply (f_equal fst), busy_file_content in Hst as [? _]; [|lia].
    change (f_content (busy_file k (S i)) = f_content (busy_file k (S (S i)))).
    by rewrite !busy_file_late by lia.
  - intros p f. case_bool_decide; [|done]. intros [= <-]. simpl. by case_match.
Qed.

(** ** Properties *)

(** [lookup] never serves a wrong hash and keeps the cache honest.  On a
    filesystem whose stamps identify contents, from a cache whose trusted
    entries are honest: the invariant holds again afterwards; a returned hash
    is the hash of the file at an instant during the call, stored at [High], or
    else all four snapshots were torn and the entry is stored at [Low]; a
    vanished file is reported and its entry removed, and every other error
    leaves the cache as it was. *)
Theorem lookup_sound {B3 : Blake3} {F : Facade B3} (env : Env) (tol : Z) (path : bytes)
    (c : MetadataCache) (t : nat) (r : Error + ContentHash) (s' : FsState) :
  HonestFs env tol -> trusted env (mkFs c t) ->
  lookup env path (mkFs c t) = (r, s') ->
  trusted env s' /\ lookup_outcome env (normalize path) c t r s'.
Proof.
  intros Hh Htr Hr. apply (lookup_normalized_spec env tol); [done|apply normalize_idem|done..].
Qed.

Lemma trusted_new {B3 : Blake3} env t : trusted env (mkFs MetadataCache_new t).
Proof. intros p m. simpl. intros H. by apply lookup_empty_Some in H. Qed.

Lemma lookup_sound_witness :
  let r := lookup (F := toy_facade) (busy_env 3) "/x/../f" (mkFs MetadataCache_new 0) in
  trusted (B3 := toy_blake3) (busy_env 3) r.2 /\
  lookup_outcome (B3 := toy_blake3) (busy_env 3) "/f" MetadataCache_new 0 r.1 r.2 /\
  r.1 = inr (hash_bytes (B3 := toy_blake3) "b").
Proof.
  intros r. assert (r.1 = inr (hash_bytes (B3 := toy_blake3) "b")) as Hr
    by (vm_compute; reflexivity).
  destruct (lookup_sound (F := toy_facade) (busy_env 3) 0 "/x/../f" MetadataCache_new 0 r.1 r.2
    (busy_env_honest 3) (trusted_new (B3 := toy_blake3) _ _) (surjective_pairing r)).
  split; [assumption|]. split; assumption.
Defined.

(** [lookup] is complete: a readable file that does not change during the
    call is always given its hash, from any honest cache, within four
    observations, and its entry is then [High] with the file's stamp, so that
    [verify] answers [Fresh]. *)
Theorem lookup_complete {B3 : Blake3} {F : Facade B3} (env : Env) (tol : Z) (path : bytes)
    (f : FileState) (c : MetadataCache) (t : nat) :
  HonestFs env tol -> trusted env (mkFs c t) ->
  undisturbed env (normalize path) f t 5 ->
  exists m t', (t < t' <= t + 4)%nat /\
    lookup env path (mkFs c t) =
      (inr (hash_bytes (f_content f)), mkFs (insert (normalize path) m c) t') /\
    m = mkMeta (f_mtime f) (f_size f) High (last_verified m) (Some (hash_bytes (f_content f))) /\
    (verify env (normalize path) (mkFs (insert (normalize path) m c) t')).1 = inr Fresh.
Proof.
  intros Hh Htr Hu. destruct (lookup_undisturbed env tol path f c t Hh Htr Hu)
    as (m & t' & Ht & Hl & Hm). exists m, t'. split_and!; [apply Ht..|done|done|].
  unfold verify. rewrite normalize_idem.
  rewrite (se_bind_inr _ _ _ _ _ (cache_get_run env _ _ t')). unfold get. simpl.
  rewrite lookup_insert_eq, Hm. simpl. unfold stat_or. rewrite stat_file_run.
  destruct (Hu t') as [-> _]; [lia|]. simpl. by rewrite !Z.eqb_refl.
Qed.

Lemma lookup_complete_witness :
  exists m t', (0 < t' <= 4)%nat /\
    lookup (F := toy_facade) (busy_env 0) "/f" (mkFs MetadataCache_new 0) =
      (inr (hash_bytes (B3 := toy_blake3) "b"), mkFs (insert "/f" m MetadataCache_new) t') /\
    m = mkMeta 0 1 High (last_verified m) (Some (hash_bytes (B3 := toy_blake3) "b")) /\
    (verify (busy_env 0) "/f" (mkFs (insert "/f" m MetadataCache_new) t')).1 = inr Fresh.
Proof.
  apply (lookup_complete (F := toy_facade) (busy_env 0) 0 "/f" (busy_file 0 0) MetadataCache_new 0).
  - apply busy_env_honest.
  - apply (trusted_new (B3 := toy_blake3)).
  - intros i _. destruct i; split; reflexivity.
Defined.

(** A hash that was never stable can become trusted.  On an honest
    filesystem, a lookup of a file that is being written gives up and stores
    the hash of its first, outdated snapshot at [Low] under the stamp of the
    final content; the re-scan after a watcher overflow promotes that entry to
    [High] because the stamp matches, without re-hashing; the next lookup then
    returns the outdated hash although the file has long been stable with other
    content. *)
Theorem rescan_trusts_torn_hash {B3 : Blake3} {F : Facade B3} :
  let env := busy_env 12 in
  HonestFs env 0 /\
  (forall i, (12 <= i)%nat -> exists f, disk env i "/f" = inr f /\ f_content f = "b") /\
  exists s1 c2 t2,
    lookup env "/f" (mkFs MetadataCache_new 0) = (inr (hash_bytes "a"), s1) /\
    rescan_all env (fs_cache s1) (fs_tick s1) = (c2, 1%nat, t2) /\ (12 <= t2)%nat /\
    (lookup env "/f" (mkFs c2 t2)).1 = inr (hash_bytes "a").
Proof.
  intros env. split_and!; [apply _| |].
  - intros i Hi. eexists. split; [reflexivity|]. by apply busy_file_late.
  - eexists _, _, _. split_and!; [reflexivity..| |reflexivity]. simpl. lia.
Qed.
