(* ===== verification/CacheSystem.v ===== *)
(** * The cache system ([zccache-fscache/src/cache_system.rs])

    The metadata cache and the change journal composed into the daemon's
    clock-aware file lookup.  The asynchronous bridges run the same operations
    on a worker thread. *)

From S2P Require Import Prelude Path Clock Hash Metadata Verify.
From Stdlib Require Import Lia.

Record ClockLookup := mkClockLookup { cl_hash : ContentHash; cl_clock : Clock }.

Record CacheSystem := mkSystem {
  sys_metadata : MetadataCache;
  sys_journal : ChangeJournal;
}.

Definition CacheSystem_new : CacheSystem := mkSystem MetadataCache_new ChangeJournal_new.
Definition with_metadata (m : MetadataCache) : CacheSystem := mkSystem m ChangeJournal_new.
Definition sys_current_clock (s : CacheSystem) : Clock := current_clock (sys_journal s).

(** ** Lookup *)

Section lookup.
Context {B3 : Blake3} {F : Facade B3} (env : Env) (tolerance_ns : Z).

(** A computation over the system and the instant of the environment. *)
Abbreviation SysM := (SE (CacheSystem * nat) Error).

(** Run a metadata operation in the system. *)
Definition lift_fs {A} (m : FsM A) : SysM A := fun '(s, t) =>
  let '(r, fs) := m (mkFs (sys_metadata s) t) in
  (r, (mkSystem (fs_cache fs) (sys_journal s), fs_tick fs)).

(** [get_cached_hash_if_stat_valid] stats only when a trusted hash is cached. *)
Definition fast_path (p : NormalizedPath) : SysM (option ContentHash) := fun '(s, t) =>
  match get_cached_hash (sys_metadata s) p with
  | None => (inr None, (s, t))
  | Some _ =>
      (inr (get_cached_hash_if_stat_valid env tolerance_ns (sys_metadata s) t p), (s, S t))
  end.

Definition lookup_since (p : NormalizedPath) (since_clock : Clock) : SysM ClockLookup :=
  st ← se_get;
  let clock := sys_current_clock st.1 in
  fast ← (if negb (changed_since (sys_journal st.1) p since_clock)
          then fast_path p else mret None);
  match fast with
  | Some hash => mret (mkClockLookup hash clock)
  | None =>
      hash ← lift_fs (lookup env p);
      st' ← se_get;
      mret (mkClockLookup hash (sys_current_clock st'.1))
  end.
End lookup.

(** ** Changes reported by the watcher *)

Definition apply_changes (changed : list NormalizedPath) (s : CacheSystem) : CacheSystem * Clock :=
  let m := fold_left (fun m p => downgrade p m) changed (sys_metadata s) in
  let '(j, clock) := advance (sys_journal s) changed in
  (mkSystem m j, clock).

Definition apply_changes_with_removals (changed removed : list NormalizedPath) (s : CacheSystem) :
    CacheSystem * Clock :=
  let m := fold_left (fun m p => downgrade p m) changed (sys_metadata s) in
  let m := fold_left (fun m p => remove p m) removed m in
  let '(j, clock) := advance (sys_journal s) (changed ++ removed) in
  (mkSystem m j, clock).

Definition apply_overflow (s : CacheSystem) : CacheSystem * Clock :=
  let '(j, clock) := mark_overflow (sys_journal s) in
  (mkSystem (downgrade_all (sys_metadata s)) j, clock).

Definition rescan_entries (env : Env) (s : CacheSystem) (t : nat) : CacheSystem * nat * nat :=
  let '(m, n, t') := rescan_all env (sys_metadata s) t in
  (mkSystem m (sys_journal s), n, t').

Definition sys_clear (s : CacheSystem) : CacheSystem * Clock :=
  let '(j, clock) := journal_clear (sys_journal s) in
  (mkSystem (clear (sys_metadata s)) j, clock).

(** ** Trimming and eviction *)

Definition cleanup_journal (s : CacheSystem) : CacheSystem * nat :=
  let live := list_to_set (paths (sys_metadata s)) in
  let '(j, n) := retain_paths (sys_journal s) live in
  (mkSystem (sys_metadata s) j, n).

Definition sys_trim (now max_age : Z) (s : CacheSystem) : CacheSystem * (nat * nat) :=
  let '(m, meta_removed) := trim now max_age (sys_metadata s) in
  let '(s', journal_removed) := cleanup_journal (mkSystem m (sys_journal s)) in
  (s', (meta_removed, journal_removed)).

Definition sys_evict_oldest (count : nat) (s : CacheSystem) : CacheSystem * (nat * nat) :=
  let '(m, meta_removed) := evict_oldest count (sys_metadata s) in
  let '(s', journal_removed) := cleanup_journal (mkSystem m (sys_journal s)) in
  (s', (meta_removed, journal_removed)).

Definition sys_evict_candidates_detailed (cands : list EvictionCandidate) (s : CacheSystem) :
    CacheSystem * (CandidateEvictionResult * nat) :=
  let '(m, result) := evict_candidates_detailed cands (sys_metadata s) in
  let '(s', journal_removed) := cleanup_journal (mkSystem m (sys_journal s)) in
  (s', (result, journal_removed)).

Definition sys_evict_candidates (cands : list EvictionCandidate) (s : CacheSystem) :
    CacheSystem * (nat * nat) :=
  let '(s', (result, journal_removed)) := sys_evict_candidates_detailed cands s in
  (s', (removed result, journal_removed)).

Definition sys_try_evict_candidates_detailed (lock_busy : NormalizedPath -> bool)
    (cands : list EvictionCandidate) (s : CacheSystem) : CacheSystem * CandidateEvictionResult :=
  let '(m, result) := try_evict_candidates_detailed lock_busy cands (sys_metadata s) in
  (mkSystem m (sys_journal s), result).

Definition sys_try_evict_candidates (lock_busy : NormalizedPath -> bool)
    (cands : list EvictionCandidate) (s : CacheSystem) : CacheSystem * (nat * nat) :=
  let '(s', result) := sys_try_evict_candidates_detailed lock_busy cands s in
  (s', (removed result, 0%nat)).

Definition register_tracked (ps : list NormalizedPath) (s : CacheSystem) : CacheSystem :=
  mkSystem (sys_metadata s) (fold_left register ps (sys_journal s)).

(** ** Sequences of operations *)

Inductive SysOp :=
  | LookupSince (p : NormalizedPath) (since : Clock)
  | ApplyChanges (changed : list NormalizedPath)
  | ApplyRemovals (changed removed : list NormalizedPath)
  | ApplyOverflow
  | SysRescan
  | SysClear
  | SysTrim (max_age : Z)
  | SysEvictOldest (count : nat)
  | SysEvict (cands : list EvictionCandidate)
  | SysTryEvict (lock_busy : NormalizedPath -> bool) (cands : list EvictionCandidate)
  | SysCleanup
  | RegisterTracked (ps : list NormalizedPath).

Definition sys_step {B3 : Blake3} {F : Facade B3} (env : Env) (tol : Z) (st : CacheSystem * nat)
    (op : SysOp) : CacheSystem * nat :=
  let '(s, t) := st in
  match op with
  | LookupSince p since => (lookup_since env tol (normalize p) since st).2
  | ApplyChanges ps => ((apply_changes ps s).1, t)
  | ApplyRemovals ps rs => ((apply_changes_with_removals ps rs s).1, t)
  | ApplyOverflow => ((apply_overflow s).1, t)
  | SysRescan => let '(s', _, t') := rescan_entries env s t in (s', t')
  | SysClear => ((sys_clear s).1, t)
  | SysTrim age => ((sys_trim (now_at env t) age s).1, S t)
  | SysEvictOldest n => ((sys_evict_oldest n s).1, t)
  | SysEvict cands => ((sys_evict_candidates cands s).1, t)
  | SysTryEvict lock cands => ((sys_try_evict_candidates lock cands s).1, t)
  | SysCleanup => ((cleanup_journal s).1, t)
  | RegisterTracked ps => (register_tracked ps s, t)
  end.

Definition sys_trusted {B3 : Blake3} (env : Env) (st : CacheSystem * nat) : Prop :=
  trusted env (mkFs (sys_metadata st.1) st.2).

(** ** Operations that only take trust away

    [weakens c c']: each entry of [c'] is an entry of [c], as it was or at
    [Low].  Every operation of the cache but lookups and re-scans weakens it. *)

Definition weakens (c c' : MetadataCache) : Prop :=
  forall p m', entries c' !! p = Some m' ->
    exists m, entries c !! p = Some m /\ (m' = m \/ m' = set_confidence Low m).

#[export] Instance weakens_preorder : PreOrder weakens.
Proof.
  split; [intros c p m Hp; by exists m; eauto|].
  intros a b c Hab Hbc p m (m1 & Hm1 & H1)%Hbc. apply Hab in Hm1 as (m0 & Hm0 & H0).
  exists m0. split; [done|]. destruct H1 as [->| ->], H0 as [->| ->]; eauto.
Qed.

Lemma weakens_fold {A} (f : A -> MetadataCache -> MetadataCache) (l : list A) :
  (forall a c, weakens c (f a c)) -> forall c, weakens c (fold_left (fun c a => f a c) l c).
Proof. intros Hf. induction l as [|a l IH]; intros c; simpl; [done|]. by etrans; [apply Hf|]. Qed.

Lemma downgrade_weakens p c : weakens c (downgrade p c).
Proof.
  unfold downgrade. destruct (entries c !! p) as [m|] eqn:Hm; [|done].
  intros q m'. simpl. intros [[<- <-]|[_ Hq]]%lookup_insert_Some; eauto.
Qed.

Lemma remove_weakens p c : weakens c (remove p c).
Proof.
  unfold remove. destruct (entries c !! p) as [m|] eqn:Hm; [|done].
  intros q m'. simpl. intros [_ Hq]%lookup_delete_Some. eauto.
Qed.

Lemma downgrade_all_weakens c : weakens c (downgrade_all c).
Proof. intros q m'. simpl. rewrite lookup_fmap. intros (m & Hm & ->)%fmap_Some. eauto. Qed.

Lemma clear_weakens c : weakens c (clear c).
Proof. intros q m'. simpl. intros H. by apply lookup_empty_Some in H. Qed.

Lemma trim_weakens now age c : weakens c (trim now age c).1.
Proof. intros q m'. simpl. intros [Hq _]%map_lookup_filter_Some. eauto. Qed.

Lemma try_evict_weakens lock cands c :
  weakens c (try_evict_candidates_detailed lock cands c).1.
Proof.
  unfold try_evict_candidates_detailed. destruct (fold_left _ _ _) as [m r] eqn:Hf.
  intros q m' Hq. simpl in Hq. destruct (evict_fold_lookup _ _ _ _ _ _ Hf q) as [He|[He _]].
  - rewrite He in Hq. eauto.
  - congruence.
Qed.

Lemma evict_oldest_weakens n c : weakens c (evict_oldest n c).1.
Proof.
  unfold evict_oldest, evict_candidates, evict_candidates_detailed.
  pose proof (try_evict_weakens (fun _ => false) (oldest_eviction_candidates c n) c) as H.
  by destruct (try_evict_candidates_detailed _ _ _).
Qed.

#[export] Hint Resolve downgrade_weakens remove_weakens downgrade_all_weakens clear_weakens
  trim_weakens try_evict_weakens evict_oldest_weakens weakens_fold : zccache.

Lemma trusted_weakens {B3 : Blake3} env c c' t t' :
  (t <= t')%nat -> weakens c c' -> trusted env (mkFs c t) -> trusted env (mkFs c' t').
Proof.
  intros Ht Hw Htr p m' Hp Hl. simpl in *. apply Hw in Hp as (m & Hm & [->| ->]); [|done].
  eapply entry_honest_mono; [done|]. by apply Htr.
Qed.

(** ** The lookup *)

(** A hash served by the fast path is the hash of the file at this instant. *)
Lemma fast_path_sound {B3 : Blake3} env tol c t p h :
  HonestFs env tol -> (forall m, entries c !! p = Some m -> confidence m <> Low -> entry_honest env t p m) ->
  get_cached_hash_if_stat_valid env tol c t p = Some h ->
  exists st, hash_at env t (S t) p st h.
Proof.
  intros Hh Htr. unfold get_cached_hash_if_stat_valid.
  destruct (entries c !! p) as [m|] eqn:Hm; [|done]. simpl.
  destruct (match confidence m with Low => None | _ => content_hash m end) as [h'|] eqn:Hc;
    [|done].
  assert (confidence m <> Low /\ content_hash m = Some h') as [Hl Hh']
    by by destruct (confidence m).
  simpl. destruct (disk env t p) as [|f] eqn:Hf; [done|]. destruct (mtimes_match _ _ _ && _) eqn:Hst; [|done].
  intros [= <-]. apply andb_prop in Hst as [Hmt Hsz%Z.eqb_eq].
  destruct (Htr m eq_refl Hl h' Hh') as (i & g & _ & Hg & [= Hgm Hgs] & ->).
  exists (stamp_of f), t, f. split_and!; [lia..|done|done|]. f_equal.
  apply (honest_stamp i t p); [done..| |congruence]. by rewrite Hgm.
Qed.

Lemma get_cached_hash_stat_valid env tol c t p h :
  get_cached_hash_if_stat_valid env tol c t p = Some h -> get_cached_hash c p = Some h.
Proof.
  unfold get_cached_hash_if_stat_valid, get_cached_hash.
  destruct (entries c !! p) as [m|]; [|done]. simpl.
  destruct (match confidence m with Low => None | _ => content_hash m end) as [h'|]; [|done].
  simpl. destruct (disk env t p); [done|]. case_match; congruence.
Qed.

(** What a clock-aware lookup may return. *)
Definition served {B3 : Blake3} (env : Env) (p : NormalizedPath) (st st' : CacheSystem * nat)
    (r : ClockLookup) : Prop :=
  cl_clock r = sys_current_clock st.1 /\
  ((exists stamp, hash_at env st.2 st'.2 p stamp (cl_hash r)) \/
   (exists m t1, entries (sys_metadata st'.1) !! p = Some m /\ confidence m = Low /\
      content_hash m = Some (cl_hash r) /\ (st.2 <= t1)%nat /\ unstable env p t1)).

(** The lookup by its two paths. *)
Lemma lookup_since_run {B3 : Blake3} {F : Facade B3} env tol p since s t :
  lookup_since env tol p since (s, t) =
    let slow t0 :=
      let '(r, fs) := lookup env p (mkFs (sys_metadata s) t0) in
      (match r with inl e => inl e
                  | inr h => inr (mkClockLookup h (sys_current_clock s)) end,
       (mkSystem (fs_cache fs) (sys_journal s), fs_tick fs)) in
    if changed_since (sys_journal s) p since then slow t
    else match get_cached_hash (sys_metadata s) p with
         | None => slow t
         | Some _ =>
             match get_cached_hash_if_stat_valid env tol (sys_metadata s) t p with
             | Some h => (inr (mkClockLookup h (sys_current_clock s)), (s, S t))
             | None => slow (S t)
             end
         end.
Proof.
  unfold lookup_since. unfold mbind at 1, SE_bind at 1. simpl.
  destruct (changed_since _ _ _); simpl.
  { unfold mbind, SE_bind, lift_fs. simpl. by destruct (lookup env p _) as [[]]. }
  unfold mbind at 1, SE_bind at 1, fast_path.
  destruct (get_cached_hash (sys_metadata s) p).
  - destruct (get_cached_hash_if_stat_valid _ _ _ _ _); [done|].
    unfold mbind, SE_bind, lift_fs. simpl. by destruct (lookup env p _) as [[]].
  - unfold mbind, SE_bind, lift_fs. simpl. by destruct (lookup env p _) as [[]].
Qed.

(** A lookup touches its own entry only. *)
Lemma lookup_frame {B3 : Blake3} {F : Facade B3} env tol p c t r s' :
  HonestFs env tol -> normalize p = p -> lookup env p (mkFs c t) = (r, s') ->
  (t <= fs_tick s')%nat /\ forall q, q <> p -> entries (fs_cache s') !! q = entries c !! q.
Proof.
  intros Hh Hn. unfold lookup. rewrite Hn, lookup_normalized_run by done.
  assert (forall t0 r s', (t <= t0)%nat -> hash_and_insert env p p (mkFs c t0) = (r, s') ->
    (t <= fs_tick s')%nat /\ forall q, q <> p -> entries (fs_cache s') !! q = entries c !! q) as Hrehash.
  { intros t0 r1 s1 Ht H. destruct (hash_and_insert_spec env tol _ _ _ _ _ _ Hh H) as [Ht1 Hc]. split; [lia|]. intros q Hq.
    destruct r1; [by destruct Hc as [-> _]|]. destruct Hc as (m & -> & _). simpl. by rewrite lookup_insert_ne. }
  destruct (entries c !! p) as [e|] eqn:He; [|by apply Hrehash]. destruct (disk env t p) as [[]|f].
  - intros [= <- <-]. split; [simpl; lia|]. intros q Hq. simpl. unfold remove. rewrite He. simpl. by rewrite lookup_delete_ne.
  - intros [= <- <-]. split; [simpl; lia|done].
  - destruct (reusable _ _ _ _); [|apply Hrehash; lia]. intros [= <- <-]. split; [simpl; lia|].
    intros q Hq. simpl. by rewrite lookup_insert_ne.
Qed.

Lemma lookup_since_frame {B3 : Blake3} {F : Facade B3} env tol p since s t r st' :
  HonestFs env tol -> normalize p = p -> lookup_since env tol p since (s, t) = (r, st') ->
  (t <= st'.2)%nat /\ sys_journal st'.1 = sys_journal s /\
  forall q, q <> p -> entries (sys_metadata st'.1) !! q = entries (sys_metadata s) !! q.
Proof.
  intros Hh Hn. rewrite lookup_since_run. cbn beta zeta.
  destruct (lookup env p (mkFs (sys_metadata s) t)) as [r1 fs1] eqn:H1, (lookup env p (mkFs (sys_metadata s) (S t))) as [r2 fs2] eqn:H2.
  apply (lookup_frame env tol) in H1 as [H1 E1], H2 as [H2 E2]; [|done..].
  repeat case_match; intros [= <- <-]; simpl; (split; [lia|done]).
Qed.

(** What a lookup of [p] leaves of the cache: other entries as they were; and for
    [p] nothing, what was there, the hash of a stable file, or a hash of a file that
    was unstable through four snapshots, at [Low]. *)
Definition settles {B3 : Blake3} (env : Env) (p : NormalizedPath) (st st' : CacheSystem * nat) : Prop :=
  (st.2 <= st'.2)%nat /\
  (forall q, q <> p -> entries (sys_metadata st'.1) !! q = entries (sys_metadata st.1) !! q) /\
  (forall m, entries (sys_metadata st'.1) !! p = Some m ->
     entries (sys_metadata st.1) !! p = Some m \/ entry_honest env st'.2 p m \/
     (confidence m = Low /\ exists u, (u <= st'.2)%nat /\ unstable env p u)).

(** The slow path, started at or after the call. *)
Lemma slow_path_at {B3 : Blake3} {F : Facade B3} env tol p s t t0 r st' :
  HonestFs env tol -> normalize p = p -> (t <= t0)%nat ->
  (forall m, entries (sys_metadata s) !! p = Some m -> confidence m <> Low -> entry_honest env t0 p m) ->
  (let '(r0, fs) := lookup env p (mkFs (sys_metadata s) t0) in
   (match r0 with inl e => inl e
                | inr h => inr (mkClockLookup h (sys_current_clock s)) end,
    (mkSystem (fs_cache fs) (sys_journal s), fs_tick fs))) = (r, st') ->
  settles env p (s, t) st' /\ forall v, r = inr v -> served env p (s, t) st' v.
Proof.
  intros Hh Hn Ht Htr. destruct (lookup env p _) as [r0 fs] eqn:Hl. unfold lookup in Hl.
  rewrite Hn in Hl. apply (lookup_normalized_at env tol) in Hl as [Hle Ho]; [|done..].
  intros [= <- <-]. destruct fs as [c' t']. unfold settles. cbn [fst snd sys_metadata fs_cache fs_tick] in *.
  unfold lookup_outcome in Ho. cbn [fs_cache fs_tick] in Ho. destruct r0 as [e|h].
  - split; [|done]. assert (entries c' = delete p (entries (sys_metadata s)) \/ c' = sys_metadata s) as [Hc|Hc]
      by (destruct e; tauto).
    + rewrite Hc. split_and!; [lia|intros q Hq; by rewrite lookup_delete_ne|]. intros m Hm. by rewrite lookup_delete_eq in Hm.
    + rewrite Hc. split_and!; [lia|done|]. intros m Hm. by left.
  - destruct Ho as (m & He & Hm & Hcase). rewrite He. split.
    + split_and!; [lia|intros q Hq; by rewrite lookup_insert_ne|]. intros m'. rewrite lookup_insert_eq. intros [= <-]. right.
      destruct Hcase as [Hst|(Hc & t1 & Ht1 & Hu)]; [left; by eapply stable_entry_honest|right]. split; [done|]. exists t1. split; [lia|done].
    + intros v [= <-]. split; [done|]. cbn [fst snd sys_metadata cl_hash]. destruct Hcase as [(Hc & _ & Ha)|(Hc & t1 & Ht1 & Hu)]; [left|right].
      * eexists. eapply hash_at_weaken; [| |done]; lia.
      * exists m, t1. rewrite He, lookup_insert_eq. split_and!; [done..|lia|done].
Qed.

Lemma lookup_since_at {B3 : Blake3} {F : Facade B3} env tol p since s t r st' :
  HonestFs env tol -> normalize p = p ->
  (forall m, entries (sys_metadata s) !! p = Some m -> confidence m <> Low -> entry_honest env t p m) ->
  lookup_since env tol p since (s, t) = (r, st') ->
  settles env p (s, t) st' /\ forall v, r = inr v -> served env p (s, t) st' v.
Proof.
  intros Hh Hn Htr. rewrite lookup_since_run. cbn zeta.
  assert (forall m, entries (sys_metadata s) !! p = Some m -> confidence m <> Low -> entry_honest env (S t) p m) as Htr'.
  { intros m Hm Hl. eapply entry_honest_mono; [|by apply Htr]. lia. }
  destruct (changed_since _ _ _); [by eapply slow_path_at|].
  destruct (get_cached_hash _ _); [|by eapply slow_path_at].
  destruct (get_cached_hash_if_stat_valid _ _ _ _ _) as [h|] eqn:Hf;
    [|by apply (slow_path_at env tol); [..|lia|]].
  intros [= <- <-]. split.
  - split_and!; [simpl; lia|done|]. intros m Hm. by left.
  - intros v [= <-]. split; [done|]. left. by eapply fast_path_sound.
Qed.

Lemma lookup_since_spec {B3 : Blake3} {F : Facade B3} env tol p since st r st' :
  HonestFs env tol -> normalize p = p -> sys_trusted env st ->
  lookup_since env tol p since st = (r, st') ->
  sys_trusted env st' /\ forall v, r = inr v -> served env p st st' v.
Proof.
  destruct st as [s t]. intros Hh Hn Htr Hl. apply lookup_since_at in Hl as [(Hle & Hother & Hown) Hs]; [|done..|by apply Htr].
  split; [|done]. intros q m Hq Hl. cbn [fs_cache fs_tick] in *. simpl in Hle. destruct (decide (q = p)) as [->|Hne].
  - destruct (Hown m Hq) as [Hold|[?|[? _]]]; [|done|done]. eapply entry_honest_mono; [exact Hle|]. by apply Htr.
  - rewrite Hother in Hq by done. eapply entry_honest_mono; [exact Hle|]. by apply Htr.
Qed.

Lemma sys_step_trusted {B3 : Blake3} {F : Facade B3} env tol st op :
  HonestFs env tol -> op <> SysRescan -> sys_trusted env st -> sys_trusted env (sys_step env tol st op).
Proof.
  intros Hh Hop. destruct st as [s t]. intros Htr.
  assert (forall c j t', weakens (sys_metadata s) c -> (t <= t')%nat ->
            sys_trusted env (mkSystem c j, t')) as Hw.
  { intros c j t' ? ?. unfold sys_trusted. by eapply trusted_weakens. }
  destruct op as [p since|ps|ps rs| | | |age|n|cands|lock cands| |ps]; cbn [sys_step]; [..|done| | | | | | |].
  - destruct (lookup_since env tol (normalize p) since (s, t)) as [r st'] eqn:Hl.
    apply lookup_since_spec in Hl as [? _]; [done..|apply normalize_idem|done].
  - apply Hw; [|done]. apply (weakens_fold downgrade ps downgrade_weakens).
  - apply Hw; [|done]. etrans; [apply (weakens_fold downgrade ps downgrade_weakens)|].
    apply (weakens_fold remove rs remove_weakens).
  - apply Hw; [|done]. auto with zccache.
  - apply Hw; [|done]. auto with zccache.
  - apply Hw; [|lia]. apply (trim_weakens (now_at env t) age).
  - unfold sys_evict_oldest. pose proof (evict_oldest_weakens n (sys_metadata s)) as H.
    destruct (evict_oldest n (sys_metadata s)). by apply Hw.
  - unfold sys_evict_candidates, sys_evict_candidates_detailed, evict_candidates_detailed.
    pose proof (try_evict_weakens (fun _ => false) cands (sys_metadata s)) as H.
    destruct (try_evict_candidates_detailed _ _ _). by apply Hw.
  - unfold sys_try_evict_candidates, sys_try_evict_candidates_detailed.
    pose proof (try_evict_weakens lock cands (sys_metadata s)) as H.
    destruct (try_evict_candidates_detailed _ _ _). by apply Hw.
  - by apply Hw.
  - by apply Hw.
Qed.

(** ** Re-scans

    A re-scan promotes a [Low] entry whose stamp still matches without hashing the
    file again, also one whose hash is of a file that was being written.  What is
    known of the entry of a path after operations [done]: its hash is honest, or the
    path was unstable through four snapshots and is at [Low] or a re-scan has run. *)

Definition accounted {B3 : Blake3} (env : Env) (p : NormalizedPath) (done : list SysOp) (st : CacheSystem * nat) : Prop :=
  forall m, entries (sys_metadata st.1) !! p = Some m ->
    entry_honest env st.2 p m \/
    ((exists u, (u <= st.2)%nat /\ unstable env p u) /\ (confidence m = Low \/ SysRescan ∈ done)).

Lemma accounted_from {B3 : Blake3} env p done done' s t c t' :
  (t <= t')%nat -> (SysRescan ∈ done -> SysRescan ∈ done') -> accounted env p done (s, t) ->
  (forall m', entries (sys_metadata c) !! p = Some m' -> exists m, entries (sys_metadata s) !! p = Some m /\
     meta_stamp m' = meta_stamp m /\ content_hash m' = content_hash m /\
     (confidence m' = confidence m \/ confidence m' = Low \/ SysRescan ∈ done')) ->
  accounted env p done' (c, t').
Proof.
  intros Ht Hd Hacc Hc m' Hm'. destruct (Hc m' Hm') as (m & Hm & Hst & Hch & Hconf). simpl in *.
  destruct (Hacc m Hm) as [Hh|[(u & Hu & Hun) Hl]].
  - left. intros h. rewrite Hch, Hst. intros Hhash. eapply hash_at_weaken; [..|by apply Hh]; simpl; lia.
  - right. split; [exists u; split; [simpl in *; lia|done]|]. destruct Hconf as [->|[->|?]]; [|by left|by right]. destruct Hl; auto.
Qed.

Lemma accounted_weakens {B3 : Blake3} env p done done' s t c j t' :
  (t <= t')%nat -> (SysRescan ∈ done -> SysRescan ∈ done') -> weakens (sys_metadata s) c -> accounted env p done (s, t) ->
  accounted env p done' (mkSystem c j, t').
Proof.
  intros Ht Hd Hw Hacc. eapply accounted_from; [done..|]. intros m' (m & Hm & Hcase)%Hw. exists m. split; [done|].
  destruct Hcase as [->| ->]; simpl; auto.
Qed.

Lemma sys_step_accounted {B3 : Blake3} {F : Facade B3} env tol p done st op :
  HonestFs env tol -> accounted env p done st -> accounted env p (done ++ [op]) (sys_step env tol st op).
Proof.
  intros Hh. destruct st as [s t]. intros Hacc.
  assert (SysRescan ∈ done -> SysRescan ∈ done ++ [op]) as Hd by (rewrite elem_of_app; auto).
  assert (forall c j t', weakens (sys_metadata s) c -> (t <= t')%nat -> accounted env p (done ++ [op]) (mkSystem c j, t')) as Hw
    by (intros; by eapply accounted_weakens).
  destruct op as [q since|ps|ps rs| | | |age|n|cands|lock cands| |ps]; cbn [sys_step].
  - destruct (lookup_since env tol (normalize q) since (s, t)) as [r st'] eqn:Hl.
    destruct (decide (normalize q = p)) as [<-|Hne].
    + destruct (entries (sys_metadata s) !! normalize q) as [m0|] eqn:Hm0.
      * destruct (Hacc m0 Hm0) as [Hhon|[Hu [Hlow|Hr]]].
        -- apply lookup_since_at in Hl as [(Ht & _ & Hown) _]; [|done|apply normalize_idem|by intros m [= <-]%(eq_trans (eq_sym Hm0)) _].
           intros m Hm. destruct (Hown m Hm) as [Hold|[?|[??]]]; [left| by left|right; auto].
           assert (m = m0) as -> by (simpl in Hold; congruence). by eapply entry_honest_mono.
        -- apply lookup_since_at in Hl as [(Ht & _ & Hown) _]; [|done|apply normalize_idem|intros m Hm; assert (m = m0) as -> by congruence; done].
           intros m Hm. destruct (Hown m Hm) as [Hold|[?|[??]]]; [right|by left|right; auto].
           assert (m = m0) as -> by (simpl in Hold; congruence). split; [|by left]. destruct Hu as (u & Hu & ?). exists u.
           simpl in *. split; [lia|done].
        -- intros m _. right. split; [|right; by apply Hd]. destruct Hu as (u & Hu & ?). exists u. split; [|done].
           destruct (lookup_since_frame env tol (normalize q) since s t r st' Hh (normalize_idem q) Hl) as [Ht _]. simpl in *. lia.
      * apply lookup_since_at in Hl as [(Ht & _ & Hown) _]; [|done|apply normalize_idem|intros m Hm; congruence].
        intros m Hm. destruct (Hown m Hm) as [Hold|[?|[??]]]; [simpl in Hold; congruence|by left|right; auto].
    + destruct st' as [s' t']. destruct (lookup_since_frame env tol (normalize q) since s t r _ Hh (normalize_idem q) Hl) as (Ht & _ & He).
      eapply accounted_from; [exact Ht|exact Hd|exact Hacc|]. intros m Hm. exists m. rewrite <- (He p) by done. auto.
  - apply Hw; [|done]. apply (weakens_fold downgrade ps downgrade_weakens).
  - apply Hw; [|done]. etrans; [apply (weakens_fold downgrade ps downgrade_weakens)|].
    apply (weakens_fold remove rs remove_weakens).
  - apply Hw; [|done]. auto with zccache.
  - unfold rescan_entries. destruct (rescan_all env (sys_metadata s) t) as [[c n] t'] eqn:Hr.
    apply rescan_all_spec in Hr as (Ht & Hlook & _). eapply accounted_from; [exact Ht|exact Hd|exact Hacc|].
    intros m' Hm'. cbn [sys_metadata] in Hm'. destruct (Hlook p) as [He|(e & now & t0 & _ & He & _ & _ & He')].
    + exists m'. rewrite <- He. auto.
    + exists e. rewrite He' in Hm'. injection Hm' as <-. split_and!; [done..|]. right; right. apply elem_of_app. right. by left.
  - apply Hw; [|done]. auto with zccache.
  - apply Hw; [|lia]. apply (trim_weakens (now_at env t) age).
  - unfold sys_evict_oldest. pose proof (evict_oldest_weakens n (sys_metadata s)) as H.
    destruct (evict_oldest n (sys_metadata s)). by apply Hw.
  - unfold sys_evict_candidates, sys_evict_candidates_detailed, evict_candidates_detailed.
    pose proof (try_evict_weakens (fun _ => false) cands (sys_metadata s)) as H.
    destruct (try_evict_candidates_detailed _ _ _). by apply Hw.
  - unfold sys_try_evict_candidates, sys_try_evict_candidates_detailed.
    pose proof (try_evict_weakens lock cands (sys_metadata s)) as H.
    destruct (try_evict_candidates_detailed _ _ _). by apply Hw.
  - by apply Hw.
  - by apply Hw.
Qed.

Lemma sys_run_accounted {B3 : Blake3} {F : Facade B3} env tol p ops done st :
  HonestFs env tol -> accounted env p done st -> accounted env p (done ++ ops) (fold_left (sys_step env tol) ops st).
Proof.
  intros Hh. revert done st. induction ops as [|op ops IH]; intros done st Hst; cbn [fold_left]; [by rewrite app_nil_r|].
  replace (done ++ op :: ops) with ((done ++ [op]) ++ ops) by by rewrite <- app_assoc. apply IH. by apply sys_step_accounted.
Qed.

(** ** Effect of a reported batch *)

Lemma downgrade_fold_lookup ps c p :
  p ∈ ps -> entries (fold_left (fun m p => downgrade p m) ps c) !! p =
            set_confidence Low <$> (entries c !! p).
Proof.
  assert (forall q c, entries (downgrade q c) !! p =
            if decide (p = q) then set_confidence Low <$> (entries c !! p)
            else entries c !! p) as Hd.
  { intros q c0. unfold downgrade. destruct (decide (p = q)) as [->|Hne].
    - destruct (entries c0 !! q) eqn:Hq; simpl; [by rewrite lookup_insert_eq|by rewrite Hq].
    - destruct (entries c0 !! q); simpl; [by rewrite lookup_insert_ne|done]. }
  assert (forall ps c m, entries c !! p = set_confidence Low <$> m ->
            entries (fold_left (fun m p => downgrade p m) ps c) !! p =
              set_confidence Low <$> m) as Hstay.
  { clear ps c. induction ps as [|q ps IH]; intros c m Hm; simpl; [done|]. apply IH.
    rewrite Hd, Hm. case_decide; [|done]. by destruct m. }
  revert c. induction ps as [|q ps IH]; intros c; simpl; [by intros ?%not_elem_of_nil|].
  intros [->|Hin]%elem_of_cons.
  - apply Hstay. by rewrite Hd, decide_True.
  - rewrite IH, Hd by done. case_decide; [|done]. by destruct (entries c !! p).
Qed.

Lemma downgrade_fold_other ps c p :
  p ∉ ps -> entries (fold_left (fun m p => downgrade p m) ps c) !! p = entries c !! p.
Proof.
  revert c. induction ps as [|q ps IH]; intros c; simpl; [done|].
  intros [Hne Hp]%not_elem_of_cons. rewrite IH by done. unfold downgrade.
  destruct (entries c !! q); simpl; [|done]. by rewrite lookup_insert_ne.
Qed.

(** Batches that do not name a path leave its entry and its row alone. *)
Lemma unrelated_batches p batches s :
  Forall (fun b => p ∉ b) batches ->
  let s' := fold_left (fun s b => (apply_changes b s).1) batches s in
  entries (sys_metadata s') !! p = entries (sys_metadata s) !! p /\
  last_change (sys_journal s') !! p = last_change (sys_journal s) !! p /\
  last_overflow (sys_journal s') = last_overflow (sys_journal s).
Proof.
  intros Hb. revert s. induction Hb as [|b batches Hp _ IH]; intros s; cbn [fold_left]; [done|].
  destruct (IH (apply_changes b s).1) as (-> & -> & ->). simpl.
  by rewrite downgrade_fold_other, record_last_change_lookup, decide_False by done.
Qed.

Lemma remove_fold_lookup ps c p :
  entries (fold_left (fun m p => remove p m) ps c) !! p =
    if decide (p ∈ ps) then None else entries c !! p.
Proof.
  revert c. induction ps as [|q ps IH]; intros c; simpl.
  { by destruct (decide (p ∈ [])) as [?%not_elem_of_nil|]. }
  rewrite IH. unfold remove.
  destruct (decide (p ∈ ps)) as [Hin|Hout], (decide (p ∈ q :: ps)) as [Hin'|Hout']; try done.
  - by destruct Hout'; right.
  - apply elem_of_cons in Hin' as [->|?]; [|done].
    destruct (entries c !! q) eqn:Hq; simpl; [apply lookup_delete_eq|done].
  - apply not_elem_of_cons in Hout' as [Hne _].
    destruct (entries c !! q); simpl; [by rewrite lookup_delete_ne|done].
Qed.

(** An untrusted path: absent, or present at [Low]. *)
Definition untrusted (c : MetadataCache) (p : NormalizedPath) : Prop :=
  forall m, entries c !! p = Some m -> confidence m = Low.

(** A lookup that owes nothing to the cached hash: stat if an entry exists,
    then hash the file. *)
Definition forced_rehash {B3 : Blake3} {F : Facade B3} (env : Env) (p : NormalizedPath)
    (c : MetadataCache) (t : nat) : (Error + ContentHash) * FsState :=
  if entries c !! p is Some _ then
    match disk env t p with
    | inl NotFound => (inl (FileNotFound p), mkFs (remove p c) (S t))
    | inl io => (inl (Io io), mkFs c (S t))
    | inr _ => hash_and_insert env p p (mkFs c (S t))
    end
  else hash_and_insert env p p (mkFs c t).

Lemma untrusted_lookup_since {B3 : Blake3} {F : Facade B3} env tol p since s t :
  normalize p = p -> untrusted (sys_metadata s) p ->
  lookup_since env tol p since (s, t) =
    let '(r, fs) := forced_rehash env p (sys_metadata s) t in
    (match r with inl e => inl e | inr h => inr (mkClockLookup h (sys_current_clock s)) end,
     (mkSystem (fs_cache fs) (sys_journal s), fs_tick fs)).
Proof.
  intros Hn Hu. rewrite lookup_since_run. cbn beta zeta.
  assert (lookup env p (mkFs (sys_metadata s) t) = forced_rehash env p (sys_metadata s) t) as ->.
  { unfold lookup. rewrite Hn, lookup_normalized_run by done. unfold forced_rehash.
    destruct (entries _ !! p) as [m|] eqn:Hm; [|done].
    destruct (disk env t p) as [[]|f]; [done..|]. unfold reusable, decayed_confidence.
    rewrite (Hu m Hm). by destruct (bool_decide _). }
  assert (get_cached_hash (sys_metadata s) p = None) as ->.
  { unfold get_cached_hash. destruct (entries _ !! p) as [m|] eqn:Hm; [|done].
    simpl. by rewrite (Hu m Hm). }
  by destruct (changed_since _ _ _).
Qed.

(** ** Properties *)

(** C1: the daemon's clock-aware lookup never serves a wrong hash.  From a new
    system, after any sequence of lookups, reported batches, removals, overflows,
    re-scans, clears, trims, evictions, clean-ups and registrations, on a
    filesystem whose stamps identify contents (up to the configured mtime
    tolerance), a returned hash is the hash of the file at an instant during the
    call, or the file was unstable through four snapshots and its entry is left at
    [Low], and the returned clock is the current one.  The one exception is a file
    that was unstable through four snapshots of an earlier lookup, once a re-scan
    has run. *)
Theorem lookup_since_sound {B3 : Blake3} {F : Facade B3} (env : Env) (tol : Z)
    (ops : list SysOp) (p : bytes) (since : Clock) (r : ClockLookup) (st' : CacheSystem * nat) :
  HonestFs env tol ->
  let st := fold_left (sys_step env tol) ops (CacheSystem_new, 0%nat) in
  lookup_since env tol (normalize p) since st = (inr r, st') ->
  served env (normalize p) st st' r \/
  (SysRescan ∈ ops /\ exists u, (u <= st.2)%nat /\ unstable env (normalize p) u).
Proof.
  intros Hh st Hr.
  assert (accounted env (normalize p) ops st) as Hacc.
  { apply (sys_run_accounted env tol (normalize p) ops []); [done|]. intros m. simpl. intros Hm. by apply lookup_empty_Some in Hm. }
  destruct st as [s t].
  assert ((forall m, entries (sys_metadata s) !! normalize p = Some m -> confidence m <> Low -> entry_honest env t (normalize p) m) \/
    (SysRescan ∈ ops /\ exists u, (u <= t)%nat /\ unstable env (normalize p) u)) as [Hhon|?]; [|left|by right].
  { destruct (entries (sys_metadata s) !! normalize p) as [m|] eqn:Hm; [|by left].
    destruct (Hacc m Hm) as [Hh'|[Hu [Hl|?]]]; [left|left|by right].
    - intros m' [= <-] _. exact Hh'.
    - intros m' [= <-] Hn. by destruct (Hn Hl). }
  apply lookup_since_at in Hr as [_ Hs]; [by apply Hs|done|apply normalize_idem|done].
Qed.

Definition sys_demo_ops : list SysOp :=
  [LookupSince "/f" 0; ApplyOverflow; SysRescan; RegisterTracked ["/f"]; ApplyChanges ["/g"]].

(** The environment leaves the file alone from the start, so that it is never unstable. *)
Lemma busy_env_stable u : ~ unstable (busy_env 0) "/f" u.
Proof.
  intros Hu. destruct (Hu 0%nat) as (f & g & Hf & Hg & Hne); [lia|]. 
  assert (forall i h, disk (busy_env 0) i "/f" = inr h -> stamp_of h = (0, 1)) as Hs.
  { intros i h [= <-]. unfold stamp_of. simpl. f_equal. lia. }
  by rewrite (Hs _ _ Hf), (Hs _ _ Hg) in Hne.
Qed.

Lemma lookup_since_sound_witness :
  let st := fold_left (sys_step (F := toy_facade) (busy_env 0) 0) sys_demo_ops
              (CacheSystem_new, 0%nat) in
  let out := lookup_since (F := toy_facade) (busy_env 0) 0 "/f" 2 st in
  out.1 = inr (mkClockLookup (hash_bytes (B3 := toy_blake3) "b") 2) /\
  served (B3 := toy_blake3) (busy_env 0) "/f" st out.2
    (mkClockLookup (hash_bytes (B3 := toy_blake3) "b") 2).
Proof.
  split; [vm_compute; reflexivity|].
  destruct (lookup_since_sound (F := toy_facade) (busy_env 0) 0 sys_demo_ops "/f" 2
    (mkClockLookup (hash_bytes (B3 := toy_blake3) "b") 2)
    (lookup_since (F := toy_facade) (busy_env 0) 0 "/f" 2 (fold_left (sys_step (F := toy_facade) (busy_env 0) 0) sys_demo_ops (CacheSystem_new, 0%nat))).2)
    as [H|(_ & u & _ & Hu)]; [apply busy_env_honest|vm_compute; reflexivity|exact H|by apply busy_env_stable in Hu].
Defined.

(** C3: a reported change is never served from the cache.  After a batch,
    every path of it (changed or removed), and after an overflow or a clear
    every path, is looked up by hashing the file again whatever clock the client
    brings, and every clock from before the event is answered "changed". *)
Theorem reported_changes_rehashed {B3 : Blake3} {F : Facade B3} (env : Env) (tol : Z)
    (s : CacheSystem) (t : nat) (changed removed : list NormalizedPath) (p : NormalizedPath) :
  normalize p = p -> 0 <= current (sys_journal s) < 2 ^ 64 - 1 ->
  forall s' clock,
  ((p ∈ changed /\ apply_changes changed s = (s', clock)) \/
   (p ∈ changed ++ removed /\ apply_changes_with_removals changed removed s = (s', clock)) \/
   apply_overflow s = (s', clock) \/ sys_clear s = (s', clock)) ->
  clock = current (sys_journal s) + 1 /\
  (forall since, since < clock -> changed_since (sys_journal s') p since = true) /\
  (forall since, lookup_since env tol p since (s', t) =
    let '(r, fs) := forced_rehash env p (sys_metadata s') t in
    (match r with inl e => inl e | inr h => inr (mkClockLookup h (sys_current_clock s')) end,
     (mkSystem (fs_cache fs) (sys_journal s'), fs_tick fs))).
Proof.
  intros Hn Hb s' clock Hop.
  assert (fetch_tick (sys_journal s) = current (sys_journal s) + 1) as Htick
    by (apply wrap64_small; lia).
  set (T := current (sys_journal s) + 1) in *.
  assert (clock = T /\ untrusted (sys_metadata s') p /\
    (last_overflow (sys_journal s') = T \/ last_change (sys_journal s') !! p = Some T))
    as (-> & Hu & Hj).
  { unfold untrusted, apply_changes, apply_changes_with_removals, apply_overflow, sys_clear,
      advance, mark_overflow, journal_clear, mark_overflow in Hop.
    change (fetch_tick (mkJournal _ _ _ _ _)) with (fetch_tick (sys_journal s)) in Hop.
    rewrite Htick in Hop. destruct Hop as [[Hin [= <- <-]]|[[Hin [= <- <-]]|[[= <- <-]|[= <- <-]]]];
      simpl; (split; [done|]); rewrite ?record_last_change_lookup.
    - rewrite decide_True by done. split; [|by right]. intros m.
      rewrite downgrade_fold_lookup by done. by intros (m0 & _ & ->)%fmap_Some.
    - rewrite decide_True by done. split; [|by right]. intros m. rewrite remove_fold_lookup.
      case_decide; [done|]. apply elem_of_app in Hin as [Hin|?]; [|done].
      rewrite downgrade_fold_lookup by done. by intros (m0 & _ & ->)%fmap_Some.
    - split; [|by left]. intros m. simpl. rewrite lookup_fmap. by intros (m0 & _ & ->)%fmap_Some.
    - split; [|by left]. intros m. simpl. intros Hm. by apply lookup_empty_Some in Hm. }
  split_and!; [done| |].
  - intros since Hs. unfold changed_since. destruct Hj as [->| ->].
    + by rewrite (proj2 (Z.ltb_lt 0 T)), (proj2 (Z.ltb_lt since T)) by lia.
    + rewrite (proj2 (Z.ltb_lt since T)) by lia. by case_match.
  - intros since. by apply untrusted_lookup_since.
Qed.

Lemma reported_changes_rehashed_witness :
  let s := (fold_left (sys_step (F := toy_facade) (busy_env 0) 0) sys_demo_ops
              (CacheSystem_new, 0%nat)).1 in
  let s' := (apply_changes ["/f"] s).1 in
  (apply_changes ["/f"] s).2 = current (sys_journal s) + 1 /\
  (forall since, since < (apply_changes ["/f"] s).2 ->
     changed_since (sys_journal s') "/f" since = true) /\
  (forall since, lookup_since (F := toy_facade) (busy_env 0) 0 "/f" since (s', 9%nat) =
    let '(r, fs) := forced_rehash (F := toy_facade) (busy_env 0) "/f" (sys_metadata s') 9 in
    (match r with inl e => inl e | inr h => inr (mkClockLookup h (sys_current_clock s')) end,
     (mkSystem (fs_cache fs) (sys_journal s'), fs_tick fs))).
Proof.
  intros s s'. apply (reported_changes_rehashed (F := toy_facade) (busy_env 0) 0 s 9 ["/f"] []).
  - reflexivity.
  - vm_compute. split; [discriminate|reflexivity].
  - left. split; [left|reflexivity].
Defined.

(** Trimming and evicting never leave journal rows without an entry, and
    never make a changed file look unchanged.  After a trim, an eviction or a
    clean-up every path of the journal's per-file map has a cache entry; the
    counts are the rows and entries that went away; and an answer "not changed"
    is one the journal already gave before. *)
Theorem eviction_settles_journal (s s' : CacheSystem) (meta_removed journal_removed : nat)
    (now age : Z) (n : nat) (cands : list EvictionCandidate) :
  sys_trim now age s = (s', (meta_removed, journal_removed)) \/
  sys_evict_oldest n s = (s', (meta_removed, journal_removed)) \/
  sys_evict_candidates cands s = (s', (meta_removed, journal_removed)) ->
  (forall p, is_Some (last_change (sys_journal s') !! p) ->
     is_Some (entries (sys_metadata s') !! p)) /\
  (meta_removed + size (entries (sys_metadata s')) = size (entries (sys_metadata s)))%nat /\
  (journal_removed + size (last_change (sys_journal s')) = size (last_change (sys_journal s)))%nat /\
  (forall p since, changed_since (sys_journal s') p since = false ->
     changed_since (sys_journal s) p since = false).
Proof.
  intros Hop.
  assert (exists m, (meta_removed + size (entries m) = size (entries (sys_metadata s)))%nat /\
    cleanup_journal (mkSystem m (sys_journal s)) = (s', journal_removed))
    as (m & Hsize & Hclean).
  { unfold sys_trim, trim, sys_evict_oldest, evict_oldest, evict_candidates, sys_evict_candidates,
      sys_evict_candidates_detailed, evict_candidates_detailed, try_evict_candidates_detailed in Hop.
    destruct Hop as [[= <- <- <-]|[Hop|Hop]].
    - eexists. split; [|done]. apply map_size_removed.
    - destruct (fold_left _ _ _) as [m r] eqn:Hf. injection Hop as <- <- <-.
      apply evict_fold_count in Hf as [Hc _]. eexists. split; [|done]. simpl in *. lia.
    - destruct (fold_left _ _ _) as [m r] eqn:Hf. injection Hop as <- <- <-.
      apply evict_fold_count in Hf as [Hc _]. eexists. split; [|done]. simpl in *. lia. }
  injection Hclean as <- <-. simpl. split_and!; [|done| |].
  - intros p [c [_ Hp]%map_lookup_filter_Some]. simpl in Hp. unfold paths in Hp.
    rewrite elem_of_list_to_set in Hp. apply list_elem_of_fmap in Hp as ([q e] & -> & Hq).
    apply elem_of_map_to_list in Hq. by eexists.
  - apply map_size_removed.
  - intros p since. unfold changed_since. simpl. case_match; [done|].
    destruct (filter _ _ !! p) as [c|] eqn:Hc; [|done].
    apply map_lookup_filter_Some in Hc as [-> _]. done.
Qed.

Lemma eviction_settles_journal_witness :
  let s := (fold_left (sys_step (F := toy_facade) (busy_env 0) 0)
              (sys_demo_ops ++ [LookupSince "/g" 0]) (CacheSystem_new, 0%nat)).1 in
  let r := sys_evict_oldest 1 s in
  r.2 = (1%nat, 2%nat) /\
  (forall p, is_Some (last_change (sys_journal r.1) !! p) ->
     is_Some (entries (sys_metadata r.1) !! p)) /\
  (1 + size (entries (sys_metadata r.1)) = size (entries (sys_metadata s)))%nat /\
  (2 + size (last_change (sys_journal r.1)) = size (last_change (sys_journal s)))%nat /\
  (forall p since, changed_since (sys_journal r.1) p since = false ->
     changed_since (sys_journal s) p since = false).
Proof.
  intros s r. split; [vm_compute; reflexivity|].
  apply (eviction_settles_journal s r.1 1 2 0 0 1 []).
  right. left. vm_compute. reflexivity.
Defined.

(** The fast path is taken.  A file looked up once and registered, then
    left alone, is served after any unrelated batches from the cache: same hash,
    current clock, one observation, no state changed and no byte read. *)
Theorem unchanged_file_fast_path {B3 : Blake3} {F : Facade B3} (env : Env) (tol : Z)
    (s : CacheSystem) (t u : nat) (path : bytes) (f : FileState)
    (batches : list (list NormalizedPath)) :
  let p := normalize path in
  HonestFs env tol -> sys_trusted env (s, t) -> undisturbed env p f t 5 ->
  disk env u p = inr f -> Forall (fun b => p ∉ b) batches ->
  0 <= last_overflow (sys_journal s) <= current (sys_journal s) ->
  (forall c, last_change (sys_journal s) !! p = Some c -> c <= current (sys_journal s)) ->
  exists s1 t1 h,
    lift_fs (lookup env path) (s, t) = (inr h, (s1, t1)) /\
    let s2 := fold_left (fun s b => (apply_changes b s).1) batches (register_tracked [p] s1) in
    let clock := current (sys_journal s) in
    lookup_since env tol p clock (s2, u) =
      (inr (mkClockLookup h (sys_current_clock s2)), (s2, S u)) /\
    h = hash_bytes (f_content f).
Proof.
  intros p Hh Htr Hu Hd Hb Hov Hlc.
  destruct (lookup_undisturbed env tol path f (sys_metadata s) t Hh Htr Hu)
    as (m & t1 & Ht1 & Hl & Hm).
  eexists _, _, _. split; [unfold lift_fs; by rewrite Hl|]. cbn zeta. split; [|done].
  set (s1 := register_tracked _ _).
  destruct (unrelated_batches p batches s1 Hb) as (He & Hj & Ho). cbn zeta in He, Hj, Ho.
  set (s2 := fold_left _ batches s1) in *. simpl in He. rewrite lookup_insert_eq in He.
  rewrite lookup_since_run. cbn beta zeta. unfold changed_since. rewrite Hj, Ho. simpl.
  assert ((match last_change (sys_journal s) !! p with
           | Some _ => last_change (sys_journal s)
           | None => <[p:=current (sys_journal s)]> (last_change (sys_journal s))
           end !! p) = Some (default (current (sys_journal s)) (last_change (sys_journal s) !! p)))
    as ->.
  { destruct (last_change (sys_journal s) !! p) eqn:Hc; [done|apply lookup_insert_eq]. }
  rewrite (proj2 (Z.ltb_ge (current (sys_journal s)) (last_overflow _))), andb_false_r by lia.
  rewrite (proj2 (Z.ltb_ge (current (sys_journal s)) (default _ _))).
  2:{ destruct (last_change (sys_journal s) !! p) eqn:Hc; simpl; [by apply Hlc|lia]. }
  unfold get_cached_hash, get_cached_hash_if_stat_valid. rewrite He. simpl. rewrite Hm. simpl.
  by rewrite Hd, mtimes_match_refl, Z.eqb_refl.
Qed.

Lemma unchanged_file_fast_path_witness :
  exists s1 t1 h,
    lift_fs (lookup (F := toy_facade) (busy_env 0) "/f") (CacheSystem_new, 0%nat)
      = (inr h, (s1, t1)) /\
    let s2 := fold_left (fun s b => (apply_changes b s).1) [["/g"]; ["/g"; "/h"]]
                (register_tracked ["/f"] s1) in
    let clock := current (sys_journal CacheSystem_new) in
    lookup_since (F := toy_facade) (busy_env 0) 0 "/f" clock (s2, 7%nat) =
      (inr (mkClockLookup h (sys_current_clock s2)), (s2, 8%nat)) /\
    h = hash_bytes (B3 := toy_blake3) "b".
Proof.
  apply (unchanged_file_fast_path (F := toy_facade) (busy_env 0) 0 CacheSystem_new 0 7 "/f"
           (busy_file 0 0) [["/g"]; ["/g"; "/h"]]).
  - apply busy_env_honest.
  - apply (trusted_new (B3 := toy_blake3)).
  - intros i _. destruct i; split; reflexivity.
  - reflexivity.
  - repeat constructor; compute_done.
  - vm_compute. split; discriminate.
  - intros c. vm_compute. discriminate.
Defined.
