(* ===== verification/Watcher.v ===== *)
(** * The file watcher ([zccache-watcher])

    From host notifications to settled batches: the ignore filter and the
    conversion of host events ([ignore.rs], [notify_watcher.rs]), the settle
    buffer that coalesces bursts ([settle.rs]), the polling watcher's loop
    ([polling_watcher.rs]), and the daemon task that applies settled events to
    the cache system ([run.rs]). *)

From S2P Require Import Prelude Path Clock Hash Metadata Verify CacheSystem.
From Stdlib Require Import Lia.

(** ** Ignored directories *)

Record IgnoreFilter := mkIgnore { patterns : list bytes }.

Definition default_patterns : list bytes :=
  [".git"; "target"; "node_modules"; ".hg"; "__pycache__"; ".mypy_cache"; "build"; ".cache"].

Definition IgnoreFilter_default : IgnoreFilter := mkIgnore default_patterns.

Definition should_ignore (self : IgnoreFilter) (path : bytes) : bool :=
  existsb (fun c => match c with
                    | Normal name => bool_decide (name ∈ patterns self)
                    | _ => false
                    end) (components path).

(** ** Host notifications *)

Inductive RenameSide := RenameFrom | RenameTo | RenameBoth | RenameUnknown.

Inductive HostChange :=
  | HCreated | HRemoved | HNameModified (side : RenameSide)
  | HContentModified | HMetadataModified | HAccessed | HOther.

#[export] Instance RenameSide_eq_dec : EqDecision RenameSide.
Proof. solve_decision. Defined.
#[export] Instance HostChange_eq_dec : EqDecision HostChange.
Proof. solve_decision. Defined.

Inductive WatchNotification :=
  | RescanRequired (watch_lost : bool)
  | Change (kind : HostChange) (host_paths : list bytes).

Inductive WatchEvent :=
  | Modified (p : NormalizedPath)
  | Created (p : NormalizedPath)
  | Removed (p : NormalizedPath)
  | Renamed (from to : NormalizedPath)
  | Overflow
  | WatchError (message : bytes).

(** The event one path of a host change becomes. *)
Definition convert_path (kind : HostChange) (path : bytes) : option WatchEvent :=
  match kind with
  | HCreated => Some (Created (normalize path))
  | HRemoved => Some (Removed (normalize path))
  | HNameModified RenameFrom => Some (Removed (normalize path))
  | HNameModified RenameTo => Some (Created (normalize path))
  | HContentModified | HMetadataModified | HNameModified _ => Some (Modified (normalize path))
  | HAccessed => None
  | HOther => Some (Modified (normalize path))
  end.

Definition convert_event (ignore : IgnoreFilter) (kind : HostChange) (host_paths : list bytes) :
    list WatchEvent :=
  match kind, host_paths with
  | HNameModified RenameBoth, from :: to :: _ =>
      if should_ignore ignore from && should_ignore ignore to then []
      else if should_ignore ignore from then [Created (normalize to)]
      else if should_ignore ignore to then [Removed (normalize from)]
      else [Renamed (normalize from) (normalize to)]
  | _, _ => omap (fun p => if should_ignore ignore p then None else convert_path kind p) host_paths
  end.

Definition convert_notification (ignore : IgnoreFilter) (n : WatchNotification) : list WatchEvent :=
  match n with
  | RescanRequired _ => [Overflow]
  | Change kind ps => convert_event ignore kind ps
  end.

(** ** The settle buffer *)

Inductive ChangeKind := KModified | KRemoved.

Inductive SettledEvent :=
  | Batch (changed removed : list NormalizedPath)
  | SettledOverflow.

Record SettleBuffer := mkSettle { settle_window : Z; max_wait : Z }.

Definition SettleBuffer_new (window : Z) : SettleBuffer := mkSettle window (50 * 1000000).
Definition default_window : SettleBuffer := SettleBuffer_new (50 * 1000000).

Abbreviation Pending := (gmap NormalizedPath ChangeKind).

Definition apply_event (pending : Pending) (event : WatchEvent) : Pending :=
  match event with
  | Modified p | Created p => <[p := KModified]> pending
  | Removed p => <[p := KRemoved]> pending
  | Renamed from to => <[to := KModified]> (<[from := KRemoved]> pending)
  | Overflow | WatchError _ => pending
  end.

Definition of_kind (k : ChangeKind) (e : NormalizedPath * ChangeKind) : bool :=
  match k, e.2 with
  | KModified, KModified | KRemoved, KRemoved => true
  | _, _ => false
  end.

(** The drain of a hash map, in the order of its iteration. *)
Definition drain (pending : Pending) : SettledEvent :=
  let l := map_to_list pending in
  Batch (filter (fun e => of_kind KModified e = true) l).*1
        (filter (fun e => of_kind KRemoved e = true) l).*1.

Definition flush (pending : Pending) : list SettledEvent :=
  if bool_decide (pending = ∅) then [] else [drain pending].

(** Where the loop waits: for the first event of a batch, for more events until
    the deadline, or nowhere. *)
Inductive Phase := Idle | Coalescing (deadline : Z) | Stopped.

Record SettleState := mkSettleState { pending : Pending; phase : Phase }.

Definition settle_init : SettleState := mkSettleState ∅ Idle.

(** What a wait ends with. *)
Inductive Wakeup := Received (event : WatchEvent) | ChannelClosed | TimedOut.

Definition is_overflow (e : WatchEvent) : bool :=
  match e with Overflow | WatchError _ => true | _ => false end.

(** [self.settle_window.min(deadline.remaining())] *)
Definition inner_wait (self : SettleBuffer) (deadline now : Z) : Z :=
  Z.min (settle_window self) (Z.max 0 (deadline - now)).

(** The top of the inner loop: force the batch out when no wait is left. *)
Definition inner_top (self : SettleBuffer) (p : Pending) (deadline now : Z) :
    SettleState * list SettledEvent :=
  if inner_wait self deadline now =? 0 then (mkSettleState ∅ Idle, flush p)
  else (mkSettleState p (Coalescing deadline), []).

(** One wait of [run] that ends at [now], up to the next wait. *)
Definition settle_step (self : SettleBuffer) (st : SettleState) (now : Z) (w : Wakeup) :
    SettleState * list SettledEvent :=
  match phase st with
  | Stopped => (st, [])
  | Idle =>
      match w with
      | ChannelClosed => (mkSettleState ∅ Stopped, flush (pending st))
      | Received e =>
          if is_overflow e then (mkSettleState ∅ Idle, [SettledOverflow])
          else inner_top self (apply_event (pending st) e) (now + max_wait self) now
      | TimedOut => (st, [])
      end
  | Coalescing deadline =>
      match w with
      | Received e =>
          if is_overflow e then (mkSettleState ∅ Idle, [SettledOverflow])
          else inner_top self (apply_event (pending st) e) deadline now
      | ChannelClosed => (mkSettleState ∅ Stopped, flush (pending st))
      | TimedOut => (mkSettleState ∅ Idle, flush (pending st))
      end
  end.

Fixpoint settle_run (self : SettleBuffer) (st : SettleState) (ins : list (Z * Wakeup)) :
    SettleState * list SettledEvent :=
  match ins with
  | [] => (st, [])
  | (now, w) :: ins' =>
      let '(st1, out1) := settle_step self st now w in
      let '(st2, out2) := settle_run self st1 ins' in
      (st2, out1 ++ out2)
  end.

(** The waits that can happen: time does not run backwards, an idle wait has no
    timeout, and a coalescing wait ends no later than its timeout. *)
Inductive wait_ends (self : SettleBuffer) : SettleState -> Z -> Z -> Wakeup -> Prop :=
  | idle_wait p last now w :
      last <= now -> w <> TimedOut -> wait_ends self (mkSettleState p Idle) last now w
  | coalescing_wait p d last now w :
      last <= now <= last + inner_wait self d last ->
      wait_ends self (mkSettleState p (Coalescing d)) last now w.

(** Reachable states, with the time of the last wake-up. *)
Inductive settle_reach (self : SettleBuffer) : SettleState -> Z -> Prop :=
  | reach_init t : settle_reach self settle_init t
  | reach_step st last now w :
      settle_reach self st last -> wait_ends self st last now w ->
      settle_reach self (settle_step self st now w).1 now.

(** ** The daemon's consumer task

    One settled event applied to the cache system.  The registry of hard links
    and the fingerprint tracker, which the task also tells, are other components. *)
Definition consume (s : CacheSystem) (e : SettledEvent) : CacheSystem :=
  match e with
  | Batch changed removed =>
      if (0 <? length changed + length removed)%nat
      then (apply_changes_with_removals (normalize <$> changed) (normalize <$> removed) s).1
      else s
  | SettledOverflow => (apply_overflow s).1
  end.

(** ** The polling loop *)

Record PollFile := mkPollFile { mtime_ns : Z; poll_size : Z }.

#[export] Instance PollFile_eq_dec : EqDecision PollFile.
Proof. solve_decision. Defined.

Abbreviation Snapshot := (gmap NormalizedPath PollFile).

Record PollWatchBatch := mkPollBatch {
  pb_changed : list NormalizedPath;
  pb_removed : list NormalizedPath;
  pb_overflow : bool;
}.

Definition diff_snapshots (previous current : Snapshot) :
    gset NormalizedPath * gset NormalizedPath :=
  (dom (filter (fun e => previous !! e.1 <> Some e.2) current),
   dom (filter (fun e => current !! e.1 = None) previous)).

Record PollState := mkPoll {
  snapshot : Snapshot;
  pending_changed : gset NormalizedPath;
  pending_removed : gset NormalizedPath;
  poll_last_change : option Z;
}.

Definition poll_init (snap : Snapshot) : PollState := mkPoll snap ∅ ∅ None.

Definition sorted_paths (s : gset NormalizedPath) : list NormalizedPath :=
  sort_by_key (fun p => p) (elements s).

(** One iteration of [run_poll_loop] at the instant [now] with a fresh scan. *)
Definition poll_step (debounce : Z) (st : PollState) (now : Z) (current : Snapshot) :
    PollState * option PollWatchBatch :=
  let '(changed, removed) := diff_snapshots (snapshot st) current in
  if negb (bool_decide (changed = ∅)) || negb (bool_decide (removed = ∅)) then
    (mkPoll current
       ((pending_changed st ∪ changed) ∖ removed)
       ((pending_removed st ∖ changed) ∪ removed)
       (Some now), None)
  else
    match poll_last_change st with
    | Some last =>
        if (debounce <=? saturating_duration_since now last) &&
           (negb (bool_decide (pending_changed st = ∅)) ||
            negb (bool_decide (pending_removed st = ∅)))
        then (mkPoll current ∅ ∅ None,
              Some (mkPollBatch (sorted_paths (pending_changed st))
                      (sorted_paths (pending_removed st)) false))
        else (mkPoll current (pending_changed st) (pending_removed st) (Some last), None)
    | None => (mkPoll current (pending_changed st) (pending_removed st) None, None)
    end.

Fixpoint poll_run (debounce : Z) (st : PollState) (scans : list (Z * Snapshot)) :
    PollState * list PollWatchBatch :=
  match scans with
  | [] => (st, [])
  | (now, current) :: scans' =>
      let '(st1, out) := poll_step debounce st now current in
      let '(st2, outs) := poll_run debounce st1 scans' in
      (st2, option_list out ++ outs)
  end.

(** ** What the settle buffer must say

    Two replays of the knowledge "last kind of change per path since the last
    loss": one of the raw events, one of the settled output. *)

Definition replay_raw (v : Pending) (w : Wakeup) : Pending :=
  match w with
  | Received e => if is_overflow e then ∅ else apply_event v e
  | ChannelClosed | TimedOut => v
  end.

Definition insert_all {A} (k : A) (l : list NormalizedPath) (v : gmap NormalizedPath A) :
    gmap NormalizedPath A :=
  fold_left (fun m p => <[p := k]> m) l v.

Definition replay_settled (v : Pending) (e : SettledEvent) : Pending :=
  match e with
  | Batch changed removed => insert_all KRemoved removed (insert_all KModified changed v)
  | SettledOverflow => ∅
  end.

(** A batch the consumer can rely on: not empty, each path once. *)
Definition batch_wf (e : SettledEvent) : Prop :=
  match e with
  | Batch changed removed => changed ++ removed <> [] /\ NoDup (changed ++ removed)
  | SettledOverflow => True
  end.

(** ** Lemmas *)

Lemma insert_all_lookup {A} (k : A) l v q :
  insert_all k l v !! q = if decide (q ∈ l) then Some k else v !! q.
Proof.
  unfold insert_all. revert v. induction l as [|p l IH]; intros v; simpl.
  { by destruct (decide (q ∈ [])) as [?%not_elem_of_nil|]. }
  rewrite IH. destruct (decide (q ∈ l)) as [Hl|Hl], (decide (q ∈ p :: l)) as [Hp|Hp]; try done.
  - by destruct Hp; right.
  - apply elem_of_cons in Hp as [->|?]; [|done]. apply lookup_insert_eq.
  - apply not_elem_of_cons in Hp as [? _]. by rewrite lookup_insert_ne.
Qed.

Lemma drained_elem k p q :
  q ∈ (filter (fun e => of_kind k e = true) (map_to_list p)).*1 <-> p !! q = Some k.
Proof.
  rewrite list_elem_of_fmap. split.
  - intros ([q' k'] & -> & [Hk Hin]%list_elem_of_filter). apply elem_of_map_to_list in Hin.
    simpl. by destruct k, k'.
  - intros Hq. exists (q, k). split; [done|]. apply list_elem_of_filter.
    split; [by destruct k|by apply elem_of_map_to_list].
Qed.

Lemma replay_drain v p : replay_settled v (drain p) = p ∪ v.
Proof.
  apply map_eq. intros q. unfold drain, replay_settled. rewrite !insert_all_lookup, lookup_union.
  destruct (decide (q ∈ _)) as [Hr%drained_elem|Hr].
  { by rewrite Hr, union_Some_l. }
  destruct (decide (q ∈ _)) as [Hm%drained_elem|Hm].
  { by rewrite Hm, union_Some_l. }
  rewrite drained_elem in Hr, Hm. destruct (p !! q) as [[]|]; try done. by destruct (v !! q).
Qed.

Lemma drain_wf p : p <> ∅ -> batch_wf (drain p).
Proof.
  intros Hp. unfold drain, batch_wf. split.
  - destruct (map_choose p Hp) as (q & k & Hq). intros Hn.
    apply (not_elem_of_nil q). rewrite <- Hn. apply elem_of_app.
    rewrite !drained_elem. destruct k; eauto.
  - assert (forall k, NoDup (filter (fun e => of_kind k e = true) (map_to_list p)).*1) as Hnd.
    { intros k. eapply sublist_NoDup; [apply (NoDup_fst_map_to_list p)|].
      apply fmap_sublist, sublist_filter. }
    apply NoDup_app. split_and!; [apply Hnd| |apply Hnd].
    intros q. rewrite !drained_elem. by intros ->.
Qed.

Lemma flush_spec p v :
  fold_left replay_settled (flush p) v = p ∪ v /\ Forall batch_wf (flush p).
Proof.
  unfold flush. case_bool_decide as Hp; cbn [fold_left].
  - rewrite Hp, (left_id_L ∅ (∪)). done.
  - rewrite replay_drain. split; [done|]. by apply Forall_singleton, drain_wf.
Qed.

(** Union with new knowledge commutes with one more raw event. *)
Lemma apply_event_union p v e : apply_event (p ∪ v) e = apply_event p e ∪ v.
Proof. destruct e; simpl; rewrite ?insert_union_l; done. Qed.

(** Changes are held back only while coalescing. *)
Definition settled_wf (st : SettleState) : Prop :=
  match phase st with
  | Coalescing _ => pending st <> ∅
  | Idle | Stopped => pending st = ∅
  end.

Lemma apply_event_nonempty p e : is_overflow e = false -> apply_event p e <> ∅.
Proof. destruct e; simpl; intros; done || apply insert_non_empty. Qed.

(** What one wait guarantees, relative to the knowledge [v] already sent. *)
Definition step_ok (v raw : Pending) (r : SettleState * list SettledEvent) : Prop :=
  pending r.1 ∪ fold_left replay_settled r.2 v = raw /\ Forall batch_wf r.2 /\ settled_wf r.1.

Lemma flush_step_ok v p ph :
  (forall d, ph <> Coalescing d) -> step_ok v (p ∪ v) (mkSettleState ∅ ph, flush p).
Proof.
  intros Hph. destruct (flush_spec p v) as [Hf Hw]. split_and!; simpl; [|done|].
  - by rewrite (left_id_L ∅ (∪)).
  - unfold settled_wf. simpl. destruct ph; [done| |done]. by destruct (Hph deadline).
Qed.

Lemma inner_top_ok self v p d now : p <> ∅ -> step_ok v (p ∪ v) (inner_top self p d now).
Proof.
  intros Hp. unfold inner_top. destruct (_ =? 0); [by apply flush_step_ok|].
  by split_and!; simpl; [|constructor|].
Qed.

Lemma settle_step_ok self st now w v :
  phase st <> Stopped -> settled_wf st ->
  step_ok v (replay_raw (pending st ∪ v) w) (settle_step self st now w).
Proof.
  intros Hs Hwf. destruct st as [p ph]. unfold settled_wf in Hwf. simpl in *.
  assert (forall e d, is_overflow e = false ->
    step_ok v (apply_event (p ∪ v) e) (inner_top self (apply_event p e) d now)) as Hin.
  { intros e d He. rewrite apply_event_union. by apply inner_top_ok, apply_event_nonempty. }
  assert (step_ok v ∅ (mkSettleState ∅ Idle, [SettledOverflow])) as Hov.
  { split_and!; simpl; [by rewrite (left_id_L ∅ (∪))|by repeat constructor|done]. }
  unfold settle_step. simpl. destruct ph as [|d|]; [..|done]; destruct w as [e| |]; simpl;
    try (destruct (is_overflow e) eqn:He; [done|by apply Hin]);
    try (by apply flush_step_ok).
  split_and!; [done|constructor|done].
Qed.

Lemma settle_step_stopped self st now w :
  phase st <> Stopped -> phase (settle_step self st now w).1 = Stopped <-> w = ChannelClosed.
Proof.
  intros Hs. unfold settle_step, inner_top.
  destruct (phase st) eqn:Hp, w as [e| |]; try destruct (is_overflow e);
    try destruct (_ =? 0); simpl; split; congruence.
Qed.

Lemma settle_run_ok self ins st v st' out :
  phase st <> Stopped -> settled_wf st ->
  Forall (fun i => i.2 <> ChannelClosed) ins ->
  settle_run self st ins = (st', out) ->
  step_ok v (fold_left replay_raw ins.*2 (pending st ∪ v)) (st', out) /\ phase st' <> Stopped.
Proof.
  revert st v st' out. induction ins as [|[now w] ins IH]; intros st v st' out Hs Hwf Hc; simpl.
  { intros [= <- <-]. split; [|done]. by split_and!; [|constructor|]. }
  apply Forall_cons in Hc as [Hw Hc]. simpl in Hw.
  destruct (settle_step self st now w) as [st1 out1] eqn:H1.
  destruct (settle_run self st1 ins) as [st2 out2] eqn:H2. intros [= <- <-].
  pose proof (settle_step_ok self st now w v Hs Hwf) as Hok. rewrite H1 in Hok.
  destruct Hok as (Hr & Hb & Hwf1). simpl in *.
  assert (phase st1 <> Stopped) as Hs1.
  { pose proof (settle_step_stopped self st now w Hs) as Hst. rewrite H1 in Hst. tauto. }
  destruct (IH st1 (fold_left replay_settled out1 v) st2 out2 Hs1 Hwf1 Hc H2)
    as ((Hr2 & Hb2 & Hwf2) & Hs2). rewrite Hr in Hr2. split; [|done].
  split_and!; simpl in *; [by rewrite fold_left_app|by apply Forall_app|done].
Qed.

Lemma settle_run_app self st ins t w :
  settle_run self st (ins ++ [(t, w)]) =
    let '(st1, out1) := settle_run self st ins in
    let '(st2, out2) := settle_step self st1 t w in (st2, out1 ++ out2).
Proof.
  revert st. induction ins as [|[now w'] ins IH]; intros st; simpl.
  - destruct (settle_step self st t w). by rewrite app_nil_r.
  - destruct (settle_step self st now w'). rewrite IH. destruct (settle_run self _ ins).
    destruct (settle_step self _ t w). by rewrite app_assoc.
Qed.

(** Once the channel is closed nothing is pending: the output alone says what
    the raw events said. *)
Lemma settle_run_closed self ins t :
  Forall (fun i => i.2 <> ChannelClosed) ins ->
  let '(st, out) := settle_run self settle_init (ins ++ [(t, ChannelClosed)]) in
  phase st = Stopped /\ Forall batch_wf out /\
  fold_left replay_settled out ∅ = fold_left replay_raw ins.*2 ∅.
Proof.
  intros Hc. rewrite settle_run_app.
  destruct (settle_run self settle_init ins) as [st out] eqn:Hrun.
  destruct (settle_run_ok self ins settle_init ∅ st out) as [(Hr & Hb & Hwf) Hs]; try done.
  simpl in Hr. rewrite (left_id_L ∅ (∪)) in Hr.
  pose proof (settle_step_ok self st t ChannelClosed (fold_left replay_settled out ∅) Hs Hwf) as Hok.
  pose proof (settle_step_stopped self st t ChannelClosed Hs) as Hst.
  destruct (settle_step self st t ChannelClosed) as [st2 out2]. destruct Hok as (Hr2 & Hb2 & Hwf2).
  simpl in *. assert (phase st2 = Stopped) as Hp2 by tauto.
  split_and!; [done|by apply Forall_app|]. rewrite fold_left_app, <- Hr, <- Hr2.
  unfold settled_wf in Hwf2. rewrite Hp2 in Hwf2. rewrite Hwf2. by rewrite (left_id_L ∅ (∪)).
Qed.

(** ** Properties *)

(** C4: the settle buffer loses nothing and invents nothing.  For every
    sequence of events, timeouts and instants ended by the closing of the
    channel: the loop stops, every batch is non-empty and names each path once,
    and replaying the settled output gives, path by path, the same last kind of
    change since the last overflow as replaying the raw events; mid-way, what is
    missing from the output is exactly what is pending. *)
Theorem settle_replay_complete (self : SettleBuffer) (ins : list (Z * Wakeup)) (t : Z) :
  Forall (fun i => i.2 <> ChannelClosed) ins ->
  (let '(st, out) := settle_run self settle_init ins in
   pending st ∪ fold_left replay_settled out ∅ = fold_left replay_raw ins.*2 ∅) /\
  (let '(st, out) := settle_run self settle_init (ins ++ [(t, ChannelClosed)]) in
   phase st = Stopped /\ Forall batch_wf out /\
   fold_left replay_settled out ∅ = fold_left replay_raw ins.*2 ∅).
Proof.
  intros Hc. split; [|by apply settle_run_closed].
  destruct (settle_run self settle_init ins) as [st out] eqn:Hrun.
  destruct (settle_run_ok self ins settle_init ∅ st out) as [(Hr & _ & _) _]; try done.
Qed.

Definition settle_demo : list (Z * Wakeup) :=
  [(0, Received (Modified "/a")); (1, Received (Renamed "/a" "/b")); (60000000, TimedOut);
   (70000000, Received (Removed "/c"))].

Lemma settle_replay_complete_witness :
  (let '(st, out) := settle_run default_window settle_init settle_demo in
   pending st ∪ fold_left replay_settled out ∅ = fold_left replay_raw settle_demo.*2 ∅) /\
  (let '(st, out) := settle_run default_window settle_init
                       (settle_demo ++ [(80000000, ChannelClosed)]) in
   phase st = Stopped /\ Forall batch_wf out /\
   fold_left replay_settled out ∅ = fold_left replay_raw settle_demo.*2 ∅).
Proof. apply settle_replay_complete. repeat constructor; discriminate. Defined.

(** No change waits longer than [max_wait].  In every reachable state a
    change is held back only while coalescing; then the deadline lies ahead, at
    most [max_wait] after the last wake-up; the next wait ends by the deadline,
    and if it ends on the deadline everything pending is sent. *)
Theorem settle_bounded_delay (self : SettleBuffer) (st : SettleState) (last : Z) :
  0 <= settle_window self -> 0 <= max_wait self -> settle_reach self st last ->
  settled_wf st /\
  forall d, phase st = Coalescing d ->
    last < d <= last + max_wait self /\
    forall now w, wait_ends self st last now w ->
      now <= d /\
      (now = d -> pending (settle_step self st now w).1 = ∅ /\
                  (settle_step self st now w).2 <> []).
Proof.
  intros Hw Hm Hr.
  assert (settled_wf st /\ forall d, phase st = Coalescing d -> last < d <= last + max_wait self)
    as [Hwf Hd].
  { induction Hr as [t|st last now w Hr [IH Hd] Hend]; [done|].
    assert (phase st <> Stopped) as Hs by by destruct Hend.
    split; [by apply (settle_step_ok self st now w ∅)|].
    intros d. unfold settle_step, inner_top, inner_wait.
    destruct Hend as [p last now w Hle Hto|p d0 last now w Hle]; simpl in *.
    - destruct w as [e| |]; simpl; try done. destruct (is_overflow e); [done|].
      destruct (Z.eqb_spec (Z.min (settle_window self) (Z.max 0 (now + max_wait self - now))) 0);
        simpl; [done|]. intros [= <-]. lia.
    - unfold inner_wait in Hle. specialize (Hd d0 eq_refl).
      destruct w as [e| |]; simpl; try done. destruct (is_overflow e); [done|].
      destruct (Z.eqb_spec (Z.min (settle_window self) (Z.max 0 (d0 - now))) 0);
        simpl; [done|]. intros [= <-]. lia. }
  split; [done|]. intros d Hp. specialize (Hd d Hp). split; [done|]. intros now w Hend.
  destruct Hend as [|p d0 last now w Hle]; [done|]. injection Hp as ->.
  unfold inner_wait in Hle. split; [lia|]. intros ->.
  assert (forall p', p' <> ∅ -> flush p' <> []) as Hfl.
  { intros p' Hp'. unfold flush. by rewrite bool_decide_eq_false_2. }
  unfold settle_step, inner_top, inner_wait. simpl. destruct w as [e| |]; simpl; [|eauto..].
  destruct (is_overflow e) eqn:He; [done|]. rewrite Z.sub_diag, Z.max_id, Z.min_r by lia. simpl.
  split; [done|]. by apply Hfl, apply_event_nonempty.
Qed.

Lemma settle_bounded_delay_witness :
  let st := (settle_step default_window settle_init 5 (Received (Modified "/a"))).1 in
  settled_wf st /\
  forall d, phase st = Coalescing d ->
    5 < d <= 5 + max_wait default_window /\
    forall now w, wait_ends default_window st 5 now w ->
      now <= d /\
      (now = d -> pending (settle_step default_window st now w).1 = ∅ /\
                  (settle_step default_window st now w).2 <> []).
Proof.
  apply settle_bounded_delay; [vm_compute; discriminate..|].
  apply (reach_step _ settle_init 0); [constructor|]. constructor; [lia|discriminate].
Defined.

(** ** From raw events to the cache *)

Lemma consume_weakens s e : weakens (sys_metadata s) (sys_metadata (consume s e)).
Proof.
  destruct e as [c r|]; simpl; [|apply downgrade_all_weakens].
  destruct (_ <? _)%nat; [|done]. simpl.
  etrans; [apply (weakens_fold downgrade (normalize <$> c) downgrade_weakens)|].
  apply (weakens_fold remove (normalize <$> r) remove_weakens).
Qed.

Lemma untrusted_weakens c c' p : weakens c c' -> untrusted c p -> untrusted c' p.
Proof. intros Hw Hu m' (m & Hm & [->| ->])%Hw; [by apply Hu|done]. Qed.

Lemma consume_untrusts s p changed removed :
  normalize p = p -> p ∈ changed ++ removed ->
  untrusted (sys_metadata (consume s (Batch changed removed))) p.
Proof.
  intros Hn Hin. simpl.
  assert ((0 <? length changed + length removed)%nat = true) as ->.
  { apply Nat.ltb_lt. rewrite <- length_app. destruct (changed ++ removed); [|simpl; lia].
    by apply not_elem_of_nil in Hin. }
  assert (forall l : list NormalizedPath, p ∈ l -> p ∈ normalize <$> l) as Hmap.
  { intros l Hl. apply list_elem_of_fmap. by exists p. }
  intros m. simpl. rewrite remove_fold_lookup. case_decide as Hd; [done|].
  apply elem_of_app in Hin as [Hin|Hin]; [|by destruct Hd; apply Hmap].
  rewrite downgrade_fold_lookup by by apply Hmap. by intros (m0 & _ & ->)%fmap_Some.
Qed.

Lemma consume_run_weakens out s : weakens (sys_metadata s) (sys_metadata (fold_left consume out s)).
Proof.
  revert s. induction out as [|e out IH]; intros s; simpl; [done|].
  etrans; [apply consume_weakens|apply IH].
Qed.

(** Everything the settled output still says at its end is untrusted. *)
Lemma replayed_untrusted out s v p :
  normalize p = p -> (is_Some (v !! p) -> untrusted (sys_metadata s) p) ->
  is_Some (fold_left replay_settled out v !! p) ->
  untrusted (sys_metadata (fold_left consume out s)) p.
Proof.
  intros Hn. revert s v. induction out as [|e out IH]; intros s v Hv; cbn [fold_left]; [done|].
  apply IH. destruct e as [c r|]; cbn [replay_settled].
  - rewrite !insert_all_lookup. intros Hs.
    destruct (decide (p ∈ c ++ r)) as [Hin|Hout]; [by apply consume_untrusts|].
    rewrite elem_of_app in Hout. rewrite !decide_False in Hs by tauto.
    eapply untrusted_weakens; [apply consume_weakens|]. by apply Hv.
  - rewrite lookup_empty. by intros [? ?].
Qed.

Lemma overflow_untrusts out s p :
  SettledOverflow ∈ out -> untrusted (sys_metadata (fold_left consume out s)) p.
Proof.
  intros (l & r & ->)%list_elem_of_split. rewrite fold_left_app. cbn [fold_left].
  eapply untrusted_weakens; [apply consume_run_weakens|].
  intros m. simpl. rewrite lookup_fmap. by intros (m0 & _ & ->)%fmap_Some.
Qed.

Lemma settle_run_overflow self ins st t e :
  phase st <> Stopped -> Forall (fun i => i.2 <> ChannelClosed) ins ->
  (t, Received e) ∈ ins -> is_overflow e = true ->
  SettledOverflow ∈ (settle_run self st ins).2.
Proof.
  revert st. induction ins as [|[now w] ins IH]; intros st Hs Hc Hin Ho; cbn [settle_run].
  { by apply not_elem_of_nil in Hin. }
  apply Forall_cons in Hc as [Hw Hc]. simpl in Hw.
  pose proof (settle_step_stopped self st now w Hs) as Hst.
  destruct (settle_step self st now w) as [st1 out1] eqn:H1. simpl in Hst.
  pose proof (IH st1) as IH1. destruct (settle_run self st1 ins) as [st2 out2]. simpl in *.
  apply elem_of_app. apply elem_of_cons in Hin as [[= -> <-]|Hin]; [left|right; apply IH1; tauto].
  unfold settle_step in H1. rewrite Ho in H1.
  destruct (phase st); [| |done]; injection H1 as <- <-; left.
Qed.

(** A raw watcher event invalidates the cache.  When the daemon's consumer
    applies the output of the settle buffer to any cache system, every path
    that a raw event named since the last overflow, and after an overflow or a
    watcher error every path at all, is left without a trusted entry, so that
    the next lookup hashes the file; no entry becomes more trusted. *)
Theorem raw_events_untrust (self : SettleBuffer) (ins : list (Z * Wakeup)) (t : Z)
    (s : CacheSystem) (p : NormalizedPath) :
  normalize p = p -> Forall (fun i => i.2 <> ChannelClosed) ins ->
  let out := (settle_run self settle_init (ins ++ [(t, ChannelClosed)])).2 in
  let s' := fold_left consume out s in
  weakens (sys_metadata s) (sys_metadata s') /\
  (is_Some (fold_left replay_raw ins.*2 ∅ !! p) \/
   (exists t' e, (t', Received e) ∈ ins /\ is_overflow e = true) ->
   untrusted (sys_metadata s') p).
Proof.
  intros Hn Hc out s'. split; [apply consume_run_weakens|]. intros [Hp|(t' & e & Hin & Ho)].
  - eapply (replayed_untrusted out s ∅); [done|rewrite lookup_empty; by intros [? ?]|].
    unfold out. pose proof (settle_run_closed self ins t Hc) as Hcl.
    destruct (settle_run self settle_init _) as [st o]. simpl. by destruct Hcl as (_ & _ & ->).
  - apply overflow_untrusts. unfold out. rewrite settle_run_app.
    pose proof (settle_run_overflow self ins settle_init t' e) as Hov.
    destruct (settle_run self settle_init ins) as [st o]. simpl in *.
    destruct (settle_step self st t ChannelClosed). apply elem_of_app. left. by apply Hov.
Qed.

Lemma raw_events_untrust_witness :
  let out := (settle_run default_window settle_init (settle_demo ++ [(80000000, ChannelClosed)])).2 in
  let s := mkSystem (insert "/b" (mkMeta 1 2 High 0 (Some "h")) MetadataCache_new) ChangeJournal_new in
  let s' := fold_left consume out s in
  untrusted (sys_metadata s') "/b" /\ entries (sys_metadata s') !! "/b" <> None.
Proof.
  intros out s s'. split; [|vm_compute; discriminate].
  apply (raw_events_untrust default_window settle_demo 80000000 s "/b").
  - reflexivity.
  - repeat constructor; discriminate.
  - left. vm_compute. eexists. reflexivity.
Defined.

(** The paths an event names. *)
Definition event_paths (e : WatchEvent) : list NormalizedPath :=
  match e with
  | Modified p | Created p | Removed p => [p]
  | Renamed from to => [from; to]
  | Overflow | WatchError _ => []
  end.

(** The host paths a change is about: a rename with both sides is about its
    first two paths, an access about none. *)
Definition relevant_paths (kind : HostChange) (ps : list bytes) : list bytes :=
  match kind, ps with
  | HAccessed, _ => []
  | HNameModified RenameBoth, from :: to :: _ => [from; to]
  | _, _ => ps
  end.

Lemma convert_path_paths ignore kind ps :
  kind <> HAccessed ->
  flat_map event_paths
    (omap (fun p => if should_ignore ignore p then None else convert_path kind p) ps) =
  normalize <$> filter (fun p => should_ignore ignore p = false) ps.
Proof.
  intros Hk. induction ps as [|p ps IH]; [done|]. rewrite filter_cons. cbn [omap list_omap].
  destruct (should_ignore ignore p); simpl; [done|].
  assert (exists e, convert_path kind p = Some e /\ event_paths e = [normalize p]) as (e & He & Hep)
    by (destruct kind as [| |[]| | | |]; try done; by eexists).
  rewrite He. cbn [flat_map]. rewrite Hep. simpl. f_equal. exact IH.
Qed.

(** The conversion of a host notification reports exactly the relevant
    paths that are not under an ignored directory, in order and normalised, and
    an incomplete view becomes an overflow.  A path is ignored exactly when one
    of its components is one of the configured names (not a substring of it). *)
Theorem convert_reports_relevant (ignore : IgnoreFilter) (kind : HostChange) (ps : list bytes) :
  flat_map event_paths (convert_notification ignore (Change kind ps)) =
    normalize <$> filter (fun p => should_ignore ignore p = false) (relevant_paths kind ps) /\
  (forall lost, convert_notification ignore (RescanRequired lost) = [Overflow]) /\
  (forall p, should_ignore ignore p = true <->
     exists name, Normal name ∈ components p /\ name ∈ patterns ignore).
Proof.
  split_and!; [|done|].
  - simpl. destruct (decide (kind = HAccessed)) as [->|Hk].
    { simpl. induction ps as [|p ps IH]; [done|]. simpl. by destruct (should_ignore ignore p). }
    destruct (decide (kind = HNameModified RenameBoth)) as [->|Hb].
    + destruct ps as [|from [|to ps]]; [done|by apply convert_path_paths|].
      simpl. rewrite !filter_cons, filter_nil.
      by destruct (should_ignore ignore from), (should_ignore ignore to).
    + replace (convert_event ignore kind ps) with
        (omap (fun p => if should_ignore ignore p then None else convert_path kind p) ps)
        by (destruct kind as [| |[]| | | |]; done).
      replace (relevant_paths kind ps) with ps by (destruct kind as [| |[]| | | |]; done).
      by apply convert_path_paths.
  - intros p. unfold should_ignore. rewrite existsb_exists. split.
    + intros (c & Hc%list_elem_of_In & Hp). destruct c as [| | |name]; try done.
      apply bool_decide_eq_true in Hp. eauto.
    + intros (name & Hin & Hp). exists (Normal name). split; [by apply list_elem_of_In|].
      by apply bool_decide_eq_true.
Qed.

(** ** The polling loop *)

(** The states of the loop, with the snapshot observers know: the one of the
    last batch, or the initial one. *)
Inductive poll_reach (debounce : Z) : Snapshot -> PollState -> Prop :=
  | poll_start snap : poll_reach debounce snap (poll_init snap)
  | poll_quiet base st now current st' :
      poll_reach debounce base st -> poll_step debounce st now current = (st', None) ->
      poll_reach debounce base st'
  | poll_emit base st now current st' b :
      poll_reach debounce base st -> poll_step debounce st now current = (st', Some b) ->
      poll_reach debounce (snapshot st') st'.

Record poll_inv (base : Snapshot) (st : PollState) : Prop := {
  pi_changed : forall p, p ∈ pending_changed st -> is_Some (snapshot st !! p);
  pi_removed : forall p, p ∈ pending_removed st -> snapshot st !! p = None;
  pi_covers : forall p, snapshot st !! p <> base !! p ->
                p ∈ pending_changed st \/ p ∈ pending_removed st;
  pi_timer : pending_changed st ∪ pending_removed st <> ∅ -> is_Some (poll_last_change st);
}.

Lemma diff_changed prev cur p :
  p ∈ (diff_snapshots prev cur).1 <-> is_Some (cur !! p) /\ cur !! p <> prev !! p.
Proof.
  simpl. rewrite elem_of_dom. split.
  - intros [f [Hf Hne]%map_lookup_filter_Some]. simpl in Hne. rewrite Hf. split; [done|congruence].
  - intros [[f Hf] Hne]. exists f. apply map_lookup_filter_Some. simpl. split; [done|congruence].
Qed.

Lemma diff_removed prev cur p :
  p ∈ (diff_snapshots prev cur).2 <-> is_Some (prev !! p) /\ cur !! p = None.
Proof.
  simpl. rewrite elem_of_dom. split.
  - by intros [f [Hf Hne]%map_lookup_filter_Some].
  - intros [[f Hf] Hne]. exists f. by apply map_lookup_filter_Some.
Qed.

Lemma diff_empty prev cur :
  (diff_snapshots prev cur).1 = ∅ -> (diff_snapshots prev cur).2 = ∅ -> cur = prev.
Proof.
  intros H1 H2. apply map_eq. intros p.
  pose proof (diff_changed prev cur p) as Hc. pose proof (diff_removed prev cur p) as Hr.
  rewrite H1 in Hc. rewrite H2 in Hr.
  destruct (decide (cur !! p = prev !! p)) as [|Hne]; [done|].
  destruct (cur !! p) as [f|] eqn:Hf.
  { exfalso. apply (not_elem_of_empty (C := gset NormalizedPath) p). apply Hc. eauto. }
  destruct (prev !! p) as [f|] eqn:Hp; [|done].
  exfalso. apply (not_elem_of_empty (C := gset NormalizedPath) p). apply Hr. eauto.
Qed.

(** The three outcomes of an iteration. *)
Lemma poll_step_cases debounce st now cur st' out :
  poll_step debounce st now cur = (st', out) ->
  (cur <> snapshot st /\ out = None /\
   st' = mkPoll cur ((pending_changed st ∪ (diff_snapshots (snapshot st) cur).1)
                       ∖ (diff_snapshots (snapshot st) cur).2)
           ((pending_removed st ∖ (diff_snapshots (snapshot st) cur).1)
              ∪ (diff_snapshots (snapshot st) cur).2) (Some now)) \/
  (cur = snapshot st /\ out = None /\ st' = st /\
   (forall last, poll_last_change st = Some last ->
      debounce <= saturating_duration_since now last ->
      pending_changed st = ∅ /\ pending_removed st = ∅)) \/
  (cur = snapshot st /\ st' = mkPoll cur ∅ ∅ None /\
   out = Some (mkPollBatch (sorted_paths (pending_changed st))
                 (sorted_paths (pending_removed st)) false)).
Proof.
  unfold poll_step.
  assert (diff_snapshots (snapshot st) (snapshot st) = (∅, ∅)) as Hself.
  { apply injective_projections; apply set_eq; intros p;
      rewrite ?diff_changed, ?diff_removed; simpl; split; try (by intros ?%elem_of_empty).
    - by intros [_ []].
    - intros [[? Hs] Hn]. congruence. }
  pose proof (diff_empty (snapshot st) cur) as Hempty.
  destruct (diff_snapshots (snapshot st) cur) as [ch rm] eqn:Hd. simpl in Hempty.
  destruct (negb _ || negb _) eqn:Hb.
  - intros [= <- <-]. left. split_and!; try done. intros ->. rewrite Hself in Hd.
    injection Hd as <- <-. done.
  - apply orb_false_iff in Hb as [Hc%negb_false_iff%bool_decide_eq_true
      Hr%negb_false_iff%bool_decide_eq_true]. specialize (Hempty Hc Hr). subst cur.
    destruct st as [snap pc pr [last|]]; simpl in *; [|intros [= <- <-]; naive_solver].
    destruct (_ && _) eqn:Hd'; intros [= <- <-]; [by eauto|]. right. left. split_and!; try done.
    intros last' [= <-] Hle%Z.leb_le. rewrite Hle in Hd'.
    apply orb_false_iff in Hd' as [Hpc%negb_false_iff%bool_decide_eq_true
      Hpr%negb_false_iff%bool_decide_eq_true]. done.
Qed.

Lemma poll_reach_inv debounce base st : poll_reach debounce base st -> poll_inv base st.
Proof.
  induction 1 as [snap|base st now cur st' Hr IH Hs|base st now cur st' b Hr IH Hs].
  - by split; simpl.
  - apply poll_step_cases in Hs as [(Hne & _ & ->)|[(_ & _ & -> & _)|(_ & _ & [=])]]; [|done].
    destruct IH as [Hc Hrm Hcov Ht]. split; cbn [snapshot pending_changed pending_removed poll_last_change].
    + intros p [Hp Hnr]%elem_of_difference. apply elem_of_union in Hp as [Hp|Hp].
      * rewrite diff_removed in Hnr. specialize (Hc p Hp). destruct (cur !! p); [done|]. tauto.
      * by apply diff_changed in Hp as [? _].
    + intros p [[Hp Hnc]%elem_of_difference|Hp]%elem_of_union.
      * rewrite diff_changed in Hnc. specialize (Hrm p Hp). rewrite Hrm in Hnc.
        destruct (cur !! p); [|done]. destruct Hnc. by eauto.
      * by apply diff_removed in Hp as [_ ?].
    + intros p Hp. rewrite elem_of_difference, !elem_of_union, elem_of_difference.
      rewrite diff_changed, diff_removed. specialize (Hcov p).
      destruct (decide (cur !! p = snapshot st !! p)) as [Heq|Hdiff].
      * rewrite Heq in *. destruct (Hcov Hp) as [Hin|Hin].
        -- left. split; [by left|]. intros [[? Hs'] Hn]. congruence.
        -- right. left. split; [done|]. by intros [_ []].
      * destruct (cur !! p) as [f|] eqn:Hf.
        -- left. split; [right; eauto|]. by intros [_ [=]].
        -- right. right. split; [|done]. destruct (snapshot st !! p); [eauto|done].
    + intros _. by eexists.
  - apply poll_step_cases in Hs as [(_ & [=] & _)|[(_ & [=] & _)|(-> & -> & _)]]. by split; simpl.
Qed.

Lemma sorted_paths_elem s p : p ∈ sorted_paths s <-> p ∈ s.
Proof. unfold sorted_paths. by rewrite sort_by_key_perm, elem_of_elements. Qed.

Lemma sorted_paths_nodup s : NoDup (sorted_paths s).
Proof. unfold sorted_paths. rewrite sort_by_key_perm. apply NoDup_elements. Qed.

(** The polling watcher reports every difference.  A batch is emitted only
    on a scan that found nothing new; it covers every path whose state differs
    from what observers know, names each path once in sorted order, and its
    changed paths exist and its removed paths do not.  As long as such a
    difference is not reported, an unchanged scan at least [debounce] after the
    last change reports it. *)
Theorem poll_reports_differences (debounce : Z) (base : Snapshot) (st : PollState) (now : Z)
    (current : Snapshot) :
  poll_reach debounce base st ->
  (forall st' b, poll_step debounce st now current = (st', Some b) ->
     snapshot st' = current /\
     (forall p, current !! p <> base !! p -> p ∈ pb_changed b ++ pb_removed b) /\
     (forall p, p ∈ pb_changed b -> is_Some (current !! p)) /\
     (forall p, p ∈ pb_removed b -> current !! p = None) /\
     NoDup (pb_changed b ++ pb_removed b) /\
     StronglySorted (fun a b => key_leb (fun p => p) a b = true) (pb_changed b) /\
     StronglySorted (fun a b => key_leb (fun p => p) a b = true) (pb_removed b)) /\
  (current = snapshot st -> snapshot st <> base ->
   exists last, poll_last_change st = Some last /\
     (debounce <= saturating_duration_since now last ->
      exists st' b, poll_step debounce st now current = (st', Some b))).
Proof.
  intros Hr. pose proof (poll_reach_inv _ _ _ Hr) as [Hc Hrm Hcov Ht]. split.
  - intros st' b Hs.
    apply poll_step_cases in Hs as [(_ & [=] & _)|[(_ & [=] & _)|(-> & -> & [= ->])]]; simpl.
    split_and!; try apply sort_by_key_sorted; [done| | | |].
    + intros p Hp. rewrite elem_of_app, !sorted_paths_elem. auto.
    + intros p. rewrite sorted_paths_elem. auto.
    + intros p. rewrite sorted_paths_elem. auto.
    + apply NoDup_app. split_and!; [apply sorted_paths_nodup| |apply sorted_paths_nodup].
      intros p. rewrite !sorted_paths_elem. intros [f Hf]%Hc Hp%Hrm. congruence.
  - intros -> Hne.
    assert (pending_changed st ∪ pending_removed st <> ∅) as Hp.
    { intros He. apply Hne, map_eq. intros p. destruct (decide (snapshot st !! p = base !! p))
        as [|Hd%Hcov]; [done|]. rewrite <- elem_of_union, He in Hd. by apply elem_of_empty in Hd. }
    destruct (Ht Hp) as [last Hl]. exists last. split; [done|]. intros Hdeb.
    destruct (poll_step debounce st now (snapshot st)) as [st' out] eqn:Hs.
    destruct (poll_step_cases debounce st now (snapshot st) st' out Hs)
      as [(Hn & _)|[(_ & _ & _ & Hq)|(_ & _ & ->)]]; [done| |eauto].
    destruct (Hq last Hl Hdeb) as [H1 H2]. destruct Hp. by rewrite H1, H2, (left_id_L ∅ (∪)).
Qed.

Lemma poll_reports_differences_witness :
  let base := {["/a" := mkPollFile 1 2]} : Snapshot in
  let cur := {["/b" := mkPollFile 3 4]} : Snapshot in
  let st := (poll_step 200 (poll_init base) 10 cur).1 in
  exists st', poll_step 200 st 300 cur = (st', Some (mkPollBatch ["/b"] ["/a"] false)) /\
    (forall p, cur !! p <> base !! p -> p ∈ ["/b"; "/a"]).
Proof.
  intros base cur st. eexists. split; [vm_compute; reflexivity|].
  refine (proj1 (proj2 (proj1 (poll_reports_differences 200 base st 300 cur _) _
    (mkPollBatch ["/b"] ["/a"] false) _))); [|vm_compute; reflexivity].
  apply (poll_quiet _ base (poll_init base) 10 cur); [constructor|vm_compute; reflexivity].
Defined.
