(* ===== verification/Recovery.v ===== *)
(** * Deferred overflow recovery ([zccache-watcher/src/recovery.rs])

    The background task that re-scans the cache some time after a watcher
    overflow, or at once when a build arrives.  The task, the watcher and the
    build requests interleave; a step of one of them is a label, and
    [recovery_step] says when it can happen and what it does.

    [Notify] holds at most one permit: [notify_one] stores it, and a
    [notified] future completes by consuming it.  A timeout polls its future
    before the deadline, so an available permit wins against an elapsed delay. *)

From Stdlib Require Import Lia.
From S2P Require Import Prelude.

(** Where the task's loop is waiting. *)
Inductive RecoveryTask :=
| AwaitOverflow
| AwaitBuild (deadline : Z)
| Rescanning.

Record OverflowRecovery := mkRecovery {
  overflow : bool;
  build_trigger : bool;
  rec_pending : bool;
  delay : Z;
  task : RecoveryTask;
}.

Definition recovery_new (d : Z) : OverflowRecovery := mkRecovery false false false d AwaitOverflow.
Definition default_delay : OverflowRecovery := recovery_new (30 * 1000000000).

Definition is_pending (r : OverflowRecovery) : bool := rec_pending r.

Definition on_overflow (r : OverflowRecovery) : OverflowRecovery :=
  mkRecovery true (build_trigger r) true (delay r) (task r).

Definition on_build_event (r : OverflowRecovery) : OverflowRecovery :=
  if rec_pending r then mkRecovery (overflow r) true (rec_pending r) (delay r) (task r) else r.

Inductive RecoveryLabel :=
| SignalOverflow
| SignalBuild
| TaskScheduled (now : Z)
| TaskElapsed (now : Z)
| TaskTriggered
| TaskRescanned.

(** One step of the watcher, of a build request, or of [run] from one
    suspension point to the next; [None] when it cannot happen. *)
Definition recovery_step (r : OverflowRecovery) (l : RecoveryLabel) : option OverflowRecovery :=
  match l, task r with
  | SignalOverflow, _ => Some (on_overflow r)
  | SignalBuild, _ => Some (on_build_event r)
  | TaskScheduled now, AwaitOverflow =>
      if overflow r
      then Some (mkRecovery false (build_trigger r) (rec_pending r) (delay r) (AwaitBuild (now + delay r)))
      else None
  | TaskTriggered, AwaitBuild _ =>
      if build_trigger r
      then Some (mkRecovery (overflow r) false (rec_pending r) (delay r) Rescanning)
      else None
  | TaskElapsed now, AwaitBuild deadline =>
      if negb (build_trigger r) && (deadline <=? now)
      then Some (mkRecovery (overflow r) (build_trigger r) (rec_pending r) (delay r) Rescanning)
      else None
  | TaskRescanned, Rescanning =>
      Some (mkRecovery (overflow r) (build_trigger r) false (delay r) AwaitOverflow)
  | _, _ => None
  end.

Fixpoint recovery_run (r : OverflowRecovery) (ls : list RecoveryLabel) : option OverflowRecovery :=
  match ls with
  | [] => Some r
  | l :: ls' => r' ← recovery_step r l; recovery_run r' ls'
  end.

(** A re-scan begins. *)
Definition starts_rescan (l : RecoveryLabel) : bool :=
  match l with TaskElapsed _ | TaskTriggered => true | _ => false end.

(** ** No overflow is forgotten *)

(** Some re-scan is still to begin. *)
Definition rescan_due (r : OverflowRecovery) : Prop :=
  overflow r = true \/ exists deadline, task r = AwaitBuild deadline.

Lemma step_keeps_due r l r' :
  recovery_step r l = Some r' -> starts_rescan l = false -> rescan_due r -> rescan_due r'.
Proof.
  unfold recovery_step, rescan_due, on_overflow, on_build_event.
  destruct l; simpl; try done.
  - intros [= <-] _ _. by left.
  - intros [= <-] _. by destruct (rec_pending r).
  - destruct (task r); try done. destruct (overflow r); [|done]. intros [= <-] _ _. right. by eexists.
  - destruct (task r) as [|d|] eqn:Ht; try done. intros [= <-] _ [Ho|[d Hd]]; [by left|done].
Qed.

Lemma run_keeps_due r ls r' :
  recovery_run r ls = Some r' -> Forall (fun l => starts_rescan l = false) ls ->
  rescan_due r -> rescan_due r'.
Proof.
  revert r. induction ls as [|l ls IH]; intros r; simpl; [by intros [= <-]|].
  intros (r1 & Hs & Hr)%bind_Some [Hl Hls]%Forall_cons Hd.
  eapply IH; [done..|]. by eapply step_keeps_due.
Qed.

Lemma run_app r ls ks :
  recovery_run r (ls ++ ks) = r' ← recovery_run r ls; recovery_run r' ks.
Proof.
  revert r. induction ls as [|l ls IH]; intros r; simpl; [done|].
  destruct (recovery_step r l) as [r1|]; simpl; [apply IH|done].
Qed.

Lemma step_delay r l r' : recovery_step r l = Some r' -> delay r' = delay r.
Proof.
  unfold recovery_step, on_overflow, on_build_event.
  destruct l, (task r), (overflow r), (build_trigger r), (rec_pending r); simpl; repeat case_match;
    try done; by intros [= <-].
Qed.

Lemma run_delay r ls r' : recovery_run r ls = Some r' -> delay r' = delay r.
Proof.
  revert r. induction ls as [|l ls IH]; intros r; simpl; [by intros [= <-]|].
  intros (r1 & Hs & Hr)%bind_Some. rewrite (IH r1 Hr). by eapply step_delay.
Qed.

(** What the task still has to do before a re-scan begins, at time [now]. *)
Definition next_rescan (r : OverflowRecovery) (now : Z) : list RecoveryLabel :=
  let wake := if build_trigger r then TaskTriggered else TaskElapsed (now + delay r) in
  match task r with
  | Rescanning => [TaskRescanned; TaskScheduled now; wake]
  | AwaitOverflow => [TaskScheduled now; wake]
  | AwaitBuild deadline => [if build_trigger r then TaskTriggered else TaskElapsed deadline]
  end.

Lemma next_rescan_runs r now : rescan_due r -> is_Some (recovery_run r (next_rescan r now)).
Proof.
  intros Hd. unfold next_rescan, rescan_due in *. destruct r as [o b p d t]. simpl in *.
  assert ((now + d <=? now + d) = true) as Hle by lia.
  destruct t as [|dl|]; simpl.
  - destruct Hd as [->|[dl Hd]]; [|done]. simpl. destruct b; simpl; [eauto|]. rewrite Hle. simpl. eauto.
  - destruct b; simpl; [eauto|]. rewrite Z.leb_refl. simpl. eauto.
  - destruct Hd as [->|[dl Hd]]; [|done]. simpl. destruct b; simpl; [eauto|]. rewrite Hle. simpl. eauto.
Qed.

(** C37: every overflow is followed by a re-scan.  After any interleaving in which
    an overflow was signalled and no re-scan has begun since, the task can
    begin one in at most three of its own steps: finish a running re-scan, be
    woken by the stored signal, and wait for a build or for the delay counted
    from that wake-up. *)
Theorem overflow_is_rescanned (d now : Z) (before after : list RecoveryLabel) (r : OverflowRecovery) :
  recovery_run (recovery_new d) (before ++ SignalOverflow :: after) = Some r ->
  Forall (fun l => starts_rescan l = false) after ->
  is_Some (recovery_run r (next_rescan r now)) /\
  (length (next_rescan r now) <= 3)%nat /\
  exists l, last (next_rescan r now) = Some l /\ starts_rescan l = true.
Proof.
  rewrite run_app. intros (r1 & _ & Hrun)%bind_Some Hafter. cbn [recovery_run] in Hrun.
  apply bind_Some in Hrun as (r2 & [= <-] & Hrun).
  assert (rescan_due r) as Hd.
  { eapply run_keeps_due; [done..|]. by left. }
  split; [by apply next_rescan_runs|]. unfold next_rescan.
  destruct (task r), (build_trigger r); simpl; (split; [lia|]); by eexists.
Qed.

Lemma overflow_is_rescanned_witness :
  exists r,
    recovery_run (recovery_new 30)
      [SignalOverflow; TaskScheduled 0; TaskElapsed 30; SignalOverflow; TaskRescanned; SignalBuild]
      = Some r /\ is_Some (recovery_run r (next_rescan r 31)).
Proof.
  eexists. split; [reflexivity|].
  apply (overflow_is_rescanned 30 31 [SignalOverflow; TaskScheduled 0; TaskElapsed 30]
           [TaskRescanned; SignalBuild]); [reflexivity|].
  repeat constructor.
Defined.

(** A build can miss a pending overflow.  The task clears [pending] after a
    re-scan even when another overflow was signalled while it ran.  The re-scan
    of that overflow is still due, yet [is_pending] answers no, a build event
    does nothing, and once the task is woken at [t] the re-scan begins no
    earlier than the full delay after [t], and not through the build. *)
Theorem build_misses_second_overflow (d t0 t : Z) :
  exists r,
    recovery_run (recovery_new d)
      [SignalOverflow; TaskScheduled t0; TaskElapsed (t0 + d); SignalOverflow; TaskRescanned] = Some r /\
    rescan_due r /\ is_pending r = false /\ on_build_event r = r /\
    exists r', recovery_run r [SignalBuild; TaskScheduled t] = Some r' /\
      recovery_step r' TaskTriggered = None /\
      forall now, is_Some (recovery_step r' (TaskElapsed now)) <-> t + d <= now.
Proof.
  cbn. rewrite Z.leb_refl. cbn. eexists. split; [done|]. split; [by left|].
  split_and!; [done|done|]. eexists. split; [done|]. split; [done|]. intros now. cbn.
  destruct (Z.leb_spec (t + d) now); cbn; split; intros; eauto; [by destruct H0|lia].
Qed.
