(* ===== verification/RequestFingerprint.v ===== *)
(** * The request fingerprint ([zccache-hash/src/request_fingerprint.rs] and
      [request_fingerprint_cursor.rs])

    The bytes of a request key, handed out fragment by fragment by a resumable
    cursor.  The cursor's state machine is shown to spell out a plain list of
    fragments, lazily and without a lost or repeated one. *)

From S2P Require Import Prelude Path Hash.
From Stdlib Require Import Lia.

Inductive FpPhase :=
  | Tag | Compiler | CompilerEnd | Argument | ArgumentEnd | RawTag | RawArgument | RawEnd
  | Cwd | CwdEnd | EnvKey | EnvEquals | EnvValue | EnvEnd | Done.

Record Fingerprint := mkFp {
  fp_compiler : bytes;
  fp_arguments : list bytes;          (* what the iterator still holds *)
  fp_current : option bytes;
  fp_raw : list bytes;
  fp_raw_index : nat;
  fp_cwd : bytes;
  fp_env : list (bytes * bytes);
  fp_env_index : nat;
  fp_phase : FpPhase;
}.

Definition fp_new (compiler : bytes) (arguments raw : list bytes) (cwd : bytes)
    (env : list (bytes * bytes)) : Fingerprint :=
  mkFp compiler arguments None raw 0 cwd env 0 Tag.

Definition set_phase (p : FpPhase) (c : Fingerprint) : Fingerprint :=
  mkFp (fp_compiler c) (fp_arguments c) (fp_current c) (fp_raw c) (fp_raw_index c) (fp_cwd c)
    (fp_env c) (fp_env_index c) p.

Definition set_raw_index (i : nat) (c : Fingerprint) : Fingerprint :=
  mkFp (fp_compiler c) (fp_arguments c) (fp_current c) (fp_raw c) i (fp_cwd c)
    (fp_env c) (fp_env_index c) (fp_phase c).

(** One turn of the loop in [next_fragment]: go round again, return a fragment,
    return [None], or panic on an index out of range. *)
Inductive Turn := Again | Yield (fragment : bytes) | Exhausted | Panic.

Definition is_depfile_flag (a : bytes) : bool :=
  bool_decide (a = "-MD") || bool_decide (a = "-MMD").

Definition MF_STDOUT : bytes := "-MF-stdout" +:+ nul.

Definition fp_turn (c : Fingerprint) : Fingerprint * Turn :=
  match fp_phase c with
  | Tag => (set_phase Compiler c, Yield ("zccache-request-v2" +:+ nul))
  | Compiler => (set_phase CompilerEnd c, Yield (fp_compiler c))
  | CompilerEnd => (set_phase Argument c, Yield nul)
  | Argument =>
      match fp_arguments c with
      | a :: rest =>
          (mkFp (fp_compiler c) rest (Some a) (fp_raw c) (fp_raw_index c) (fp_cwd c)
             (fp_env c) (fp_env_index c) ArgumentEnd, Yield a)
      | [] =>
          (mkFp (fp_compiler c) [] None (fp_raw c) (fp_raw_index c) (fp_cwd c)
             (fp_env c) (fp_env_index c) RawTag, Again)
      end
  | ArgumentEnd => (set_phase Argument c, Yield nul)
  | RawTag =>
      if existsb is_depfile_flag (fp_raw c)
      then (set_phase RawArgument c, Yield ("user-depfile-raw-argv" +:+ nul))
      else (set_phase Cwd c, Again)
  | RawArgument =>
      match fp_raw c !! fp_raw_index c with
      | None => (set_phase Cwd c, Again)
      | Some arg =>
          let c := set_raw_index (S (fp_raw_index c)) c in
          if bool_decide (arg = "-MF") then
            let stdout := bool_decide (fp_raw c !! fp_raw_index c = Some "-") in
            let c := set_raw_index (S (fp_raw_index c)) c in
            if stdout then (c, Yield MF_STDOUT) else (c, Again)
          else if bool_decide (arg = "-MF-") then (c, Yield MF_STDOUT)
          else if negb (String.prefix "-MF" arg) then (set_phase RawEnd c, Yield arg)
          else (c, Again)
      end
  | RawEnd => (set_phase RawArgument c, Yield nul)
  | Cwd => (set_phase CwdEnd c, Yield (fp_cwd c))
  | CwdEnd => (set_phase EnvKey c, Yield nul)
  | EnvKey =>
      match fp_env c !! fp_env_index c with
      | Some (key, _) => (set_phase EnvEquals c, Yield key)
      | None => (set_phase Done c, Again)
      end
  | EnvEquals => (set_phase EnvValue c, Yield "=")
  | EnvValue =>
      match fp_env c !! fp_env_index c with
      | Some (_, value) => (set_phase EnvEnd c, Yield value)
      | None => (set_phase EnvEnd c, Panic)
      end
  | EnvEnd =>
      (mkFp (fp_compiler c) (fp_arguments c) (fp_current c) (fp_raw c) (fp_raw_index c)
         (fp_cwd c) (fp_env c) (S (fp_env_index c)) EnvKey, Yield nul)
  | Done => (c, Exhausted)
  end.

(** [None] for a panic or a loop that did not end within the fuel. *)
Fixpoint fp_loop (fuel : nat) (c : Fingerprint) : option (Fingerprint * option bytes) :=
  match fuel with
  | O => None
  | S fuel' =>
      match fp_turn c with
      | (c', Again) => fp_loop fuel' c'
      | (c', Yield f) => Some (c', Some f)
      | (c', Exhausted) => Some (c', None)
      | (_, Panic) => None
      end
  end.

(** A call goes round at most once per raw argument and four more times. *)
Definition next_fragment (c : Fingerprint) : option (Fingerprint * option bytes) :=
  fp_loop (length (fp_raw c) + 5) c.

Section emit.
Context {T E : Type} (emit : bytes -> SE T E unit).

(** [while let Some(fragment) = cursor.next_fragment() { emit(fragment)?; }],
    with the outer [None] as above; the cursor is returned as it was left. *)
Fixpoint emit_loop (fuel : nat) (c : Fingerprint) (s : T) : option ((E + unit) * T * Fingerprint) :=
  match fuel with
  | O => None
  | S fuel' =>
      match next_fragment c with
      | None => None
      | Some (c', None) => Some (inr tt, s, c')
      | Some (c', Some f) =>
          match emit f s with
          | (inl e, s') => Some (inl e, s', c')
          | (inr _, s') => emit_loop fuel' c' s'
          end
      end
  end.

Definition emit_fuel (arguments raw : list bytes) (env : list (bytes * bytes)) : nat :=
  (7 + 2 * length arguments + 2 * length raw + 4 * length env)%nat.

Definition emit_request_fingerprint (compiler : bytes) (arguments raw : list bytes) (cwd : bytes)
    (env : list (bytes * bytes)) (s : T) : option ((E + unit) * T * Fingerprint) :=
  emit_loop (emit_fuel arguments raw env) (fp_new compiler arguments raw cwd env) s.

(** Feeding a list of fragments to the sink up to its first error. *)
Fixpoint emit_all (fragments : list bytes) (s : T) : (E + unit) * T :=
  match fragments with
  | [] => (inr tt, s)
  | f :: fs => match emit f s with
               | (inl e, s') => (inl e, s')
               | (inr _, s') => emit_all fs s'
               end
  end.
End emit.

(** ** The byte protocol, as a list of fragments *)

Fixpoint raw_fragments (raw : list bytes) : list bytes :=
  match raw with
  | [] => []
  | a :: rest =>
      if bool_decide (a = "-MF") then
        match rest with
        | [] => []
        | v :: rest' => (if bool_decide (v = "-") then [MF_STDOUT] else []) ++ raw_fragments rest'
        end
      else if bool_decide (a = "-MF-") then MF_STDOUT :: raw_fragments rest
      else if String.prefix "-MF" a then raw_fragments rest
      else a :: nul :: raw_fragments rest
  end.

Definition field_fragments (l : list bytes) : list bytes := flat_map (fun a => [a; nul]) l.

Definition env_fragments (env : list (bytes * bytes)) : list bytes :=
  flat_map (fun '(k, v) => [k; "="; v; nul]) env.

Definition raw_section (raw : list bytes) : list bytes :=
  if existsb is_depfile_flag raw
  then ("user-depfile-raw-argv" +:+ nul) :: raw_fragments raw else [].

Definition fingerprint_fragments (compiler : bytes) (arguments raw : list bytes) (cwd : bytes)
    (env : list (bytes * bytes)) : list bytes :=
  ("zccache-request-v2" +:+ nul) :: field_fragments (compiler :: arguments) ++ raw_section raw
  ++ field_fragments [cwd] ++ env_fragments env.

(** The bytes of the key. *)
Definition fingerprint_bytes (compiler : bytes) (arguments raw : list bytes) (cwd : bytes)
    (env : list (bytes * bytes)) : bytes :=
  concat_bytes (fingerprint_fragments compiler arguments raw cwd env).

(** ** What a cursor still has to say *)

Definition remaining (c : Fingerprint) : list bytes :=
  let envs i := env_fragments (drop i (fp_env c)) in
  let cwd_on := fp_cwd c :: nul :: envs (fp_env_index c) in
  let raw_on := raw_fragments (drop (fp_raw_index c) (fp_raw c)) ++ cwd_on in
  let tag_on := if existsb is_depfile_flag (fp_raw c)
                then ("user-depfile-raw-argv" +:+ nul) :: raw_on else cwd_on in
  let args_on := field_fragments (fp_arguments c) ++ tag_on in
  let value := default "" (snd <$> (fp_env c !! fp_env_index c)) in
  match fp_phase c with
  | Tag => ("zccache-request-v2" +:+ nul) :: fp_compiler c :: nul :: args_on
  | Compiler => fp_compiler c :: nul :: args_on
  | CompilerEnd => nul :: args_on
  | Argument => args_on
  | ArgumentEnd => nul :: args_on
  | RawTag => tag_on
  | RawArgument => raw_on
  | RawEnd => nul :: raw_on
  | Cwd => cwd_on
  | CwdEnd => nul :: envs (fp_env_index c)
  | EnvKey => envs (fp_env_index c)
  | EnvEquals => "=" :: value :: nul :: envs (S (fp_env_index c))
  | EnvValue => value :: nul :: envs (S (fp_env_index c))
  | EnvEnd => nul :: envs (S (fp_env_index c))
  | Done => []
  end.

(** In the middle of an environment entry there is one. *)
Definition fp_wf (c : Fingerprint) : Prop :=
  match fp_phase c with
  | EnvEquals | EnvValue | EnvEnd => (fp_env_index c < length (fp_env c))%nat
  | _ => True
  end.

(** How often the loop can go round before it returns. *)
Definition fp_measure (c : Fingerprint) : nat :=
  match fp_phase c with
  | Argument => length (fp_raw c) + 4
  | RawTag => length (fp_raw c) + 3
  | RawArgument => (length (fp_raw c) - fp_raw_index c) + 2
  | EnvKey => 1
  | _ => 0
  end.

(** ** Lemmas *)

Lemma raw_fragments_step raw i a :
  raw !! i = Some a ->
  raw_fragments (drop i raw) =
    if bool_decide (a = "-MF") then
      (if bool_decide (raw !! S i = Some "-") then [MF_STDOUT] else [])
      ++ raw_fragments (drop (S (S i)) raw)
    else if bool_decide (a = "-MF-") then MF_STDOUT :: raw_fragments (drop (S i) raw)
    else if String.prefix "-MF" a then raw_fragments (drop (S i) raw)
    else a :: nul :: raw_fragments (drop (S i) raw).
Proof.
  intros Ha. rewrite (drop_S raw a i Ha). cbn [raw_fragments].
  case_bool_decide; [|done]. destruct (raw !! S i) as [v|] eqn:Hv.
  - rewrite (drop_S raw v (S i) Hv). f_equal. by repeat case_bool_decide; simplify_eq.
  - rewrite drop_ge by by apply lookup_ge_None. rewrite drop_ge; [done|].
    apply lookup_ge_None in Hv. lia.
Qed.

Lemma env_fragments_step (env : list (bytes * bytes)) i k v :
  env !! i = Some (k, v) ->
  env_fragments (drop i env) = k :: "=" :: v :: nul :: env_fragments (drop (S i) env).
Proof. intros H. by rewrite (drop_S env (k, v) i H). Qed.

(** The raw-argument turn. *)
Lemma fp_turn_raw c :
  fp_phase c = RawArgument ->
  let '(c', r) := fp_turn c in
  fp_wf c' /\ fp_raw c' = fp_raw c /\
  match r with
  | Again => remaining c' = remaining c /\ (fp_measure c' < fp_measure c)%nat
  | Yield f => remaining c = f :: remaining c'
  | _ => False
  end.
Proof.
  intros Hp. unfold fp_turn. rewrite Hp.
  destruct (fp_raw c !! fp_raw_index c) as [a|] eqn:Ha.
  - pose proof (lookup_lt_Some _ _ _ Ha) as Hlt.
    pose proof (raw_fragments_step _ _ _ Ha) as Hr.
    unfold remaining, fp_measure, fp_wf. rewrite Hp. simpl. rewrite Hr.
    repeat case_bool_decide; [..|destruct (String.prefix "-MF" a)]; simpl; rewrite ?Hp;
      split_and!; done || lia.
  - unfold remaining, fp_measure, fp_wf. rewrite Hp. simpl.
    rewrite (drop_ge (fp_raw c)) by by apply lookup_ge_None. split_and!; done || lia.
Qed.

Lemma fp_turn_spec c :
  fp_wf c ->
  let '(c', r) := fp_turn c in
  fp_wf c' /\ fp_raw c' = fp_raw c /\
  match r with
  | Again => remaining c' = remaining c /\ (fp_measure c' < fp_measure c)%nat
  | Yield f => remaining c = f :: remaining c'
  | Exhausted => remaining c = [] /\ c' = c
  | Panic => False
  end.
Proof.
  intros Hwf. destruct (fp_phase c) eqn:Hp; try (
    unfold fp_turn, remaining, fp_measure, fp_wf in *; rewrite Hp in *; simpl;
    rewrite ?Hp; done).
  - unfold fp_turn, remaining, fp_measure, fp_wf in *. rewrite Hp in *.
    destruct (fp_arguments c); simpl; split_and!; done || lia.
  - unfold fp_turn, remaining, fp_measure, fp_wf in *. rewrite Hp in *.
    destruct (existsb is_depfile_flag (fp_raw c)) eqn:He; simpl; rewrite ?He; split_and!; done || lia.
  - pose proof (fp_turn_raw c Hp) as H. destruct (fp_turn c) as [c' []]; naive_solver.
  - unfold fp_turn, remaining, fp_measure, fp_wf in *. rewrite Hp in *.
    destruct (fp_env c !! fp_env_index c) as [[k v]|] eqn:He; simpl.
    + rewrite He, (env_fragments_step _ _ _ _ He). split_and!; try done. by eapply lookup_lt_Some.
    + rewrite drop_ge by by apply lookup_ge_None. split_and!; done || lia.
  - unfold fp_turn, remaining, fp_measure, fp_wf in *. rewrite Hp in *.
    destruct (lookup_lt_is_Some_2 _ _ Hwf) as [[k v] He]. by rewrite He.
Qed.

Lemma fp_loop_spec fuel c :
  fp_wf c -> (fp_measure c < fuel)%nat ->
  exists c' r, fp_loop fuel c = Some (c', r) /\ fp_wf c' /\ fp_raw c' = fp_raw c /\
    match r with
    | Some f => remaining c = f :: remaining c'
    | None => remaining c = [] /\ remaining c' = []
    end.
Proof.
  revert c. induction fuel as [|fuel IH]; intros c Hwf Hm; [lia|]. cbn [fp_loop].
  pose proof (fp_turn_spec c Hwf) as Ht. destruct (fp_turn c) as [c' []].
  - destruct Ht as (Hwf' & Hraw & Hrem & Hlt).
    destruct (IH c' Hwf') as (c2 & r & -> & ? & ? & Hr); [lia|]. exists c2, r.
    rewrite <- Hraw, <- Hrem. done.
  - destruct Ht as (? & ? & ?). by eexists _, _.
  - destruct Ht as (? & ? & ? & ->). by eexists _, _.
  - by destruct Ht as (_ & _ & []).
Qed.

Lemma next_fragment_spec c :
  fp_wf c ->
  exists c' r, next_fragment c = Some (c', r) /\ fp_wf c' /\
    match r with
    | Some f => remaining c = f :: remaining c'
    | None => remaining c = [] /\ remaining c' = []
    end.
Proof.
  intros Hwf. destruct (fp_loop_spec (length (fp_raw c) + 5) c) as (c' & r & H & ? & _ & ?);
    [done| |by exists c', r].
  unfold fp_measure. destruct (fp_phase c); lia.
Qed.

Lemma emit_loop_spec {T E} (emit : bytes -> SE T E unit) fuel c s :
  fp_wf c -> (length (remaining c) < fuel)%nat ->
  exists c', emit_loop emit fuel c s = Some (emit_all emit (remaining c) s, c') /\ fp_wf c' /\
    match (emit_all emit (remaining c) s).1 with
    | inr _ => remaining c' = []
    | inl e => exists sent f s1, remaining c = sent ++ f :: remaining c' /\
                 emit_all emit sent s = (inr tt, s1) /\ (emit f s1).1 = inl e
    end.
Proof.
  revert c s. induction fuel as [|fuel IH]; intros c s Hwf Hl; [lia|]. cbn [emit_loop].
  destruct (next_fragment_spec c Hwf) as (c' & r & -> & Hwf' & Hr).
  destruct r as [f|]; [|destruct Hr as [-> ?]; simpl; eauto].
  rewrite Hr in *. simpl in *. destruct (emit f s) as [[e|u] s'] eqn:He.
  - exists c'. split_and!; [done..|]. exists [], f, s. by rewrite He.
  - destruct (IH c' s' Hwf') as (c2 & -> & Hwf2 & Hcase); [lia|]. exists c2. split_and!; [done..|].
    destruct (emit_all emit (remaining c') s').1 as [e|]; [|done].
    destruct Hcase as (sent & g & s1 & -> & Hsent & Hg). exists (f :: sent), g, s1.
    split_and!; [done| |done]. simpl. by rewrite He.
Qed.

Lemma remaining_new compiler args raw cwd env :
  remaining (fp_new compiler args raw cwd env) = fingerprint_fragments compiler args raw cwd env.
Proof.
  unfold remaining, fingerprint_fragments, raw_section, field_fragments. simpl. rewrite !drop_0.
  by destruct (existsb is_depfile_flag raw).
Qed.

Lemma flat_map_length_const {A B} (f : A -> list B) n l :
  (forall a, length (f a) = n) -> length (flat_map f l) = (n * length l)%nat.
Proof. intros H. induction l as [|a l IH]; simpl; [lia|]. rewrite length_app, H, IH. lia. Qed.

Lemma raw_fragments_length raw : (length (raw_fragments raw) <= 2 * length raw)%nat.
Proof.
  remember (length raw) as n eqn:Hn.
  assert (length raw <= n)%nat as Hle by lia. clear Hn. revert raw Hle.
  induction n as [|n IH]; intros [|a raw] Hle; simpl in *; try lia.
  repeat case_bool_decide.
  - destruct raw as [|v raw]; simpl in *; [lia|]. rewrite length_app.
    specialize (IH raw ltac:(lia)). case_bool_decide; simpl; lia.
  - specialize (IH raw ltac:(lia)). simpl. lia.
  - specialize (IH raw ltac:(lia)). destruct (String.prefix "-MF" a); simpl; lia.
Qed.

Lemma fingerprint_fragments_length compiler args raw cwd env :
  (length (fingerprint_fragments compiler args raw cwd env) < emit_fuel args raw env)%nat.
Proof.
  unfold fingerprint_fragments, emit_fuel, field_fragments, env_fragments. simpl.
  rewrite !length_app, (flat_map_length_const _ 2) by done. simpl.
  rewrite (flat_map_length_const _ 4) by by intros [].
  pose proof (raw_fragments_length raw). unfold raw_section.
  destruct (existsb _ _); simpl; lia.
Qed.

Lemma concat_field_fragments l : concat_bytes (field_fragments l) = nul_terminated l.
Proof.
  unfold field_fragments, nul_terminated. induction l as [|a l IH]; [done|].
  cbn [flat_map app fmap list_fmap concat_bytes]. by rewrite IH, string_app_assoc.
Qed.

Lemma concat_env_fragments env : concat_bytes (env_fragments env) = env_section env.
Proof.
  unfold env_fragments, env_section. induction env as [|[k v] env IH]; [done|].
  cbn [flat_map app fmap list_fmap concat_bytes]. rewrite IH. by rewrite !string_app_assoc.
Qed.

Lemma env_section_fields env :
  env_section env = nul_terminated ((fun '(k, v) => k +:+ "=" +:+ v) <$> env).
Proof.
  unfold env_section, nul_terminated. rewrite <- list_fmap_compose. f_equal.
  apply list_fmap_ext. intros _ [k v] _. simpl. by rewrite !string_app_assoc.
Qed.

Lemma nul_terminated_app l k : nul_terminated (l ++ k) = nul_terminated l +:+ nul_terminated k.
Proof. unfold nul_terminated. by rewrite fmap_app, concat_bytes_app. Qed.

(** A sequence of NUL-terminated fields is read back without ambiguity. *)
Lemma nul_terminated_inj l k :
  Forall (fun a => no_nul a = true) l -> Forall (fun a => no_nul a = true) k ->
  nul_terminated l = nul_terminated k -> l = k.
Proof.
  intros Hl. revert k. unfold nul_terminated.
  induction Hl as [|a l Ha Hl IH]; intros k Hk; destruct Hk as [|b k Hb Hk];
    cbn [fmap list_fmap concat_bytes]; rewrite ?string_app_assoc; intros Heq; [done|..].
  - by destruct b.
  - by destruct a.
  - apply nul_field_inv in Heq as [-> Heq]; [|done..]. f_equal. by apply IH.
Qed.

(** Environment names hold no equals sign. *)
Fixpoint no_equals (s : bytes) : bool :=
  match s with
  | EmptyString => true
  | String c s' => negb (bool_decide (c = "="%char)) && no_equals s'
  end.

Lemma key_value_inj a b v w :
  no_equals a = true -> no_equals b = true -> a +:+ "=" +:+ v = b +:+ "=" +:+ w -> a = b /\ v = w.
Proof.
  revert b. induction a as [|c a IH]; intros [|d b] Ha Hb Heq; simpl in *.
  - by injection Heq.
  - injection Heq as <- _. done.
  - injection Heq as -> _. done.
  - injection Heq as -> Heq. apply andb_prop in Ha as [_ Ha], Hb as [_ Hb].
    by destruct (IH _ Ha Hb Heq) as [-> ->].
Qed.

(** ** Properties *)

(** The cursor spells out the request key.  For every sink and every
    request, emission ends; the sink is fed exactly the fragments of the byte
    protocol in order, up to its first error, which is returned; on success the
    cursor is exhausted and stays so, and on an error it has not advanced past
    the fragment that failed, so no further argument was consumed. *)
Theorem emit_spells_fragments {T E : Type} (emit : bytes -> SE T E unit)
    (compiler : bytes) (args raw : list bytes) (cwd : bytes) (env : list (bytes * bytes)) (s : T) :
  let fragments := fingerprint_fragments compiler args raw cwd env in
  exists c', emit_request_fingerprint emit compiler args raw cwd env s =
      Some (emit_all emit fragments s, c') /\
    match (emit_all emit fragments s).1 with
    | inr _ => exists c2, next_fragment c' = Some (c2, None) /\ remaining c2 = []
    | inl e => exists sent f s1, fragments = sent ++ f :: remaining c' /\
                 emit_all emit sent s = (inr tt, s1) /\ (emit f s1).1 = inl e
    end.
Proof.
  intros fragments. unfold emit_request_fingerprint, fragments. rewrite <- remaining_new.
  destruct (emit_loop_spec emit (emit_fuel args raw env) (fp_new compiler args raw cwd env) s)
    as (c' & -> & Hwf & Hcase); [done|rewrite remaining_new; apply fingerprint_fragments_length|].
  exists c'. split; [done|]. destruct (emit_all _ _ s).1; [done|].
  destruct (next_fragment_spec c' Hwf) as (c2 & r & Hn & _ & Hr). rewrite Hcase in Hr.
  destruct r as [f|]; [done|]. exists c2. by destruct Hr.
Qed.

(** A request key identifies the request.  Two requests without user
    depfile flags and with the same number of selected environment entries that
    emit the same bytes have the same compiler, arguments in the same order,
    working directory and environment.  Fields hold no NUL byte and names no
    equals sign. *)
Theorem fingerprint_injective (compiler1 compiler2 cwd1 cwd2 : bytes)
    (args1 args2 raw1 raw2 : list bytes) (env1 env2 : list (bytes * bytes)) :
  existsb is_depfile_flag raw1 = false -> existsb is_depfile_flag raw2 = false ->
  length env1 = length env2 ->
  Forall (fun a => no_nul a = true) (compiler1 :: cwd1 :: args1) ->
  Forall (fun a => no_nul a = true) (compiler2 :: cwd2 :: args2) ->
  Forall (fun e => no_nul (e.1 +:+ "=" +:+ e.2) = true /\ no_equals e.1 = true) (env1 ++ env2) ->
  fingerprint_bytes compiler1 args1 raw1 cwd1 env1 =
    fingerprint_bytes compiler2 args2 raw2 cwd2 env2 ->
  compiler1 = compiler2 /\ args1 = args2 /\ cwd1 = cwd2 /\ env1 = env2.
Proof.
  intros Hr1 Hr2 Hlen Hf1 Hf2 [He1 He2]%Forall_app.
  assert (forall compiler args raw cwd env, existsb is_depfile_flag raw = false ->
    fingerprint_bytes compiler args raw cwd env = ("zccache-request-v2" +:+ nul) +:+
      nul_terminated (compiler :: args ++ [cwd] ++ ((fun '(k, v) => k +:+ "=" +:+ v) <$> env)))
    as Hbytes.
  { intros compiler args raw cwd env Hr. unfold fingerprint_bytes, fingerprint_fragments, raw_section.
    rewrite Hr. cbn [concat_bytes app]. f_equal.
    rewrite !concat_bytes_app, !concat_field_fragments, concat_env_fragments, env_section_fields.
    rewrite <- !nul_terminated_app. done. }
  rewrite !Hbytes by done. intros Heq. apply string_app_inv_len in Heq as [_ Heq]; [|done].
  assert (forall compiler args cwd env,
    Forall (fun a => no_nul a = true) (compiler :: cwd :: args) ->
    Forall (fun e => no_nul (e.1 +:+ "=" +:+ e.2) = true /\ no_equals e.1 = true) env ->
    Forall (fun a => no_nul a = true)
      (compiler :: args ++ [cwd] ++ ((fun '(k, v) => k +:+ "=" +:+ v) <$> env))) as Hwf.
  { intros compiler args cwd env [Hc [Hw Ha]%Forall_cons]%Forall_cons He.
    constructor; [done|]. apply Forall_app. split; [done|]. constructor; [done|].
    apply Forall_fmap. eapply Forall_impl; [done|]. by intros [k v] [? _]. }
  apply nul_terminated_inj in Heq; [|by apply Hwf..]. injection Heq as -> Heq.
  rewrite !(cons_middle _ args1), !(cons_middle _ args2), !app_assoc in Heq.
  apply app_inj_2 in Heq as [Heq Henv]; [|by rewrite !length_fmap].
  apply app_inj_2 in Heq as [-> [= ->]]; [|done]. split_and!; [done..|].
  clear -He1 He2 Henv. revert env2 He2 Henv. induction env1 as [|[k v] l IH];
    intros [|[k' v'] l'] He2 Henv; simplify_eq/=; [done|].
  apply Forall_cons in He1 as [[_ Hk] He1], He2 as [[_ Hk'] He2]. simpl in *.
  apply key_value_inj in H as [-> ->]; [|done..]. f_equal. by apply IH.
Qed.

Lemma fingerprint_injective_witness :
  fingerprint_bytes "cc" ["-c"; "a.c"] ["-c"; "/w/a.c"] "/w" [("LANG", "C")] =
    fingerprint_bytes "cc" ["-c"; "a.c"] ["-c"; "./a.c"] "/w" [("LANG", "C")] /\
  "cc" = "cc" /\ ["-c"; "a.c"] = ["-c"; "a.c"] /\ "/w" = "/w" /\ [("LANG", "C")] = [("LANG", "C")].
Proof.
  split; [vm_compute; reflexivity|].
  apply (fingerprint_injective "cc" "cc" "/w" "/w" ["-c"; "a.c"] ["-c"; "a.c"]
           ["-c"; "/w/a.c"] ["-c"; "./a.c"] [("LANG", "C")] [("LANG", "C")]);
    try (vm_compute; reflexivity); repeat constructor.
Defined.
