(* ===== verification/RustStr.v ===== *)
(** * Operations of Rust's [str]

    The standard library's string operations the sources use, on UTF-8 bytes. *)

From S2P Require Import Prelude.
From Stdlib Require Import Lia.

Fixpoint strip_prefix (prefix s : bytes) : option bytes :=
  match prefix, s with
  | EmptyString, _ => Some s
  | String c p', String d s' => if bool_decide (c = d) then strip_prefix p' s' else None
  | String _ _, EmptyString => None
  end.

Definition starts_with (prefix s : bytes) : bool :=
  match strip_prefix prefix s with Some _ => true | None => false end.

Fixpoint str_rev_app (s acc : bytes) : bytes :=
  match s with EmptyString => acc | String c s' => str_rev_app s' (String c acc) end.
Definition str_rev (s : bytes) : bytes := str_rev_app s "".

Definition ends_with (suffix s : bytes) : bool := starts_with (str_rev suffix) (str_rev s).

Definition strip_suffix (suffix s : bytes) : option bytes :=
  str_rev <$> strip_prefix (str_rev suffix) (str_rev s).

Definition to_ascii_lower (c : ascii) : ascii :=
  let v := byte_val c in
  if (65 <=? v) && (v <=? 90) then ascii_of_N (Z.to_N (v + 32)) else c.

Fixpoint to_ascii_lowercase (s : bytes) : bytes :=
  match s with
  | EmptyString => ""
  | String c s' => String (to_ascii_lower c) (to_ascii_lowercase s')
  end.

Definition eq_ignore_ascii_case (a b : bytes) : bool :=
  bool_decide (to_ascii_lowercase a = to_ascii_lowercase b).

(** [str::contains] for a string pattern. *)
Fixpoint str_contains (pat s : bytes) : bool :=
  starts_with pat s || match s with EmptyString => false | String _ s' => str_contains pat s' end.

(** [str::split(c)]: the pieces between occurrences of an ASCII character. *)
Fixpoint split_char (c : ascii) (s : bytes) : list bytes :=
  match s with
  | EmptyString => [""]
  | String d s' =>
      if bool_decide (d = c) then "" :: split_char c s'
      else match split_char c s' with
           | [] => [String d ""]
           | p :: ps => String d p :: ps
           end
  end.

(** [str::split_once(c)]. *)
Fixpoint split_once (c : ascii) (s : bytes) : option (bytes * bytes) :=
  match s with
  | EmptyString => None
  | String d s' =>
      if bool_decide (d = c) then Some ("", s')
      else '(a, b) ← split_once c s'; Some (String d a, b)
  end.

(** White space of Unicode, by its UTF-8 bytes: the length of the white-space
    character a string starts with, or zero. *)
Definition ws_ascii (v : Z) : bool := ((9 <=? v) && (v <=? 13)) || (v =? 32).
Definition ws2 (a b : Z) : bool := (a =? 0xC2) && ((b =? 0x85) || (b =? 0xA0)).
Definition ws3 (a b c : Z) : bool :=
  ((a =? 0xE1) && (b =? 0x9A) && (c =? 0x80)) ||
  ((a =? 0xE2) && (b =? 0x80) &&
     (((0x80 <=? c) && (c <=? 0x8A)) || (c =? 0xA8) || (c =? 0xA9) || (c =? 0xAF))) ||
  ((a =? 0xE2) && (b =? 0x81) && (c =? 0x9F)) ||
  ((a =? 0xE3) && (b =? 0x80) && (c =? 0x80)).

(** [fwd] says whether the bytes come in reading order or reversed. *)
Fixpoint trim_dir (fwd : bool) (fuel : nat) (s : bytes) : bytes :=
  match fuel, s with
  | S fuel', String a s1 =>
      let va := byte_val a in
      if ws_ascii va then trim_dir fwd fuel' s1
      else match s1 with
           | String b s2 =>
               let vb := byte_val b in
               if (if fwd then ws2 va vb else ws2 vb va) then trim_dir fwd fuel' s2
               else match s2 with
                    | String c s3 =>
                        let vc := byte_val c in
                        if (if fwd then ws3 va vb vc else ws3 vc vb va)
                        then trim_dir fwd fuel' s3 else s
                    | EmptyString => s
                    end
           | EmptyString => s
           end
  | _, _ => s
  end.

(** [str::trim]. *)
Definition str_trim (s : bytes) : bytes :=
  let s := trim_dir true (String.length s) s in
  str_rev (trim_dir false (String.length s) (str_rev s)).

(** ** UTF-8

    The first character of a byte string: whether it is well formed, and how
    many bytes it takes, or how many bytes of it can be read before the error
    (the standard library's decoder). *)
Definition byte_in (lo hi : Z) (o : option ascii) : bool :=
  match o with Some c => (lo <=? byte_val c) && (byte_val c <=? hi) | None => false end.
Definition utf8_cont (o : option ascii) : bool := byte_in 0x80 0xBF o.
Definition utf8_second (v : Z) (o : option ascii) : bool :=
  if v =? 0xE0 then byte_in 0xA0 0xBF o
  else if v =? 0xED then byte_in 0x80 0x9F o
  else if v =? 0xF0 then byte_in 0x90 0xBF o
  else if v =? 0xF4 then byte_in 0x80 0x8F o
  else utf8_cont o.

Definition utf8_first (s : bytes) : bool * nat :=
  match s with
  | EmptyString => (true, 0%nat)
  | String a _ =>
      let v := byte_val a in
      let at_ n := String.get n s in
      if v <? 0x80 then (true, 1%nat)
      else if (0xC2 <=? v) && (v <=? 0xDF) then if utf8_cont (at_ 1%nat) then (true, 2%nat) else (false, 1%nat)
      else if (0xE0 <=? v) && (v <=? 0xEF) then
        if negb (utf8_second v (at_ 1%nat)) then (false, 1%nat)
        else if utf8_cont (at_ 2%nat) then (true, 3%nat) else (false, 2%nat)
      else if (0xF0 <=? v) && (v <=? 0xF4) then
        if negb (utf8_second v (at_ 1%nat)) then (false, 1%nat)
        else if negb (utf8_cont (at_ 2%nat)) then (false, 2%nat)
        else if utf8_cont (at_ 3%nat) then (true, 4%nat) else (false, 3%nat)
      else (false, 1%nat)
  end.

(** [&s[n..]]. *)
Fixpoint str_skip (n : nat) (s : bytes) : bytes :=
  match n, s with
  | S n', String _ s' => str_skip n' s'
  | _, _ => s
  end.

(** [str::from_utf8(s).is_ok()]; the length is fuel enough. *)
Fixpoint utf8_valid (fuel : nat) (s : bytes) : bool :=
  match fuel, s with
  | _, EmptyString => true
  | O, _ => false
  | S fuel', _ => let '(ok, n) := utf8_first s in ok && utf8_valid fuel' (str_skip n s)
  end.
Definition from_utf8_ok (s : bytes) : bool := utf8_valid (String.length s) s.

(** [String::from_utf8_lossy]: the replacement character for every piece that
    cannot be read. *)
Definition REPLACEMENT : bytes :=
  String (ascii_of_nat 0xEF) (String (ascii_of_nat 0xBF) (String (ascii_of_nat 0xBD) "")).
Fixpoint utf8_lossy (fuel : nat) (s : bytes) : bytes :=
  match fuel, s with
  | _, EmptyString => ""
  | O, _ => s
  | S fuel', _ =>
      let '(ok, n) := utf8_first s in
      (if ok then String.substring 0 n s else REPLACEMENT) +:+ utf8_lossy fuel' (str_skip n s)
  end.
Definition from_utf8_lossy (s : bytes) : bytes := utf8_lossy (String.length s) s.

(** [str::trim_end]. *)
Definition trim_end (s : bytes) : bytes := str_rev (trim_dir false (String.length s) (str_rev s)).
Definition trim_start (s : bytes) : bytes := trim_dir true (String.length s) s.

(** ** Lemmas *)

Lemma strip_prefix_Some p s r : strip_prefix p s = Some r <-> s = p +:+ r.
Proof.
  revert s. induction p as [|c p IH]; intros s; simpl; [split; congruence|].
  destruct s as [|d s]; [done|]. case_bool_decide as Hc.
  - rewrite IH. split; [intros ->; by subst|congruence].
  - split; [done|congruence].
Qed.

Lemma starts_with_spec p s : starts_with p s = true <-> exists r, s = p +:+ r.
Proof.
  unfold starts_with. destruct (strip_prefix p s) as [r|] eqn:Hs.
  - apply strip_prefix_Some in Hs. split; eauto.
  - split; [done|]. intros [r Hr%strip_prefix_Some]. congruence.
Qed.

Lemma str_rev_app_spec s acc : str_rev_app s acc = str_rev s +:+ acc.
Proof.
  unfold str_rev. revert acc. induction s as [|c s IH]; intros acc; simpl; [done|].
  rewrite IH, (IH (String c "")), string_app_assoc. done.
Qed.

Lemma str_rev_cons c s : str_rev (String c s) = str_rev s +:+ String c "".
Proof. unfold str_rev at 1. simpl. apply str_rev_app_spec. Qed.

Lemma str_rev_append a b : str_rev (a +:+ b) = str_rev b +:+ str_rev a.
Proof.
  induction a as [|c a IH]; cbn [String.append]; [by rewrite string_app_nil_r|].
  by rewrite !str_rev_cons, IH, string_app_assoc.
Qed.

Lemma str_rev_involutive s : str_rev (str_rev s) = s.
Proof.
  induction s as [|c s IH]; [done|]. change (String c s) with (String c "" +:+ s).
  by rewrite !str_rev_append, IH.
Qed.

Lemma strip_suffix_Some x s a : strip_suffix x s = Some a <-> s = a +:+ x.
Proof.
  unfold strip_suffix. split.
  - destruct (strip_prefix (str_rev x) (str_rev s)) as [r|] eqn:Hr; [|done]. intros [= <-].
    apply strip_prefix_Some in Hr. apply (f_equal str_rev) in Hr.
    by rewrite str_rev_append, !str_rev_involutive in Hr.
  - intros ->. rewrite str_rev_append, (proj2 (strip_prefix_Some _ _ (str_rev a)) eq_refl). simpl.
    by rewrite str_rev_involutive.
Qed.

Lemma ends_with_spec x s : ends_with x s = true <-> exists a, s = a +:+ x.
Proof.
  unfold ends_with. rewrite starts_with_spec. split; intros [r Hr].
  - exists (str_rev r). apply (f_equal str_rev) in Hr. by rewrite str_rev_append, !str_rev_involutive in Hr.
  - exists (str_rev r). by rewrite Hr, str_rev_append.
Qed.

Lemma split_once_Some c s a b : split_once c s = Some (a, b) -> s = a +:+ String c b.
Proof.
  revert a. induction s as [|d s IH]; intros a; simpl; [done|]. case_bool_decide as Hd.
  - intros [= <- <-]. by subst.
  - destruct (split_once c s) as [[a' b']|]; simpl; [|done]. intros [= <- <-].
    simpl. by rewrite (IH a').
Qed.

Example trim_examples :
  str_trim "  bin " = "bin" /\ split_char "," "a,,b" = ["a"; ""; "b"] /\
  split_once "=" "k=v=w" = Some ("k", "v=w") /\ ends_with ".so" "libx.so" = true /\
  eq_ignore_ascii_case "Include" "INCLUDE" = true.
Proof. vm_compute. done. Qed.

Example utf8_examples :
  let e2 := ascii_of_nat 0xE2 in let x82 := ascii_of_nat 0x82 in
  from_utf8_lossy (String e2 (String x82 "a")) = REPLACEMENT +:+ "a" /\
  from_utf8_ok (String e2 (String x82 (String (ascii_of_nat 0xAC) ""))) = true /\
  from_utf8_ok (String (ascii_of_nat 0xC0) (String (ascii_of_nat 0x80) "")) = false.
Proof. vm_compute. done. Qed.
