(* ===== verification/KeyEnv.v ===== *)
(** * Which environment variables reach a cache key ([zccache-core/src/key_env.rs])

    The allow lists, the volatile and never-keyed lists, and the selections
    made from a client environment.  An environment is the list of pairs a
    client sends; of several values for one name the last one counts. *)

From S2P Require Import Prelude RustStr.
From Stdlib Require Import Lia.

Abbreviation EnvList := (list (bytes * bytes)).

Inductive CcEnvScope := Gnu | Msvc | AnyScope.

Definition GNU_CC_ENV_KEYED : list bytes :=
  ["CPATH"; "C_INCLUDE_PATH"; "CPLUS_INCLUDE_PATH"; "OBJC_INCLUDE_PATH"; "SDKROOT";
   "MACOSX_DEPLOYMENT_TARGET"; "IPHONEOS_DEPLOYMENT_TARGET"; "TVOS_DEPLOYMENT_TARGET";
   "WATCHOS_DEPLOYMENT_TARGET"; "XROS_DEPLOYMENT_TARGET"; "GCC_EXEC_PREFIX"; "COMPILER_PATH";
   "SOURCE_DATE_EPOCH"; "DEPENDENCIES_OUTPUT"; "SUNPRO_DEPENDENCIES"].
Definition MSVC_CC_ENV_KEYED : list bytes := ["CL"; "_CL_"; "INCLUDE"; "VSLANG"].
Definition LOCALE_ENV_KEYED : list bytes := ["LC_ALL"; "LC_MESSAGES"; "LANG"; "LANGUAGE"].
Definition RUSTC_ENV_KEYED : list bytes := ["RUSTC_BOOTSTRAP"].
Definition APPLE_ENV_KEYED : list bytes :=
  ["SDKROOT"; "MACOSX_DEPLOYMENT_TARGET"; "IPHONEOS_DEPLOYMENT_TARGET"; "TVOS_DEPLOYMENT_TARGET";
   "WATCHOS_DEPLOYMENT_TARGET"; "XROS_DEPLOYMENT_TARGET"].
Definition LINK_ENV_KEYED : list bytes :=
  ["LIBRARY_PATH"; "COMPILER_PATH"; "GCC_EXEC_PREFIX"; "LIB"; "LINK"; "_LINK_"].
Definition VOLATILE_CARGO_ENV_VARS : list bytes :=
  ["CARGO"; "CARGO_HOME"; "CARGO_MANIFEST_DIR"; "CARGO_MANIFEST_PATH"; "CARGO_TARGET_DIR"].
Definition REQUEST_CONTROL_ENV_KEYED : list bytes :=
  ["ZCCACHE_FAST"; "ZCCACHE_SCAN_SYSTEM_HEADERS"; "ZCCACHE_DYLINT_CACHE_INPUT_HASH"].
Definition NEVER_KEYED_EXACT : list bytes :=
  ["CI"; "TERM"; "MAKEFLAGS"; "CARGO_MAKEFLAGS"; "CARGO_INCREMENTAL"].
Definition NEVER_KEYED_PREFIXES : list bytes := ["GITHUB_"; "SOLDR_"; "CARGO_TERM_"].

(** [env.iter().rev().find_map(..)]: the value of the last entry that matches. *)
Definition last_match (hit : bytes -> bool) (env : EnvList) : option bytes :=
  snd <$> find (fun e => hit e.1) (rev env).

Definition collect (table : list bytes) (case_insensitive : bool) (env : EnvList) : EnvList :=
  omap (fun name =>
    (fun v => (name, v)) <$>
      last_match (fun k => if case_insensitive then eq_ignore_ascii_case k name
                           else bool_decide (k = name)) env) table.

(** An exact name wins over a differently cased one. *)
Definition link_value (env : EnvList) (name : bytes) : option bytes :=
  match last_match (fun k => bool_decide (k = name)) env with
  | Some v => Some v
  | None => last_match (fun k => eq_ignore_ascii_case k name) env
  end.

Definition collect_link_table (env : EnvList) : EnvList :=
  omap (fun name => (fun v => (name, v)) <$> link_value env name) LINK_ENV_KEYED.

Definition keyed_locale_env (env : EnvList) : EnvList := collect LOCALE_ENV_KEYED false env.

Definition keyed_cc_env (env : EnvList) (scope : CcEnvScope) : EnvList :=
  match scope with
  | Gnu => collect GNU_CC_ENV_KEYED false env
  | Msvc => collect MSVC_CC_ENV_KEYED true env
  | AnyScope => collect GNU_CC_ENV_KEYED false env ++ collect MSVC_CC_ENV_KEYED true env
  end.

(** [gcc_message_locale]. *)
Definition env_nonempty (env : EnvList) (name : bytes) : option bytes :=
  v ← last_match (fun k => bool_decide (k = name)) env;
  if bool_decide (v = "") then None else Some v.

Definition or_else {A} (a b : option A) : option A := match a with Some _ => a | None => b end.

Definition gcc_message_locale (env : EnvList) : option bytes :=
  locale ← or_else (env_nonempty env "LC_ALL")
             (or_else (env_nonempty env "LC_MESSAGES") (env_nonempty env "LANG"));
  let '(main, modifier) := default (locale, "") (split_once "@" locale) in
  let base := default main (head (split_char "." main)) in
  if bool_decide (base ∈ [""; "C"; "POSIX"]) then None
  else
    let language := env_nonempty env "LANGUAGE" in
    if bool_decide (language = None) && bool_decide (modifier = "")
       && bool_decide (base ∈ ["en"; "en_US"]) then None
    else Some (base +:+ "@" +:+ modifier +:+ "|" +:+ default "" language).

(** ** Classification of names *)

Definition is_volatile_cargo_env_var (key : bytes) : bool :=
  bool_decide (key ∈ VOLATILE_CARGO_ENV_VARS) ||
  match strip_prefix "CARGO_TARGET_" key with
  | Some target_key => ends_with "_LINKER" target_key
  | None => false
  end.

Definition is_never_keyed_env (name : bytes) : bool :=
  if bool_decide (name ∈ REQUEST_CONTROL_ENV_KEYED) then false
  else starts_with "ZCCACHE_" name || bool_decide (name ∈ NEVER_KEYED_EXACT)
       || existsb (fun p => starts_with p name) NEVER_KEYED_PREFIXES.

Definition is_conservatively_keyed_cargo_env (name : bytes) : bool :=
  starts_with "CARGO_" name && negb (is_never_keyed_env name)
  && negb (is_volatile_cargo_env_var name).

(** ** rustc *)

Record RustcEnvFacts := mkFacts {
  apple : bool;
  links : bool;
  may_read_env_untracked : bool;
}.

Definition is_dylib_path (path : bytes) : bool :=
  let lower := to_ascii_lowercase path in
  existsb (fun ext => ends_with ext lower) [".so"; ".dylib"; ".dll"].

Definition facts_from_parts (target : option bytes) (crate_types emit_types extern_paths : list bytes)
    (plain_rustc : bool) : RustcEnvFacts :=
  let is_apple := match target with None => true | Some t => str_contains "apple" t end in
  let output_links :=
    bool_decide (crate_types = []) ||
    existsb (fun t => bool_decide (str_trim t ∈ ["bin"; "dylib"; "cdylib"; "proc-macro"]))
      (flat_map (split_char ",") crate_types) in
  let emits_link := bool_decide (emit_types = []) || bool_decide ("link" ∈ emit_types) in
  mkFacts is_apple (output_links && emits_link)
    (negb plain_rustc || negb (bool_decide ("dep-info" ∈ emit_types))
     || existsb is_dylib_path extern_paths).

(** The part of a path after its last ['/'] or ['\']. *)
Fixpoint rsplit_last (acc s : bytes) : bytes :=
  match s with
  | EmptyString => str_rev acc
  | String c s' =>
      if bool_decide (c = "/"%char) || bool_decide (c = "\"%char) then rsplit_last "" s'
      else rsplit_last (String c acc) s'
  end.

Definition is_plain_rustc (compiler : bytes) : bool :=
  let base := rsplit_last "" compiler in
  bool_decide (default base (strip_suffix ".exe" base) = "rustc").

(** One pass over the arguments; [--emit] takes the next one as its value. *)
Fixpoint argv_emits_dep_info (args : list bytes) : bool :=
  let emits v := existsb (fun part => bool_decide (default part (head (split_char "=" part)) = "dep-info"))
                   (split_char "," v) in
  match args with
  | [] => false
  | a :: rest =>
      if bool_decide (a = "--emit") then
        match rest with
        | [] => false
        | v :: rest' => if emits v then true else argv_emits_dep_info rest'
        end
      else match strip_prefix "--emit=" a with
           | Some v => if emits v then true else argv_emits_dep_info rest
           | None => argv_emits_dep_info rest
           end
  end.

Definition argv_may_load_proc_macro (args : list bytes) : bool := existsb is_dylib_path args.

Definition keyed_rustc_env (env : EnvList) (facts : RustcEnvFacts) : EnvList :=
  collect RUSTC_ENV_KEYED false env
  ++ (if apple facts then collect APPLE_ENV_KEYED false env else [])
  ++ (if links facts then collect_link_table env else []).

Definition keyed_link_env (env : EnvList) : EnvList :=
  collect_link_table env ++ collect APPLE_ENV_KEYED false env.

Definition keyed_rustc_env_superset (env : EnvList) : EnvList :=
  keyed_rustc_env env (mkFacts true true false).

(** ** Lemmas *)

(** A selection by name keeps every answer. *)
Lemma tagged_omap_inj (f g : bytes -> option bytes) (table : list bytes) :
  omap (fun n => (fun v => (n, v)) <$> f n) table = omap (fun n => (fun v => (n, v)) <$> g n) table ->
  forall n, n ∈ table -> f n = g n.
Proof.
  intros Heq n Hn.
  assert (forall h : bytes -> option bytes, forall v,
    (n, v) ∈ omap (fun n => (fun v => (n, v)) <$> h n) table <-> h n = Some v) as Hmem.
  { intros h v. rewrite list_elem_of_omap. split.
    - intros (m & Hm & Hf). destruct (h m) as [w|] eqn:Hw; simplify_eq/=. done.
    - intros Hv. exists n. by rewrite Hv. }
  destruct (f n) as [v|] eqn:Hf.
  - symmetry. apply Hmem. rewrite <- Heq. by apply Hmem.
  - destruct (g n) as [v|] eqn:Hg; [|done]. apply Hmem in Hg. rewrite <- Heq in Hg.
    apply Hmem in Hg. congruence.
Qed.

Lemma tagged_omap_ext (f g : bytes -> option bytes) (table : list bytes) :
  (forall n, n ∈ table -> f n = g n) ->
  omap (fun n => (fun v => (n, v)) <$> f n) table = omap (fun n => (fun v => (n, v)) <$> g n) table.
Proof.
  intros H. apply list_omap_ext, Forall_Forall2_diag, Forall_forall. intros n Hn. by rewrite H.
Qed.

(** The value the superset selects for a name. *)
Definition superset_value (env : EnvList) (name : bytes) : option bytes :=
  if bool_decide (name ∈ LINK_ENV_KEYED) then link_value env name
  else last_match (fun k => bool_decide (k = name)) env.

Lemma superset_value_plain env n :
  n ∈ RUSTC_ENV_KEYED ++ APPLE_ENV_KEYED ->
  superset_value env n = last_match (fun k => bool_decide (k = n)) env.
Proof.
  intros Hn. unfold superset_value. rewrite bool_decide_eq_false_2; [done|].
  revert n Hn. apply Forall_forall. repeat constructor; compute_done.
Qed.

Lemma superset_value_link env n : n ∈ LINK_ENV_KEYED -> superset_value env n = link_value env n.
Proof. intros Hn. unfold superset_value. by rewrite bool_decide_eq_true_2. Qed.

(** Every selection is a table of names looked up with [superset_value]. *)
Lemma keyed_rustc_env_table env facts :
  keyed_rustc_env env facts =
    omap (fun n => (fun v => (n, v)) <$> superset_value env n)
      (RUSTC_ENV_KEYED ++ (if apple facts then APPLE_ENV_KEYED else [])
       ++ (if links facts then LINK_ENV_KEYED else [])).
Proof.
  unfold keyed_rustc_env. rewrite !omap_app. apply (f_equal2 app); [|apply (f_equal2 app)].
  - apply tagged_omap_ext. intros n Hn. rewrite superset_value_plain; [done|].
    apply elem_of_app. auto.
  - destruct (apple facts); [|done]. apply tagged_omap_ext. intros n Hn.
    rewrite superset_value_plain; [done|]. apply elem_of_app. auto.
  - destruct (links facts); [|done]. apply tagged_omap_ext. intros n Hn.
    by rewrite superset_value_link.
Qed.

Lemma tagged_omap_names (f : bytes -> option bytes) (table : list bytes) :
  (omap (fun n => (fun v => (n, v)) <$> f n) table).*1 `sublist_of` table.
Proof.
  induction table as [|n table IH]; simpl; [done|]. destruct (f n); simpl.
  - by apply sublist_skip.
  - by apply sublist_cons.
Qed.

(** If two environments agree on the superset of rustc variables, they agree on
    the selection for every set of facts about the invocation. *)
Lemma keyed_rustc_env_superset_covers env1 env2 facts :
  keyed_rustc_env_superset env1 = keyed_rustc_env_superset env2 ->
  keyed_rustc_env env1 facts = keyed_rustc_env env2 facts.
Proof.
  unfold keyed_rustc_env_superset. rewrite !keyed_rustc_env_table. intros Heq.
  apply tagged_omap_ext. intros n Hn. apply (tagged_omap_inj _ _ _ Heq).
  cbn [apple links]. rewrite !elem_of_app in Hn |- *.
  destruct (apple facts), (links facts); rewrite ?elem_of_nil in Hn; tauto.
Qed.

(** The selected names are names of the tables. *)
Lemma keyed_rustc_env_names env facts e :
  e ∈ keyed_rustc_env env facts -> e.1 ∈ RUSTC_ENV_KEYED ++ APPLE_ENV_KEYED ++ LINK_ENV_KEYED.
Proof.
  rewrite keyed_rustc_env_table. intros He.
  assert (e.1 ∈ (omap (fun n => (fun v => (n, v)) <$> superset_value env n)
    (RUSTC_ENV_KEYED ++ (if apple facts then APPLE_ENV_KEYED else [])
     ++ (if links facts then LINK_ENV_KEYED else []))).*1) as Hn
    by (apply list_elem_of_fmap; eauto).
  eapply sublist_subseteq in Hn; [|apply tagged_omap_names].
  rewrite !elem_of_app in Hn |- *.
  destruct (apple facts), (links facts); rewrite ?elem_of_nil in Hn; tauto.
Qed.
