(* ===== verification/ContextKeys.v ===== *)
(** * Context and artifact keys ([zccache-depgraph/src/context/])

    The context key of a C/C++ or rustc compilation, the artifact keys built
    on top of it, and the helpers that make paths and flags relocatable.  A key
    is the blake3 digest of a preimage; the model keeps the preimage visible. *)

From S2P Require Import Prelude Path Hash RustStr KeyEnv RequestFingerprint.
From Stdlib Require Import Lia.

Abbreviation ContextKey := string (only parsing).
Abbreviation ArtifactKey := string (only parsing).

Definition DYLINT_CACHE_INPUT_HASH_ENV : bytes := "ZCCACHE_DYLINT_CACHE_INPUT_HASH".

(** [Vec<String>::sort] and [Vec<(String, String)>::sort]. *)
Definition sort_strings (l : list bytes) : list bytes := sort_by_key (fun s => s) l.

Definition pair_leb (a b : bytes * bytes) : bool :=
  match String.compare a.1 b.1 with Lt => true | Gt => false | Eq => String.leb a.2 b.2 end.
Definition sort_pairs (l : list (bytes * bytes)) : list (bytes * bytes) := sort_by pair_leb l.

(** ** Native CPU flags ([native_cpu.rs]) *)

Definition host_cpu_identity_salt_from {B3 : Blake3} (identity : bytes) : bytes :=
  hex_encode (blake3 (("zccache-native-cpu-host-v1" +:+ nul) +:+ identity)).

Definition is_cxx_native_cpu_flag (flag : bytes) : bool :=
  bool_decide (flag ∈ ["-march=native"; "-mtune=native"; "-mcpu=native"]).
Definition is_rustc_native_cpu_flag (flag : bytes) : bool :=
  bool_decide (flag ∈ ["target-cpu=native"; "target-feature=native"]).

(** ** Paths and flags in keys *)

Definition extern_path_key (path : bytes) : bytes := default path (file_name path).

Definition normalize_key_path (path : bytes) (key_root : option bytes) : bytes :=
  match key_root with
  | Some root =>
      match path_strip_prefix path root with
      | Some stripped => normalize_for_key stripped
      | None => normalize_for_key path
      end
  | None => normalize_for_key path
  end.

Definition normalize_remap_path_prefix_for_key (remap : bytes) (key_root : option bytes) : bytes :=
  match key_root with
  | None => remap
  | Some root =>
      match split_once "=" remap with
      | None => remap
      | Some (from, to) =>
          match path_strip_prefix from root with
          | Some _ => normalize_key_path from key_root +:+ "=" +:+ to
          | None => remap
          end
      end
  end.

Definition PREFIX_MAP_FLAGS : list bytes :=
  ["-ffile-prefix-map="; "-fdebug-prefix-map="; "-fmacro-prefix-map="; "-fcoverage-prefix-map=";
   "-fprofile-prefix-map="].

Fixpoint prefix_map_flag (prefixes : list bytes) (flag : bytes) (key_root : option bytes) : bytes :=
  match prefixes with
  | [] => flag
  | prefix :: rest =>
      match strip_prefix prefix flag with
      | Some remap => prefix +:+ normalize_remap_path_prefix_for_key remap key_root
      | None => prefix_map_flag rest flag key_root
      end
  end.

Definition normalize_cxx_prefix_map_flag_for_key (flag : bytes) (key_root : option bytes) : bytes :=
  prefix_map_flag PREFIX_MAP_FLAGS flag key_root.

(** ** The C/C++ context *)

Record IncludeSearchPaths := mkSearch {
  iquote : list NormalizedPath;
  user : list NormalizedPath;
  system : list NormalizedPath;
  after : list NormalizedPath;
}.

Record CompileContext := mkContext {
  cc_source_file : NormalizedPath;
  include_search : IncludeSearchPaths;
  cc_defines : list bytes;
  cc_undefines : list bytes;
  cc_flags : list bytes;
  force_includes : list NormalizedPath;
  cc_unknown_flags : list bytes;
  cc_compiler_hash : ContentHash;
}.

(** ** The parsed command line ([args.rs]) *)

Record UserDepFlags := mkDepFlags {
  has_md : bool;
  has_mmd : bool;
  mf_path : option NormalizedPath;
  depfile_to_stdout : bool;
}.

Record ParsedArgs := mkParsed {
  pa_source_file : NormalizedPath;
  pa_output_file : option NormalizedPath;
  pa_include_search : IncludeSearchPaths;
  pa_defines : list bytes;
  pa_undefines : list bytes;
  pa_flags : list bytes;
  pa_force_includes : list NormalizedPath;
  pa_compiler : option NormalizedPath;
  pa_dep_flags : UserDepFlags;
  pa_unknown_flags : list bytes;
}.

Definition cc_from_parsed_args (args : ParsedArgs) (compiler_hash : ContentHash) : CompileContext :=
  mkContext (pa_source_file args) (pa_include_search args) (sort_strings (pa_defines args))
    (sort_strings (pa_undefines args)) (sort_strings (pa_flags args)) (pa_force_includes args)
    (sort_strings (pa_unknown_flags args)) compiler_hash.

(** A tag and a run of NUL-terminated fields. *)
Definition section (tag : bytes) (fields : list bytes) : bytes :=
  (tag +:+ nul) +:+ nul_terminated fields.

Section context_key.
Context {B3 : Blake3} (host_salt : bytes).

(** The native-CPU section, present when a flag asks for the host's CPU. *)
Definition native_section (native : bool) (native_cpu_salt : option bytes) : bytes :=
  if native then ("native-cpu-host" +:+ nul) +:+ default host_salt native_cpu_salt +:+ nul else "".

Definition context_preimage (ctx : CompileContext) (key_root worktree_salt native_cpu_salt : option bytes)
    (norm : bytes -> option bytes -> bytes) : bytes :=
  let path p := norm p key_root in
  let flag f := normalize_cxx_prefix_map_flag_for_key f key_root in
  ("zccache-context-key-v1" +:+ nul)
  +:+ ("compiler" +:+ nul) +:+ cc_compiler_hash ctx +:+ nul
  +:+ native_section (existsb is_cxx_native_cpu_flag (cc_flags ctx ++ cc_unknown_flags ctx))
        native_cpu_salt
  +:+ match worktree_salt with
      | Some salt => ("worktree-salt" +:+ nul) +:+ normalize_for_key salt +:+ nul
      | None => ""
      end
  +:+ path (cc_source_file ctx) +:+ nul
  +:+ section "iquote" (path <$> iquote (include_search ctx))
  +:+ section "user" (path <$> user (include_search ctx))
  +:+ section "system" (path <$> system (include_search ctx))
  +:+ section "after" (path <$> after (include_search ctx))
  +:+ section "defines" (cc_defines ctx)
  +:+ section "undefines" (cc_undefines ctx)
  +:+ section "flags" (flag <$> cc_flags ctx)
  +:+ section "force-include" (path <$> force_includes ctx)
  +:+ section "unknown" (flag <$> cc_unknown_flags ctx).

Definition compute_context_key_with_native_cpu_salt (ctx : CompileContext)
    (key_root worktree_salt native_cpu_salt : option bytes) (norm : bytes -> option bytes -> bytes) :
    ContextKey :=
  blake3 (context_preimage ctx key_root worktree_salt native_cpu_salt norm).

Definition compute_context_key_with (ctx : CompileContext) (key_root worktree_salt : option bytes)
    (norm : bytes -> option bytes -> bytes) : ContextKey :=
  compute_context_key_with_native_cpu_salt ctx key_root worktree_salt None norm.

Definition compute_context_key (ctx : CompileContext) (key_root worktree_salt : option bytes) :
    ContextKey :=
  compute_context_key_with_native_cpu_salt ctx key_root worktree_salt None normalize_key_path.

Definition cc_context_key (ctx : CompileContext) : ContextKey := compute_context_key ctx None None.
End context_key.

(** ** The rustc context *)

Record RustcCompileContext := mkRustc {
  rs_source_file : NormalizedPath;
  crate_name : option bytes;
  crate_types : list bytes;
  edition : option bytes;
  emit_types : list bytes;
  cfgs : list bytes;
  check_cfgs : list bytes;
  codegen_flags : list bytes;
  cargo_metadata : option bytes;
  extra_filename : option bytes;
  target : option bytes;
  cap_lints : option bytes;
  extern_crates : list (bytes * bytes);
  lint_flags : list bytes;
  rs_unknown_flags : list bytes;
  remap_path_prefixes : list bytes;
  env_vars : list (bytes * bytes);
  rs_compiler_hash : ContentHash;
}.

(** The fields of [RustcParsedArgs] that reach a context. *)
Record RustcParsedArgs := mkRustcParsed {
  ra_source_file : NormalizedPath;
  ra_crate_name : option bytes;
  ra_crate_types : list bytes;
  ra_edition : option bytes;
  ra_emit_types : list bytes;
  ra_cfgs : list bytes;
  ra_check_cfgs : list bytes;
  ra_codegen_flags : list bytes;
  ra_target : option bytes;
  ra_cap_lints : option bytes;
  ra_externs : list (bytes * bytes);
  ra_lint_flags : list bytes;
  ra_unknown_flags : list bytes;
  ra_extra_filename : option bytes;
  ra_cargo_metadata : option bytes;
  ra_remap_path_prefixes : list bytes;
}.

Definition rustc_env_vars (args : RustcParsedArgs) (client_env : EnvList) (plain_rustc : bool) :
    EnvList :=
  let facts := facts_from_parts (ra_target args) (ra_crate_types args) (ra_emit_types args)
                 (ra_externs args).*2 plain_rustc in
  sort_pairs (keyed_rustc_env client_env facts
    ++ (if may_read_env_untracked facts
        then filter (fun e => is_conservatively_keyed_cargo_env e.1 = true) client_env else [])).

Definition from_parsed_args_with_driver (args : RustcParsedArgs) (client_env : EnvList)
    (compiler_hash : ContentHash) (plain_rustc : bool) : RustcCompileContext :=
  {| rs_source_file := ra_source_file args; crate_name := ra_crate_name args;
     crate_types := sort_strings (ra_crate_types args); edition := ra_edition args;
     emit_types := sort_strings (ra_emit_types args); cfgs := ra_cfgs args;
     check_cfgs := ra_check_cfgs args; codegen_flags := ra_codegen_flags args;
     cargo_metadata := ra_cargo_metadata args; extra_filename := ra_extra_filename args;
     target := ra_target args; cap_lints := ra_cap_lints args;
     extern_crates := sort_pairs (ra_externs args); lint_flags := ra_lint_flags args;
     rs_unknown_flags := ra_unknown_flags args;
     remap_path_prefixes := sort_strings (ra_remap_path_prefixes args);
     env_vars := rustc_env_vars args client_env plain_rustc;
     rs_compiler_hash := compiler_hash |}.

Definition rustc_from_parsed_args (args : RustcParsedArgs) (client_env : EnvList)
    (compiler_hash : ContentHash) : RustcCompileContext :=
  from_parsed_args_with_driver args client_env compiler_hash true.

(** A section that is left out when the option is not given. *)
Definition opt_section (tag : bytes) (value : option bytes) : bytes :=
  match value with Some v => (tag +:+ nul) +:+ v +:+ nul | None => "" end.

Definition keyed_env_entry (e : bytes * bytes) : bool :=
  negb (is_volatile_cargo_env_var e.1 || bool_decide (e.1 = DYLINT_CACHE_INPUT_HASH_ENV)
        || is_never_keyed_env e.1).

Definition key_values (l : list (bytes * bytes)) : list bytes :=
  (fun '(k, v) => k +:+ "=" +:+ v) <$> l.

Definition remaps_for_key (remaps : list bytes) (key_root : option bytes) : list bytes :=
  match key_root with
  | Some _ => sort_strings ((fun r => normalize_remap_path_prefix_for_key r key_root) <$> remaps)
  | None => remaps
  end.

Definition normalized_check_metadata_emit (emits : list bytes) : option (list bytes) :=
  let has s := bool_decide (s ∈ emits) in
  match length emits with
  | 1%nat => if has "metadata" then Some ["metadata"] else None
  | 2%nat => if has "metadata" && has "link" then Some ["metadata"]
             else if has "dep-info" && has "metadata" then Some ["dep-info"; "metadata"] else None
  | 3%nat => if has "dep-info" && has "metadata" && has "link" then Some ["dep-info"; "metadata"]
             else None
  | _ => None
  end.

Section rustc_key.
Context {B3 : Blake3} (host_salt : bytes).

(** The sections both rustc keys share, around their own [emit] and [extern]
    fields and the output-placement fields [placement]. *)
Definition rustc_sections (ctx : RustcCompileContext) (key_root native_cpu_salt : option bytes)
    (emits : list bytes) (placement : bytes) (externs : list bytes) : bytes :=
  ("compiler" +:+ nul) +:+ rs_compiler_hash ctx +:+ nul
  +:+ native_section host_salt (existsb is_rustc_native_cpu_flag (codegen_flags ctx)) native_cpu_salt
  +:+ normalize_key_path (rs_source_file ctx) key_root +:+ nul
  +:+ opt_section "crate-name" (crate_name ctx)
  +:+ section "crate-types" (crate_types ctx)
  +:+ opt_section "edition" (edition ctx)
  +:+ section "emit" emits
  +:+ section "cfg" (cfgs ctx)
  +:+ section "check-cfg" (check_cfgs ctx)
  +:+ section "codegen" (codegen_flags ctx)
  +:+ placement
  +:+ opt_section "target" (target ctx)
  +:+ opt_section "cap-lints" (cap_lints ctx)
  +:+ section "externs" externs
  +:+ section "lints" (lint_flags ctx)
  +:+ section "unknown" (rs_unknown_flags ctx)
  +:+ section "remap" (remaps_for_key (remap_path_prefixes ctx) key_root)
  +:+ section "env" (key_values (filter (fun e => keyed_env_entry e = true) (env_vars ctx))).

Definition rustc_context_preimage (ctx : RustcCompileContext) (key_root native_cpu_salt : option bytes) :
    bytes :=
  ("zccache-rustc-context-key-v4" +:+ nul)
  +:+ rustc_sections ctx key_root native_cpu_salt (emit_types ctx)
        (opt_section "cargo-metadata" (cargo_metadata ctx)
         +:+ opt_section "extra-filename" (extra_filename ctx))
        ((fun '(name, path) => name +:+ "=" +:+ extern_path_key path) <$> extern_crates ctx).

Definition context_key_with_root_and_native_cpu_salt (ctx : RustcCompileContext)
    (key_root native_cpu_salt : option bytes) : ContextKey :=
  blake3 (rustc_context_preimage ctx key_root native_cpu_salt).

Definition context_key_with_root (ctx : RustcCompileContext) (key_root : option bytes) : ContextKey :=
  context_key_with_root_and_native_cpu_salt ctx key_root None.

Definition rustc_context_key (ctx : RustcCompileContext) : ContextKey :=
  context_key_with_root_and_native_cpu_salt ctx None None.

Definition check_metadata_compat_key_with_root_and_native_cpu_salt (ctx : RustcCompileContext)
    (key_root native_cpu_salt : option bytes) : option ContextKey :=
  emits ← normalized_check_metadata_emit (emit_types ctx);
  if existsb (fun ct => bool_decide (ct ∈ ["bin"; "proc-macro"; "staticlib"; "dylib"; "cdylib"]))
       (crate_types ctx) then None
  else Some (blake3 (("zccache-rustc-check-metadata-compat-key-v1" +:+ nul)
                     +:+ rustc_sections ctx key_root native_cpu_salt emits "" (extern_crates ctx).*1)).

Definition check_metadata_compat_key_with_root (ctx : RustcCompileContext) (key_root : option bytes) :
    option ContextKey :=
  check_metadata_compat_key_with_root_and_native_cpu_salt ctx key_root None.
End rustc_key.

(** ** Artifact keys *)

Section artifact_key.
Context {B3 : Blake3}.

Definition artifact_preimage (tag : bytes) (context_key : ContextKey)
    (indexed : list (bytes * ContentHash)) : bytes :=
  (tag +:+ nul) +:+ context_key +:+ nul +:+ hash_section (sort_by_key fst indexed).

(** The write side: paths are normalised by a closure. *)
Definition compute_artifact_key_with (context_key : ContextKey)
    (file_hashes : list (bytes * ContentHash)) (key_root : option bytes)
    (norm : bytes -> option bytes -> bytes) : ArtifactKey :=
  blake3 (artifact_preimage "zccache-artifact-key-v1" context_key
            ((fun '(p, h) => (norm p key_root, h)) <$> file_hashes)).

Definition compute_artifact_key (context_key : ContextKey)
    (file_hashes : list (bytes * ContentHash)) (key_root : option bytes) : ArtifactKey :=
  compute_artifact_key_with context_key file_hashes key_root normalize_key_path.

(** The read side: a normalised path outside the root is its own key. *)
Definition compute_artifact_key_normalized_with_root (context_key : ContextKey)
    (file_hashes : list (NormalizedPath * ContentHash)) (key_root : option bytes) : ArtifactKey :=
  blake3 (artifact_preimage "zccache-artifact-key-v1" context_key
            ((fun '(np, h) =>
                (match key_root with
                 | Some root => if path_starts_with np root then normalize_key_path np (Some root)
                                else case_key np
                 | None => case_key np
                 end, h)) <$> file_hashes)).

Definition compute_artifact_key_normalized_inplace (context_key : ContextKey)
    (file_hashes : list (NormalizedPath * ContentHash)) : ArtifactKey :=
  compute_artifact_key_normalized_with_root context_key file_hashes None.

Definition rustc_artifact_preimage (context_key : ContextKey)
    (indexed extern_hashes : list (bytes * ContentHash)) : bytes :=
  artifact_preimage "zccache-rustc-artifact-key-v1" context_key indexed
  +:+ ("externs" +:+ nul) +:+ hash_section (sort_by_key fst extern_hashes).

Definition compute_rustc_artifact_key_with_root_with (context_key : ContextKey)
    (file_hashes extern_hashes : list (bytes * ContentHash)) (key_root : option bytes)
    (norm : bytes -> option bytes -> bytes) : ArtifactKey :=
  blake3 (rustc_artifact_preimage context_key
            ((fun '(p, h) => (norm p key_root, h)) <$> file_hashes) extern_hashes).

Definition compute_rustc_artifact_key_with_root (context_key : ContextKey)
    (file_hashes extern_hashes : list (bytes * ContentHash)) (key_root : option bytes) : ArtifactKey :=
  compute_rustc_artifact_key_with_root_with context_key file_hashes extern_hashes key_root
    normalize_key_path.

Definition compute_rustc_artifact_key (context_key : ContextKey)
    (file_hashes extern_hashes : list (bytes * ContentHash)) : ArtifactKey :=
  compute_rustc_artifact_key_with_root context_key file_hashes extern_hashes None.

Definition compute_rustc_verdict_key (artifact_key_hex : bytes) (dylint_input_hash : option bytes) :
    ArtifactKey :=
  blake3 (("zccache-rustc-verdict-key-v1" +:+ nul) +:+ artifact_key_hex +:+ (nul +:+ "mode" +:+ nul)
          +:+ match dylint_input_hash with
              | Some h => ("dylint" +:+ nul) +:+ h
              | None => "plain"
              end).

Definition env_dep_value (h : option ContentHash) : bytes := default "unset" h.

Definition fold_preimage (base : ArtifactKey) (env_hashes : list (bytes * option ContentHash)) : bytes :=
  ("zccache-rustc-env-deps-v1" +:+ nul) +:+ base +:+ nul
  +:+ concat_bytes ((fun '(n, h) => n +:+ nul +:+ env_dep_value h +:+ nul)
                      <$> sort_by_key fst env_hashes).

Definition fold_rustc_env_deps_into_artifact_key (base : ArtifactKey)
    (env_hashes : list (bytes * option ContentHash)) : ArtifactKey :=
  if bool_decide (env_hashes = []) then base else blake3 (fold_preimage base env_hashes).
End artifact_key.

(** ** Lemmas *)

Lemma section_fields tag fields : section tag fields = nul_terminated (tag :: fields).
Proof. unfold section, nul_terminated. simpl. by rewrite !string_app_assoc. Qed.

Lemma nul_terminated_cons a l : nul_terminated (a :: l) = a +:+ nul +:+ nul_terminated l.
Proof. unfold nul_terminated. cbn [fmap list_fmap concat_bytes]. by rewrite string_app_assoc. Qed.

(** Lists of lists of one shape are determined by their concatenation. *)
Lemma concat_inj_shape {A} (l k : list (list A)) :
  length <$> l = length <$> k -> concat l = concat k -> l = k.
Proof.
  revert k. induction l as [|x l IH]; intros [|y k] Hs Hc; simplify_eq/=; [done|].
  apply app_inj_1 in Hc as [-> Hc]; [|congruence]. f_equal. by apply IH.
Qed.

(** The fields of a C/C++ preimage after the compiler hash, section by section. *)
Definition context_fields (host_salt : bytes) (ctx : CompileContext)
    (key_root worktree_salt native_cpu_salt : option bytes) (norm : bytes -> option bytes -> bytes) :
    list (list bytes) :=
  let path p := norm p key_root in
  let flag f := normalize_cxx_prefix_map_flag_for_key f key_root in
  [ (if existsb is_cxx_native_cpu_flag (cc_flags ctx ++ cc_unknown_flags ctx)
     then ["native-cpu-host"; default host_salt native_cpu_salt] else []);
    (match worktree_salt with Some s => ["worktree-salt"; normalize_for_key s] | None => [] end);
    [path (cc_source_file ctx)];
    "iquote" :: (path <$> iquote (include_search ctx));
    "user" :: (path <$> user (include_search ctx));
    "system" :: (path <$> system (include_search ctx));
    "after" :: (path <$> after (include_search ctx));
    "defines" :: cc_defines ctx;
    "undefines" :: cc_undefines ctx;
    "flags" :: (flag <$> cc_flags ctx);
    "force-include" :: (path <$> force_includes ctx);
    "unknown" :: (flag <$> cc_unknown_flags ctx) ].

Lemma context_preimage_fields host_salt ctx key_root ws ns norm :
  context_preimage host_salt ctx key_root ws ns norm =
    (("zccache-context-key-v1" +:+ nul) +:+ ("compiler" +:+ nul)) +:+ cc_compiler_hash ctx +:+ nul
    +:+ nul_terminated (concat (context_fields host_salt ctx key_root ws ns norm)).
Proof.
  unfold context_preimage, context_fields, native_section. cbn [concat]. cbn zeta.
  rewrite !section_fields, !nul_terminated_app.
  rewrite (nul_terminated_cons (norm (cc_source_file ctx) key_root)).
  destruct (existsb _ _), ws as [w|]; rewrite ?nul_terminated_cons, ?string_app_assoc;
    unfold nul_terminated; cbn [fmap list_fmap concat_bytes String.append];
    rewrite ?string_app_assoc, ?string_app_nil_r; reflexivity.
Qed.

(** Two contexts with as many entries in every section, and native-CPU and
    worktree sections both there or both not. *)
Definition same_shape (host_salt : bytes) (c1 c2 : CompileContext)
    (root1 root2 ws1 ws2 ns1 ns2 : option bytes) : Prop :=
  length <$> context_fields host_salt c1 root1 ws1 ns1 normalize_key_path =
  length <$> context_fields host_salt c2 root2 ws2 ns2 normalize_key_path.

(** ** Properties *)

(** A C/C++ context key identifies its inputs.  Two contexts of one shape
    (as many entries section by section) with equal keys have the same compiler
    hash, defines and undefines, and the same normalised source file, include
    directories in order, flags and forced includes, and salts; or blake3
    collides on the two preimages.  Fields hold no NUL byte. *)
Theorem context_key_identifies {B3 : Blake3} (host_salt : bytes) (c1 c2 : CompileContext)
    (root1 root2 ws1 ws2 : option bytes) :
  hash_wf (cc_compiler_hash c1) -> hash_wf (cc_compiler_hash c2) ->
  same_shape host_salt c1 c2 root1 root2 ws1 ws2 None None ->
  Forall (fun a => no_nul a = true)
    (concat (context_fields host_salt c1 root1 ws1 None normalize_key_path)) ->
  Forall (fun a => no_nul a = true)
    (concat (context_fields host_salt c2 root2 ws2 None normalize_key_path)) ->
  compute_context_key host_salt c1 root1 ws1 = compute_context_key host_salt c2 root2 ws2 ->
  (cc_compiler_hash c1 = cc_compiler_hash c2 /\
   cc_defines c1 = cc_defines c2 /\ cc_undefines c1 = cc_undefines c2 /\
   normalize_key_path (cc_source_file c1) root1 = normalize_key_path (cc_source_file c2) root2 /\
   context_fields host_salt c1 root1 ws1 None normalize_key_path =
     context_fields host_salt c2 root2 ws2 None normalize_key_path) \/
  blake3_collision (context_preimage host_salt c1 root1 ws1 None normalize_key_path)
    (context_preimage host_salt c2 root2 ws2 None normalize_key_path).
Proof.
  intros Hh1 Hh2 Hs Hn1 Hn2 Heq. apply blake3_eq in Heq as [Heq|]; [left|by right].
  rewrite !context_preimage_fields in Heq.
  apply string_app_inv_len in Heq as [_ Heq]; [|done].
  apply string_app_inv_len in Heq as [Hc Heq]; [|congruence].
  apply string_app_inv_len in Heq as [_ Heq]; [|done].
  apply nul_terminated_inj, concat_inj_shape in Heq; [|done..].
  split; [done|]. pose proof Heq as Hf. unfold context_fields in Hf.
  injection Hf as _ _ Hsrc _ _ _ _ Hd Hu _ _ _. done.
Qed.

Definition demo_context (defines undefines : list bytes) : CompileContext :=
  cc_from_parsed_args
    (mkParsed "/w/src/a.c" (Some "/w/a.o") (mkSearch [] ["/w/include"] ["/usr/include"] []) defines
       undefines ["-O2"; "-march=native"] [] None (mkDepFlags false false None false) []) demo_hash.

Lemma context_key_identifies_witness :
  let c1 := demo_context ["X=1"; "A"] [] in
  let c2 := demo_context ["A"; "X=1"] [] in
  compute_context_key (B3 := toy_blake3) "salt" c1 (Some "/w") None =
    compute_context_key (B3 := toy_blake3) "salt" c2 (Some "/w") None /\
  ((cc_compiler_hash c1 = cc_compiler_hash c2 /\ cc_defines c1 = cc_defines c2 /\
    cc_undefines c1 = cc_undefines c2 /\
    normalize_key_path (cc_source_file c1) (Some "/w") =
      normalize_key_path (cc_source_file c2) (Some "/w") /\
    context_fields "salt" c1 (Some "/w") None None normalize_key_path =
      context_fields "salt" c2 (Some "/w") None None normalize_key_path) \/
   blake3_collision (B3 := toy_blake3)
     (context_preimage "salt" c1 (Some "/w") None None normalize_key_path)
     (context_preimage "salt" c2 (Some "/w") None None normalize_key_path)).
Proof.
  intros c1 c2. split; [vm_compute; reflexivity|].
  apply (context_key_identifies (B3 := toy_blake3)); try (vm_compute; reflexivity);
    vm_compute; repeat constructor.
Defined.

(** The sections of a context key can be confused.  A macro named
    [undefines] given with [-D] and the same name given with [-U] produce one
    key, because a section's tag is an ordinary NUL-terminated field and the
    number of fields is not recorded; for every blake3 and every other input. *)
Theorem context_key_define_undefine_clash {B3 : Blake3} (host_salt : bytes) (args : ParsedArgs)
    (compiler_hash : ContentHash) (key_root worktree_salt : option bytes) :
  let with_macros d u := mkParsed (pa_source_file args) (pa_output_file args)
    (pa_include_search args) d u (pa_flags args) (pa_force_includes args)
    (pa_compiler args) (pa_dep_flags args) (pa_unknown_flags args) in
  let key d u := compute_context_key host_salt
    (cc_from_parsed_args (with_macros d u) compiler_hash) key_root worktree_salt in
  key ["undefines"] [] = key [] ["undefines"].
Proof.
  intros with_macros key. unfold key, compute_context_key, compute_context_key_with_native_cpu_salt.
  f_equal.
Qed.

(** A path of one workspace and its counterpart in a relocated one: both under
    their root with the same remainder, or the same path outside both. *)
Definition relocated (root1 root2 : bytes) (p1 p2 : bytes) : Prop :=
  match path_strip_prefix p1 root1, path_strip_prefix p2 root2 with
  | Some s1, Some s2 => s1 = s2
  | None, None => p1 = p2
  | _, _ => False
  end.

Lemma relocated_key root1 root2 p1 p2 :
  relocated root1 root2 p1 p2 ->
  normalize_key_path p1 (Some root1) = normalize_key_path p2 (Some root2).
Proof.
  unfold relocated, normalize_key_path.
  destruct (path_strip_prefix p1 root1), (path_strip_prefix p2 root2);
    [by intros ->|done|done|by intros ->].
Qed.

Lemma relocated_keys root1 root2 l1 l2 :
  Forall2 (relocated root1 root2) l1 l2 ->
  ((fun p => normalize_key_path p (Some root1)) <$> l1) =
  ((fun p => normalize_key_path p (Some root2)) <$> l2).
Proof. induction 1; simpl; f_equal; [by apply relocated_key|done]. Qed.

(** A prefix-map flag of a relocated workspace: it maps the counterpart of the
    same directory to the same name. *)
Definition relocated_flag (root1 root2 f1 f2 : bytes) : Prop :=
  f1 = f2 /\ normalize_cxx_prefix_map_flag_for_key f1 (Some root1) = f1 /\
    normalize_cxx_prefix_map_flag_for_key f2 (Some root2) = f2 \/
  exists from1 from2 to, relocated root1 root2 from1 from2 /\
    is_Some (path_strip_prefix from1 root1) /\
    split_once "=" (from1 +:+ "=" +:+ to) = Some (from1, to) /\
    split_once "=" (from2 +:+ "=" +:+ to) = Some (from2, to) /\
    f1 = "-ffile-prefix-map=" +:+ from1 +:+ "=" +:+ to /\
    f2 = "-ffile-prefix-map=" +:+ from2 +:+ "=" +:+ to.

Lemma relocated_flag_key root1 root2 f1 f2 :
  relocated_flag root1 root2 f1 f2 ->
  normalize_cxx_prefix_map_flag_for_key f1 (Some root1) =
  normalize_cxx_prefix_map_flag_for_key f2 (Some root2).
Proof.
  intros [(-> & H1 & H2)|(from1 & from2 & to & Hr & Hs & Ho1 & Ho2 & -> & ->)]; [congruence|].
  unfold normalize_cxx_prefix_map_flag_for_key, PREFIX_MAP_FLAGS. cbn [prefix_map_flag].
  rewrite (proj2 (strip_prefix_Some _ _ _) eq_refl), (proj2 (strip_prefix_Some _ _ _) eq_refl).
  f_equal. unfold normalize_remap_path_prefix_for_key. rewrite Ho1, Ho2.
  pose proof (relocated_key _ _ _ _ Hr) as Hk. unfold relocated in Hr.
  destruct (path_strip_prefix from1 root1); [|by destruct Hs].
  destruct (path_strip_prefix from2 root2); [|done]. by rewrite Hk.
Qed.

(** Keys survive moving a workspace.  Two contexts that are the same
    compilation in two roots (every path is the counterpart of the other,
    prefix-map flags map counterpart directories, everything else equal) have
    the same context key relative to their roots, without a worktree salt. *)
Theorem context_key_relocatable {B3 : Blake3} (host_salt root1 root2 : bytes)
    (c1 c2 : CompileContext) :
  let s1 := include_search c1 in
  let s2 := include_search c2 in
  relocated root1 root2 (cc_source_file c1) (cc_source_file c2) ->
  Forall2 (relocated root1 root2) (iquote s1) (iquote s2) ->
  Forall2 (relocated root1 root2) (user s1) (user s2) ->
  Forall2 (relocated root1 root2) (system s1) (system s2) ->
  Forall2 (relocated root1 root2) (after s1) (after s2) ->
  Forall2 (relocated root1 root2) (force_includes c1) (force_includes c2) ->
  Forall2 (relocated_flag root1 root2) (cc_flags c1) (cc_flags c2) ->
  Forall2 (relocated_flag root1 root2) (cc_unknown_flags c1) (cc_unknown_flags c2) ->
  existsb is_cxx_native_cpu_flag (cc_flags c1 ++ cc_unknown_flags c1) =
    existsb is_cxx_native_cpu_flag (cc_flags c2 ++ cc_unknown_flags c2) ->
  cc_defines c1 = cc_defines c2 -> cc_undefines c1 = cc_undefines c2 ->
  cc_compiler_hash c1 = cc_compiler_hash c2 ->
  compute_context_key host_salt c1 (Some root1) None =
    compute_context_key host_salt c2 (Some root2) None.
Proof.
  intros s1 s2 Hsrc Hq Hu Hsys Ha Hf Hfl Hun Hn Hd Hud Hc.
  assert (forall l1 l2, Forall2 (relocated_flag root1 root2) l1 l2 ->
    ((fun f => normalize_cxx_prefix_map_flag_for_key f (Some root1)) <$> l1) =
    ((fun f => normalize_cxx_prefix_map_flag_for_key f (Some root2)) <$> l2)) as Hflags.
  { induction 1; simpl; f_equal; [by apply relocated_flag_key|done]. }
  unfold compute_context_key, compute_context_key_with_native_cpu_salt. f_equal.
  rewrite !context_preimage_fields, Hc. do 3 f_equal. unfold context_fields.
  rewrite Hn, Hd, Hud. fold s1 s2.
  rewrite (relocated_key _ _ _ _ Hsrc), (Hflags _ _ Hfl), (Hflags _ _ Hun).
  by rewrite (relocated_keys _ _ _ _ Hq), (relocated_keys _ _ _ _ Hu),
    (relocated_keys _ _ _ _ Hsys), (relocated_keys _ _ _ _ Ha), (relocated_keys _ _ _ _ Hf).
Qed.

Definition demo_workspace (root : bytes) : CompileContext :=
  mkContext (root +:+ "/src/a.c") (mkSearch [] [root +:+ "/include"] ["/usr/include"] []) ["A"] []
    ["-O2"; "-ffile-prefix-map=" +:+ (root +:+ "/src") +:+ "=" +:+ "."] [] [] demo_hash.

Lemma context_key_relocatable_witness :
  compute_context_key (B3 := toy_blake3) "salt" (demo_workspace "/home/a/w") (Some "/home/a/w") None =
  compute_context_key (B3 := toy_blake3) "salt" (demo_workspace "/tmp/w") (Some "/tmp/w") None.
Proof.
  apply (context_key_relocatable (B3 := toy_blake3)).
  - vm_compute. reflexivity.
  - constructor.
  - constructor; [vm_compute; reflexivity|constructor].
  - constructor; [vm_compute; reflexivity|constructor].
  - constructor.
  - constructor.
  - constructor; [left; split_and!; vm_compute; reflexivity|]. constructor; [right|constructor].
    exists "/home/a/w/src", "/tmp/w/src", ".". split_and!; try (vm_compute; reflexivity).
    vm_compute. eexists. reflexivity.
  - constructor.
  - vm_compute. reflexivity.
  - reflexivity.
  - reflexivity.
  - reflexivity.
Defined.

(** ** rustc *)

(** The environment entries a key ignores. *)
Lemma keyed_entries_ext host_salt ctx1 ctx2 root ns emits placement externs :
  filter (fun e => keyed_env_entry e = true) (env_vars ctx1) =
    filter (fun e => keyed_env_entry e = true) (env_vars ctx2) ->
  ctx2 = {| rs_source_file := rs_source_file ctx1; crate_name := crate_name ctx1;
     crate_types := crate_types ctx1; edition := edition ctx1; emit_types := emit_types ctx2;
     cfgs := cfgs ctx1; check_cfgs := check_cfgs ctx1; codegen_flags := codegen_flags ctx1;
     cargo_metadata := cargo_metadata ctx2; extra_filename := extra_filename ctx2;
     target := target ctx1; cap_lints := cap_lints ctx1; extern_crates := extern_crates ctx2;
     lint_flags := lint_flags ctx1; rs_unknown_flags := rs_unknown_flags ctx1;
     remap_path_prefixes := remap_path_prefixes ctx1; env_vars := env_vars ctx2;
     rs_compiler_hash := rs_compiler_hash ctx1 |} ->
  rustc_sections host_salt ctx1 root ns emits placement externs =
  rustc_sections host_salt ctx2 root ns emits placement externs.
Proof. intros He ->. unfold rustc_sections. simpl. by rewrite He. Qed.

(** The environment part of a rustc context.  Two client environments that
    agree on the superset of rustc variables and on the [CARGO_*] variables kept
    for untracked readers give the same context for every invocation, so a
    request fingerprint over these is never coarser than the context key; and
    every variable of a context built this way passes the filter applied when
    the key is hashed (none is volatile or on the never-keyed list). *)
Theorem rustc_env_selection (args : RustcParsedArgs) (env1 env2 : EnvList)
    (compiler_hash : ContentHash) (plain_rustc : bool) :
  keyed_rustc_env_superset env1 = keyed_rustc_env_superset env2 ->
  filter (fun e => is_conservatively_keyed_cargo_env e.1 = true) env1 =
    filter (fun e => is_conservatively_keyed_cargo_env e.1 = true) env2 ->
  from_parsed_args_with_driver args env1 compiler_hash plain_rustc =
    from_parsed_args_with_driver args env2 compiler_hash plain_rustc /\
  Forall (fun e => keyed_env_entry e = true)
    (env_vars (from_parsed_args_with_driver args env1 compiler_hash plain_rustc)).
Proof.
  intros Hs Hc. split.
  - unfold from_parsed_args_with_driver, rustc_env_vars.
    by rewrite (keyed_rustc_env_superset_covers _ _ _ Hs), Hc.
  - simpl. unfold rustc_env_vars, sort_pairs. rewrite sort_by_perm. apply Forall_app. split.
    + apply Forall_forall. intros [k v] Hin%keyed_rustc_env_names. simpl in Hin.
      unfold keyed_env_entry. simpl. revert k Hin. apply Forall_forall. repeat constructor.
    + destruct (may_read_env_untracked _); [|constructor]. apply Forall_forall.
      intros [k v] [Hk _]%list_elem_of_filter. simpl in Hk.
      unfold is_conservatively_keyed_cargo_env in Hk.
      apply andb_prop in Hk as [[Hp Hn]%andb_prop Hv]. unfold keyed_env_entry. simpl.
      apply negb_true_iff in Hn, Hv. rewrite Hn, Hv, orb_false_r. simpl.
      rewrite bool_decide_eq_false_2; [done|]. intros ->. done.
Qed.

Definition demo_rustc (emits : list bytes) (metadata extern : bytes) : RustcParsedArgs :=
  mkRustcParsed "/w/src/lib.rs" (Some "demo") ["lib"] (Some "2021") emits [] [] ["opt-level=3"] None
    None [("serde", extern)] [] [] (Some metadata) (Some metadata) [].

Lemma rustc_env_selection_witness :
  let args := demo_rustc ["metadata"; "link"] "m1" "/w/target/libserde-1.rmeta" in
  let env1 := [("CARGO_PKG_NAME", "x"); ("CARGO_HOME", "/a"); ("RUSTC_BOOTSTRAP", "1")] in
  let env2 := [("RUSTC_BOOTSTRAP", "1"); ("HOME", "/h"); ("CARGO_PKG_NAME", "x")] in
  from_parsed_args_with_driver args env1 demo_hash true =
    from_parsed_args_with_driver args env2 demo_hash true /\
  Forall (fun e => keyed_env_entry e = true)
    (env_vars (from_parsed_args_with_driver args env1 demo_hash true)).
Proof. apply rustc_env_selection; vm_compute; reflexivity. Defined.

(** Check and build share metadata.  A check-style and a build-style
    compilation of a library that differ only in the emitted kinds (with or
    without [link]), in cargo's metadata and file-name suffix, in the paths of
    the extern crates and in ignored environment variables have the same
    compatibility key, and it exists; for a crate type that is linked there is
    none. *)
Theorem check_build_share_compat_key {B3 : Blake3} (host_salt : bytes)
    (check build : RustcCompileContext) (key_root ns : option bytes) :
  normalized_check_metadata_emit (emit_types check) =
    normalized_check_metadata_emit (emit_types build) ->
  build = {| rs_source_file := rs_source_file check; crate_name := crate_name check;
     crate_types := crate_types check; edition := edition check; emit_types := emit_types build;
     cfgs := cfgs check; check_cfgs := check_cfgs check; codegen_flags := codegen_flags check;
     cargo_metadata := cargo_metadata build; extra_filename := extra_filename build;
     target := target check; cap_lints := cap_lints check; extern_crates := extern_crates build;
     lint_flags := lint_flags check; rs_unknown_flags := rs_unknown_flags check;
     remap_path_prefixes := remap_path_prefixes check; env_vars := env_vars build;
     rs_compiler_hash := rs_compiler_hash check |} ->
  (extern_crates check).*1 = (extern_crates build).*1 ->
  filter (fun e => keyed_env_entry e = true) (env_vars check) =
    filter (fun e => keyed_env_entry e = true) (env_vars build) ->
  let compat ctx := check_metadata_compat_key_with_root_and_native_cpu_salt host_salt ctx key_root ns in
  compat check = compat build /\
  (is_Some (compat check) <->
     is_Some (normalized_check_metadata_emit (emit_types check)) /\
     forall ct, ct ∈ crate_types check -> ct ∉ ["bin"; "proc-macro"; "staticlib"; "dylib"; "cdylib"]).
Proof.
  intros He Hb Hx Henv compat. unfold compat, check_metadata_compat_key_with_root_and_native_cpu_salt.
  assert (crate_types build = crate_types check) as Hct by by rewrite Hb.
  rewrite Hct, <- He, <- Hx. split.
  - destruct (normalized_check_metadata_emit (emit_types check)) as [emits|]; [|done]. simpl.
    by rewrite (keyed_entries_ext host_salt check build).
  - destruct (normalized_check_metadata_emit (emit_types check)) as [emits|]; simpl.
    2:{ split; [by intros [? ?]|by intros [[? ?] _]]. }
    destruct (existsb _ _) eqn:Hex.
    + split; [by intros [? ?]|]. intros [_ Hall]. apply existsb_exists in Hex as (ct & Hin & Hc).
      apply bool_decide_eq_true in Hc. by destruct (Hall ct); [apply list_elem_of_In|].
    + split; [|by eexists]. intros _. split; [by eexists|]. intros ct Hin Hc.
      apply not_true_iff_false in Hex. apply Hex, existsb_exists. exists ct.
      split; [by apply list_elem_of_In|]. by apply bool_decide_eq_true.
Qed.

Lemma check_build_share_compat_key_witness :
  let check := rustc_from_parsed_args
    (demo_rustc ["metadata"; "dep-info"] "m1" "/w/target/libserde-1.rmeta") [] demo_hash in
  let build := rustc_from_parsed_args
    (demo_rustc ["link"; "metadata"; "dep-info"] "m2" "/w/target/libserde-2.rlib") [] demo_hash in
  let compat ctx := check_metadata_compat_key_with_root_and_native_cpu_salt (B3 := toy_blake3) "s" ctx
                      (Some "/w") None in
  compat check = compat build /\
  (is_Some (compat check) <->
     is_Some (normalized_check_metadata_emit (emit_types check)) /\
     forall ct, ct ∈ crate_types check -> ct ∉ ["bin"; "proc-macro"; "staticlib"; "dylib"; "cdylib"]).
Proof.
  intros check build. apply (check_build_share_compat_key (B3 := toy_blake3)); vm_compute; reflexivity.
Defined.

(** ** Artifact keys *)

(** What the entries of a preimage must be like. *)
Definition entry_wf (e : bytes * ContentHash) : Prop := no_nul e.1 = true /\ hash_wf e.2.

Lemma hash_section_cons n h l :
  hash_section ((n, h) :: l) = n +:+ nul +:+ h +:+ nul +:+ hash_section l.
Proof.
  unfold hash_section. cbn [fmap list_fmap concat_bytes]. by rewrite !string_app_assoc.
Qed.

(** As many entries followed by anything are read back. *)
Lemma hash_section_app_inj l k r s :
  length l = length k -> Forall entry_wf l -> Forall entry_wf k ->
  hash_section l +:+ r = hash_section k +:+ s -> l = k /\ r = s.
Proof.
  intros Hlen Hl. revert k Hlen. induction Hl as [|[n h] l [Hn Hh] Hl IH];
    intros [|[n' h'] k] Hlen Hk Heq; simplify_eq/=; [done|].
  apply Forall_cons in Hk as [[Hn' Hh'] Hk]. simpl in *.
  rewrite !hash_section_cons, !string_app_assoc in Heq.
  apply nul_field_inv in Heq as [-> Heq]; [|done..].
  apply string_app_inv_len in Heq as [-> Heq]; [|congruence].
  apply string_app_inv_len in Heq as [_ Heq]; [|done].
  destruct (IH k Hlen Hk Heq) as [-> ->]. done.
Qed.

Lemma sort_by_key_Forall {A} (P : A -> Prop) (f : A -> bytes) l :
  Forall P l -> Forall P (sort_by_key f l).
Proof. by rewrite sort_by_key_perm. Qed.

(** The keys the write side sorts by. *)
Definition indexed_keys (key_root : option bytes) (l : list (bytes * ContentHash)) :
    list (bytes * ContentHash) :=
  (fun '(p, h) => (normalize_key_path p key_root, h)) <$> l.

(** The write side and the read side compute one key. *)
Lemma artifact_key_sides {B3 : Blake3} ck l root :
  compute_artifact_key ck l root = compute_artifact_key_normalized_with_root ck l root.
Proof.
  unfold compute_artifact_key, compute_artifact_key_with, compute_artifact_key_normalized_with_root.
  do 2 f_equal. apply list_fmap_ext. intros _ [p h] _. f_equal.
  unfold normalize_key_path, path_strip_prefix, path_starts_with, case_key.
  destruct root as [root|]; [|done].
  by destruct (strip_components (components p) (components root)).
Qed.

Lemma artifact_key_inj {B3 : Blake3} ck1 ck2 l1 l2 root1 root2 :
  hash_wf ck1 -> hash_wf ck2 ->
  Forall entry_wf (indexed_keys root1 l1) -> Forall entry_wf (indexed_keys root2 l2) ->
  compute_artifact_key ck1 l1 root1 = compute_artifact_key ck2 l2 root2 ->
  (ck1 = ck2 /\ indexed_keys root1 l1 ≡ₚ indexed_keys root2 l2) \/
  blake3_collision (artifact_preimage "zccache-artifact-key-v1" ck1 (indexed_keys root1 l1))
    (artifact_preimage "zccache-artifact-key-v1" ck2 (indexed_keys root2 l2)).
Proof.
  unfold compute_artifact_key, compute_artifact_key_with.
  intros H1 H2 Hw1 Hw2 Heq. apply blake3_eq in Heq as [Heq|]; [left|by right].
  unfold artifact_preimage in Heq. apply string_app_inv_len in Heq as [_ Heq]; [|done].
  apply string_app_inv_len in Heq as [-> Heq]; [|congruence].
  apply string_app_inv_len in Heq as [_ Heq]; [|done]. split; [done|].
  apply hash_section_inj in Heq; [|by apply sort_by_key_Forall..].
  unfold indexed_keys. rewrite <- (sort_by_key_perm fst (_ <$> l1)), Heq. apply sort_by_key_perm.
Qed.

(** The artifact key.  The key computed when an artifact is stored and the
    one computed from normalised paths when it is looked up are the same; the
    order in which the files are listed does not matter (their normalised paths
    being distinct); and equal keys mean the same context and the same
    normalised files with the same content hashes, or a blake3 collision of the
    two preimages. *)
Theorem artifact_key_sound {B3 : Blake3} (ck1 ck2 : ContextKey)
    (l1 l2 : list (bytes * ContentHash)) (root1 root2 : option bytes) :
  compute_artifact_key ck1 l1 root1 = compute_artifact_key_normalized_with_root ck1 l1 root1 /\
  (NoDup (indexed_keys root1 l1).*1 -> l1 ≡ₚ l2 ->
   compute_artifact_key ck1 l1 root1 = compute_artifact_key ck1 l2 root1) /\
  (hash_wf ck1 -> hash_wf ck2 ->
   Forall entry_wf (indexed_keys root1 l1) -> Forall entry_wf (indexed_keys root2 l2) ->
   compute_artifact_key ck1 l1 root1 = compute_artifact_key ck2 l2 root2 ->
   (ck1 = ck2 /\ indexed_keys root1 l1 ≡ₚ indexed_keys root2 l2) \/
   blake3_collision (artifact_preimage "zccache-artifact-key-v1" ck1 (indexed_keys root1 l1))
    (artifact_preimage "zccache-artifact-key-v1" ck2 (indexed_keys root2 l2))).
Proof.
  split_and!; [apply artifact_key_sides| |apply artifact_key_inj].
  intros Hnd Hp. unfold compute_artifact_key, compute_artifact_key_with, artifact_preimage.
  erewrite sort_by_key_canonical; [done|exact Hnd|]. by rewrite Hp.
Qed.

Lemma artifact_key_sound_witness :
  let l1 := [("/w/a.c", demo_hash); ("/usr/include/stdio.h", demo_hash)] in
  let l2 := [("/usr/include/stdio.h", demo_hash); ("/w/a.c", demo_hash)] in
  compute_artifact_key (B3 := toy_blake3) demo_hash l1 (Some "/w") =
    compute_artifact_key (B3 := toy_blake3) demo_hash l2 (Some "/w").
Proof.
  intros l1 l2.
  refine (proj1 (proj2 (artifact_key_sound (B3 := toy_blake3) demo_hash demo_hash l1 l2 (Some "/w")
    (Some "/w"))) _ _).
  - vm_compute. repeat constructor; compute_done.
  - apply Permutation_swap.
Defined.

(** ** The rustc artifact key with environment dependencies *)

Definition env_entry_wf (e : bytes * option ContentHash) : Prop :=
  no_nul e.1 = true /\ (forall h, e.2 = Some h -> hash_wf h).

(** A value digest that reads like the mark of an unset variable. *)
Definition unset_lookalike (l : list (bytes * option ContentHash)) : Prop :=
  exists n h r, (n, Some h) ∈ l /\ h = ("unset" +:+ nul) +:+ r.

Lemma env_values_inj (l k : list (bytes * option ContentHash)) :
  l.*1 = k.*1 -> Forall env_entry_wf l -> Forall env_entry_wf k ->
  concat_bytes ((fun '(n, h) => n +:+ nul +:+ env_dep_value h +:+ nul) <$> l) =
  concat_bytes ((fun '(n, h) => n +:+ nul +:+ env_dep_value h +:+ nul) <$> k) ->
  l = k \/ unset_lookalike (l ++ k).
Proof.
  assert (forall h r s : bytes, hash_wf h -> h +:+ nul +:+ r = "unset" +:+ nul +:+ s ->
    exists r', h = ("unset" +:+ nul) +:+ r') as Hlook.
  { unfold hash_wf. intros h r s Hh Heq.
    do 6 (destruct h as [|? h]; [discriminate|injection Heq as -> Heq]). by exists h. }
  intros Hn Hl. revert k Hn. induction Hl as [|[n h] l [Hn Hh] Hl IH];
    intros [|[n' h'] k] Hnames Hk Heq; simplify_eq/=; [by left|].
  apply Forall_cons in Hk as [[_ Hh'] Hk]. simpl in *. rewrite !string_app_assoc in Heq.
  apply string_app_inv_len in Heq as [_ Heq]; [|done]. injection Heq as Heq.
  rewrite !string_app_assoc in Heq.
  assert (h = h' \/ unset_lookalike ((n', h) :: l ++ (n', h') :: k)) as [->|]; [|..|by right].
  { destruct h as [h|], h' as [h'|]; simpl in Heq.
    - pose proof (Hh h eq_refl) as Hlen. pose proof (Hh' h' eq_refl) as Hlen'.
      unfold hash_wf in *. apply string_app_inv_len in Heq as [-> _]; [by left|congruence].
    - apply Hlook in Heq as [r ->]; [|by apply Hh]. right. eexists n', _, r.
      split; [by left|done].
    - symmetry in Heq. apply Hlook in Heq as [r ->]; [|by apply Hh']. right. eexists n', _, r.
      split; [|done]. right. apply elem_of_app. right. by left.
    - by left. }
  apply string_app_inv_len in Heq as [_ Heq]; [|done]. injection Heq as Heq.
  destruct (IH k ltac:(congruence) Hk Heq) as [->|(m & x & r & Hin & Hx)]; [by left|].
  right. exists m, x, r. split; [|done]. apply elem_of_app in Hin as [Hin|Hin].
  - right. apply elem_of_app. by left.
  - right. apply elem_of_app. right. by right.
Qed.

Lemma rustc_base_key_inj {B3 : Blake3} ck1 ck2 files1 files2 externs1 externs2 root1 root2 :
  hash_wf ck1 -> hash_wf ck2 -> length files1 = length files2 ->
  Forall entry_wf (indexed_keys root1 files1) -> Forall entry_wf (indexed_keys root2 files2) ->
  Forall entry_wf externs1 -> Forall entry_wf externs2 ->
  compute_rustc_artifact_key_with_root ck1 files1 externs1 root1 =
    compute_rustc_artifact_key_with_root ck2 files2 externs2 root2 ->
  (ck1 = ck2 /\ indexed_keys root1 files1 ≡ₚ indexed_keys root2 files2 /\ externs1 ≡ₚ externs2) \/
  blake3_collision (rustc_artifact_preimage ck1 (indexed_keys root1 files1) externs1)
    (rustc_artifact_preimage ck2 (indexed_keys root2 files2) externs2).
Proof.
  intros Hc1 Hc2 Hlf Hf1 Hf2 Hx1 Hx2 Heq. apply blake3_eq in Heq as [Heq|]; [left|by right].
  unfold rustc_artifact_preimage, artifact_preimage in Heq. rewrite !string_app_assoc in Heq.
  apply string_app_inv_len in Heq as [_ Heq]; [|done].
  apply string_app_inv_len in Heq as [_ Heq]; [|done].
  apply string_app_inv_len in Heq as [-> Heq]; [|congruence].
  apply string_app_inv_len in Heq as [_ Heq]; [|done].
  apply hash_section_app_inj in Heq as [Hfiles Heq];
    [|by rewrite !sort_by_key_perm, !length_fmap|by apply sort_by_key_Forall..].
  apply string_app_inv_len in Heq as [_ Heq]; [|done].
  apply string_app_inv_len in Heq as [_ Heq]; [|done].
  apply hash_section_inj in Heq; [|by apply sort_by_key_Forall..]. split_and!; [done|..].
  - unfold indexed_keys.
    rewrite <- (sort_by_key_perm fst (_ <$> files1)), Hfiles. apply sort_by_key_perm.
  - rewrite <- (sort_by_key_perm fst externs1), Heq. apply sort_by_key_perm.
Qed.

(** The final rustc key identifies everything that went into it: context, files
    and externs with their content hashes, and environment values, short of a
    collision or a value digest that reads like an unset variable. *)
Lemma rustc_full_key_inj {B3 : Blake3} (ck1 ck2 : ContextKey)
    (files1 files2 externs1 externs2 : list (bytes * ContentHash)) (root1 root2 : option bytes)
    (env1 env2 : list (bytes * option ContentHash)) :
  hash_wf ck1 -> hash_wf ck2 ->
  length files1 = length files2 ->
  (sort_by_key fst env1).*1 = (sort_by_key fst env2).*1 ->
  Forall entry_wf (indexed_keys root1 files1) -> Forall entry_wf (indexed_keys root2 files2) ->
  Forall entry_wf externs1 -> Forall entry_wf externs2 ->
  Forall env_entry_wf env1 -> Forall env_entry_wf env2 ->
  fold_rustc_env_deps_into_artifact_key
    (compute_rustc_artifact_key_with_root ck1 files1 externs1 root1) env1 =
  fold_rustc_env_deps_into_artifact_key
    (compute_rustc_artifact_key_with_root ck2 files2 externs2 root2) env2 ->
  (ck1 = ck2 /\ indexed_keys root1 files1 ≡ₚ indexed_keys root2 files2 /\
   externs1 ≡ₚ externs2 /\ env1 ≡ₚ env2) \/
  blake3_collision (rustc_artifact_preimage ck1 (indexed_keys root1 files1) externs1)
    (rustc_artifact_preimage ck2 (indexed_keys root2 files2) externs2) \/
  blake3_collision
    (fold_preimage (compute_rustc_artifact_key_with_root ck1 files1 externs1 root1) env1)
    (fold_preimage (compute_rustc_artifact_key_with_root ck2 files2 externs2 root2) env2) \/
  unset_lookalike (env1 ++ env2).
Proof.
  intros Hc1 Hc2 Hlf Hnames Hf1 Hf2 Hx1 Hx2 He1 He2.
  pose proof (rustc_base_key_inj ck1 ck2 files1 files2 externs1 externs2 root1 root2
    Hc1 Hc2 Hlf Hf1 Hf2 Hx1 Hx2) as Hbase.
  unfold fold_rustc_env_deps_into_artifact_key.
  assert (env1 = [] <-> env2 = []) as Hempty.
  { rewrite <- !length_zero_iff_nil, <- (sort_by_length (key_leb fst) env1),
      <- (sort_by_length (key_leb fst) env2), <- !(length_fmap fst).
    unfold sort_by_key in Hnames. by rewrite Hnames. }
  case_bool_decide as H1.
  { rewrite bool_decide_eq_true_2 by tauto. intros [(? & ? & ?)|?]%Hbase; [left|by right; left].
    rewrite H1, (proj1 Hempty H1). done. }
  rewrite bool_decide_eq_false_2 by tauto. intros Heq.
  apply blake3_eq in Heq as [Heq|]; [|by right; right; left]. unfold fold_preimage in Heq.
  apply string_app_inv_len in Heq as [_ Heq]; [|done].
  apply string_app_inv_len in Heq as [Hb Heq];
    [|exact (eq_trans (blake3_length _) (eq_sym (blake3_length _)))].
  apply string_app_inv_len in Heq as [_ Heq]; [|done].
  apply env_values_inj in Heq as [Heq|(n & h & r & Hin & Hu)];
    [| |done|by apply sort_by_key_Forall..].
  - destruct (Hbase Hb) as [(? & ? & ?)|?]; [left|by right; left]. split_and!; [done..|].
    rewrite <- (sort_by_key_perm fst env1), Heq. apply sort_by_key_perm.
  - right. right. right. exists n, h, r. split; [|done]. by rewrite !sort_by_key_perm in Hin.
Qed.
