(* ===== verification/DepGraph.v ===== *)
(** * The dependency graph ([zccache-depgraph/src/graph/])

    The daemon's record of compilations: which files each context read, which
    artifact key it last had, and the indexes that let several checkouts of one
    workspace share what they know.  Operations are sequential state passing;
    each reads the wall clock at most once and takes the reading as [now].  The
    callers' closures [is_fresh], [get_hash] and [env_value] are functions.

    [GraphIndexes::path_key_cache] is never filled ([cached_normalize_key_path]
    bypasses it) and is left out; log lines and profiling timers are too. *)

From stdpp Require Import pretty.
From Stdlib Require Import Lia.
From S2P Require Import Prelude Path Hash RustStr KeyEnv RequestFingerprint ContextKeys.

(** ** Data *)

Inductive IncludeKind :=
| Quoted | AngleBracket | QuotedNext | AngleBracketNext
| Computed (name : bytes).

Record IncludeDirective := mkDirective {
  id_kind : IncludeKind;
  id_path : bytes;
  id_line : Z;
}.

Record FileEntry := mkFileEntry {
  includes : list IncludeDirective;
  scanned_at : Z;
}.

Record ScanResult := mkScan {
  resolved : list NormalizedPath;
  unresolved : list bytes;
  has_computed : bool;
}.

Inductive ContextState := Cold | Warm | Stale.

#[export] Instance ContextState_eq_dec : EqDecision ContextState.
Proof. solve_decision. Defined.

Record ContextEntry := mkEntry {
  logical_key : ContextKey;
  ce_context : CompileContext;
  ce_key_root : option NormalizedPath;
  resolved_includes : list NormalizedPath;
  unresolved_includes : list bytes;
  has_computed_includes : bool;
  artifact_key : option ArtifactKey;
  last_file_hashes : list (NormalizedPath * ContentHash);
  rustc_env_deps : list (bytes * option ContentHash);
  last_accessed_unix_ms : Z;
  ce_state : ContextState;
}.

Record ContextInstanceKey := mkInstance {
  ik_logical : ContextKey;
  ik_concrete : ContentHash;
}.

Inductive CacheVerdict :=
| VHit (artifact_key : ArtifactKey)
| VSourceChanged (artifact_key : ArtifactKey)
| VHeadersChanged (changed : list NormalizedPath)
| VCold
| VNeedsPreprocessor.

Record DepGraphStats := mkStats {
  st_file_count : nat;
  st_context_count : nat;
  st_checks : Z;
  st_hits : Z;
  st_misses : Z;
}.

Record DepGraph := mkGraph {
  files : gmap NormalizedPath FileEntry;
  contexts : gmap ContextKey ContextEntry;
  rustc_externs : gmap ContextKey (list (bytes * NormalizedPath));
  rustc_check_metadata_compat : gmap ContextKey ContextKey;
  equivalent_contexts : gmap ContextKey (list ContextKey);
  checks : Z;
  hits : Z;
  misses : Z;
  graph_dirty : bool;
}.

Record ContextRegistration := mkRegistration {
  reg_key : ContextKey;
  reg_map_key : ContextKey;
  reg_instance : ContextInstanceKey;
  metadata_compat_map_key : option ContextKey;
  rebased_from_equivalent_root : bool;
  reg_state : ContextState;
}.

(** ** Field updates *)

Definition set_files (m : gmap NormalizedPath FileEntry) (g : DepGraph) : DepGraph :=
  mkGraph m (contexts g) (rustc_externs g) (rustc_check_metadata_compat g) (equivalent_contexts g)
    (checks g) (hits g) (misses g) (graph_dirty g).
Definition set_contexts (m : gmap ContextKey ContextEntry) (g : DepGraph) : DepGraph :=
  mkGraph (files g) m (rustc_externs g) (rustc_check_metadata_compat g) (equivalent_contexts g)
    (checks g) (hits g) (misses g) (graph_dirty g).
Definition set_externs (m : gmap ContextKey (list (bytes * NormalizedPath))) (g : DepGraph) : DepGraph :=
  mkGraph (files g) (contexts g) m (rustc_check_metadata_compat g) (equivalent_contexts g)
    (checks g) (hits g) (misses g) (graph_dirty g).
Definition set_compat (m : gmap ContextKey ContextKey) (g : DepGraph) : DepGraph :=
  mkGraph (files g) (contexts g) (rustc_externs g) m (equivalent_contexts g)
    (checks g) (hits g) (misses g) (graph_dirty g).
Definition set_equivalents (m : gmap ContextKey (list ContextKey)) (g : DepGraph) : DepGraph :=
  mkGraph (files g) (contexts g) (rustc_externs g) (rustc_check_metadata_compat g) m
    (checks g) (hits g) (misses g) (graph_dirty g).
Definition set_counters (c h m : Z) (g : DepGraph) : DepGraph :=
  mkGraph (files g) (contexts g) (rustc_externs g) (rustc_check_metadata_compat g)
    (equivalent_contexts g) c h m (graph_dirty g).
Definition set_graph_dirty (d : bool) (g : DepGraph) : DepGraph :=
  mkGraph (files g) (contexts g) (rustc_externs g) (rustc_check_metadata_compat g)
    (equivalent_contexts g) (checks g) (hits g) (misses g) d.

(** [fetch_add(1)] on the counters. *)
Definition add_check (g : DepGraph) : DepGraph :=
  set_counters (wrap64 (checks g + 1)) (hits g) (misses g) g.
Definition add_hit (g : DepGraph) : DepGraph :=
  set_counters (checks g) (wrap64 (hits g + 1)) (misses g) g.
Definition add_miss (g : DepGraph) : DepGraph :=
  set_counters (checks g) (hits g) (wrap64 (misses g + 1)) g.

Definition put_entry (key : ContextKey) (e : ContextEntry) (g : DepGraph) : DepGraph :=
  set_contexts (<[key := e]> (contexts g)) g.

Definition set_accessed (now : Z) (e : ContextEntry) : ContextEntry :=
  mkEntry (logical_key e) (ce_context e) (ce_key_root e) (resolved_includes e) (unresolved_includes e)
    (has_computed_includes e) (artifact_key e) (last_file_hashes e) (rustc_env_deps e) now (ce_state e).
Definition set_state (s : ContextState) (e : ContextEntry) : ContextEntry :=
  mkEntry (logical_key e) (ce_context e) (ce_key_root e) (resolved_includes e) (unresolved_includes e)
    (has_computed_includes e) (artifact_key e) (last_file_hashes e) (rustc_env_deps e)
    (last_accessed_unix_ms e) s.
Definition set_artifact_key (k : option ArtifactKey) (e : ContextEntry) : ContextEntry :=
  mkEntry (logical_key e) (ce_context e) (ce_key_root e) (resolved_includes e) (unresolved_includes e)
    (has_computed_includes e) k (last_file_hashes e) (rustc_env_deps e) (last_accessed_unix_ms e)
    (ce_state e).
Definition set_env_deps (deps : list (bytes * option ContentHash)) (e : ContextEntry) : ContextEntry :=
  mkEntry (logical_key e) (ce_context e) (ce_key_root e) (resolved_includes e) (unresolved_includes e)
    (has_computed_includes e) (artifact_key e) (last_file_hashes e) deps (last_accessed_unix_ms e)
    (ce_state e).
Definition set_scan (scan : ScanResult) (e : ContextEntry) : ContextEntry :=
  mkEntry (logical_key e) (ce_context e) (ce_key_root e) (resolved scan) (unresolved scan)
    (has_computed scan) (artifact_key e) (last_file_hashes e) (rustc_env_deps e)
    (last_accessed_unix_ms e) (ce_state e).
Definition set_file_hashes (l : list (NormalizedPath * ContentHash)) (e : ContextEntry) : ContextEntry :=
  mkEntry (logical_key e) (ce_context e) (ce_key_root e) (resolved_includes e) (unresolved_includes e)
    (has_computed_includes e) (artifact_key e) l (rustc_env_deps e) (last_accessed_unix_ms e)
    (ce_state e).

(** ** The graph itself ([mod.rs]) *)

Definition graph_new : DepGraph := mkGraph ∅ ∅ ∅ ∅ ∅ 0 0 0 false.

Definition graph_is_dirty (g : DepGraph) : bool := graph_dirty g.
Definition graph_take_dirty (g : DepGraph) : DepGraph * bool := (set_graph_dirty false g, graph_dirty g).
Definition graph_mark_dirty (g : DepGraph) : DepGraph := set_graph_dirty true g.

Definition from_maps_with_rustc_externs (fs : gmap NormalizedPath FileEntry)
    (cs : gmap ContextKey ContextEntry) (xs : gmap ContextKey (list (bytes * NormalizedPath))) :
    DepGraph :=
  mkGraph fs cs xs ∅ ∅ 0 0 0 false.

Definition cached_normalize_key_path (path : bytes) (key_root : option bytes) : bytes :=
  normalize_key_path path key_root.

Definition rustc_extern_inputs (g : DepGraph) (key : ContextKey) :
    option (list (bytes * NormalizedPath)) := rustc_externs g !! key.

Definition rustc_env_dep_inputs (g : DepGraph) (key : ContextKey) :
    option (list (bytes * option ContentHash)) := rustc_env_deps <$> contexts g !! key.

Definition resolve_instance_key (g : DepGraph) (key : ContextKey) : option ContextKey :=
  if bool_decide (is_Some (contexts g !! key)) then Some key
  else match equivalent_contexts g !! key with
       | Some [instance] => Some instance
       | _ => None
       end.

Definition rebase_project_path (path : NormalizedPath) (old_root new_root : option NormalizedPath) :
    NormalizedPath :=
  match old_root, new_root with
  | Some old_root, Some new_root =>
      match np_strip_prefix path old_root with
      | Some relative => np_join new_root relative
      | None => path
      end
  | _, _ => path
  end.

Fixpoint collect_rustc_extern_hashes (externs : list (bytes * NormalizedPath))
    (get_hash : bytes -> option ContentHash) : option (list (bytes * ContentHash)) :=
  match externs with
  | [] => Some []
  | (name, path) :: rest =>
      h ← get_hash path;
      hs ← collect_rustc_extern_hashes rest get_hash;
      Some ((name, h) :: hs)
  end.

Definition drifted_paths (last_hashes current : list (NormalizedPath * ContentHash)) :
    list NormalizedPath :=
  if bool_decide (last_hashes = []) then []
  else
    let old_map : gmap bytes ContentHash :=
      fold_left (fun m '(p, h) => <[p := h]> m) last_hashes ∅ in
    NormalizedPath_new <$>
      (filter (fun '(p, h) => old_map !! p <> Some h) current).*1.

Definition format_drift_for_log (drifted : list NormalizedPath) : bytes :=
  if bool_decide (drifted = []) then ""
  else ", drifted=[" +:+ String.concat "," ((fun p => default p (file_name p)) <$> take 5 drifted)
       +:+ "]".

(** The closure [fresh_or_hash_match] of the three check functions. *)
Definition fresh_or_hash_match (is_fresh : bytes -> bool) (get_hash : bytes -> option ContentHash)
    (last_hashes : list (NormalizedPath * ContentHash)) (path : NormalizedPath) : bool :=
  if is_fresh path then true
  else match get_hash path with
       | Some current =>
           existsb (fun '(p, h) => bool_decide (p = path) && bool_decide (h = current)) last_hashes
       | None => false
       end.

(** The loop that pushes a path and its hash for each of [paths]; it stops at
    the first path without a hash and names it. *)
Fixpoint push_hashes (get_hash : bytes -> option ContentHash) (paths : list NormalizedPath)
    (acc : list (NormalizedPath * ContentHash)) :
    NormalizedPath + list (NormalizedPath * ContentHash) :=
  match paths with
  | [] => inr acc
  | p :: rest =>
      match get_hash p with
      | Some h => push_hashes get_hash rest (acc ++ [(p, h)])
      | None => inl p
      end
  end.

Section graph.
Context {B3 : Blake3} (host_salt : bytes) (equivalents_var : option bytes).

Definition ContextInstanceKey_new (logical : ContextKey) (source_file : NormalizedPath)
    (key_root : option NormalizedPath) : ContextInstanceKey :=
  mkInstance logical
    (blake3 (("zccache-context-instance-v1" +:+ nul) +:+ logical +:+ case_key source_file +:+ nul
             +:+ match key_root with Some root => case_key root | None => "no-key-root" end)).

Definition map_key (i : ContextInstanceKey) : ContextKey := ik_concrete i.

Definition hash_env_dep_value (value : option bytes) : option ContentHash := hash_bytes <$> value.

Definition collect_rustc_env_hashes (names : list (bytes * option ContentHash))
    (env_value : bytes -> option bytes) : list (bytes * option ContentHash) :=
  (fun '(name, _) => (name, hash_env_dep_value (env_value name))) <$> names.

(** ** Registration ([register.rs]) *)

(** The limit is read once from [ZCCACHE_MAX_EQUIVALENT_CONTEXTS]. *)
Definition max_equivalent_contexts : Z :=
  default 16 (s ← equivalents_var; v ← parse_u64 (str_trim s);
              if 1 <=? v then Some v else None).

Definition cold_entry (now : Z) (key : ContextKey) (ctx : CompileContext)
    (key_root : option NormalizedPath) : ContextEntry :=
  mkEntry key ctx key_root [] [] false None [] [] now Cold.

(** What a checkout inherits from an equivalent one: paths moved to its root. *)
Definition rebased_entry (now : Z) (ctx : CompileContext) (key_root : option NormalizedPath)
    (candidate : ContextEntry) : ContextEntry :=
  let rebase path := rebase_project_path path (ce_key_root candidate) key_root in
  mkEntry (logical_key candidate) ctx key_root
    (rebase <$> resolved_includes candidate)
    (unresolved_includes candidate) (has_computed_includes candidate) (artifact_key candidate)
    ((fun '(p, h) => (rebase p, h)) <$> last_file_hashes candidate)
    (rustc_env_deps candidate) now (ce_state candidate).

(** [iter().find_map(|k| contexts.get(k))]. *)
Fixpoint find_live (g : DepGraph) (instances : list ContextKey) : option ContextEntry :=
  match instances with
  | [] => None
  | k :: rest => match contexts g !! k with Some e => Some e | None => find_live g rest end
  end.

(** Dropping the oldest instance of a logical key. *)
Definition evict_instance (evicted : ContextKey) (g : DepGraph) : DepGraph :=
  set_compat (filter (fun '(_, v) => v <> evicted) (rustc_check_metadata_compat g))
    (set_externs (delete evicted (rustc_externs g))
       (set_contexts (delete evicted (contexts g)) g)).

Definition register_context_entry (now : Z) (key : ContextKey) (ctx : CompileContext)
    (key_root : option NormalizedPath) (g : DepGraph) : DepGraph * ContextRegistration :=
  let instance := ContextInstanceKey_new key (cc_source_file ctx) key_root in
  let instance_key := map_key instance in
  let g := graph_mark_dirty g in
  match contexts g !! instance_key with
  | Some existing =>
      (put_entry instance_key (set_accessed now existing) g,
       mkRegistration key instance_key instance None false (ce_state existing))
  | None =>
      let candidate := instances ← equivalent_contexts g !! key; find_live g instances in
      let rebased :=
        match candidate with
        | Some e => bool_decide (is_Some (ce_key_root e)) && bool_decide (is_Some key_root)
                    && negb (bool_decide (ce_key_root e = key_root))
        | None => false
        end in
      let entry :=
        match candidate with
        | None => cold_entry now key ctx key_root
        | Some candidate => rebased_entry now ctx key_root candidate
        end in
      let g := put_entry instance_key entry g in
      let instances :=
        match equivalent_contexts g !! key with
        | Some instances =>
            if bool_decide (instance_key ∈ instances) then instances
            else instances ++ [instance_key]
        | None => [instance_key]
        end in
      let '(instances, evicted) :=
        if max_equivalent_contexts <? Z.of_nat (length instances)
        then (tail instances, head instances) else (instances, None) in
      let g := set_equivalents (<[key := instances]> (equivalent_contexts g)) g in
      let g := match evicted with Some evicted => evict_instance evicted g | None => g end in
      (g, mkRegistration key instance_key instance None rebased (ce_state entry))
  end.

Definition register_with_key_and_root_result (now : Z) (key : ContextKey) (ctx : CompileContext)
    (key_root : option NormalizedPath) (g : DepGraph) : DepGraph * ContextRegistration :=
  let '(g, registration) := register_context_entry now key ctx key_root g in
  (set_externs (delete (reg_map_key registration) (rustc_externs g)) g, registration).

Definition register_with_key_and_root (now : Z) (key : ContextKey) (ctx : CompileContext)
    (key_root : option NormalizedPath) (g : DepGraph) : DepGraph * ContextKey :=
  let '(g, registration) := register_with_key_and_root_result now key ctx key_root g in
  (g, reg_key registration).

Definition register_with_key (now : Z) (key : ContextKey) (ctx : CompileContext) (g : DepGraph) :
    DepGraph * ContextKey := register_with_key_and_root now key ctx None g.

Definition register_with_root_and_salt_result (now : Z) (ctx : CompileContext)
    (key_root : option NormalizedPath) (worktree_salt : option bytes) (g : DepGraph) :
    DepGraph * ContextRegistration :=
  register_with_key_and_root_result now
    (compute_context_key_with host_salt ctx key_root worktree_salt cached_normalize_key_path)
    ctx key_root g.

Definition register_with_root_result (now : Z) (ctx : CompileContext)
    (key_root : option NormalizedPath) (g : DepGraph) : DepGraph * ContextRegistration :=
  register_with_root_and_salt_result now ctx key_root None g.

Definition register_with_root (now : Z) (ctx : CompileContext) (key_root : option NormalizedPath)
    (g : DepGraph) : DepGraph * ContextKey :=
  let '(g, registration) := register_with_root_result now ctx key_root g in
  (g, reg_key registration).

Definition register_with_root_and_salt (now : Z) (ctx : CompileContext)
    (key_root : option NormalizedPath) (worktree_salt : option bytes) (g : DepGraph) :
    DepGraph * ContextKey :=
  let '(g, registration) := register_with_root_and_salt_result now ctx key_root worktree_salt g in
  (g, reg_key registration).

Definition graph_register (now : Z) (ctx : CompileContext) (g : DepGraph) : DepGraph * ContextKey :=
  register_with_root now ctx None g.

Definition rustc_metadata_compat_map_key (compat_key : ContextKey) (source_file : NormalizedPath)
    (key_root : option NormalizedPath) : ContextKey :=
  map_key (ContextInstanceKey_new compat_key source_file key_root).

Definition register_rustc_with_key_and_root_result (now : Z) (key : ContextKey) (ctx : CompileContext)
    (key_root : option NormalizedPath) (externs : list (bytes * NormalizedPath))
    (check_metadata_compat_key : option ContextKey) (g : DepGraph) : DepGraph * ContextRegistration :=
  let source_file := cc_source_file ctx in
  let '(g, r) := register_context_entry now key ctx key_root g in
  let g := set_externs (<[reg_map_key r := externs]> (rustc_externs g)) g in
  let compat_map_key :=
    (fun compat_key => rustc_metadata_compat_map_key compat_key source_file key_root)
      <$> check_metadata_compat_key in
  let g :=
    match compat_map_key with
    | Some k => set_compat (<[k := reg_map_key r]> (rustc_check_metadata_compat g)) g
    | None => g
    end in
  (g, mkRegistration (reg_key r) (reg_map_key r) (reg_instance r) compat_map_key
        (rebased_from_equivalent_root r) (reg_state r)).

Definition is_cold (g : DepGraph) (key : ContextKey) : bool :=
  match resolve_instance_key g key with
  | None => true
  | Some key =>
      match contexts g !! key with
      | Some entry => bool_decide (ce_state entry = Cold)
      | None => true
      end
  end.

(** ** Recording a compile ([update.rs]) *)

Definition update_with_env (now : Z) (key : ContextKey) (scan_result : ScanResult)
    (get_hash : bytes -> option ContentHash) (env_dep_names : list bytes)
    (env_value : bytes -> option bytes) (g : DepGraph) : DepGraph * option ArtifactKey :=
  match resolve_instance_key g key with
  | None => (g, None)
  | Some key =>
      let env_hashes := (fun name => (name, hash_env_dep_value (env_value name))) <$> env_dep_names in
      let externs := rustc_extern_inputs g key in
      match contexts g !! key with
      | None => (g, None)
      | Some entry =>
          let entry := set_accessed now (set_scan scan_result entry) in
          let failed := (put_entry key entry g, None) in
          match get_hash (cc_source_file (ce_context entry)) with
          | None => failed
          | Some source_hash =>
          match push_hashes get_hash (resolved_includes entry)
                  [(cc_source_file (ce_context entry), source_hash)] with
          | inl _ => failed
          | inr file_hashes =>
          match push_hashes get_hash (force_includes (ce_context entry)) file_hashes with
          | inl _ => failed
          | inr file_hashes =>
          let outcome :=
            match externs with
            | Some externs =>
                extern_hashes ← collect_rustc_extern_hashes externs get_hash;
                let base := compute_rustc_artifact_key_with_root_with (logical_key entry) file_hashes
                              extern_hashes (ce_key_root entry) cached_normalize_key_path in
                Some (fold_rustc_env_deps_into_artifact_key base env_hashes,
                      sort_by_key fst env_hashes)
            | None =>
                Some (compute_artifact_key_normalized_with_root (logical_key entry) file_hashes
                        (ce_key_root entry), env_hashes)
            end in
          match outcome with
          | None => failed
          | Some (artifact_key, env_hashes) =>
              (graph_mark_dirty
                 (put_entry key
                    (set_env_deps env_hashes
                       (set_file_hashes file_hashes
                          (set_artifact_key (Some artifact_key) (set_state Warm entry)))) g),
               Some artifact_key)
          end end end end
      end
  end.

Definition graph_update (now : Z) (key : ContextKey) (scan_result : ScanResult)
    (get_hash : bytes -> option ContentHash) (g : DepGraph) : DepGraph * option ArtifactKey :=
  update_with_env now key scan_result get_hash [] (fun _ => None) g.

(** ** Verdicts ([check.rs]) *)

(** The key of the entry's files under their current hashes, with the current
    values of its environment reads; [None] when an extern has no hash.  The
    fold sorts the values in place, so the sorted list is returned with it. *)
Definition current_key (externs : option (list (bytes * NormalizedPath))) (entry : ContextEntry)
    (file_hashes : list (NormalizedPath * ContentHash)) (get_hash : bytes -> option ContentHash)
    (env_value : bytes -> option bytes) :
    option (ArtifactKey * bool * list (bytes * option ContentHash)) :=
  match externs with
  | Some externs =>
      extern_hashes ← collect_rustc_extern_hashes externs get_hash;
      let base := compute_rustc_artifact_key_with_root_with (logical_key entry) file_hashes
                    extern_hashes (ce_key_root entry) cached_normalize_key_path in
      let env_hashes := collect_rustc_env_hashes (rustc_env_deps entry) env_value in
      let changed := negb (bool_decide (env_hashes = rustc_env_deps entry)) in
      Some (fold_rustc_env_deps_into_artifact_key base env_hashes, changed,
            sort_by_key fst env_hashes)
  | None =>
      Some (compute_artifact_key_with (logical_key entry) file_hashes (ce_key_root entry)
              cached_normalize_key_path, false, [])
  end.

Definition check_with_env (now : Z) (key : ContextKey) (is_fresh : bytes -> bool)
    (get_hash : bytes -> option ContentHash) (env_value : bytes -> option bytes) (g : DepGraph) :
    DepGraph * CacheVerdict :=
  match resolve_instance_key g key with
  | None => (add_miss g, VCold)
  | Some key =>
  let g := add_check g in
  let externs := rustc_extern_inputs g key in
  match contexts g !! key with
  | None => (add_miss g, VCold)
  | Some entry =>
  let entry := set_accessed now entry in
  let g := graph_mark_dirty (put_entry key entry g) in
  if bool_decide (ce_state entry = Cold) then (add_miss g, VCold)
  else if has_computed_includes entry then (add_miss g, VNeedsPreprocessor)
  else
  let fresh := fresh_or_hash_match is_fresh get_hash (last_file_hashes entry) in
  let source_file := cc_source_file (ce_context entry) in
  let source_fresh := fresh source_file in
  let changed_headers :=
    filter (fun p => fresh p = false) (resolved_includes entry)
    ++ filter (fun p => fresh p = false) (force_includes (ce_context entry)) in
  if negb (bool_decide (changed_headers = [])) then
    (put_entry key (set_state Stale entry) (add_miss g), VHeadersChanged changed_headers)
  else
  match get_hash source_file with
  | None => (add_miss g, VCold)
  | Some h =>
  match push_hashes get_hash (resolved_includes entry) [(source_file, h)] with
  | inl _ => (add_miss g, VCold)
  | inr file_hashes =>
  match push_hashes get_hash (force_includes (ce_context entry)) file_hashes with
  | inl _ => (add_miss g, VCold)
  | inr file_hashes =>
  match current_key externs entry file_hashes get_hash env_value with
  | None => (add_miss g, VCold)
  | Some (key_now, changed, env_hashes) =>
      let env_snapshot := if changed : bool then Some env_hashes else None in
      if source_fresh then
        if bool_decide (artifact_key entry = Some key_now) then (add_hit g, VHit key_now)
        else
        let drifted := drifted_paths (last_file_hashes entry) file_hashes in
        if negb (bool_decide (drifted = [])) then
          (put_entry key (set_state Stale entry) (add_miss g), VHeadersChanged drifted)
        else
        match env_snapshot with
        | Some snapshot =>
            (add_hit (put_entry key (set_artifact_key (Some key_now) (set_env_deps snapshot entry)) g),
             VSourceChanged key_now)
        | None => (add_miss g, VCold)
        end
      else
        let entry := match env_snapshot with
                     | Some snapshot => set_env_deps snapshot entry
                     | None => entry
                     end in
        (add_hit (put_entry key (set_artifact_key (Some key_now) entry) g), VSourceChanged key_now)
  end end end end
  end end.

Definition check (now : Z) (key : ContextKey) (is_fresh : bytes -> bool)
    (get_hash : bytes -> option ContentHash) (g : DepGraph) : DepGraph * CacheVerdict :=
  check_with_env now key is_fresh get_hash (fun _ => None) g.

(** The first eight hex digits of a key. *)
Definition short_hex (k : ArtifactKey) : bytes := String.substring 0 8 (to_hex k).

Definition check_diagnostic_with_env (now : Z) (key : ContextKey) (is_fresh : bytes -> bool)
    (get_hash : bytes -> option ContentHash) (env_value : bytes -> option bytes) (g : DepGraph) :
    DepGraph * (CacheVerdict * bytes) :=
  match resolve_instance_key g key with
  | None => (add_miss g, (VCold, "context_key not registered"))
  | Some key =>
  let g := add_check g in
  let externs := rustc_extern_inputs g key in
  match contexts g !! key with
  | None => (add_miss g, (VCold, "context_key not registered"))
  | Some entry =>
  let entry := set_accessed now entry in
  let g := graph_mark_dirty (put_entry key entry g) in
  if bool_decide (ce_state entry = Cold) then
    (add_miss g, (VCold, "context never updated (state=Cold)"))
  else if has_computed_includes entry then
    (add_miss g, (VNeedsPreprocessor, "has computed includes, needs preprocessor"))
  else
  let fresh := fresh_or_hash_match is_fresh get_hash (last_file_hashes entry) in
  let source_file := cc_source_file (ce_context entry) in
  let source_fresh := fresh source_file in
  let changed_headers :=
    filter (fun p => fresh p = false) (resolved_includes entry)
    ++ filter (fun p => fresh p = false) (force_includes (ce_context entry)) in
  if negb (bool_decide (changed_headers = [])) then
    (put_entry key (set_state Stale entry) (add_miss g),
     (VHeadersChanged changed_headers,
      "headers changed: [" +:+ String.concat ", " changed_headers +:+ "]"))
  else
  match get_hash source_file with
  | None => (add_miss g, (VCold, "source hash missing: " +:+ source_file))
  | Some h =>
  match push_hashes get_hash (resolved_includes entry) [(source_file, h)] with
  | inl header => (add_miss g, (VCold, "header hash missing: " +:+ header))
  | inr file_hashes =>
  match push_hashes get_hash (force_includes (ce_context entry)) file_hashes with
  | inl fi => (add_miss g, (VCold, "force-include hash missing: " +:+ fi))
  | inr file_hashes =>
  match current_key externs entry file_hashes get_hash env_value with
  | None => (add_miss g, (VCold, "rustc extern hash missing"))
  | Some (key_now, rustc_env_changed, env_hashes) =>
      let env_snapshot := if rustc_env_changed : bool then Some env_hashes else None in
      let with_snapshot entry :=
        match env_snapshot with Some snapshot => set_env_deps snapshot entry | None => entry end in
      if source_fresh then
        if bool_decide (artifact_key entry = Some key_now) then
          (add_hit g, (VHit key_now, "hit: artifact_key=" +:+ short_hex key_now))
        else
        let old_hex := default "none" (short_hex <$> artifact_key entry) in
        let drifted := drifted_paths (last_file_hashes entry) file_hashes in
        let file_count := pretty (length file_hashes) in
        if negb (bool_decide (drifted = [])) then
          (put_entry key (set_state Stale entry) (add_miss g),
           (VHeadersChanged drifted,
            "drift: was=" +:+ old_hex +:+ ", files=" +:+ file_count +:+ format_drift_for_log drifted
            +:+ " (journal reported fresh; recompile forced to refresh "
            +:+ "resolved_includes and store under the write-side key)"))
        else if rustc_env_changed then
          (put_entry key (with_snapshot (set_artifact_key (Some key_now) entry)) (add_hit g),
           (VSourceChanged key_now,
            "rustc env dependency values changed; looking up the key for the current values"))
        else
          (add_miss g,
           (VCold, "artifact key missing or stale (was=" +:+ old_hex +:+ ", files=" +:+ file_count
                   +:+ "); recompile forced"))
      else
        (add_hit (put_entry key (with_snapshot (set_artifact_key (Some key_now) entry)) g),
         (VSourceChanged key_now, "source content changed"))
  end end end end
  end end.

Definition check_diagnostic (now : Z) (key : ContextKey) (is_fresh : bytes -> bool)
    (get_hash : bytes -> option ContentHash) (g : DepGraph) : DepGraph * (CacheVerdict * bytes) :=
  check_diagnostic_with_env now key is_fresh get_hash (fun _ => None) g.

Definition try_fast_hit_with_env (key : ContextKey) (get_hash : bytes -> option ContentHash)
    (env_value : bytes -> option bytes) (g : DepGraph) : DepGraph * option ArtifactKey :=
  match resolve_instance_key g key with
  | None => (g, None)
  | Some key =>
  let externs := rustc_extern_inputs g key in
  match contexts g !! key with
  | None => (g, None)
  | Some entry =>
  if bool_decide (ce_state entry = Cold) || has_computed_includes entry then (g, None)
  else
  match artifact_key entry with
  | None => (g, None)
  | Some stored_key =>
  match get_hash (cc_source_file (ce_context entry)) with
  | None => (g, None)
  | Some h =>
  match push_hashes get_hash (resolved_includes entry) [(cc_source_file (ce_context entry), h)] with
  | inl _ => (g, None)
  | inr file_hashes =>
  match push_hashes get_hash (force_includes (ce_context entry)) file_hashes with
  | inl _ => (g, None)
  | inr file_hashes =>
  match current_key externs entry file_hashes get_hash env_value with
  | None => (g, None)
  | Some (computed, _, _) =>
      if bool_decide (computed = stored_key) then (add_hit g, Some computed) else (g, None)
  end end end end end
  end end.

Definition try_fast_hit (key : ContextKey) (get_hash : bytes -> option ContentHash) (g : DepGraph) :
    DepGraph * option ArtifactKey := try_fast_hit_with_env key get_hash (fun _ => None) g.

(** The first path of [paths] that is neither fresh nor of a recorded hash. *)
Fixpoint first_changed (fresh : bytes -> bool) (paths : list NormalizedPath) : option NormalizedPath :=
  match paths with
  | [] => None
  | p :: rest => if fresh p then first_changed fresh rest else Some p
  end.

Definition check_rustc_metadata_compat_diagnostic_with_env (compat_key : ContextKey)
    (current_externs : list (bytes * NormalizedPath)) (is_fresh : bytes -> bool)
    (get_hash : bytes -> option ContentHash) (env_value : bytes -> option bytes) (g : DepGraph) :
    DepGraph * (CacheVerdict * bytes * option ContextKey) :=
  match rustc_check_metadata_compat g !! compat_key with
  | None => (g, (VCold, "rustc metadata compatibility alias not registered", None))
  | Some actual_key =>
  let answer v reason := (g, (v, "rustc metadata compatibility " +:+ reason, Some actual_key)) in
  match rustc_extern_inputs g actual_key with
  | None => answer VCold "candidate has no extern inputs"
  | Some candidate_externs =>
  match contexts g !! actual_key with
  | None => answer VCold "candidate context missing"
  | Some entry =>
  if bool_decide (ce_state entry = Cold) then answer VCold "candidate is cold"
  else if has_computed_includes entry then answer VNeedsPreprocessor "candidate needs preprocessor"
  else
  match artifact_key entry with
  | None => answer VCold "candidate has no artifact key"
  | Some key =>
  let fresh := fresh_or_hash_match is_fresh get_hash (last_file_hashes entry) in
  let source_file := cc_source_file (ce_context entry) in
  if negb (fresh source_file) then answer (VHeadersChanged [source_file]) "source changed"
  else
  match first_changed fresh (resolved_includes entry) with
  | Some header => answer (VHeadersChanged [header]) ("header changed: " +:+ header)
  | None =>
  match first_changed fresh (force_includes (ce_context entry)) with
  | Some fi => answer (VHeadersChanged [fi]) ("force-include changed: " +:+ fi)
  | None =>
  match collect_rustc_extern_hashes current_externs get_hash with
  | None => answer VCold "current extern hash missing"
  | Some current_hashes =>
  match collect_rustc_extern_hashes candidate_externs get_hash with
  | None => answer VCold "candidate extern hash missing"
  | Some candidate_hashes =>
  if negb (bool_decide (sort_by_key fst current_hashes = sort_by_key fst candidate_hashes))
  then answer VCold "extern content differs"
  else if negb (bool_decide (rustc_env_deps entry = [])) &&
          negb (bool_decide (collect_rustc_env_hashes (rustc_env_deps entry) env_value
                             = rustc_env_deps entry))
  then answer VCold "env-dep values changed"
  else (add_hit g, (VHit key, "rustc metadata compatibility hit", Some actual_key))
  end end end end end
  end end end.

Definition check_rustc_metadata_compat_diagnostic (compat_key : ContextKey)
    (current_externs : list (bytes * NormalizedPath)) (is_fresh : bytes -> bool)
    (get_hash : bytes -> option ContentHash) (g : DepGraph) :
    DepGraph * (CacheVerdict * bytes * option ContextKey) :=
  check_rustc_metadata_compat_diagnostic_with_env compat_key current_externs is_fresh get_hash
    (fun _ => None) g.
End graph.

(** ** Maintenance and accessors ([maintenance.rs]) *)

Definition references_artifact_key (g : DepGraph) (artifact_key_hex : bytes) : bool :=
  bool_decide (map_Exists (fun _ e => to_hex <$> artifact_key e = Some artifact_key_hex) (contexts g)).

(** The contexts whose recorded key is one of [evicted_hex]. *)
Definition keyed_by (evicted_hex : gset bytes) (e : ContextEntry) : bool :=
  match artifact_key e with
  | Some ak => bool_decide (to_hex ak ∈ evicted_hex)
  | None => false
  end.

(** One step of the clearing loop: the entry's key is cleared if it has one. *)
Definition clear_artifact_key (st : gmap ContextKey ContextEntry * nat) (k : ContextKey) :
    gmap ContextKey ContextEntry * nat :=
  let '(m, cleared) := st in
  match m !! k with
  | Some e =>
      match artifact_key e with
      | Some _ => (<[k := set_artifact_key None e]> m, S cleared)
      | None => (m, cleared)
      end
  | None => (m, cleared)
  end.

Definition invalidate_artifact_keys (evicted_hex : gset bytes) (g : DepGraph) : DepGraph * nat :=
  if bool_decide (evicted_hex = ∅) then (g, 0%nat)
  else
    let to_clear := (map_to_list (filter (fun '(_, e) => keyed_by evicted_hex e = true)
                                    (contexts g))).*1 in
    let '(m, cleared) := fold_left clear_artifact_key to_clear (contexts g, 0%nat) in
    let g := set_contexts m g in
    ((if (0 <? cleared)%nat then graph_mark_dirty g else g), cleared).

(** One removal of the eviction loop. *)
Definition remove_context (st : gmap ContextKey ContextEntry * nat) (k : ContextKey) :
    gmap ContextKey ContextEntry * nat :=
  let '(m, removed) := st in
  match m !! k with Some _ => (delete k m, S removed) | None => (m, removed) end.

(** The paths an entry refers to. *)
Definition entry_paths (e : ContextEntry) : gset NormalizedPath :=
  list_to_set (resolved_includes e) ∪ {[cc_source_file (ce_context e)]}
  ∪ list_to_set (force_includes (ce_context e)).

Definition referenced_paths (cs : gmap ContextKey ContextEntry) : gset NormalizedPath :=
  map_fold (fun _ e paths => paths ∪ entry_paths e) ∅ cs.

(** [retain] on one equivalence class: drop dead instances, and the class with
    its last instance. *)
Definition retain_live (cs : gmap ContextKey ContextEntry) (instances : list ContextKey) :
    option (list ContextKey) :=
  let live := filter (fun k => is_Some (cs !! k)) instances in
  if bool_decide (live = []) then None else Some live.

Definition evict_contexts (keys : list ContextKey) (g : DepGraph) : DepGraph * nat :=
  let '(cs, removed) := fold_left remove_context keys (contexts g, 0%nat) in
  let g := set_contexts cs g in
  let g := if (0 <? removed)%nat then graph_mark_dirty g else g in
  let g := set_equivalents (omap (retain_live cs) (equivalent_contexts g)) g in
  let live_contexts := dom cs in
  let g := set_externs (filter (fun '(k, _) => k ∈ live_contexts) (rustc_externs g)) g in
  let g := set_compat (filter (fun '(_, v) => v ∈ live_contexts)
                         (rustc_check_metadata_compat g)) g in
  let referenced := referenced_paths cs in
  (set_files (filter (fun '(p, _) => p ∈ referenced) (files g)) g, removed).

Definition expired (max_age_ms now_ms : Z) (max_age_zero : bool) (e : ContextEntry) : bool :=
  max_age_zero || (max_age_ms <? saturating_sub now_ms (last_accessed_unix_ms e)).

(** [max_age] is given in nanoseconds; milliseconds that do not fit saturate. *)
Definition trim_at (max_age_ns : Z) (now_ms : Z) (g : DepGraph) : DepGraph * nat :=
  let millis := max_age_ns / 1000000 in
  let max_age_ms := if millis <? 2 ^ 64 then millis else 2 ^ 64 - 1 in
  evict_contexts
    (map_to_list (filter (fun '(_, e) => expired max_age_ms now_ms (max_age_ns =? 0) e = true)
                    (contexts g))).*1 g.

Definition graph_trim (max_age_ns : Z) (now : Z) (g : DepGraph) : DepGraph * nat :=
  trim_at max_age_ns now g.

Definition graph_clear (g : DepGraph) : DepGraph :=
  graph_mark_dirty (mkGraph ∅ ∅ ∅ ∅ ∅ 0 0 0 (graph_dirty g)).

Definition stats (g : DepGraph) : DepGraphStats :=
  mkStats (size (files g)) (size (contexts g)) (checks g) (hits g) (misses g).

(** The entry a key resolves to. *)
Definition resolved_entry (g : DepGraph) (key : ContextKey) : option ContextEntry :=
  k ← resolve_instance_key g key; contexts g !! k.

Definition get_state (g : DepGraph) (key : ContextKey) : option ContextState :=
  ce_state <$> resolved_entry g key.
Definition logical_context_key (g : DepGraph) (key : ContextKey) : option ContextKey :=
  logical_key <$> resolved_entry g key.
Definition state_breakdown (g : DepGraph) : nat * nat * nat :=
  let count s := size (filter (fun '(_, e) => ce_state e = s) (contexts g)) in
  (count Cold, count Warm, count Stale).
Definition contexts_with_artifact_key (g : DepGraph) : nat :=
  size (filter (fun '(_, e) => is_Some (artifact_key e)) (contexts g)).
Definition get_includes (g : DepGraph) (key : ContextKey) : option (list NormalizedPath) :=
  resolved_includes <$> resolved_entry g key.
Definition get_force_includes (g : DepGraph) (key : ContextKey) : option (list NormalizedPath) :=
  (fun e => force_includes (ce_context e)) <$> resolved_entry g key.
Definition get_rustc_externs (g : DepGraph) (key : ContextKey) :
    option (list (bytes * NormalizedPath)) :=
  k ← resolve_instance_key g key; rustc_extern_inputs g k.
Definition get_rustc_env_deps (g : DepGraph) (key : ContextKey) :
    option (list (bytes * option ContentHash)) :=
  k ← resolve_instance_key g key; rustc_env_dep_inputs g k.
Definition get_key_root (g : DepGraph) (key : ContextKey) : option NormalizedPath :=
  e ← resolved_entry g key; ce_key_root e.

Definition set_rustc_env_deps (key : ContextKey) (deps : list (bytes * option ContentHash))
    (g : DepGraph) : DepGraph :=
  match resolve_instance_key g key with
  | None => g
  | Some key =>
      match contexts g !! key with
      | Some entry => graph_mark_dirty (put_entry key (set_env_deps deps entry) g)
      | None => g
      end
  end.

Definition store_file_includes (instant : Z) (path : NormalizedPath) (l : list IncludeDirective)
    (g : DepGraph) : DepGraph :=
  graph_mark_dirty (set_files (<[path := mkFileEntry l instant]> (files g)) g).

Definition get_file_includes (g : DepGraph) (path : NormalizedPath) : option (list IncludeDirective) :=
  includes <$> files g !! path.

Definition mark_stale (key : ContextKey) (g : DepGraph) : DepGraph * bool :=
  match resolve_instance_key g key with
  | None => (g, false)
  | Some key =>
      match contexts g !! key with
      | Some entry => (graph_mark_dirty (put_entry key (set_state Stale entry) g), true)
      | None => (g, false)
      end
  end.
