(* ===== verification/DepGraphIndex.v ===== *)
(** * The indexes of the dependency graph stay consistent

    Whatever the daemon does to the graph ([zccache-depgraph/src/graph/]), its
    contexts, equivalence classes, extern inputs and metadata aliases agree;
    trimming and invalidation do exactly what they say. *)

From Stdlib Require Import Lia.
From S2P Require Import Prelude Path Hash RustStr ContextKeys DepGraph.

(** ** Consistency *)

Record graph_wf (limit : Z) (g : DepGraph) : Prop := {
  wf_class l k : equivalent_contexts g !! k = Some l ->
    l <> [] /\ NoDup l /\ Z.of_nat (length l) <= limit;
  wf_listed l lk k : equivalent_contexts g !! lk = Some l -> k ∈ l ->
    logical_key <$> contexts g !! k = Some lk;
  wf_live k lk : logical_key <$> contexts g !! k = Some lk ->
    exists l, equivalent_contexts g !! lk = Some l /\ k ∈ l;
  wf_externs k : is_Some (rustc_externs g !! k) -> is_Some (contexts g !! k);
  wf_compat c k : rustc_check_metadata_compat g !! c = Some k -> is_Some (contexts g !! k);
}.

(** [g'] differs from [g] inside the entries, their logical keys excepted, and
    in what is not an index. *)
Record same_index (g g' : DepGraph) : Prop := {
  si_equivalents : equivalent_contexts g' = equivalent_contexts g;
  si_externs : rustc_externs g' = rustc_externs g;
  si_compat : rustc_check_metadata_compat g' = rustc_check_metadata_compat g;
  si_logical k : logical_key <$> contexts g' !! k = logical_key <$> contexts g !! k;
}.

Lemma same_index_refl g : same_index g g.
Proof. by split. Qed.

Lemma same_index_put g0 g k e :
  same_index g0 g -> logical_key <$> contexts g0 !! k = Some (logical_key e) ->
  same_index g0 (put_entry k e g).
Proof.
  intros [? ? ? Hl] Hk. split; [done..|]. intros k'. simpl.
  destruct (decide (k = k')) as [->|].
  - by rewrite lookup_insert_eq, Hk.
  - by rewrite lookup_insert_ne.
Qed.

Lemma same_index_dirty g0 g b : same_index g0 g -> same_index g0 (set_graph_dirty b g).
Proof. intros []. by split. Qed.
Lemma same_index_counters g0 g c h m : same_index g0 g -> same_index g0 (set_counters c h m g).
Proof. intros []. by split. Qed.
Lemma same_index_files g0 g fs : same_index g0 g -> same_index g0 (set_files fs g).
Proof. intros []. by split. Qed.

#[export] Hint Resolve same_index_refl same_index_put same_index_dirty same_index_counters
  same_index_files : zccache.

Lemma fmap_is_Some_eq {A B} (f : A -> B) (o o' : option A) :
  f <$> o = f <$> o' -> is_Some o -> is_Some o'.
Proof. destruct o, o'; simpl; intros Heq [? Hs]; naive_solver. Qed.

Lemma same_index_wf limit g g' : same_index g g' -> graph_wf limit g -> graph_wf limit g'.
Proof.
  intros [He Hx Hc Hl] [Hclass Hlisted Hlive Hwx Hwc].
  split; intros *; rewrite ?He, ?Hx, ?Hc, ?Hl; eauto.
  - intros H. eapply fmap_is_Some_eq; [symmetry; apply Hl|eauto].
  - intros H. eapply fmap_is_Some_eq; [symmetry; apply Hl|eauto].
Qed.

Section invariant.
Context {B3 : Blake3} (host_salt : bytes) (equivalents_var : option bytes).

Lemma max_equivalent_contexts_pos : 1 <= max_equivalent_contexts equivalents_var.
Proof.
  unfold max_equivalent_contexts. destruct equivalents_var as [s|]; simpl; [|lia].
  destruct (parse_u64 (str_trim s)) as [v|]; simpl; [|lia]. destruct (Z.leb_spec 1 v); simpl; lia.
Qed.

(** Solves [same_index g (op g)] for the operations that only write entries. *)
Ltac entries_only :=
  repeat (case_match; simplify_eq/=);
  unfold graph_mark_dirty, add_miss, add_hit, add_check; simpl;
  repeat first [ apply same_index_refl | apply same_index_dirty | apply same_index_counters
               | apply same_index_files | apply same_index_put ];
  try (simpl in *; by simplify_option_eq).

Lemma update_index now key scan get_hash names env g :
  same_index g (update_with_env now key scan get_hash names env g).1.
Proof. unfold update_with_env. entries_only. Qed.

Lemma check_index now key is_fresh get_hash env g :
  same_index g (check_with_env now key is_fresh get_hash env g).1.
Proof. unfold check_with_env. entries_only. Qed.

Lemma check_diagnostic_index now key is_fresh get_hash env g :
  same_index g (check_diagnostic_with_env now key is_fresh get_hash env g).1.
Proof. unfold check_diagnostic_with_env. entries_only. Qed.

Lemma fast_hit_index key get_hash env g : same_index g (try_fast_hit_with_env key get_hash env g).1.
Proof. unfold try_fast_hit_with_env. entries_only. Qed.

Lemma compat_index key externs is_fresh get_hash env g :
  same_index g (check_rustc_metadata_compat_diagnostic_with_env key externs is_fresh get_hash env g).1.
Proof. unfold check_rustc_metadata_compat_diagnostic_with_env. entries_only. Qed.

Lemma mark_stale_index key g : same_index g (mark_stale key g).1.
Proof. unfold mark_stale. entries_only. Qed.

Lemma set_rustc_env_deps_index key deps g : same_index g (set_rustc_env_deps key deps g).
Proof. unfold set_rustc_env_deps. entries_only. Qed.

(** The clearing loop of [invalidate_artifact_keys]. *)
Lemma clear_loop ks m n k :
  (fold_left clear_artifact_key ks (m, n)).1 !! k =
    if decide (k ∈ ks) then set_artifact_key None <$> m !! k else m !! k.
Proof.
  assert (forall e, artifact_key e = None -> set_artifact_key None e = e) as Hnone.
  { intros []. simpl. by intros ->. }
  revert m n. induction ks as [|k0 ks IH]; intros m n; cbn [fold_left].
  { rewrite decide_False by apply not_elem_of_nil. done. }
  unfold clear_artifact_key at 2. destruct (m !! k0) as [e|] eqn:He.
  2:{ rewrite IH. destruct (decide (k = k0)) as [->|].
      - rewrite He. by do 2 case_decide.
      - by rewrite !(decide_ext (k ∈ k0 :: ks) (k ∈ ks)) by set_solver. }
  destruct (artifact_key e) as [ak|] eqn:Ha; rewrite IH; destruct (decide (k = k0)) as [->|].
  - rewrite lookup_insert_eq, He. rewrite (decide_True (P := k0 ∈ k0 :: ks)) by by left.
    by case_decide.
  - rewrite lookup_insert_ne by done.
    by rewrite !(decide_ext (k ∈ k0 :: ks) (k ∈ ks)) by set_solver.
  - rewrite He. rewrite (decide_True (P := k0 ∈ k0 :: ks)) by by left. simpl.
    rewrite Hnone by done. by case_decide.
  - by rewrite !(decide_ext (k ∈ k0 :: ks) (k ∈ ks)) by set_solver.
Qed.

Lemma invalidate_index evicted g : same_index g (invalidate_artifact_keys evicted g).1.
Proof.
  unfold invalidate_artifact_keys. case_bool_decide; [apply same_index_refl|].
  destruct (fold_left clear_artifact_key _ _) as [m n] eqn:Hm. cbn [fst].
  assert (same_index g (set_contexts m g)) as Hs.
  { split; [done..|]. intros k. simpl. change m with (m, n).1. rewrite <- Hm, clear_loop.
    case_decide; [|done]. by destruct (contexts g !! k). }
  destruct (0 <? n)%nat; [|done]. by apply same_index_dirty.
Qed.

(** The removal loop of [evict_contexts]. *)
Lemma remove_loop ks m n k :
  (fold_left remove_context ks (m, n)).1 !! k = if decide (k ∈ ks) then None else m !! k.
Proof.
  revert m n. induction ks as [|k0 ks IH]; intros m n; cbn [fold_left].
  { rewrite decide_False by apply not_elem_of_nil. done. }
  unfold remove_context at 2. destruct (m !! k0) as [e|] eqn:He; rewrite IH;
    destruct (decide (k = k0)) as [->|].
  - rewrite lookup_delete_eq. rewrite (decide_True (P := k0 ∈ k0 :: ks)) by by left. by case_decide.
  - rewrite lookup_delete_ne by done.
    by rewrite !(decide_ext (k ∈ k0 :: ks) (k ∈ ks)) by set_solver.
  - rewrite He. rewrite (decide_True (P := k0 ∈ k0 :: ks)) by by left. by case_decide.
  - by rewrite !(decide_ext (k ∈ k0 :: ks) (k ∈ ks)) by set_solver.
Qed.

Lemma remove_loop_count ks m n :
  ((fold_left remove_context ks (m, n)).2 + size (fold_left remove_context ks (m, n)).1
   = n + size m)%nat.
Proof.
  revert m n. induction ks as [|k ks IH]; intros m n; cbn [fold_left]; [done|].
  destruct (remove_context (m, n) k) as [m' n'] eqn:Hs. rewrite IH. unfold remove_context in Hs.
  destruct (m !! k) as [e|] eqn:He; simplify_eq; [|done].
  assert (size m = S (size (delete k m))) as ->; [|lia].
  rewrite <- (insert_delete_id m k e He) at 1. apply map_size_insert_None, lookup_delete_eq.
Qed.

(** The graph after an eviction, field by field. *)
Lemma evict_fields keys g :
  let g' := (evict_contexts keys g).1 in
  let cs := contexts g' in
  (forall k, cs !! k = (if decide (k ∈ keys) then None else contexts g !! k)) /\
  equivalent_contexts g' = omap (retain_live cs) (equivalent_contexts g) /\
  rustc_externs g' = filter (fun '(k, _) => k ∈ dom cs) (rustc_externs g) /\
  rustc_check_metadata_compat g' =
    filter (fun '(_, v) => v ∈ dom cs) (rustc_check_metadata_compat g) /\
  files g' = filter (fun '(p, _) => p ∈ referenced_paths cs) (files g) /\
  ((evict_contexts keys g).2 + size cs = size (contexts g))%nat.
Proof.
  unfold evict_contexts.
  pose proof (remove_loop keys (contexts g) 0%nat) as Hr.
  pose proof (remove_loop_count keys (contexts g) 0%nat) as Hn.
  destruct (fold_left remove_context keys (contexts g, 0%nat)) as [cs n]. simpl in Hr, Hn.
  by destruct (0 <? n)%nat; split_and!.
Qed.

Lemma retain_live_Some cs l l' :
  retain_live cs l = Some l' ->
  l' <> [] /\ l' = filter (fun k => is_Some (cs !! k)) l.
Proof. unfold retain_live. case_bool_decide; [done|]. by intros [= <-]. Qed.

Lemma evict_wf limit keys g : graph_wf limit g -> graph_wf limit (evict_contexts keys g).1.
Proof.
  intros [Hclass Hlisted Hlive Hwx Hwc].
  destruct (evict_fields keys g) as (Hcs & He & Hx & Hc & _).
  set (g' := (evict_contexts keys g).1) in *.
  assert (forall k lk, logical_key <$> contexts g' !! k = Some lk ->
    logical_key <$> contexts g !! k = Some lk) as Hsub.
  { intros k lk. rewrite Hcs. by case_decide. }
  split.
  - intros l k. rewrite He, lookup_omap. intros (l0 & Hl & Hret)%bind_Some.
    apply retain_live_Some in Hret as [Hne ->]. destruct (Hclass _ _ Hl) as (_ & Hnd & Hlen).
    split_and!; [done|by apply NoDup_filter|].
    pose proof (length_filter (fun k => is_Some (contexts g' !! k)) l0). lia.
  - intros l lk k. rewrite He, lookup_omap. intros (l0 & Hl & Hret)%bind_Some.
    apply retain_live_Some in Hret as [_ ->]. intros [[e Hk] Hin]%list_elem_of_filter.
    rewrite Hcs in Hk |- *. case_decide; [done|]. eauto.
  - intros k lk Hk. destruct (Hlive k lk (Hsub _ _ Hk)) as (l & Hl & Hin).
    assert (k ∈ filter (fun k => is_Some (contexts g' !! k)) l) as Hin'.
    { apply list_elem_of_filter. split; [|done]. by destruct (contexts g' !! k). }
    exists (filter (fun k => is_Some (contexts g' !! k)) l). split; [|done].
    rewrite He, lookup_omap, Hl. simpl. unfold retain_live.
    rewrite bool_decide_eq_false_2; [done|]. intros Hnil. rewrite Hnil in Hin'.
    by apply not_elem_of_nil in Hin'.
  - intros k [x Hk]. rewrite Hx in Hk. apply map_lookup_filter_Some in Hk as [_ Hk].
    by apply elem_of_dom.
  - intros c k. rewrite Hc. intros [_ Hk]%map_lookup_filter_Some. by apply elem_of_dom.
Qed.
(** Registering a new instance: the class of its key after the push, with the
    instance that has to go. *)
Lemma class_push limit (l : list ContextKey) (k : ContextKey) :
  1 <= limit -> NoDup l -> k ∉ l -> Z.of_nat (length l) <= limit ->
  let l' := l ++ [k] in
  let r := if limit <? Z.of_nat (length l') then (tail l', head l') else (l', None) in
  NoDup r.1 /\ Z.of_nat (length r.1) <= limit /\ k ∈ r.1 /\
  match r.2 with
  | Some x => x ∈ l /\ x <> k /\ forall y, y ∈ r.1 <-> y <> x /\ (y ∈ l \/ y = k)
  | None => r.1 = l'
  end.
Proof.
  intros Hlim Hnd Hk Hlen l' r. assert (NoDup l') as Hnd'.
  { apply NoDup_app. split_and!; [done| |apply NoDup_singleton]. intros x Hx ->%list_elem_of_singleton. done. }
  subst r l'. destruct (Z.ltb_spec limit (Z.of_nat (length (l ++ [k])))) as [Hlt|Hge]; simpl.
  - rewrite length_app in Hlt. simpl in Hlt. destruct l as [|x l]; simpl in *; [lia|].
    apply NoDup_cons in Hnd' as [Hx Hnd']. rewrite length_app. simpl. split_and!.
    + done.
    + lia.
    + apply elem_of_app. right. by left.
    + by left.
    + intros ->. apply Hk. by left.
    + intros y. rewrite elem_of_app, list_elem_of_singleton, elem_of_cons.
      rewrite elem_of_app, list_elem_of_singleton in Hx. split.
      * intros Hy. split; [intros ->; tauto|tauto].
      * intros [Hne [[->|]|]]; tauto.
  - split_and!; [done|lia| |done]. apply elem_of_app. right. by left.
Qed.
Lemma find_live_Some g l e :
  find_live g l = Some e -> exists k, k ∈ l /\ contexts g !! k = Some e.
Proof.
  induction l as [|k l IH]; simpl; [done|]. destruct (contexts g !! k) as [e'|] eqn:Hk.
  - intros [= <-]. exists k. split; [by left|done].
  - intros (k' & Hin & Hk')%IH. exists k'. split; [by right|done].
Qed.

(** A graph whose class of [lk] is [l'] after [k] was inserted into it, the
    instance [out] having been dropped. *)
Definition inserted (g : DepGraph) (k lk : ContextKey) (e : ContextEntry) (l' : list ContextKey)
    (out : option ContextKey) : DepGraph :=
  let g1 := set_equivalents (<[lk := l']> (equivalent_contexts g)) (put_entry k e g) in
  match out with Some x => evict_instance x g1 | None => g1 end.

Lemma inserted_contexts g k lk e l' out k' :
  contexts (inserted g k lk e l' out) !! k' =
    if decide (out = Some k') then None else if decide (k' = k) then Some e else contexts g !! k'.
Proof.
  unfold inserted. destruct out as [x|]; simpl.
  - destruct (decide (x = k')) as [->|].
    + rewrite lookup_delete_eq, decide_True by done. done.
    + rewrite lookup_delete_ne, decide_False by congruence. case_decide as Hk.
      * by rewrite Hk, lookup_insert_eq.
      * by rewrite lookup_insert_ne.
  - case_decide as Hk; [by rewrite Hk, lookup_insert_eq|by rewrite lookup_insert_ne].
Qed.

Lemma inserted_equivalents g k lk e l' out :
  equivalent_contexts (inserted g k lk e l' out) = <[lk := l']> (equivalent_contexts g).
Proof. by destruct out. Qed.

(** The class a new instance joins. *)
Lemma class_after_push g k lk l :
  let limit := max_equivalent_contexts equivalents_var in
  let r := if limit <? Z.of_nat (length (l ++ [k])) then (tail (l ++ [k]), head (l ++ [k]))
           else (l ++ [k], None) in
  graph_wf limit g -> contexts g !! k = None -> l = default [] (equivalent_contexts g !! lk) ->
  (forall y, y ∈ l -> logical_key <$> contexts g !! y = Some lk) /\
  NoDup r.1 /\ Z.of_nat (length r.1) <= limit /\ k ∈ r.1 /\ (forall x, r.2 = Some x -> x ∈ l) /\
  (forall y, y ∈ r.1 <-> r.2 <> Some y /\ (y ∈ l \/ y = k)).
Proof.
  intros limit r Hwf Hk Hl.
  assert (forall y, y ∈ l -> logical_key <$> contexts g !! y = Some lk) as Hin_l.
  { intros y Hy. destruct (equivalent_contexts g !! lk) as [l0|] eqn:He; simpl in Hl; subst l;
      [by eapply (wf_listed _ _ Hwf)|by apply not_elem_of_nil in Hy]. }
  assert (k ∉ l) as Hnin by (intros Hin%Hin_l; by rewrite Hk in Hin).
  assert (NoDup l /\ Z.of_nat (length l) <= limit) as [Hndl Hlenl].
  { pose proof max_equivalent_contexts_pos. destruct (equivalent_contexts g !! lk) as [l0|] eqn:He;
      simpl in Hl; subst l; [by apply (wf_class _ _ Hwf) in He as (? & ? & ?)|].
    split; [constructor|simpl; lia]. }
  destruct (class_push limit l k max_equivalent_contexts_pos Hndl Hnin Hlenl) as (Hnd & Hlen & Hkin & Hout).
  fold r in Hnd, Hlen, Hkin, Hout. destruct r as [l' out]. simpl in *. split_and!; [done..| |].
  - intros x ->. by destruct Hout as [? _].
  - intros y. destruct out as [x|].
    + destruct Hout as (_ & _ & Hiff). rewrite Hiff. split; intros [? ?]; split; congruence.
    + rewrite Hout, elem_of_app, list_elem_of_singleton. split; [split; [done|tauto]|tauto].
Qed.

Lemma inserted_wf g k lk e l :
  let limit := max_equivalent_contexts equivalents_var in
  let r := if limit <? Z.of_nat (length (l ++ [k])) then (tail (l ++ [k]), head (l ++ [k]))
           else (l ++ [k], None) in
  graph_wf limit g -> contexts g !! k = None -> logical_key e = lk ->
  l = default [] (equivalent_contexts g !! lk) ->
  graph_wf limit (inserted g k lk e r.1 r.2) /\
  contexts (inserted g k lk e r.1 r.2) !! k = Some e.
Proof.
  intros limit r Hwf Hk Hlk Hl.
  destruct (class_after_push g k lk l Hwf Hk Hl) as (Hin_l & Hnd & Hlen & Hkin & Hout & Hl').
  destruct Hwf as [Hclass Hlisted Hlive Hwx Hwc].
  fold limit in Hnd, Hlen, Hkin, Hout, Hl'. fold r in Hnd, Hlen, Hkin, Hout, Hl'.
  destruct r as [l' out]. simpl in *.
  assert (forall y, is_Some (contexts g !! y) -> out <> Some y ->
    is_Some (contexts (inserted g k lk e l' out) !! y)) as Hkeep.
  { intros y Hy Hne. rewrite inserted_contexts, decide_False by done. case_decide; eauto. }
  split; [|rewrite inserted_contexts, decide_False, decide_True; [done..|]; apply Hl' in Hkin; tauto].
  split.
  - intros l0 k0. rewrite inserted_equivalents. destruct (decide (lk = k0)) as [->|].
    + rewrite lookup_insert_eq. intros [= <-]. split_and!; [|done..]. intros ->.
      by apply not_elem_of_nil in Hkin.
    + rewrite lookup_insert_ne by done. apply Hclass.
  - intros l0 lk0 y. rewrite inserted_equivalents, inserted_contexts.
    destruct (decide (lk = lk0)) as [->|].
    + rewrite lookup_insert_eq. intros [= <-] [Hne Hy]%Hl'. rewrite decide_False by done.
      case_decide; [by subst|]. destruct Hy; [eauto|done].
    + rewrite lookup_insert_ne by done. intros Hl0 Hy. pose proof (Hlisted _ _ _ Hl0 Hy) as Hyk.
      rewrite decide_False; [|intros ->; pose proof (Hin_l y (Hout y eq_refl)) as Hx; congruence].
      case_decide as Hyk'; [by rewrite Hyk', Hk in Hyk|done].
  - intros y lk0. rewrite inserted_equivalents, inserted_contexts.
    case_decide as Hout'; [done|]. intros Hy. assert (y = k /\ lk0 = lk \/
      logical_key <$> contexts g !! y = Some lk0) as [[-> ->]|Hy'].
    { case_decide; [|by right]. simplify_eq/=. by left. }
    + exists l'. by rewrite lookup_insert_eq.
    + destruct (Hlive _ _ Hy') as (l0 & Hl0 & Hin). destruct (decide (lk = lk0)) as [->|].
      * exists l'. rewrite lookup_insert_eq. split; [done|]. apply Hl'.
        rewrite Hl0 in Hl. simpl in Hl. subst l0. tauto.
      * exists l0. by rewrite lookup_insert_ne.
  - intros y Hy. assert (out <> Some y /\ is_Some (rustc_externs g !! y)) as [? ?%Hwx]; [|eauto].
    destruct out as [x|]; simpl in Hy; [|done]. apply lookup_delete_is_Some in Hy. naive_solver.
  - intros c y Hy. assert (out <> Some y /\ rustc_check_metadata_compat g !! c = Some y)
      as [? ?%Hwc]; [|eauto].
    destruct out as [x|]; simpl in Hy; [|done].
    apply map_lookup_filter_Some in Hy as [? ?]. split; congruence.
Qed.
Lemma register_entry_wf now key ctx root g :
  graph_wf (max_equivalent_contexts equivalents_var) g ->
  let '(g', r) := register_context_entry equivalents_var now key ctx root g in
  graph_wf (max_equivalent_contexts equivalents_var) g' /\ is_Some (contexts g' !! reg_map_key r).
Proof.
  intros Hwf. unfold register_context_entry. cbn zeta.
  set (ik := map_key _). cbn [contexts equivalent_contexts graph_mark_dirty set_graph_dirty put_entry
    set_contexts]. destruct (contexts g !! ik) as [e|] eqn:Hik.
  { split.
    - eapply same_index_wf; [|exact Hwf].
      apply same_index_put; [apply same_index_dirty, same_index_refl|by rewrite Hik].
    - simpl. by rewrite lookup_insert_eq. }
  match goal with |- context [mbind ?f ?o] => set (candidate := mbind f o) end.
  match goal with |- context [put_entry ik ?e _] => set (entry := e) end.
  assert (logical_key entry = key) as Hkey.
  { subst entry. destruct candidate as [c|] eqn:Hc; [|done]. simpl.
    apply bind_Some in Hc as (l & Hl & (k & Hin & Hk)%find_live_Some). simpl in Hk.
    pose proof (wf_listed _ _ Hwf _ _ _ Hl Hin) as Hlk. rewrite Hk in Hlk. by injection Hlk. }
  set (class := default [] (equivalent_contexts g !! key)).
  assert (match equivalent_contexts g !! key with
          | Some l => if bool_decide (ik ∈ l) then l else l ++ [ik]
          | None => [ik]
          end = class ++ [ik]) as ->.
  { subst class. destruct (equivalent_contexts g !! key) as [l|] eqn:Hl; [|done].
    rewrite bool_decide_eq_false_2; [done|]. intros Hin.
    pose proof (wf_listed _ _ Hwf _ _ _ Hl Hin) as Hlk. by rewrite Hik in Hlk. }
  assert (graph_wf (max_equivalent_contexts equivalents_var) (graph_mark_dirty g)) as Hwf'.
  { eapply same_index_wf; [apply same_index_dirty, same_index_refl|done]. }
  destruct (inserted_wf (graph_mark_dirty g) ik key entry class Hwf' Hik Hkey eq_refl) as [Hw Hs].
  destruct (max_equivalent_contexts equivalents_var <? _).
  - split; [exact Hw|]. eexists. exact Hs.
  - split; [exact Hw|]. eexists. exact Hs.
Qed.

(** ** Every operation *)

Inductive GraphOp :=
| OpRegister (now : Z) (ctx : CompileContext) (root : option NormalizedPath) (salt : option bytes)
| OpRegisterKey (now : Z) (key : ContextKey) (ctx : CompileContext) (root : option NormalizedPath)
| OpRegisterRustc (now : Z) (key : ContextKey) (ctx : CompileContext) (root : option NormalizedPath)
    (externs : list (bytes * NormalizedPath)) (compat : option ContextKey)
| OpUpdate (now : Z) (key : ContextKey) (scan : ScanResult) (get_hash : bytes -> option ContentHash)
    (names : list bytes) (env : bytes -> option bytes)
| OpCheck (now : Z) (key : ContextKey) (is_fresh : bytes -> bool)
    (get_hash : bytes -> option ContentHash) (env : bytes -> option bytes)
| OpCheckDiagnostic (now : Z) (key : ContextKey) (is_fresh : bytes -> bool)
    (get_hash : bytes -> option ContentHash) (env : bytes -> option bytes)
| OpFastHit (key : ContextKey) (get_hash : bytes -> option ContentHash) (env : bytes -> option bytes)
| OpCompat (key : ContextKey) (externs : list (bytes * NormalizedPath)) (is_fresh : bytes -> bool)
    (get_hash : bytes -> option ContentHash) (env : bytes -> option bytes)
| OpInvalidate (evicted : gset bytes)
| OpTrim (max_age_ns now : Z)
| OpEvict (keys : list ContextKey)
| OpClear
| OpSetEnvDeps (key : ContextKey) (deps : list (bytes * option ContentHash))
| OpStoreFile (instant : Z) (path : NormalizedPath) (l : list IncludeDirective)
| OpMarkStale (key : ContextKey)
| OpTakeDirty.

Definition graph_step (g : DepGraph) (op : GraphOp) : DepGraph :=
  match op with
  | OpRegister now ctx root salt =>
      (register_with_root_and_salt_result host_salt equivalents_var now ctx root salt g).1
  | OpRegisterKey now key ctx root =>
      (register_with_key_and_root_result equivalents_var now key ctx root g).1
  | OpRegisterRustc now key ctx root externs compat =>
      (register_rustc_with_key_and_root_result equivalents_var now key ctx root externs compat g).1
  | OpUpdate now key scan get_hash names env => (update_with_env now key scan get_hash names env g).1
  | OpCheck now key is_fresh get_hash env => (check_with_env now key is_fresh get_hash env g).1
  | OpCheckDiagnostic now key is_fresh get_hash env =>
      (check_diagnostic_with_env now key is_fresh get_hash env g).1
  | OpFastHit key get_hash env => (try_fast_hit_with_env key get_hash env g).1
  | OpCompat key externs is_fresh get_hash env =>
      (check_rustc_metadata_compat_diagnostic_with_env key externs is_fresh get_hash env g).1
  | OpInvalidate evicted => (invalidate_artifact_keys evicted g).1
  | OpTrim age now => (trim_at age now g).1
  | OpEvict keys => (evict_contexts keys g).1
  | OpClear => graph_clear g
  | OpSetEnvDeps key deps => set_rustc_env_deps key deps g
  | OpStoreFile instant path l => store_file_includes instant path l g
  | OpMarkStale key => (mark_stale key g).1
  | OpTakeDirty => (graph_take_dirty g).1
  end.

Definition graph_run (ops : list GraphOp) : DepGraph := fold_left graph_step ops graph_new.

Lemma empty_wf g :
  contexts g = ∅ -> rustc_externs g = ∅ -> rustc_check_metadata_compat g = ∅ ->
  equivalent_contexts g = ∅ -> graph_wf (max_equivalent_contexts equivalents_var) g.
Proof.
  intros Hc Hx Hm He. split; intros *; rewrite ?Hc, ?Hx, ?Hm, ?He, ?lookup_empty; try done.
Qed.

Lemma register_key_wf now key ctx root g :
  graph_wf (max_equivalent_contexts equivalents_var) g ->
  graph_wf (max_equivalent_contexts equivalents_var)
    (register_with_key_and_root_result equivalents_var now key ctx root g).1.
Proof.
  intros Hwf. unfold register_with_key_and_root_result.
  pose proof (register_entry_wf now key ctx root g Hwf) as Hr.
  destruct (register_context_entry _ _ _ _ _ _) as [g' r]. destruct Hr as [[] _].
  split; simpl; eauto. intros k. rewrite lookup_delete_is_Some. intros [_ ?]. eauto.
Qed.

Lemma register_rustc_wf now key ctx root externs compat g :
  graph_wf (max_equivalent_contexts equivalents_var) g ->
  graph_wf (max_equivalent_contexts equivalents_var)
    (register_rustc_with_key_and_root_result equivalents_var now key ctx root externs compat g).1.
Proof.
  intros Hwf. unfold register_rustc_with_key_and_root_result.
  pose proof (register_entry_wf now key ctx root g Hwf) as Hr.
  destruct (register_context_entry _ _ _ _ _ _) as [g' r]. destruct Hr as [[] Hlive].
  destruct compat as [c|]; split; simpl; eauto; intros *.
  - rewrite lookup_insert_is_Some. intros [<-|[_ ?]]; eauto.
  - rewrite lookup_insert_Some. intros [[_ <-]|[_ ?]]; eauto.
  - rewrite lookup_insert_is_Some. intros [<-|[_ ?]]; eauto.
Qed.

Lemma graph_step_wf g op :
  graph_wf (max_equivalent_contexts equivalents_var) g ->
  graph_wf (max_equivalent_contexts equivalents_var) (graph_step g op).
Proof.
  intros Hwf. destruct op; simpl;
    first [ by apply register_key_wf | by apply register_rustc_wf | by apply evict_wf
          | by apply empty_wf
          | eapply same_index_wf; [|exact Hwf];
            first [ apply update_index | apply check_index | apply check_diagnostic_index
                  | apply fast_hit_index | apply compat_index | apply invalidate_index
                  | apply set_rustc_env_deps_index | apply mark_stale_index
                  | by apply same_index_dirty, same_index_files, same_index_refl
                  | by apply same_index_dirty, same_index_refl ] ].
Qed.

(** C5: the graph's indexes never dangle.  After any sequence of operations on
    a new graph, every equivalence class is a non-empty list of distinct live
    instances of its logical key, no longer than the configured limit; every
    context is in the class of its logical key; extern inputs and metadata
    aliases belong to live contexts; and a key that resolves, resolves to a
    live entry, so the lookups after it cannot miss. *)
Theorem graph_indexes_consistent (ops : list GraphOp) :
  graph_wf (max_equivalent_contexts equivalents_var) (graph_run ops) /\
  (forall key k, resolve_instance_key (graph_run ops) key = Some k ->
     is_Some (contexts (graph_run ops) !! k)).
Proof.
  assert (graph_wf (max_equivalent_contexts equivalents_var) (graph_run ops)) as Hwf.
  { unfold graph_run. generalize (empty_wf graph_new eq_refl eq_refl eq_refl eq_refl).
    generalize graph_new. induction ops as [|op ops IH]; intros g Hg; simpl; [done|].
    by apply IH, graph_step_wf. }
  split; [done|]. intros key k. unfold resolve_instance_key. case_bool_decide; [congruence|].
  destruct (equivalent_contexts _ !! key) as [[|i [|]]|] eqn:He; try done. intros [= ->].
  pose proof (wf_listed _ _ Hwf _ _ k He (list_elem_of_here _ _)) as Hk.
  by destruct (contexts (graph_run ops) !! k).
Qed.
End invariant.

(** ** Trimming *)

Lemma elem_of_entry_paths p e :
  p ∈ entry_paths e <->
  p ∈ cc_source_file (ce_context e) :: resolved_includes e ++ force_includes (ce_context e).
Proof.
  unfold entry_paths. rewrite !elem_of_union, !elem_of_list_to_set, elem_of_singleton, elem_of_cons,
    elem_of_app. tauto.
Qed.

Lemma elem_of_referenced p cs :
  p ∈ referenced_paths cs <-> exists k e, cs !! k = Some e /\ p ∈ entry_paths e.
Proof.
  unfold referenced_paths. revert p.
  refine (map_fold_weak_ind (fun (r : gset bytes) m =>
    forall p, p ∈ r <-> exists k e, m !! k = Some e /\ p ∈ entry_paths e) _ _ _ _ _).
  - intros p. split; [intros H; by apply elem_of_empty in H|]. intros (k & e & Hk & _).
    by rewrite lookup_empty in Hk.
  - intros k e m r Hk IH p. rewrite elem_of_union, IH. split.
    + intros [(k' & e' & Hk' & Hp)|Hp].
      * exists k', e'. split; [|done]. rewrite lookup_insert_ne; congruence.
      * exists k, e. by rewrite lookup_insert_eq.
    + intros (k' & e' & [[-> ->]|[Hne Hk']]%lookup_insert_Some & Hp); [by right|]. left. eauto.
Qed.

Definition age_expired (max_age_ns now : Z) (e : ContextEntry) : Prop :=
  max_age_ns = 0 \/ max_age_ns / 1000000 < now - last_accessed_unix_ms e.

Lemma expired_spec max_age_ns now e :
  0 <= max_age_ns -> now < 2 ^ 64 -> 0 <= last_accessed_unix_ms e ->
  let millis := max_age_ns / 1000000 in
  expired (if millis <? 2 ^ 64 then millis else 2 ^ 64 - 1) now (max_age_ns =? 0) e = true <->
  age_expired max_age_ns now e.
Proof.
  intros Hage Hnow Hacc millis. unfold expired, age_expired, saturating_sub. fold millis.
  assert (0 <= millis) by (subst millis; apply Z.div_pos; lia).
  rewrite orb_true_iff, Z.eqb_eq, Z.ltb_lt. destruct (Z.ltb_spec millis (2 ^ 64)); lia.
Qed.

Lemma elem_of_keys_filter {A} (P : bytes * A -> Prop) `{!forall x, Decision (P x)}
    (m : gmap bytes A) (k : bytes) :
  k ∈ (map_to_list (filter P m)).*1 <-> exists a, m !! k = Some a /\ P (k, a).
Proof.
  rewrite list_elem_of_fmap. split.
  - intros ([k' a] & -> & Hin%elem_of_map_to_list). apply map_lookup_filter_Some in Hin. eauto.
  - intros (a & Ha). exists (k, a). split; [done|]. apply elem_of_map_to_list.
    by apply map_lookup_filter_Some.
Qed.

(** Trimming.  [trim] removes exactly the contexts that were last used
    longer ago than the maximal age (all of them for age zero) and counts them;
    the others are untouched.  A file node survives exactly when a remaining
    context names it as source, resolved include or forced include, a class
    keeps its live instances in order and disappears with the last of them, and
    extern inputs and aliases survive exactly when their context does. *)
Theorem trim_removes_expired (g : DepGraph) (max_age_ns now : Z) :
  0 <= max_age_ns -> now < 2 ^ 64 ->
  map_Forall (fun _ e => 0 <= last_accessed_unix_ms e) (contexts g) ->
  let g' := (trim_at max_age_ns now g).1 in
  (forall k e, contexts g' !! k = Some e <->
     contexts g !! k = Some e /\ ~ age_expired max_age_ns now e) /\
  ((trim_at max_age_ns now g).2 + size (contexts g') = size (contexts g))%nat /\
  (forall p f, files g' !! p = Some f <->
     files g !! p = Some f /\ exists k e, contexts g' !! k = Some e /\
       p ∈ cc_source_file (ce_context e) :: resolved_includes e ++ force_includes (ce_context e)) /\
  (forall lk l', equivalent_contexts g' !! lk = Some l' <->
     exists l, equivalent_contexts g !! lk = Some l /\ l' <> [] /\
       l' = filter (fun k => is_Some (contexts g' !! k)) l) /\
  (forall k x, rustc_externs g' !! k = Some x <->
     rustc_externs g !! k = Some x /\ is_Some (contexts g' !! k)) /\
  (forall c k, rustc_check_metadata_compat g' !! c = Some k <->
     rustc_check_metadata_compat g !! c = Some k /\ is_Some (contexts g' !! k)).
Proof.
  intros Hage Hnow Hacc g'. subst g'. unfold trim_at. cbn zeta.
  match goal with |- context [evict_contexts ?ks g] => set (keys := ks) end.
  destruct (evict_fields keys g) as (Hcs & He & Hx & Hc & Hf & Hn).
  set (g' := (evict_contexts keys g).1) in *.
  assert (forall k e, contexts g !! k = Some e -> k ∈ keys <-> age_expired max_age_ns now e) as Hkeys.
  { intros k e Hk. subst keys. rewrite elem_of_keys_filter, Hk. pose proof (Hacc k e Hk) as Hpos.
    rewrite <- (expired_spec max_age_ns now e Hage Hnow Hpos). split.
    - by intros (? & [= <-] & ?).
    - intros ?. by exists e. }
  split_and!; [| exact Hn |..].
  - intros k e. rewrite Hcs. case_decide as Hin.
    + split; [done|]. intros [Hk He']. destruct He'. by apply (Hkeys k e Hk).
    + split; [|tauto]. intros Hk. split; [done|]. by rewrite <- (Hkeys k e Hk).
  - intros p f. rewrite Hf, map_lookup_filter_Some, elem_of_referenced. f_equiv.
    split; intros (k & e & Hk & Hp); exists k, e.
    + by rewrite <- elem_of_entry_paths.
    + by rewrite elem_of_entry_paths.
  - intros lk l'. rewrite He, lookup_omap, bind_Some. split.
    + intros (l & Hl & [Hne Hl']%retain_live_Some). eauto.
    + intros (l & Hl & Hne & ->). exists l. split; [done|]. unfold retain_live.
      by rewrite bool_decide_eq_false_2.
  - intros k x. by rewrite Hx, map_lookup_filter_Some, elem_of_dom.
  - intros c k. by rewrite Hc, map_lookup_filter_Some, elem_of_dom.
Qed.

(** ** Invalidation *)

Lemma clear_count ks m n :
  NoDup ks -> (forall k, k ∈ ks -> exists e, m !! k = Some e /\ is_Some (artifact_key e)) ->
  (fold_left clear_artifact_key ks (m, n)).2 = (n + length ks)%nat.
Proof.
  intros Hnd. revert m n. induction Hnd as [|k ks Hk Hnd IH]; intros m n Hks; cbn [fold_left].
  { simpl. lia. }
  destruct (Hks k (list_elem_of_here _ _)) as (e & He & [ak Ha]).
  assert (clear_artifact_key (m, n) k = (<[k := set_artifact_key None e]> m, S n)) as ->.
  { unfold clear_artifact_key. by rewrite He, Ha. }
  rewrite IH; [simpl; lia|]. intros k' Hk'. rewrite lookup_insert_ne by congruence.
  apply Hks. by right.
Qed.

(** The graph after an invalidation: the named keys are gone from the entries. *)
Lemma invalidate_fields evicted g :
  let r := invalidate_artifact_keys evicted g in
  (forall k, contexts r.1 !! k =
     (fun e => if keyed_by evicted e then set_artifact_key None e else e) <$> contexts g !! k) /\
  r.2 = size (filter (fun '(_, e) => keyed_by evicted e = true) (contexts g)).
Proof.
  unfold invalidate_artifact_keys. case_bool_decide as Hempty.
  - assert (forall e, keyed_by evicted e = false) as Hnone.
    { intros e. unfold keyed_by. destruct (artifact_key e); [|done].
      apply bool_decide_eq_false_2. subst. apply not_elem_of_empty. }
    split; simpl.
    + intros k. destruct (contexts g !! k) as [e|]; simpl; [|done]. by rewrite Hnone.
    + symmetry. apply map_size_empty_iff, map_empty. intros k. apply map_lookup_filter_None. right.
      intros e _. by rewrite Hnone.
  - set (ks := (map_to_list _).*1).
    assert (forall k, k ∈ ks <-> exists e, contexts g !! k = Some e /\ keyed_by evicted e = true) as Hks.
    { intros k. apply elem_of_keys_filter. }
    pose proof (fun k => clear_loop ks (contexts g) 0%nat k) as Hl.
    assert ((fold_left clear_artifact_key ks (contexts g, 0%nat)).2 = length ks) as Hn.
    { apply clear_count; [apply NoDup_fst_map_to_list|]. intros k (e & He & Hk)%Hks. exists e.
      split; [done|]. unfold keyed_by in Hk. by destruct (artifact_key e). }
    destruct (fold_left clear_artifact_key ks (contexts g, 0%nat)) as [m n]. simpl in Hl, Hn.
    assert (forall k, m !! k = (fun e => if keyed_by evicted e then set_artifact_key None e else e)
      <$> contexts g !! k) as Hm.
    { intros k. rewrite Hl. destruct (contexts g !! k) as [e|] eqn:He; [|by case_decide].
      simpl. case_decide as Hin.
      - apply Hks in Hin as (e' & He' & Hk). simplify_eq. by rewrite Hk.
      - destruct (keyed_by evicted e) eqn:Hk; [|done]. destruct Hin. apply Hks. eauto. }
    split; [by destruct (0 <? n)%nat|]. simpl. rewrite Hn. subst ks.
    by rewrite length_fmap, length_map_to_list.
Qed.

Lemma keyed_by_spec evicted e :
  keyed_by evicted e = true <-> exists ak, artifact_key e = Some ak /\ to_hex ak ∈ evicted.
Proof.
  unfold keyed_by. destruct (artifact_key e) as [ak|]; [rewrite bool_decide_eq_true|].
  - split; [eauto|]. by intros (? & [= <-] & ?).
  - split; [done|]. by intros (? & ? & ?).
Qed.

Lemma same_index_resolve g g' key :
  same_index g g' -> resolve_instance_key g' key = resolve_instance_key g key.
Proof.
  intros [He _ _ Hl]. unfold resolve_instance_key. rewrite He.
  rewrite (bool_decide_ext (is_Some (contexts g' !! key)) (is_Some (contexts g !! key))); [done|].
  split; apply fmap_is_Some_eq with logical_key; by rewrite Hl.
Qed.

(** Without a recorded key no lookup hits. *)
Lemma no_key_no_hit {B3 : Blake3} key k e now is_fresh get_hash env g :
  resolve_instance_key g key = Some k -> contexts g !! k = Some e -> artifact_key e = None ->
  (try_fast_hit_with_env key get_hash env g).2 = None /\
  forall ak, (check_with_env now key is_fresh get_hash env g).2 <> VHit ak.
Proof.
  intros Hr Hk Ha. unfold try_fast_hit_with_env, check_with_env. rewrite Hr. simpl. rewrite Hk. simpl.
  rewrite Ha. split; [by repeat case_match|]. intros ak. by repeat case_match.
Qed.

Lemma compat_hit_key {B3 : Blake3} compat externs is_fresh get_hash env g ak reason target :
  (check_rustc_metadata_compat_diagnostic_with_env compat externs is_fresh get_hash env g).2
    = (VHit ak, reason, target) ->
  exists k e, target = Some k /\ contexts g !! k = Some e /\ artifact_key e = Some ak.
Proof.
  unfold check_rustc_metadata_compat_diagnostic_with_env.
  destruct (rustc_check_metadata_compat g !! compat) as [k|]; simpl; [|done].
  destruct (rustc_extern_inputs g k); simpl; [|done].
  destruct (contexts g !! k) as [e|] eqn:Hk; simpl; [|done].
  destruct (bool_decide _), (has_computed_includes e); simpl; try done.
  destruct (artifact_key e) eqn:Ha; [|done]. intros H. exists k, e.
  repeat case_match; simplify_eq/=; done.
Qed.

(** Evicted artifacts are forgotten.  After the disk store evicted some
    artifacts, [invalidate_artifact_keys] leaves no context that records one of
    their keys, returns how many it cleared and touches nothing else (access
    times included); a context it cleared gets no fast hit and no [Hit] from
    the next check, whatever hashes and freshness the caller supplies, and no
    metadata alias serves one of the evicted keys. *)
Theorem invalidate_forgets {B3 : Blake3} (evicted : gset bytes) (g : DepGraph) :
  let g' := (invalidate_artifact_keys evicted g).1 in
  (forall k, contexts g' !! k =
     (fun e => if keyed_by evicted e then set_artifact_key None e else e) <$> contexts g !! k) /\
  (invalidate_artifact_keys evicted g).2 =
    size (filter (fun '(_, e) => keyed_by evicted e = true) (contexts g)) /\
  (forall hex, hex ∈ evicted -> references_artifact_key g' hex = false) /\
  (forall key k e now is_fresh get_hash env,
     resolve_instance_key g key = Some k -> contexts g !! k = Some e -> keyed_by evicted e = true ->
     (try_fast_hit_with_env key get_hash env g').2 = None /\
     (forall ak, (check_with_env now key is_fresh get_hash env g').2 <> VHit ak)) /\
  (forall compat externs is_fresh get_hash env ak reason target,
     (check_rustc_metadata_compat_diagnostic_with_env compat externs is_fresh get_hash env g').2
       = (VHit ak, reason, target) -> to_hex ak ∉ evicted).
Proof.
  intros g'. destruct (invalidate_fields evicted g) as [Hc Hn].
  change ((invalidate_artifact_keys evicted g).1) with g' in Hc.
  assert (forall k e ak, contexts g' !! k = Some e -> artifact_key e = Some ak -> to_hex ak ∉ evicted)
    as Hgone.
  { intros k e ak. rewrite Hc. intros (e0 & He0 & ->)%fmap_Some.
    destruct (keyed_by evicted e0) eqn:Hk; [done|]. intros Ha Hin.
    assert (keyed_by evicted e0 = true) by (apply keyed_by_spec; eauto). congruence. }
  split_and!; [done|done|..].
  - intros hex Hin. apply bool_decide_eq_false_2. intros (k & e & He & (ak & Ha & ->)%fmap_Some).
    by apply (Hgone k e ak He Ha).
  - intros key k e now is_fresh get_hash env Hr Hk Hkeyed.
    eapply (no_key_no_hit key k (set_artifact_key None e)); [|by rewrite Hc, Hk; simpl; rewrite Hkeyed|done].
    rewrite <- Hr. apply same_index_resolve, invalidate_index.
  - intros * (k & e & _ & Hk & Ha)%compat_hit_key. eauto.
Qed.

(** ** Witnesses *)

Definition demo_cc (source : bytes) : CompileContext :=
  mkContext source (mkSearch [] [] [] []) [] [] [] [] [] demo_hash.

Definition demo_context_entry (source : bytes) (key : ArtifactKey) (accessed : Z) : ContextEntry :=
  mkEntry demo_hash (demo_cc source) None [] [] false (Some key) [] [] accessed Warm.

Definition demo_pair : DepGraph :=
  mkGraph ∅ {["old" := demo_context_entry "/w/a.c" demo_hash 10;
              "new" := demo_context_entry "/w/b.c" "other" 5000]}
    ∅ {["alias" := "old"]} {[demo_hash := ["old"; "new"]]} 0 0 0 false.

Lemma trim_removes_expired_witness :
  let g' := (trim_at 1000000000 6000 demo_pair).1 in
  contexts g' !! "old" = None /\ (trim_at 1000000000 6000 demo_pair).2 = 1%nat /\
  (forall k e, contexts g' !! k = Some e <->
     contexts demo_pair !! k = Some e /\ ~ age_expired 1000000000 6000 e).
Proof.
  intros g'. split; [vm_compute; reflexivity|]. split; [vm_compute; reflexivity|].
  apply (trim_removes_expired demo_pair 1000000000 6000); [lia|lia|].
  intros k e. unfold demo_pair. cbn [contexts]. rewrite lookup_insert_Some, lookup_singleton_Some.
  intros [[_ <-]|[_ [_ <-]]]; simpl; lia.
Defined.

Lemma invalidate_forgets_witness :
  let g' := (invalidate_artifact_keys {[to_hex demo_hash]} demo_pair).1 in
  (invalidate_artifact_keys {[to_hex demo_hash]} demo_pair).2 = 1%nat /\
  references_artifact_key g' (to_hex demo_hash) = false /\
  (try_fast_hit_with_env (B3 := toy_blake3) "old" (fun _ => Some demo_hash) (fun _ => None) g').2 = None.
Proof.
  intros g'. destruct (invalidate_forgets (B3 := toy_blake3) {[to_hex demo_hash]} demo_pair)
    as (_ & _ & H3 & H4 & _).
  split; [vm_compute; reflexivity|]. split; [apply H3; set_solver|].
  refine (proj1 (H4 "old" "old" (demo_context_entry "/w/a.c" demo_hash 10) 0 (fun _ => true)
    (fun _ => Some demo_hash) (fun _ => None) _ _ _)); vm_compute; reflexivity.
Defined.
