(* ===== verification/DepGraphVerdict.v ===== *)
(** * Verdicts of the dependency graph

    What [update], [check], [check_diagnostic] and [try_fast_hit] of
    [zccache-depgraph/src/graph/] tell their callers: a recorded compile is
    found again, a hit means that nothing changed, the two checks agree, and a
    second checkout inherits what the first one learned. *)

From Stdlib Require Import Lia.
From S2P Require Import Prelude Path Hash RustStr ContextKeys DepGraph DepGraphIndex.

(** ** Key paths of absolute files are distinct *)

Definition abs_path (p : bytes) : Prop := normalize p = p /\ has_root p = true.

Lemma abs_components p :
  abs_path p -> (exists cs, components p = RootDir :: cs) /\ acc_ok (reverse (components p)) = true.
Proof.
  intros [Hn Hr]. pose proof (normalize_acc_ok p) as Hok.
  assert (components p = reverse (fold_left normalize_step (components p) [])) as Hc.
  { rewrite <- Hn at 1. rewrite components_normalize. done. }
  split; [|by rewrite Hc, reverse_involutive]. unfold components. rewrite Hr. simpl. eauto.
Qed.

Lemma acc_ok_app_l a b : b <> [] -> acc_ok (a ++ b) = true -> acc_ok a = true /\ RootDir ∉ a.
Proof.
  intros Hb. induction a as [|c a IH]; simpl; [intros _; split; [done|apply not_elem_of_nil]|].
  intros [Hc [Ha Hr]%IH]%andb_true_iff. split.
  - apply andb_true_iff. split; [|done]. destruct c; try done.
    + apply bool_decide_eq_true in Hc. by destruct a.
    + by destruct a.
  - rewrite elem_of_cons. intros [<-|?]; [|done]. apply bool_decide_eq_true in Hc. by destruct a.
Qed.

(** A file under the root is keyed by the components after it, which never
    begin at the file-system root. *)
Lemma key_components root p :
  abs_path p -> abs_path root ->
  exists ks, components (normalize_key_path p (Some root)) = ks /\
    (components p = components root ++ ks /\ RootDir ∉ ks \/ components p = ks).
Proof.
  intros Hp Hroot. destruct (abs_components p Hp) as [_ Hok].
  destruct (abs_components root Hroot) as [[rs Hrs] _].
  unfold normalize_key_path, path_strip_prefix, normalize_for_key.
  destruct (strip_components (components p) (components root)) as [ks|] eqn:Hs; simpl.
  - apply strip_components_Some in Hs. exists ks. rewrite Hs, reverse_app in Hok.
    apply acc_ok_app_l in Hok as [Hok Hr]; [|rewrite Hrs, reverse_cons; by destruct (reverse rs)].
    pose proof (components_collect _ Hok) as Hcc. rewrite reverse_involutive in Hcc.
    rewrite components_normalize, Hcc. unfold normalize_components.
    rewrite <- (reverse_involutive ks) at 1. rewrite normalize_fixed, reverse_involutive by done.
    split; [done|]. left. split; [done|]. by rewrite elem_of_reverse in Hr.
  - exists (components p). destruct Hp as [-> _]. eauto.
Qed.

Lemma normalize_key_path_inj root p q :
  abs_path p -> abs_path q -> match root with Some r => abs_path r | None => True end ->
  normalize_key_path p root = normalize_key_path q root -> p = q.
Proof.
  intros Hp Hq Hroot Heq.
  assert (components p = components q -> p = q) as Hpq.
  { destruct Hp as [<- _], Hq as [<- _]. apply normalize_inj_components. }
  destruct root as [root|].
  2:{ simpl in Heq. unfold normalize_for_key in Heq. destruct Hp as [<- _], Hq as [<- _]. done. }
  apply Hpq. destruct (key_components root p Hp Hroot) as (ks & Hks & Hp').
  destruct (key_components root q Hq Hroot) as (ks' & Hks' & Hq').
  assert (ks = ks') as <- by congruence.
  destruct (abs_components p Hp) as [[cs Hcs] _], (abs_components q Hq) as [[ds Hds] _].
  destruct Hp' as [[Hp' Hr]|Hp'], Hq' as [[Hq' Hr']|Hq']; try congruence.
  - destruct Hr. rewrite <- Hq', Hds. by left.
  - destruct Hr'. rewrite <- Hp', Hcs. by left.
Qed.

(** ** What the verdicts mean *)

(** The files an artifact key covers: the source, the resolved includes and the
    forced includes. *)
Definition entry_files (e : ContextEntry) : list NormalizedPath :=
  cc_source_file (ce_context e) :: resolved_includes e ++ force_includes (ce_context e).

Definition hashes_of (get_hash : bytes -> option ContentHash) (ps : list NormalizedPath) :
    option (list (NormalizedPath * ContentHash)) :=
  mapM (fun p => h ← get_hash p; Some (p, h)) ps.

Lemma push_hashes_spec get_hash ps acc :
  match hashes_of get_hash ps with
  | Some hs => push_hashes get_hash ps acc = inr (acc ++ hs)
  | None => exists p, push_hashes get_hash ps acc = inl p
  end.
Proof.
  revert acc. induction ps as [|p ps IH]; intros acc; cbn [push_hashes].
  { simpl. by rewrite app_nil_r. }
  unfold hashes_of. cbn. fold (hashes_of get_hash ps). destruct (get_hash p) as [h|]; simpl; [|eauto].
  specialize (IH (acc ++ [(p, h)])). destruct (hashes_of get_hash ps) as [hs|]; simpl; [|done].
  by rewrite IH, <- app_assoc.
Qed.

Lemma hashes_of_app get_hash ps qs :
  hashes_of get_hash (ps ++ qs) =
    hs ← hashes_of get_hash ps; ks ← hashes_of get_hash qs; Some (hs ++ ks).
Proof.
  unfold hashes_of. induction ps as [|p ps IH]; simpl; [by destruct (mapM _ qs)|].
  destruct (get_hash p) as [h|]; simpl; [|done]. rewrite IH.
  destruct (mapM _ ps); simpl; [|done]. by destruct (mapM _ qs).
Qed.

(** The three loops that hash the source, the includes and the forced ones. *)
Lemma hash_chain {T} get_hash s (r f : list NormalizedPath) (x : T) (K : _ -> T) :
  match get_hash s with
  | None => x
  | Some h =>
      match push_hashes get_hash r [(s, h)] with
      | inl _ => x
      | inr fh => match push_hashes get_hash f fh with inl _ => x | inr fh => K fh end
      end
  end = match hashes_of get_hash (s :: r ++ f) with None => x | Some fh => K fh end.
Proof.
  change (s :: r ++ f) with ([s] ++ r ++ f). rewrite !hashes_of_app. simpl.
  destruct (get_hash s) as [h|]; simpl; [|done].
  pose proof (push_hashes_spec get_hash r [(s, h)]) as Hr.
  destruct (hashes_of get_hash r) as [hr|]; simpl; [rewrite Hr|by destruct Hr as [p ->]].
  pose proof (push_hashes_spec get_hash f ([(s, h)] ++ hr)) as Hf. simpl in Hf.
  destruct (hashes_of get_hash f) as [hf|]; simpl; [by rewrite Hf|by destruct Hf as [p ->]].
Qed.

Lemma hashes_of_Some get_hash ps fh :
  hashes_of get_hash ps = Some fh <->
  fh.*1 = ps /\ Forall (fun '(p, h) => get_hash p = Some h) fh.
Proof.
  unfold hashes_of. revert fh. induction ps as [|p ps IH]; intros fh; simpl.
  - split; [by intros [= <-]|]. intros [H _]. by destruct fh.
  - destruct (get_hash p) as [h|] eqn:Hp; simpl.
    + destruct (mapM _ ps) as [hs|] eqn:Hm; simpl; rewrite ?bind_Some.
      * destruct (IH hs) as [[H1 H2] _]; [done|]. split.
        -- intros [= <-]. simpl. split; [by f_equal|]. by constructor.
        -- destruct fh as [|[p' h'] fh]; simpl; [by intros [? ?]|]. intros [[= -> Hf] Hall].
           apply Forall_cons in Hall as [Hh Hall]. destruct (IH fh) as [_ H3].
           simpl in Hh. specialize (H3 (conj Hf Hall)). unfold mret, option_ret. congruence.
      * split; [done|]. destruct fh as [|[p' h'] fh]; simpl; [by intros [? ?]|].
        intros [[= -> Hf] [_ Hall]%Forall_cons]. destruct (IH fh) as [_ H3]. specialize (H3 (conj Hf Hall)). congruence.
    + split; [done|]. destruct fh as [|[p' h'] fh]; simpl; [by intros [? ?]|].
      intros [[= -> Hf] [Hh _]%Forall_cons]. simpl in Hh. congruence.
Qed.

#[local] Arguments hashes_of : simpl never.
#[local] Arguments entry_files : simpl never.

Section verdicts.
Context {B3 : Blake3}.

(** [ak] is the key of [e]'s inputs as [get_hash] and [env] report them. *)
Definition key_describes (g : DepGraph) (k : ContextKey) (e : ContextEntry)
    (get_hash : bytes -> option ContentHash) (env : bytes -> option bytes) (ak : ArtifactKey) : Prop :=
  exists fh changed snapshot, hashes_of get_hash (entry_files e) = Some fh /\
    current_key (rustc_externs g !! k) e fh get_hash env = Some (ak, changed, snapshot).

(** The entry a lookup by [key] consults, ready to hit. *)
Definition servable (g : DepGraph) (key k : ContextKey) (e : ContextEntry) : Prop :=
  resolve_instance_key g key = Some k /\ contexts g !! k = Some e /\
  ce_state e <> Cold /\ has_computed_includes e = false.

Lemma current_key_accessed externs e fh get_hash env now :
  current_key externs (set_accessed now e) fh get_hash env = current_key externs e fh get_hash env.
Proof. done. Qed.

(** Closes [no verdict <-> exists k e, servable g key k e /\ ...] where the entry
    cannot be served. *)
Ltac not_served :=
  split; [done|];
  let Hr := fresh in let Hk := fresh in let Hrest := fresh in
  intros (? & ? & (Hr & Hk & Hrest) & ?); destruct_and?;
  try (injection Hr as Hr; subst); simplify_eq; congruence.

Lemma fast_hit_spec key get_hash env g ak :
  (try_fast_hit_with_env key get_hash env g).2 = Some ak <->
  exists k e, servable g key k e /\ artifact_key e = Some ak /\ key_describes g k e get_hash env ak.
Proof.
  unfold try_fast_hit_with_env, servable, key_describes, rustc_extern_inputs.
  destruct (resolve_instance_key g key) as [k|]; simpl; [|not_served].
  destruct (contexts g !! k) as [e|] eqn:Hk; simpl; [|not_served].
  case_bool_decide as Hc; simpl; [not_served|].
  destruct (has_computed_includes e) eqn:Hh; simpl; [not_served|].
  destruct (artifact_key e) as [st|] eqn:Ha; simpl; [|not_served].
  rewrite (hash_chain get_hash). fold (entry_files e).
  destruct (hashes_of get_hash (entry_files e)) as [fh|] eqn:Hfh; simpl.
  2:{ split; [done|]. intros (k' & e' & (Hr & Hk' & _) & _ & fh' & c' & s' & Hn & _). by simplify_eq. }
  destruct (current_key _ e fh get_hash env) as [[[c b] s]|] eqn:Hck; simpl.
  2:{ split; [done|]. intros (k' & e' & (Hr & Hk' & _) & _ & fh' & c' & s' & Hn & ?). by simplify_eq. }
  case_bool_decide; simpl; split.
  - intros [= <-]. subst st. exists k, e. split_and!; [done..|]. by exists fh, b, s.
  - intros (k' & e' & (Hr & Hk' & _) & Ha' & _). simplify_eq. done.
  - done.
  - intros (k' & e' & (Hr & Hk' & _) & Ha' & fh' & c' & s' & ? & ?). by simplify_eq.
Qed.

(** All files of the entry pass [fresh_or_hash_match]. *)
Definition all_fresh (is_fresh : bytes -> bool) (get_hash : bytes -> option ContentHash)
    (e : ContextEntry) : Prop :=
  Forall (fun p => fresh_or_hash_match is_fresh get_hash (last_file_hashes e) p = true) (entry_files e).

Lemma filter_false_nil (f : bytes -> bool) l :
  filter (fun p => f p = false) l = [] <-> Forall (fun p => f p = true) l.
Proof.
  induction l as [|p l IH]; [done|]. rewrite filter_cons, Forall_cons.
  case_decide as Hp; [split; [done|intros [? _]; congruence]|]. rewrite IH.
  apply not_false_iff_true in Hp. tauto.
Qed.

Lemma check_hit_spec now key is_fresh get_hash env g ak :
  (check_with_env now key is_fresh get_hash env g).2 = VHit ak <->
  exists k e, servable g key k e /\ artifact_key e = Some ak /\
    key_describes g k e get_hash env ak /\ all_fresh is_fresh get_hash e.
Proof.
  unfold check_with_env, servable, key_describes, all_fresh, rustc_extern_inputs.
  destruct (resolve_instance_key g key) as [k|]; simpl; [|not_served].
  destruct (contexts g !! k) as [e|] eqn:Hk; simpl; [|not_served].
  case_bool_decide as Hc; simpl; [not_served|].
  destruct (has_computed_includes e) eqn:Hh; simpl; [not_served|].
  case_bool_decide as Hch; simpl.
  2:{ split; [done|]. intros (k' & e' & (? & ? & ?) & _ & _ & Hall). simplify_eq.
      destruct Hch. apply Forall_cons in Hall as [_ [Hf1 Hf2]%Forall_app].
      by rewrite (proj2 (filter_false_nil _ _) Hf1), (proj2 (filter_false_nil _ _) Hf2). }
  apply app_nil in Hch as [Hf1%filter_false_nil Hf2%filter_false_nil].
  rewrite (hash_chain get_hash). fold (entry_files e).
  destruct (hashes_of get_hash (entry_files e)) as [fh|] eqn:Hfh; simpl.
  2:{ split; [done|]. intros (k' & e' & (? & ? & ?) & _ & (? & ? & ? & Hn & _) & _). by simplify_eq. }
  rewrite current_key_accessed.
  destruct (current_key _ e fh get_hash env) as [[[c b] s]|] eqn:Hck; simpl.
  2:{ split; [done|]. intros (k' & e' & (? & ? & ?) & _ & (? & ? & ? & Hn & ?) & _). by simplify_eq. }
  split.
  - intros Hv. destruct (fresh_or_hash_match _ _ _ (cc_source_file (ce_context e))) eqn:Hs;
      [|by destruct b].
    case_bool_decide; simpl in Hv; [|by repeat case_match]. simplify_eq. exists k, e.
    split_and!; [done..| |]; [naive_solver|]. constructor; [done|]. by apply Forall_app.
  - intros (k' & e' & (? & ? & ?) & Ha & (fh' & c' & s' & Hn & Hck') & Hall). simplify_eq.
    apply Forall_cons in Hall as [-> _]. simplify_eq.
    by rewrite bool_decide_eq_true_2.
Qed.

Lemma diagnostic_agrees now key is_fresh get_hash env g :
  let c := check_with_env now key is_fresh get_hash env g in
  let d := check_diagnostic_with_env now key is_fresh get_hash env g in
  d.1 = c.1 /\ d.2.1 = c.2.
Proof.
  unfold check_with_env, check_diagnostic_with_env. cbn zeta.
  repeat first [ done | case_match; simplify_eq/= ].
Qed.

(** The two full checks and the fast path agree.  [check_diagnostic]
    returns the verdict of [check] and leaves the graph in the same state on
    every branch; a [Hit] of the full check is also a fast hit with the same
    key; and a fast hit is a [Hit] of the full check whenever each file is
    fresh or has a hash recorded at the last update. *)
Theorem checks_agree (now : Z) (key : ContextKey) (is_fresh : bytes -> bool)
    (get_hash : bytes -> option ContentHash) (env : bytes -> option bytes) (g : DepGraph) :
  let c := check_with_env now key is_fresh get_hash env g in
  let d := check_diagnostic_with_env now key is_fresh get_hash env g in
  let f := try_fast_hit_with_env key get_hash env g in
  d.1 = c.1 /\ d.2.1 = c.2 /\
  (forall ak, c.2 = VHit ak -> f.2 = Some ak) /\
  (forall ak, f.2 = Some ak ->
     (forall k e, resolve_instance_key g key = Some k -> contexts g !! k = Some e ->
        all_fresh is_fresh get_hash e) ->
     c.2 = VHit ak).
Proof.
  intros c d f. split_and!; [apply diagnostic_agrees..| |].
  - intros ak (k & e & Hs & Ha & Hd & _)%check_hit_spec. apply fast_hit_spec. eauto.
  - intros ak (k & e & Hs & Ha & Hd)%fast_hit_spec Hfresh. apply check_hit_spec. exists k, e.
    split_and!; [done..|]. destruct Hs as (Hr & Hk & _). eauto.
Qed.

(** ** Recording a compile *)

(** The inputs of a compile all have a hash. *)
Definition inputs_hashed (g : DepGraph) (k : ContextKey) (e : ContextEntry)
    (get_hash : bytes -> option ContentHash) : Prop :=
  is_Some (hashes_of get_hash (entry_files e)) /\
  forall xs, rustc_externs g !! k = Some xs -> is_Some (collect_rustc_extern_hashes xs get_hash).

(** The snapshot of the environment variables [names] a compile read. *)
Definition recorded_env (env : bytes -> option bytes) (names : list bytes) :
    list (bytes * option ContentHash) :=
  sort_by_key fst ((fun n => (n, hash_env_dep_value (env n))) <$> names).

Definition scanned_entry (now : Z) (scan : ScanResult) (e : ContextEntry) : ContextEntry :=
  set_accessed now (set_scan scan e).

Lemma fold_sorted base env :
  fold_rustc_env_deps_into_artifact_key base (sort_by_key fst env) =
  fold_rustc_env_deps_into_artifact_key base env.
Proof.
  unfold fold_rustc_env_deps_into_artifact_key, fold_preimage. rewrite sort_by_key_idem.
  rewrite (bool_decide_ext (sort_by_key fst env = []) (env = [])); [done|].
  unfold sort_by_key. by rewrite <- !length_zero_iff_nil, sort_by_length.
Qed.

Lemma update_spec now key scan get_hash names env g k e :
  resolve_instance_key g key = Some k -> contexts g !! k = Some e ->
  let e1 := scanned_entry now scan e in
  (inputs_hashed g k e1 get_hash ->
   exists fh ak env_hashes,
     hashes_of get_hash (entry_files e1) = Some fh /\
     update_with_env now key scan get_hash names env g =
       (graph_mark_dirty (put_entry k (set_env_deps env_hashes (set_file_hashes fh
          (set_artifact_key (Some ak) (set_state Warm e1)))) g), Some ak) /\
     (forall xs, rustc_externs g !! k = Some xs -> exists xh,
        collect_rustc_extern_hashes xs get_hash = Some xh /\
        env_hashes = recorded_env env names /\
        ak = fold_rustc_env_deps_into_artifact_key
               (compute_rustc_artifact_key_with_root (logical_key e) fh xh (ce_key_root e)) env_hashes) /\
     (rustc_externs g !! k = None -> ak = compute_artifact_key (logical_key e) fh (ce_key_root e))) /\
  (~ inputs_hashed g k e1 get_hash ->
   update_with_env now key scan get_hash names env g = (put_entry k e1 g, None)).
Proof.
  intros Hr Hk e1. unfold update_with_env, rustc_extern_inputs. rewrite Hr. cbn zeta. rewrite Hk.
  change (set_accessed now (set_scan scan e)) with e1. rewrite (hash_chain get_hash).
  fold (entry_files e1). unfold inputs_hashed.
  destruct (hashes_of get_hash (entry_files e1)) as [fh|] eqn:Hfh.
  2:{ split; [|done]. by intros [[? ?] _]. }
  destruct (rustc_externs g !! k) as [xs|] eqn:Hx.
  - destruct (collect_rustc_extern_hashes xs get_hash) as [xh|] eqn:Hxh; simpl.
    + split; [|intros []; split; [done|]; intros ? [= <-]; by rewrite Hxh].
      intros _. eexists fh, _, _. split_and!; [done|done| |done]. intros ? [= <-].
      exists xh. split_and!; [done|done|]. symmetry. apply fold_sorted.
    + split; [|done]. intros [_ H]. destruct (H xs eq_refl) as [? ?]. congruence.
  - split; [|intros []; by split]. intros _. eexists fh, _, _. split_and!; [done|done|done|].
    intros _. symmetry. apply artifact_key_sides.
Qed.

Lemma inputs_hashed_dec g k e get_hash :
  {inputs_hashed g k e get_hash} + {~ inputs_hashed g k e get_hash}.
Proof.
  unfold inputs_hashed. destruct (hashes_of get_hash (entry_files e)); [|right; by intros [[] _]].
  destruct (rustc_externs g !! k) as [xs|]; [|left; by split].
  destruct (collect_rustc_extern_hashes xs get_hash) eqn:Hxs.
  - left. split; [done|]. intros ? [= <-]. by rewrite Hxs.
  - right. intros [_ H]. destruct (H xs eq_refl). congruence.
Qed.

Lemma update_then_hashed now key scan get_hash names env g k e ak :
  resolve_instance_key g key = Some k -> contexts g !! k = Some e ->
  (update_with_env now key scan get_hash names env g).2 = Some ak ->
  inputs_hashed g k (scanned_entry now scan e) get_hash.
Proof.
  intros Hr Hk Hu. destruct (inputs_hashed_dec g k (scanned_entry now scan e) get_hash) as [|Hn]; [done|].
  destruct (update_spec now key scan get_hash names env g k e Hr Hk) as [_ Hno].
  by rewrite (Hno Hn) in Hu.
Qed.

Lemma collect_extern_mono xs (get_hash get_hash' : bytes -> option ContentHash) xh :
  (forall p h, get_hash p = Some h -> get_hash' p = Some h) ->
  collect_rustc_extern_hashes xs get_hash = Some xh ->
  collect_rustc_extern_hashes xs get_hash' = Some xh.
Proof.
  intros Hmono. revert xh. induction xs as [|[n p] xs IH]; intros xh; simpl; [done|].
  destruct (get_hash p) as [h|] eqn:Hp; simpl; [|done]. rewrite (Hmono _ _ Hp). simpl.
  destruct (collect_rustc_extern_hashes xs get_hash) as [hs|]; simpl; [|done].
  by rewrite (IH hs eq_refl).
Qed.

Lemma hashes_of_mono ps (get_hash get_hash' : bytes -> option ContentHash) fh :
  (forall p h, get_hash p = Some h -> get_hash' p = Some h) ->
  hashes_of get_hash ps = Some fh -> hashes_of get_hash' ps = Some fh.
Proof.
  intros Hmono [Hf Hall]%hashes_of_Some. apply hashes_of_Some. split; [done|].
  eapply Forall_impl; [exact Hall|]. intros [p h]. apply Hmono.
Qed.

(** Looking the recorded names up again gives the snapshot of the new values. *)
Lemma collect_recorded names (env env' : bytes -> option bytes) :
  collect_rustc_env_hashes (recorded_env env names) env' = recorded_env env' names.
Proof.
  unfold collect_rustc_env_hashes, recorded_env.
  rewrite (sort_by_key_fmap (fun n => n) fst (fun n => (n, hash_env_dep_value (env n)))) by done.
  rewrite (sort_by_key_fmap (fun n => n) fst (fun n => (n, hash_env_dep_value (env' n)))) by done.
  rewrite <- list_fmap_compose. done.
Qed.

Lemma recorded_env_ext names (env env' : bytes -> option bytes) :
  (forall n, n ∈ names -> env' n = env n) -> recorded_env env' names = recorded_env env names.
Proof.
  intros Hsame. unfold recorded_env. f_equal. apply list_fmap_ext. intros i n Hi.
  rewrite Hsame; [done|]. by eapply list_elem_of_lookup_2.
Qed.

Lemma recorded_fresh is_fresh get_hash e :
  hashes_of get_hash (entry_files e) = Some (last_file_hashes e) -> all_fresh is_fresh get_hash e.
Proof.
  intros [Hf Hall]%hashes_of_Some. apply Forall_forall. intros p Hp.
  unfold fresh_or_hash_match. destruct (is_fresh p); [done|]. rewrite <- Hf in Hp.
  apply list_elem_of_fmap in Hp as ([p' h] & -> & Hin). rewrite Forall_forall in Hall.
  pose proof (Hall _ Hin) as Hh. simpl in *. rewrite Hh. apply existsb_exists. exists (p', h).
  split; [by apply list_elem_of_In|]. by rewrite !bool_decide_eq_true_2.
Qed.

(** C6: a recorded compile is found again.  [update] on a live context returns a
    key exactly when the source, the scanned includes, the forced includes and
    the externs all have a hash; otherwise only the include lists and the
    access time change.  After a successful update the context is [Warm]; if the
    scan met no computed include, then as long as the hashes and the environment
    variables it read are the same, the fast path and the full check both hit
    with that key, whatever the journal says about freshness.  With a computed
    include the fast path never hits and the full check asks for the
    preprocessor, whatever the hashes. *)
Theorem update_then_hit (now : Z) (key : ContextKey) (scan : ScanResult)
    (get_hash : bytes -> option ContentHash) (names : list bytes) (env : bytes -> option bytes)
    (g : DepGraph) (k : ContextKey) (e : ContextEntry) :
  resolve_instance_key g key = Some k -> contexts g !! k = Some e ->
  let e1 := scanned_entry now scan e in
  let u := update_with_env now key scan get_hash names env g in
  (is_Some u.2 <-> inputs_hashed g k e1 get_hash) /\
  (u.2 = None -> u.1 = put_entry k e1 g) /\
  (forall ak, u.2 = Some ak ->
     get_state u.1 key = Some Warm /\
     (has_computed scan = false ->
      forall now' is_fresh get_hash' env',
        (forall p h, get_hash p = Some h -> get_hash' p = Some h) ->
        (forall n, n ∈ names -> env' n = env n) ->
        (try_fast_hit_with_env key get_hash' env' u.1).2 = Some ak /\
        (check_with_env now' key is_fresh get_hash' env' u.1).2 = VHit ak) /\
     (has_computed scan = true ->
      forall now' is_fresh get_hash' env',
        (try_fast_hit_with_env key get_hash' env' u.1).2 = None /\
        (check_with_env now' key is_fresh get_hash' env' u.1).2 = VNeedsPreprocessor)).
Proof.
  intros Hr Hk e1 u. subst u.
  assert (same_index g (update_with_env now key scan get_hash names env g).1) as Hsi
    by apply update_index.
  destruct (update_spec now key scan get_hash names env g k e Hr Hk) as [Hok Hno].
  fold e1 in Hok, Hno.
  destruct (inputs_hashed_dec g k e1 get_hash) as [Hin|Hout].
  2:{ rewrite (Hno Hout). simpl. split_and!; [|done|done]. split; [by intros []|done]. }
  destruct (Hok Hin) as (fh & ak0 & eh & Hfh & Hu & Hx & Hc). clear Hok Hno. rewrite Hu in Hsi |- *. simpl in *.
  split_and!; [done|done|]. intros ak [= <-].
  set (e2 := set_env_deps eh _).
  set (g' := graph_mark_dirty _) in *.
  assert (resolve_instance_key g' key = Some k) as Hr' by (rewrite <- Hr; by apply same_index_resolve).
  assert (contexts g' !! k = Some e2) as Hk' by (simpl; apply lookup_insert_eq).
  split; [unfold get_state, resolved_entry; by rewrite Hr'; simpl; rewrite lookup_insert_eq|].
  assert (ce_state e2 <> Cold /\ has_computed_includes e2 = has_computed scan) as [Hcold Hcomputed] by done. split; cycle 1.
  { intros Hcomp now' is_fresh get_hash' env'. split.
    - destruct (try_fast_hit_with_env key get_hash' env' g').2 as [ak|] eqn:Hf; [|done]. exfalso.
      apply fast_hit_spec in Hf as (k' & e' & (H1 & H2 & _ & H4) & _). simplify_eq. congruence.
    - unfold check_with_env. rewrite Hr'. cbn [contexts add_check]. change (contexts (add_check g') !! k) with (contexts g' !! k). rewrite Hk'.
      cbn zeta. change (ce_state (set_accessed now' e2)) with (ce_state e2). rewrite bool_decide_eq_false_2 by done.
      change (has_computed_includes (set_accessed now' e2)) with (has_computed_includes e2). by rewrite Hcomputed, Hcomp. }
  intros Hcomp now' is_fresh get_hash' env' Hmono Henv.
  assert (servable g' key k e2) as Hserv by done.
  pose proof (hashes_of_mono _ _ _ _ Hmono Hfh) as Hfh'.
  assert (key_describes g' k e2 get_hash' env' ak0) as Hd.
  { exists fh. unfold current_key. simpl. destruct (rustc_externs g !! k) as [xs|].
    - destruct (Hx xs eq_refl) as (xh & Hxh & -> & ->).
      rewrite (collect_extern_mono _ _ _ _ Hmono Hxh). simpl.
      rewrite collect_recorded, (recorded_env_ext names env env') by done.
      eexists _, _. split; [exact Hfh'|done].
    - rewrite Hc by done. by eexists _, _. }
  split.
  - apply fast_hit_spec. by exists k, e2.
  - apply check_hit_spec. exists k, e2. split_and!; [done..|]. by apply recorded_fresh.
Qed.

(** ** A hit means that nothing changed *)

(** Two hashings of the same files that give the same keyed entries. *)
Lemma same_entries_same_hashes {P} (f : P -> bytes) (ps : list P) (h1 h2 : P -> option ContentHash)
    (l1 l2 : list (bytes * ContentHash)) :
  (forall p q, p ∈ ps -> q ∈ ps -> f p = f q -> p = q) ->
  Forall2 (fun p e => e.1 = f p /\ h1 p = Some e.2) ps l1 ->
  Forall2 (fun p e => e.1 = f p /\ h2 p = Some e.2) ps l2 ->
  l1 ≡ₚ l2 -> forall p, p ∈ ps -> h2 p = h1 p.
Proof.
  intros Hinj H1 H2 Hp p Hin. apply list_elem_of_lookup in Hin as [i Hi].
  destruct (Forall2_lookup_l _ _ _ _ _ H1 Hi) as ([n h] & Hl & Hn & Hh). simpl in *.
  assert ((n, h) ∈ l2) as Hin2 by (rewrite <- Hp; by eapply list_elem_of_lookup_2).
  apply list_elem_of_lookup in Hin2 as [j Hj].
  destruct (Forall2_lookup_r _ _ _ _ _ H2 Hj) as (q & Hq & Hn' & Hh'). simpl in *.
  rewrite (Hinj p q) at 1; [congruence|by eapply list_elem_of_lookup_2..|congruence].
Qed.

Lemma hashes_indexed get_hash ps fh root :
  hashes_of get_hash ps = Some fh ->
  Forall2 (fun p e => e.1 = normalize_key_path p root /\ get_hash p = Some e.2) ps
    (indexed_keys root fh).
Proof.
  intros [<- Hall]%hashes_of_Some. unfold indexed_keys.
  induction Hall as [|[p h] l Hh Hl IH]; simpl; constructor; [by split|done].
Qed.

Lemma collect_extern_Forall2 xs get_hash xh :
  collect_rustc_extern_hashes xs get_hash = Some xh ->
  Forall2 (fun x e => e.1 = x.1 /\ get_hash x.2 = Some e.2) xs xh.
Proof.
  revert xh. induction xs as [|[n p] xs IH]; intros xh; simpl; [intros [= <-]; constructor|].
  destruct (get_hash p) as [h|] eqn:Hp; simpl; [|done].
  destruct (collect_rustc_extern_hashes xs get_hash) as [hs|]; simpl; [|done].
  intros [= <-]. constructor; [done|]. by apply IH.
Qed.

Lemma env_hash_eq (v w : option bytes) :
  hash_env_dep_value v = hash_env_dep_value w ->
  v = w \/ exists a b, v = Some a /\ w = Some b /\ blake3_collision a b.
Proof.
  destruct v as [v|], w as [w|]; simpl; try done; [|by left].
  intros [= H]. apply blake3_eq in H as [->|]; [by left|]. right. eauto.
Qed.

(** The digest of some value begins with the bytes that mark an unset one. *)
Definition digest_reads_unset (names : list bytes) (env : bytes -> option bytes) : Prop :=
  exists n v r, n ∈ names /\ env n = Some v /\ hash_bytes v = ("unset" +:+ nul) +:+ r.

Lemma env_entries_eq names (env env' : bytes -> option bytes) :
  recorded_env env names ≡ₚ recorded_env env' names ->
  (forall n, n ∈ names -> env' n = env n) \/
  exists n a b, n ∈ names /\ env n = Some a /\ env' n = Some b /\ blake3_collision a b.
Proof.
  unfold recorded_env. rewrite !sort_by_key_perm. intros Hp.
  assert (forall n, n ∈ names -> hash_env_dep_value (env n) = hash_env_dep_value (env' n)) as Hh.
  { intros n Hn. assert ((n, hash_env_dep_value (env n)) ∈
      ((fun n => (n, hash_env_dep_value (env' n))) <$> names)) as Hin.
    { rewrite <- Hp. apply list_elem_of_fmap. eauto. }
    apply list_elem_of_fmap in Hin as (n' & [= -> Heq] & _). done. }
  clear Hp. induction names as [|n names IH]; [left; intros n Hn; by apply not_elem_of_nil in Hn|].
  destruct (env_hash_eq _ _ (Hh n (list_elem_of_here _ _))) as [Hn|(a & b & ? & ? & ?)].
  2:{ right. exists n, a, b. split; [by left|done]. }
  destruct IH as [IH|(m & a & b & Hm & ?)]; [intros m Hm; apply Hh; by right| |].
  - left. intros m [->|Hm]%elem_of_cons; [done|by apply IH].
  - right. exists m, a, b. split; [by right|done].
Qed.

Lemma env_entries_wf names env :
  Forall (fun n => no_nul n = true) names -> Forall env_entry_wf (recorded_env env names).
Proof.
  intros Hn. apply sort_by_key_Forall. apply Forall_fmap. eapply Forall_impl; [exact Hn|].
  intros n Hnn. split; [done|]. intros h. simpl. destruct (env n) as [v|]; [|done].
  intros [= <-]. apply blake3_length.
Qed.

Lemma env_names_sorted names env env' :
  (sort_by_key fst (recorded_env env names)).*1 = (sort_by_key fst (recorded_env env' names)).*1.
Proof.
  unfold recorded_env. rewrite !sort_by_key_idem.
  rewrite !(sort_by_key_fmap (fun n => n) fst) by done. rewrite <- !list_fmap_compose. done.
Qed.

Lemma lookalike_digest names env env' :
  unset_lookalike (recorded_env env names ++ recorded_env env' names) ->
  digest_reads_unset names env \/ digest_reads_unset names env'.
Proof.
  assert (forall env n h r, (n, Some h) ∈ recorded_env env names -> h = ("unset" +:+ nul) +:+ r ->
    digest_reads_unset names env) as Hone.
  { intros env0 n h r Hin Hh. unfold recorded_env in Hin. rewrite sort_by_key_perm in Hin.
    apply list_elem_of_fmap in Hin as (n' & [= -> Heq] & Hn). destruct (env0 n') as [v|] eqn:Hv; [|done].
    simpl in Heq. injection Heq as Heq. exists n', v, r. by rewrite <- Heq. }
  intros (n & h & r & [Hin|Hin]%elem_of_app & Hh); [left|right]; by eapply Hone.
Qed.

(** The texts hashed to compute the key of a compile of [e]. *)
Definition hashed_messages (externs : option (list (bytes * NormalizedPath))) (e : ContextEntry)
    (names : list bytes) (get_hash : bytes -> option ContentHash) (env : bytes -> option bytes) :
    list bytes :=
  match hashes_of get_hash (entry_files e), externs with
  | None, _ => []
  | Some fh, None =>
      [artifact_preimage "zccache-artifact-key-v1" (logical_key e) (indexed_keys (ce_key_root e) fh)]
  | Some fh, Some xs =>
      match collect_rustc_extern_hashes xs get_hash with
      | None => []
      | Some xh =>
          [rustc_artifact_preimage (logical_key e) (indexed_keys (ce_key_root e) fh) xh;
           fold_preimage (compute_rustc_artifact_key_with_root (logical_key e) fh xh (ce_key_root e))
             (recorded_env env names)] ++ omap env names
      end
  end.

(** What the keys rely on: hashes of 32 bytes, a root and files that are
    absolute normalised paths, key paths and names without NUL bytes, and one
    path per extern crate name. *)
Record key_inputs_wf (externs : option (list (bytes * NormalizedPath))) (e : ContextEntry)
    (names : list bytes) : Prop := {
  kw_logical : hash_wf (logical_key e);
  kw_root : match ce_key_root e with Some r => abs_path r | None => True end;
  kw_files : Forall (fun p => abs_path p /\ no_nul (normalize_key_path p (ce_key_root e)) = true)
               (entry_files e);
  kw_externs xs : externs = Some xs -> NoDup xs.*1 /\ Forall (fun x => no_nul x.1 = true) xs;
  kw_names : Forall (fun n => no_nul n = true) names;
}.

Definition hashes_wf (get_hash : bytes -> option ContentHash) : Prop :=
  forall p h, get_hash p = Some h -> hash_wf h.

(** The key of a compile of [e], by kind. *)
Definition input_key (externs : option (list (bytes * NormalizedPath))) (e : ContextEntry)
    (names : list bytes) (get_hash : bytes -> option ContentHash) (env : bytes -> option bytes) :
    option ArtifactKey :=
  fh ← hashes_of get_hash (entry_files e);
  match externs with
  | None => Some (compute_artifact_key (logical_key e) fh (ce_key_root e))
  | Some xs =>
      xh ← collect_rustc_extern_hashes xs get_hash;
      Some (fold_rustc_env_deps_into_artifact_key
              (compute_rustc_artifact_key_with_root (logical_key e) fh xh (ce_key_root e))
              (recorded_env env names))
  end.

(** The inputs of a compile of [e] are the same under two hashings. *)
Definition same_inputs (externs : option (list (bytes * NormalizedPath))) (e : ContextEntry)
    (names : list bytes) (get_hash get_hash' : bytes -> option ContentHash)
    (env env' : bytes -> option bytes) : Prop :=
  (forall p, p ∈ entry_files e -> get_hash' p = get_hash p) /\
  (forall xs, externs = Some xs ->
     (forall n p, (n, p) ∈ xs -> get_hash' p = get_hash p) /\
     (forall n, n ∈ names -> env' n = env n)).

Lemma indexed_wf externs e names get_hash fh :
  key_inputs_wf externs e names -> hashes_wf get_hash ->
  hashes_of get_hash (entry_files e) = Some fh ->
  Forall entry_wf (indexed_keys (ce_key_root e) fh).
Proof.
  intros Hwf Hh [Hf Hall]%hashes_of_Some. pose proof (kw_files _ _ _ Hwf) as Hp.
  rewrite <- Hf in Hp. apply Forall_fmap in Hp. unfold indexed_keys. apply Forall_fmap.
  rewrite Forall_forall in Hp, Hall |- *. intros [p h] Hin. split; simpl.
  - by apply (Hp (p, h)).
  - by apply (Hh p), (Hall (p, h)).
Qed.

Lemma same_files externs e names get_hash get_hash' fh fh' :
  key_inputs_wf externs e names ->
  hashes_of get_hash (entry_files e) = Some fh -> hashes_of get_hash' (entry_files e) = Some fh' ->
  indexed_keys (ce_key_root e) fh ≡ₚ indexed_keys (ce_key_root e) fh' ->
  forall p, p ∈ entry_files e -> get_hash' p = get_hash p.
Proof.
  intros Hwf H1 H2 Hp. eapply (same_entries_same_hashes
    (fun p => normalize_key_path p (ce_key_root e))); [|by apply hashes_indexed..|exact Hp].
  pose proof (kw_files _ _ _ Hwf) as Hf. rewrite Forall_forall in Hf. intros p q Hin1 Hin2.
  apply normalize_key_path_inj; [by apply Hf..|apply (kw_root _ _ _ Hwf)].
Qed.

Lemma NoDup_key_inj {A B} (f : A -> B) (l : list A) x y :
  NoDup (f <$> l) -> x ∈ l -> y ∈ l -> f x = f y -> x = y.
Proof.
  intros Hnd [i Hi]%list_elem_of_lookup [j Hj]%list_elem_of_lookup Heq.
  assert (i = j) as ->; [|congruence].
  eapply NoDup_lookup; [done|rewrite list_lookup_fmap, Hi; done|].
  by rewrite list_lookup_fmap, Hj, Heq.
Qed.

Lemma same_externs xs get_hash get_hash' xh xh' :
  NoDup xs.*1 -> collect_rustc_extern_hashes xs get_hash = Some xh ->
  collect_rustc_extern_hashes xs get_hash' = Some xh' -> xh ≡ₚ xh' ->
  forall n p, (n, p) ∈ xs -> get_hash' p = get_hash p.
Proof.
  intros Hnd H1%collect_extern_Forall2 H2%collect_extern_Forall2 Hp n p Hin.
  refine (same_entries_same_hashes fst xs (fun x => get_hash x.2) (fun x => get_hash' x.2) xh xh'
    _ H1 H2 Hp (n, p) Hin).
  intros x y. by apply NoDup_key_inj.
Qed.

Lemma extern_entries_wf xs get_hash xh :
  Forall (fun x => no_nul x.1 = true) xs -> hashes_wf get_hash ->
  collect_rustc_extern_hashes xs get_hash = Some xh -> Forall entry_wf xh.
Proof.
  intros Hn Hh Hc%collect_extern_Forall2. induction Hc as [|[n p] [n' h] xs xh [Hx Hy] Hc IH];
    [constructor|]. apply Forall_cons in Hn as [Hn Hns]. simpl in *. subst n'.
  constructor; [split; [done|by eapply Hh]|by apply IH].
Qed.

Lemma key_identifies_inputs externs e names get_hash get_hash' env env' ak :
  key_inputs_wf externs e names -> hashes_wf get_hash -> hashes_wf get_hash' ->
  input_key externs e names get_hash env = Some ak ->
  input_key externs e names get_hash' env' = Some ak ->
  same_inputs externs e names get_hash get_hash' env env' \/
  (exists m m', m ∈ hashed_messages externs e names get_hash env /\
     m' ∈ hashed_messages externs e names get_hash' env' /\ blake3_collision m m') \/
  digest_reads_unset names env \/ digest_reads_unset names env'.
Proof.
  intros Hwf Hh Hh'. unfold input_key, hashed_messages.
  destruct (hashes_of get_hash (entry_files e)) as [fh|] eqn:Hfh; simpl; [|done].
  destruct (hashes_of get_hash' (entry_files e)) as [fh'|] eqn:Hfh'; simpl; [|by destruct externs].
  pose proof (indexed_wf _ _ _ _ _ Hwf Hh Hfh) as Hw. pose proof (indexed_wf _ _ _ _ _ Hwf Hh' Hfh') as Hw'.
  pose proof (same_files _ _ _ _ _ _ _ Hwf Hfh Hfh') as Hsame.
  destruct externs as [xs|].
  2:{ intros [= Hak] [= Hak']. rewrite <- Hak' in Hak.
      apply artifact_key_inj in Hak as [[_ Hp]|Hcol]; [| |apply Hwf|apply Hwf|done|done].
      - left. split; [by apply Hsame|done].
      - right. left. eexists _, _. split_and!; [by left|by left|done]. }
  destruct (collect_rustc_extern_hashes xs get_hash) as [xh|] eqn:Hx; simpl; [|done].
  destruct (collect_rustc_extern_hashes xs get_hash') as [xh'|] eqn:Hx'; simpl; [|done].
  intros [= Hak] [= Hak']. rewrite <- Hak' in Hak.
  destruct (kw_externs _ _ _ Hwf xs eq_refl) as [Hnd Hn].
  apply rustc_full_key_inj in Hak as [(_ & Hp & Hpx & Hpe)|[Hcol|[Hcol|Hlook]]].
  - apply env_entries_eq in Hpe as [Hpe|(n & a & b & Hin & Ha & Hb & Hcol)].
    + left. split; [by apply Hsame|]. intros ? [= <-]. split; [by eapply same_externs|done].
    + right. left. exists a, b. split_and!; [| |done]; right; right;
        apply list_elem_of_omap; eauto.
  - right. left. eexists _, _. split_and!; [by left|by left|done].
  - right. left. eexists _, _. split_and!; [by right; left|by right; left|done].
  - right. right. by apply lookalike_digest.
  - apply Hwf.
  - apply Hwf.
  - apply hashes_of_Some in Hfh as [Hf _], Hfh' as [Hf' _].
    by rewrite <- (length_fmap fst fh), <- (length_fmap fst fh'), Hf, Hf'.
  - apply env_names_sorted.
  - done.
  - done.
  - exact (extern_entries_wf _ _ _ Hn Hh Hx).
  - exact (extern_entries_wf _ _ _ Hn Hh' Hx').
  - apply env_entries_wf, Hwf.
  - apply env_entries_wf, Hwf.
Qed.

(** C2: a hit means that nothing changed.  When a compile was recorded and a
    later fast path or full check hits, it hits with the recorded key, and the
    source, every resolved include, every forced include and every extern crate
    hash as they did when the compile was recorded, and every environment
    variable the compile read has its old value; unless blake3 collides on two
    of the texts hashed for the two keys, or the digest of one of the values
    begins with the bytes that mark an unset variable. *)
Theorem hit_means_unchanged (now : Z) (key : ContextKey) (scan : ScanResult)
    (get_hash get_hash' : bytes -> option ContentHash) (names : list bytes)
    (env env' : bytes -> option bytes) (g : DepGraph) (k : ContextKey) (e : ContextEntry)
    (ak ak' : ArtifactKey) :
  resolve_instance_key g key = Some k -> contexts g !! k = Some e ->
  let externs := rustc_externs g !! k in
  let e1 := scanned_entry now scan e in
  let u := update_with_env now key scan get_hash names env g in
  u.2 = Some ak ->
  key_inputs_wf externs e1 names -> hashes_wf get_hash -> hashes_wf get_hash' ->
  (try_fast_hit_with_env key get_hash' env' u.1).2 = Some ak' \/
  (exists now' is_fresh, (check_with_env now' key is_fresh get_hash' env' u.1).2 = VHit ak') ->
  ak' = ak /\
  (same_inputs externs e1 names get_hash get_hash' env env' \/
   (exists m m', m ∈ hashed_messages externs e1 names get_hash env /\
      m' ∈ hashed_messages externs e1 names get_hash' env' /\ blake3_collision m m') \/
   digest_reads_unset names env \/ digest_reads_unset names env').
Proof.
  intros Hr Hk externs e1 u Hu Hwf Hh Hh' Hhit.
  assert (exists k' e', servable u.1 key k' e' /\ artifact_key e' = Some ak' /\
    key_describes u.1 k' e' get_hash' env' ak') as (k' & e' & Hs & Ha & Hd).
  { destruct Hhit as [Hf%fast_hit_spec|(now' & fr & (k' & e' & ? & ? & ? & _)%check_hit_spec)]; eauto. }
  assert (resolve_instance_key u.1 key = Some k) as Hr'.
  { rewrite <- Hr. apply same_index_resolve, update_index. }
  destruct (update_spec now key scan get_hash names env g k e Hr Hk) as [Hok Hno].
  pose proof (update_then_hashed now key scan get_hash names env g k e ak Hr Hk Hu) as Hin.
  destruct (Hok Hin) as (fh & ak0 & eh & Hfh & Hupd & Hx & Hc). clear Hok Hno.
  subst u. rewrite Hupd in *. simpl in Hu. injection Hu as ->.
  destruct Hs as (Hr2 & Hk2 & _). rewrite Hr' in Hr2. injection Hr2 as <-.
  simpl in Hk2. rewrite lookup_insert_eq in Hk2. injection Hk2 as <-. simpl in Ha.
  injection Ha as ->. split; [done|].
  apply (key_identifies_inputs _ _ _ _ _ _ _ ak'); [done..| |].
  - unfold input_key. fold e1 in Hfh. rewrite Hfh. simpl. fold externs in Hx, Hc.
    destruct externs as [xs|]; [|by rewrite Hc].
    destruct (Hx xs eq_refl) as (xh & -> & -> & ->). done.
  - destruct Hd as (fh' & c & s & Hfh' & Hck). unfold input_key.
    assert (hashes_of get_hash' (entry_files e1) = Some fh') as -> by exact Hfh'. simpl.
    unfold current_key in Hck. simpl in Hck. fold externs in Hx, Hck.
    destruct externs as [xs|]; [|injection Hck as Hck; by rewrite <- Hck].
    destruct (Hx xs eq_refl) as (xh & _ & -> & _). simpl in Hck.
    destruct (collect_rustc_extern_hashes xs get_hash') as [xh'|]; simpl in *; [|done].
    rewrite collect_recorded in Hck. injection Hck as Hck. by rewrite <- Hck.
Qed.

(** ** A second checkout *)

Lemma acc_ok_names a b :
  acc_ok b = true -> Forall (fun c => exists n, c = Normal n /\ name_ok n = true) a ->
  acc_ok (a ++ b) = true.
Proof. intros Hb. induction 1 as [|c a (n & -> & Hn) Ha IH]; simpl; [done|]. by rewrite Hn, IH. Qed.

(** A path without [..] under a root moves to the other root with its remainder. *)
Lemma rebase_relocated root1 root2 p :
  abs_path root1 -> abs_path root2 -> abs_path p -> ParentDir ∉ components p ->
  (path_starts_with p root1 = true \/ path_starts_with p root2 = false) ->
  relocated root1 root2 p (rebase_project_path p (Some root1) (Some root2)).
Proof.
  intros Hr1 Hr2 Hp Hpd Hin.
  assert (rebase_project_path p (Some root1) (Some root2) =
    match path_strip_prefix p root1 with Some rel => np_join root2 rel | None => p end) as ->.
  { unfold rebase_project_path, np_strip_prefix, case_key, NormalizedPath_new, normalize_for_key.
    by rewrite (proj1 Hp), !(proj1 Hr1). }
  unfold relocated, path_strip_prefix, path_starts_with in *.
  destruct (strip_components (components p) (components root1)) as [rest|] eqn:Hs; cbn [fmap option_fmap option_map].
  2:{ destruct Hin as [Hin|Hin]; [by apply bool_decide_eq_true in Hin as [? ?]|].
      destruct (strip_components (components p) (components root2)); [|done].
      apply bool_decide_eq_false in Hin. by destruct Hin. }
  apply strip_components_Some in Hs. destruct (abs_components p Hp) as [_ Hok].
  destruct (abs_components root1 Hr1) as [[rs Hrs] _], (abs_components root2 Hr2) as [[ss Hss] Hok2].
  assert (Forall (fun c => exists n, c = Normal n /\ name_ok n = true) rest) as Hnames.
  { rewrite Hs, reverse_app in Hok. rewrite Hs in Hpd.
    apply acc_ok_app_l in Hok as [Hok Hnr]; [|rewrite Hrs, reverse_cons; by destruct (reverse rs)].
    apply Forall_forall. intros c Hc. clear -Hok Hnr Hpd Hc. rewrite elem_of_app in Hpd.
    rewrite <- elem_of_reverse in Hc. rewrite <- (elem_of_reverse ParentDir rest) in Hpd.
    induction (reverse rest) as [|d l IH]; [by apply not_elem_of_nil in Hc|].
    simpl in Hok. apply andb_true_iff in Hok as [Hd Hok].
    apply elem_of_cons in Hc as [->|Hc].
    - destruct d as [| | |n]; [destruct Hnr; by left|done|destruct Hpd; right; by left|eauto].
    - apply IH; [set_solver|done|set_solver|done]. }
  assert (Forall (fun c => comp_ok c = true) rest) as Hcomp.
  { eapply Forall_impl; [exact Hnames|]. by intros c (n & -> & Hn). }
  unfold np_join, NormalizedPath_new.
  assert (components (normalize (path_push root2 (collect_path rest))) = components root2 ++ rest) as Hj.
  { rewrite components_normalize, components_push_names; [|by intros ->|done].
    unfold normalize_components. rewrite <- (reverse_involutive (components root2 ++ rest)) at 1.
    rewrite normalize_fixed, reverse_involutive; [done|]. rewrite reverse_app.
    apply acc_ok_names; [done|]. by rewrite Forall_reverse. }
  by rewrite Hj, strip_components_app.
Qed.

(** Files that moved with their content have the same keyed entries. *)
Lemma moved_entries root1 root2 get_hash1 get_hash2 ps1 ps2 fh1 :
  Forall2 (fun p1 p2 => relocated root1 root2 p1 p2 /\ get_hash2 p2 = get_hash1 p1) ps1 ps2 ->
  hashes_of get_hash1 ps1 = Some fh1 ->
  exists fh2, hashes_of get_hash2 ps2 = Some fh2 /\
    indexed_keys (Some root2) fh2 = indexed_keys (Some root1) fh1.
Proof.
  intros Hp. revert fh1. induction Hp as [|p1 p2 ps1 ps2 [Hr Hh] Hp IH]; intros fh1; unfold hashes_of; simpl.
  - intros [= <-]. by exists [].
  - rewrite Hh. destruct (get_hash1 p1) as [h|]; simpl; [|done].
    fold (hashes_of get_hash1 ps1) (hashes_of get_hash2 ps2).
    destruct (hashes_of get_hash1 ps1) as [l|]; simpl; [|done]. intros [= <-].
    destruct (IH l eq_refl) as (l2 & -> & Hl2). eexists. split; [done|].
    unfold indexed_keys in *. cbn [fmap list_fmap]. f_equal; [|exact Hl2].
    by rewrite (relocated_key _ _ _ _ Hr).
Qed.

Section worktree.
Context (equivalents_var : option bytes).

(** Registering a context that has no entry yet: its class' first live instance
    is what it starts from. *)
Lemma register_new now key ctx root g k1 l e1 :
  graph_wf (max_equivalent_contexts equivalents_var) g ->
  equivalent_contexts g !! key = Some (k1 :: l) -> contexts g !! k1 = Some e1 ->
  let ik := map_key (ContextInstanceKey_new key (cc_source_file ctx) root) in
  contexts g !! ik = None ->
  let e2 := rebased_entry now ctx root e1 in
  let '(g', r) := register_with_key_and_root_result equivalents_var now key ctx root g in
  reg_map_key r = ik /\ reg_state r = ce_state e1 /\
  contexts g' !! ik = Some e2 /\ rustc_externs g' !! ik = None /\
  (forall k', k' <> ik -> contexts g' !! k' = contexts g !! k' \/
     k' = k1 /\ contexts g' !! k' = None /\
     Z.of_nat (length (k1 :: l)) = max_equivalent_contexts equivalents_var).
Proof.
  intros Hwf Hl Hk1 ik Hik e2. unfold register_with_key_and_root_result, register_context_entry.
  cbn zeta. fold ik. cbn [contexts graph_mark_dirty set_graph_dirty equivalent_contexts put_entry
    set_contexts]. rewrite Hik, Hl. cbn [mbind option_bind find_live contexts graph_mark_dirty
    set_graph_dirty]. rewrite Hk1. fold e2.
  assert (ik ∉ k1 :: l) as Hnin.
  { intros Hin. pose proof (wf_listed _ _ Hwf _ _ _ Hl Hin) as H. by rewrite Hik in H. }
  rewrite bool_decide_eq_false_2 by done.
  destruct (wf_class _ _ Hwf _ _ Hl) as (_ & _ & Hlen).
  destruct (Z.ltb_spec (max_equivalent_contexts equivalents_var)
    (Z.of_nat (length ((k1 :: l) ++ [ik])))) as [Hlt|Hge].
  - assert (ik <> k1) by (intros ->; apply Hnin; by left).
    rewrite length_app in Hlt. cbn [length] in Hlt, Hlen |- *. simpl. split_and!; [done|done|..].
    + rewrite lookup_delete_ne by done. apply lookup_insert_eq.
    + apply lookup_delete_eq.
    + intros k' Hne. destruct (decide (k' = k1)) as [->|].
      * right. split_and!; [done|apply lookup_delete_eq|lia].
      * left. by rewrite lookup_delete_ne, lookup_insert_ne.
  - simpl. split_and!; [done|done|apply lookup_insert_eq|apply lookup_delete_eq|].
    intros k' Hne. left. by rewrite lookup_insert_ne.
Qed.

(** A second checkout inherits what the first one learned.  Let a C/C++
    context be recorded for one root with the key of its files, the oldest of
    its class, and let the same logical context be registered for another root
    for the first time.  If every file has a counterpart in the new checkout
    with the same content (project files at the same place under the new root,
    other files unmoved), the registration is already servable and the fast
    path hits with the first checkout's key; no other context changes, except
    that the oldest one of the class goes when the class is at its limit. *)
Theorem worktree_inherits_hit (now : Z) (key : ContextKey) (ctx : CompileContext)
    (root1 root2 : NormalizedPath) (get_hash1 get_hash2 : bytes -> option ContentHash) (g : DepGraph)
    (k1 : ContextKey) (l : list ContextKey) (e1 : ContextEntry) (ak : ArtifactKey) :
  graph_wf (max_equivalent_contexts equivalents_var) g ->
  equivalent_contexts g !! key = Some (k1 :: l) -> contexts g !! k1 = Some e1 ->
  ce_key_root e1 = Some root1 -> abs_path root1 -> abs_path root2 ->
  ce_state e1 = Warm -> has_computed_includes e1 = false -> artifact_key e1 = Some ak ->
  input_key None e1 [] get_hash1 (fun _ => None) = Some ak ->
  let ik := map_key (ContextInstanceKey_new key (cc_source_file ctx) (Some root2)) in
  contexts g !! ik = None ->
  let moved p1 p2 := relocated root1 root2 p1 p2 /\ get_hash2 p2 = get_hash1 p1 in
  moved (cc_source_file (ce_context e1)) (cc_source_file ctx) ->
  Forall2 moved (force_includes (ce_context e1)) (force_includes ctx) ->
  Forall (fun p => abs_path p /\ (ParentDir ∉ components p) /\
            (path_starts_with p root1 = true \/ path_starts_with p root2 = false) /\
            get_hash2 (rebase_project_path p (Some root1) (Some root2)) = get_hash1 p)
    (resolved_includes e1) ->
  let '(g', r) := register_with_key_and_root_result equivalents_var now key ctx (Some root2) g in
  reg_state r = Warm /\
  (try_fast_hit_with_env (reg_map_key r) get_hash2 (fun _ => None) g').2 = Some ak /\
  (forall k', k' <> ik -> contexts g' !! k' = contexts g !! k' \/
     k' = k1 /\ contexts g' !! k' = None /\
     Z.of_nat (length (k1 :: l)) = max_equivalent_contexts equivalents_var).
Proof.
  intros Hwf Hl Hk1 Hroot Hr1 Hr2 Hst Hcomp Ha Hkey ik Hik moved Hsrc Hforce Hres.
  pose proof (register_new now key ctx (Some root2) g k1 l e1 Hwf Hl Hk1 Hik) as Hreg. fold ik in Hreg.
  destruct (register_with_key_and_root_result _ _ _ _ _ _) as [g' r].
  destruct Hreg as (Hm & Hs & Hc & Hx & Hothers). rewrite Hm. split_and!; [congruence| |exact Hothers].
  assert (logical_key e1 = key) as Hlk.
  { pose proof (wf_listed _ _ Hwf _ _ _ Hl (list_elem_of_here _ _)) as H. rewrite Hk1 in H. by injection H. }
  apply fast_hit_spec. exists ik, (rebased_entry now ctx (Some root2) e1). split_and!.
  - unfold servable, resolve_instance_key. rewrite bool_decide_eq_true_2 by (rewrite Hc; eauto).
    split_and!; [done|done| |done]. simpl. congruence.
  - done.
  - unfold input_key in Hkey. destruct (hashes_of get_hash1 (entry_files e1)) as [fh|] eqn:Hfh; [|done].
    simpl in Hkey. injection Hkey as Hkey.
    destruct (moved_entries root1 root2 get_hash1 get_hash2 (entry_files e1)
      (entry_files (rebased_entry now ctx (Some root2) e1)) fh) as (fh2 & Hfh2 & Hidx); [|done|].
    { unfold entry_files. simpl. constructor; [done|]. apply Forall2_app; [|done].
      apply Forall2_fmap_r, Forall_Forall2_diag. rewrite Hroot.
      eapply Forall_impl; [exact Hres|]. intros p (Hp & Hpd & Hin & Hh). split; [|done].
      by apply rebase_relocated. }
    exists fh2. unfold current_key. rewrite Hx. eexists _, _. split; [exact Hfh2|]. do 3 f_equal.
    rewrite <- Hkey. unfold compute_artifact_key, compute_artifact_key_with. simpl.
    do 2 f_equal. rewrite Hroot. exact Hidx.
Qed.
End worktree.

(** ** The dirty flag *)

(** A failed update is not marked.  When a hash is missing, [update] returns
    [None] after it has replaced the include lists and the access time of the
    entry, and leaves the dirty flag as it was; on a graph that was clean the
    next save is skipped although the persisted entry changed. *)
Theorem failed_update_unmarked (now : Z) (key : ContextKey) (scan : ScanResult)
    (get_hash : bytes -> option ContentHash) (names : list bytes) (env : bytes -> option bytes)
    (g : DepGraph) (k : ContextKey) (e : ContextEntry) :
  resolve_instance_key g key = Some k -> contexts g !! k = Some e ->
  graph_dirty g = false ->
  get_hash (cc_source_file (ce_context e)) = None -> resolved scan <> resolved_includes e ->
  let u := update_with_env now key scan get_hash names env g in
  u.2 = None /\ get_includes u.1 key = Some (resolved scan) /\
  contexts u.1 <> contexts g /\ (graph_take_dirty u.1).2 = false.
Proof.
  intros Hr Hk Hd Hh Hne u.
  destruct (update_spec now key scan get_hash names env g k e Hr Hk) as [_ Hno].
  assert (same_index g u.1) as Hsi by apply update_index.
  assert (u = (put_entry k (scanned_entry now scan e) g, None)) as Hu.
  { apply Hno. intros [Hf _]. unfold entry_files, hashes_of in Hf. simpl in Hf. rewrite Hh in Hf.
    by destruct Hf. }
  rewrite Hu in *. split_and!; [done| | |done].
  - unfold get_includes, resolved_entry. rewrite (same_index_resolve _ _ _ Hsi), Hr. simpl.
    by rewrite lookup_insert_eq.
  - simpl. intros Heq. apply (f_equal (lookup k)) in Heq. rewrite lookup_insert_eq, Hk in Heq.
    injection Heq as Heq. apply (f_equal resolved_includes) in Heq. done.
Qed.
End verdicts.

(** ** Witnesses *)

#[local] Existing Instance toy_blake3.

Definition demo_hashes (root : bytes) (p : bytes) : option ContentHash :=
  if bool_decide (p = root +:+ "/src/a.c") || bool_decide (p = root +:+ "/include/a.h")
     || bool_decide (p = "/usr/include/stdio.h")
  then Some demo_hash else None.

Definition demo_scan (root : bytes) : ScanResult :=
  mkScan [root +:+ "/include/a.h"; "/usr/include/stdio.h"] [] false.

Definition demo_registered : DepGraph * ContextRegistration :=
  register_with_key_and_root_result None 1000 demo_hash (demo_workspace "/w") (Some "/w") graph_new.

Definition demo_instance : ContextKey := reg_map_key demo_registered.2.
Definition demo_entry : ContextEntry := cold_entry 1000 demo_hash (demo_workspace "/w") (Some "/w").

Definition demo_updated : DepGraph * option ArtifactKey :=
  update_with_env 1001 demo_hash (demo_scan "/w") (demo_hashes "/w") [] (fun _ => None)
    demo_registered.1.

Lemma demo_hashes_wf root : hashes_wf (demo_hashes root).
Proof.
  intros p h. unfold demo_hashes. destruct (_ || _); [|discriminate]. intros [= <-]. reflexivity.
Qed.

Lemma update_then_hit_witness :
  let u := demo_updated in
  (is_Some u.2 <-> inputs_hashed demo_registered.1 demo_instance
                     (scanned_entry 1001 (demo_scan "/w") demo_entry) (demo_hashes "/w")) /\
  exists ak, u.2 = Some ak /\
    (check_with_env 1002 demo_hash (fun _ => false) (demo_hashes "/w") (fun _ => None) u.1).2 = VHit ak.
Proof.
  intros u.
  destruct (update_then_hit 1001 demo_hash (demo_scan "/w") (demo_hashes "/w") [] (fun _ => None)
    demo_registered.1 demo_instance demo_entry ltac:(vm_compute; reflexivity)
    ltac:(vm_compute; reflexivity)) as (H1 & _ & H3). split; [exact H1|].
  destruct u.2 as [ak|] eqn:Hu; [|vm_compute in Hu; discriminate]. exists ak. split; [reflexivity|].
  refine (proj2 (proj1 (proj2 (H3 ak Hu)) _ 1002 (fun _ => false) (demo_hashes "/w") (fun _ => None) _ _)).
  - reflexivity.
  - auto.
  - intros n Hn. reflexivity.
Defined.

Lemma hit_means_unchanged_witness :
  let e1 := scanned_entry 1001 (demo_scan "/w") demo_entry in
  let hashes := demo_hashes "/w" in
  exists ak, demo_updated.2 = Some ak /\ ak = ak /\
  (same_inputs None e1 [] hashes hashes (fun _ => None) (fun _ => None) \/
   (exists m m', m ∈ hashed_messages None e1 [] hashes (fun _ => None) /\
      m' ∈ hashed_messages None e1 [] hashes (fun _ => None) /\ blake3_collision m m') \/
   digest_reads_unset [] (fun _ => None) \/ digest_reads_unset [] (fun _ => None)).
Proof.
  intros e1 hashes. destruct demo_updated.2 as [ak|] eqn:Hu; [|vm_compute in Hu; discriminate].
  exists ak. split; [reflexivity|].
  apply (hit_means_unchanged 1001 demo_hash (demo_scan "/w") hashes hashes [] (fun _ => None)
    (fun _ => None) demo_registered.1 demo_instance demo_entry ak ak).
  - vm_compute. reflexivity.
  - vm_compute. reflexivity.
  - exact Hu.
  - split.
    + reflexivity.
    + split; vm_compute; reflexivity.
    + repeat (apply Forall_cons; split); try apply Forall_nil_2;
        (split; [split; vm_compute; reflexivity|vm_compute; reflexivity]).
    + intros xs Hxs. vm_compute in Hxs. discriminate.
    + constructor.
  - apply demo_hashes_wf.
  - apply demo_hashes_wf.
  - left. rewrite <- Hu. vm_compute. reflexivity.
Defined.

Lemma checks_agree_witness :
  let c := check_with_env 1002 demo_hash (fun _ => true) (demo_hashes "/w") (fun _ => None)
             demo_updated.1 in
  (exists ak, c.2 = VHit ak) /\
  (check_diagnostic_with_env 1002 demo_hash (fun _ => true) (demo_hashes "/w") (fun _ => None)
     demo_updated.1).1 = c.1.
Proof.
  destruct (checks_agree 1002 demo_hash (fun _ => true) (demo_hashes "/w") (fun _ => None)
    demo_updated.1) as (H1 & _ & _ & H4).
  split; [|exact H1]. destruct demo_updated.2 as [ak|] eqn:Hu; [|vm_compute in Hu; discriminate].
  exists ak. apply H4.
  - rewrite <- Hu. vm_compute. reflexivity.
  - intros k e _ _. unfold all_fresh, fresh_or_hash_match. apply Forall_true. reflexivity.
Defined.

Lemma failed_update_unmarked_witness :
  let g := (graph_take_dirty demo_registered.1).1 in
  let u := update_with_env 1001 demo_hash (demo_scan "/w") (fun _ => None) [] (fun _ => None) g in
  u.2 = None /\ contexts u.1 <> contexts g /\ (graph_take_dirty u.1).2 = false.
Proof.
  intros g u.
  destruct (failed_update_unmarked 1001 demo_hash (demo_scan "/w") (fun _ => None) [] (fun _ => None)
    g demo_instance demo_entry) as (H1 & _ & H3 & H4); try (vm_compute; reflexivity).
  - discriminate.
  - split; [exact H1|]. split; [exact H3|exact H4].
Defined.

Definition demo_recorded : ContextEntry :=
  default demo_entry (contexts demo_updated.1 !! demo_instance).

Lemma worktree_inherits_hit_witness :
  let '(g', r) := register_with_key_and_root_result None 1002 demo_hash (demo_workspace "/home/a/w2")
                    (Some "/home/a/w2") demo_updated.1 in
  reg_state r = Warm /\
  (try_fast_hit_with_env (reg_map_key r) (demo_hashes "/home/a/w2") (fun _ => None) g').2
    = demo_updated.2.
Proof.
  destruct demo_updated.2 as [ak|] eqn:Hu; [|vm_compute in Hu; discriminate].
  pose proof (worktree_inherits_hit None 1002 demo_hash (demo_workspace "/home/a/w2") "/w" "/home/a/w2"
    (demo_hashes "/w") (demo_hashes "/home/a/w2") demo_updated.1 demo_instance [] demo_recorded ak) as H.
  destruct (register_with_key_and_root_result _ _ _ _ _ _) as [g' r].
  destruct H as (H1 & H2 & _).
  - apply (same_index_wf _ demo_registered.1); [apply update_index|].
    apply register_key_wf, empty_wf; reflexivity.
  - vm_compute. reflexivity.
  - vm_compute. reflexivity.
  - vm_compute. reflexivity.
  - split; vm_compute; reflexivity.
  - split; vm_compute; reflexivity.
  - vm_compute. reflexivity.
  - vm_compute. reflexivity.
  - rewrite <- Hu. vm_compute. reflexivity.
  - rewrite <- Hu. vm_compute. reflexivity.
  - vm_compute. reflexivity.
  - split; vm_compute; reflexivity.
  - apply Forall2_nil_2.
  - repeat (apply Forall_cons; split); [| |apply Forall_nil_2].
    + split; [split; vm_compute; reflexivity|]. split; [apply (bool_decide_unpack _); vm_compute; exact I|].
      split; [left|]; vm_compute; reflexivity.
    + split; [split; vm_compute; reflexivity|]. split; [apply (bool_decide_unpack _); vm_compute; exact I|].
      split; [right|]; vm_compute; reflexivity.
  - split; [exact H1|exact H2].
Defined.
