(* ===== verification/GnuArgs.v ===== *)
(** * The GNU/Clang command line ([zccache-depgraph/src/args.rs])

    How an argument vector becomes the [ParsedArgs] a context is built from:
    the dependency flags ([args/dep_flags.rs]), the option loop of
    [parse_gnu_args], the splitter of shell-style commands, and the entries of
    a compilation database ([compile_commands.rs]).

    The loop of [parse_gnu_args] tests one argument after the other; every
    branch mutates the result and advances by one or two arguments.  Here a
    branch is the list of its mutations ([Action]) with the number of arguments
    it consumes, and the loop applies them.

    The file system is what the code can see of it: a finite tree below every
    path it asks about, symbolic links followed. *)

From stdpp Require Import list strings.
From Stdlib Require Import Lia.
From S2P Require Import Prelude Path Hash RustStr ContextKeys.

(** ** Flags that take a value ([zccache-compiler/src/gnu_flags.rs]) *)

Definition GNU_FLAGS_WITH_VALUE : list bytes :=
  ["-o"; "-D"; "-U"; "-I"; "-isystem"; "-iquote"; "-idirafter"; "-include"; "-include-pch";
   "-imacros"; "-isysroot"; "-target"; "--target"; "-MF"; "-MQ"; "-MT"; "-std"; "-x"; "-arch";
   "-march"; "-mtune"; "-mcpu"; "-Xclang"; "-mllvm"; "--serialize-diagnostics"].

Definition gnu_flag_takes_value (flag : bytes) : bool := bool_decide (flag ∈ GNU_FLAGS_WITH_VALUE).

(** ** Paths *)

Definition resolve_path (path cwd : bytes) : NormalizedPath :=
  if has_root path then NormalizedPath_new path else NormalizedPath_new (path_push cwd path).

(** [to_lowercase] against ASCII literals: no character outside ASCII has a
    lower case in the list. *)
Definition is_source_file (path : bytes) : bool :=
  bool_decide (to_ascii_lowercase (default "" (extension path)) ∈
    ["c"; "cc"; "cpp"; "cxx"; "c++"; "m"; "mm"; "s"; "sx"; "i"; "ii"]).

(** ** Dependency flags ([args/dep_flags.rs]) *)

Definition no_dep_flags : UserDepFlags := mkDepFlags false false None false.

Definition record_depfile_path (path cwd : bytes) (r : UserDepFlags) : UserDepFlags :=
  mkDepFlags (has_md r) (has_mmd r)
    (if bool_decide (path = "-") then None else Some (resolve_path path cwd))
    (bool_decide (path = "-")).

Definition set_md (opt : bytes) (r : UserDepFlags) : UserDepFlags :=
  mkDepFlags true (bool_decide (opt = "-MMD")) (mf_path r) (depfile_to_stdout r).

Definition is_md (opt : bytes) : bool := bool_decide (opt ∈ ["-MD"; "-MMD"]).

(** [strip_prefix("-MF").filter(|path| !path.is_empty())]. *)
Definition joined_mf (opt : bytes) : option bytes :=
  match strip_prefix "-MF" opt with
  | Some EmptyString | None => None
  | Some path => Some path
  end.

Definition forwarded_option_takes_value (opt : bytes) : bool :=
  gnu_flag_takes_value opt ||
  bool_decide (opt ∈
    ["-D"; "-U"; "-I"; "-MT"; "-MQ"; "-include"; "-imacros"; "-isystem"; "-iquote"; "-idirafter";
     "-iprefix"; "-iwithprefix"; "-iwithprefixbefore"; "-isysroot"; "--sysroot"]).

Fixpoint parse_forwarded_stream (options : list bytes) (cwd : bytes) (r : UserDepFlags) :
    UserDepFlags :=
  match options with
  | [] => r
  | opt :: rest =>
      if is_md opt then
        match rest with
        | path :: rest' => parse_forwarded_stream rest' cwd (record_depfile_path path cwd (set_md opt r))
        | [] => set_md opt r
        end
      else if bool_decide (opt ∈ ["-MF"; "-dependency-file"]) then
        match rest with
        | path :: rest' => parse_forwarded_stream rest' cwd (record_depfile_path path cwd r)
        | [] => r
        end
      else match joined_mf opt with
      | Some path => parse_forwarded_stream rest cwd (record_depfile_path path cwd r)
      | None =>
          match rest with
          | _ :: rest' =>
              if forwarded_option_takes_value opt then parse_forwarded_stream rest' cwd r
              else parse_forwarded_stream rest cwd r
          | [] => r
          end
      end
  end.

(** The state after a driver option, and whether it consumed the next argument. *)
Definition parse_driver_option (opt : bytes) (next : option bytes) (cwd : bytes) (r : UserDepFlags) :
    UserDepFlags * bool :=
  if is_md opt then (set_md opt r, false)
  else if bool_decide (opt = "-MF") then
    match next with
    | Some path => (record_depfile_path path cwd r, true)
    | None => (r, false)
    end
  else match joined_mf opt with
  | Some path => (record_depfile_path path cwd r, false)
  | None =>
      (r, (gnu_flag_takes_value opt || bool_decide (opt ∈ ["-MT"; "-MQ"])) &&
          bool_decide (is_Some next))
  end.

(** [xpreprocessor_arg]: the forwarded option at the head of the arguments and
    what follows it. *)
Definition xpreprocessor_arg (args : list bytes) : option (bytes * list bytes) :=
  match args with
  | [] => None
  | arg :: rest =>
      if bool_decide (arg = "-Xpreprocessor") then
        match rest with opt :: rest' => Some (opt, rest') | [] => None end
      else opt ← strip_prefix "-Xpreprocessor=" arg; Some (opt, rest)
  end.

(** The inner [while let] over forwarded options.  The list shrinks at every
    turn, so its length is fuel enough. *)
Fixpoint xpreprocessor_run (fuel : nat) (args : list bytes) : list bytes * list bytes :=
  match fuel, xpreprocessor_arg args with
  | S fuel', Some (opt, rest) =>
      let '(options, rest') := xpreprocessor_run fuel' rest in (opt :: options, rest')
  | _, _ => ([], args)
  end.

Fixpoint dep_flags_loop (fuel : nat) (args : list bytes) (cwd : bytes) (r : UserDepFlags) :
    option UserDepFlags :=
  match fuel with
  | O => None
  | S fuel' =>
      match args with
      | [] => Some r
      | arg :: rest =>
          match strip_prefix "-Wp," arg with
          | Some options =>
              dep_flags_loop fuel' rest cwd (parse_forwarded_stream (split_char "," options) cwd r)
          | None =>
              match xpreprocessor_arg args with
              | Some _ =>
                  let '(options, rest') := xpreprocessor_run (length args) args in
                  dep_flags_loop fuel' rest' cwd (parse_forwarded_stream options cwd r)
              | None =>
                  let '(r', consumed) := parse_driver_option arg (head rest) cwd r in
                  dep_flags_loop fuel' (if consumed then tail rest else rest) cwd r'
              end
          end
      end
  end.

Definition parse_user_dep_flags (args : list bytes) (cwd : bytes) : UserDepFlags :=
  default no_dep_flags (dep_flags_loop (S (length args)) args cwd no_dep_flags).

(** ** Profile data and precompiled headers *)

(** What a path leads to: a regular file, a directory with its entries in the
    order the system lists them (an unreadable directory lists none), or
    something else. *)
Inductive Node :=
| NFile
| NDir (entries : list (bytes * Node))
| NOther.

Definition is_file_node (n : option Node) : bool := match n with Some NFile => true | _ => false end.

(** [visit] of [profile_input_files]. *)
Fixpoint visit (dir : bytes) (n : Node) : list NormalizedPath :=
  match n with
  | NDir entries =>
      (fix go (es : list (bytes * Node)) : list NormalizedPath :=
         match es with
         | [] => []
         | (name, child) :: es' =>
             let path := path_push dir name in
             match child with
             | NFile => [NormalizedPath_new path]
             | NDir _ => visit path child
             | NOther => []
             end ++ go es'
         end) entries
  | _ => []
  end.

Section parser.
Context (fs : bytes -> option Node).

Definition profile_input_files (path cwd : bytes) : list NormalizedPath :=
  let root := resolve_path path cwd in
  match fs root with
  | Some (NDir entries) =>
      match sort_strings (visit root (NDir entries)) with
      | [] => [root]
      | files => files
      end
  | _ => [root]
  end.

Definition gcc_implicit_pch (header : NormalizedPath) : option NormalizedPath :=
  let gch := header +:+ ".gch" in
  if is_file_node (fs gch) then Some (NormalizedPath_new gch) else None.

(** ** [parse_gnu_args] *)

Inductive Action :=
| PushUser (p : NormalizedPath)
| PushSystem (p : NormalizedPath)
| PushIquote (p : NormalizedPath)
| PushAfter (p : NormalizedPath)
| PushDefine (d : bytes)
| PushUndef (u : bytes)
| SetOutput (p : NormalizedPath)
| PushForce (p : NormalizedPath)
| PushFlag (f : bytes)
| PushUnknown (f : bytes)
| PushSource (p : NormalizedPath).

(** A branch: its mutations and whether it consumes the next argument as well.
    [None] falls through to the branches below it. *)
Definition Branch : Type := option (list Action * bool).

(** [if arg == flag { if let Some(next) = ... }]. *)
Definition separate (flag arg : bytes) (next : option bytes) (k : bytes -> list Action) : Branch :=
  if bool_decide (arg = flag) then v ← next; Some (k v, true) else None.

(** The same with [else if let Some(value) = arg.strip_prefix(flag)]. *)
Definition separate_or_joined (flag arg : bytes) (next : option bytes) (k : bytes -> list Action) :
    Branch :=
  if bool_decide (arg = flag) then v ← next; Some (k v, true)
  else v ← strip_prefix flag arg; Some (k v, false).

Definition include_dir_branch (arg : bytes) (next : option bytes) (cwd : bytes) : Branch :=
  if bool_decide (arg = "-I") then v ← next; Some ([PushUser (resolve_path v cwd)], true)
  else if bool_decide (arg ∈ ["-isystem"; "-isysroot"]) then None
  else dir ← strip_prefix "-I" arg; Some ([PushUser (resolve_path dir cwd)], false).

Definition include_branch (arg : bytes) (next : option bytes) (cwd : bytes) : Branch :=
  separate "-include" arg next (fun v =>
    let header := resolve_path v cwd in
    PushForce header :: match gcc_implicit_pch header with Some p => [PushForce p] | None => [] end).

(** The comma-separated options of [-Wp,]. *)
Fixpoint wp_options (parts : list bytes) (cwd : bytes) : list Action :=
  match parts with
  | [] => []
  | opt :: rest =>
      if bool_decide (opt = "-I") then
        match rest with
        | path :: rest' => PushUser (resolve_path path cwd) :: wp_options rest' cwd
        | [] => []
        end
      else if bool_decide (opt = "-isystem") then
        match rest with
        | path :: rest' => PushSystem (resolve_path path cwd) :: wp_options rest' cwd
        | [] => []
        end
      else if bool_decide (opt ∈ ["-imacros"; "-include"]) then
        match rest with
        | path :: rest' => PushForce (resolve_path path cwd) :: wp_options rest' cwd
        | [] => []
        end
      else wp_options rest cwd
  end.

Definition wp_branch (arg cwd : bytes) : Branch :=
  options ← strip_prefix "-Wp," arg;
  Some (wp_options (split_char "," options) cwd ++ [PushFlag arg], false).

Definition profile_branch (arg cwd : bytes) : Branch :=
  path ← match strip_prefix "-fprofile-use=" arg with
         | Some p => Some p
         | None => strip_prefix "-fprofile-dir=" arg
         end;
  Some (PushFlag arg :: map PushForce (profile_input_files path cwd), false).

Definition language_branch (arg : bytes) (next : option bytes) : Branch :=
  if bool_decide (arg = "-x") then v ← next; Some ([PushFlag ("-x " +:+ v)], true)
  else if starts_with "-x" arg then Some ([PushFlag arg], false) else None.

Definition std_branch (arg : bytes) (next : option bytes) : Branch :=
  if starts_with "-std=" arg || starts_with "--std=" arg then Some ([PushFlag arg], false)
  else separate "-std" arg next (fun v => [PushFlag ("-std=" +:+ v)]).

(** [{arg}={next}] for an exact flag of the list. *)
Definition value_flag_branch (ok : bool) (arg : bytes) (next : option bytes) : Branch :=
  if ok then v ← next; Some ([PushFlag (arg +:+ "=" +:+ v)], true) else None.

Definition is_feature_flag (arg : bytes) : bool :=
  starts_with "-O" arg || starts_with "-f" arg || starts_with "-m" arg || starts_with "-W" arg ||
  starts_with "-g" arg || starts_with "--target=" arg || bool_decide (arg ∈ ["-pthread"; "-pipe"]).

Definition dep_branch (arg : bytes) : Branch :=
  if is_md arg then Some ([], false)
  else if bool_decide (arg = "-MF") then Some ([], true)
  else match joined_mf arg with
  | Some _ => Some ([], false)
  | None => if bool_decide (arg ∈ ["-MQ"; "-MT"]) then Some ([], true) else None
  end.

Definition is_mode_flag (arg : bytes) : bool :=
  bool_decide (arg ∈ ["-c"; "-S"; "-E"; "-v"; "-w"]) || starts_with "-M" arg ||
  bool_decide (arg = "-MP").

(** Positional arguments and unknown flags: the end of the chain. *)
Definition final_branch (arg : bytes) (next : option bytes) (cwd : bytes) : list Action * bool :=
  if negb (starts_with "-" arg) then ([PushSource (resolve_path arg cwd)], false)
  else match next with
  | Some v =>
      if negb (starts_with "-" v) && negb (is_source_file (resolve_path v cwd))
      then ([PushUnknown (arg +:+ "=" +:+ v)], true)
      else ([PushUnknown arg], false)
  | None => ([PushUnknown arg], false)
  end.

Fixpoint first_branch (bs : list Branch) (last : list Action * bool) : list Action * bool :=
  match bs with
  | [] => last
  | Some r :: _ => r
  | None :: bs' => first_branch bs' last
  end.

(** One turn of the loop, in the order of the source. *)
Definition gnu_step (cwd arg : bytes) (next : option bytes) : list Action * bool :=
  first_branch
    [ include_dir_branch arg next cwd;
      separate "-isystem" arg next (fun v => [PushSystem (resolve_path v cwd)]);
      separate "-iquote" arg next (fun v => [PushIquote (resolve_path v cwd)]);
      separate "-idirafter" arg next (fun v => [PushAfter (resolve_path v cwd)]);
      separate_or_joined "-D" arg next (fun v => [PushDefine v]);
      separate_or_joined "-U" arg next (fun v => [PushUndef v]);
      separate_or_joined "-o" arg next (fun v => [SetOutput (resolve_path v cwd)]);
      separate "-include-pch" arg next (fun v => [PushForce (resolve_path v cwd)]);
      include_branch arg next cwd;
      separate "-imacros" arg next (fun v => [PushForce (resolve_path v cwd)]);
      wp_branch arg cwd;
      profile_branch arg cwd;
      std_branch arg next;
      language_branch arg next;
      value_flag_branch (bool_decide (arg ∈ ["-march"; "-mtune"; "-mcpu"])) arg next;
      if is_feature_flag arg then Some ([PushFlag arg], false) else None;
      dep_branch arg;
      value_flag_branch (gnu_flag_takes_value arg) arg next;
      if is_mode_flag arg then Some ([], false) else None ]
    (final_branch arg next cwd).

(** The mutations of the whole command line, in order. *)
Fixpoint gnu_actions (cwd : bytes) (args : list bytes) : list Action :=
  match args with
  | [] => []
  | arg :: rest =>
      let '(acts, two) := gnu_step cwd arg (head rest) in
      acts ++ match two, rest with
              | true, _ :: rest' => gnu_actions cwd rest'
              | _, _ => gnu_actions cwd rest
              end
  end.

(** The vectors being filled, each in push order. *)
Record GnuState := mkGnu {
  gs_output : option NormalizedPath;
  gs_search : IncludeSearchPaths;
  gs_defines : list bytes;
  gs_undefines : list bytes;
  gs_flags : list bytes;
  gs_force : list NormalizedPath;
  gs_unknown : list bytes;
  source_candidates : list NormalizedPath;
}.

Definition gnu_init : GnuState := mkGnu None (mkSearch [] [] [] []) [] [] [] [] [] [].

Definition apply_action (s : GnuState) (a : Action) : GnuState :=
  let '(mkGnu out sp d u f fi uk src) := s in
  match a with
  | PushUser p => mkGnu out (mkSearch (iquote sp) (user sp ++ [p]) (system sp) (after sp)) d u f fi uk src
  | PushSystem p => mkGnu out (mkSearch (iquote sp) (user sp) (system sp ++ [p]) (after sp)) d u f fi uk src
  | PushIquote p => mkGnu out (mkSearch (iquote sp ++ [p]) (user sp) (system sp) (after sp)) d u f fi uk src
  | PushAfter p => mkGnu out (mkSearch (iquote sp) (user sp) (system sp) (after sp ++ [p])) d u f fi uk src
  | PushDefine x => mkGnu out sp (d ++ [x]) u f fi uk src
  | PushUndef x => mkGnu out sp d (u ++ [x]) f fi uk src
  | SetOutput p => mkGnu (Some p) sp d u f fi uk src
  | PushForce p => mkGnu out sp d u f (fi ++ [p]) uk src
  | PushFlag x => mkGnu out sp d u (f ++ [x]) fi uk src
  | PushUnknown x => mkGnu out sp d u f fi (uk ++ [x]) src
  | PushSource p => mkGnu out sp d u f fi uk (src ++ [p])
  end.

Definition pick_source (candidates : list NormalizedPath) : NormalizedPath :=
  match List.find is_source_file candidates with
  | Some src => src
  | None => default (NormalizedPath_new "") (head candidates)
  end.

Definition parse_gnu_args (args : list bytes) (cwd : bytes) : ParsedArgs :=
  let s := fold_left apply_action (gnu_actions cwd args) gnu_init in
  mkParsed (pick_source (source_candidates s)) (gs_output s) (gs_search s)
    (sort_strings (gs_defines s)) (sort_strings (gs_undefines s)) (sort_strings (gs_flags s))
    (gs_force s) None (parse_user_dep_flags args cwd) (sort_strings (gs_unknown s)).

Definition parse_compile_args (args : list bytes) (cwd : bytes) : ParsedArgs :=
  parse_gnu_args args cwd.
End parser.

(** ** What the vectors hold *)

Definition act_user (a : Action) : option NormalizedPath := match a with PushUser p => Some p | _ => None end.
Definition act_system (a : Action) : option NormalizedPath := match a with PushSystem p => Some p | _ => None end.
Definition act_iquote (a : Action) : option NormalizedPath := match a with PushIquote p => Some p | _ => None end.
Definition act_after (a : Action) : option NormalizedPath := match a with PushAfter p => Some p | _ => None end.
Definition act_define (a : Action) : option bytes := match a with PushDefine d => Some d | _ => None end.
Definition act_undef (a : Action) : option bytes := match a with PushUndef u => Some u | _ => None end.
Definition act_force (a : Action) : option NormalizedPath := match a with PushForce p => Some p | _ => None end.
Definition act_flag (a : Action) : option bytes := match a with PushFlag f => Some f | _ => None end.
Definition act_unknown (a : Action) : option bytes := match a with PushUnknown f => Some f | _ => None end.
Definition act_source (a : Action) : option NormalizedPath := match a with PushSource p => Some p | _ => None end.

(** The state collects, vector by vector, what the mutations push. *)
Lemma apply_actions acts s :
  exists out,
    fold_left apply_action acts s =
      mkGnu out
        (mkSearch (iquote (gs_search s) ++ omap act_iquote acts) (user (gs_search s) ++ omap act_user acts)
           (system (gs_search s) ++ omap act_system acts) (after (gs_search s) ++ omap act_after acts))
        (gs_defines s ++ omap act_define acts) (gs_undefines s ++ omap act_undef acts)
        (gs_flags s ++ omap act_flag acts) (gs_force s ++ omap act_force acts)
        (gs_unknown s ++ omap act_unknown acts) (source_candidates s ++ omap act_source acts).
Proof.
  revert s. induction acts as [|a acts IH]; intros [out [q us sy af] d u f fi uk src]; simpl.
  - exists out. by rewrite !app_nil_r.
  - destruct a; simpl; edestruct IH as [out' ->]; eexists; simpl;
      rewrite <- ?(assoc_L (++)); reflexivity.
Qed.

(** A mutation left its trace in the parsed arguments. *)
Definition recorded (r : ParsedArgs) (a : Action) : Prop :=
  match a with
  | PushUser p => p ∈ user (pa_include_search r)
  | PushSystem p => p ∈ system (pa_include_search r)
  | PushIquote p => p ∈ iquote (pa_include_search r)
  | PushAfter p => p ∈ after (pa_include_search r)
  | PushDefine d => d ∈ pa_defines r
  | PushUndef u => u ∈ pa_undefines r
  | PushForce p => p ∈ pa_force_includes r
  | PushFlag f => f ∈ pa_flags r
  | PushUnknown f => f ∈ pa_unknown_flags r
  | SetOutput _ | PushSource _ => True
  end.

Lemma elem_of_sort_strings x l : x ∈ sort_strings l <-> x ∈ l.
Proof. unfold sort_strings. by rewrite sort_by_key_perm. Qed.

Lemma parse_records fs args cwd a :
  a ∈ gnu_actions fs cwd args -> recorded (parse_gnu_args fs args cwd) a.
Proof.
  intros Ha. unfold parse_gnu_args.
  destruct (apply_actions (gnu_actions fs cwd args) gnu_init) as [out ->].
  destruct a; cbn [recorded pa_include_search pa_defines pa_undefines pa_flags pa_force_includes
    pa_unknown_flags gs_search gs_defines gs_undefines gs_flags gs_force gs_unknown gnu_init
    user system iquote after app]; rewrite ?elem_of_sort_strings; try done;
    apply list_elem_of_omap; eexists; (split; [exact Ha|reflexivity]).
Qed.

(** ** Every argument is accounted for *)

(** A flag with its value, separate or joined. *)
Definition spelled (flag v : bytes) (chunk : list bytes) : Prop :=
  chunk = [flag; v] \/ chunk = [flag +:+ v].

(** What the parser does with one argument, or with a flag and its value.  The
    first ten cases put it into the context; the rest are all that stays out. *)
Inductive accounted (cwd : bytes) (r : ParsedArgs) : list bytes -> Prop :=
| acc_user v c : spelled "-I" v c -> resolve_path v cwd ∈ user (pa_include_search r) -> accounted cwd r c
| acc_system v : resolve_path v cwd ∈ system (pa_include_search r) -> accounted cwd r ["-isystem"; v]
| acc_iquote v : resolve_path v cwd ∈ iquote (pa_include_search r) -> accounted cwd r ["-iquote"; v]
| acc_after v : resolve_path v cwd ∈ after (pa_include_search r) -> accounted cwd r ["-idirafter"; v]
| acc_define v c : spelled "-D" v c -> v ∈ pa_defines r -> accounted cwd r c
| acc_undef v c : spelled "-U" v c -> v ∈ pa_undefines r -> accounted cwd r c
| acc_force f v : f ∈ ["-include-pch"; "-include"; "-imacros"] ->
    resolve_path v cwd ∈ pa_force_includes r -> accounted cwd r [f; v]
| acc_flag f : f ∈ pa_flags r -> accounted cwd r [f]
| acc_flag_value f v sep : sep ∈ ["="; " "] -> (f +:+ sep +:+ v) ∈ pa_flags r -> accounted cwd r [f; v]
| acc_unknown f : f ∈ pa_unknown_flags r -> accounted cwd r [f]
| acc_unknown_value f v : (f +:+ "=" +:+ v) ∈ pa_unknown_flags r -> accounted cwd r [f; v]
| acc_output v c : spelled "-o" v c -> accounted cwd r c
| acc_positional f : starts_with "-" f = false -> accounted cwd r [f]
| acc_depflag f : starts_with "-M" f = true -> accounted cwd r [f]
| acc_depflag_value f v : f ∈ ["-MF"; "-MQ"; "-MT"] -> accounted cwd r [f; v]
| acc_mode f : f ∈ ["-c"; "-S"; "-E"; "-v"; "-w"] -> accounted cwd r [f].

Definition chunk_of (arg : bytes) (next : option bytes) (two : bool) : list bytes :=
  arg :: (if two then option_list next else []).

Definition branch_ok (cwd : bytes) (r : ParsedArgs) (arg : bytes) (next : option bytes)
    (b : list Action * bool) : Prop :=
  Forall (recorded r) b.1 -> accounted cwd r (chunk_of arg next b.2).

Lemma recorded_one r a : Forall (recorded r) [a] -> recorded r a.
Proof. by intros [H _]%Forall_cons. Qed.

Lemma separate_ok cwd r flag arg next k :
  (forall v, Forall (recorded r) (k v) -> accounted cwd r [flag; v]) ->
  forall b, separate flag arg next k = Some b -> branch_ok cwd r arg next b.
Proof.
  intros Hk b. unfold separate. case_bool_decide as Ha; [|done]. destruct next as [v|]; [|done].
  intros [= <-] H. subst. by apply Hk.
Qed.

Lemma separate_or_joined_ok cwd r flag arg next k :
  (forall v c, spelled flag v c -> Forall (recorded r) (k v) -> accounted cwd r c) ->
  forall b, separate_or_joined flag arg next k = Some b -> branch_ok cwd r arg next b.
Proof.
  intros Hk b. unfold separate_or_joined. case_bool_decide as Ha.
  - destruct next as [v|]; [|done]. intros [= <-] H. subst. apply (Hk v); [by left|done].
  - destruct (strip_prefix flag arg) as [v|] eqn:Hs; [|done]. intros [= <-] H.
    apply strip_prefix_Some in Hs as ->. apply (Hk v); [by right|done].
Qed.

Lemma include_dir_ok cwd r arg next b :
  include_dir_branch arg next cwd = Some b -> branch_ok cwd r arg next b.
Proof.
  unfold include_dir_branch. case_bool_decide as Ha.
  - destruct next as [v|]; [|done]. intros [= <-] H%recorded_one. subst.
    apply (acc_user _ _ v); [by left|done].
  - case_bool_decide as Hn; [done|]. destruct (strip_prefix "-I" arg) as [v|] eqn:Hs; [|done].
    intros [= <-] H%recorded_one. apply strip_prefix_Some in Hs as ->.
    apply (acc_user _ _ v); [by right|done].
Qed.

Lemma flag_branch_ok cwd r arg next acts :
  PushFlag arg ∈ acts -> branch_ok cwd r arg next (acts, false).
Proof.
  intros Hin H. simpl in *. rewrite Forall_forall in H. by apply acc_flag, (H _ Hin).
Qed.

Lemma value_flag_ok cwd r ok arg next b :
  value_flag_branch ok arg next = Some b -> branch_ok cwd r arg next b.
Proof.
  unfold value_flag_branch. destruct ok, next as [v|]; try done.
  intros [= <-] H%recorded_one. apply (acc_flag_value _ _ _ _ "="); [by left|done].
Qed.

Lemma std_ok cwd r arg next b : std_branch arg next = Some b -> branch_ok cwd r arg next b.
Proof.
  unfold std_branch. destruct (_ || _).
  - intros [= <-]. apply flag_branch_ok. by left.
  - apply separate_ok. intros v H%recorded_one. apply (acc_flag_value _ _ _ _ "="); [by left|done].
Qed.

Lemma language_ok cwd r arg next b : language_branch arg next = Some b -> branch_ok cwd r arg next b.
Proof.
  unfold language_branch. case_bool_decide as Ha.
  - destruct next as [v|]; [|done]. intros [= <-] H%recorded_one. subst.
    apply (acc_flag_value _ _ _ _ " "); [by right; left|done].
  - destruct (starts_with "-x" arg); [|done]. intros [= <-]. apply flag_branch_ok. by left.
Qed.

Lemma wp_profile_ok fs cwd r arg next b :
  wp_branch arg cwd = Some b \/ profile_branch fs arg cwd = Some b -> branch_ok cwd r arg next b.
Proof.
  intros [Hb|Hb]; revert Hb.
  - unfold wp_branch. destruct (strip_prefix _ _); [|done]. intros [= <-]. apply flag_branch_ok.
    apply elem_of_app. right. by left.
  - unfold profile_branch.
    destruct (match strip_prefix "-fprofile-use=" arg with Some p => Some p | None => _ end); [|done].
    intros [= <-]. apply flag_branch_ok. by left.
Qed.

Lemma joined_mf_Some arg v : joined_mf arg = Some v -> arg = "-MF" +:+ v.
Proof.
  unfold joined_mf. destruct (strip_prefix "-MF" arg) as [p|] eqn:Hs; [|done].
  apply strip_prefix_Some in Hs. destruct p; [done|]. by intros [= <-].
Qed.

Lemma dep_ok cwd r arg next b : dep_branch arg = Some b -> branch_ok cwd r arg next b.
Proof.
  unfold dep_branch. destruct (is_md arg) eqn:Hmd.
  { intros [= <-] _. apply acc_depflag. unfold is_md in Hmd.
    apply bool_decide_eq_true in Hmd. rewrite !elem_of_cons, elem_of_nil in Hmd.
    by destruct Hmd as [->|[->|[]]]. }
  assert (forall f, f ∈ ["-MF"; "-MQ"; "-MT"] -> branch_ok cwd r f next ([], true)) as Hv.
  { intros f Hf _. destruct next as [v|]; [by apply acc_depflag_value|]. apply acc_depflag.
    rewrite !elem_of_cons, elem_of_nil in Hf. by destruct Hf as [->|[->|[->|[]]]]. }
  case_bool_decide as Ha.
  { intros [= <-]. subst. apply Hv. by left. }
  destruct (joined_mf arg) as [v|] eqn:Hj.
  { intros [= <-] _. apply acc_depflag. by apply joined_mf_Some in Hj as ->. }
  case_bool_decide as Hq; [|done]. intros [= <-]. apply Hv. by right.
Qed.

Lemma final_ok cwd r arg next : branch_ok cwd r arg next (final_branch arg next cwd).
Proof.
  unfold final_branch. destruct (starts_with "-" arg) eqn:Hd; simpl; [|intros _; by apply acc_positional].
  destruct next as [v|]; [destruct (_ && _)|]; intros H%recorded_one;
    [by apply acc_unknown_value|by apply acc_unknown..].
Qed.

Lemma mode_ok cwd r arg next b :
  (if is_mode_flag arg then Some ([], false) else None) = Some b -> branch_ok cwd r arg next b.
Proof.
  destruct (is_mode_flag arg) eqn:Hm; [|done]. intros [= <-] _. unfold is_mode_flag in Hm.
  apply orb_prop in Hm as [Hm|Hm%bool_decide_eq_true]; [apply orb_prop in Hm as [Hm|Hm]|].
  - apply acc_mode. by apply bool_decide_eq_true in Hm.
  - by apply acc_depflag.
  - subst. by apply acc_depflag.
Qed.

Lemma first_branch_ok (P : list Action * bool -> Prop) bs last :
  Forall (fun b => forall r, b = Some r -> P r) bs -> P last -> P (first_branch bs last).
Proof.
  induction 1 as [|[b|] bs Hb Hbs IH]; simpl; intros Hl; [done| |by apply IH]. by apply Hb.
Qed.

Lemma gnu_step_ok fs cwd r arg next : branch_ok cwd r arg next (gnu_step fs cwd arg next).
Proof.
  unfold gnu_step. apply first_branch_ok; [|apply final_ok].
  repeat (apply Forall_cons; split); try apply Forall_nil_2; intros b.
  all: first
    [ apply include_dir_ok | apply std_ok | apply language_ok | apply value_flag_ok | apply dep_ok
    | apply mode_ok | (intros Hb; apply (wp_profile_ok fs); auto; fail) | idtac ].
  - apply separate_ok. intros v H%recorded_one. by apply acc_system.
  - apply separate_ok. intros v H%recorded_one. by apply acc_iquote.
  - apply separate_ok. intros v H%recorded_one. by apply acc_after.
  - apply separate_or_joined_ok. intros v c Hc H%recorded_one. by apply (acc_define _ _ v).
  - apply separate_or_joined_ok. intros v c Hc H%recorded_one. by apply (acc_undef _ _ v).
  - apply separate_or_joined_ok. intros v c Hc _. by apply (acc_output _ _ v).
  - apply separate_ok. intros v H%recorded_one. apply acc_force; [by left|done].
  - apply separate_ok. intros v [H _]%Forall_cons. apply acc_force; [by right; left|done].
  - apply separate_ok. intros v H%recorded_one. apply acc_force; [by right; right; left|done].
  - destruct (is_feature_flag arg); [|done]. intros [= <-]. apply flag_branch_ok. by left.
Qed.

(** The arguments the loop consumes, turn by turn. *)
Fixpoint gnu_chunks (fs : bytes -> option Node) (cwd : bytes) (args : list bytes) : list (list bytes) :=
  match args with
  | [] => []
  | arg :: rest =>
      let '(_, two) := gnu_step fs cwd arg (head rest) in
      match two, rest with
      | true, v :: rest' => [arg; v] :: gnu_chunks fs cwd rest'
      | _, _ => [arg] :: gnu_chunks fs cwd rest
      end
  end.

Lemma gnu_chunks_concat fs cwd n args : (length args <= n)%nat -> concat (gnu_chunks fs cwd args) = args.
Proof.
  revert args. induction n as [|n IH]; intros [|arg rest] Hn; simpl in *; try done; [lia|].
  destruct (gnu_step fs cwd arg (head rest)) as [acts [|]]; [destruct rest as [|v rest]|]; simpl in *.
  - done.
  - rewrite IH by lia. done.
  - rewrite IH by lia. done.
Qed.

Lemma gnu_chunks_accounted fs cwd r n args :
  (length args <= n)%nat -> Forall (recorded r) (gnu_actions fs cwd args) ->
  Forall (accounted cwd r) (gnu_chunks fs cwd args).
Proof.
  revert args. induction n as [|n IH]; intros [|arg rest] Hn Hr; simpl in *; try done; [lia|].
  pose proof (gnu_step_ok fs cwd r arg (head rest)) as Hs.
  destruct (gnu_step fs cwd arg (head rest)) as [acts [|]]; [destruct rest as [|v rest]|];
    simpl in *; apply Forall_app in Hr as [Ha Hr]; specialize (Hs Ha);
    (constructor; [exact Hs|first [done|apply IH; [lia|done]]]).
Qed.

(** C21: nothing on a GNU command line is silently dropped.  [parse_gnu_args]
    consumes the argument vector in consecutive pieces of a flag, or a flag and
    its value, and for every piece either its content is in the parsed arguments
    a context is built from (search directories, macros, forced files, flags,
    unknown flags) or it is one of the excluded spellings: an output, a
    positional argument, a dependency-generation flag, or one of -c -S -E -v -w. *)
Theorem gnu_args_accounted (fs : bytes -> option Node) (args : list bytes) (cwd : bytes) :
  let r := parse_gnu_args fs args cwd in
  exists chunks, args = concat chunks /\ Forall (accounted cwd r) chunks.
Proof.
  intros r. exists (gnu_chunks fs cwd args). split.
  - symmetry. by apply (gnu_chunks_concat _ _ (length args)).
  - apply (gnu_chunks_accounted _ _ _ (length args)); [done|].
    apply Forall_forall. intros a. apply parse_records.
Qed.

(** ** What the order of flags means *)

(** A flag the loop only pushes, whatever follows it. *)
Definition plain_flag (fs : bytes -> option Node) (f : bytes) : Prop :=
  forall cwd next, gnu_step fs cwd f next = ([PushFlag f], false).

Lemma sort_strings_perm l k : l ≡ₚ k -> sort_strings l = sort_strings k.
Proof.
  intros Hp. unfold sort_strings. eapply StronglySorted_unique_strong; [|apply sort_by_key_sorted..|].
  - intros x y _ _. unfold key_leb. rewrite !string_leb_le. intros ??. by apply (anti_symm String.le).
  - by rewrite !sort_by_key_perm.
Qed.

(** Contexts only see the mutations vector by vector, three of them sorted. *)
Lemma context_of_actions fs args1 args2 cwd h :
  let a1 := gnu_actions fs cwd args1 in
  let a2 := gnu_actions fs cwd args2 in
  omap act_iquote a1 = omap act_iquote a2 -> omap act_user a1 = omap act_user a2 ->
  omap act_system a1 = omap act_system a2 -> omap act_after a1 = omap act_after a2 ->
  omap act_define a1 ≡ₚ omap act_define a2 -> omap act_undef a1 ≡ₚ omap act_undef a2 ->
  omap act_flag a1 ≡ₚ omap act_flag a2 -> omap act_force a1 = omap act_force a2 ->
  omap act_unknown a1 ≡ₚ omap act_unknown a2 -> omap act_source a1 = omap act_source a2 ->
  cc_from_parsed_args (parse_gnu_args fs args1 cwd) h = cc_from_parsed_args (parse_gnu_args fs args2 cwd) h.
Proof.
  intros a1 a2 Hq Hus Hsy Haf Hd Hu Hf Hfi Huk Hsrc. unfold parse_gnu_args, cc_from_parsed_args.
  destruct (apply_actions a1 gnu_init) as [o1 E1], (apply_actions a2 gnu_init) as [o2 E2].
  subst a1 a2. rewrite E1, E2. simpl. rewrite Hq, Hus, Hsy, Haf, Hfi, Hsrc.
  by rewrite (sort_strings_perm _ _ Hd), (sort_strings_perm _ _ Hu), (sort_strings_perm _ _ Hf),
    (sort_strings_perm _ _ Huk).
Qed.

(** The order of flags is not keyed, and neither is the kind of output.
    Two command lines that differ in the order of two plain flags build the same
    context, and so does adding -S in front; but GCC and Clang take the last of
    several -O levels, and with -S write assembly instead of an object. *)
Theorem flag_order_unkeyed (fs : bytes -> option Node) (f1 f2 : bytes) (rest : list bytes)
    (cwd : bytes) (compiler_hash : ContentHash) :
  plain_flag fs f1 -> plain_flag fs f2 ->
  let context args := cc_from_parsed_args (parse_gnu_args fs args cwd) compiler_hash in
  context (f1 :: f2 :: rest) = context (f2 :: f1 :: rest) /\
  context ("-S" :: rest) = context rest.
Proof.
  intros H1 H2 context. split; apply context_of_actions; try reflexivity;
    cbn [gnu_actions]; rewrite ?H1; cbn [gnu_actions]; rewrite ?H2, ?H1; cbn [app omap list_omap]; try done.
  cbn. apply Permutation_swap.
Qed.

Definition no_files (_ : bytes) : option Node := None.

Lemma flag_order_unkeyed_witness :
  plain_flag no_files "-O0" /\ plain_flag no_files "-O2" /\
  (let context args := cc_from_parsed_args (parse_gnu_args no_files args "/w") demo_hash in
   context (["-O0"; "-O2"; "-c"; "a.c"]) = context (["-O2"; "-O0"; "-c"; "a.c"]) /\
   context (["-S"; "-c"; "a.c"]) = context (["-c"; "a.c"]) /\
   context (["-O0"; "-c"; "a.c"]) <> context (["-O2"; "-c"; "a.c"])).
Proof.
  assert (plain_flag no_files "-O0") as H0 by (intros cwd next; reflexivity).
  assert (plain_flag no_files "-O2") as H2 by (intros cwd next; reflexivity).
  split; [exact H0|]. split; [exact H2|].
  pose proof (flag_order_unkeyed no_files "-O0" "-O2" ["-c"; "a.c"] "/w" demo_hash H0 H2) as [Ho Hs].
  split; [exact Ho|]. split; [exact Hs|]. vm_compute. discriminate.
Defined.

(** ** The dependency flags are always found *)

Lemma xpreprocessor_arg_shorter args opt rest :
  xpreprocessor_arg args = Some (opt, rest) -> (length rest < length args)%nat.
Proof.
  destruct args as [|arg args]; cbn [xpreprocessor_arg]; [done|]. case_bool_decide.
  - destruct args as [|o r]; [done|]. intros [= <- <-]. simpl. lia.
  - destruct (strip_prefix "-Xpreprocessor=" arg); cbn; [|done]. intros [= <- <-]. lia.
Qed.

Lemma xpreprocessor_run_shorter fuel args :
  (length (xpreprocessor_run fuel args).2 <= length args)%nat.
Proof.
  revert args. induction fuel as [|fuel IH]; intros args; simpl; [done|].
  destruct (xpreprocessor_arg args) as [[opt rest]|] eqn:Ha; [|done].
  apply xpreprocessor_arg_shorter in Ha. specialize (IH rest).
  destruct (xpreprocessor_run fuel rest) as [os r]. simpl in *. lia.
Qed.

(** [parse_user_dep_flags] terminates on every command line: each turn of
    its loop, also one that consumes a run of -Xpreprocessor options, shortens
    the remaining arguments, so as many turns as there are arguments suffice. *)
Theorem dep_flags_terminate (args : list bytes) (cwd : bytes) (r : UserDepFlags) (fuel : nat) :
  (length args < fuel)%nat -> is_Some (dep_flags_loop fuel args cwd r).
Proof.
  revert args r. induction fuel as [|fuel IH]; intros args r Hf; [lia|].
  destruct args as [|arg rest]; [by eexists|]. cbn [dep_flags_loop].
  destruct (strip_prefix "-Wp," arg) as [o|]; [apply IH; simpl in Hf; lia|].
  destruct (xpreprocessor_arg (arg :: rest)) as [[o rest1]|] eqn:Hx.
  - cbn [length xpreprocessor_run]. rewrite Hx. apply xpreprocessor_arg_shorter in Hx.
    pose proof (xpreprocessor_run_shorter (length rest) rest1) as Hr.
    destruct (xpreprocessor_run (length rest) rest1) as [os r1]. apply IH. simpl in *. lia.
  - destruct (parse_driver_option arg (head rest) cwd r) as [r' [|]]; apply IH; simpl in Hf; [|lia].
    destruct rest; simpl in *; lia.
Qed.

Lemma dep_flags_terminate_witness :
  let args := ["-Wp,-MMD,first.d,-MT,-MF,-MF,custom.d"; "-Xpreprocessor"; "-MF"; "-Xpreprocessor=x.d"; "-c"] in
  is_Some (dep_flags_loop 6 args "/p" no_dep_flags) /\
  parse_user_dep_flags args "/p" = mkDepFlags true true (Some "/p/x.d") false.
Proof.
  split; [apply dep_flags_terminate; simpl; lia|reflexivity].
Defined.
