(* ===== verification/Depfile.v ===== *)
(** * Dependency files ([zccache-depgraph/src/depfile/])

    The parser of the make rules GCC and Clang write with -MD, the choice of
    where that file comes from, and the union of independently collected
    scans.  [std::fs::canonicalize] is the function [realpath] of the
    environment; its process-wide memo table is the state of the parser.

    All characters the parser tests are ASCII, so the loops over [char]s run
    over the UTF-8 bytes. *)

From stdpp Require Import list strings gmap.
From Stdlib Require Import Lia.
From S2P Require Import Prelude Path Hash RustStr ContextKeys DepGraph DepGraphIndex DepGraphVerdict GnuArgs.

Inductive DepfileError :=
| DepIo (message : bytes)
| Malformed (message : bytes).

(** ** Lines and tokens ([parse.rs]) *)

Definition BS : ascii := ascii_of_nat 92.
Definition SP : ascii := ascii_of_nat 32.
Definition TAB : ascii := ascii_of_nat 9.
Definition LF : ascii := ascii_of_nat 10.
Definition CR : ascii := ascii_of_nat 13.
Definition HASH : ascii := "#"%char.
Definition DOLLAR : ascii := "$"%char.
Definition COLON : ascii := ":"%char.

Fixpoint join_continuations (content : bytes) : bytes :=
  match content with
  | EmptyString => ""
  | String ch s1 =>
      if bool_decide (ch = BS) then
        match s1 with
        | String n s2 =>
            if bool_decide (n = LF) then String SP (join_continuations s2)
            else if bool_decide (n = CR) then
              match s2 with
              | String m s3 =>
                  if bool_decide (m = LF) then String SP (join_continuations s3)
                  else String SP (join_continuations s2)
              | EmptyString => String SP ""
              end
            else String ch (join_continuations s1)
        | EmptyString => String ch ""
        end
      else String ch (join_continuations s1)
  end.

Definition is_ascii_alphabetic (c : ascii) : bool :=
  let v := byte_val c in ((65 <=? v) && (v <=? 90)) || ((97 <=? v) && (v <=? 122)).
Definition is_ascii_alphanumeric (c : ascii) : bool :=
  is_ascii_alphabetic c || ((48 <=? byte_val c) && (byte_val c <=? 57)).

(** The test of one colon: the two bytes before it and the bytes after it. *)
Definition is_drive_letter (prev2 prev1 : option ascii) (rest : bytes) : bool :=
  match prev1, rest with
  | Some p, String n _ =>
      match prev2 with None => true | Some q => negb (is_ascii_alphanumeric q) end &&
      is_ascii_alphabetic p && (bool_decide (n = BS) || bool_decide (n = slash))
  | _, _ => false
  end.

Fixpoint find_colon_from (prev2 prev1 : option ascii) (i : nat) (s : bytes) : option nat :=
  match s with
  | EmptyString => None
  | String c s' =>
      if bool_decide (c = COLON) && negb (is_drive_letter prev2 prev1 s') then Some i
      else find_colon_from prev1 (Some c) (S i) s'
  end.

Definition find_separator_colon (line : bytes) : DepfileError + nat :=
  match find_colon_from None None 0 line with
  | Some i => inr i
  | None => inl (Malformed "no colon separator found")
  end.

Fixpoint repeat_char (c : ascii) (n : nat) : bytes :=
  match n with O => "" | S n' => String c (repeat_char c n') end.

(** The backslashes a string starts with, and what follows them. *)
Fixpoint take_run (s : bytes) : nat * bytes :=
  match s with
  | String c s' => if bool_decide (c = BS) then let '(n, r) := take_run s' in (S n, r) else (O, s)
  | EmptyString => (O, "")
  end.

Definition flush_token (current : bytes) (tokens : list bytes) : list bytes :=
  if bool_decide (current = "") then tokens else tokens ++ [current].

(** The loop over the characters; [None] when the fuel runs out. *)
Fixpoint split_loop (fuel : nat) (chars current : bytes) (tokens : list bytes) : option (list bytes) :=
  match fuel with
  | O => None
  | S fuel' =>
      match chars with
      | EmptyString => Some (flush_token current tokens)
      | String ch rest =>
          if bool_decide (ch = BS) then
            let '(n, rest) := take_run rest in
            let run_len := S n in
            match rest with
            | String next rest' =>
                if bool_decide (next = SP) || bool_decide (next = TAB) then
                  let current := current +:+ repeat_char BS (Nat.div2 run_len) in
                  if Nat.odd run_len then split_loop fuel' rest' (current +:+ String next "") tokens
                  else split_loop fuel' rest' "" (flush_token current tokens)
                else if bool_decide (next = HASH) then
                  split_loop fuel' rest' (current +:+ repeat_char BS (run_len - 1) +:+ String HASH "") tokens
                else split_loop fuel' rest (current +:+ repeat_char BS run_len) tokens
            | EmptyString => split_loop fuel' "" (current +:+ repeat_char BS run_len) tokens
            end
          else
            if bool_decide (ch = DOLLAR) then
              match rest with
              | String d rest' =>
                  if bool_decide (d = DOLLAR)
                  then split_loop fuel' rest' (current +:+ String DOLLAR "") tokens
                  else split_loop fuel' rest (current +:+ String ch "") tokens
              | EmptyString => split_loop fuel' rest (current +:+ String ch "") tokens
              end
            else if bool_decide (ch ∈ [SP; TAB; LF; CR]) then split_loop fuel' rest "" (flush_token current tokens)
            else split_loop fuel' rest (current +:+ String ch "") tokens
      end
  end.

Definition split_and_unescape (deps : bytes) : list bytes :=
  default [] (split_loop (S (String.length deps)) deps "" []).

(** [String::pop] after a test that the last character is the separator. *)
Definition drop_rule_colon (token : bytes) : option bytes :=
  let token := default token (strip_suffix ":" token) in
  if bool_decide (token = "") then None else Some token.

Definition depfile_path_tokens (content : bytes) : list bytes :=
  omap drop_rule_colon (split_and_unescape (join_continuations content)).

(** ** Canonical paths ([canonicalize.rs]) *)

Definition CANONICALIZE_CACHE_MAX_ENTRIES : Z := 64 * 1024.

(** Outside Windows [strip_verbatim_prefix] is the identity. *)
Definition strip_win_prefix (path : NormalizedPath) : NormalizedPath := NormalizedPath_new path.

Definition CanonCache : Type := gmap string string.

Section parse.
Context (realpath : bytes -> option bytes).

(** The computation behind the table. *)
Definition canonicalize_uncached (path cwd : bytes) : NormalizedPath :=
  strip_win_prefix (NormalizedPath_new
    (default (if has_root path then path else path_push cwd path) (realpath path))).

Definition canonicalize_path (path cwd : bytes) (cache : CanonCache) : NormalizedPath * CanonCache :=
  match cache !! path with
  | Some cached => (cached, cache)
  | None =>
      let result := canonicalize_uncached path cwd in
      (result, if Z.of_nat (size cache) <? CANONICALIZE_CACHE_MAX_ENTRIES
               then <[path := result]> cache else cache)
  end.

(** The path asked of [canonicalize_path] for a token. *)
Definition dep_query (cwd token : bytes) : bytes :=
  if has_root token then token else path_push cwd token.

(** ** [parse_depfile] *)

Fixpoint resolve_tokens (tokens : list bytes) (source_canonical : NormalizedPath) (cwd : bytes)
    (seen : gset NormalizedPath) (resolved : list NormalizedPath) (cache : CanonCache) :
    list NormalizedPath * CanonCache :=
  match tokens with
  | [] => (resolved, cache)
  | token :: rest =>
      if bool_decide (token = "") then resolve_tokens rest source_canonical cwd seen resolved cache
      else
        let '(abs_path, cache) := canonicalize_path (dep_query cwd token) cwd cache in
        if bool_decide (abs_path = source_canonical)
        then resolve_tokens rest source_canonical cwd seen resolved cache
        else if bool_decide (abs_path ∈ seen)
        then resolve_tokens rest source_canonical cwd seen resolved cache
        else resolve_tokens rest source_canonical cwd ({[abs_path]} ∪ seen) (resolved ++ [abs_path]) cache
  end.

Definition parse_depfile (content source cwd : bytes) (cache : CanonCache) :
    (DepfileError + ScanResult) * CanonCache :=
  if bool_decide (str_trim content = "") then (inl (Malformed "empty depfile content"), cache)
  else
    let joined := join_continuations content in
    match find_separator_colon joined with
    | inl e => (inl e, cache)
    | inr colon_pos =>
        let tokens := split_and_unescape (str_skip (colon_pos + 1) joined) in
        let '(source_canonical, cache) := canonicalize_path source cwd cache in
        let '(resolved, cache) := resolve_tokens tokens source_canonical cwd ∅ [] cache in
        (inr (mkScan resolved [] false), cache)
    end.

(** [read_to_string] is the result of reading the file. *)
Definition parse_depfile_path (read_to_string : bytes + bytes) (source cwd : bytes) (cache : CanonCache) :
    (DepfileError + ScanResult) * CanonCache :=
  match read_to_string with
  | inl e => (inl (DepIo e), cache)
  | inr content => parse_depfile content source cwd cache
  end.
End parse.

(** ** Union of scans ([merge.rs]) *)

(** [filter(|path| seen.insert(path.clone()))]. *)
Fixpoint insert_new (seen : gset bytes) (l : list bytes) : list bytes :=
  match l with
  | [] => []
  | x :: l' => if bool_decide (x ∈ seen) then insert_new seen l'
               else x :: insert_new ({[x]} ∪ seen) l'
  end.

Definition merge_scan_results (depfile static_scan : ScanResult) : ScanResult :=
  mkScan (resolved depfile ++ insert_new (list_to_set (resolved depfile)) (resolved static_scan))
    (unresolved depfile ++ insert_new (list_to_set (unresolved depfile)) (unresolved static_scan))
    (has_computed depfile || has_computed static_scan).

Definition merge_scan_results_conservative (depfile static_scan : ScanResult) : ScanResult :=
  merge_scan_results depfile
    (mkScan (resolved static_scan) (unresolved static_scan)
       (has_computed static_scan || negb (bool_decide (unresolved static_scan = [])))).

(** ** Where the file comes from ([strategy.rs]) *)

Inductive DepfileStrategy :=
| Injected (path : NormalizedPath)
| InjectedMmd (path : NormalizedPath)
| CompilerTrace
| UserSpecified (path : NormalizedPath) (augment_system_headers : bool)
| UserDefault (path : NormalizedPath) (augment_system_headers : bool)
| ShowIncludes
| Unsupported.

Definition user_depfile_destination (dep_flags : UserDepFlags) (output_file : bytes) : option NormalizedPath :=
  if depfile_to_stdout dep_flags then None
  else match mf_path dep_flags with
  | Some p => Some p
  | None => if has_md dep_flags then Some (NormalizedPath_new (with_extension output_file "d")) else None
  end.

(** The decimal digits of a number, as [format!] writes it. *)
Fixpoint decimal_go (fuel : nat) (n : Z) (acc : bytes) : bytes :=
  match fuel with
  | O => acc
  | S fuel' =>
      let acc := String (ascii_of_N (Z.to_N (48 + n `mod` 10))) acc in
      if n <? 10 then acc else decimal_go fuel' (n `div` 10) acc
  end.
Definition decimal (n : Z) : bytes := decimal_go 20 n "".

(** [counter] is [DEPFILE_COUNTER], which wraps at 64 bits; [pid] is the
    process id. *)
Definition injected_path (output_file tmpdir : bytes) (pid counter : Z) : NormalizedPath :=
  let stem := default "depfile" (file_stem output_file) in
  NormalizedPath_new
    (path_push tmpdir (stem +:+ "_" +:+ decimal pid +:+ "_" +:+ decimal counter +:+ ".d")).

Definition prepare_depfile_with_mmd (use_mmd supports_depfile : bool) (dep_flags : UserDepFlags)
    (output_file tmpdir : bytes) (pid counter : Z) : (list bytes * DepfileStrategy) * Z :=
  if negb supports_depfile then (([], Unsupported), counter)
  else if depfile_to_stdout dep_flags then (([], Unsupported), counter)
  else match mf_path dep_flags with
  | Some p => (([], UserSpecified p (has_mmd dep_flags && negb use_mmd)), counter)
  | None =>
      if has_md dep_flags
      then (([], UserDefault (NormalizedPath_new (with_extension output_file "d"))
                   (has_mmd dep_flags && negb use_mmd)), counter)
      else
        let tmp_path := injected_path output_file tmpdir pid counter in
        let counter := wrap64 (counter + 1) in
        if use_mmd then ((["-MMD"; "-MF"; tmp_path], InjectedMmd tmp_path), counter)
        else ((["-MD"; "-MF"; tmp_path], Injected tmp_path), counter)
  end.

Definition prepare_depfile (supports_depfile : bool) (dep_flags : UserDepFlags)
    (output_file tmpdir : bytes) (pid counter : Z) : (list bytes * DepfileStrategy) * Z :=
  prepare_depfile_with_mmd false supports_depfile dep_flags output_file tmpdir pid counter.

(** ** What GCC and Clang write

    A file name in a rule: a space or tab gets a backslash, after the
    backslashes in front of it have been doubled; [#] gets a backslash; [$] is
    doubled.  [run] counts the backslashes just written. *)

Fixpoint quote_from (run : nat) (s : bytes) : bytes :=
  match s with
  | EmptyString => ""
  | String c s' =>
      if bool_decide (c = BS) then String BS (quote_from (S run) s')
      else if bool_decide (c = SP) || bool_decide (c = TAB)
      then repeat_char BS run +:+ String BS (String c (quote_from 0 s'))
      else if bool_decide (c = DOLLAR) then String DOLLAR (String DOLLAR (quote_from 0 s'))
      else if bool_decide (c = HASH) then String BS (String HASH (quote_from 0 s'))
      else String c (quote_from 0 s')
  end.
Definition make_quote (s : bytes) : bytes := quote_from 0 s.

(** A rule, with the dependencies that start a continued line marked, and the
    phony rules -MP adds. *)
Definition dep_item (d : bool * bytes) : bytes :=
  (if d.1 then String SP (String BS (String LF "  ")) else " ") +:+ make_quote d.2.
Definition phony_item (h : bytes) : bytes := String LF (make_quote h +:+ ":").
Definition make_rules (target : bytes) (deps : list (bool * bytes)) (phony : list bytes) : bytes :=
  make_quote target +:+ ":" +:+ concat_bytes (dep_item <$> deps) +:+
  concat_bytes (phony_item <$> phony) +:+ String LF "".

(** File names the format can carry: not empty, no line break, no backslash at
    the end. *)
Fixpoint ends_bs (s : bytes) : bool :=
  match s with
  | EmptyString => false
  | String c EmptyString => bool_decide (c = BS)
  | String _ s' => ends_bs s'
  end.
Fixpoint all_chars (p : ascii -> bool) (s : bytes) : bool :=
  match s with EmptyString => true | String c s' => p c && all_chars p s' end.
Definition not_crlf (c : ascii) : bool := negb (bool_decide (c = LF)) && negb (bool_decide (c = CR)).
Definition dep_name_ok (s : bytes) : bool :=
  negb (bool_decide (s = "")) && all_chars not_crlf s && negb (ends_bs s).

Lemma all_chars_app p a b : all_chars p (a +:+ b) = all_chars p a && all_chars p b.
Proof. induction a as [|c a IH]; simpl; [done|]. rewrite IH. by destruct (p c). Qed.

Lemma all_chars_repeat p c n : p c = true -> all_chars p (repeat_char c n) = true.
Proof. intros Hp. induction n as [|n IH]; simpl; [done|]. by rewrite Hp, IH. Qed.

Lemma ends_bs_app a b : b <> "" -> ends_bs (a +:+ b) = ends_bs b.
Proof.
  intros Hb. induction a as [|c a IH]; [done|]. rewrite <- IH. simpl.
  destruct (a +:+ b) eqn:E; [|done]. destruct a; [|done]. by destruct b.
Qed.

Lemma repeat_char_snoc c n s : repeat_char c n +:+ String c s = repeat_char c (S n) +:+ s.
Proof. induction n as [|n IH]; simpl; [done|]. by rewrite IH. Qed.

Lemma repeat_char_add c n m : repeat_char c n +:+ repeat_char c m = repeat_char c (n + m).
Proof. induction n as [|n IH]; simpl; congruence. Qed.

(** Quoting keeps the properties of the name. *)
Lemma quote_all_chars p run s :
  p BS = true -> p HASH = true -> p DOLLAR = true -> all_chars p s = true ->
  all_chars p (quote_from run s) = true.
Proof.
  intros Hb Hh Hd. revert run. induction s as [|c s IH]; intros run; simpl; [done|].
  intros [Hc Hs]%andb_prop. repeat (case_bool_decide || destruct (_ || _)); simpl; subst;
    rewrite ?all_chars_app; simpl; rewrite ?all_chars_repeat, ?Hb, ?Hd, ?Hh, ?Hc, ?IH by done; done.
Qed.

Lemma quote_nonempty run s : s <> "" -> quote_from run s <> "".
Proof.
  destruct s as [|c s]; [done|]. intros _. simpl.
  repeat (case_bool_decide || destruct (_ || _)); try done; by destruct run.
Qed.

Lemma ends_bs_cons c s : s <> "" -> ends_bs (String c s) = ends_bs s.
Proof. by destruct s. Qed.

Lemma quote_ends run s : ends_bs s = false -> ends_bs (quote_from run s) = false.
Proof.
  revert run. induction s as [|c s IH]; intros run Hs; [done|].
  destruct (decide (s = "")) as [->|Hne].
  - simpl in *. apply bool_decide_eq_false in Hs. rewrite (bool_decide_eq_false_2 (c = BS)) by done.
    repeat (case_bool_decide || destruct (_ || _)); subst; try done;
      rewrite ?ends_bs_app by done; simpl; first [done|by rewrite bool_decide_eq_false_2].
  - rewrite ends_bs_cons in Hs by done. simpl.
    repeat (case_bool_decide || destruct (_ || _)); rewrite ?ends_bs_app by done;
      rewrite ?ends_bs_cons by (done || by apply quote_nonempty); by apply IH.
Qed.

Lemma quote_colon run s : quote_from run (s +:+ ":") = quote_from run s +:+ ":".
Proof.
  revert run. induction s as [|c s IH]; intros run; [done|]. simpl.
  repeat (case_bool_decide || destruct (_ || _)); rewrite IH, ?string_app_assoc; done.
Qed.

(** ** The tokens of a rule *)

(** [split_loop] gets from one point of the text to another. *)
Definition split_to (s cur : bytes) (t : list bytes) (s' cur' : bytes) (t' : list bytes) : Prop :=
  forall f, (String.length s < f)%nat ->
    exists f', (String.length s' < f')%nat /\ split_loop f s cur t = split_loop f' s' cur' t'.

Lemma split_to_trans s cur t s1 cur1 t1 s2 cur2 t2 :
  split_to s cur t s1 cur1 t1 -> split_to s1 cur1 t1 s2 cur2 t2 -> split_to s cur t s2 cur2 t2.
Proof.
  intros H1 H2 f Hf. destruct (H1 f Hf) as (f1 & Hf1 & ->). destruct (H2 f1 Hf1) as (f2 & Hf2 & ->). eauto.
Qed.

Lemma split_to_cur s cur t s' cur1 cur2 t' :
  cur1 = cur2 -> split_to s cur t s' cur1 t' -> split_to s cur t s' cur2 t'.
Proof. by intros ->. Qed.

(** One turn of the loop. *)
Lemma split_to_step s cur t s' cur' t' :
  (String.length s' < String.length s)%nat ->
  (forall f, split_loop (S f) s cur t = split_loop f s' cur' t') -> split_to s cur t s' cur' t'.
Proof. intros Hl Hs [|f] Hf; [lia|]. exists f. split; [lia|apply Hs]. Qed.

Lemma take_run_repeat n s :
  match s with String c _ => c <> BS | EmptyString => True end -> take_run (repeat_char BS n +:+ s) = (n, s).
Proof.
  intros Hs. induction n as [|n IH]; simpl.
  - destruct s as [|c s]; simpl; [done|]. by rewrite bool_decide_eq_false_2.
  - by rewrite IH.
Qed.

Definition run_ends (c : ascii) : Prop := c <> BS /\ c <> SP /\ c <> TAB /\ c <> HASH.

(** A run of backslashes that quotes nothing. *)
Lemma split_to_run n c s cur t :
  run_ends c -> split_to (repeat_char BS (S n) +:+ String c s) cur t (String c s) (cur +:+ repeat_char BS (S n)) t.
Proof.
  intros (H1 & H2 & H3 & H4). apply split_to_step.
  - rewrite string_length_app. simpl. lia.
  - intros f. cbn [split_loop repeat_char String.append]. rewrite bool_decide_eq_true_2 by done.
    rewrite take_run_repeat by done. by rewrite !bool_decide_eq_false_2.
Qed.

Lemma split_to_opt_run n c s cur t :
  run_ends c -> split_to (repeat_char BS n +:+ String c s) cur t (String c s) (cur +:+ repeat_char BS n) t.
Proof.
  intros Hc. destruct n as [|n]; [|by apply split_to_run]. simpl. rewrite string_app_nil_r.
  intros f Hf. exists f. done.
Qed.

Lemma split_to_blank n c s cur t :
  c = SP \/ c = TAB ->
  split_to (repeat_char BS (S (n + n)) +:+ String c s) cur t s (cur +:+ repeat_char BS n +:+ String c "") t.
Proof.
  intros Hc. apply split_to_step.
  - rewrite string_length_app. simpl. lia.
  - intros f. cbn [split_loop repeat_char String.append]. rewrite bool_decide_eq_true_2 by done.
    rewrite take_run_repeat by (by destruct Hc as [-> | ->]).
    replace (bool_decide (c = SP) || bool_decide (c = TAB)) with true by (by destruct Hc as [-> | ->]).
    assert (Nat.odd (S (n + n)) = true) as -> by (rewrite Nat.odd_succ; apply Nat.even_spec; exists n; lia).
    replace (Nat.div2 (S (n + n))) with n by (pose proof (Nat.div2_succ_double n); simpl in *; rewrite Nat.add_0_r in *; lia).
    by rewrite string_app_assoc.
Qed.

Lemma split_to_hash n s cur t :
  split_to (repeat_char BS (S n) +:+ String HASH s) cur t s (cur +:+ repeat_char BS n +:+ String HASH "") t.
Proof.
  apply split_to_step.
  - rewrite string_length_app. simpl. lia.
  - intros f. cbn [split_loop repeat_char String.append]. rewrite bool_decide_eq_true_2 by done.
    rewrite take_run_repeat by done. cbn [bool_decide orb]. simpl. by rewrite Nat.sub_0_r.
Qed.

Lemma split_to_dollar s cur t :
  split_to (String DOLLAR (String DOLLAR s)) cur t s (cur +:+ String DOLLAR "") t.
Proof. apply split_to_step; [simpl; lia|]. done. Qed.

Lemma split_to_plain c s cur t :
  c ∉ [BS; DOLLAR; SP; TAB; LF; CR] -> split_to (String c s) cur t s (cur +:+ String c "") t.
Proof.
  intros Hc. apply split_to_step; [simpl; lia|]. intros f. cbn [split_loop].
  rewrite !elem_of_cons in Hc.
  rewrite !bool_decide_eq_false_2; [done|rewrite !elem_of_cons|..]; tauto.
Qed.

Lemma split_to_ws c s cur t :
  c ∈ [SP; TAB; LF; CR] -> split_to (String c s) cur t s "" (flush_token cur t).
Proof.
  intros Hc. apply split_to_step; [simpl; lia|]. intros f. cbn [split_loop].
  rewrite (bool_decide_eq_true_2 _ Hc). rewrite !elem_of_cons, elem_of_nil in Hc.
  destruct Hc as [->|[->|[->|[->|[]]]]]; done.
Qed.

(** A quoted name is read back, whatever precedes it on the token. *)
Lemma split_to_quoted run s rest cur t :
  all_chars not_crlf s = true -> ends_bs s = false -> (s = "" -> run = O) ->
  split_to (repeat_char BS run +:+ quote_from run s +:+ rest) cur t rest (cur +:+ repeat_char BS run +:+ s) t.
Proof.
  revert run cur. induction s as [|c s IH]; intros run cur Hn He Hr.
  { rewrite Hr by done. simpl. rewrite string_app_nil_r. intros f Hf. eauto. }
  simpl in Hn. apply andb_prop in Hn as [Hc Hn].
  assert (ends_bs s = false) as He' by (destruct s; [done|exact He]).
  assert (forall cur', split_to (quote_from 0 s +:+ rest) cur' t rest (cur' +:+ s) t) as IH0.
  { intros cur'. apply (IH 0%nat cur' Hn He'). done. }
  cbn [quote_from]. case_bool_decide as Hb; [|destruct (bool_decide (c = SP) || bool_decide (c = TAB)) eqn:Hsp];
    [|apply orb_prop in Hsp as Hsp'; rewrite !bool_decide_eq_true in Hsp'|destruct (bool_decide_reflect (c = DOLLAR)) as [Hd|Hd]; [|destruct (bool_decide_reflect (c = HASH)) as [Hh|Hh]]].
  - subst. cbn [String.append]. rewrite repeat_char_snoc. rewrite <- (string_app_assoc _ _ rest).
    rewrite repeat_char_snoc, string_app_assoc. apply IH; [done..|].
    intros ->. simpl in He. done.
  - rewrite (string_app_assoc _ _ rest), <- (string_app_assoc _ (repeat_char BS run)), repeat_char_add.
    cbn [String.append]. rewrite repeat_char_snoc.
    eapply split_to_trans; [by apply split_to_blank|].
    eapply split_to_cur; [|apply IH0]. by rewrite ?string_app_assoc.
  - subst. cbn [String.append]. eapply split_to_trans; [apply split_to_opt_run; done|].
    eapply split_to_trans; [apply split_to_dollar|].
    eapply split_to_cur; [|apply IH0]. by rewrite ?string_app_assoc.
  - subst. cbn [String.append]. rewrite repeat_char_snoc.
    eapply split_to_trans; [apply split_to_hash|].
    eapply split_to_cur; [|apply IH0]. by rewrite ?string_app_assoc.
  - apply orb_false_iff in Hsp as [Hs1%bool_decide_eq_false Hs2%bool_decide_eq_false].
    unfold not_crlf in Hc. apply andb_prop in Hc as [Hl%negb_true_iff%bool_decide_eq_false Hcr%negb_true_iff%bool_decide_eq_false].
    cbn [String.append]. eapply split_to_trans; [apply split_to_opt_run; done|].
    eapply split_to_trans; [apply split_to_plain|].
    { rewrite !elem_of_cons, elem_of_nil. tauto. }
    eapply split_to_cur; [|apply IH0]. by rewrite ?string_app_assoc.
Qed.

(** A name on the line: what separates it from the one before, and itself. *)
Definition ws_string (s : bytes) : bool := all_chars (fun c => bool_decide (c ∈ [SP; TAB; LF; CR])) s.
Definition word_text (w : bytes * bytes) : bytes := w.1 +:+ make_quote w.2.
Definition word_ok (w : bytes * bytes) : bool :=
  negb (bool_decide (w.1 = "")) && ws_string w.1 && dep_name_ok w.2.

Lemma split_to_seps sep rest t cur :
  ws_string sep = true -> sep <> "" -> split_to (sep +:+ rest) cur t rest "" (flush_token cur t).
Proof.
  revert cur t. induction sep as [|c sep IH]; intros cur t Hw Hne; [done|].
  unfold ws_string in Hw. simpl in Hw. apply andb_prop in Hw as [Hc%bool_decide_eq_true Hw].
  eapply split_to_trans; [by apply split_to_ws|].
  destruct (decide (sep = "")) as [->|Hs]; [intros f Hf; eauto|]. by apply (IH "" (flush_token cur t)).
Qed.

Lemma dep_name_ok_spec s :
  dep_name_ok s = true <-> s <> "" /\ all_chars not_crlf s = true /\ ends_bs s = false.
Proof.
  unfold dep_name_ok. rewrite !andb_true_iff, !negb_true_iff, bool_decide_eq_false. tauto.
Qed.

Lemma split_to_words ws rest cur t :
  Forall (fun w => word_ok w = true) ws ->
  exists cur' t', split_to (concat_bytes (word_text <$> ws) +:+ rest) cur t rest cur' t' /\
    flush_token cur' t' = flush_token cur t ++ ws.*2.
Proof.
  revert cur t. induction ws as [|[sep name] ws IH]; intros cur t Hok.
  { exists cur, t. split; [intros f Hf; eauto|]. by rewrite app_nil_r. }
  apply Forall_cons in Hok as [Hw Hok]. unfold word_ok in Hw. simpl in Hw.
  rewrite !andb_true_iff, negb_true_iff, bool_decide_eq_false, dep_name_ok_spec in Hw.
  destruct Hw as [[Hne Hsep] (Hn & Hc & He)].
  destruct (IH name (flush_token cur t) Hok) as (cur' & t' & Hto & Hfl). exists cur', t'. split.
  - cbn [fmap list_fmap concat_bytes]. unfold word_text at 1. simpl. rewrite !string_app_assoc.
    eapply split_to_trans; [by apply split_to_seps|]. eapply split_to_trans; [|exact Hto].
    apply (split_to_quoted 0 name); done.
  - rewrite Hfl. unfold flush_token at 1. rewrite bool_decide_eq_false_2 by done. simpl.
    by rewrite <- (assoc_L (++)).
Qed.

(** The names of a line, each read back exactly. *)
Lemma split_words ws :
  Forall (fun w => word_ok w = true) ws ->
  split_and_unescape (concat_bytes (word_text <$> ws) +:+ String LF "") = ws.*2.
Proof.
  intros Hok. destruct (split_to_words ws (String LF "") "" [] Hok) as (cur & t & Hto & Hfl).
  pose proof (split_to_trans _ _ _ _ _ _ _ _ _ Hto (split_to_ws LF "" cur t ltac:(by right; right; left))) as H.
  unfold split_and_unescape. destruct (H _ (Nat.lt_succ_diag_r _)) as (f & Hf & ->).
  rewrite Hfl. destruct f as [|f]; [lia|]. simpl. unfold flush_token. by rewrite bool_decide_eq_true_2.
Qed.

(** ** From the file to the line *)

Lemma join_quiet s rest :
  all_chars not_crlf s = true -> ends_bs s = false ->
  join_continuations (s +:+ rest) = s +:+ join_continuations rest.
Proof.
  induction s as [|c s IH]; intros Hn He; [done|]. simpl in Hn. apply andb_prop in Hn as [Hc Hn].
  destruct s as [|d s].
  { simpl in He. cbn [String.append join_continuations]. by rewrite He. }
  change (ends_bs (String c (String d s))) with (ends_bs (String d s)) in He. specialize (IH Hn He).
  cbn [all_chars] in Hn. apply andb_prop in Hn as [Hd _]. unfold not_crlf in Hd.
  rewrite andb_true_iff, !negb_true_iff in Hd. destruct Hd as [Hd1 Hd2].
  change (String c (String d s) +:+ rest) with (String c (String d (s +:+ rest))).
  change (String d s +:+ rest) with (String d (s +:+ rest)) in IH.
  cbn [join_continuations]. rewrite Hd1, Hd2. cbn [join_continuations] in IH. rewrite IH.
  by destruct (bool_decide (c = BS)).
Qed.

Lemma join_quoted name rest :
  dep_name_ok name = true ->
  join_continuations (make_quote name +:+ rest) = make_quote name +:+ join_continuations rest.
Proof.
  intros (_ & Hn & He)%dep_name_ok_spec. apply join_quiet; [by apply quote_all_chars|by apply quote_ends].
Qed.

(** The words a rule consists of, after its lines are joined. *)
Definition dep_word (d : bool * bytes) : bytes * bytes := (if d.1 then "    " else " ", d.2).
Definition phony_word (h : bytes) : bytes * bytes := (String LF "", h +:+ ":").

Lemma join_deps deps rest :
  Forall (fun d => dep_name_ok d.2 = true) deps ->
  join_continuations (concat_bytes (dep_item <$> deps) +:+ rest) =
    concat_bytes (word_text <$> (dep_word <$> deps)) +:+ join_continuations rest.
Proof.
  induction 1 as [|[brk d] deps Hd Hds IH]; [done|]. cbn [fmap list_fmap concat_bytes].
  unfold dep_item at 1, word_text at 1. cbn [dep_word fst snd]. rewrite !string_app_assoc.
  destruct brk; cbn [String.append join_continuations bool_decide]; simpl;
    rewrite join_quoted by done; by rewrite IH.
Qed.

Lemma join_phony phony rest :
  Forall (fun h => dep_name_ok h = true) phony ->
  join_continuations (concat_bytes (phony_item <$> phony) +:+ rest) =
    concat_bytes (word_text <$> (phony_word <$> phony)) +:+ join_continuations rest.
Proof.
  induction 1 as [|h phony Hd Hds IH]; [done|]. cbn [fmap list_fmap concat_bytes].
  unfold phony_item at 1, word_text at 1, make_quote at 2. cbn [phony_word fst snd].
  rewrite quote_colon, !string_app_assoc. simpl. rewrite !string_app_assoc, join_quoted by done. simpl.
  by rewrite IH.
Qed.

Lemma join_rules target deps phony :
  dep_name_ok target = true -> Forall (fun d => dep_name_ok d.2 = true) deps ->
  Forall (fun h => dep_name_ok h = true) phony ->
  join_continuations (make_rules target deps phony) =
    make_quote target +:+ String COLON
      (concat_bytes (word_text <$> ((dep_word <$> deps) ++ (phony_word <$> phony))) +:+ String LF "").
Proof.
  intros Ht Hd Hp. unfold make_rules. rewrite join_quoted by done. f_equal. cbn [String.append].
  cbn [join_continuations bool_decide]. simpl. f_equal. rewrite fmap_app, concat_bytes_app, string_app_assoc.
  rewrite join_deps by done. f_equal. by rewrite join_phony.
Qed.

Lemma find_colon_skip s rest prev2 prev1 i :
  all_chars (fun c => negb (bool_decide (c = COLON))) s = true ->
  match rest with String n _ => n <> BS /\ n <> slash | EmptyString => True end ->
  find_colon_from prev2 prev1 i (s +:+ String COLON rest) = Some (i + String.length s)%nat.
Proof.
  revert prev2 prev1 i. induction s as [|c s IH]; intros prev2 prev1 i Hs Hr; simpl.
  - assert (is_drive_letter prev2 prev1 rest = false) as ->.
    { unfold is_drive_letter. destruct prev1, rest as [|n rest]; try done. destruct Hr as [H1 H2].
      rewrite (bool_decide_eq_false_2 (n = BS)), (bool_decide_eq_false_2 (n = slash)) by done.
      by rewrite andb_false_r. }
    by rewrite Nat.add_0_r.
  - simpl in Hs. apply andb_prop in Hs as [Hc Hs]. apply negb_true_iff in Hc. rewrite Hc. simpl.
    rewrite IH by done. f_equal. lia.
Qed.

Lemma str_skip_app a c b : str_skip (String.length a + 1) (a +:+ String c b) = b.
Proof. induction a as [|d a IH]; simpl; [by destruct b|done]. Qed.

(** ** A file with a colon in it is not blank *)

Fixpoint has_char (c : ascii) (s : bytes) : bool :=
  match s with EmptyString => false | String d s' => bool_decide (d = c) || has_char c s' end.

Lemma trim_dir_keeps fwd fuel s :
  has_char COLON s = true -> has_char COLON (trim_dir fwd fuel s) = true.
Proof.
  revert s. induction fuel as [|fuel IH]; intros [|a s1] H; try done. cbn [trim_dir].
  assert (forall v, v = byte_val COLON ->
    ws_ascii v = false /\ (forall x, ws2 v x = false /\ ws2 x v = false) /\
    (forall x y, ws3 v x y = false /\ ws3 x v y = false /\ ws3 x y v = false)) as Hq.
  { intros v ->. split; [done|]. unfold ws2, ws3. change (byte_val COLON) with 58. split; intros *; simpl;
      rewrite ?andb_false_r, ?orb_false_r; repeat split; try done; by rewrite ?andb_false_r. }
  destruct (ws_ascii (byte_val a)) eqn:Ha.
  { apply IH. simpl in H. case_bool_decide as Hc; [|done]. subst. by rewrite (proj1 (Hq _ eq_refl)) in Ha. }
  destruct s1 as [|b s2]; [done|].
  destruct (if fwd then ws2 (byte_val a) (byte_val b) else ws2 (byte_val b) (byte_val a)) eqn:Hab.
  { apply IH. simpl in H. pose proof (proj1 (proj2 (Hq _ eq_refl))) as H2.
    destruct (bool_decide_reflect (a = COLON)), (bool_decide_reflect (b = COLON)); subst; try done;
      destruct fwd; by rewrite ?(proj1 (H2 _)), ?(proj2 (H2 _)) in Hab. }
  destruct s2 as [|d s3]; [done|].
  destruct (if fwd then ws3 _ _ _ else ws3 _ _ _) eqn:Habd; [|done].
  apply IH. simpl in H. pose proof (proj2 (proj2 (Hq _ eq_refl))) as H3.
  destruct (bool_decide_reflect (a = COLON)), (bool_decide_reflect (b = COLON)),
    (bool_decide_reflect (d = COLON)); subst; try done;
    destruct fwd; by rewrite ?(proj1 (H3 _ _)), ?(proj1 (proj2 (H3 _ _))), ?(proj2 (proj2 (H3 _ _))) in Habd.
Qed.

Lemma has_char_app c a b : has_char c (a +:+ b) = has_char c a || has_char c b.
Proof. induction a as [|d a IH]; simpl; [done|]. rewrite IH. by rewrite orb_assoc. Qed.

Lemma str_rev_app_has c s acc : has_char c (str_rev_app s acc) = has_char c s || has_char c acc.
Proof.
  revert acc. induction s as [|d s IH]; intros acc; simpl; [done|]. rewrite IH. simpl.
  by destruct (bool_decide (d = c)), (has_char c s), (has_char c acc).
Qed.

Lemma trim_not_blank s : has_char COLON s = true -> str_trim s <> "".
Proof.
  intros H Ht. assert (has_char COLON (str_trim s) = true) as Hc; [|by rewrite Ht in Hc].
  unfold str_trim, str_rev. rewrite str_rev_app_has, orb_false_r. apply trim_dir_keeps.
  rewrite str_rev_app_has, orb_false_r. by apply trim_dir_keeps.
Qed.

(** ** The scan of a dependency file *)

Section scan.
Context (realpath : bytes -> option bytes).

(** The canonical form of an absolute path. *)
Definition canon (path : bytes) : NormalizedPath := canonicalize_uncached realpath path "/".

(** The memo table tells the truth about absolute paths. *)
Definition canon_coherent (cache : CanonCache) : Prop :=
  forall k v, cache !! k = Some v -> has_root k = true -> v = canon k.

Lemma canon_coherent_empty : canon_coherent ∅.
Proof. intros k v H. unfold CanonCache in *. by rewrite lookup_empty in H. Qed.

Lemma canonicalize_path_ok path cwd cache :
  has_root path = true -> canon_coherent cache ->
  exists cache', canonicalize_path realpath path cwd cache = (canon path, cache') /\ canon_coherent cache'.
Proof.
  intros Hp Hc. unfold canonicalize_path. destruct (cache !! path) as [v|] eqn:Hv.
  - exists cache. split; [|done]. by rewrite (Hc _ _ Hv Hp).
  - assert (canonicalize_uncached realpath path cwd = canon path) as ->.
    { unfold canon, canonicalize_uncached. by rewrite Hp. }
    eexists. split; [done|]. destruct (_ <? _); [|done].
    intros k v. unfold CanonCache in *. rewrite lookup_insert. case_decide; [by intros [= <-]; subst|apply Hc].
Qed.

Lemma has_root_push cwd p : has_root cwd = true -> has_root (path_push cwd p) = true.
Proof.
  intros Hc. unfold path_push. destruct (has_root p) eqn:Hp; [done|].
  destruct cwd as [|c cwd]; [done|]. by destruct (_ || _).
Qed.

Lemma dep_query_abs cwd token : has_root cwd = true -> has_root (dep_query cwd token) = true.
Proof. intros Hc. unfold dep_query. destruct (has_root token) eqn:Ht; [done|]. by apply has_root_push. Qed.

(** The paths a list of tokens stands for, without the source. *)
Definition dep_of (src : NormalizedPath) (cwd : bytes) (tokens : list bytes) (p : NormalizedPath) : Prop :=
  p <> src /\ exists token, token ∈ tokens /\ token <> "" /\ p = canon (dep_query cwd token).

Lemma dep_of_cons src cwd token tokens p :
  dep_of src cwd (token :: tokens) p <->
    (p <> src /\ token <> "" /\ p = canon (dep_query cwd token)) \/ dep_of src cwd tokens p.
Proof.
  unfold dep_of. split.
  - intros (Hs & t & Ht & Hne & Hp). apply elem_of_cons in Ht as [->|Ht]; eauto 10.
  - intros [(Hs & Hne & Hp)|(Hs & t & Ht & Hne & Hp)]; (split; [done|]).
    + exists token. split; [by left|done].
    + exists t. split; [by right|done].
Qed.

Lemma resolve_tokens_ok tokens src cwd (seen : gset NormalizedPath) acc cache :
  has_root cwd = true -> canon_coherent cache -> NoDup acc -> (forall p, p ∈ seen <-> p ∈ acc) ->
  exists out cache',
    resolve_tokens realpath tokens src cwd seen acc cache = (out, cache') /\ canon_coherent cache' /\
    NoDup out /\ forall p, p ∈ out <-> p ∈ acc \/ dep_of src cwd tokens p.
Proof.
  intros Hcwd. revert seen acc cache. induction tokens as [|token tokens IH]; intros seen acc cache Hc Hnd Hseen.
  { exists acc, cache. split_and!; [done..|]. intros p. unfold dep_of. split; [by left|].
    intros [H|(_ & t & Ht & _)]; [done|]. by apply elem_of_nil in Ht. }
  cbn [resolve_tokens]. case_bool_decide as Hne.
  { destruct (IH seen acc cache Hc Hnd Hseen) as (out & cache' & -> & Hc' & Hn' & Ho).
    exists out, cache'. split_and!; [done..|]. intros p. rewrite Ho, dep_of_cons. tauto. }
  destruct (canonicalize_path_ok (dep_query cwd token) cwd cache (dep_query_abs _ _ Hcwd) Hc) as (c1 & -> & Hc1).
  case_bool_decide as Hs; [|case_bool_decide as Hin].
  - destruct (IH seen acc c1 Hc1 Hnd Hseen) as (out & cache' & -> & Hc' & Hn' & Ho).
    exists out, cache'. split_and!; [done..|]. intros p. rewrite Ho, dep_of_cons. intuition congruence.
  - destruct (IH seen acc c1 Hc1 Hnd Hseen) as (out & cache' & -> & Hc' & Hn' & Ho).
    exists out, cache'. split_and!; [done..|]. intros p. rewrite Ho, dep_of_cons. rewrite Hseen in Hin.
    intuition congruence.
  - rewrite Hseen in Hin.
    destruct (IH ({[canon (dep_query cwd token)]} ∪ seen) (acc ++ [canon (dep_query cwd token)]) c1 Hc1)
      as (out & cache' & -> & Hc' & Hn' & Ho).
    + apply NoDup_app. split_and!; [done| |apply NoDup_singleton]. intros x Hx ->%list_elem_of_singleton. done.
    + intros p. rewrite elem_of_union, elem_of_singleton, elem_of_app, list_elem_of_singleton, Hseen. tauto.
    + exists out, cache'. split_and!; [done..|]. intros p.
      rewrite Ho, dep_of_cons, elem_of_app, list_elem_of_singleton. intuition congruence.
Qed.

(** Parsing a well-formed file is resolving its tokens. *)
Lemma parse_rules target deps phony source cwd cache :
  dep_name_ok target = true -> has_char COLON target = false ->
  Forall (fun d => dep_name_ok d.2 = true) deps -> Forall (fun h => dep_name_ok h = true) phony ->
  has_root source = true -> has_root cwd = true -> canon_coherent cache ->
  exists out cache',
    parse_depfile realpath (make_rules target deps phony) source cwd cache =
      (inr (mkScan out [] false), cache') /\ canon_coherent cache' /\ NoDup out /\
    forall p, p ∈ out <-> dep_of (canon source) cwd (deps.*2 ++ ((fun h => h +:+ ":") <$> phony)) p.
Proof.
  intros Ht Hcol Hd Hp Hsrc Hcwd Hc. unfold parse_depfile. rewrite bool_decide_eq_false_2; cycle 1.
  { apply trim_not_blank. unfold make_rules. rewrite !has_char_app. simpl. by rewrite orb_true_r. }
  rewrite join_rules by done. unfold find_separator_colon. rewrite find_colon_skip; cycle 1.
  { apply (quote_all_chars (fun c => negb (bool_decide (c = COLON)))); [done..|].
    clear -Hcol. induction target as [|c t IH]; simpl in *; [done|].
    apply orb_false_iff in Hcol as [-> Hcol]. by apply IH. }
  { destruct deps as [|[[] d] deps]; simpl; [destruct phony|..]; done. }
  cbn [Nat.add]. rewrite str_skip_app, split_words; cycle 1.
  { apply Forall_app. split; apply Forall_fmap; eapply Forall_impl; try eassumption; intros x Hx.
    - unfold word_ok, compose. simpl. by rewrite Hx, andb_true_r; destruct x.1.
    - unfold word_ok, compose. simpl. apply dep_name_ok_spec in Hx as (H1 & H2 & H3). apply dep_name_ok_spec.
      split_and!; [by destruct x|by rewrite all_chars_app, H2|by apply ends_bs_app]. }
  destruct (canonicalize_path_ok source cwd cache Hsrc Hc) as (c1 & -> & Hc1).
  destruct (resolve_tokens_ok (((dep_word <$> deps) ++ (phony_word <$> phony)).*2) (canon source) cwd ∅ [] c1
    Hcwd Hc1 (NoDup_nil_2)) as (out & c2 & -> & Hc2 & Hnd & Ho); [set_solver|].
  exists out, c2. split_and!; [done..|]. intros p. rewrite Ho, fmap_app, <- !list_fmap_compose.
  rewrite elem_of_nil. unfold compose. simpl. tauto.
Qed.
End scan.

(** C7: dependency files round trip.  For a rule quoted the way GCC and Clang
    quote it (spaces, tabs, [#], [$], runs of backslashes, continued lines), for
    any target and file names without line breaks, [parse_depfile] succeeds and
    its scan holds every listed file except the source, each exactly once and
    resolved to its canonical path, and nothing else; the memo table of
    canonical paths stays truthful. *)
Theorem depfile_roundtrip (realpath : bytes -> option bytes) (target : bytes) (deps : list (bool * bytes))
    (source cwd : bytes) (cache : CanonCache) :
  dep_name_ok target = true -> has_char COLON target = false ->
  Forall (fun d => dep_name_ok d.2 = true) deps ->
  has_root source = true -> has_root cwd = true -> canon_coherent realpath cache ->
  exists out cache',
    parse_depfile realpath (make_rules target deps []) source cwd cache = (inr (mkScan out [] false), cache') /\
    canon_coherent realpath cache' /\ NoDup out /\
    forall p, p ∈ out <->
      p <> canon realpath source /\ exists d, d ∈ deps.*2 /\ p = canon realpath (dep_query cwd d).
Proof.
  intros Ht Hcol Hd Hsrc Hcwd Hc.
  destruct (parse_rules realpath target deps [] source cwd cache) as (out & c' & Hp & Hc' & Hnd & Ho);
    [done..|]. exists out, c'. split_and!; [done..|]. intros p. rewrite Ho. unfold dep_of.
  rewrite app_nil_r. split; intros [Hs (d & Hin & H)]; (split; [done|]); exists d.
  - by destruct H.
  - split_and!; [done| |done]. apply list_elem_of_fmap in Hin as (x & -> & Hx).
    rewrite Forall_forall in Hd. by apply Hd, dep_name_ok_spec in Hx as [? _].
Qed.

Definition demo_names : list (bool * bytes) :=
  [(false, "src/a.c"); (false, "my dir/b.h"); (true, "w\ \#\$/c.h"); (true, "/usr/include/d.h");
   (false, "my dir/b.h")].

Lemma depfile_roundtrip_witness :
  exists out cache',
    parse_depfile (fun _ => None) (make_rules "build/a.o" demo_names []) "/w/src/a.c" "/w" ∅ =
      (inr (mkScan out [] false), cache') /\ NoDup out /\
    out = ["/w/my dir/b.h"; "/w/w\ \#\$/c.h"; "/usr/include/d.h"].
Proof.
  destruct (depfile_roundtrip (fun _ => None) "build/a.o" demo_names "/w/src/a.c" "/w" ∅)
    as (out & c' & Hp & _ & Hnd & _);
    [reflexivity|reflexivity|repeat constructor|reflexivity|reflexivity|apply canon_coherent_empty|].
  exists out, c'. split; [exact Hp|]. split; [exact Hnd|].
  assert (fst (parse_depfile (fun _ => None) (make_rules "build/a.o" demo_names []) "/w/src/a.c" "/w" ∅) =
    inr (mkScan ["/w/my dir/b.h"; "/w/w\ \#\$/c.h"; "/usr/include/d.h"] [] false)) as H
    by (vm_compute; reflexivity).
  rewrite Hp in H. cbn [fst] in H. injection H as H. exact H.
Defined.

(** The phony rules of -MP are read as headers.  Parsing a file with a
    phony rule for header [h] succeeds and lists [h:] among the includes; as
    that file has no hash, [update] leaves the context without an artifact, so
    a build that passes -MP never gets a hit from such a scan. *)
Theorem phony_rule_stays_cold {B3 : Blake3} (realpath : bytes -> option bytes) (target : bytes)
    (deps : list (bool * bytes)) (phony : list bytes) (h source cwd : bytes) (cache : CanonCache)
    (now : Z) (key : ContextKey) (get_hash : bytes -> option ContentHash) (g : DepGraph) :
  dep_name_ok target = true -> has_char COLON target = false ->
  Forall (fun d => dep_name_ok d.2 = true) deps -> Forall (fun x => dep_name_ok x = true) phony ->
  has_root source = true -> has_root cwd = true -> canon_coherent realpath cache ->
  h ∈ phony ->
  let file := canon realpath (dep_query cwd (h +:+ ":")) in
  file <> canon realpath source -> get_hash file = None ->
  exists scan cache',
    parse_depfile realpath (make_rules target deps phony) source cwd cache = (inr scan, cache') /\
    file ∈ resolved scan /\ (graph_update now key scan get_hash g).2 = None.
Proof.
  intros Ht Hcol Hd Hp Hsrc Hcwd Hc Hh file Hne Hhash.
  destruct (parse_rules realpath target deps phony source cwd cache) as (out & c' & Heq & _ & _ & Ho); [done..|].
  exists (mkScan out [] false), c'.
  assert (file ∈ out) as Hin.
  { apply Ho. split; [done|]. exists (h +:+ ":"). split_and!; [|by destruct h|done].
    apply elem_of_app. right. apply list_elem_of_fmap. eauto. }
  split_and!; [done..|]. unfold graph_update.
  destruct (resolve_instance_key g key) as [k|] eqn:Hr; [|unfold update_with_env; by rewrite Hr].
  destruct (contexts g !! k) as [e|] eqn:Hk; [|unfold update_with_env; by rewrite Hr, Hk].
  destruct (update_spec now key (mkScan out [] false) get_hash [] (fun _ => None) g k e Hr Hk) as [_ Hno].
  rewrite Hno; [done|]. intros [[fh Hf] _]. apply hashes_of_Some in Hf as [Hps Hall].
  assert (file ∈ fh.*1) as Hfile.
  { rewrite Hps. unfold entry_files. simpl. apply elem_of_cons. right. apply elem_of_app. by left. }
  apply list_elem_of_fmap in Hfile as ([p x] & -> & Hx). rewrite Forall_forall in Hall.
  specialize (Hall _ Hx). simpl in *. congruence.
Qed.

Lemma phony_rule_stays_cold_witness :
  exists scan cache',
    parse_depfile (fun _ => None) (make_rules "a.o" [(false, "src/a.c"); (false, "include/a.h")] ["include/a.h"])
      "/w/src/a.c" "/w" ∅ = (inr scan, cache') /\
    "/w/include/a.h:" ∈ resolved scan /\
    (graph_update (B3 := toy_blake3) 1001 demo_hash scan (demo_hashes "/w") demo_registered.1).2 = None /\
    is_Some (graph_update (B3 := toy_blake3) 1001 demo_hash (mkScan ["/w/include/a.h"] [] false)
               (demo_hashes "/w") demo_registered.1).2.
Proof.
  destruct (phony_rule_stays_cold (B3 := toy_blake3) (fun _ => None) "a.o"
    [(false, "src/a.c"); (false, "include/a.h")] ["include/a.h"] "include/a.h" "/w/src/a.c" "/w" ∅ 1001 demo_hash
    (demo_hashes "/w") demo_registered.1) as (scan & c' & H1 & H2 & H3);
    [reflexivity|reflexivity|repeat constructor|repeat constructor|reflexivity|reflexivity
    |apply canon_coherent_empty|by left|vm_compute; discriminate|vm_compute; reflexivity|].
  exists scan, c'. split; [exact H1|]. split; [|split; [exact H3|vm_compute; by eexists]].
  change "/w/include/a.h:" with (canon (fun _ => None) (dep_query "/w" ("include/a.h" +:+ ":"))). exact H2.
Defined.

(** ** Termination *)

Lemma take_run_length s : (String.length (take_run s).2 <= String.length s)%nat.
Proof.
  induction s as [|c s IH]; simpl; [done|]. case_bool_decide; [|done].
  destruct (take_run s) as [n r]. simpl in *. lia.
Qed.

(** The tokenizer of dependency files always finishes.  Every turn of its
    loop consumes at least one character, so for any text one turn more than it
    has characters is enough, whatever quoting or broken escapes it contains. *)
Theorem split_terminates (chars current : bytes) (tokens : list bytes) (fuel : nat) :
  (String.length chars < fuel)%nat -> is_Some (split_loop fuel chars current tokens).
Proof.
  revert chars current tokens. induction fuel as [|fuel IH]; intros chars current tokens Hf; [lia|].
  destruct chars as [|ch rest]; [by eexists|]. cbn [split_loop]. simpl in Hf.
  destruct (bool_decide (ch = BS)).
  - pose proof (take_run_length rest) as Hr. destruct (take_run rest) as [n r]. simpl in Hr.
    destruct r as [|next r]; [apply IH; simpl; lia|]. simpl in Hr.
    destruct (_ || _); [destruct (Nat.odd _); apply IH; lia|].
    destruct (bool_decide (next = HASH)); apply IH; simpl; lia.
  - destruct (bool_decide (ch = DOLLAR)).
    + destruct rest as [|d r]; [apply IH; simpl; lia|]. simpl in Hf.
      destruct (bool_decide (d = DOLLAR)); apply IH; simpl; lia.
    + destruct (bool_decide (ch ∈ _)); apply IH; lia.
Qed.

Lemma split_terminates_witness :
  let text := "a\\\ b $ \# $$" +:+ String BS "" in
  is_Some (split_loop 16 text "" []) /\ split_and_unescape text = ["a\ b"; "$"; "#"; "$\"].
Proof. split; [apply split_terminates; simpl; lia|vm_compute; reflexivity]. Defined.

(** ** Where the file is read and written *)

Definition strategy_path (s : DepfileStrategy) : option NormalizedPath :=
  match s with
  | UserSpecified p _ | UserDefault p _ => Some p
  | _ => None
  end.

(** The two places that decide where a dependency file lives agree.  For a
    compiler that supports dependency files, the file the miss path reads and
    keeps is the one the hit path will write back; flags are injected exactly
    when the user asked for none, naming the very file the parser then reads, a
    fresh one each time while the counter has not wrapped. *)
Theorem depfile_destination_agrees (use_mmd : bool) (dep_flags : UserDepFlags) (output_file tmpdir : bytes)
    (pid counter : Z) :
  let '(args, strategy, counter') :=
    prepare_depfile_with_mmd use_mmd true dep_flags output_file tmpdir pid counter in
  strategy_path strategy = user_depfile_destination dep_flags output_file /\
  (args = [] <-> (depfile_to_stdout dep_flags = true \/ is_Some (user_depfile_destination dep_flags output_file))) /\
  (forall p, strategy = Injected p \/ strategy = InjectedMmd p ->
     exists flag, args = [flag; "-MF"; p] /\
       p = injected_path output_file tmpdir pid counter /\ counter' = wrap64 (counter + 1)).
Proof.
  unfold prepare_depfile_with_mmd, user_depfile_destination. simpl.
  destruct (depfile_to_stdout dep_flags); [split_and!; [done|split; [by left|done]|by intros p [|]]|].
  destruct (mf_path dep_flags) as [mf|]; [split_and!; [done|split; [by right|done]|by intros p [|]]|].
  destruct (has_md dep_flags); [split_and!; [done|split; [by right|done]|by intros p [|]]|].
  destruct use_mmd; (split_and!; [done|split; [done|intros [|[? ?]]; done]|]); intros p [|]; simplify_eq; eauto.
Qed.

(** ** Unions of scans *)

Lemma insert_new_spec seen l :
  NoDup (insert_new seen l) /\ forall x, x ∈ insert_new seen l <-> x ∈ l /\ x ∉ seen.
Proof.
  revert seen. induction l as [|y l IH]; intros seen; simpl.
  { split; [constructor|]. intros x. rewrite elem_of_nil. tauto. }
  case_bool_decide as Hy.
  - destruct (IH seen) as [Hn Hx]. split; [done|]. intros x. rewrite Hx, elem_of_cons.
    split; [tauto|]. intros [[->|?] ?]; [done|tauto].
  - destruct (IH ({[y]} ∪ seen)) as [Hn Hx]. split.
    + constructor; [|done]. rewrite Hx, elem_of_union, elem_of_singleton. tauto.
    + intros x. rewrite !elem_of_cons, Hx, elem_of_union, elem_of_singleton.
      destruct (decide (x = y)) as [->|]; tauto.
Qed.

(** Merging scans loses nothing.  The merged scan resolves exactly the
    files either scan resolves, without introducing a duplicate, and keeps every
    unresolved name; the conservative merge also forbids direct hits as soon as
    the static scan left anything unresolved. *)
Theorem merge_is_union (depfile static_scan : ScanResult) :
  let m := merge_scan_results depfile static_scan in
  let c := merge_scan_results_conservative depfile static_scan in
  (forall p, p ∈ resolved m <-> p ∈ resolved depfile \/ p ∈ resolved static_scan) /\
  (forall u, u ∈ unresolved m <-> u ∈ unresolved depfile \/ u ∈ unresolved static_scan) /\
  (NoDup (resolved depfile) -> NoDup (resolved m)) /\
  resolved c = resolved m /\ unresolved c = unresolved m /\
  (has_computed c = false <->
     has_computed depfile = false /\ has_computed static_scan = false /\ unresolved static_scan = []).
Proof.
  intros m c.
  assert (forall a b : list bytes, forall p,
    p ∈ a ++ insert_new (list_to_set a) b <-> p ∈ a \/ p ∈ b) as Hu.
  { intros a b p. rewrite elem_of_app, (proj2 (insert_new_spec _ b) p), elem_of_list_to_set.
    destruct (decide (p ∈ a)); tauto. }
  split_and!; [apply Hu|apply Hu| |done..|].
  - intros Hn. apply NoDup_app. split_and!; [done| |apply insert_new_spec].
    intros x Hx Hi. apply (proj2 (insert_new_spec _ _)) in Hi as [_ Hi]. by rewrite elem_of_list_to_set in Hi.
  - unfold c. simpl. rewrite !orb_false_iff, negb_false_iff, bool_decide_eq_true. tauto.
Qed.

(** The memo table is keyed by the spelling of a path and not by the directory
    it is relative to: the second answer for a relative path that does not
    resolve is the first one. *)
Lemma canonicalize_relative_stale (realpath : bytes -> option bytes) (path cwd1 cwd2 : bytes) (cache : CanonCache) :
  cache !! path = None -> Z.of_nat (size cache) < CANONICALIZE_CACHE_MAX_ENTRIES ->
  let '(first, cache1) := canonicalize_path realpath path cwd1 cache in
  canonicalize_path realpath path cwd2 cache1 = (first, cache1).
Proof.
  intros Hn Hs. unfold canonicalize_path at 1. rewrite Hn.
  rewrite (proj2 (Z.ltb_lt _ _) Hs). unfold canonicalize_path, CanonCache in *. by rewrite lookup_insert_eq.
Qed.
