(* ===== verification/CompileCommands.v ===== *)
(** * Compilation databases ([zccache-depgraph/src/compile_commands.rs])

    The splitter of shell-style commands ([split_command] of [args.rs]), the
    entries of a [compile_commands.json] and the bulk registration of their
    contexts ([ingest_compile_commands] of [graph/maintenance.rs]).  The JSON
    reader is serde's; the model starts at the deserialized entries. *)

From stdpp Require Import list strings gmap.
From Stdlib Require Import Lia.
From S2P Require Import Prelude Path Hash RustStr ContextKeys DepGraph DepGraphIndex GnuArgs.

(** ** [split_command] *)

Definition SQUOTE : ascii := ascii_of_nat 39.
Definition DQUOTE : ascii := ascii_of_nat 34.
Definition BACKSLASH : ascii := ascii_of_nat 92.

(** The number of bytes of the white-space character a string starts with, or
    zero ([char::is_whitespace] on UTF-8). *)
Definition ws_len (s : bytes) : nat :=
  match s with
  | EmptyString => 0
  | String a s1 =>
      if ws_ascii (byte_val a) then 1
      else match s1 with
           | EmptyString => 0
           | String b s2 =>
               if ws2 (byte_val a) (byte_val b) then 2
               else match s2 with
                    | EmptyString => 0
                    | String c _ => if ws3 (byte_val a) (byte_val b) (byte_val c) then 3 else 0
                    end
           end
  end.

Definition flush_arg (current : bytes) (args : list bytes) : list bytes :=
  if bool_decide (current = "") then args else args ++ [current].

Inductive Quote := Unquoted | InSingle | InDouble.

(** The loop: the open quote, the argument being read, the arguments before it. *)
Fixpoint split_chars (s : bytes) (q : Quote) (current : bytes) (args : list bytes) : list bytes :=
  match s with
  | EmptyString => flush_arg current args
  | String ch s1 =>
      match q with
      | InSingle => if bool_decide (ch = SQUOTE) then split_chars s1 Unquoted current args else split_chars s1 q (current +:+ String ch "") args
      | InDouble =>
          if bool_decide (ch = DQUOTE) then split_chars s1 Unquoted current args
          else if bool_decide (ch = BACKSLASH) then
            match s1 with
            | String next s2 =>
                if bool_decide (next = DQUOTE) || bool_decide (next = BACKSLASH)
                then split_chars s2 q (current +:+ String next "") args else split_chars s1 q (current +:+ String ch "") args
            | EmptyString => split_chars s1 q current args
            end
          else split_chars s1 q (current +:+ String ch "") args
      | Unquoted =>
          if bool_decide (ch = SQUOTE) then split_chars s1 InSingle current args
          else if bool_decide (ch = DQUOTE) then split_chars s1 InDouble current args
          else match ws_len s with
          | O => split_chars s1 q (current +:+ String ch "") args
          | 1%nat => split_chars s1 q "" (flush_arg current args)
          | 2%nat =>
              match s1 with
              | String _ s2 => split_chars s2 q "" (flush_arg current args)
              | EmptyString => split_chars s1 q (current +:+ String ch "") args
              end
          | _ =>
              match s1 with
              | String _ (String _ s3) => split_chars s3 q "" (flush_arg current args)
              | _ => split_chars s1 q (current +:+ String ch "") args
              end
          end
      end
  end.

Definition split_command (command : bytes) : list bytes := split_chars command Unquoted "" [].

(** ** Entries *)

Record CompileCommand := mkCommand {
  cmd_directory : NormalizedPath;
  cmd_file : NormalizedPath;
  cmd_command : option bytes;
  cmd_arguments : option (list bytes);
  cmd_output : option NormalizedPath;
}.

Definition args_without_compiler (cmd : CompileCommand) : list bytes :=
  match cmd_arguments cmd with
  | Some args => tail args
  | None =>
      match cmd_command cmd with
      | Some c => tail (split_command c)
      | None => []
      end
  end.

Definition cmd_compiler (cmd : CompileCommand) : option NormalizedPath :=
  match cmd_arguments cmd with
  | Some args => NormalizedPath_new <$> head args
  | None =>
      match cmd_command cmd with
      | Some c => NormalizedPath_new <$> head (split_command c)
      | None => None
      end
  end.

Definition cmd_parse (fs : bytes -> option Node) (cmd : CompileCommand) : ParsedArgs :=
  let p := parse_compile_args fs (args_without_compiler cmd) (cmd_directory cmd) in
  let source :=
    if bool_decide (pa_source_file p = "") then
      if has_root (cmd_file cmd) then cmd_file cmd else np_join (cmd_directory cmd) (cmd_file cmd)
    else pa_source_file p in
  mkParsed source (pa_output_file p) (pa_include_search p) (pa_defines p) (pa_undefines p) (pa_flags p)
    (pa_force_includes p) (cmd_compiler cmd) (pa_dep_flags p) (pa_unknown_flags p).

(** ** Registration ([ingest_compile_commands]) *)

(** The [for] loop that appends the system directories not yet listed. *)
Definition merge_system (dirs system_includes : list NormalizedPath) : list NormalizedPath :=
  fold_left (fun acc p => if bool_decide (p ∈ acc) then acc else acc ++ [p]) system_includes dirs.

Section ingest.
Context {B3 : Blake3} (fs : bytes -> option Node) (hash_file : bytes -> option ContentHash).
Context (host_salt : bytes) (equivalents_var : option bytes).

Definition ingest_context (system_includes : list NormalizedPath) (cmd : CompileCommand) : CompileContext :=
  let p := cmd_parse fs cmd in
  let compiler_hash := default (hash_bytes "unknown-compiler") (pa_compiler p ≫= hash_file) in
  let ctx := cc_from_parsed_args p compiler_hash in
  let s := include_search ctx in
  mkContext (cc_source_file ctx)
    (mkSearch (iquote s) (user s) (merge_system (system s) system_includes) (after s))
    (cc_defines ctx) (cc_undefines ctx) (cc_flags ctx) (force_includes ctx) (cc_unknown_flags ctx)
    (cc_compiler_hash ctx).

(** Every command with the clock reading of its registration. *)
Fixpoint ingest_compile_commands (commands : list (Z * CompileCommand))
    (system_includes : list NormalizedPath) (g : DepGraph) : DepGraph * list ContextKey :=
  match commands with
  | [] => (g, [])
  | (now, cmd) :: rest =>
      let '(g, key) := graph_register host_salt equivalents_var now (ingest_context system_includes cmd) g in
      let '(g, keys) := ingest_compile_commands rest system_includes g in
      (g, key :: keys)
  end.
End ingest.

(** ** Quoted commands are split into their arguments *)

(** An argument between double quotes. *)
Fixpoint escape (s : bytes) : bytes :=
  match s with
  | EmptyString => ""
  | String c s' =>
      if bool_decide (c = DQUOTE) || bool_decide (c = BACKSLASH)
      then String BACKSLASH (String c (escape s')) else String c (escape s')
  end.
Definition dquote (s : bytes) : bytes := String DQUOTE (escape s +:+ String DQUOTE "").
Definition shell_command (args : list bytes) : bytes :=
  concat_bytes ((fun a => dquote a +:+ " ") <$> args).

Lemma split_escaped s rest cur args :
  split_chars (escape s +:+ String DQUOTE rest) InDouble cur args =
    split_chars rest Unquoted (cur +:+ s) args.
Proof.
  revert cur. induction s as [|c s IH]; intros cur; simpl; [by rewrite string_app_nil_r|].
  replace (cur +:+ String c s) with ((cur +:+ String c "") +:+ s) by (by rewrite string_app_assoc).
  destruct (bool_decide_reflect (c = DQUOTE)) as [->|Hd]; [apply IH|].
  destruct (bool_decide_reflect (c = BACKSLASH)) as [->|Hb]; [apply IH|]. simpl.
  rewrite !bool_decide_eq_false_2 by done. apply IH.
Qed.

(** A command string splits into the arguments it was quoted from.  Any
    argument vector, with every argument between double quotes and embedded
    quotes and backslashes escaped, comes back in order, except that empty
    arguments disappear. *)
Theorem split_command_roundtrip (args : list bytes) :
  split_command (shell_command args) = filter (fun a => a <> "") args.
Proof.
  unfold split_command, shell_command. rewrite <- (app_nil_l (filter _ args)). generalize (@nil bytes) as acc.
  induction args as [|a args IH]; intros acc; cbn [fmap list_fmap concat_bytes]; [by rewrite app_nil_r|].
  unfold dquote. rewrite !string_app_assoc. simpl. rewrite string_app_assoc. simpl.
  rewrite split_escaped. simpl. rewrite IH. unfold flush_arg. rewrite filter_cons.
  destruct (decide (a = "")) as [->|Ha]; simpl.
  - done.
  - rewrite bool_decide_eq_false_2, decide_True by done. by rewrite <- (assoc_L (++)).
Qed.

(** ** Ingestion *)

Lemma merge_system_spec dirs sys :
  (forall p, p ∈ merge_system dirs sys <-> p ∈ dirs \/ p ∈ sys) /\ exists more, merge_system dirs sys = dirs ++ more.
Proof.
  unfold merge_system. revert dirs. induction sys as [|s sys IH]; intros dirs; simpl.
  { split; [intros p; rewrite elem_of_nil; tauto|]. exists []. by rewrite app_nil_r. }
  case_bool_decide as Hs.
  - destruct (IH dirs) as [Hp [more Hm]]. split; [|eauto]. intros p. rewrite Hp, elem_of_cons.
    split; [tauto|]. intros [?|[->|?]]; tauto.
  - destruct (IH (dirs ++ [s])) as [Hp [more Hm]]. split.
    + intros p. rewrite Hp, elem_of_app, list_elem_of_singleton, elem_of_cons. tauto.
    + exists (s :: more). by rewrite Hm, <- (assoc_L (++)).
Qed.

Lemma graph_register_ok {B3 : Blake3} host_salt eqv now ctx g :
  (graph_register host_salt eqv now ctx g).2 = cc_context_key host_salt ctx /\
  (graph_wf (max_equivalent_contexts eqv) g ->
   graph_wf (max_equivalent_contexts eqv) (graph_register host_salt eqv now ctx g).1).
Proof.
  unfold graph_register, register_with_root, register_with_root_result, register_with_root_and_salt_result.
  set (key := compute_context_key_with _ _ _ _ _). pose proof (register_key_wf eqv now key ctx None g) as Hwf.
  destruct (register_with_key_and_root_result eqv now key ctx None g) as [g' r] eqn:Hr. split; [|exact Hwf].
  simpl. unfold register_with_key_and_root_result, register_context_entry in Hr.
  destruct (contexts (graph_mark_dirty g) !! _); [by injection Hr as _ <-|].
  destruct (if max_equivalent_contexts eqv <? _ then _ else _) in Hr. by injection Hr as _ <-.
Qed.

(** Ingesting a compilation database registers every command.  The keys
    returned are, in order, the context keys of the parsed commands with the
    system directories appended behind their own (none twice, none lost), and
    the indexes of the graph stay consistent. *)
Theorem ingest_registers {B3 : Blake3} (fs : bytes -> option Node) (hash_file : bytes -> option ContentHash)
    (host_salt : bytes) (eqv : option bytes) (commands : list (Z * CompileCommand))
    (system_includes : list NormalizedPath) (g : DepGraph) :
  graph_wf (max_equivalent_contexts eqv) g ->
  let r := ingest_compile_commands fs hash_file host_salt eqv commands system_includes g in
  graph_wf (max_equivalent_contexts eqv) r.1 /\
  r.2 = (fun c => cc_context_key host_salt (ingest_context fs hash_file system_includes c.2)) <$> commands /\
  forall c, c ∈ commands ->
    let own := system (pa_include_search (cmd_parse fs c.2)) in
    let dirs := system (include_search (ingest_context fs hash_file system_includes c.2)) in
    (exists more, dirs = own ++ more) /\ (forall p, p ∈ dirs <-> p ∈ own \/ p ∈ system_includes).
Proof.
  assert (forall c : Z * CompileCommand,
    let own := system (pa_include_search (cmd_parse fs c.2)) in
    let dirs := system (include_search (ingest_context fs hash_file system_includes c.2)) in
    (exists more, dirs = own ++ more) /\ (forall p, p ∈ dirs <-> p ∈ own \/ p ∈ system_includes)) as Hd.
  { intros c own dirs. destruct (merge_system_spec own system_includes) as [H1 H2]. done. }
  revert g. induction commands as [|[now cmd] commands IH]; intros g Hwf; [simpl; split_and!; [done|done|intros c _; apply Hd]|].
  cbn [ingest_compile_commands]. destruct (graph_register_ok host_salt eqv now
    (ingest_context fs hash_file system_includes cmd) g) as [Hk Hg].
  destruct (graph_register host_salt eqv now _ g) as [g1 key]. simpl in Hk, Hg. specialize (IH g1 (Hg Hwf)).
  destruct (ingest_compile_commands fs hash_file host_salt eqv commands system_includes g1) as [g2 keys].
  destruct IH as (Hwf2 & Hks & _). simpl in Hks. split_and!; [done|simpl; by rewrite Hk, Hks|]. intros c _. apply Hd.
Qed.

Definition demo_commands : list (Z * CompileCommand) :=
  [(5, mkCommand "/b" "../src/foo.c"
         (Some (shell_command ["cc"; "-I../my src"; "-DN"; "-isystem"; "/opt"; "-c"; "../src/foo.c"; "-o"; "foo.o"]))
         None None);
   (6, mkCommand "/b" "x.h" None (Some ["cc"; "-E"]) None)].

Lemma ingest_registers_witness :
  let r := ingest_compile_commands (B3 := toy_blake3) no_files (fun _ => None) "salt" None demo_commands
             ["/usr/include"; "/opt"] graph_new in
  graph_wf (max_equivalent_contexts None) r.1 /\ length r.2 = 2%nat /\
  (let ctx := ingest_context (B3 := toy_blake3) no_files (fun _ => None) ["/usr/include"; "/opt"] in
   (include_search <$> (ctx <$> demo_commands.*2)) =
     [mkSearch [] ["/my src"] ["/opt"; "/usr/include"] []; mkSearch [] [] ["/usr/include"; "/opt"] []]).
Proof.
  intros r.
  destruct (ingest_registers (B3 := toy_blake3) no_files (fun _ => None) "salt" None demo_commands
    ["/usr/include"; "/opt"] graph_new (empty_wf None graph_new eq_refl eq_refl eq_refl eq_refl)) as (Hwf & Hk & _).
  split; [exact Hwf|]. split; [|vm_compute; reflexivity].
  unfold r. rewrite Hk. reflexivity.
Defined.
