(* ===== verification/IncludeLexer.v ===== *)
(** * The include lexer ([zccache-depgraph/src/scanner/lex.rs])

    A single pass over the bytes of a source file that finds its [#include]
    directives: backslash-newline splices are looked through, comments are
    tracked, and only lines that may be an include are copied out and parsed by
    [parse_include_from_line] ([scanner.rs]).

    The reference is the textbook order of the phases: remove the splices,
    remove the comments, cut into logical lines, parse each line.  The theorem
    at the end relates the two.

    The cursor [bytes[pos..]] is the rest of the text.  The line counter is a
    32-bit integer in the source; a file has fewer lines than that.  Whether a
    character outside ASCII is alphanumeric is the Unicode table of the standard
    library: [uni_alnum s] is the byte length of the alphanumeric character [s]
    starts with, or zero. *)

From stdpp Require Import list strings.
From Stdlib Require Import Lia.
From S2P Require Import Prelude Path RustStr ContextKeys DepGraph Depfile.

Definition STAR : ascii := "*"%char.
Definition VT : ascii := ascii_of_nat 11.
Definition FF : ascii := ascii_of_nat 12.
Definition DQ : ascii := ascii_of_nat 34.

Definition str_head (s : bytes) : option ascii := match s with String c _ => Some c | EmptyString => None end.
Definition str_tail (s : bytes) : bytes := match s with String _ s' => s' | EmptyString => "" end.
Definition is_char (c : ascii) (o : option ascii) : bool := bool_decide (o = Some c).

(** ** The cursor *)

Record Lexer := mkLexer { lx_rest : bytes; lx_line : Z }.

(** [splice_len] of the text at the cursor. *)
Definition splice_len (s : bytes) : nat :=
  match s with
  | String a (String b s2) =>
      if bool_decide (a = BS) then
        if bool_decide (b = LF) then 2%nat
        else if bool_decide (b = CR) then if is_char LF (str_head s2) then 3%nat else 2%nat
        else 0%nat
      else 0%nat
  | _ => 0%nat
  end.

(** The loop of [peek]: consume splices, counting the newlines in them. *)
Fixpoint skip_splices (line : Z) (s : bytes) : Z * bytes :=
  match s with
  | String a s1 =>
      if bool_decide (a = BS) then
        match s1 with
        | String b s2 =>
            if bool_decide (b = LF) then skip_splices (line + 1) s2
            else if bool_decide (b = CR) then
              match s2 with
              | String c s3 => if bool_decide (c = LF) then skip_splices (line + 1) s3 else skip_splices line s2
              | EmptyString => (line, "")
              end
            else (line, s)
        | EmptyString => (line, s)
        end
      else (line, s)
  | EmptyString => (line, s)
  end.

(** [peek] leaves the cursor behind the splices; the byte is the head of the
    rest. *)
Definition lx_peek (lx : Lexer) : Lexer :=
  let '(line, s) := skip_splices (lx_line lx) (lx_rest lx) in mkLexer s line.
Definition lx_byte (lx : Lexer) : option ascii := str_head (lx_rest lx).
Definition lx_bump (lx : Lexer) : Lexer := mkLexer (str_tail (lx_rest lx)) (lx_line lx).
Definition peek_next (lx : Lexer) : option ascii := str_head (skip_splices 0 (str_tail (lx_rest lx))).2.
Definition bump_pair (lx : Lexer) : Lexer := lx_bump (lx_peek (lx_bump lx)).

(** [memchr3] from the cursor. *)
Fixpoint seek_bytes (set : list ascii) (s : bytes) : bytes :=
  match s with
  | EmptyString => ""
  | String c s' => if bool_decide (c ∈ set) then s else seek_bytes set s'
  end.
Definition seek3 (set : list ascii) (lx : Lexer) : Lexer := mkLexer (seek_bytes set (lx_rest lx)) (lx_line lx).

Definition skip_backslash (lx : Lexer) : Lexer :=
  match splice_len (lx_rest lx) with
  | O => lx_bump lx
  | len =>
      let consumed := String.substring 0 len (lx_rest lx) in
      mkLexer (str_skip len (lx_rest lx))
        (lx_line lx + if is_char LF (str_head (str_skip (len - 1) consumed)) then 1 else 0)
  end.

(** ** Comments and directives.  Every turn of these loops consumes a byte: the
    length of the text is fuel enough. *)

Fixpoint skip_block_comment (fuel : nat) (lx : Lexer) : bool * Lexer :=
  match fuel with
  | O => (false, lx)
  | S fuel' =>
      let lx := seek3 [LF; STAR; BS] lx in
      match lx_byte lx with
      | None => (false, lx)
      | Some byte =>
          if bool_decide (byte = LF) then (false, lx)
          else if bool_decide (byte = BS) then skip_block_comment fuel' (skip_backslash lx)
          else if is_char slash (peek_next lx) then (true, bump_pair lx)
          else skip_block_comment fuel' (lx_bump lx)
      end
  end.

Fixpoint skip_line_comment (fuel : nat) (lx : Lexer) : Lexer :=
  match fuel with
  | O => lx
  | S fuel' =>
      let lx := seek3 [LF; BS; BS] lx in
      match lx_byte lx with
      | None => lx
      | Some byte => if bool_decide (byte = LF) then lx else skip_line_comment fuel' (skip_backslash lx)
      end
  end.

Fixpoint skip_rest_of_line (fuel : nat) (lx : Lexer) : bool * Lexer :=
  match fuel with
  | O => (false, lx)
  | S fuel' =>
      let lx := seek3 [LF; slash; BS] lx in
      match lx_byte lx with
      | None => (false, lx)
      | Some byte =>
          if bool_decide (byte = LF) then (false, lx)
          else if bool_decide (byte = BS) then skip_rest_of_line fuel' (skip_backslash lx)
          else if is_char slash (peek_next lx) then (false, skip_line_comment fuel' lx)
          else if is_char STAR (peek_next lx) then
            match skip_block_comment fuel' (bump_pair lx) with
            | (false, lx) => (true, lx)
            | (true, lx) => skip_rest_of_line fuel' lx
            end
          else skip_rest_of_line fuel' (lx_bump lx)
      end
  end.

Fixpoint collect_directive (fuel : nat) (lx : Lexer) (out : bytes) : bool * bytes * Lexer :=
  match fuel with
  | O => (false, out, lx)
  | S fuel' =>
      let lx := lx_peek lx in
      match lx_byte lx with
      | None => (false, out, lx)
      | Some byte =>
          if bool_decide (byte = LF) then (false, out, lx)
          else if bool_decide (byte = slash) then
            if is_char slash (peek_next lx) then (false, out, skip_line_comment fuel' lx)
            else if is_char STAR (peek_next lx) then
              match skip_block_comment fuel' (bump_pair lx) with
              | (false, lx) => (true, out, lx)
              | (true, lx) => collect_directive fuel' lx out
              end
            else collect_directive fuel' (lx_bump lx) (out +:+ String byte "")
          else collect_directive fuel' (lx_bump lx) (out +:+ String byte "")
      end
  end.

Inductive LineStart := IncludeCandidate | Other | Empty.

(** [hash_may_start_include], from the byte after the [#]. *)
Fixpoint hash_may_start_include (s : bytes) : bool :=
  match s with
  | EmptyString => false
  | String byte s' =>
      if bool_decide (byte ∈ [SP; TAB; VT; FF]) then hash_may_start_include s'
      else bool_decide (byte ∈ ["i"%char; slash; BS])
  end.

Fixpoint line_start (fuel : nat) (lx : Lexer) (in_block : bool) : LineStart * bool * Lexer :=
  match fuel with
  | O => (Empty, in_block, lx)
  | S fuel' =>
      let '(closed, lx) := if in_block then skip_block_comment fuel' lx else (true, lx) in
      if negb closed then (Empty, true, lx)
      else
        let lx := lx_peek lx in
        match lx_byte lx with
        | None => (Empty, false, lx)
        | Some byte =>
            if bool_decide (byte = LF) then (Empty, false, lx)
            else if bool_decide (byte ∈ [SP; TAB; CR; VT; FF]) then line_start fuel' (lx_bump lx) false
            else if bool_decide (byte = slash) && is_char STAR (peek_next lx)
            then line_start fuel' (bump_pair lx) true
            else if bool_decide (byte = "#"%char)
            then ((if hash_may_start_include (str_tail (lx_rest lx)) then IncludeCandidate else Other), false, lx)
            else (Other, false, lx)
        end
  end.

(** ** One line ([parse_include_from_line]) *)

Section parse.
Context (uni_alnum : bytes -> nat).

(** The byte length of the identifier character a string starts with
    ([is_alphanumeric] or an underscore), or zero. *)
Definition ident_len (s : bytes) : nat :=
  match s with
  | EmptyString => 0%nat
  | String c _ =>
      if byte_val c <? 128 then
        (if is_ascii_alphanumeric c || bool_decide (c = "_"%char) then 1%nat else 0%nat)
      else uni_alnum s
  end.

(** [take_while(is_alphanumeric or '_')]; the text is fuel enough. *)
Fixpoint take_ident (fuel : nat) (s : bytes) : bytes :=
  match fuel, ident_len s with
  | S fuel', S n => String.substring 0 (S n) s +:+ take_ident fuel' (str_skip (S n) s)
  | _, _ => ""
  end.

(** A name up to its closing delimiter, which must be there and not first. *)
Definition delimited (close : ascii) (inner : bytes) : option bytes :=
  '(path, _) ← split_once close inner; if bool_decide (path = "") then None else Some path.

(** The directive's keyword: what follows it, and whether it is [include_next]. *)
Definition include_keyword (s : bytes) : option (bytes * bool) :=
  match strip_prefix "include_next" s with
  | Some rest => Some (rest, true)
  | None => rest ← strip_prefix "include" s; Some (rest, false)
  end.

Definition parse_keyword_rest (after_include : bytes) (include_next : bool) : option IncludeDirective :=
  if negb (Nat.eqb (ident_len after_include) 0) then None
  else
    let rest := str_trim after_include in
    match rest with
    | EmptyString => None
    | String c inner =>
        if bool_decide (c = DQ) then
          path ← delimited DQ inner;
          Some (mkDirective (if include_next then QuotedNext else Quoted) path 0)
        else if bool_decide (c = "<"%char) then
          path ← delimited ">" inner;
          Some (mkDirective (if include_next then AngleBracketNext else AngleBracket) path 0)
        else
          let macro_name := take_ident (String.length rest) rest in
          if bool_decide (macro_name = "") then None else Some (mkDirective (Computed macro_name) macro_name 0)
    end.

Definition parse_include_from_line (line : bytes) : option IncludeDirective :=
  after_hash ← strip_prefix "#" (str_trim line);
  keyword ← include_keyword (str_trim after_hash);
  parse_keyword_rest keyword.1 keyword.2.

Definition at_line (line : Z) (d : IncludeDirective) : IncludeDirective :=
  mkDirective (id_kind d) (id_path d) line.

(** ** The whole file *)

Fixpoint directive_loop (fuel : nat) (lx : Lexer) (in_block : bool) (results : list IncludeDirective) :
    list IncludeDirective :=
  match fuel, lx_rest lx with
  | O, _ | _, EmptyString => results
  | S fuel', _ =>
      let start_line := lx_line lx in
      let n := S (S (String.length (lx_rest lx))) in
      let '(start, in_block, lx) := line_start n lx in_block in
      let '(in_block, results, lx) :=
        match start with
        | IncludeCandidate =>
            let '(open, text, lx) := collect_directive n lx "" in
            (open, results ++ option_list (at_line start_line <$> parse_include_from_line text), lx)
        | Other => let '(open, lx) := skip_rest_of_line n lx in (open, results, lx)
        | Empty => (in_block, results, lx)
        end in
      let lx := lx_peek lx in
      directive_loop fuel'
        (if is_char LF (lx_byte lx) then mkLexer (str_tail (lx_rest lx)) (lx_line lx + 1) else lx)
        in_block results
  end.

Definition BOM : bytes := String (ascii_of_nat 0xEF) (String (ascii_of_nat 0xBB) (String (ascii_of_nat 0xBF) "")).

Definition scan_directives (source : bytes) : list IncludeDirective :=
  let source := default source (strip_prefix BOM source) in
  directive_loop (S (String.length source)) (mkLexer source 1) false [].

Definition scan_includes_str (source : bytes) : list IncludeDirective := scan_directives source.
End parse.

Definition nl : bytes := String LF "".
Definition bsnl : bytes := String BS nl.

Example lexer_cases :
  let scan s := map (fun d => (id_path d, id_line d)) (scan_directives (fun _ => 0%nat) s) in
  scan ("/*" +:+ nl +:+ "*/ /* */ #include <x.h> // c" +:+ nl +:+ "#inc" +:+ bsnl +:+ "lude <y.h>" +:+ nl)
    = [("x.h", 2); ("y.h", 3)] /\
  scan (BOM +:+ "#include <a.h>" +:+ nl +:+ " # /* */ include_next M_1" +:+ nl) = [("a.h", 1); ("M_1", 2)] /\
  scan ("// x " +:+ bsnl +:+ "#include <no.h>" +:+ nl +:+ "#include <a.h>") = [("a.h", 3)] /\
  scan ("#include <a.h>" +:+ nl +:+ "/* open" +:+ nl +:+ "#include <b.h>") = [("a.h", 1)].
Proof. vm_compute. done. Qed.

(** ** The reference: one phase after the other *)

(** Splices removed; every character with the physical line it is on. *)
Fixpoint tag (line : Z) (s : bytes) : list (ascii * Z) :=
  match s with
  | EmptyString => []
  | String a s1 =>
      if bool_decide (a = BS) then
        match s1 with
        | String b s2 =>
            if bool_decide (b = LF) then tag (line + 1) s2
            else if bool_decide (b = CR) then
              match s2 with
              | String c s3 => if bool_decide (c = LF) then tag (line + 1) s3 else tag line s2
              | EmptyString => []
              end
            else (a, line) :: tag line s1
        | EmptyString => [(a, line)]
        end
      else (a, line) :: tag (if bool_decide (a = LF) then line + 1 else line) s1
  end.

Inductive Mode := Code | Block | LineComment.

(** A line comment ends with its line, a block comment does not. *)
Definition after_newline (m : Mode) : Mode := match m with LineComment => Code | m => m end.

(** The logical lines, without comments: the number of each and its text.
    [start] and [acc] are the line being read. *)
Fixpoint ref_lines (m : Mode) (start : Z) (acc : bytes) (u : list (ascii * Z)) : list (Z * bytes) :=
  match u with
  | [] => [(start, acc)]
  | (c, l) :: u' =>
      if bool_decide (c = LF) then (start, acc) :: ref_lines (after_newline m) (l + 1) "" u'
      else match m with
      | LineComment => ref_lines m start acc u'
      | Block =>
          match u' with
          | (d, _) :: u'' =>
              if bool_decide (c = STAR) && bool_decide (d = slash) then ref_lines Code start acc u''
              else ref_lines m start acc u'
          | [] => [(start, acc)]
          end
      | Code =>
          match u' with
          | (d, _) :: u'' =>
              if bool_decide (c = slash) && bool_decide (d = slash) then ref_lines LineComment start acc u'
              else if bool_decide (c = slash) && bool_decide (d = STAR) then ref_lines Block start acc u''
              else ref_lines m start (acc +:+ String c "") u'
          | [] => [(start, acc +:+ String c "")]
          end
      end
  end.

Definition source_lines (source : bytes) : list (Z * bytes) :=
  ref_lines Code 1 "" (tag 1 (default source (strip_prefix BOM source))).

(** ** The cursor and the tagged text *)

Definition lx_tags (lx : Lexer) : list (ascii * Z) := tag (lx_line lx) (lx_rest lx).
Definition lx_len (lx : Lexer) : nat := String.length (lx_rest lx).

(** The text does not start with a splice. *)
Definition plain_at (c : ascii) (s1 : bytes) : Prop :=
  forall l, tag l (String c s1) = (c, l) :: tag (if bool_decide (c = LF) then l + 1 else l) s1.

Lemma plain_not_bs c s1 : c <> BS -> plain_at c s1.
Proof. intros Hc l. simpl. by rewrite (bool_decide_eq_false_2 (c = BS)). Qed.

Lemma tag_lone_cr line c s : c <> LF -> tag line (String BS (String CR (String c s))) = tag line (String c s).
Proof.
  intros Hc. cbn [tag]. rewrite (bool_decide_eq_true_2 (BS = BS)), (bool_decide_eq_false_2 (CR = LF)),
    (bool_decide_eq_true_2 (CR = CR)), (bool_decide_eq_false_2 (c = LF)) by done. done.
Qed.

Lemma skip_splices_spec n s line :
  (String.length s <= n)%nat ->
  tag line s = tag (skip_splices line s).1 (skip_splices line s).2 /\
  (String.length (skip_splices line s).2 <= String.length s)%nat /\
  (skip_splices line s).2 = (skip_splices 0 s).2 /\
  match (skip_splices line s).2 with EmptyString => True | String c s1 => plain_at c s1 end.
Proof.
  revert s line.
  induction n as [|n IH]; intros [|a s1] line Hn; simpl in Hn; try lia; try done.
  assert (forall l l' s, (String.length s <= n)%nat -> (skip_splices l s).2 = (skip_splices l' s).2) as Hl.
  { intros l l' s Hs. etrans; [apply (IH s l Hs)|symmetry; apply (IH s l' Hs)]. }
  cbn [skip_splices]. destruct (bool_decide_reflect (a = BS)) as [->|Ha]; [|simpl; split_and!; [done..|by apply plain_not_bs]].
  destruct s1 as [|b s2]; [split_and!; [done..|]; by intros l|]. simpl in Hn.
  destruct (bool_decide_reflect (b = LF)) as [->|Hb].
  { destruct (IH s2 (line + 1)) as (H1 & H2 & H3 & H4); [lia|]. split_and!; [exact H1|simpl; lia|apply Hl; lia|done]. }
  destruct (bool_decide_reflect (b = CR)) as [->|Hcr].
  2:{ simpl. rewrite !bool_decide_eq_false_2 by done. split_and!; [done..|]. intros l. simpl.
      by rewrite !bool_decide_eq_false_2 by done. }
  destruct s2 as [|c s3]; [split_and!; [done|simpl; lia|done|done]|]. simpl in Hn. destruct (bool_decide_reflect (c = LF)) as [->|Hc].
  - destruct (IH s3 (line + 1)) as (H1 & H2 & H3 & H4); [lia|]. split_and!; [exact H1|simpl; lia|apply Hl; lia|done].
  - destruct (IH (String c s3) line) as (H1 & H2 & H3 & H4); [simpl; lia|].
    split_and!; [rewrite tag_lone_cr by done; exact H1|simpl in *; lia|apply Hl; simpl; lia|done].
Qed.

Lemma peek_tags lx : lx_tags (lx_peek lx) = lx_tags lx.
Proof.
  unfold lx_tags, lx_peek. destruct (skip_splices_spec _ (lx_rest lx) (lx_line lx) (le_n _)) as (H & _).
  by destruct (skip_splices _ _).
Qed.

Lemma peek_len lx : (lx_len (lx_peek lx) <= lx_len lx)%nat.
Proof.
  unfold lx_len, lx_peek. destruct (skip_splices_spec _ (lx_rest lx) (lx_line lx) (le_n _)) as (_ & H & _).
  by destruct (skip_splices _ _).
Qed.

(** The cursor is on a character of the text, and not on a splice. *)
Definition lx_at (lx : Lexer) (c : ascii) : Prop := exists s1, lx_rest lx = String c s1 /\ plain_at c s1.

Lemma peek_cases lx :
  (lx_rest (lx_peek lx) = "" /\ lx_tags lx = []) \/ exists c, lx_at (lx_peek lx) c /\ lx_byte (lx_peek lx) = Some c.
Proof.
  rewrite <- peek_tags. unfold lx_tags, lx_peek, lx_at, lx_byte.
  destruct (skip_splices_spec _ (lx_rest lx) (lx_line lx) (le_n _)) as (_ & _ & _ & H).
  destruct (skip_splices (lx_line lx) (lx_rest lx)) as [l s]. simpl in *. destruct s; [by left|right; eauto].
Qed.

Lemma at_bump lx c :
  lx_at lx c -> c <> LF -> lx_tags lx = (c, lx_line lx) :: lx_tags (lx_bump lx) /\
  lx_len lx = S (lx_len (lx_bump lx)).
Proof.
  intros (s1 & Hr & Hp) Hc. unfold lx_tags, lx_len, lx_bump. rewrite Hr, Hp.
  cbn [lx_rest lx_line str_tail String.length]. by rewrite bool_decide_eq_false_2.
Qed.

Lemma peek_next_tags lx c :
  lx_at lx c -> peek_next lx = fst <$> head (lx_tags (lx_bump lx)).
Proof.
  intros (s1 & Hr & _). unfold peek_next. pose proof (peek_cases (lx_bump lx)) as Hc.
  assert ((skip_splices 0 (str_tail (lx_rest lx))).2 = lx_rest (lx_peek (lx_bump lx))) as ->.
  { unfold lx_peek, lx_bump. simpl.
    destruct (skip_splices_spec _ (str_tail (lx_rest lx)) (lx_line lx) (le_n _)) as (_ & _ & H & _).
    rewrite <- H. by destruct (skip_splices _ _). }
  destruct Hc as [[-> ->]|(d & (s2 & Hr2 & Hp) & _)]; [done|].
  rewrite <- (peek_tags (lx_bump lx)). unfold lx_tags. rewrite Hr2, Hp. done.
Qed.

(** Reading a character and the one after it. *)
Lemma at_pair lx c d :
  lx_at lx c -> c <> LF -> d <> LF -> is_char d (peek_next lx) = true ->
  exists l, lx_tags lx = (c, lx_line lx) :: (d, l) :: lx_tags (bump_pair lx) /\
    (lx_len (bump_pair lx) < lx_len lx)%nat.
Proof.
  intros Hat Hc Hd Hn. unfold is_char in Hn. apply bool_decide_eq_true in Hn.
  rewrite (peek_next_tags lx c Hat) in Hn. destruct (at_bump lx c Hat Hc) as [-> Hl].
  destruct (peek_cases (lx_bump lx)) as [[_ Ht]|(x & Hx & _)]; [by rewrite Ht in Hn|].
  rewrite <- (peek_tags (lx_bump lx)) in Hn |- *.
  assert (x = d) as ->.
  { destruct Hx as (s & Hr & Hp). unfold lx_tags in Hn. rewrite Hr, Hp in Hn. by injection Hn. }
  destruct (at_bump _ d Hx Hd) as [-> Hl2]. unfold bump_pair. eexists. split; [done|].
  pose proof (peek_len (lx_bump lx)). lia.
Qed.

Lemma seek_bytes_spec set s line m (P : list (ascii * Z) -> Prop) :
  BS ∈ set -> LF ∈ set ->
  (forall c l u, c ∉ set -> P u <-> P ((c, l) :: u)) -> m = line ->
  (P (tag line (seek_bytes set s)) <-> P (tag m s)) /\
  (String.length (seek_bytes set s) <= String.length s)%nat /\
  match str_head (seek_bytes set s) with Some c => c ∈ set | None => True end.
Proof.
  intros Hb Hl HP ->. induction s as [|c s IH]; simpl; [done|].
  case_bool_decide as Hc; [done|]. destruct IH as (H1 & H2 & H3). split_and!; [|lia|done].
  rewrite (bool_decide_eq_false_2 (c = BS)), (bool_decide_eq_false_2 (c = LF)) by (by intros ->).
  by rewrite H1, HP.
Qed.

(** [skip_backslash] on a backslash: a splice vanishes, a lone backslash is a
    character. *)
Lemma skip_backslash_spec lx s :
  lx_rest lx = String BS s ->
  (lx_tags (skip_backslash lx) = lx_tags lx \/ lx_tags lx = (BS, lx_line lx) :: lx_tags (skip_backslash lx)) /\
  (lx_len (skip_backslash lx) < lx_len lx)%nat.
Proof.
  intros Hr. unfold skip_backslash, lx_tags, lx_len, lx_bump. rewrite Hr.
  destruct s as [|b s2]; [simpl; split; [by right|lia]|]. cbn [splice_len].
  rewrite bool_decide_eq_true_2 by done.
  destruct (bool_decide_reflect (b = LF)) as [->|Hb].
  { split; [left; reflexivity|simpl; lia]. }
  destruct (bool_decide_reflect (b = CR)) as [->|Hcr].
  2:{ cbn. rewrite ?(bool_decide_eq_false_2 (b = LF)), ?(bool_decide_eq_false_2 (b = CR)) by done.
      split; [by right|lia]. }
  destruct s2 as [|c s3]; [simpl; split; [by left|lia]|]. unfold is_char. cbn [str_head].
  destruct (bool_decide_reflect (Some c = Some LF)) as [Hc|Hc].
  - injection Hc as ->. split; [left; reflexivity|simpl; lia].
  - assert (c <> LF) as Hc' by congruence. rewrite tag_lone_cr by done.
    split; [left|simpl; lia]. cbn -[tag]. by rewrite Z.add_0_r.
Qed.

(** The end of a logical line. *)
Definition lx_eol (lx : Lexer) : Prop :=
  lx_tags lx = [] \/ exists l u, lx_tags lx = (LF, l) :: u.

Lemma eol_empty lx : lx_rest lx = "" -> lx_eol lx.
Proof. intros H. left. unfold lx_tags. by rewrite H. Qed.

Lemma eol_newline lx : lx_byte lx = Some LF -> lx_eol lx.
Proof.
  unfold lx_byte. intros H. right. unfold lx_tags. destruct (lx_rest lx) as [|c s]; [done|].
  injection H as ->. simpl. eauto.
Qed.

Lemma seek_at lx c s : lx_rest lx = String c s -> c <> BS -> lx_at lx c.
Proof. intros Hr Hc. exists s. split; [done|by apply plain_not_bs]. Qed.

(** ** The loops skip what the reference drops *)

Lemma ref_block_skip start acc c l u :
  c <> LF -> (c <> STAR \/ fst <$> head u <> Some slash) ->
  ref_lines Block start acc ((c, l) :: u) = ref_lines Block start acc u.
Proof.
  intros Hc Hn. cbn [ref_lines]. rewrite bool_decide_eq_false_2 by done. destruct u as [|[d k] u]; [done|].
  destruct (bool_decide_reflect (c = STAR)), (bool_decide_reflect (d = slash)); simpl; try done.
  subst. simpl in Hn. by destruct Hn.
Qed.

Lemma ref_block_close start acc l k u :
  ref_lines Block start acc ((STAR, l) :: (slash, k) :: u) = ref_lines Code start acc u.
Proof. done. Qed.

Lemma ref_line_skip start acc c l u :
  c <> LF -> ref_lines LineComment start acc ((c, l) :: u) = ref_lines LineComment start acc u.
Proof. intros Hc. cbn [ref_lines]. by rewrite bool_decide_eq_false_2. Qed.

Lemma ref_code_push start acc c l u :
  c <> LF -> (c <> slash \/ (fst <$> head u <> Some slash /\ fst <$> head u <> Some STAR)) ->
  ref_lines Code start acc ((c, l) :: u) = ref_lines Code start (acc +:+ String c "") u.
Proof.
  intros Hc Hn. cbn [ref_lines]. rewrite bool_decide_eq_false_2 by done. destruct u as [|[d k] u]; [done|].
  destruct (bool_decide_reflect (c = slash)); simpl; [|done]. subst. simpl in Hn.
  destruct Hn as [?|[H1 H2]]; [done|].
  by rewrite (bool_decide_eq_false_2 (d = slash)), (bool_decide_eq_false_2 (d = STAR)) by congruence.
Qed.

Lemma ref_code_line start acc l k u :
  ref_lines Code start acc ((slash, l) :: (slash, k) :: u) = ref_lines LineComment start acc ((slash, k) :: u).
Proof. done. Qed.

Lemma ref_code_block start acc l k u :
  ref_lines Code start acc ((slash, l) :: (STAR, k) :: u) = ref_lines Block start acc u.
Proof. done. Qed.

(** The text seen by [seek3], for the two comment states. *)
Lemma seek_ref m start acc set lx :
  BS ∈ set -> LF ∈ set ->
  (forall c l u, c ∉ set -> ref_lines m start acc ((c, l) :: u) = ref_lines m start acc u) ->
  ref_lines m start acc (lx_tags (seek3 set lx)) = ref_lines m start acc (lx_tags lx) /\
  (lx_len (seek3 set lx) <= lx_len lx)%nat /\
  match lx_byte (seek3 set lx) with Some c => c ∈ set | None => True end.
Proof.
  intros Hb Hl Hm. pose proof (seek_bytes_spec set (lx_rest lx) (lx_line lx) (lx_line lx)
    (fun u => ref_lines m start acc u = ref_lines m start acc (lx_tags lx)) Hb Hl) as H.
  destruct H as (H1 & H2 & H3); [|done|].
  - intros c l u Hc. by rewrite Hm.
  - split_and!; [by apply H1|done|done].
Qed.

Lemma byte_rest lx c : lx_byte lx = Some c -> exists s, lx_rest lx = String c s.
Proof. unfold lx_byte. destruct (lx_rest lx); [done|]. intros [= ->]. eauto. Qed.

Lemma byte_none lx : lx_byte lx = None -> lx_rest lx = "".
Proof. unfold lx_byte. by destruct (lx_rest lx). Qed.

Lemma block_sim fuel lx start acc :
  (lx_len lx < fuel)%nat ->
  let '(closed, lx') := skip_block_comment fuel lx in
  ref_lines Block start acc (lx_tags lx) = ref_lines (if closed then Code else Block) start acc (lx_tags lx') /\
  (closed = false -> lx_eol lx') /\ (lx_len lx' <= lx_len lx)%nat.
Proof.
  revert lx. induction fuel as [|fuel IH]; intros lx Hf; [lia|]. cbn [skip_block_comment].
  destruct (seek_ref Block start acc [LF; STAR; BS] lx) as (Hr & Hl & Hb);
    [set_solver|set_solver| |].
  { intros c l u Hc. apply ref_block_skip; [set_solver|left; set_solver]. }
  rewrite <- Hr. set (lx1 := seek3 _ lx) in *. clearbody lx1.
  destruct (lx_byte lx1) as [c|] eqn:Hc; [|split_and!; [done|by intros _; apply eol_empty, byte_none|done]].
  destruct (byte_rest _ _ Hc) as [s Hs].
  destruct (bool_decide_reflect (c = LF)) as [->|Hlf]; [split_and!; [done|by intros _; apply eol_newline|done]|].
  destruct (bool_decide_reflect (c = BS)) as [->|Hbs].
  - destruct (skip_backslash_spec lx1 s Hs) as [Ht Hlen]. specialize (IH (skip_backslash lx1) ltac:(lia)).
    destruct (skip_block_comment fuel (skip_backslash lx1)) as [closed lx']. destruct IH as (H1 & H2 & H3).
    split_and!; [|done|lia]. rewrite <- H1. destruct Ht as [->| ->]; [done|].
    apply ref_block_skip; [done|by left].
  - assert (c = STAR) as -> by set_solver. pose proof (seek_at lx1 STAR s Hs ltac:(done)) as Hat.
    destruct (is_char slash (peek_next lx1)) eqn:Hn.
    + destruct (at_pair lx1 STAR slash Hat ltac:(done) ltac:(done) Hn) as (l & -> & Hlen).
      split_and!; [apply ref_block_close|done|lia].
    + destruct (at_bump lx1 STAR Hat ltac:(done)) as [Ht Hlen]. specialize (IH (lx_bump lx1) ltac:(lia)).
      destruct (skip_block_comment fuel (lx_bump lx1)) as [closed lx']. destruct IH as (H1 & H2 & H3).
      split_and!; [|done|lia]. rewrite <- H1, Ht. apply ref_block_skip; [done|right].
      rewrite <- (peek_next_tags _ _ Hat). unfold is_char in Hn. by apply bool_decide_eq_false in Hn.
Qed.

Lemma line_sim fuel lx start acc :
  (lx_len lx <= fuel)%nat ->
  let lx' := skip_line_comment fuel lx in
  ref_lines LineComment start acc (lx_tags lx) = ref_lines LineComment start acc (lx_tags lx') /\
  lx_eol lx' /\ (lx_len lx' <= lx_len lx)%nat.
Proof.
  revert lx. induction fuel as [|fuel IH]; intros lx Hf.
  { cbn [skip_line_comment]. split_and!; [done| |done]. apply eol_empty. unfold lx_len in Hf. destruct (lx_rest lx); [done|simpl in Hf; lia]. }
  cbn [skip_line_comment].
  destruct (seek_ref LineComment start acc [LF; BS; BS] lx) as (Hr & Hl & Hb); [set_solver|set_solver| |].
  { intros c l u Hc. apply ref_line_skip. set_solver. }
  rewrite <- Hr. set (lx1 := seek3 _ lx) in *. clearbody lx1.
  destruct (lx_byte lx1) as [c|] eqn:Hc; [|split_and!; [done|by apply eol_empty, byte_none|done]].
  destruct (byte_rest _ _ Hc) as [s Hs].
  destruct (bool_decide_reflect (c = LF)) as [->|Hlf]; [split_and!; [done|by apply eol_newline|done]|].
  assert (c = BS) as -> by set_solver.
  destruct (skip_backslash_spec lx1 s Hs) as [Ht Hlen].
  destruct (IH (skip_backslash lx1) ltac:(lia)) as (H1 & H2 & H3).
  split_and!; [|done|lia]. rewrite <- H1. destruct Ht as [->| ->]; [done|]. by apply ref_line_skip.
Qed.

Lemma seek_code start lx :
  forall acc, (exists t, ref_lines Code start acc (lx_tags lx) =
                 ref_lines Code start (acc +:+ t) (lx_tags (seek3 [LF; slash; BS] lx))) /\
  (lx_len (seek3 [LF; slash; BS] lx) <= lx_len lx)%nat /\
  match lx_byte (seek3 [LF; slash; BS] lx) with Some c => c ∈ [LF; slash; BS] | None => True end.
Proof.
  destruct lx as [s line]. unfold lx_tags, seek3, lx_len, lx_byte. cbn [lx_rest lx_line].
  induction s as [|c s IH]; intros acc; cbn [seek_bytes].
  { split_and!; [|done|done]. exists "". by rewrite string_app_nil_r. }
  case_bool_decide as Hc.
  { split_and!; [|done|done]. exists "". by rewrite string_app_nil_r. }
  destruct (IH (acc +:+ String c "")) as ([t Ht] & H2 & H3). split_and!; [|simpl; lia|done].
  exists (String c t). rewrite (plain_not_bs c s) by set_solver.
  rewrite (bool_decide_eq_false_2 (c = LF)) by set_solver.
  rewrite ref_code_push by set_solver. rewrite Ht. by rewrite string_app_assoc.
Qed.

(** After a line in state [m], the next one starts inside a block comment or
    not. *)
Definition ends_open (m : Mode) (open : bool) : Prop := after_newline m = if open then Block else Code.

Definition line_read (start : Z) (acc : bytes) (lx : Lexer) (t : bytes) (open : bool) (lx' : Lexer) : Prop :=
  exists m, ref_lines Code start acc (lx_tags lx) = ref_lines m start (acc +:+ t) (lx_tags lx') /\
    ends_open m open /\ lx_eol lx' /\ (lx_len lx' <= lx_len lx)%nat.

(** A reading continues one that stopped in code. *)
Lemma line_read_trans start acc lx t1 lx1 t2 open lx2 :
  ref_lines Code start acc (lx_tags lx) = ref_lines Code start (acc +:+ t1) (lx_tags lx1) ->
  (lx_len lx1 <= lx_len lx)%nat -> line_read start (acc +:+ t1) lx1 t2 open lx2 ->
  line_read start acc lx (t1 +:+ t2) open lx2.
Proof.
  intros H1 Hl (m & H2 & Ho & He & Hl2). exists m. split_and!; [|done|done|lia].
  by rewrite H1, H2, string_app_assoc.
Qed.

Lemma line_read_done start acc lx : lx_eol lx -> line_read start acc lx "" false lx.
Proof. intros He. exists Code. rewrite string_app_nil_r. by split_and!. Qed.

(** The two kinds of comment, from the slash that opens them. *)
Lemma comment_line_read fuel lx start acc :
  (lx_len lx <= fuel)%nat -> lx_at lx slash -> is_char slash (peek_next lx) = true ->
  line_read start acc lx "" false (skip_line_comment fuel lx).
Proof.
  intros Hf Hat Hn. destruct (line_sim fuel lx start acc Hf) as (H1 & H2 & H3).
  exists LineComment. rewrite string_app_nil_r. split_and!; [|done|done|done]. rewrite <- H1.
  destruct (at_pair lx slash slash Hat ltac:(done) ltac:(done) Hn) as (l & -> & _).
  by rewrite ref_code_line, (ref_line_skip _ _ slash (lx_line lx)).
Qed.

Lemma comment_block_read fuel lx start acc :
  (lx_len lx <= fuel)%nat -> lx_at lx slash -> is_char STAR (peek_next lx) = true ->
  let '(closed, lx') := skip_block_comment fuel (bump_pair lx) in
  (lx_len lx' < lx_len lx)%nat /\
  if closed then ref_lines Code start acc (lx_tags lx) = ref_lines Code start acc (lx_tags lx')
  else line_read start acc lx "" true lx'.
Proof.
  intros Hf Hat Hn. destruct (at_pair lx slash STAR Hat ltac:(done) ltac:(done) Hn) as (l & Ht & Hl).
  pose proof (block_sim fuel (bump_pair lx) start acc ltac:(lia)) as H.
  destruct (skip_block_comment fuel (bump_pair lx)) as [closed lx']. destruct H as (H1 & H2 & H3).
  split; [lia|]. destruct closed.
  - by rewrite Ht, ref_code_block, H1.
  - exists Block. rewrite string_app_nil_r. split_and!; [|done|by apply H2|lia]. by rewrite Ht, ref_code_block, H1.
Qed.

(** A slash that opens no comment, or any other character, is text. *)
Lemma push_tags lx c start acc :
  lx_at lx c -> c <> LF ->
  (c <> slash \/ (is_char slash (peek_next lx) = false /\ is_char STAR (peek_next lx) = false)) ->
  ref_lines Code start acc (lx_tags lx) = ref_lines Code start (acc +:+ String c "") (lx_tags (lx_bump lx)).
Proof.
  intros Hat Hc Hn. destruct (at_bump lx c Hat Hc) as [-> _]. apply ref_code_push; [done|].
  destruct Hn as [?|[H1 H2]]; [by left|right]. rewrite <- (peek_next_tags _ _ Hat).
  unfold is_char in *. by apply bool_decide_eq_false in H1, H2.
Qed.

Lemma rest_sim fuel lx start acc :
  (lx_len lx < fuel)%nat ->
  exists t, line_read start acc lx t (skip_rest_of_line fuel lx).1 (skip_rest_of_line fuel lx).2.
Proof.
  revert lx acc. induction fuel as [|fuel IH]; intros lx acc Hf; [lia|]. cbn [skip_rest_of_line].
  destruct (seek_code start lx acc) as ([t0 Ht0] & Hl & Hb).
  set (lx1 := seek3 _ lx) in *. clearbody lx1.
  assert (forall open lx2, (exists t, line_read start (acc +:+ t0) lx1 t open lx2) ->
    exists t, line_read start acc lx t open lx2) as Hgo.
  { intros open lx2 [t Ht]. exists (t0 +:+ t). by eapply line_read_trans. }
  assert (forall t1 lx2, ref_lines Code start (acc +:+ t0) (lx_tags lx1) =
    ref_lines Code start ((acc +:+ t0) +:+ t1) (lx_tags lx2) -> (lx_len lx2 < lx_len lx1)%nat ->
    exists t, line_read start (acc +:+ t0) lx1 t (skip_rest_of_line fuel lx2).1 (skip_rest_of_line fuel lx2).2) as Hrec.
  { intros t1 lx2 H Hlen. destruct (IH lx2 ((acc +:+ t0) +:+ t1) ltac:(lia)) as [t Ht].
    exists (t1 +:+ t). eapply line_read_trans; [done|lia|done]. }
  destruct (lx_byte lx1) as [c|] eqn:Hc; [|apply Hgo; exists ""; by apply line_read_done, eol_empty, byte_none].
  destruct (byte_rest _ _ Hc) as [s Hs].
  destruct (bool_decide_reflect (c = LF)) as [->|Hlf].
  { apply Hgo. exists "". by apply line_read_done, eol_newline. }
  destruct (bool_decide_reflect (c = BS)) as [->|Hbs]; apply Hgo.
  - destruct (skip_backslash_spec lx1 s Hs) as [Ht Hlen]. destruct Ht as [Ht|Ht].
    + apply (Hrec ""); [by rewrite string_app_nil_r, Ht|done].
    + apply (Hrec (String BS "")); [by rewrite Ht, ref_code_push by (by left || done)|done].
  - assert (c = slash) as -> by set_solver. pose proof (seek_at lx1 slash s Hs ltac:(done)) as Hat.
    destruct (is_char slash (peek_next lx1)) eqn:Hn1.
    { exists "". apply comment_line_read; [lia|done..]. }
    destruct (is_char STAR (peek_next lx1)) eqn:Hn2.
    + pose proof (comment_block_read fuel lx1 start (acc +:+ t0) ltac:(lia) Hat Hn2) as Hcb.
      destruct (skip_block_comment fuel (bump_pair lx1)) as [[|] lx2]; destruct Hcb as [Hlen Hcb].
      * apply (Hrec ""); [by rewrite string_app_nil_r|done].
      * by exists "".
    + destruct (at_bump lx1 slash Hat ltac:(done)) as [_ Hlen].
      apply (Hrec (String slash "")); [|lia]. apply push_tags; [done|done|by right].
Qed.

Lemma collect_sim fuel lx start acc out :
  (lx_len lx < fuel)%nat ->
  let '(open, out', lx') := collect_directive fuel lx out in
  exists t, out' = out +:+ t /\ line_read start acc lx t open lx'.
Proof.
  revert lx acc out. induction fuel as [|fuel IH]; intros lx acc out Hf; [lia|]. cbn [collect_directive].
  pose proof (peek_len lx) as Hpl. pose proof (peek_tags lx) as Hpt. pose proof (peek_cases lx) as Hpc.
  set (lx1 := lx_peek lx) in *. clearbody lx1.
  assert (forall t open lx2, line_read start acc lx1 t open lx2 -> line_read start acc lx t open lx2) as Hgo.
  { intros t open lx2 (m & H & ? & ? & ?). exists m. rewrite <- Hpt. split_and!; [done..|lia]. }
  destruct Hpc as [[Hr Ht]|(c & Hat & Hc)].
  { unfold lx_byte. rewrite Hr. simpl. exists "". split; [by rewrite string_app_nil_r|].
    by apply Hgo, line_read_done, eol_empty. }
  rewrite Hc. destruct (bool_decide_reflect (c = LF)) as [->|Hlf].
  { exists "". split; [by rewrite string_app_nil_r|]. by apply Hgo, line_read_done, eol_newline. }
  assert (forall t1 lx2, ref_lines Code start acc (lx_tags lx1) =
    ref_lines Code start (acc +:+ t1) (lx_tags lx2) -> (lx_len lx2 < lx_len lx1)%nat ->
    let '(open, out', lx') := collect_directive fuel lx2 (out +:+ t1) in
    exists t, out' = out +:+ t /\ line_read start acc lx t open lx') as Hrec.
  { intros t1 lx2 H Hlen. specialize (IH lx2 (acc +:+ t1) (out +:+ t1) ltac:(lia)).
    destruct (collect_directive fuel lx2 (out +:+ t1)) as [[open out'] lx']. destruct IH as (t & -> & Hr).
    exists (t1 +:+ t). split; [by rewrite string_app_assoc|]. apply Hgo. eapply line_read_trans; [done|lia|done]. }
  pose proof (proj2 (at_bump lx1 c Hat Hlf)) as Hlen.
  destruct (bool_decide_reflect (c = slash)) as [->|Hsl].
  2:{ apply (Hrec (String c "")); [|lia]. apply push_tags; [done..|by left]. }
  destruct (is_char slash (peek_next lx1)) eqn:Hn1.
  { exists "". split; [by rewrite string_app_nil_r|]. apply Hgo, comment_line_read; [lia|done..]. }
  destruct (is_char STAR (peek_next lx1)) eqn:Hn2.
  - pose proof (comment_block_read fuel lx1 start acc ltac:(lia) Hat Hn2) as Hcb.
    destruct (skip_block_comment fuel (bump_pair lx1)) as [[|] lx2]; destruct Hcb as [Hl2 Hcb].
    + specialize (Hrec "" lx2). rewrite !string_app_nil_r in Hrec. by apply Hrec.
    + exists "". split; [by rewrite string_app_nil_r|]. by apply Hgo.
  - apply (Hrec (String slash "")); [|lia]. apply push_tags; [done|done|by right].
Qed.

(** ** The start of a line *)

Definition c_space (c : ascii) : bool := bool_decide (c ∈ [SP; TAB; CR; VT; FF]).
Definition mode_of (in_block : bool) : Mode := if in_block then Block else Code.

(** The cursor is on the first significant character of the line. *)
Definition significant (ls : LineStart) (lx : Lexer) : Prop :=
  exists c, lx_at lx c /\ c <> LF /\ c_space c = false /\ (c = slash -> is_char STAR (peek_next lx) = false) /\
    ls = if bool_decide (c = "#"%char) && hash_may_start_include (str_tail (lx_rest lx))
         then IncludeCandidate else Other.

Lemma line_start_sim fuel lx in_block start acc :
  (lx_len lx + 1 < fuel)%nat ->
  let '(ls, ib, lx') := line_start fuel lx in_block in
  exists ws, all_chars c_space ws = true /\
    ref_lines (mode_of in_block) start acc (lx_tags lx) = ref_lines (mode_of ib) start (acc +:+ ws) (lx_tags lx') /\
    (lx_len lx' <= lx_len lx)%nat /\
    match ls with Empty => lx_eol lx' | _ => ib = false /\ significant ls lx' end.
Proof.
  revert lx in_block acc. induction fuel as [|fuel IH]; intros lx in_block acc Hf; [lia|]. cbn [line_start].
  assert (let '(closed, lx1) := if in_block then skip_block_comment fuel lx else (true, lx) in
    ref_lines (mode_of in_block) start acc (lx_tags lx) =
      ref_lines (mode_of (negb closed)) start acc (lx_tags lx1) /\
    (closed = false -> lx_eol lx1) /\ (lx_len lx1 <= lx_len lx)%nat) as Hb.
  { destruct in_block; [|done]. pose proof (block_sim fuel lx start acc ltac:(lia)) as H.
    destruct (skip_block_comment fuel lx) as [[|] lx1]; done. }
  destruct (if in_block then _ else _) as [closed lx1]. destruct Hb as (Hr & He & Hl).
  destruct closed; simpl negb in *; cbn [mode_of] in Hr; cycle 1.
  { exists "". rewrite string_app_nil_r. split_and!; [done..|by apply He]. }
  pose proof (peek_len lx1) as Hpl. pose proof (peek_tags lx1) as Hpt. pose proof (peek_cases lx1) as Hpc.
  set (lx2 := lx_peek lx1) in *. clearbody lx2. rewrite <- Hpt in Hr.
  destruct Hpc as [[Hr2 _]|(c & Hat & Hc)].
  { unfold lx_byte. rewrite Hr2. simpl. exists "". rewrite string_app_nil_r.
    split_and!; [done..|lia|by apply eol_empty]. }
  rewrite Hc. destruct (bool_decide_reflect (c = LF)) as [->|Hlf].
  { exists "". rewrite string_app_nil_r. split_and!; [done..|lia|by apply eol_newline]. }
  pose proof (proj2 (at_bump lx2 c Hat Hlf)) as Hlen.
  destruct (bool_decide (c ∈ [SP; TAB; CR; VT; FF])) eqn:Hsp.
  { specialize (IH (lx_bump lx2) false (acc +:+ String c "") ltac:(lia)).
    destruct (line_start fuel (lx_bump lx2) false) as [[ls ib] lx']. destruct IH as (ws & Hw & H1 & H2 & H3).
    exists (String c ws). split_and!; [simpl; unfold c_space; by rewrite Hsp| |lia|done].
    change (mode_of false) with Code in H1.
    rewrite Hr, (push_tags lx2 c); [by rewrite H1, string_app_assoc|done..|].
    left. intros ->. done. }
  assert (forall r, line_start fuel (bump_pair lx2) true = r -> c = slash -> is_char STAR (peek_next lx2) = true ->
    let '(ls, ib, lx') := r in
    exists ws, all_chars c_space ws = true /\
    ref_lines (mode_of in_block) start acc (lx_tags lx) = ref_lines (mode_of ib) start (acc +:+ ws) (lx_tags lx') /\
    (lx_len lx' <= lx_len lx)%nat /\
    match ls with Empty => lx_eol lx' | _ => ib = false /\ significant ls lx' end) as Hcm.
  { intros r <- -> Hn. destruct (at_pair lx2 slash STAR Hat ltac:(done) ltac:(done) Hn) as (l & Ht & Hlt).
    specialize (IH (bump_pair lx2) true acc ltac:(lia)).
    destruct (line_start fuel (bump_pair lx2) true) as [[ls ib] lx']. destruct IH as (ws & Hw & H1 & H2 & H3).
    exists ws. split_and!; [done| |lia|done]. rewrite Hr, Ht, ref_code_block. exact H1. }
  destruct (bool_decide (c = slash) && is_char STAR (peek_next lx2)) eqn:Hsl.
  { apply andb_prop in Hsl as [Hs%bool_decide_eq_true Hn]. by apply Hcm. }
  assert (c = slash -> is_char STAR (peek_next lx2) = false) as Hns.
  { intros ->. by rewrite bool_decide_eq_true_2 in Hsl. }
  destruct (bool_decide_reflect (c = "#"%char)) as [Hh|Hh]; cycle 1.
  { exists "". rewrite string_app_nil_r. split_and!; [done..|lia|done|].
    exists c. split_and!; try done. by rewrite bool_decide_eq_false_2. }
  assert (significant (if hash_may_start_include (str_tail (lx_rest lx2)) then IncludeCandidate else Other) lx2) as Hsig.
  { exists c. split_and!; try done. rewrite bool_decide_eq_true_2 by done. done. }
  exists "". rewrite string_app_nil_r. split_and!; [done..|lia|].
  destruct (hash_may_start_include _); done.
Qed.

(** ** Lines the filter skips *)

Lemma first_line n u m start acc :
  (length u <= n)%nat ->
  exists t rest, ref_lines m start acc u = (start, acc +:+ t) :: rest /\ (m = LineComment -> t = "").
Proof.
  revert u m acc. induction n as [|n IH]; intros [|[c l] u] m acc Hn; simpl in Hn; try lia;
    try (exists "", []; by rewrite string_app_nil_r).
  cbn [ref_lines]. destruct (bool_decide (c = LF)).
  { exists "". rewrite string_app_nil_r. eauto. }
  assert (forall u' m' t0, (length u' <= n)%nat -> (m = LineComment -> m' = LineComment /\ t0 = "") ->
    exists t rest, ref_lines m' start (acc +:+ t0) u' = (start, acc +:+ t) :: rest /\ (m = LineComment -> t = "")) as Hgo.
  { intros u' m' t0 Hu Hm. destruct (IH u' m' (acc +:+ t0) Hu) as (t & rest & -> & Ht).
    exists (t0 +:+ t), rest. split; [by rewrite string_app_assoc|]. intros H. destruct (Hm H) as [H1 ->].
    by rewrite Ht. }
  assert (forall u' m', (length u' <= n)%nat -> (m = LineComment -> m' = LineComment) ->
    exists t rest, ref_lines m' start acc u' = (start, acc +:+ t) :: rest /\ (m = LineComment -> t = "")) as Hgo'.
  { intros u' m' Hu Hm. specialize (Hgo u' m' "" Hu). rewrite string_app_nil_r in Hgo. auto. }
  destruct m; [..|by apply Hgo'; [lia|]]; destruct u as [|[d k] u]; simpl in Hn.
  - exists (String c ""), []. done.
  - destruct (_ && _); [|destruct (_ && _)]; [apply Hgo'; [simpl; lia|done]|apply Hgo'; [lia|done]|apply Hgo; [simpl; lia|done]].
  - exists "", []. by rewrite string_app_nil_r.
  - destruct (_ && _); apply Hgo'; simpl; lia || done.
Qed.

(** The shape of an include the lexer is sure to look at: [#], blanks, an [i]. *)
Fixpoint names_include (s : bytes) : bool :=
  match s with
  | EmptyString => false
  | String c s' => if bool_decide (c ∈ [SP; TAB; VT; FF]) then names_include s' else bool_decide (c = "i"%char)
  end.
Fixpoint include_shape (s : bytes) : bool :=
  match s with
  | EmptyString => false
  | String c s' => if c_space c then include_shape s' else bool_decide (c = "#"%char) && names_include s'
  end.

Lemma raw_filter s l start acc :
  hash_may_start_include s = false ->
  exists t rest, ref_lines Code start acc (tag l s) = (start, acc +:+ t) :: rest /\ names_include t = false.
Proof.
  revert l acc. induction s as [|c s IH]; intros l acc Hm.
  { exists "", []. by rewrite string_app_nil_r. }
  cbn [hash_may_start_include] in Hm. destruct (bool_decide_reflect (c ∈ [SP; TAB; VT; FF])) as [Hsp|Hsp].
  - rewrite (plain_not_bs c s) by (intros ->; set_solver).
    rewrite (bool_decide_eq_false_2 (c = LF)) by (intros ->; set_solver).
    rewrite ref_code_push; [|intros ->; set_solver|left; intros ->; set_solver].
    destruct (IH l (acc +:+ String c "") Hm) as (t & rest & -> & Ht). exists (String c t), rest.
    split; [by rewrite string_app_assoc|]. cbn [names_include]. by rewrite bool_decide_eq_true_2.
  - apply bool_decide_eq_false in Hm. rewrite !elem_of_cons in Hm.
    rewrite (plain_not_bs c s) by tauto.
    destruct (bool_decide_reflect (c = LF)) as [->|Hlf].
    { exists "". cbn. rewrite string_app_nil_r. eauto. }
    rewrite ref_code_push by tauto.
    destruct (first_line _ (tag l s) Code start (acc +:+ String c "") (le_n _)) as (t & rest & -> & _).
    exists (String c t), rest. split; [by rewrite string_app_assoc|]. cbn [names_include].
    rewrite !bool_decide_eq_false_2 by tauto. done.
Qed.

Lemma include_shape_ws ws t : all_chars c_space ws = true -> include_shape (ws +:+ t) = include_shape t.
Proof. induction ws as [|c ws IH]; simpl; [done|]. intros [-> H]%andb_prop. by apply IH. Qed.

Lemma c_space_ws c : c_space c = true -> ws_ascii (byte_val c) = true.
Proof.
  unfold c_space. intros H%bool_decide_eq_true. rewrite !elem_of_cons, elem_of_nil in H.
  destruct H as [->|[->|[->|[->|[->|[]]]]]]; done.
Qed.

Lemma trim_ws ws t : all_chars c_space ws = true -> str_trim (ws +:+ t) = str_trim t.
Proof.
  induction ws as [|c ws IH]; cbn [all_chars String.append]; [done|]. intros [Hc H]%andb_prop.
  rewrite <- IH by done. unfold str_trim. cbn [String.length trim_dir]. by rewrite c_space_ws.
Qed.

(** ** The whole file *)

Section equivalence.
Context (uni_alnum : bytes -> nat).

(** What the reference finds on a line, and what of it the lexer must find. *)
Definition line_directive (line : Z * bytes) : option IncludeDirective :=
  at_line line.1 <$> parse_include_from_line uni_alnum line.2.
Definition sure_directive (line : Z * bytes) : option IncludeDirective :=
  if include_shape line.2 then line_directive line else None.

Lemma line_directive_ws start ws t :
  all_chars c_space ws = true -> line_directive (start, ws +:+ t) = line_directive (start, t).
Proof. intros H. unfold line_directive, parse_include_from_line. simpl. by rewrite trim_ws. Qed.

(** A result for one line lies between the two. *)
Definition between (line : Z * bytes) (r : option IncludeDirective) : Prop :=
  (forall d, sure_directive line = Some d -> r = Some d) /\ (forall d, r = Some d -> line_directive line = Some d).

Definition sandwiched (lines : list (Z * bytes)) (rs : list IncludeDirective) : Prop :=
  sublist (omap sure_directive lines) rs /\ sublist rs (omap line_directive lines).

Lemma sandwiched_cons line r lines rs :
  between line r -> sandwiched lines rs -> sandwiched (line :: lines) (option_list r ++ rs).
Proof.
  intros [H1 H2] [S1 S2]. split; cbn [omap list_omap].
  - destruct (sure_directive line) as [d|]; [rewrite (H1 d eq_refl); by apply sublist_skip|].
    by apply sublist_inserts_l.
  - destruct r as [d|]; [rewrite (H2 d eq_refl); by apply sublist_skip|]. cbn [option_list app].
    destruct (line_directive line); [by apply sublist_cons|done].
Qed.

Lemma between_none line : include_shape line.2 = false -> between line None.
Proof. intros H. split; [|done]. intros d. unfold sure_directive. by rewrite H. Qed.

Lemma between_loose line : between line (line_directive line).
Proof. split; [|done]. intros d. unfold sure_directive. by destruct (include_shape line.2). Qed.

(** Where a line ends, the next one begins. *)
Definition next_line (lx : Lexer) : Lexer :=
  let lx := lx_peek lx in
  if is_char LF (lx_byte lx) then mkLexer (str_tail (lx_rest lx)) (lx_line lx + 1) else lx.

Lemma eol_next m start acc lx :
  lx_eol lx ->
  (lx_rest (next_line lx) = "" /\ ref_lines m start acc (lx_tags lx) = [(start, acc)]) \/
  ((lx_len (next_line lx) < lx_len lx)%nat /\
   ref_lines m start acc (lx_tags lx) =
     (start, acc) :: ref_lines (after_newline m) (lx_line (next_line lx)) "" (lx_tags (next_line lx))).
Proof.
  intros He. unfold next_line. rewrite <- peek_tags. pose proof (peek_len lx) as Hl.
  destruct (peek_cases lx) as [[Hr Ht]|(c & Hat & Hc)].
  - left. rewrite peek_tags, Ht. unfold lx_byte. by rewrite Hr.
  - rewrite Hc. destruct Hat as (s1 & Hr & Hp). unfold lx_eol in He. rewrite <- peek_tags in He.
    assert (c = LF) as ->.
    { unfold lx_tags in He. rewrite Hr, !Hp in He. destruct He as [?|(l & u & He)]; [done|].
      rewrite ?Hp in He. by injection He. }
    right. unfold is_char. rewrite bool_decide_eq_true_2 by done.
    unfold lx_tags, lx_len in *. cbn [lx_rest lx_line]. rewrite Hr in *. rewrite Hp. cbn [str_tail String.length] in *.
    split; [lia|]. done.
Qed.

(** Lines the lexer does not copy out have no include it must find. *)
Lemma other_line_text lx start ws t rest :
  significant Other lx -> all_chars c_space ws = true ->
  ref_lines Code start ws (lx_tags lx) = (start, ws +:+ t) :: rest -> include_shape (ws +:+ t) = false.
Proof.
  intros (c & Hat & Hlf & Hsp & Hns & Hls) Hws Heq. rewrite include_shape_ws by done.
  assert (forall a b, ws +:+ a = ws +:+ b -> a = b) as Hinj.
  { intros a b H. by destruct (string_app_inv_len ws ws a b eq_refl H). }
  destruct (decide (c = slash /\ is_char slash (peek_next lx) = true)) as [[-> Hn]|Hn].
  { destruct (at_pair lx slash slash Hat Hlf Hlf Hn) as (l & Ht & _). rewrite Ht, ref_code_line in Heq.
    match type of Heq with ref_lines LineComment _ _ ?u = _ =>
      destruct (first_line _ u LineComment start ws (le_n _)) as (t' & r' & Hf & Ht') end.
    rewrite Hf in Heq. injection Heq as Heq _. rewrite Ht' in Heq by done. by apply Hinj in Heq as <-. }
  rewrite (push_tags lx c) in Heq; [|done..|]; cycle 1.
  { destruct (decide (c = slash)) as [->|]; [right|by left]. split; [|by apply Hns].
    destruct (is_char slash (peek_next lx)); [|done]. by destruct Hn. }
  destruct (bool_decide_reflect (c = "#"%char)) as [->|Hh].
  - destruct (hash_may_start_include (str_tail (lx_rest lx))) eqn:Hm; [done|].
    destruct (raw_filter _ (lx_line lx) start (ws +:+ "#") Hm) as (t' & r' & Hf & Ht').
    unfold lx_tags, lx_bump in Heq. cbn [lx_rest lx_line] in Heq. rewrite Hf in Heq. injection Heq as Heq _.
    rewrite string_app_assoc in Heq. apply Hinj in Heq as <-. cbn [String.append include_shape]. done.
  - destruct (first_line _ (lx_tags (lx_bump lx)) Code start (ws +:+ String c "") (le_n _)) as (t' & r' & Hf & _).
    rewrite Hf in Heq. injection Heq as Heq _. rewrite string_app_assoc in Heq. apply Hinj in Heq as <-.
    cbn [String.append include_shape]. rewrite Hsp. by rewrite bool_decide_eq_false_2.
Qed.

(** One line of the file: what it adds to the results, and where it ends. *)
Definition scan_line (lx : Lexer) (in_block : bool) : option IncludeDirective * bool * Lexer :=
  let n := S (S (lx_len lx)) in
  let '(start, ib, lx1) := line_start n lx in_block in
  match start with
  | IncludeCandidate =>
      let '(open, text, lx2) := collect_directive n lx1 "" in
      (at_line (lx_line lx) <$> parse_include_from_line uni_alnum text, open, lx2)
  | Other => let '(open, lx2) := skip_rest_of_line n lx1 in (None, open, lx2)
  | Empty => (None, ib, lx1)
  end.

Lemma directive_loop_step fuel lx in_block results :
  lx_rest lx <> "" ->
  directive_loop uni_alnum (S fuel) lx in_block results =
    let '(r, ib, lx') := scan_line lx in_block in
    directive_loop uni_alnum fuel (next_line lx') ib (results ++ option_list r).
Proof.
  intros Hne. cbn [directive_loop]. unfold scan_line, next_line, lx_len.
  destruct (lx_rest lx) as [|c s] eqn:Hr; [done|].
  destruct (line_start _ lx in_block) as [[[| |] ib] lx1].
  - destruct (collect_directive _ lx1 "") as [[open text] lx2]. done.
  - destruct (skip_rest_of_line _ lx1) as [open lx2]. by rewrite app_nil_r.
  - by rewrite app_nil_r.
Qed.

Lemma scan_line_sim lx in_block :
  let '(r, ib, lx') := scan_line lx in_block in
  exists text m, between (lx_line lx, text) r /\ ends_open m ib /\ lx_eol lx' /\ (lx_len lx' <= lx_len lx)%nat /\
    ref_lines (mode_of in_block) (lx_line lx) "" (lx_tags lx) = ref_lines m (lx_line lx) text (lx_tags lx').
Proof.
  unfold scan_line. pose proof (line_start_sim (S (S (lx_len lx))) lx in_block (lx_line lx) "" ltac:(lia)) as Hs.
  destruct (line_start _ lx in_block) as [[ls ib] lx1]. destruct Hs as (ws & Hws & Hr & Hl & Hls). simpl in Hr.
  destruct ls.
  - destruct Hls as [-> Hsig].
    pose proof (collect_sim (S (S (lx_len lx))) lx1 (lx_line lx) ws "" ltac:(lia)) as Hc.
    destruct (collect_directive _ lx1 "") as [[open text] lx2]. destruct Hc as (t & -> & m & H1 & H2 & H3 & H4).
    exists (ws +:+ t), m. split_and!; [|done|done|lia|by rewrite Hr, <- H1].
    pose proof (between_loose (lx_line lx, ws +:+ t)) as Hb. by rewrite line_directive_ws in Hb.
  - destruct Hls as [-> Hsig].
    destruct (rest_sim (S (S (lx_len lx))) lx1 (lx_line lx) ws ltac:(lia)) as (t & m & H1 & H2 & H3 & H4).
    destruct (skip_rest_of_line _ lx1) as [open lx2]. simpl in *.
    exists (ws +:+ t), m. split_and!; [|done|done|lia|by rewrite Hr, <- H1]. apply between_none. simpl.
    destruct (eol_next m (lx_line lx) (ws +:+ t) lx2 H3) as [[_ He]|[_ He]];
      (eapply other_line_text; [done|done|by rewrite H1]).
  - exists ws, (mode_of ib). split_and!; [|by destruct ib|done|lia|done]. apply between_none. simpl.
    by rewrite <- (string_app_nil_r ws), include_shape_ws.
Qed.

Lemma directive_loop_sim fuel lx in_block results :
  (lx_len lx < fuel)%nat ->
  exists rs, directive_loop uni_alnum fuel lx in_block results = results ++ rs /\
    sandwiched (ref_lines (mode_of in_block) (lx_line lx) "" (lx_tags lx)) rs.
Proof.
  revert lx in_block results. induction fuel as [|fuel IH]; intros lx in_block results Hf; [lia|].
  destruct (decide (lx_rest lx = "")) as [He|Hne].
  { exists []. cbn [directive_loop]. rewrite He, app_nil_r. split; [done|].
    unfold lx_tags. rewrite He. simpl. apply (sandwiched_cons _ None [] []); [by apply between_none|done]. }
  rewrite directive_loop_step by done. pose proof (scan_line_sim lx in_block) as Hs.
  destruct (scan_line lx in_block) as [[r ib] lx']. destruct Hs as (text & m & Hb & Ho & Heol & Hl & ->).
  assert (lx_len (next_line lx') < fuel)%nat as Hlt.
  { destruct (eol_next m 0 "" lx' Heol) as [[Hr _]|[Hr _]]; [|lia]. unfold lx_len in *. rewrite Hr.
    destruct (lx_rest lx); [done|]. simpl in *. lia. }
  destruct (IH (next_line lx') ib (results ++ option_list r) Hlt) as (rs & -> & Hsand).
  exists (option_list r ++ rs). split; [by rewrite (assoc_L (++))|].
  destruct (eol_next m (lx_line lx) text lx' Heol) as [[Hr ->]|[_ ->]].
  - unfold lx_tags in Hsand. rewrite Hr in Hsand. simpl in Hsand.
    apply sandwiched_cons; [done|]. destruct Hsand as [H1 H2]. simpl in *. by destruct ib.
  - apply sandwiched_cons; [done|]. unfold ends_open in Ho. rewrite Ho. by destruct ib.
Qed.
End equivalence.

(** C9: the single-pass lexer agrees with the phases it fuses.  Remove splices,
    remove comments, cut into logical lines and parse each: every include the
    lexer reports is the one the reference finds on that physical line, in
    order, and every line of the reference that reads [#], blanks, an include
    keyword is reported.  The two differ at most on lines whose [#] is preceded
    or followed by unusual white space. *)
Theorem lexer_agrees (uni_alnum : bytes -> nat) (source : bytes) :
  let lines := source_lines source in
  let found := scan_directives uni_alnum source in
  sublist (omap (sure_directive uni_alnum) lines) found /\
  sublist found (omap (line_directive uni_alnum) lines) /\
  (Forall (fun line => line_directive uni_alnum line = sure_directive uni_alnum line) lines ->
   found = omap (line_directive uni_alnum) lines).
Proof.
  intros lines found. unfold found, lines, scan_directives, source_lines.
  set (s := default source (strip_prefix BOM source)).
  destruct (directive_loop_sim uni_alnum (S (String.length s)) (mkLexer s 1) false []) as (rs & -> & H1 & H2);
    [unfold lx_len; simpl; lia|]. split_and!; [exact H1|exact H2|]. intros Hall. cbn [app].
  assert (omap (line_directive uni_alnum) (ref_lines Code 1 "" (tag 1 s)) =
    omap (sure_directive uni_alnum) (ref_lines Code 1 "" (tag 1 s))) as Heq.
  { clear -Hall. induction Hall as [|x l Hx _ IH]; [done|]. cbn [omap list_omap]. rewrite Hx.
    destruct (sure_directive uni_alnum x); [by f_equal|done]. }
  apply (anti_symm sublist); [exact H2|]. rewrite Heq. exact H1.
Qed.

Definition demo_source : bytes :=
  BOM +:+ "/* a */ #inc" +:+ bsnl +:+ "lude <x.h> // c" +:+ nl +:+ "char *s; # include <no.h>" +:+ nl +:+
  "#define A" +:+ nl +:+ " # include_next M /* open" +:+ nl +:+ "#include <hidden.h>" +:+ nl +:+
  "*/ #include <y.h>" +:+ nl.

Lemma lexer_agrees_witness :
  scan_directives (fun _ => 0%nat) demo_source = omap (line_directive (fun _ => 0%nat)) (source_lines demo_source) /\
  (fun d => (id_path d, id_line d)) <$> scan_directives (fun _ => 0%nat) demo_source =
    [("x.h", 1); ("M", 5); ("y.h", 7)].
Proof.
  split; [|vm_compute; reflexivity]. apply (proj2 (proj2 (lexer_agrees (fun _ => 0%nat) demo_source))).
  assert (source_lines demo_source =
    [(1, " #include <x.h> "); (3, "char *s; # include <no.h>"); (4, "#define A"); (5, " # include_next M ");
     (6, ""); (7, " #include <y.h>"); (8, "")]) as -> by (vm_compute; reflexivity).
  repeat (constructor; [vm_compute; reflexivity|]). constructor.
Defined.
