(* ===== verification/Scanner.v ===== *)
(** * The recursive include scan ([zccache-depgraph/src/scanner.rs])

    Resolution of directives against the search path, the memo of parsed files,
    and the breadth-first walk over all transitive includes.

    The file system is a snapshot: which paths are regular files, their
    canonical names, contents and stamps.  The walk hands the files of one
    frontier to worker threads; [schedule] is the order in which they are
    processed, and the theorems hold for every order. *)

From stdpp Require Import list strings gmap.
From Stdlib Require Import Lia.
From S2P Require Import Prelude Path RustStr ContextKeys DepGraph Depfile IncludeLexer.

(** ** Search order ([search_paths.rs]) *)

Definition quoted_search_dirs (s : IncludeSearchPaths) : list NormalizedPath :=
  iquote s ++ user s ++ system s ++ after s.
Definition angle_search_dirs (s : IncludeSearchPaths) : list NormalizedPath :=
  user s ++ system s ++ after s.
Definition all_search_dirs (s : IncludeSearchPaths) : list NormalizedPath :=
  iquote s ++ user s ++ system s ++ after s.

Record World := mkWorld {
  w_is_file : bytes -> bool;
  w_realpath : bytes -> option bytes;
  w_read : bytes -> option bytes;
  w_stat : bytes -> option (Z * option Z);
}.

(** A parsed file and the stamp it was parsed under. *)
Record CachedDirectives := mkCached {
  cd_size : Z;
  cd_mtime : option Z;
  cd_directives : list IncludeDirective;
}.

Record RecursiveScanCache := mkScanCache {
  sc_directives : gmap string CachedDirectives;
  sc_parses : Z;
}.

Definition RecursiveScanCache_new : RecursiveScanCache := mkScanCache ∅ 0.
Definition scan_cache_clear (c : RecursiveScanCache) : RecursiveScanCache := mkScanCache ∅ (sc_parses c).

Section scan.
Context (w : World) (uni_alnum : bytes -> nat).

Definition canonicalized (s : IncludeSearchPaths) : IncludeSearchPaths :=
  let roots := map (fun p => from_option NormalizedPath_new p (w_realpath w p)) in
  mkSearch (roots (iquote s)) (roots (user s)) (roots (system s)) (roots (after s)).

Definition scan_includes (path : bytes) : option (list IncludeDirective) :=
  scan_includes_str uni_alnum <$> w_read w path.

Definition get_or_scan (file : bytes) (c : RecursiveScanCache) :
    option (list IncludeDirective) * RecursiveScanCache :=
  let key := NormalizedPath_new file in
  let forget := mkScanCache (delete key (sc_directives c)) (sc_parses c) in
  match w_stat w file with
  | None => (None, forget)
  | Some (size, mtime) =>
      let rescan :=
        match scan_includes file with
        | Some ds => (Some ds, mkScanCache (<[key := mkCached size mtime ds]> (sc_directives c)) (wrap64 (sc_parses c + 1)))
        | None => (None, forget)
        end in
      match sc_directives c !! key with
      | Some entry =>
          if bool_decide (cd_size entry = size) && bool_decide (cd_mtime entry = mtime)
          then (Some (cd_directives entry), c) else rescan
      | None => rescan
      end
  end.

(** ** Resolution *)

Definition try_normalize_path (path : bytes) : option NormalizedPath := NormalizedPath_new <$> w_realpath w path.
Definition normalize_path (path : bytes) : NormalizedPath :=
  default (NormalizedPath_new path) (try_normalize_path path).

(** The first directory in which the name is a regular file. *)
Fixpoint find_in (dirs : list bytes) (name : bytes) : option NormalizedPath :=
  match dirs with
  | [] => None
  | dir :: rest =>
      let candidate := path_push dir name in
      if w_is_file w candidate then Some (normalize_path candidate) else find_in rest name
  end.

(** The deepest search directory above the including file, the first of the
    deepest: its index. *)
Fixpoint root_index (including_dir : NormalizedPath) (dirs : list bytes) (i : nat) (best : option (nat * nat)) :
    option (nat * nat) :=
  match dirs with
  | [] => best
  | dir :: rest =>
      let best' :=
        match try_normalize_path dir with
        | Some d =>
            if np_starts_with including_dir d then
              let depth := length (components d) in
              match best with
              | Some (_, best_depth) => if (depth <=? best_depth)%nat then best else Some (i, depth)
              | None => Some (i, depth)
              end
            else best
        | None => best
        end in
      root_index including_dir rest (S i) best'
  end.

Definition resolve_include_next (path : bytes) (dirs : list bytes) (including_file_dir : bytes) :
    option NormalizedPath :=
  including_dir ← try_normalize_path including_file_dir;
  let start := match root_index including_dir dirs 0 None with Some (i, _) => S i | None => O end in
  find_in (drop start dirs) path.

Definition resolve_include (d : IncludeDirective) (search : IncludeSearchPaths) (including_file_dir : bytes) :
    option NormalizedPath :=
  match id_kind d with
  | Quoted => find_in (including_file_dir :: quoted_search_dirs search) (id_path d)
  | AngleBracket => find_in (angle_search_dirs search) (id_path d)
  | QuotedNext => resolve_include_next (id_path d) (quoted_search_dirs search) including_file_dir
  | AngleBracketNext => resolve_include_next (id_path d) (angle_search_dirs search) including_file_dir
  | Computed _ => None
  end.

(** ** The walk *)

Record ScanState := mkScanState {
  ss_visited : gset string;
  ss_resolved : list NormalizedPath;
  ss_unresolved : list bytes;
  ss_computed : bool;
  ss_cache : RecursiveScanCache;
}.

Context (search : IncludeSearchPaths) (use_cache : bool).
Context (retain : bytes -> IncludeDirective -> NormalizedPath -> bool).
Context (schedule : list NormalizedPath -> list NormalizedPath).

(** One directive of a file: what it adds to the next frontier, which is also
    what it adds to the result. *)
Definition scan_directive (file dir : bytes) (d : IncludeDirective) (st : ScanState) :
    list NormalizedPath * ScanState :=
  match id_kind d with
  | Computed _ => ([], mkScanState (ss_visited st) (ss_resolved st) (ss_unresolved st) true (ss_cache st))
  | _ =>
      match resolve_include d search dir with
      | Some p =>
          if retain file d p && negb (bool_decide (p ∈ ss_visited st)) then
            ([p], mkScanState ({[p]} ∪ ss_visited st) (ss_resolved st ++ [p]) (ss_unresolved st)
                    (ss_computed st) (ss_cache st))
          else ([], st)
      | None =>
          ([], mkScanState (ss_visited st) (ss_resolved st) (ss_unresolved st ++ [id_path d]) (ss_computed st)
                 (ss_cache st))
      end
  end.

Fixpoint scan_directive_list (file dir : bytes) (ds : list IncludeDirective) (st : ScanState) :
    list NormalizedPath * ScanState :=
  match ds with
  | [] => ([], st)
  | d :: ds' =>
      let '(new, st) := scan_directive file dir d st in
      let '(more, st) := scan_directive_list file dir ds' st in
      (new ++ more, st)
  end.

Definition scan_one_level (file : bytes) (st : ScanState) : list NormalizedPath * ScanState :=
  let '(ds, cache) := if use_cache then get_or_scan file (ss_cache st) else (scan_includes file, ss_cache st) in
  let st := mkScanState (ss_visited st) (ss_resolved st) (ss_unresolved st) (ss_computed st) cache in
  match ds with
  | None => ([], st)
  | Some ds => scan_directive_list file (default "." (path_parent file)) ds st
  end.

Fixpoint scan_frontier (files : list NormalizedPath) (st : ScanState) : list NormalizedPath * ScanState :=
  match files with
  | [] => ([], st)
  | f :: fs =>
      let '(new, st) := scan_one_level f st in
      let '(more, st) := scan_frontier fs st in
      (new ++ more, st)
  end.

(** The outer loop; [None] when the fuel runs out. *)
Fixpoint scan_levels (fuel : nat) (frontier : list NormalizedPath) (st : ScanState) : option ScanState :=
  match frontier with
  | [] => Some st
  | _ =>
      match fuel with
      | O => None
      | S fuel' => let '(next, st) := scan_frontier (schedule frontier) st in scan_levels fuel' next st
      end
  end.

Definition scan_recursive_impl (fuel : nat) (source : bytes) (cache : RecursiveScanCache) :
    option (ScanResult * RecursiveScanCache) :=
  let visited := match try_normalize_path source with Some p => {[p]} | None => ∅ end in
  st ← scan_levels fuel [NormalizedPath_new source] (mkScanState visited [] [] false cache);
  Some (mkScan (ss_resolved st) (ss_unresolved st) (ss_computed st), ss_cache st).
End scan.

(** The three entry points. *)
Definition scan_recursive (w : World) (uni_alnum : bytes -> nat)
    (schedule : list NormalizedPath -> list NormalizedPath) (fuel : nat) (source : bytes)
    (search : IncludeSearchPaths) : option ScanResult :=
  fst <$> scan_recursive_impl w uni_alnum search false (fun _ _ _ => true) schedule fuel source RecursiveScanCache_new.
Definition scan_recursive_cached (w : World) (uni_alnum : bytes -> nat)
    (schedule : list NormalizedPath -> list NormalizedPath) (fuel : nat) (source : bytes)
    (search : IncludeSearchPaths) (cache : RecursiveScanCache) : option (ScanResult * RecursiveScanCache) :=
  scan_recursive_impl w uni_alnum search true (fun _ _ _ => true) schedule fuel source cache.
Definition scan_recursive_cached_pruned (w : World) (uni_alnum : bytes -> nat)
    (schedule : list NormalizedPath -> list NormalizedPath) (fuel : nat) (source : bytes)
    (search : IncludeSearchPaths) (cache : RecursiveScanCache)
    (retain : bytes -> IncludeDirective -> NormalizedPath -> bool) : option (ScanResult * RecursiveScanCache) :=
  scan_recursive_impl w uni_alnum search true retain schedule fuel source cache.

(** ** What the walk computes *)

Section closure.
Context (w : World) (uni_alnum : bytes -> nat) (search : IncludeSearchPaths) (use_cache : bool).
Context (retain : bytes -> IncludeDirective -> NormalizedPath -> bool).
Context (schedule : list NormalizedPath -> list NormalizedPath).

#[local] Abbreviation resolve f d := (resolve_include w d search (default "." (path_parent f))).

(** The directives of a file; none when it cannot be read. *)
Definition directives_of (f : bytes) : list IncludeDirective := default [] (scan_includes w uni_alnum f).

(** [f] includes [g]. *)
Definition includes_file (f : bytes) (g : NormalizedPath) : Prop :=
  exists d, d ∈ directives_of f /\ resolve f d = Some g /\ retain f d g = true.
Definition is_computed (d : IncludeDirective) : bool := match id_kind d with Computed _ => true | _ => false end.
Definition computes (f : bytes) : Prop := exists d, d ∈ directives_of f /\ is_computed d = true.
Definition misses (f : bytes) (name : bytes) : Prop :=
  exists d, d ∈ directives_of f /\ is_computed d = false /\ resolve f d = None /\ name = id_path d.

(** The transitive includes of a source, apart from the source. *)
Inductive reached (source : bytes) (hidden : gset string) : NormalizedPath -> Prop :=
| reached_direct g : includes_file source g -> g ∉ hidden -> reached source hidden g
| reached_step f g : reached source hidden f -> includes_file f g -> g ∉ hidden -> reached source hidden g.

(** ** The memo of parsed files *)

(** An entry whose stamp is current holds the directives of the file. *)
Definition scan_cache_ok (c : RecursiveScanCache) : Prop :=
  forall f e, NormalizedPath_new f = f -> sc_directives c !! f = Some e ->
    w_stat w f = Some (cd_size e, cd_mtime e) -> scan_includes w uni_alnum f = Some (cd_directives e).

Lemma get_or_scan_ok f c :
  NormalizedPath_new f = f -> (w_stat w f = None -> w_read w f = None) -> scan_cache_ok c ->
  exists c', get_or_scan w uni_alnum f c = (scan_includes w uni_alnum f, c') /\ scan_cache_ok c'.
Proof.
  intros Hf Hs Hc. unfold get_or_scan. rewrite Hf.
  assert (scan_cache_ok (mkScanCache (delete f (sc_directives c)) (sc_parses c))) as Hdel.
  { intros g e Hg. simpl. rewrite lookup_delete_Some. intros [_ He]. by apply Hc. }
  destruct (w_stat w f) as [[size mtime]|] eqn:Hst.
  2:{ eexists. split; [|exact Hdel]. unfold scan_includes. by rewrite Hs. }
  assert (forall c', match scan_includes w uni_alnum f with
     | Some ds => (Some ds, mkScanCache (<[f:=mkCached size mtime ds]> (sc_directives c)) (wrap64 (sc_parses c + 1)))
     | None => (None, mkScanCache (delete f (sc_directives c)) (sc_parses c)) end = c' ->
     exists c1, c' = (scan_includes w uni_alnum f, c1) /\ scan_cache_ok c1) as Hre.
  { intros c' <-. destruct (scan_includes w uni_alnum f) as [ds|] eqn:Hds; [|by eauto]. eexists. split; [done|].
    intros g e Hg. simpl. rewrite lookup_insert. case_decide; [|by apply Hc]. intros [= <-] _. by subst. }
  destruct (sc_directives c !! f) as [e|] eqn:He; [|by apply Hre].
  destruct (bool_decide_reflect (cd_size e = size)), (bool_decide_reflect (cd_mtime e = mtime)); simpl;
    try (by apply Hre). exists c. split; [|done]. rewrite (Hc f e Hf He); [done|by subst].
Qed.

(** ** One file, one frontier *)

(** How a piece of the walk changes the state: it adds the files [P] that were
    not visited, the misses [M], and whether there was a computed include. *)
Record added (st : ScanState) (new : list NormalizedPath) (st' : ScanState) (P : NormalizedPath -> Prop)
    (M : bytes -> Prop) (K : Prop) : Prop := {
  add_visited p : p ∈ ss_visited st' <-> p ∈ ss_visited st \/ p ∈ new;
  add_resolved : ss_resolved st' = ss_resolved st ++ new;
  add_nodup : NoDup new;
  add_new p : p ∈ new <-> (p ∉ ss_visited st) /\ P p;
  add_missing u : u ∈ ss_unresolved st' <-> u ∈ ss_unresolved st \/ M u;
  add_computed : ss_computed st' = true <-> ss_computed st = true \/ K;
}.

Lemma added_none st st' (P : NormalizedPath -> Prop) (M : bytes -> Prop) (K : Prop) :
  ss_visited st' = ss_visited st -> ss_resolved st' = ss_resolved st -> (forall p, p ∉ ss_visited st -> ~ P p) ->
  (forall u, u ∈ ss_unresolved st' <-> u ∈ ss_unresolved st \/ M u) ->
  (ss_computed st' = true <-> ss_computed st = true \/ K) -> added st [] st' P M K.
Proof.
  intros H1 H2 HP HM HK. split; rewrite ?H1, ?H2; try done.
  - intros p. rewrite elem_of_nil. tauto.
  - by rewrite app_nil_r.
  - apply NoDup_nil_2.
  - intros p. rewrite elem_of_nil. split; [done|]. intros [H3 H4]. by apply (HP p).
Qed.

Lemma added_ext st new st' (P P' : NormalizedPath -> Prop) (M M' : bytes -> Prop) (K K' : Prop) :
  (forall p, P p <-> P' p) -> (forall u, M u <-> M' u) -> (K <-> K') -> added st new st' P M K ->
  added st new st' P' M' K'.
Proof. intros HP HM HK []. split; intros; rewrite <- ?HP, <- ?HM, <- ?HK; eauto. Qed.

Lemma added_trans st new1 st1 new2 st2 (P1 P2 : NormalizedPath -> Prop) (M1 M2 : bytes -> Prop) (K1 K2 : Prop) :
  added st new1 st1 P1 M1 K1 -> added st1 new2 st2 P2 M2 K2 ->
  added st (new1 ++ new2) st2 (fun p => P1 p \/ P2 p) (fun u => M1 u \/ M2 u) (K1 \/ K2).
Proof.
  intros [V1 R1 N1 A1 U1 C1] [V2 R2 N2 A2 U2 C2]. split.
  - intros p. rewrite V2, V1, elem_of_app. tauto.
  - by rewrite R2, R1, (assoc_L (++)).
  - apply NoDup_app. split_and!; [done| |done]. intros p Hp Hq. apply A2 in Hq as [Hq _]. apply Hq, V1. by right.
  - intros p. rewrite elem_of_app, A2, A1, V1, A1. destruct (decide (p ∈ ss_visited st)); [tauto|].
    split; [tauto|]. intros [_ [H|H]]; [tauto|]. destruct (decide (p ∈ new1)) as [Hn|Hn]; [left; by apply A1|].
    rewrite A1 in Hn. tauto.
  - intros u. rewrite U2, U1. tauto.
  - rewrite C2, C1. tauto.
Qed.

Definition finds (f : bytes) (ds : list IncludeDirective) (p : NormalizedPath) : Prop :=
  exists d, d ∈ ds /\ resolve f d = Some p /\ retain f d p = true.
Definition fails (f : bytes) (ds : list IncludeDirective) (u : bytes) : Prop :=
  exists d, d ∈ ds /\ is_computed d = false /\ resolve f d = None /\ u = id_path d.
Definition has_macro (ds : list IncludeDirective) : Prop := exists d, d ∈ ds /\ is_computed d = true.

Lemma directive_added f d st :
  let r := scan_directive w search retain f (default "." (path_parent f)) d st in
  added st r.1 r.2 (fun p => resolve f d = Some p /\ retain f d p = true)
    (fun u => is_computed d = false /\ resolve f d = None /\ u = id_path d) (is_computed d = true) /\
  ss_cache r.2 = ss_cache st.
Proof.
  unfold scan_directive. destruct (is_computed d) eqn:Hk.
  { assert (resolve f d = None) as -> by (unfold is_computed, resolve_include in *; by destruct (id_kind d)).
    unfold is_computed in Hk. destruct (id_kind d); try done. split; [|done].
    apply added_none; simpl; try done; intuition done. }
  assert (forall r : list NormalizedPath * ScanState,
    match resolve f d with
    | Some p => if retain f d p && negb (bool_decide (p ∈ ss_visited st)) then
        ([p], mkScanState ({[p]} ∪ ss_visited st) (ss_resolved st ++ [p]) (ss_unresolved st) (ss_computed st) (ss_cache st))
        else ([], st)
    | None => ([], mkScanState (ss_visited st) (ss_resolved st) (ss_unresolved st ++ [id_path d]) (ss_computed st) (ss_cache st))
    end = r -> added st r.1 r.2 (fun p => resolve f d = Some p /\ retain f d p = true)
      (fun u => false = false /\ resolve f d = None /\ u = id_path d) (false = true) /\ ss_cache r.2 = ss_cache st) as Hmain.
  2:{ unfold is_computed in Hk. destruct (id_kind d); try done; by apply Hmain. }
  intros r <-. destruct (resolve f d) as [p|]; [|split; [|done]; apply added_none; simpl; try done;
    [intuition done|intros u; rewrite elem_of_app, list_elem_of_singleton; intuition congruence|intuition done]].
  destruct (retain f d p && negb (bool_decide (p ∈ ss_visited st))) eqn:Hc; (split; [|done]); simpl.
  - apply andb_prop in Hc as [Hr Hv%negb_true_iff%bool_decide_eq_false].
    split; simpl; try intros q; rewrite ?list_elem_of_singleton; try done;
      [set_solver|apply NoDup_singleton|intuition congruence|intuition done|intuition done].
  - apply added_none; try done; [|intuition done|intuition done]. intros q Hq [[= <-] Hr].
    rewrite Hr, bool_decide_eq_false_2 in Hc by done. done.
Qed.

Lemma exists_nil {A} (Q : A -> Prop) : ~ (exists d, d ∈ [] /\ Q d).
Proof. intros (d & Hd & _). by apply elem_of_nil in Hd. Qed.

Lemma exists_cons {A} (Q : A -> Prop) x l : (exists d, d ∈ x :: l /\ Q d) <-> Q x \/ exists d, d ∈ l /\ Q d.
Proof.
  split.
  - intros (d & [->|Hd]%elem_of_cons & HQ); eauto.
  - intros [HQ|(d & Hd & HQ)]; [exists x|exists d]; rewrite elem_of_cons; eauto.
Qed.

Lemma directive_list_added f ds st :
  let r := scan_directive_list w search retain f (default "." (path_parent f)) ds st in
  added st r.1 r.2 (finds f ds) (fails f ds) (has_macro ds) /\ ss_cache r.2 = ss_cache st.
Proof.
  revert st. induction ds as [|d ds IH]; intros st; cbn [scan_directive_list].
  { split; [|done]. apply added_none; try done; [intros p _; apply exists_nil|intros u|];
      (split; [by left|]); intros [?|H]; try done; by apply exists_nil in H. }
  pose proof (directive_added f d st) as [H1 C1]. destruct (scan_directive _ _ _ _ _ _ st) as [new st1].
  specialize (IH st1) as [H2 C2]. destruct (scan_directive_list _ _ _ _ _ _ st1) as [more st2]. simpl in *.
  split; [|congruence]. eapply added_ext; [| | |exact (added_trans _ _ _ _ _ _ _ _ _ _ _ H1 H2)];
    [intros p|intros u|]; symmetry.
  - apply (exists_cons (fun d => resolve f d = Some p /\ retain f d p = true)).
  - apply (exists_cons (fun d => is_computed d = false /\ resolve f d = None /\ u = id_path d)).
  - apply (exists_cons (fun d => is_computed d = true)).
Qed.

(** A file read through the memo or directly. *)
Lemma one_level_added f st :
  NormalizedPath_new f = f -> (w_stat w f = None -> w_read w f = None) -> scan_cache_ok (ss_cache st) ->
  let r := scan_one_level w uni_alnum search use_cache retain f st in
  added st r.1 r.2 (includes_file f) (misses f) (computes f) /\ scan_cache_ok (ss_cache r.2).
Proof.
  intros Hf Hs Hc. unfold scan_one_level.
  assert (exists c, (if use_cache then get_or_scan w uni_alnum f (ss_cache st)
    else (scan_includes w uni_alnum f, ss_cache st)) = (scan_includes w uni_alnum f, c) /\ scan_cache_ok c) as (c & -> & Hc').
  { destruct use_cache; [by apply get_or_scan_ok|eauto]. }
  unfold includes_file, misses, computes, directives_of. set (st1 := mkScanState _ _ _ _ c).
  destruct (scan_includes w uni_alnum f) as [ds|]; cbn [default].
  - destruct (directive_list_added f ds st1) as [Ha Hcc]. split; [|by rewrite Hcc]. destruct Ha. by split.
  - split; [|done]. apply added_none; try done; [intros p _; apply exists_nil|intros u|];
      (split; [by left|]); intros [?|H]; try done; by apply exists_nil in H.
Qed.

Lemma frontier_added fs st :
  Forall (fun f => NormalizedPath_new f = f) fs -> (forall f, w_stat w f = None -> w_read w f = None) ->
  scan_cache_ok (ss_cache st) ->
  let r := scan_frontier w uni_alnum search use_cache retain fs st in
  added st r.1 r.2 (fun p => exists f, f ∈ fs /\ includes_file f p) (fun u => exists f, f ∈ fs /\ misses f u)
    (exists f, f ∈ fs /\ computes f) /\ scan_cache_ok (ss_cache r.2).
Proof.
  intros Hfs Hs. revert st. induction Hfs as [|f fs Hf Hfs IH]; intros st Hc; cbn [scan_frontier].
  { split; [|done]. apply added_none; try done; [intros p _; apply exists_nil|intros u|];
      (split; [by left|]); intros [?|H]; try done; by apply exists_nil in H. }
  pose proof (one_level_added f st Hf (Hs f) Hc) as [H1 C1]. destruct (scan_one_level _ _ _ _ _ f st) as [new st1].
  specialize (IH st1 C1) as [H2 C2]. destruct (scan_frontier _ _ _ _ _ fs st1) as [more st2]. simpl in *.
  split; [|done]. eapply added_ext; [| | |exact (added_trans _ _ _ _ _ _ _ _ _ _ _ H1 H2)];
    [intros p|intros u|]; symmetry.
  - apply (exists_cons (fun f => includes_file f p)).
  - apply (exists_cons (fun f => misses f u)).
  - apply (exists_cons computes).
Qed.

(** ** All levels *)

(** The walk from [source] has scanned every known file outside the frontier. *)
Record walk_ok (source : bytes) (hidden : gset string) (frontier : list NormalizedPath) (st : ScanState) : Prop := {
  wk_frontier p : p ∈ frontier -> p = source \/ p ∈ ss_resolved st;
  wk_normal : Forall (fun f => NormalizedPath_new f = f) frontier;
  wk_visited p : p ∈ ss_visited st <-> p ∈ hidden \/ p ∈ ss_resolved st;
  wk_nodup : NoDup (ss_resolved st);
  wk_reached p : p ∈ ss_resolved st -> reached source hidden p;
  wk_closed f p : f = source \/ f ∈ ss_resolved st -> ~ f ∈ frontier -> includes_file f p -> p ∈ ss_visited st;
  wk_missing u : u ∈ ss_unresolved st -> exists f, (f = source \/ f ∈ ss_resolved st) /\ misses f u;
  wk_missed f u : f = source \/ f ∈ ss_resolved st -> ~ f ∈ frontier -> misses f u -> u ∈ ss_unresolved st;
  wk_computed : ss_computed st = true -> exists f, (f = source \/ f ∈ ss_resolved st) /\ computes f;
  wk_compute f : f = source \/ f ∈ ss_resolved st -> ~ f ∈ frontier -> computes f -> ss_computed st = true;
  wk_cache : scan_cache_ok (ss_cache st);
}.

Lemma find_in_normal dirs name p :
  find_in w dirs name = Some p -> NormalizedPath_new p = p /\ exists q, w_is_file w q = true /\ p = normalize_path w q.
Proof.
  induction dirs as [|dir dirs IH]; cbn [find_in]; [done|].
  destruct (w_is_file w (path_push dir name)) eqn:Hf; [|apply IH]. intros [= <-]. split; [|eauto].
  unfold normalize_path, try_normalize_path, NormalizedPath_new.
  destruct (w_realpath w _); simpl; apply normalize_idem.
Qed.

Lemma resolve_normal d dir p :
  resolve_include w d search dir = Some p ->
  NormalizedPath_new p = p /\ exists q, w_is_file w q = true /\ p = normalize_path w q.
Proof.
  unfold resolve_include, resolve_include_next. destruct (id_kind d); try done;
    try (destruct (try_normalize_path w dir); cbn [mbind option_bind]; [|done]); apply find_in_normal.
Qed.

Context (schedule_perm : forall l, schedule l ≡ₚ l).
Context (stat_read : forall f, w_stat w f = None -> w_read w f = None).

(** One level: the frontier moves on. *)
Lemma level_ok source hidden frontier st :
  walk_ok source hidden frontier st ->
  let r := scan_frontier w uni_alnum search use_cache retain (schedule frontier) st in
  walk_ok source hidden r.1 r.2 /\ (forall p, p ∈ r.1 -> ~ (p ∈ ss_visited st) /\ exists q, w_is_file w q = true /\ p = normalize_path w q)
  /\ (forall p, p ∈ ss_visited r.2 <-> p ∈ ss_visited st \/ p ∈ r.1).
Proof.
  intros [Wf Wn Wv Wd Wr Wc Wm Wms Wk Wks Wca].
  assert (Forall (fun f => NormalizedPath_new f = f) (schedule frontier)) as Hn by by rewrite schedule_perm.
  destruct (frontier_added _ st Hn stat_read Wca) as [[V R N A U C] Hca].
  destruct (scan_frontier _ _ _ _ _ _ st) as [new st']. simpl in *.
  assert (forall f, f ∈ schedule frontier <-> f ∈ frontier) as Hsf by (intros f; by rewrite schedule_perm).
  assert (forall p, p ∈ new -> exists f d, f ∈ frontier /\ includes_file f p /\ resolve f d = Some p) as Hnew.
  { intros p Hp. apply A in Hp as (_ & f & Hf & Hi). rewrite Hsf in Hf. destruct Hi as (d & Hd & Hr & Hk).
    exists f, d. split; [done|]. split; [|done]. exists d. done. }
  assert (forall f, f = source \/ f ∈ ss_resolved st' -> ~ f ∈ new ->
    ((f = source \/ f ∈ ss_resolved st) /\ ~ f ∈ frontier) \/ f ∈ schedule frontier) as Hdone.
  { intros f Hk Hfn. rewrite R, elem_of_app in Hk. rewrite Hsf. destruct (decide (f ∈ frontier)); tauto. }
  assert (forall f, f ∈ schedule frontier \/ f = source \/ f ∈ ss_resolved st ->
    f = source \/ f ∈ ss_resolved st') as Hknown.
  { intros f. rewrite R, elem_of_app, Hsf. intros [Hf|?]; [apply Wf in Hf|]; tauto. }
  split_and!; [|intros p Hp; split; [by apply A in Hp as [? _]|]; destruct (Hnew p Hp) as (f & d & _ & _ & Hr);
    by apply resolve_normal in Hr as [_ ?]|exact V].
  split.
  - intros p Hp. right. rewrite R, elem_of_app. by right.
  - apply Forall_forall. intros p Hp. destruct (Hnew p Hp) as (f & d & _ & _ & Hr). by apply resolve_normal in Hr as [? _].
  - intros p. rewrite V, Wv, R, elem_of_app. tauto.
  - rewrite R. apply NoDup_app. split_and!; [done| |done]. intros p Hp Hq. apply A in Hq as [Hq _]. rewrite Wv in Hq. tauto.
  - intros p. rewrite R, elem_of_app. intros [?|Hp]; [by apply Wr|].
    destruct (Hnew p Hp) as (f & d & Hf & Hi & _). apply A in Hp as [Hp _]. rewrite Wv in Hp.
    destruct (Wf f Hf) as [->|Hfr]; [apply reached_direct; tauto|]. eapply reached_step; [by apply Wr|done|tauto].
  - intros f p Hk Hfn Hi. apply V. destruct (Hdone f Hk Hfn) as [[H1 H2]|H1]; [left; by eapply Wc|].
    destruct (decide (p ∈ ss_visited st)); [by left|right]. apply A. eauto.
  - intros u Hu. apply U in Hu as [Hu|(f & Hf & Hm)]; [apply Wm in Hu as (f & Hk & Hm)|]; exists f; auto.
  - intros f u Hk Hfn Hm. apply U. destruct (Hdone f Hk Hfn) as [[H1 H2]|H1]; [left; by eapply Wms|right; eauto].
  - intros Hu. apply C in Hu as [Hu|(f & Hf & Hm)]; [apply Wk in Hu as (f & Hk & Hm)|]; exists f; auto.
  - intros f Hk Hfn Hm. apply C. destruct (Hdone f Hk Hfn) as [[H1 H2]|H1]; [left; by eapply Wks|right; eauto].
  - done.
Qed.

Context (files : gset string) (files_all : forall q, w_is_file w q = true -> normalize_path w q ∈ files).

Lemma levels_ok fuel source hidden frontier st :
  walk_ok source hidden frontier st -> (size (files ∖ ss_visited st) < fuel)%nat ->
  exists st', scan_levels w uni_alnum search use_cache retain schedule fuel frontier st = Some st' /\
    walk_ok source hidden [] st'.
Proof.
  revert frontier st. induction fuel as [|fuel IH]; intros frontier st Hw Hf; [lia|].
  destruct frontier as [|f0 fr]; [by exists st|]. cbn [scan_levels].
  destruct (level_ok _ _ _ _ Hw) as (Hw' & Hnew & Hv).
  destruct (scan_frontier _ _ _ _ _ _ st) as [next st1]. simpl in *.
  destruct next as [|p next].
  { exists st1. split; [by destruct fuel|done]. }
  apply IH; [done|]. apply Nat.lt_le_trans with (size (files ∖ ss_visited st)); [|lia].
  apply subset_size. split; [intros x; rewrite !elem_of_difference, Hv; tauto|].
  intros Hsub. destruct (Hnew p ltac:(by left)) as [Hnv (q & Hq & ->)].
  assert (normalize_path w q ∈ files ∖ ss_visited st1) as Hin.
  { apply Hsub, elem_of_difference. auto. }
  apply elem_of_difference in Hin as [_ Hin]. apply Hin, Hv. right. by left.
Qed.
End closure.

Definition hidden_source (w : World) (source : bytes) : gset string :=
  match try_normalize_path w source with Some p => {[p]} | None => ∅ end.

(** C8: the recursive scan is the transitive closure of the include relation.
    On a file system with finitely many files the walk ends within one level
    more than there are files, and then, whatever order the worker threads took
    within a level and whether or not parsed files were memoized, it has resolved
    exactly the files reachable from the source (apart from the source), each
    once; it reports exactly the names that did not resolve in a reached file,
    and a computed include exactly when a reached file has one. *)
Theorem scan_is_closure (w : World) (uni_alnum : bytes -> nat) (search : IncludeSearchPaths) (use_cache : bool)
    (retain : bytes -> IncludeDirective -> NormalizedPath -> bool)
    (schedule : list NormalizedPath -> list NormalizedPath) (files : gset string) (fuel : nat) (source : bytes)
    (cache : RecursiveScanCache) :
  (forall l, schedule l ≡ₚ l) -> (forall f, w_stat w f = None -> w_read w f = None) ->
  (forall q, w_is_file w q = true -> normalize_path w q ∈ files) -> (size files < fuel)%nat ->
  scan_cache_ok w uni_alnum cache ->
  let start := NormalizedPath_new source in
  let reach := reached w uni_alnum search retain start (hidden_source w source) in
  exists r cache',
    scan_recursive_impl w uni_alnum search use_cache retain schedule fuel source cache = Some (r, cache') /\
    scan_cache_ok w uni_alnum cache' /\ NoDup (resolved r) /\
    (forall p, p ∈ resolved r <-> reach p) /\
    (forall u, u ∈ unresolved r <-> exists f, (f = start \/ reach f) /\ misses w uni_alnum search f u) /\
    (has_computed r = true <-> exists f, (f = start \/ reach f) /\ computes w uni_alnum f).
Proof.
  intros Hs Hst Hfiles Hfuel Hc start reach. unfold scan_recursive_impl. fold (hidden_source w source).
  destruct (levels_ok w uni_alnum search use_cache retain schedule Hs Hst files Hfiles fuel start (hidden_source w source)
    [start] (mkScanState (hidden_source w source) [] [] false cache)) as (st & Hl & [_ _ Wv Wd Wr Wc Wm Wms Wk Wks Wca]).
  - split; simpl; try done.
    + intros p ->%list_elem_of_singleton. by left.
    + constructor; [apply normalize_idem|constructor].
    + intros p. rewrite elem_of_nil. tauto.
    + apply NoDup_nil_2.
    + intros p Hp. by apply elem_of_nil in Hp.
    + intros f p [->|Hf] Hn; [exfalso; by apply Hn, list_elem_of_singleton|by apply elem_of_nil in Hf].
    + intros u Hu. by apply elem_of_nil in Hu.
    + intros f p [->|Hf] Hn; [exfalso; by apply Hn, list_elem_of_singleton|by apply elem_of_nil in Hf].
    + intros f [->|Hf] Hn; [exfalso; by apply Hn, list_elem_of_singleton|by apply elem_of_nil in Hf].
  - eapply Nat.le_lt_trans; [|exact Hfuel]. apply subseteq_size. set_solver.
  - fold start. unfold start in Hl |- *. rewrite Hl. cbn [mbind option_bind]. eexists _, _. split; [done|].
    assert (forall p, p ∈ ss_resolved st <-> reach p) as Hres.
    { intros p. split; [apply Wr|]. intros Hp. induction Hp as [g Hi Hh|f g Hf IH Hi Hh].
      - destruct (proj1 (Wv g)) as [?|?]; [|done|done]. eapply Wc; [by left|apply not_elem_of_nil|done].
      - destruct (proj1 (Wv g)) as [?|?]; [|done|done]. eapply Wc; [by right|apply not_elem_of_nil|done]. }
    simpl. split_and!; [done|done|done| |].
    + intros u. split.
      * intros Hu. destruct (Wm u Hu) as (f & Hk & Hm). exists f. by rewrite Hres in Hk.
      * intros (f & Hk & Hm). rewrite <- Hres in Hk. eapply Wms; [done|apply not_elem_of_nil|done].
    + split.
      * intros Hu. destruct (Wk Hu) as (f & Hk & Hm). exists f. by rewrite Hres in Hk.
      * intros (f & Hk & Hm). rewrite <- Hres in Hk. eapply Wks; [done|apply not_elem_of_nil|done].
Qed.

(** A small tree: cycles, a missing header, a macro include. *)
Definition demo_tree : list (bytes * bytes) :=
  [("/p/main.c", String DQ (String LF "") +:+ "#include " +:+ String DQ "a.h" +:+ String DQ nl +:+ "#include <b.h>" +:+ nl);
   ("/p/a.h", "#include " +:+ String DQ "main.c" +:+ String DQ nl +:+ "#include " +:+ String DQ "sub/c.h" +:+ String DQ nl);
   ("/p/inc/b.h", "#include <nope.h>" +:+ nl +:+ "#include <b.h>" +:+ nl);
   ("/p/sub/c.h", "#include CONFIG" +:+ nl +:+ "#include <b.h>" +:+ nl)].
Definition demo_read (q : bytes) : option bytes := snd <$> List.find (fun e => bool_decide (e.1 = q)) demo_tree.
Definition demo_world : World :=
  mkWorld (fun q => bool_decide (q ∈ demo_tree.*1)) (fun q => if bool_decide (q ∈ demo_tree.*1) then Some q else None)
    demo_read (fun q => (fun c => (Z.of_nat (String.length c), Some 7)) <$> demo_read q).

Lemma scan_is_closure_witness :
  exists r cache',
    scan_recursive_impl demo_world (fun _ => 0%nat) (mkSearch [] ["/p/inc"] [] []) true (fun _ _ _ => true)
      reverse 5 "/p/main.c" RecursiveScanCache_new = Some (r, cache') /\
    NoDup (resolved r) /\ scan_cache_ok demo_world (fun _ => 0%nat) cache' /\
    r = mkScan ["/p/a.h"; "/p/inc/b.h"; "/p/sub/c.h"] ["nope.h"] true.
Proof.
  destruct (scan_is_closure demo_world (fun _ => 0%nat) (mkSearch [] ["/p/inc"] [] []) true (fun _ _ _ => true)
    reverse (list_to_set demo_tree.*1) 5 "/p/main.c" RecursiveScanCache_new) as (r & c & Hr & Hc & Hn & _).
  - intros l. apply reverse_Permutation.
  - intros f Hf. simpl in Hf |- *. by destruct (demo_read f).
  - intros q Hq. apply bool_decide_eq_true in Hq.
    unfold normalize_path, try_normalize_path. simpl w_realpath. rewrite bool_decide_eq_true_2 by exact Hq.
    simpl in Hq. rewrite !elem_of_cons, elem_of_nil in Hq. apply elem_of_list_to_set.
    destruct Hq as [->|[->|[->|[->|[]]]]]; simpl; rewrite !elem_of_cons; auto 6.
  - vm_compute. lia.
  - intros f e _ He. simpl in He. by rewrite lookup_empty in He.
  - exists r, c. split; [exact Hr|]. split; [exact Hn|]. split; [exact Hc|].
    assert (fst <$> scan_recursive_impl demo_world (fun _ => 0%nat) (mkSearch [] ["/p/inc"] [] []) true (fun _ _ _ => true)
      reverse 5 "/p/main.c" RecursiveScanCache_new = Some (mkScan ["/p/a.h"; "/p/inc/b.h"; "/p/sub/c.h"] ["nope.h"] true)) as H
      by (vm_compute; reflexivity).
    rewrite Hr in H. simpl in H. by injection H.
Defined.
