(* ===== verification/CompilerTrace.v ===== *)
(** * Include traces of the compiler ([show_includes.rs], [header_trace.rs])

    Two parsers that take their input in chunks, as the compiler's stderr
    arrives: MSVC's [/showIncludes] lines and the [-H] records of GCC and Clang.
    Both cut the stream into lines, withhold the lines they recognize and pass
    the others through.  The third reader is for Clang's dependency graph file.

    [realpath] is [std::fs::canonicalize], with the memo table of [Depfile];
    [is_file] is [Path::is_file]. *)

From stdpp Require Import list strings gmap.
From Stdlib Require Import Lia.
From S2P Require Import Prelude Path RustStr ContextKeys DepGraph Depfile.

Definition MAX_PARTIAL_LINE_BYTES : Z := 64 * 1024.

(** ** Lines of a stream

    [push] is the same code in both parsers; [finish_line] handles a complete
    line, terminator included, and says what of it goes to the output. *)

Record LineParser (A : Type) := mkParser {
  partial : bytes;
  passthrough_line : bool;
  parser : A;
}.
Arguments mkParser {A}. Arguments partial {A}. Arguments passthrough_line {A}. Arguments parser {A}.

Section stream.
Context {A : Type} (finish_line : bytes -> A -> A * bytes).

(** The state and the output appended so far.  Every turn but the last consumes
    a line of the chunk. *)
Fixpoint push_loop (fuel : nat) (chunk : bytes) (p : LineParser A) (output : bytes) : LineParser A * bytes :=
  match fuel with
  | O => (p, output)
  | S fuel' =>
      if bool_decide (chunk = "") then (p, output)
      else if passthrough_line p then
        match split_once LF chunk with
        | Some (line, rest) =>
            push_loop fuel' rest (mkParser (partial p) false (parser p)) (output +:+ line +:+ String LF "")
        | None => (p, output +:+ chunk)
        end
      else
        match split_once LF chunk with
        | Some (line, rest) =>
            let '(a, out) := finish_line (partial p +:+ line +:+ String LF "") (parser p) in
            push_loop fuel' rest (mkParser "" false a) (output +:+ out)
        | None =>
            let part := partial p +:+ chunk in
            if MAX_PARTIAL_LINE_BYTES <? Z.of_nat (String.length part)
            then (mkParser "" true (parser p), output +:+ part)
            else (mkParser part false (parser p), output)
        end
  end.

Definition push (chunk : bytes) (po : LineParser A * bytes) : LineParser A * bytes :=
  push_loop (S (String.length chunk)) chunk po.1 po.2.

(** [finish]: an unterminated last line is a line. *)
Definition finish (po : LineParser A * bytes) : A * bytes :=
  let '(p, output) := po in
  if bool_decide (partial p = "") then (parser p, output)
  else let '(a, out) := finish_line (partial p) (parser p) in (a, output +:+ out).

Definition push_all (chunks : list bytes) (a : A) : A * bytes :=
  finish (fold_left (fun po c => push c po) chunks (mkParser "" false a, "")).
End stream.

Section trace.
Context (realpath : bytes -> option bytes) (is_file : bytes -> bool).

(** ** [show_includes.rs] *)

Definition ENGLISH_PREFIX : bytes := "Note: including file:".

Definition looks_like_windows_path_start (s : bytes) : bool :=
  match s with
  | String a (String b s2) =>
      (is_ascii_alphabetic a && bool_decide (b = COLON) &&
       match s2 with String c _ => bool_decide (c = BS) | EmptyString => false end) ||
      (bool_decide (a = BS) && bool_decide (b = BS))
  | _ => false
  end.

(** The loop over the positions of the line: [before] is what lies left of the
    cursor. *)
Fixpoint prefix_from (before rest : bytes) : option bytes :=
  match rest with
  | EmptyString => None
  | String c rest' =>
      let trimmed := trim_end before in
      if looks_like_windows_path_start rest && negb (bool_decide (before = "")) &&
         (2 <=? Z.of_nat (String.length trimmed)) && ends_with ":" trimmed
      then Some trimmed
      else prefix_from (before +:+ String c "") rest'
  end.

Definition extract_prefix_candidate (line : bytes) : option bytes :=
  if Z.of_nat (String.length line) <? 4 then None else prefix_from "" line.

(** The fields of [ShowIncludesParser] behind the line buffer, and the memo
    table. *)
Record ShowIncludesParser := mkShow {
  si_source : NormalizedPath;
  si_cwd : NormalizedPath;
  si_prefix : option bytes;
  si_seen : gset string;
  si_resolved : list NormalizedPath;
  si_cache : CanonCache;
}.

Definition ShowIncludesParser_new (source cwd : bytes) (cache : CanonCache) : ShowIncludesParser :=
  let '(src, cache) := canonicalize_path realpath source cwd cache in
  mkShow src (NormalizedPath_new cwd) None ∅ [] cache.

(** The text of a line, without its terminator. *)
Definition line_text (raw : bytes) : bytes :=
  let text := default raw (strip_suffix (String LF "") raw) in
  default text (strip_suffix (String CR "") text).

(** [seen.insert(path)] and the push behind it, unless it is the source. *)
Definition record_include (path source : NormalizedPath) (seen : gset string) (resolved : list NormalizedPath) :
    gset string * list NormalizedPath :=
  if negb (bool_decide (path = source)) && negb (bool_decide (path ∈ seen))
  then ({[path]} ∪ seen, resolved ++ [path]) else (seen, resolved).

Definition si_detect (line : bytes) (prefix : option bytes) : option bytes :=
  match prefix with
  | Some p => Some p
  | None => if starts_with ENGLISH_PREFIX line then Some ENGLISH_PREFIX else extract_prefix_candidate line
  end.

Definition si_finish_line (raw : bytes) (st : ShowIncludesParser) : ShowIncludesParser * bytes :=
  let line := from_utf8_lossy (line_text raw) in
  let prefix := si_detect line (si_prefix st) in
  let st := mkShow (si_source st) (si_cwd st) prefix (si_seen st) (si_resolved st) (si_cache st) in
  match prefix ≫= fun p => strip_prefix p line with
  | None => (st, raw)
  | Some path_str =>
      let path_str := str_trim path_str in
      if bool_decide (path_str = "") then (st, "")
      else
        let query := if has_root path_str then path_str else np_join (si_cwd st) path_str in
        let '(abs_path, cache) := canonicalize_path realpath query (si_cwd st) (si_cache st) in
        let '(seen, resolved) := record_include abs_path (si_source st) (si_seen st) (si_resolved st) in
        (mkShow (si_source st) (si_cwd st) prefix seen resolved cache, "")
  end.

Definition si_result (st : ShowIncludesParser) : ScanResult := mkScan (si_resolved st) [] false.

(** The streaming parser over the chunks of a compile. *)
Definition show_includes_stream (chunks : list bytes) (source cwd : bytes) (cache : CanonCache) :
    ScanResult * bytes :=
  let '(st, out) := push_all si_finish_line chunks (ShowIncludesParser_new source cwd cache) in
  (si_result st, out).

(** The batch parser.  [split_lines_preserving]: the text and the bytes of every
    line. *)
Fixpoint split_lines_from (line : bytes) (data : bytes) : list (bytes * bytes) :=
  match data with
  | EmptyString => if bool_decide (line = "") then [] else [(line, line)]
  | String c data' =>
      if bool_decide (c = LF)
      then (default line (strip_suffix (String CR "") line), line +:+ String LF "") :: split_lines_from "" data'
      else split_lines_from (line +:+ String c "") data'
  end.
Definition split_lines_preserving (data : bytes) : list (bytes * bytes) := split_lines_from "" data.

Fixpoint count_candidate (candidate : bytes) (counts : list (bytes * nat)) : list (bytes * nat) :=
  match counts with
  | [] => [(candidate, 1%nat)]
  | (pfx, n) :: rest =>
      if bool_decide (pfx = candidate) then (pfx, S n) :: rest else (pfx, n) :: count_candidate candidate rest
  end.

(** [max_by_key] keeps the last of equal maxima. *)
Fixpoint last_max (counts : list (bytes * nat)) (best : option (bytes * nat)) : option (bytes * nat) :=
  match counts with
  | [] => best
  | (p, n) :: rest =>
      last_max rest (match best with Some (_, m) => if (m <=? n)%nat then Some (p, n) else best | None => Some (p, n) end)
  end.

Definition detect_prefix (lines : list (bytes * bytes)) : option bytes :=
  let texts := map (fun l => from_utf8_lossy l.1) lines in
  if existsb (starts_with ENGLISH_PREFIX) texts then Some ENGLISH_PREFIX
  else
    let counts := fold_left (fun counts line =>
      match extract_prefix_candidate line with Some c => count_candidate c counts | None => counts end) texts [] in
    fst <$> last_max counts None.

Fixpoint show_lines (lines : list (bytes * bytes)) (prefix : option bytes) (source cwd : bytes)
    (seen : gset string) (resolved : list NormalizedPath) (filtered : bytes) (cache : CanonCache) :
    list NormalizedPath * bytes :=
  match lines with
  | [] => (resolved, filtered)
  | (text, raw) :: rest =>
      match prefix ≫= fun p => strip_prefix p (from_utf8_lossy text) with
      | None => show_lines rest prefix source cwd seen resolved (filtered +:+ raw) cache
      | Some path_str =>
          let path_str := str_trim path_str in
          if bool_decide (path_str = "") then show_lines rest prefix source cwd seen resolved filtered cache
          else
            let '(abs_path, cache) := canonicalize_path realpath (dep_query cwd path_str) cwd cache in
            let '(seen, resolved) := record_include abs_path source seen resolved in
            show_lines rest prefix source cwd seen resolved filtered cache
      end
  end.

Definition parse_show_includes (stderr source cwd : bytes) (cache : CanonCache) : ScanResult * bytes :=
  let '(src, cache) := canonicalize_path realpath source cwd cache in
  let lines := split_lines_preserving stderr in
  let '(resolved, filtered) := show_lines lines (detect_prefix lines) src cwd ∅ [] "" cache in
  (mkScan resolved [] false, filtered).

(** ** [header_trace.rs] *)

Record HeaderTraceParser := mkTrace {
  ht_source : NormalizedPath;
  ht_cwd : NormalizedPath;
  ht_seen : gset string;
  ht_resolved : list NormalizedPath;
  gcc_guard_summary : bool;
  incomplete : bool;
  ht_cache : CanonCache;
}.

Definition HeaderTraceParser_new (source cwd : bytes) (cache : CanonCache) : HeaderTraceParser :=
  let '(src, cache) := canonicalize_path realpath source cwd cache in
  mkTrace src (NormalizedPath_new cwd) ∅ [] false false cache.

Definition set_guard (b : bool) (st : HeaderTraceParser) : HeaderTraceParser :=
  mkTrace (ht_source st) (ht_cwd st) (ht_seen st) (ht_resolved st) b (incomplete st) (ht_cache st).
Definition set_incomplete (st : HeaderTraceParser) : HeaderTraceParser :=
  mkTrace (ht_source st) (ht_cwd st) (ht_seen st) (ht_resolved st) (gcc_guard_summary st) true (ht_cache st).

Definition ht_resolve_path (path : bytes) (st : HeaderTraceParser) : option NormalizedPath * HeaderTraceParser :=
  if bool_decide (path = "") then (None, st)
  else
    let query := if has_root path then path else np_join (ht_cwd st) path in
    let '(p, cache) := canonicalize_path realpath query (ht_cwd st) (ht_cache st) in
    let st := mkTrace (ht_source st) (ht_cwd st) (ht_seen st) (ht_resolved st) (gcc_guard_summary st) (incomplete st) cache in
    (if is_file p then Some p else None, st).

Definition record_resolved_path (path : NormalizedPath) (st : HeaderTraceParser) : HeaderTraceParser :=
  let '(seen, resolved) := record_include path (ht_source st) (ht_seen st) (ht_resolved st) in
  mkTrace (ht_source st) (ht_cwd st) seen resolved (gcc_guard_summary st) (incomplete st) (ht_cache st).

Definition record_path (path : bytes) (st : HeaderTraceParser) : bool * HeaderTraceParser :=
  match ht_resolve_path path st with
  | (None, st) => (false, st)
  | (Some p, st) => (true, record_resolved_path p st)
  end.

Definition record_path_bytes (b : bytes) (st : HeaderTraceParser) : bool * HeaderTraceParser :=
  if from_utf8_ok b then record_path b st else (false, st).

Fixpoint any_slash (b : bytes) : bool :=
  match b with
  | EmptyString => false
  | String c b' => bool_decide (c = slash) || bool_decide (c = BS) || any_slash b'
  end.
Definition looks_like_path (b : bytes) : bool := bool_decide (String.get 1 b = Some COLON) || any_slash b.

(** The dots in front of a record and what follows them. *)
Fixpoint dots (s : bytes) : nat * bytes :=
  match s with
  | String c s' => if bool_decide (c = "."%char) then let '(n, r) := dots s' in (S n, r) else (O, s)
  | EmptyString => (O, "")
  end.
Definition trace_path (text : bytes) : option bytes :=
  let '(depth, rest) := dots text in
  match depth with
  | O => None
  | _ =>
      match rest with
      | String a r1 =>
          if bool_decide (a = SP) then Some r1
          else if bool_decide (a ∈ ["!"%char; "x"%char]) then
            match r1 with
            | String b r2 => if bool_decide (b = SP) then Some r2 else None
            | EmptyString => None
            end
          else None
      | EmptyString => None
      end
  end.

Definition GUARD_SUMMARY : bytes := "Multiple include guards may be useful for:".

(** The part of [record_header] behind the summary of include guards. *)
Definition record_trace_line (text : bytes) (st : HeaderTraceParser) : bool * HeaderTraceParser :=
  match trace_path text with
  | None => (false, st)
  | Some path =>
      match record_path_bytes path st with
      | (true, st) => (true, st)
      | (false, st) => (false, set_incomplete st)
      end
  end.

Definition record_header (raw : bytes) (st : HeaderTraceParser) : bool * HeaderTraceParser :=
  let text := line_text raw in
  if bool_decide (text = GUARD_SUMMARY) then (true, set_guard true st)
  else if gcc_guard_summary st then
    match record_path_bytes text st with
    | (true, st) => (true, st)
    | (false, st) => record_trace_line text (set_guard false (if looks_like_path text then set_incomplete st else st))
    end
  else record_trace_line text st.

Definition ht_finish_line (raw : bytes) (st : HeaderTraceParser) : HeaderTraceParser * bytes :=
  let '(taken, st) := record_header raw st in (st, if taken then "" else raw).

Definition ht_result (st : HeaderTraceParser) : ScanResult := mkScan (ht_resolved st) [] (incomplete st).

Definition header_trace_stream (chunks : list bytes) (source cwd : bytes) (cache : CanonCache) : ScanResult * bytes :=
  let '(st, out) := push_all ht_finish_line chunks (HeaderTraceParser_new source cwd cache) in
  (ht_result st, out).

Definition parse_header_trace (stderr source cwd : bytes) (cache : CanonCache) : ScanResult * bytes :=
  header_trace_stream [stderr] source cwd cache.

(** ** The dependency graph of Clang *)

Fixpoint take_digits (s : bytes) : bytes * bytes :=
  match s with
  | String c s' =>
      match digit_val c with
      | Some _ => let '(d, r) := take_digits s' in (String c d, r)
      | None => ("", s)
      end
  | EmptyString => ("", "")
  end.

(** [header_] and a number that fits 64 bits. *)
Definition graph_id (line : bytes) : option (Z * bytes) :=
  rest ← strip_prefix "header_" line;
  let '(digits, rest) := take_digits rest in
  id ← parse_u64 digits; Some (id, rest).

(** The label up to its closing quote, which ends the line. *)
Fixpoint graph_label (s label : bytes) : option bytes :=
  match s with
  | EmptyString => None
  | String c s1 =>
      if bool_decide (c = ascii_of_nat 34) then if bool_decide (s1 = "];") then Some label else None
      else if bool_decide (c = BS) then
        match s1 with
        | EmptyString => None
        | String e s2 =>
            if bool_decide (e = "n"%char) then graph_label s2 (label +:+ String LF "")
            else if bool_decide (e ∈ [BS; ascii_of_nat 34; "{"%char; "}"%char; "<"%char; ">"%char; "|"%char])
            then graph_label s2 (label +:+ String e "")
            else if bool_decide (e = "l"%char) then graph_label s2 (label +:+ String BS "l")
            else None
        end
      else graph_label s1 (label +:+ String c "")
  end.

Definition QUOTE1 : bytes := String (ascii_of_nat 34) "".
Definition NODE_PREFIX : bytes := " [ shape=" +:+ QUOTE1 +:+ "box" +:+ QUOTE1 +:+ ", label=" +:+ QUOTE1.
Definition GRAPH_HEADER : bytes := "digraph " +:+ QUOTE1 +:+ "dependencies" +:+ QUOTE1 +:+ " {".

Definition parse_dependency_graph_node (line : bytes) : option (Z * bytes) :=
  '(id, rest) ← graph_id line;
  rest ← strip_prefix NODE_PREFIX rest;
  label ← graph_label rest "";
  Some (id, label).

Definition parse_dependency_graph_edge (line : bytes) : option (Z * Z) :=
  '(from, rest) ← graph_id line;
  rest ← strip_prefix " -> header_" rest;
  let '(digits, rest) := take_digits rest in
  if bool_decide (rest = ";") then to ← parse_u64 digits; Some (from, to) else None.

(** On Linux the candidate with the root put back is [/path]. *)
Definition resolve_dependency_graph_path (b : bytes) (st : HeaderTraceParser) :
    option NormalizedPath * HeaderTraceParser :=
  if negb (from_utf8_ok b) then (None, st)
  else
    let '(first, st) := ht_resolve_path b st in
    let '(second, st) := if has_root b then (None, st) else ht_resolve_path (path_push "/" b) st in
    (match first, second with
     | Some p, Some q => if bool_decide (q = p) then Some p else None
     | Some p, None => Some p
     | None, Some q => Some q
     | None, None => None
     end, st).

Record GraphState := mkGraphState {
  saw_header : bool;
  saw_footer : bool;
  saw_source : bool;
  node_ids : gset Z;
  graph_edges : list (Z * Z);
  graph_parser : HeaderTraceParser;
}.

Definition graph_bad (g : GraphState) : GraphState :=
  mkGraphState (saw_header g) (saw_footer g) (saw_source g) (node_ids g) (graph_edges g)
    (set_incomplete (graph_parser g)).

Definition graph_node_line (line : bytes) (g : GraphState) : GraphState :=
  match parse_dependency_graph_node line with
  | None => graph_bad g
  | Some (id, label) =>
      if bool_decide (id ∈ node_ids g) then graph_bad g
      else
        let g := mkGraphState (saw_header g) (saw_footer g) (saw_source g) ({[id]} ∪ node_ids g) (graph_edges g)
                   (graph_parser g) in
        match resolve_dependency_graph_path label (graph_parser g) with
        | (None, st) =>
            graph_bad (mkGraphState (saw_header g) (saw_footer g) (saw_source g) (node_ids g) (graph_edges g) st)
        | (Some p, st) =>
            mkGraphState (saw_header g) (saw_footer g) (saw_source g || bool_decide (p = ht_source st)) (node_ids g)
              (graph_edges g) (record_resolved_path p st)
        end
  end.

Definition graph_line (raw : bytes) (g : GraphState) : GraphState :=
  let line := default raw (strip_suffix (String CR "") raw) in
  if bool_decide (line = "") then g
  else if negb (saw_header g) then
    if bool_decide (line = GRAPH_HEADER)
    then mkGraphState true (saw_footer g) (saw_source g) (node_ids g) (graph_edges g) (graph_parser g)
    else graph_bad g
  else if bool_decide (line = "}") then
    let g := if saw_footer g then graph_bad g else g in
    mkGraphState (saw_header g) true (saw_source g) (node_ids g) (graph_edges g) (graph_parser g)
  else if saw_footer g then graph_bad g
  else match strip_prefix "  " line with
  | None => graph_bad g
  | Some line =>
      match parse_dependency_graph_edge line with
      | Some edge =>
          mkGraphState (saw_header g) (saw_footer g) (saw_source g) (node_ids g) (graph_edges g ++ [edge]) (graph_parser g)
      | None => graph_node_line line g
      end
  end.

Definition graph_incomplete (g : GraphState) : bool :=
  negb (saw_header g) || negb (saw_footer g) ||
  (negb (bool_decide (node_ids g = ∅)) && negb (saw_source g)) ||
  existsb (fun e => negb (bool_decide (e.1 ∈ node_ids g)) || negb (bool_decide (e.2 ∈ node_ids g))) (graph_edges g).

(** [content] is what reading the file gave. *)
Definition parse_dependency_graph_file (content : option bytes) (source cwd : bytes) (cache : CanonCache) : ScanResult :=
  let parser := HeaderTraceParser_new source cwd cache in
  match content with
  | None => ht_result (set_incomplete parser)
  | Some graph =>
      let g := fold_left (fun g l => graph_line l g) (split_char LF graph)
                 (mkGraphState false false false ∅ [] parser) in
      ht_result (if graph_incomplete g then set_incomplete (graph_parser g) else graph_parser g)
  end.
End trace.

(** ** Chunks do not matter *)

(** The complete lines of a text, terminators included, and what follows them. *)
Fixpoint cut_from (line s : bytes) : list bytes * bytes :=
  match s with
  | EmptyString => ([], line)
  | String c s' =>
      if bool_decide (c = LF)
      then let '(ls, t) := cut_from "" s' in ((line +:+ String LF "") :: ls, t)
      else cut_from (line +:+ String c "") s'
  end.
Definition cut (s : bytes) : list bytes * bytes := cut_from "" s.

Lemma cut_from_app line s1 s2 :
  cut_from line (s1 +:+ s2) =
    ((cut_from line s1).1 ++ (cut_from (cut_from line s1).2 s2).1, (cut_from (cut_from line s1).2 s2).2).
Proof.
  revert line. induction s1 as [|c s1 IH]; intros line; simpl; [by destruct (cut_from line s2)|].
  case_bool_decide; rewrite IH; [|done]. by destruct (cut_from "" s1) as [ls t].
Qed.

Lemma cut_from_once line s :
  match split_once LF s with
  | Some (a, b) => cut_from line s = ((line +:+ a +:+ String LF "") :: (cut b).1, (cut b).2) /\
      (String.length b < String.length s)%nat
  | None => cut_from line s = ([], line +:+ s)
  end.
Proof.
  revert line. induction s as [|c s IH]; intros line; simpl; [by rewrite string_app_nil_r|].
  case_bool_decide as Hc.
  - subst. unfold cut. destruct (cut_from "" s). simpl. split; [done|lia].
  - specialize (IH (line +:+ String c "")). destruct (split_once LF s) as [[a b]|]; simpl.
    + destruct IH as [-> Hl]. rewrite !string_app_assoc. split; [done|lia].
    + by rewrite IH, string_app_assoc.
Qed.

(** The first line of a text that continues [line] starts with it. *)
Lemma cut_from_extends line s :
  match (cut_from line s).1 with
  | l :: _ => (String.length line < String.length l)%nat
  | [] => (String.length line <= String.length (cut_from line s).2)%nat
  end.
Proof.
  pose proof (cut_from_once line s) as H. destruct (split_once LF s) as [[a b]|].
  - destruct H as [-> _]. cbn [fst]. rewrite !string_length_app. simpl. lia.
  - rewrite H. cbn [fst snd]. rewrite string_length_app. lia.
Qed.

Section chunks.
Context {A : Type} (finish_line : bytes -> A -> A * bytes).

Fixpoint run_lines (ls : list bytes) (ao : A * bytes) : A * bytes :=
  match ls with
  | [] => ao
  | l :: ls' => let '(a, out) := finish_line l ao.1 in run_lines ls' (a, ao.2 +:+ out)
  end.

Lemma run_lines_app ls ks ao : run_lines (ls ++ ks) ao = run_lines ks (run_lines ls ao).
Proof.
  revert ao. induction ls as [|l ls IH]; intros ao; cbn [app run_lines]; [done|].
  destruct (finish_line l ao.1) as [a out]. by rewrite IH.
Qed.

(** The lines of a text, the unterminated last one included. *)
Definition all_lines (s : bytes) : list bytes :=
  (cut s).1 ++ (if bool_decide ((cut s).2 = "") then [] else [(cut s).2]).

(** No line is longer than the buffer. *)
Definition lines_short (s : bytes) : Prop :=
  Forall (fun l => Z.of_nat (String.length l) <= MAX_PARTIAL_LINE_BYTES + 1) (cut s).1 /\
  Z.of_nat (String.length (cut s).2) <= MAX_PARTIAL_LINE_BYTES.

Lemma push_loop_lines fuel chunk part a out :
  (String.length chunk < fuel)%nat ->
  let c := cut_from part chunk in
  Z.of_nat (String.length c.2) <= MAX_PARTIAL_LINE_BYTES ->
  push_loop finish_line fuel chunk (mkParser part false a) out =
    (mkParser c.2 false (run_lines c.1 (a, out)).1, (run_lines c.1 (a, out)).2).
Proof.
  revert chunk part a out. induction fuel as [|fuel IH]; intros chunk part a out Hf c Hc; [lia|].
  cbn [push_loop]. destruct (bool_decide_reflect (chunk = "")) as [->|Hne]; [done|]. cbn [passthrough_line].
  pose proof (cut_from_once part chunk) as Hcut. unfold c in *. clear c.
  destruct (split_once LF chunk) as [[line rest]|].
  - destruct Hcut as [Hcut Hlt]. rewrite Hcut in *. cbn [fst snd run_lines partial parser].
    destruct (finish_line (part +:+ line +:+ String LF "") a) as [a1 o1]. apply IH; [lia|exact Hc].
  - rewrite Hcut in *. cbn [fst snd run_lines partial parser]. cbn [fst snd] in Hc.
    by rewrite (proj2 (Z.ltb_ge _ _) Hc).
Qed.

Lemma short_app s1 s2 : lines_short (s1 +:+ s2) -> Z.of_nat (String.length (cut s1).2) <= MAX_PARTIAL_LINE_BYTES.
Proof.
  unfold lines_short, cut. rewrite cut_from_app. cbn [fst snd]. intros [H1 H2].
  pose proof (cut_from_extends (cut_from "" s1).2 s2) as Hx.
  destruct (cut_from (cut_from "" s1).2 s2) as [[|l ls] t]; cbn [fst snd] in *; [lia|].
  apply Forall_app in H1 as [_ H1]. apply Forall_cons in H1 as [H1 _]. lia.
Qed.

Lemma push_fold chunks s a out :
  lines_short (s +:+ concat_bytes chunks) ->
  fold_left (fun po c => push finish_line c po) chunks
      (mkParser (cut s).2 false (run_lines (cut s).1 (a, out)).1, (run_lines (cut s).1 (a, out)).2) =
    let t := s +:+ concat_bytes chunks in
    (mkParser (cut t).2 false (run_lines (cut t).1 (a, out)).1, (run_lines (cut t).1 (a, out)).2).
Proof.
  revert s. induction chunks as [|c chunks IH]; intros s Hs; cbn [fold_left concat_bytes] in *.
  { by rewrite string_app_nil_r. }
  rewrite <- string_app_assoc in Hs |- *. rewrite <- IH by done. f_equal. unfold push. cbn [fst snd].
  pose proof (short_app _ _ Hs) as Hc. unfold cut in Hc |- *. rewrite cut_from_app in Hc |- *. cbn [fst snd] in *.
  rewrite push_loop_lines; [|lia|exact Hc]. rewrite run_lines_app.
  by destruct (run_lines (cut_from "" s).1 (a, out)).
Qed.

(** Any chunking is the run over the lines. *)
Lemma push_all_lines chunks a :
  lines_short (concat_bytes chunks) ->
  push_all finish_line chunks a = run_lines (all_lines (concat_bytes chunks)) (a, "").
Proof.
  intros Hs. unfold push_all.
  change (mkParser "" false a, "") with
    (mkParser (cut "").2 false (run_lines (cut "").1 (a, "")).1, (run_lines (cut "").1 (a, "")).2).
  rewrite (push_fold chunks "" a "" Hs). cbv zeta. change ("" +:+ concat_bytes chunks) with (concat_bytes chunks).
  unfold finish, all_lines. cbn [partial parser]. rewrite run_lines_app.
  destruct (run_lines (cut (concat_bytes chunks)).1 (a, "")) as [a1 o1]. cbn [fst snd].
  case_bool_decide; [done|]. cbn [run_lines fst snd]. by destruct (finish_line _ a1).
Qed.
End chunks.

(** How a stream is cut into chunks does not matter.  Both stderr parsers
    give the same dependencies and pass through the same bytes for any two
    chunkings of one output, as long as no line exceeds the 64 KiB buffer. *)
Theorem chunking_irrelevant (realpath : bytes -> option bytes) (is_file : bytes -> bool)
    (chunks1 chunks2 : list bytes) (source cwd : bytes) (cache : CanonCache) :
  concat_bytes chunks1 = concat_bytes chunks2 -> lines_short (concat_bytes chunks1) ->
  show_includes_stream realpath chunks1 source cwd cache = show_includes_stream realpath chunks2 source cwd cache /\
  header_trace_stream realpath is_file chunks1 source cwd cache =
    header_trace_stream realpath is_file chunks2 source cwd cache.
Proof.
  intros Heq Hs. unfold show_includes_stream, header_trace_stream.
  rewrite !(push_all_lines _ chunks1) by done. rewrite !(push_all_lines _ chunks2) by (by rewrite <- Heq).
  by rewrite Heq.
Qed.

(** Decidable form of the bound on lines. *)
Definition lines_shortb (s : bytes) : bool :=
  forallb (fun l => Z.of_nat (String.length l) <=? MAX_PARTIAL_LINE_BYTES + 1) (cut s).1 &&
  (Z.of_nat (String.length (cut s).2) <=? MAX_PARTIAL_LINE_BYTES).
Lemma lines_shortb_ok s : lines_shortb s = true -> lines_short s.
Proof.
  unfold lines_shortb, lines_short. intros [H1 H2]%andb_prop. split; [|by apply Z.leb_le].
  rewrite forallb_forall in H1. apply Forall_forall. intros l Hl%list_elem_of_In. by apply Z.leb_le, H1.
Qed.

Definition crlf : bytes := String CR (String LF "").

Lemma chunking_irrelevant_witness :
  let out := ". /w/a.h" +:+ crlf +:+ "a.c:3: warning" +:+ crlf +:+ ".. /w/b.h" in
  let chunks := [". /w/a."; "h" +:+ String CR ""; String LF "a.c:3: war"; ""; "ning" +:+ crlf +:+ ".. /w/b.h"] in
  header_trace_stream (fun _ => None) (fun _ => true) chunks "/w/a.c" "/w" ∅ =
    header_trace_stream (fun _ => None) (fun _ => true) [out] "/w/a.c" "/w" ∅ /\
  header_trace_stream (fun _ => None) (fun _ => true) [out] "/w/a.c" "/w" ∅ =
    (mkScan ["/w/a.h"; "/w/b.h"] [] false, "a.c:3: warning" +:+ crlf).
Proof.
  intros out chunks. split; [|vm_compute; reflexivity].
  apply (chunking_irrelevant (fun _ => None) (fun _ => true) chunks [out] "/w/a.c" "/w" ∅);
    [vm_compute; reflexivity|apply lines_shortb_ok; vm_compute; reflexivity].
Defined.

(** ** The streaming and the batch parser of /showIncludes *)

(** The prefix the streaming parser settles on: that of the first line that has
    one. *)
Fixpoint latched (texts : list bytes) : option bytes :=
  match texts with
  | [] => None
  | t :: rest => match si_detect t None with Some p => Some p | None => latched rest end
  end.

Definition text_of (l : bytes * bytes) : bytes := from_utf8_lossy l.1.

Fixpoint no_lf (s : bytes) : bool :=
  match s with EmptyString => true | String c s' => negb (bool_decide (c = LF)) && no_lf s' end.

Lemma no_lf_app a b : no_lf (a +:+ b) = no_lf a && no_lf b.
Proof. induction a as [|c a IH]; simpl; [done|]. rewrite IH. by rewrite andb_assoc. Qed.

Lemma line_text_complete line : line_text (line +:+ String LF "") = default line (strip_suffix (String CR "") line).
Proof. unfold line_text. by rewrite (proj2 (strip_suffix_Some _ _ line) eq_refl). Qed.

Lemma line_text_tail t : no_lf t = true -> ends_with (String CR "") t = false -> line_text t = t.
Proof.
  intros Hn Hc. unfold line_text. destruct (strip_suffix (String LF "") t) as [a|] eqn:Hs; simpl.
  { apply strip_suffix_Some in Hs as ->. by rewrite no_lf_app, andb_false_r in Hn. }
  destruct (strip_suffix (String CR "") t) as [a|] eqn:Hs2; [|done]. apply strip_suffix_Some in Hs2 as ->.
  assert (ends_with (String CR "") (a +:+ String CR "") = true) as H by (apply ends_with_spec; eauto). congruence.
Qed.

(** Both parsers see the same lines, unless the output ends in a lone carriage
    return. *)
Lemma lines_agree_from line data :
  no_lf line = true -> ends_with (String CR "") (cut_from line data).2 = false ->
  split_lines_from line data =
    (fun raw => (line_text raw, raw)) <$>
      ((cut_from line data).1 ++ if bool_decide ((cut_from line data).2 = "") then [] else [(cut_from line data).2]).
Proof.
  revert line. induction data as [|c data IH]; intros line Hn Hc; cbn [split_lines_from cut_from] in *.
  - simpl in *. case_bool_decide; [done|]. simpl. by rewrite line_text_tail.
  - destruct (bool_decide_reflect (c = LF)) as [->|Hlf].
    + specialize (IH "" eq_refl). destruct (cut_from "" data) as [ls t]. cbn [fst snd app fmap list_fmap] in *.
      rewrite line_text_complete. f_equal. by apply IH.
    + apply IH; [|done]. by rewrite no_lf_app, Hn; simpl; rewrite bool_decide_eq_false_2.
Qed.

Section agree.
Context (realpath : bytes -> option bytes).

Lemma si_known p raw st :
  si_prefix st = Some p ->
  si_finish_line realpath raw st =
    match strip_prefix p (from_utf8_lossy (line_text raw)) with
    | None => (st, raw)
    | Some path =>
        if bool_decide (str_trim path = "") then (st, "")
        else
          let query := if has_root (str_trim path) then str_trim path else np_join (si_cwd st) (str_trim path) in
          let '(ap, cache) := canonicalize_path realpath query (si_cwd st) (si_cache st) in
          let '(seen, res) := record_include ap (si_source st) (si_seen st) (si_resolved st) in
          (mkShow (si_source st) (si_cwd st) (Some p) seen res cache, "")
    end.
Proof.
  intros Hp. unfold si_finish_line. rewrite Hp. cbn [si_detect mbind option_bind].
  destruct st as [src cwd prefix seen res cache]. simpl in Hp. subst. cbn.
  destruct (strip_prefix _ _); [|done]. case_bool_decide; done.
Qed.

(** Once the prefix is known, a line is handled alike. *)
Lemma stream_known p ls st out cwd :
  si_prefix st = Some p ->
  Forall (fun raw => forall path, strip_prefix p (from_utf8_lossy (line_text raw)) = Some path ->
    str_trim path = "" \/ has_root (str_trim path) = true) ls ->
  let r := run_lines (si_finish_line realpath) ls (st, out) in
  (si_resolved r.1, r.2) =
    show_lines realpath ((fun raw => (line_text raw, raw)) <$> ls) (Some p) (si_source st) cwd
      (si_seen st) (si_resolved st) out (si_cache st).
Proof.
  intros Hp Hall. cbv zeta. revert st out Hp. induction Hall as [|raw ls Hr Hall IH]; intros st out Hp; [done|].
  cbn [run_lines fst snd fmap list_fmap show_lines mbind option_bind]. rewrite (si_known p raw st Hp).
  destruct (strip_prefix p (from_utf8_lossy (line_text raw))) as [path|] eqn:Hs; [|by rewrite IH].
  case_bool_decide as He; [rewrite IH by done; by rewrite string_app_nil_r|].
  destruct (Hr path eq_refl) as [?|Hroot]; [done|]. unfold dep_query. rewrite Hroot.
  assert (canonicalize_path realpath (str_trim path) (si_cwd st) (si_cache st) =
    canonicalize_path realpath (str_trim path) cwd (si_cache st)) as ->.
  { unfold canonicalize_path, canonicalize_uncached. by rewrite Hroot. }
  cbv zeta. destruct (canonicalize_path realpath (str_trim path) cwd (si_cache st)) as [ap cache].
  destruct (record_include ap (si_source st) (si_seen st) (si_resolved st)) as [seen res].
  rewrite IH by done. by rewrite string_app_nil_r.
Qed.

(** Until then, lines pass through. *)
Lemma stream_unknown ls st out cwd op :
  si_prefix st = None -> latched (from_utf8_lossy <$> (line_text <$> ls)) = op ->
  Forall (fun raw => forall p, op = Some p ->
    (si_detect (from_utf8_lossy (line_text raw)) None = None -> strip_prefix p (from_utf8_lossy (line_text raw)) = None) /\
    (forall path, strip_prefix p (from_utf8_lossy (line_text raw)) = Some path ->
       str_trim path = "" \/ has_root (str_trim path) = true)) ls ->
  let r := run_lines (si_finish_line realpath) ls (st, out) in
  (si_resolved r.1, r.2) =
    show_lines realpath ((fun raw => (line_text raw, raw)) <$> ls) op (si_source st) cwd
      (si_seen st) (si_resolved st) out (si_cache st).
Proof.
  intros Hp Hl Hall. cbv zeta. revert st out Hp Hl. induction Hall as [|raw ls Hr Hall IH]; intros st out Hp Hl; [done|].
  cbn [fmap list_fmap latched] in Hl. destruct (si_detect (from_utf8_lossy (line_text raw)) None) as [p|] eqn:Hd.
  - subst op. set (st1 := mkShow (si_source st) (si_cwd st) (Some p) (si_seen st) (si_resolved st) (si_cache st)).
    assert (run_lines (si_finish_line realpath) (raw :: ls) (st, out) =
      run_lines (si_finish_line realpath) (raw :: ls) (st1, out)) as ->.
    { cbn [run_lines fst snd]. f_equal. unfold si_finish_line. rewrite Hp, Hd. done. }
    apply (stream_known p (raw :: ls) st1 out cwd eq_refl).
    constructor; [by apply (Hr p)|]. eapply Forall_impl; [exact Hall|]. intros x Hx. by apply (Hx p).
  - cbn [run_lines fst snd fmap list_fmap show_lines].
    assert (si_finish_line realpath raw st = (st, raw)) as ->.
    { unfold si_finish_line. rewrite Hp, Hd. cbn. destruct st. simpl in *. by subst. }
    assert ((op ≫= fun p => strip_prefix p (from_utf8_lossy (line_text raw))) = None) as ->.
    { destruct op as [p|]; [|done]. simpl. by apply (Hr p). }
    by apply IH.
Qed.
End agree.

(** The streaming parser of /showIncludes computes what the batch parser
    computes.  For every chunking of an output whose lines fit the buffer, the
    dependencies and the remaining stderr are the same, provided the first line
    that suggests a prefix suggests the one the whole output has, every line with
    that prefix suggests one itself, and the paths are absolute. *)
Theorem show_includes_agree (realpath : bytes -> option bytes) (chunks : list bytes) (source cwd : bytes)
    (cache : CanonCache) :
  let data := concat_bytes chunks in
  let lines := split_lines_preserving data in
  lines_short data -> ends_with (String CR "") (cut data).2 = false ->
  latched (text_of <$> lines) = detect_prefix lines ->
  Forall (fun l => forall p, detect_prefix lines = Some p ->
    (si_detect (text_of l) None = None -> strip_prefix p (text_of l) = None) /\
    (forall path, strip_prefix p (text_of l) = Some path -> str_trim path = "" \/ has_root (str_trim path) = true)) lines ->
  show_includes_stream realpath chunks source cwd cache = parse_show_includes realpath data source cwd cache.
Proof.
  intros data lines Hshort Hcr Hl Hall. unfold show_includes_stream, parse_show_includes, ShowIncludesParser_new.
  fold data. fold lines. destruct (canonicalize_path realpath source cwd cache) as [src cache1].
  rewrite push_all_lines by done. fold data.
  assert (lines = (fun raw => (line_text raw, raw)) <$> all_lines data) as Hlines by (by apply lines_agree_from).
  set (op := detect_prefix lines) in *. clearbody op.
  set (st := mkShow src (NormalizedPath_new cwd) None ∅ [] cache1).
  pose proof (stream_unknown realpath (all_lines data) st "" cwd op eq_refl) as H.
  assert (text_of <$> lines = from_utf8_lossy <$> (line_text <$> all_lines data)) as Ht.
  { rewrite Hlines, <- !list_fmap_compose. done. }
  rewrite Ht in Hl. specialize (H Hl). rewrite Hlines, Forall_fmap in Hall. specialize (H Hall).
  rewrite <- Hlines in H. cbn [si_source si_seen si_resolved si_cache st] in H.
  destruct (run_lines (si_finish_line realpath) (all_lines data) (st, "")) as [st' out].
  cbn [fst snd] in H. destruct (show_lines realpath lines _ src cwd ∅ [] "" cache1) as [res filt].
  injection H as <- <-. done.
Qed.

Definition demo_show : bytes :=
  "a.cpp" +:+ crlf +:+ "Note: including file: /inc/a.h" +:+ crlf +:+ "a.cpp(3): warning" +:+ String LF "" +:+
  "Note: including file:   /inc/b.h" +:+ crlf +:+ "Note: including file: /inc/a.h".

Lemma show_includes_agree_witness :
  show_includes_stream (fun _ => None) ["a.cpp" +:+ crlf +:+ "Note: incl"; str_skip 17 demo_show] "/w/a.cpp" "/w" ∅ =
    parse_show_includes (fun _ => None) demo_show "/w/a.cpp" "/w" ∅ /\
  parse_show_includes (fun _ => None) demo_show "/w/a.cpp" "/w" ∅ =
    (mkScan ["/inc/a.h"; "/inc/b.h"] [] false, "a.cpp" +:+ crlf +:+ "a.cpp(3): warning" +:+ String LF "").
Proof.
  split; [|vm_compute; reflexivity].
  pose proof (show_includes_agree (fun _ => None) ["a.cpp" +:+ crlf +:+ "Note: incl"; str_skip 17 demo_show]
    "/w/a.cpp" "/w" ∅) as H. cbv zeta in H.
  assert (concat_bytes ["a.cpp" +:+ crlf +:+ "Note: incl"; str_skip 17 demo_show] = demo_show) as Hd
    by (vm_compute; reflexivity).
  rewrite Hd in H. apply H; clear H Hd; [apply lines_shortb_ok; vm_compute; reflexivity|vm_compute; reflexivity..|].
  assert (detect_prefix (split_lines_preserving demo_show) = Some ENGLISH_PREFIX) as -> by (vm_compute; reflexivity).
  assert (map text_of (split_lines_preserving demo_show) =
    ["a.cpp"; "Note: including file: /inc/a.h"; "a.cpp(3): warning"; "Note: including file:   /inc/b.h";
     "Note: including file: /inc/a.h"]) as Ht by (vm_compute; reflexivity).
  apply Forall_forall. intros l Hl p [= <-].
  assert (text_of l ∈ map text_of (split_lines_preserving demo_show)) as Hin.
  { apply list_elem_of_In, in_map, list_elem_of_In, Hl. }
  rewrite Ht in Hin. clear Hl Ht. rewrite !elem_of_cons, elem_of_nil in Hin.
  destruct Hin as [->|[->|[->|[->|[->|[]]]]]]; (split; [vm_compute; done|]); intros path Hp; vm_compute in Hp;
    try discriminate; injection Hp as <-; right; vm_compute; reflexivity.
Defined.

(** ** A prefix taken from the wrong line *)

Lemma cut_line n rest : no_lf n = true -> cut (n +:+ String LF "" +:+ rest) = ((n +:+ String LF "") :: (cut rest).1, (cut rest).2).
Proof.
  intros Hn. unfold cut.
  assert (forall line, cut_from line (n +:+ String LF "" +:+ rest) =
    ((line +:+ n +:+ String LF "") :: (cut_from "" rest).1, (cut_from "" rest).2)) as H; [|apply (H "")].
  induction n as [|c n IH]; intros line; simpl.
  - by destruct (cut_from "" rest).
  - simpl in Hn. apply andb_prop in Hn as [Hc%negb_true_iff Hn]. rewrite Hc, IH by done. by rewrite string_app_assoc.
Qed.

Lemma concat_cut line s : concat_bytes (cut_from line s).1 +:+ (cut_from line s).2 = line +:+ s.
Proof.
  revert line. induction s as [|c s IH]; intros line; simpl; [by rewrite string_app_nil_r|].
  case_bool_decide; [subst; specialize (IH ""); destruct (cut_from "" s) as [ls t]; simpl in *|rewrite IH];
    rewrite ?string_app_assoc; [|done]. by rewrite IH.
Qed.

Lemma concat_all_lines s : concat_bytes (all_lines s) = s.
Proof.
  unfold all_lines. rewrite concat_bytes_app. pose proof (concat_cut "" s) as H. unfold cut. simpl in H.
  etrans; [|exact H]. f_equal. case_bool_decide as He; [by rewrite He|]. simpl. by rewrite string_app_nil_r.
Qed.

(** Lines without the prefix pass through. *)
Lemma stream_passes realpath q ls st out :
  si_prefix st = Some q -> Forall (fun raw => strip_prefix q (from_utf8_lossy (line_text raw)) = None) ls ->
  run_lines (si_finish_line realpath) ls (st, out) = (st, out +:+ concat_bytes ls).
Proof.
  intros Hq Hall. revert out. induction Hall as [|raw ls Hr _ IH]; intros out; cbn [run_lines fst snd concat_bytes].
  - by rewrite string_app_nil_r.
  - rewrite (si_known realpath q raw st Hq), Hr. by rewrite IH, string_app_assoc.
Qed.

Lemma si_prefix_kept realpath raw st :
  si_prefix (si_finish_line realpath raw st).1 = si_detect (from_utf8_lossy (line_text raw)) (si_prefix st).
Proof.
  unfold si_finish_line. set (p := si_detect _ _). destruct (p ≫= _) as [path|]; [|done].
  case_bool_decide; [done|]. destruct (canonicalize_path _ _ _ _) as [ap c].
  destruct (record_include _ _ _ _) as [s r]. done.
Qed.

(** The streaming parser can take its prefix from a line that is no include.
    When the first line that suggests a prefix is an ordinary diagnostic that
    mentions a Windows path after a colon, the parser keeps that prefix: no line
    without it is read any more, so every real include line is passed through
    as stderr and the scan, still marked exact, lists at most the diagnostic's
    own path. *)
Theorem show_includes_latches (realpath : bytes -> option bytes) (chunks : list bytes) (noise rest q : bytes)
    (source cwd : bytes) (cache : CanonCache) :
  let first := noise +:+ String LF "" in
  concat_bytes chunks = first +:+ rest -> no_lf noise = true -> lines_short (first +:+ rest) ->
  si_detect (from_utf8_lossy (line_text first)) None = Some q ->
  Forall (fun raw => strip_prefix q (from_utf8_lossy (line_text raw)) = None) (all_lines rest) ->
  let only := show_includes_stream realpath [first] source cwd cache in
  show_includes_stream realpath chunks source cwd cache = (only.1, only.2 +:+ rest) /\
  (length (resolved only.1) <= 1)%nat /\ has_computed only.1 = false.
Proof.
  intros first Hc Hn Hs Hd Hall only. unfold only, show_includes_stream. clear only.
  assert (cut first = ([first], "")) as Hcf.
  { pose proof (cut_line noise "" Hn) as H. rewrite string_app_nil_r in H. exact H. }
  assert (lines_short first) as Hs1.
  { unfold lines_short in *. unfold first in Hs. rewrite string_app_assoc, cut_line in Hs by done. rewrite Hcf. simpl in *.
    destruct Hs as [Hs _]. apply Forall_cons in Hs as [Hs _]. split; [by repeat constructor|]. done. }
  rewrite (push_all_lines _ chunks) by (by rewrite Hc). rewrite Hc.
  rewrite (push_all_lines _ [first]) by (by cbn [concat_bytes]; rewrite string_app_nil_r).
  cbn [concat_bytes]. rewrite string_app_nil_r.
  assert (all_lines first = [first]) as Ha1 by (unfold all_lines; by rewrite Hcf).
  assert (all_lines (first +:+ rest) = first :: all_lines rest) as Ha2.
  { unfold all_lines, first. rewrite string_app_assoc, cut_line by done. done. }
  rewrite Ha1, Ha2. cbn [run_lines fst snd].
  set (st := ShowIncludesParser_new realpath source cwd cache).
  assert (si_prefix st = None /\ si_resolved st = []) as [Hp Hr].
  { unfold st, ShowIncludesParser_new. by destruct (canonicalize_path _ _ _ _). }
  pose proof (si_prefix_kept realpath first st) as Hk. rewrite Hp, Hd in Hk.
  assert (length (si_resolved (si_finish_line realpath first st).1) <= 1)%nat as Hlen.
  { unfold si_finish_line. destruct (_ ≫= _); [|simpl; rewrite Hr; simpl; lia].
    case_bool_decide; [simpl; rewrite Hr; simpl; lia|]. destruct (canonicalize_path _ _ _ _) as [ap c].
    cbn [si_source si_seen si_resolved]. rewrite Hr. unfold record_include. destruct (_ && _); simpl; lia. }
  destruct (si_finish_line realpath first st) as [st1 out]. cbn [fst snd] in *.
  rewrite (stream_passes realpath q) by done. rewrite concat_all_lines. done.
Qed.

Definition demo_noise : bytes := "cl : Command line warning D9002 : ignoring option in response file: C:\x.rsp".

Lemma show_includes_latches_witness :
  let rest := "Note: including file: /inc/a.h" +:+ crlf in
  (show_includes_stream (fun _ => None) [demo_noise +:+ String LF "" +:+ rest] "/w/a.cpp" "/w" ∅).1 =
    mkScan ["/w/C:\x.rsp"] [] false /\
  (parse_show_includes (fun _ => None) (demo_noise +:+ String LF "" +:+ rest) "/w/a.cpp" "/w" ∅).1 =
    mkScan ["/inc/a.h"] [] false.
Proof.
  intros rest. split; [|vm_compute; reflexivity].
  destruct (show_includes_latches (fun _ => None) [demo_noise +:+ String LF "" +:+ rest] demo_noise rest
    "cl : Command line warning D9002 : ignoring option in response file:" "/w/a.cpp" "/w" ∅) as [-> _];
    [vm_compute; reflexivity|vm_compute; reflexivity|apply lines_shortb_ok; vm_compute; reflexivity
    |vm_compute; reflexivity| |vm_compute; reflexivity].
  assert (all_lines rest = [rest]) as -> by (vm_compute; reflexivity).
  constructor; [vm_compute; reflexivity|constructor].
Defined.

(** ** The dependency graph file *)

(** What a line between the header and the footer says: an edge or a node. *)
Definition body_line (line : bytes) : option ((Z * Z) + (Z * bytes)) :=
  line ← strip_prefix "  " line;
  match parse_dependency_graph_edge line with
  | Some e => Some (inl e)
  | None => inr <$> parse_dependency_graph_node line
  end.

Definition graph_lines (graph : bytes) : list bytes :=
  filter (fun l => l <> "") (map (fun raw => default raw (strip_suffix (String CR "") raw)) (split_char LF graph)).

Definition items_edges (items : list ((Z * Z) + (Z * bytes))) : list (Z * Z) :=
  omap (fun i => match i with inl e => Some e | inr _ => None end) items.
Definition items_nodes (items : list ((Z * Z) + (Z * bytes))) : list (Z * bytes) :=
  omap (fun i => match i with inl _ => None | inr n => Some n end) items.

Section graph_file.
Context (realpath : bytes -> option bytes) (is_file : bytes -> bool) (source cwd : bytes).
Hypothesis Hcwd : has_root cwd = true.
Abbreviation canon := (canon realpath).
Abbreviation ncwd := (NormalizedPath_new cwd).

(** The file a label names: the path as it stands or under the root, when only
    one of the two exists. *)
Definition label_file1 (path : bytes) : option NormalizedPath :=
  if bool_decide (path = "") then None
  else
    let p := canon (if has_root path then path else np_join ncwd path) in
    if is_file p then Some p else None.
Definition label_file (label : bytes) : option NormalizedPath :=
  if negb (from_utf8_ok label) then None
  else match label_file1 label, (if has_root label then None else label_file1 (path_push "/" label)) with
  | Some p, Some q => if bool_decide (q = p) then Some p else None
  | Some p, None => Some p
  | None, o => o
  end.

(** A parser of this compile. *)
Record trace_ok (st : HeaderTraceParser) : Prop := {
  to_source : ht_source st = canon source;
  to_cwd : ht_cwd st = ncwd;
  to_cache : canon_coherent realpath (ht_cache st);
  to_seen : forall p, p ∈ ht_seen st <-> p ∈ ht_resolved st;
  to_nodup : NoDup (ht_resolved st);
}.

(** Two parsers that differ only in the memo table. *)
Definition same_trace (st st' : HeaderTraceParser) : Prop :=
  trace_ok st' /\ ht_resolved st' = ht_resolved st /\ incomplete st' = incomplete st.

Lemma ncwd_abs : has_root ncwd = true.
Proof. by apply has_root_normalize. Qed.

Lemma resolve_path_ok path st :
  trace_ok st -> exists st', ht_resolve_path realpath is_file path st = (label_file1 path, st') /\ same_trace st st'.
Proof.
  intros H. unfold ht_resolve_path, label_file1. rewrite (to_cwd _ H). case_bool_decide; [by exists st|].
  set (query := if has_root path then path else np_join ncwd path).
  assert (has_root query = true) as Hq.
  { unfold query. destruct (has_root path) eqn:Hp; [done|]. by apply has_root_normalize, has_root_push, ncwd_abs. }
  destruct (canonicalize_path_ok realpath query ncwd (ht_cache st) Hq (to_cache _ H)) as (c & -> & Hc).
  eexists. split; [done|]. split; [|done]. destruct H. by constructor.
Qed.

Lemma resolve_label_ok label st :
  trace_ok st ->
  exists st', resolve_dependency_graph_path realpath is_file label st = (label_file label, st') /\ same_trace st st'.
Proof.
  intros H. unfold resolve_dependency_graph_path, label_file. destruct (from_utf8_ok label); simpl; [|by exists st].
  destruct (resolve_path_ok label st H) as (s1 & -> & H1 & Hr1 & Hi1).
  destruct (has_root label); [exists s1; split; [by destruct (label_file1 label)|done]|].
  destruct (resolve_path_ok (path_push "/" label) s1 H1) as (s2 & -> & H2 & Hr2 & Hi2).
  exists s2. split; [|split; [done|split; congruence]].
  destruct (label_file1 label), (label_file1 (path_push "/" label)); done.
Qed.

Lemma record_resolved_ok p st :
  trace_ok st ->
  trace_ok (record_resolved_path p st) /\ incomplete (record_resolved_path p st) = incomplete st /\
  forall q, q ∈ ht_resolved (record_resolved_path p st) <-> q ∈ ht_resolved st \/ (q = p /\ q <> canon source).
Proof.
  intros [Hs Hc Hca Hseen Hnd]. unfold record_resolved_path, record_include. rewrite Hs.
  destruct (bool_decide_reflect (p = canon source)) as [->|Hne]; simpl.
  { split; [by constructor|]. split; [done|]. intros q. naive_solver. }
  destruct (bool_decide_reflect (p ∈ ht_seen st)) as [Hin|Hni]; simpl.
  { split; [by constructor|]. split; [done|]. intros q. apply Hseen in Hin. naive_solver. }
  split; [constructor; simpl; try done|split; [done|]].
  - intros q. rewrite elem_of_union, elem_of_singleton, elem_of_app, list_elem_of_singleton, Hseen. tauto.
  - apply NoDup_app. split_and!; [done| |apply NoDup_singleton].
    intros q Hq ->%list_elem_of_singleton. by apply Hni, Hseen.
  - intros q. rewrite elem_of_app, list_elem_of_singleton. naive_solver.
Qed.

(** An incomplete graph stays so. *)
Lemma resolve_incomplete path st :
  incomplete (ht_resolve_path realpath is_file path st).2 = incomplete st.
Proof. unfold ht_resolve_path. case_bool_decide; [done|]. by destruct (canonicalize_path _ _ _ _). Qed.

Lemma resolve_label_incomplete label st :
  incomplete (resolve_dependency_graph_path realpath is_file label st).2 = incomplete st.
Proof.
  unfold resolve_dependency_graph_path. destruct (from_utf8_ok label); simpl; [|done].
  pose proof (resolve_incomplete label st) as H1. destruct (ht_resolve_path _ _ label st) as [o1 s1]. simpl in H1.
  destruct (has_root label); [done|].
  pose proof (resolve_incomplete (path_push "/" label) s1) as H2.
  destruct (ht_resolve_path _ _ (path_push "/" label) s1) as [o2 s2]. simpl in *. congruence.
Qed.

Lemma record_resolved_incomplete p st : incomplete (record_resolved_path p st) = incomplete st.
Proof. unfold record_resolved_path. by destruct (record_include _ _ _ _). Qed.

Lemma graph_line_bad l g :
  incomplete (graph_parser g) = true -> incomplete (graph_parser (graph_line realpath is_file l g)) = true.
Proof.
  intros H. unfold graph_line. case_bool_decide; [done|].
  destruct (negb (saw_header g)); [by case_bool_decide|]. case_bool_decide; [by destruct (saw_footer g)|].
  destruct (saw_footer g); [done|].
  destruct (strip_prefix "  " _) as [line|]; [|done]. destruct (parse_dependency_graph_edge line); [done|].
  unfold graph_node_line. destruct (parse_dependency_graph_node line) as [[id label]|]; [|done].
  case_bool_decide; [done|]. simpl. pose proof (resolve_label_incomplete label (graph_parser g)) as Hr.
  destruct (resolve_dependency_graph_path _ _ label (graph_parser g)) as [[p|] st]; simpl in *; [|done].
  rewrite record_resolved_incomplete. congruence.
Qed.

Abbreviation run_graph ls g0 := (fold_left (fun g l => graph_line realpath is_file l g) ls g0).

Lemma run_graph_bad ls g :
  incomplete (graph_parser g) = true -> incomplete (graph_parser (run_graph ls g)) = true.
Proof. revert g. induction ls as [|l ls IH]; intros g H; simpl; [done|]. by apply IH, graph_line_bad. Qed.

(** The nodes of a body and the files they name. *)
Definition body_ok (ids : gset Z) (items : list ((Z * Z) + (Z * bytes))) : Prop :=
  NoDup (items_nodes items).*1 /\ Forall (fun n => ~ n.1 ∈ ids /\ is_Some (label_file n.2)) (items_nodes items).

(** The state behind a body read without complaint. *)
Record body_state (g : GraphState) (items : list ((Z * Z) + (Z * bytes))) (g' : GraphState) : Prop := {
  bs_trace : trace_ok (graph_parser g');
  bs_complete : incomplete (graph_parser g') = false;
  bs_source : saw_source g' = true <-> saw_source g = true \/ exists n, n ∈ items_nodes items /\ label_file n.2 = Some (canon source);
  bs_ids : forall i, i ∈ node_ids g' <-> i ∈ node_ids g \/ i ∈ (items_nodes items).*1;
  bs_edges : graph_edges g' = graph_edges g ++ items_edges items;
  bs_resolved : forall p, p ∈ ht_resolved (graph_parser g') <->
    p ∈ ht_resolved (graph_parser g) \/ (p <> canon source /\ exists n, n ∈ items_nodes items /\ label_file n.2 = Some p);
}.

(** A state in the middle of a body. *)
Definition in_body (g : GraphState) : Prop :=
  trace_ok (graph_parser g) /\ incomplete (graph_parser g) = false /\ saw_header g = true /\ saw_footer g = false.

(** One line of the body: it is read when it says something new and the file it
    names is known. *)
Lemma body_step raw line g :
  in_body g -> default raw (strip_suffix (String CR "") raw) = line -> line <> "" -> line <> "}" ->
  let g' := graph_line realpath is_file raw g in
  match body_line line with
  | None => incomplete (graph_parser g') = true
  | Some i =>
      (body_ok (node_ids g) [i] /\ body_state g [i] g' /\ in_body g') \/
      (~ body_ok (node_ids g) [i] /\ incomplete (graph_parser g') = true)
  end.
Proof.
  intros (Ht & Hi & Hh & Hf) Hl Hne Hnf g'. unfold g', graph_line. rewrite Hl, Hh, Hf.
  rewrite (bool_decide_eq_false_2 (line = "")), (bool_decide_eq_false_2 (line = "}")) by done. cbn [negb].
  unfold body_line. destruct (strip_prefix "  " line) as [l|]; [|done]. cbn [mbind option_bind].
  destruct (parse_dependency_graph_edge l) as [e|].
  { left. split_and!; [by split; constructor| |done]. constructor; simpl; [done|done| | |done|].
    - split; [by left|]. intros [|(n & Hn & _)]; [done|]. by apply elem_of_nil in Hn.
    - intros q. rewrite elem_of_nil. tauto.
    - intros q. split; [by left|]. intros [|(_ & n & Hn & _)]; [done|]. by apply elem_of_nil in Hn. }
  unfold graph_node_line. destruct (parse_dependency_graph_node l) as [[id label]|]; [|done]. cbn [fmap option_fmap option_map].
  assert (body_ok (node_ids g) [inr (id, label)] <-> ~ id ∈ node_ids g /\ is_Some (label_file label)) as Hb.
  { unfold body_ok. simpl. rewrite Forall_singleton. simpl. split; [tauto|]. split; [apply NoDup_singleton|tauto]. }
  case_bool_decide as Hin; [right; split; [rewrite Hb; tauto|done]|].
  simpl. destruct (resolve_label_ok label (graph_parser g) Ht) as (st & -> & Hst & Hr & Hc).
  destruct (label_file label) as [p|] eqn:Hlf; [|right; split; [rewrite Hb; intros [_ [? ?]]; done|done]].
  left. split; [apply Hb; eauto|].
  destruct (record_resolved_ok p st Hst) as (Ht' & Hi' & Hr').
  assert (incomplete (record_resolved_path p st) = false) as Hf' by congruence.
  split; [|by split_and!]. constructor; simpl; [done|done| | |by rewrite app_nil_r|].
  - rewrite orb_true_iff, bool_decide_eq_true, (to_source _ Hst). split.
    + intros [| ->]; [by left|right]. exists (id, label). split; [by left|done].
    + intros [|(n & Hn%list_elem_of_singleton & Hp)]; [by left|right]. subst. simpl in *. congruence.
  - set_solver.
  - intros q. rewrite Hr', Hr. split.
    + intros [| [-> ?]]; [by left|right]. split; [done|]. exists (id, label). split; [by left|done].
    + intros [|(Hq & n & Hn%list_elem_of_singleton & Hp)]; [by left|right]. subst. simpl in *. split; [congruence|done].
Qed.

Lemma items_nodes_cons i items : items_nodes (i :: items) = items_nodes [i] ++ items_nodes items.
Proof. by destruct i. Qed.
Lemma items_edges_cons i items : items_edges (i :: items) = items_edges [i] ++ items_edges items.
Proof. by destruct i. Qed.

(** Bodies line by line. *)
Lemma body_ok_cons ids (ids' : gset Z) i items :
  (forall k, k ∈ ids' <-> k ∈ ids \/ k ∈ (items_nodes [i]).*1) ->
  body_ok ids (i :: items) <-> body_ok ids [i] /\ body_ok ids' items.
Proof.
  intros Hids. unfold body_ok. rewrite items_nodes_cons, fmap_app, Forall_app, NoDup_app. split.
  - intros ((H1 & H2 & H3) & H4 & H5). split_and!; [done..|]. rewrite Forall_forall in *. intros n Hn.
    destruct (H5 _ Hn) as [Ha Hb]. split; [|done]. rewrite Hids. intros [|Hk]; [done|].
    apply (H2 _ Hk). apply list_elem_of_fmap. by exists n.
  - intros [[H1 H4] [H3 H5]]. split_and!; [done| |done|done|].
    + intros k Hk (n & -> & Hn)%list_elem_of_fmap. rewrite Forall_forall in H5. destruct (H5 _ Hn) as [Ha _].
      apply Ha, Hids. by right.
    + eapply Forall_impl; [exact H5|]. intros n [Ha Hb]. split; [|done]. intros Hk. apply Ha, Hids. by left.
Qed.

Lemma exists_in_app {B} (P : B -> Prop) (l k : list B) :
  (exists x, x ∈ l ++ k /\ P x) <-> (exists x, x ∈ l /\ P x) \/ exists x, x ∈ k /\ P x.
Proof. setoid_rewrite elem_of_app. firstorder. Qed.

Lemma body_state_cons g i g1 items g2 :
  body_state g [i] g1 -> body_state g1 items g2 -> body_state g (i :: items) g2.
Proof.
  intros [_ _ Hs1 Hi1 He1 Hr1] [Ht Hc Hs2 Hi2 He2 Hr2].
  constructor; [done|done| | | |].
  - rewrite Hs2, Hs1, (items_nodes_cons i items), exists_in_app. tauto.
  - intros k. rewrite Hi2, Hi1, (items_nodes_cons i items), fmap_app, elem_of_app. tauto.
  - by rewrite He2, He1, (items_edges_cons i items), app_assoc.
  - intros p. rewrite Hr2, Hr1, (items_nodes_cons i items), exists_in_app. tauto.
Qed.

Lemma body_state_nil g : in_body g -> body_state g [] g.
Proof.
  intros (Ht & Hi & _). constructor; [done|done| | |by rewrite app_nil_r|].
  - split; [by left|]. intros [|(n & Hn & _)]; [done|]. by apply elem_of_nil in Hn.
  - intros q. simpl. rewrite elem_of_nil. tauto.
  - intros q. split; [by left|]. intros [|(_ & n & Hn & _)]; [done|]. by apply elem_of_nil in Hn.
Qed.

Abbreviation text_of := (fun raw => default raw (strip_suffix (String CR "") raw)).
Abbreviation says := (Forall2 (fun line i => body_line line = Some i)).

Lemma graph_line_blank raw g : text_of raw = "" -> graph_line realpath is_file raw g = g.
Proof. intros H. unfold graph_line. by rewrite (bool_decide_eq_true_2 (text_of raw = "")). Qed.

(** Behind the footer nothing may follow. *)
Lemma footer_run ls g :
  trace_ok (graph_parser g) -> incomplete (graph_parser g) = false -> saw_header g = true -> saw_footer g = true ->
  let lines := filter (fun l => l <> "") (map text_of ls) in
  (lines = [] /\ run_graph ls g = g) \/ (lines <> [] /\ incomplete (graph_parser (run_graph ls g)) = true).
Proof.
  intros Ht Hi Hh Hf. induction ls as [|raw ls IH]; simpl; [by left|].
  rewrite filter_cons. case_decide as Hl.
  - right. split; [done|]. apply run_graph_bad. unfold graph_line.
    rewrite (bool_decide_eq_false_2 (text_of raw = "")), Hh, Hf by done. simpl. by case_bool_decide.
  - rewrite graph_line_blank by done. done.
Qed.

(** A first line that says nothing leaves no body. *)
Lemma no_body ids t ls :
  body_line t = None -> (t = "}" -> ls <> []) ->
  ~ exists body items, t :: ls = body ++ ["}"] /\ says body items /\ body_ok ids items.
Proof.
  intros Hb Hl ([|b body] & items & Heq & Hs & _); simpl in Heq; simplify_eq.
  - by apply Hl.
  - inversion Hs. congruence.
Qed.

(** From the middle of a body to the end of the file: nothing is missed exactly
    when the rest is a body and its footer. *)
Lemma body_run ls g :
  in_body g ->
  let g' := run_graph ls g in
  let lines := filter (fun l => l <> "") (map text_of ls) in
  (incomplete (graph_parser g') = false /\ saw_footer g' = true /\ saw_header g' = true /\
   exists body items, lines = body ++ ["}"] /\ says body items /\ body_ok (node_ids g) items /\ body_state g items g') \/
  ((incomplete (graph_parser g') = true \/ saw_footer g' = false) /\
   ~ exists body items, lines = body ++ ["}"] /\ says body items /\ body_ok (node_ids g) items).
Proof.
  revert g. induction ls as [|raw ls IH]; intros g Hg; cbv zeta; cbn [fold_left map].
  { right. split; [right; apply Hg|]. by intros ([|? ?] & ? & ? & _). }
  rewrite filter_cons. case_decide as Hl; cycle 1.
  { rewrite graph_line_blank by done. by apply IH. }
  destruct (decide (text_of raw = "}")) as [He|Hne].
  - set (g1 := graph_line realpath is_file raw g).
    assert (g1 = mkGraphState true true (saw_source g) (node_ids g) (graph_edges g) (graph_parser g)) as Hg1.
    { destruct Hg as (_ & _ & Hh & Hf). unfold g1, graph_line. rewrite (bool_decide_eq_false_2 (text_of raw = "")) by done.
      rewrite Hh, Hf. cbn [negb]. rewrite (bool_decide_eq_true_2 (text_of raw = "}")) by done. cbv zeta. by rewrite Hh. }
    destruct Hg as (Ht & Hi & Hh & Hf). rewrite He.
    destruct (footer_run ls g1) as [[-> ->]|[Hn Hb]]; [by rewrite Hg1..| |].
    + left. rewrite Hg1. split_and!; [done..|]. exists [], []. split_and!; [done|constructor|by split; constructor|].
      destruct (body_state_nil g) as []; [done|]. by constructor.
    + right. split; [by left|]. by apply no_body.
  - pose proof (body_step raw _ g Hg eq_refl Hl Hne) as Hstep. cbv zeta in Hstep.
    set (g1 := graph_line realpath is_file raw g) in *.
    destruct (body_line (text_of raw)) as [i|] eqn:Hbl; cycle 1.
    { right. split; [left; by apply run_graph_bad|]. by apply no_body. }
    assert (forall body items, text_of raw :: filter (fun l => l <> "") (map text_of ls) = body ++ ["}"] -> says body items ->
      exists body' items', items = i :: items' /\ filter (fun l => l <> "") (map text_of ls) = body' ++ ["}"] /\ says body' items') as Hinv.
    { intros [|b body] items Heq Hs; simpl in Heq; simplify_eq. inversion Hs; simplify_eq. eauto. }
    destruct Hstep as [(Hb & Hst & Hg1)|[Hb Hi]].
    + destruct (IH g1 Hg1) as [(H1 & H2 & H3 & body & items & Hls & Hs & Hbo & Hbs)|[H1 H2]].
      * left. split_and!; [done..|]. exists (text_of raw :: body), (i :: items). split_and!.
        -- by rewrite Hls.
        -- by constructor.
        -- by apply (body_ok_cons _ (node_ids g1)); [apply Hst|].
        -- by eapply body_state_cons.
      * right. split; [done|]. intros (body & items & Heq & Hs & Hbo). apply H2.
        destruct (Hinv body items Heq Hs) as (body' & items' & -> & Heq' & Hs').
        apply (body_ok_cons _ (node_ids g1)) in Hbo as [_ Hbo]; [|apply Hst]. eauto.
    + right. split; [left; by apply run_graph_bad|]. intros (body & items & Heq & Hs & Hbo).
      destruct (Hinv body items Heq Hs) as (body' & items' & -> & _).
      apply Hb. by apply (body_ok_cons _ (node_ids g ∪ list_to_set (items_nodes [i]).*1)) in Hbo as [? _];
        [|intros k; rewrite elem_of_union, elem_of_list_to_set].
Qed.

(** The graph files that may be trusted: a header, a body and a footer; every
    line of the body an edge or a node, no two nodes with one number, every
    label the name of one existing file, every edge between nodes, and the
    source among the nodes unless there are none. *)
Definition graph_complete (graph : bytes) (items : list ((Z * Z) + (Z * bytes))) : Prop :=
  exists body, graph_lines graph = GRAPH_HEADER :: body ++ ["}"] /\ says body items /\
  NoDup (items_nodes items).*1 /\ Forall (fun n => is_Some (label_file n.2)) (items_nodes items) /\
  Forall (fun e => e.1 ∈ (items_nodes items).*1 /\ e.2 ∈ (items_nodes items).*1) (items_edges items) /\
  (items_nodes items = [] \/ exists n, n ∈ items_nodes items /\ label_file n.2 = Some (canon source)).

Lemma says_inj body items items' : says body items -> says body items' -> items = items'.
Proof.
  intros H. revert items'. induction H as [|l i body items Hl _ IH]; intros items' H'; inversion H'; simplify_eq; [done|].
  f_equal. by apply IH.
Qed.

Lemma has_edges_out (ids : gset Z) (nodes : list Z) edges :
  (forall i, i ∈ ids <-> i ∈ nodes) ->
  existsb (fun e : Z * Z => negb (bool_decide (e.1 ∈ ids)) || negb (bool_decide (e.2 ∈ ids))) edges = false <->
  Forall (fun e => e.1 ∈ nodes /\ e.2 ∈ nodes) edges.
Proof.
  intros Hids. rewrite Forall_forall, <- not_true_iff_false, existsb_exists. setoid_rewrite <- Hids. split.
  - intros H [a b] He. simpl. split; apply dec_stable; intros Hn; apply H; exists (a, b);
      (split; [by apply list_elem_of_In|]); simpl; rewrite (bool_decide_eq_false_2 _ Hn); [done|apply orb_true_r].
  - intros H ([a b] & He%list_elem_of_In & Hb). destruct (H _ He) as [Ha Hb']. simpl in *.
    by rewrite !bool_decide_eq_true_2 in Hb.
Qed.

(** The checks behind the loop, for a body that was read. *)
Lemma graph_incomplete_ok (st : HeaderTraceParser) items g :
  body_state (mkGraphState true false false ∅ [] st) items g -> saw_header g = true -> saw_footer g = true ->
  graph_incomplete g = false <->
  Forall (fun e => e.1 ∈ (items_nodes items).*1 /\ e.2 ∈ (items_nodes items).*1) (items_edges items) /\
  (items_nodes items = [] \/ exists n, n ∈ items_nodes items /\ label_file n.2 = Some (canon source)).
Proof.
  intros [_ _ Hs Hi He _] Hh Hf. unfold graph_incomplete. rewrite Hh, Hf, He. simpl in *.
  assert (forall i, i ∈ node_ids g <-> i ∈ (items_nodes items).*1) as Hids by (intros i; rewrite Hi; set_solver).
  rewrite orb_false_iff, (has_edges_out _ _ _ Hids). etrans; [apply Logic.and_comm|]. apply and_iff_compat_l.
  rewrite andb_false_iff, !negb_false_iff, bool_decide_eq_true, Hs. split; intros [H|H].
  - left. destruct (items_nodes items) as [|n l]; [done|]. exfalso.
    apply (not_elem_of_empty (C:=gset Z) n.1). rewrite <- H. apply Hids. simpl. by left.
  - right. naive_solver.
  - left. apply set_eq. intros i. rewrite Hids, H. set_solver.
  - right. by right.
Qed.

(** The lines up to the header. *)
Lemma header_run ls (st : HeaderTraceParser) :
  incomplete st = false ->
  let g := mkGraphState false false false ∅ [] st in
  let lines := filter (fun l => l <> "") (map text_of ls) in
  (exists ls', lines = GRAPH_HEADER :: filter (fun l => l <> "") (map text_of ls') /\
     run_graph ls g = run_graph ls' (mkGraphState true false false ∅ [] st)) \/
  (head lines <> Some GRAPH_HEADER /\
   (incomplete (graph_parser (run_graph ls g)) = true \/ saw_header (run_graph ls g) = false)).
Proof.
  intros Hi. induction ls as [|raw ls IH]; cbv zeta; cbn [fold_left map]; [right; simpl; auto|].
  rewrite filter_cons. case_decide as Hl; cycle 1.
  { rewrite graph_line_blank by done. apply IH. }
  set (g1 := graph_line _ _ raw _).
  assert (g1 = if bool_decide (text_of raw = GRAPH_HEADER) then mkGraphState true false false ∅ [] st
    else graph_bad (mkGraphState false false false ∅ [] st)) as ->.
  { unfold g1, graph_line. by rewrite (bool_decide_eq_false_2 (text_of raw = "")). }
  case_bool_decide as Hh; [left; exists ls; by rewrite Hh|right].
  split; [simpl; congruence|]. left. by apply run_graph_bad.
Qed.
End graph_file.

(** C10: a dependency graph file is trusted only when all of it was understood.
    The scan is marked exact if and only if the file could be read and is a
    header, a body and a footer with nothing else, every body line an edge or a
    node, no two nodes with the same number, every node the name of exactly one
    existing file, every edge between nodes of the file, and the source among
    the nodes unless there are none.  The scan of such a file lists, once each,
    the files of its nodes without the source. *)
Theorem dependency_graph_fails_closed (realpath : bytes -> option bytes) (is_file : bytes -> bool)
    (source cwd : bytes) (cache : CanonCache) (content : option bytes) :
  has_root source = true -> has_root cwd = true -> canon_coherent realpath cache ->
  let scan := parse_dependency_graph_file realpath is_file content source cwd cache in
  (has_computed scan = false <->
     exists graph items, content = Some graph /\ graph_complete realpath is_file source cwd graph items) /\
  (forall graph items, content = Some graph -> graph_complete realpath is_file source cwd graph items ->
     NoDup (resolved scan) /\
     forall p, p ∈ resolved scan <-> p <> canon realpath source /\
       exists n, n ∈ items_nodes items /\ label_file realpath is_file cwd n.2 = Some p).
Proof.
  intros Hsrc Hcwd Hc scan. unfold scan, parse_dependency_graph_file. clear scan.
  destruct content as [graph|]; cycle 1.
  { split; [split; [done|intros (? & ? & ? & _); done]|done]. }
  set (st := HeaderTraceParser_new realpath source cwd cache).
  assert (trace_ok realpath source cwd st /\ incomplete st = false /\ ht_resolved st = []) as (Ht & Hi & Hr).
  { unfold st, HeaderTraceParser_new. destruct (canonicalize_path_ok realpath source cwd cache Hsrc Hc) as (c & -> & Hc').
    split; [|done]. constructor; simpl; try done; [|constructor]. intros p. by rewrite elem_of_nil, elem_of_empty. }
  destruct (header_run realpath is_file (split_char LF graph) st Hi) as [(ls' & Hls & ->)|[Hh Hb]]; cycle 1.
  { assert (forall items, ~ graph_complete realpath is_file source cwd graph items) as Hno.
    { intros items (body & Heq & _). apply Hh. unfold graph_lines in Heq. by rewrite Heq. }
    set (g := fold_left _ _ _) in *. split; [|intros ? ? [= <-] H; by destruct (Hno _ H)].
    split; [|intros (? & ? & [= <-] & H); by destruct (Hno _ H)].
    destruct (graph_incomplete g) eqn:Hg; [done|]. simpl. destruct Hb as [->|Hb]; [done|].
    unfold graph_incomplete in Hg. by rewrite Hb in Hg. }
  assert (in_body realpath source cwd (mkGraphState true false false ∅ [] st)) as Hg0 by done.
  destruct (body_run realpath is_file source cwd Hcwd ls' _ Hg0)
    as [(Hi1 & Hf1 & Hh1 & body & items & Hbl & Hs & [Hnd Hfo] & Hbs)|[Hb Hno]]; cycle 1.
  { assert (forall items, ~ graph_complete realpath is_file source cwd graph items) as Hno'.
    { intros items (body & Heq & Hs & Hnd & Hfo & _). apply Hno. unfold graph_lines in Heq.
      rewrite Hls in Heq. simplify_eq. exists body, items. split_and!; [done..|]. split; [done|].
      eapply Forall_impl; [exact Hfo|]. intros n Hn. split; [apply not_elem_of_empty|done]. }
    set (g := fold_left _ _ _) in *. split; [|intros ? ? [= <-] H; by destruct (Hno' _ H)].
    split; [|intros (? & ? & [= <-] & H); by destruct (Hno' _ H)].
    destruct (graph_incomplete g) eqn:Hg; [done|]. simpl. destruct Hb as [->|Hb]; [done|].
    unfold graph_incomplete in Hg. by rewrite Hb, orb_true_r in Hg. }
  set (g := fold_left _ _ _) in *. pose proof (graph_incomplete_ok realpath is_file source cwd Hcwd st items g Hbs Hh1 Hf1) as Hgi.
  assert (forall items', graph_complete realpath is_file source cwd graph items' -> items' = items) as Huniq.
  { intros items' (body' & Heq & Hs' & _). unfold graph_lines in Heq. rewrite Hls, Hbl in Heq.
    injection Heq as Heq. apply app_inj_tail in Heq as [-> _]. by eapply says_inj. }
  split.
  - split.
    + intros Hcomp. destruct (graph_incomplete g); [done|]. exists graph, items. split; [done|].
      exists body. unfold graph_lines. rewrite Hls, Hbl. split_and!; [done..| |apply Hgi; done|by apply Hgi].
      eapply Forall_impl; [exact Hfo|]. by intros n [_ ?].
    + intros (graph' & items' & [= <-] & Hgc). pose proof (Huniq _ Hgc) as ->.
      destruct Hgc as (_ & _ & _ & _ & _ & He & Hn). rewrite (proj2 Hgi (conj He Hn)). done.
  - intros graph' items' [= <-] Hgc. pose proof (Huniq _ Hgc) as ->.
    destruct Hgc as (_ & _ & _ & _ & _ & He & Hn). rewrite (proj2 Hgi (conj He Hn)). simpl.
    destruct Hbs as [Htr _ _ _ _ Hre]. split; [apply (to_nodup _ _ _ _ Htr)|].
    intros p. rewrite Hre. simpl. rewrite Hr, elem_of_nil. tauto.
Qed.

Definition demo_graph : bytes :=
  GRAPH_HEADER +:+ String LF ("  header_0" +:+ NODE_PREFIX +:+ "/w/a.c" +:+ QUOTE1 +:+ "];") +:+
  String LF ("  header_1" +:+ NODE_PREFIX +:+ "inc/b.h" +:+ QUOTE1 +:+ "];") +:+
  String LF "  header_0 -> header_1;" +:+ String LF "}" +:+ String LF "".
Definition demo_is_file (p : bytes) : bool := bool_decide (p ∈ ["/w/a.c"; "/w/inc/b.h"]).

(** The graph of a source and one header is exact; cut behind the first node it
    is not. *)
Lemma dependency_graph_fails_closed_witness :
  exists items,
    graph_complete (fun _ => None) demo_is_file "/w/a.c" "/w" demo_graph items /\
    has_computed (parse_dependency_graph_file (fun _ => None) demo_is_file (Some demo_graph) "/w/a.c" "/w" ∅) = false /\
    resolved (parse_dependency_graph_file (fun _ => None) demo_is_file (Some demo_graph) "/w/a.c" "/w" ∅) = ["/w/inc/b.h"] /\
    has_computed (parse_dependency_graph_file (fun _ => None) demo_is_file
      (Some (GRAPH_HEADER +:+ String LF ("  header_0" +:+ NODE_PREFIX +:+ "/w/a.c" +:+ QUOTE1 +:+ "];"))) "/w/a.c" "/w" ∅) = true.
Proof.
  destruct (dependency_graph_fails_closed (fun _ => None) demo_is_file "/w/a.c" "/w" ∅ (Some demo_graph))
    as [[H _] _]; [vm_compute; reflexivity|vm_compute; reflexivity|apply canon_coherent_empty|].
  destruct H as (graph & items & [= <-] & Hc); [vm_compute; reflexivity|].
  exists items. split; [exact Hc|]. split_and!; vm_compute; reflexivity.
Defined.

(** ** Parent directories in a traced path *)

(** The trace parsers resolve the parent directories of a relative path before
    they ask the file system, dependency files after.  When the spelling of a
    traced path and its lexical normal form lead to different files (a
    directory of the path is a symbolic link), the [-H] parser looks up another
    file than the compiler opened and the parser of dependency files records:
    if that other file exists it is recorded in place of the header, and the
    scan still counts as exact. *)
Theorem trace_resolves_lexically (realpath : bytes -> option bytes) (is_file : bytes -> bool)
    (source cwd path : bytes) (cache : CanonCache) :
  let lexical := canon realpath (np_join (NormalizedPath_new cwd) path) in
  let opened := canon realpath (dep_query cwd path) in
  has_root source = true -> has_root cwd = true -> canon_coherent realpath cache ->
  path <> "" -> from_utf8_ok path = true -> no_lf path = true -> has_root path = false ->
  Z.of_nat (String.length path) <= MAX_PARTIAL_LINE_BYTES - 2 -> strip_suffix (String CR "") path = None ->
  lexical <> opened -> lexical <> canon realpath source -> is_file lexical = true ->
  let '(scan, out) := parse_header_trace realpath is_file (". " +:+ path +:+ String LF "") source cwd cache in
  resolved scan = [lexical] /\ has_computed scan = false /\ out = "" /\ ~ opened ∈ resolved scan.
Proof.
  intros lexical opened Hsrc Hcwd Hc Hne Hutf Hlf Hrel Hlen Hcr Hlo Hls Hfile.
  unfold parse_header_trace, header_trace_stream.
  assert (no_lf (". " +:+ path) = true) as Hn by exact Hlf.
  pose proof (cut_line (". " +:+ path) "" Hn) as Hcut. rewrite !string_app_nil_r, string_app_assoc in Hcut.
  change (cut "") with (@nil bytes, "") in Hcut. cbn [fst snd] in Hcut.
  rewrite push_all_lines; cycle 1.
  { cbn [concat_bytes]. rewrite string_app_nil_r. unfold lines_short. rewrite Hcut. simpl. split; [|done].
    repeat constructor. simpl. rewrite string_length_app. simpl. lia. }
  cbn [concat_bytes]. rewrite string_app_nil_r. unfold all_lines. rewrite Hcut. cbn [fst snd app run_lines].
  unfold HeaderTraceParser_new. destruct (canonicalize_path_ok realpath source cwd cache Hsrc Hc) as (c & -> & Hc').
  unfold ht_finish_line, record_header.
  assert (line_text (". " +:+ path +:+ String LF "") = ". " +:+ path) as ->.
  { unfold line_text. rewrite <- string_app_assoc, (proj2 (strip_suffix_Some _ _ (". " +:+ path)) eq_refl). simpl.
    destruct (strip_suffix (String CR "") (String "." (String " " path))) as [a|] eqn:Ha; [|done].
    apply strip_suffix_Some in Ha. exfalso. destruct a as [|x [|y a]]; [done| |].
    - by destruct path.
    - injection Ha as _ _ Hp. by rewrite (proj2 (strip_suffix_Some _ _ a) Hp) in Hcr. }
  rewrite (bool_decide_eq_false_2 (". " +:+ path = GUARD_SUMMARY)) by done. cbn [gcc_guard_summary].
  unfold record_trace_line. change (trace_path (". " +:+ path)) with (Some path). cbn [mbind].
  unfold record_path_bytes, record_path. rewrite Hutf. unfold ht_resolve_path.
  rewrite (bool_decide_eq_false_2 (path = "")), Hrel by done. cbn [ht_cwd ht_cache].
  destruct (canonicalize_path_ok realpath (np_join (NormalizedPath_new cwd) path) (NormalizedPath_new cwd) c)
    as (c2 & -> & _); [by apply has_root_normalize, has_root_push, has_root_normalize|done|].
  fold lexical. rewrite Hfile. unfold record_resolved_path, record_include. simpl.
  rewrite (bool_decide_eq_false_2 (lexical = canon realpath source)) by done. simpl.
  rewrite (bool_decide_eq_false_2 (lexical ∈ ∅)) by apply not_elem_of_empty. simpl.
  split_and!; [done..|]. rewrite list_elem_of_singleton. congruence.
Qed.

(** A link [/w/l] to [/real/d]: the compiler opens [/real/x.h], the parser
    records [/w/x.h]. *)
Lemma trace_resolves_lexically_witness :
  let realpath p := if bool_decide (p = "/w/l/../x.h") then Some "/real/x.h"
                    else if bool_decide (p ∈ ["/w/x.h"; "/w/a.c"]) then Some p else None in
  (parse_header_trace realpath (fun _ => true) (". l/../x.h" +:+ String LF "") "/w/a.c" "/w" ∅).1 =
    mkScan ["/w/x.h"] [] false /\
  exists c, parse_depfile realpath "a.o: a.c l/../x.h" "/w/a.c" "/w" ∅ = (inr (mkScan ["/real/x.h"] [] false), c).
Proof.
  intros realpath. split.
  - pose proof (trace_resolves_lexically realpath (fun _ => true) "/w/a.c" "/w" "l/../x.h" ∅) as H. cbv zeta in H.
    change (". l/../x.h" +:+ String LF "") with (". " +:+ "l/../x.h" +:+ String LF "").
    destruct (parse_header_trace _ _ _ _ _ _) as [scan out] eqn:Hp. vm_compute in Hp. injection Hp as <- <-.
    destruct H as (Hr & Hcomp & _); [vm_compute; reflexivity|vm_compute; reflexivity|apply canon_coherent_empty|done
      |vm_compute; reflexivity|vm_compute; reflexivity|vm_compute; reflexivity|vm_compute; done
      |vm_compute; reflexivity|vm_compute; congruence|vm_compute; congruence|reflexivity|]. reflexivity.
  - eexists. vm_compute. reflexivity.
Defined.
