(* ===== verification/Detect.v ===== *)
(** * Compilers and their invocations ([zccache-compiler])

    The types of [lib.rs], the family of a compiler from its name
    ([detect.rs]), the flags that write files beside the object
    ([side_outputs.rs]) and the delivery policy of outputs ([output_policy.rs]).

    File names are split as [std::path] does on Linux. *)

From stdpp Require Import list strings.
From Stdlib Require Import Lia.
From S2P Require Import Prelude Path RustStr GnuArgs.

(** ** [lib.rs] *)

Inductive CompilerFamily := Gcc | Clang | Msvc | Rustc | Rustfmt.
#[export] Instance CompilerFamily_eq_dec : EqDecision CompilerFamily.
Proof. solve_decision. Defined.

Definition supports_depfile (f : CompilerFamily) : bool :=
  match f with Gcc | Clang => true | _ => false end.

Definition pch_extension (f : CompilerFamily) : option bytes :=
  match f with Gcc => Some "gch" | Clang => Some "pch" | Msvc | Rustc | Rustfmt => None end.

Definition is_formatter (f : CompilerFamily) : bool :=
  match f with Rustfmt => true | _ => false end.

Definition needs_system_include_discovery (f : CompilerFamily) : bool :=
  match f with Gcc | Clang | Msvc => true | _ => false end.

Record CacheableCompilation := mkCompilation {
  co_compiler : NormalizedPath;
  co_family : CompilerFamily;
  co_source_file : NormalizedPath;
  co_output_file : NormalizedPath;
  co_original_args : list bytes;
  co_unknown_flags : list bytes;
}.

Inductive ParsedInvocation :=
| Cacheable (c : CacheableCompilation)
| MultiFile (compilations : list CacheableCompilation) (args : list bytes) (source_indices : list nat)
| NonCacheable (reason : bytes).

Inductive SourceMode := ModeNormal | ModeHeader | ModeHeaderUnit | ModeModule.
#[export] Instance SourceMode_eq_dec : EqDecision SourceMode.
Proof. solve_decision. Defined.

Definition implies_compilation (m : SourceMode) : bool :=
  match m with ModeHeader | ModeHeaderUnit => true | _ => false end.

(** ** [detect.rs] *)

Definition SOURCE_EXTENSIONS : list bytes :=
  ["c"; "cc"; "cpp"; "cxx"; "c++"; "C"; "m"; "mm"; "i"; "ii"; "cppm"; "ixx"; "s"; "S"].
Definition MODULE_EXTENSIONS : list bytes := ["cppm"; "ixx"].

Definition BSLASH : ascii := ascii_of_nat 92.

(** [rsplit(['/', '\\']).next()]: the text behind the last separator. *)
Fixpoint last_segment_from (s seg : bytes) : bytes :=
  match s with
  | EmptyString => seg
  | String c s' =>
      if bool_decide (c = slash) || bool_decide (c = BSLASH) then last_segment_from s' ""
      else last_segment_from s' (seg +:+ String c "")
  end.
Definition last_segment (s : bytes) : bytes := last_segment_from s "".

Definition executable_stem (executable : bytes) : bytes :=
  let basename := last_segment executable in
  match strip_suffix ".exe" basename with
  | Some s => s
  | None => default basename (strip_suffix ".EXE" basename)
  end.

Definition is_dylint_driver (executable : bytes) : bool :=
  bool_decide (executable_stem executable = "dylint-driver").

(** [Err reason], [Ok None] and [Ok (Some (inner, args))]. *)
Definition dylint_inner_rustc_args (compiler : bytes) (args : list bytes) :
    bytes + option (bytes * list bytes) :=
  if negb (is_dylint_driver compiler) then inr None
  else match args with
  | [] => inl "dylint-driver requires an inner rustc executable"
  | inner :: rustc_args =>
      let stem := executable_stem inner in
      if negb (bool_decide (stem = "rustc")) && negb (starts_with "rustc-" stem)
      then inl "dylint-driver inner rustc executable is missing or unsupported"
      else inr (Some (inner, rustc_args))
  end.

(** [rsplit_once('.')] of the last segment. *)
Definition compiler_stem (compiler : bytes) : bytes :=
  let basename := last_segment compiler in
  match rsplit_dot basename with Some (stem, _) => stem | None => basename end.

Definition is_clang_cl_name (name : bytes) : bool :=
  let lower := to_ascii_lowercase name in
  bool_decide (lower = "clang-cl") || starts_with "clang-cl-" lower.

Definition detect_family (compiler : bytes) : CompilerFamily :=
  let name := compiler_stem compiler in
  if bool_decide (name = "rustfmt") || starts_with "rustfmt-" name then Rustfmt
  else if is_dylint_driver compiler || bool_decide (name = "rustc") || starts_with "rustc-" name ||
          bool_decide (name = "clippy-driver") || starts_with "clippy-driver-" name then Rustc
  else if is_clang_cl_name name then Msvc
  else if str_contains "clang" name || bool_decide (name = "emcc") || bool_decide (name = "em++") then Clang
  else if eq_ignore_ascii_case name "cl" then Msvc
  else Gcc.

Definition is_msvc_cl (compiler : bytes) : bool := eq_ignore_ascii_case (compiler_stem compiler) "cl".

(** The file names the classifier takes for sources; the parser of the
    dependency graph has its own list ([GnuArgs.is_source_file]). *)
Definition is_source_path (path : bytes) : bool :=
  match extension path with Some ext => bool_decide (ext ∈ SOURCE_EXTENSIONS) | None => false end.

(** ** [side_outputs.rs] *)

Definition any_prefix (ps : list bytes) (s : bytes) : bool := existsb (fun p => starts_with p s) ps.

Definition msvc_side_output (arg : bytes) : bool :=
  let lower := to_ascii_lowercase arg in
  let body := match strip_prefix "/" arg with
              | Some b => b
              | None => default arg (strip_prefix "-" arg)
              end in
  let lower_body := to_ascii_lowercase body in
  any_prefix ["Fd"; "Fp"; "Fr"; "FR"; "Fi"; "Fa"] body ||
  bool_decide (lower_body ∈ ["fa"; "fac"; "fas"; "facs"]) ||
  any_prefix ["yc"; "doc"; "module:"; "headerunit"; "sourcedependencies"] lower_body ||
  bool_decide (lower ∈ ["/zi"; "-zi"]) || any_prefix ["/ifc"; "-ifc"] lower ||
  bool_decide (lower ∈ ["/interface"; "-interface"]).

Definition gnu_side_output (arg : bytes) : bool :=
  let lower := to_ascii_lowercase arg in
  any_prefix ["--serialize-diagnostics"; "-dependency-file"; "-mj"] lower ||
  (starts_with "-fmodule" lower && negb (bool_decide (lower = "-fmodules-ts"))) ||
  bool_decide (lower = "-save-temps") || any_prefix ["-save-temps="; "-gsplit-dwarf"; "-fdump-"] lower ||
  bool_decide (lower ∈ ["--coverage"; "-coverage"; "-fprofile-arcs"; "-ftest-coverage"]) ||
  bool_decide (lower = "-ftime-trace") || starts_with "-ftime-trace=" lower ||
  bool_decide (lower = "-fstack-usage") || starts_with "-fcallgraph-info" lower ||
  bool_decide (lower = "-fsave-optimization-record") ||
  any_prefix ["-foptimization-record-file"; "-fopt-info"; "-fdiagnostics-file=";
              "-fdiagnostics-format=sarif-file"] lower ||
  (starts_with "-wa," lower && str_contains "=" lower).

Definition unmodeled_side_output_flag (args : list bytes) (msvc_syntax : bool) : option bytes :=
  List.find (if msvc_syntax then msvc_side_output else gnu_side_output) args.

(** ** [output_policy.rs] *)

Inductive OutputRole :=
| RustMetadata | RustArchive | Object | DepInfo | PrecompiledHeaderOrModule | ExecutableOrLibrary
| LinkerSideOutput | MutableOpaque.
Inductive MutationContract := ImmutableConsumer | AtomicReplaceOnly | MayEditInPlace | MutationUnknown.
Inductive DeliveryPolicy := ReflinkPreferred | HardlinkEligible | IndependentOnly.
#[export] Instance DeliveryPolicy_eq_dec : EqDecision DeliveryPolicy.
Proof. solve_decision. Defined.

Record OutputClassification := mkClass {
  role : OutputRole;
  mutation : MutationContract;
  delivery : DeliveryPolicy;
}.

Definition is_cc_family (f : CompilerFamily) : bool :=
  match f with Gcc | Clang | Msvc => true | _ => false end.

Definition for_compiler (f : CompilerFamily) (output_name : bytes) : OutputClassification :=
  let ext := match rsplit_dot output_name with Some (_, e) => e | None => "" end in
  let pch := bool_decide (ext ∈ ["pch"; "gch"; "pcm"]) in
  if bool_decide (f = Rustc) && bool_decide (ext = "rmeta")
  then mkClass RustMetadata ImmutableConsumer HardlinkEligible
  else if bool_decide (f = Rustc) && bool_decide (ext = "rlib")
  then mkClass RustArchive ImmutableConsumer HardlinkEligible
  else if is_cc_family f && (bool_decide (ext = "o") || bool_decide (ext = "obj"))
  then mkClass Object AtomicReplaceOnly ReflinkPreferred
  else if is_cc_family f && pch then mkClass PrecompiledHeaderOrModule AtomicReplaceOnly ReflinkPreferred
  else if bool_decide (ext = "d") then mkClass DepInfo MayEditInPlace IndependentOnly
  else if pch then mkClass PrecompiledHeaderOrModule MutationUnknown IndependentOnly
  else mkClass (if is_cc_family f then ExecutableOrLibrary else MutableOpaque) MutationUnknown IndependentOnly.

Definition rustc_output_delivery (archive_hardlink_eligible : bool) (output : bytes) : DeliveryPolicy :=
  let ext := extension output in
  if bool_decide (ext = Some "rmeta") then HardlinkEligible
  else if negb (bool_decide (ext = Some "rlib")) then IndependentOnly
  else if archive_hardlink_eligible then HardlinkEligible else IndependentOnly.

(** The values of [--crate-type]; the last argument has no value. *)
Fixpoint crate_type_values (args : list bytes) : list bytes :=
  match args with
  | [] => []
  | arg :: rest =>
      if bool_decide (arg = "--crate-type") then
        match rest with
        | value :: rest' => split_char "," value ++ crate_type_values rest'
        | [] => []
        end
      else match strip_prefix "--crate-type=" arg with
      | Some value => split_char "," value ++ crate_type_values rest
      | None => crate_type_values rest
      end
  end.

Definition rustc_archive_hardlink_eligible (args : list bytes) : bool :=
  existsb (fun t => bool_decide (t ∈ ["lib"; "rlib"])) (crate_type_values args).

Example families :
  detect_family "/usr/bin/clang++-17" = Clang /\ detect_family "C:\VC\CL.exe" = Msvc /\
  detect_family "clang-cl.exe" = Msvc /\ detect_family "x/rustc" = Rustc /\ detect_family "cc" = Gcc /\
  detect_family "rustfmt" = Rustfmt /\ is_source_path "a/b.cppm" = true /\ last_segment "a/b\c" = "c".
Proof. vm_compute. done. Qed.
