(* ===== verification/RustcPlan.v ===== *)
(** * Rustc invocations ([zccache-compiler/src/parse_rustc.rs])

    Whether a rustc command line may be cached and which file it writes.  The
    option loop is a list of mutations per argument, as in [GnuArgs]; a branch
    that finds no value falls through to the branches below it.

    The host and the path syntax are arguments of the code.  The stem of a
    Windows path is the [typed_path] library's, a parameter here. *)

From stdpp Require Import list strings.
From Stdlib Require Import Lia.
From S2P Require Import Prelude Path RustStr GnuArgs Detect.

Inductive RustcHost := HostLinux | HostMacos | HostWindows.
#[export] Instance RustcHost_eq_dec : EqDecision RustcHost.
Proof. solve_decision. Defined.

(** [rustc_path.rs] *)
Inductive RustcPathSyntax := SyntaxUnix | SyntaxWindows.

Definition RUSTC_CACHEABLE_CRATE_TYPES : list bytes := ["lib"; "rlib"; "staticlib"; "proc-macro"; "bin"].
Definition RUSTC_TEST_HARNESS_REASON : bytes := "test harness link product not cacheable".

Definition co_is_rustc_test_harness (c : CacheableCompilation) : bool :=
  bool_decide (co_family c = Rustc) && bool_decide ("--test" ∈ co_unknown_flags c).

Definition is_rustc_test_harness (p : ParsedInvocation) : bool :=
  match p with
  | Cacheable c => co_is_rustc_test_harness c
  | NonCacheable reason => bool_decide (reason = RUSTC_TEST_HARNESS_REASON)
  | MultiFile _ _ _ => false
  end.

(** ** Output names *)

Definition rustc_proc_macro_filename (crate_name extra : bytes) (host : RustcHost) : bytes :=
  match host with
  | HostWindows => crate_name +:+ extra +:+ ".dll"
  | HostMacos => "lib" +:+ crate_name +:+ extra +:+ ".dylib"
  | HostLinux => "lib" +:+ crate_name +:+ extra +:+ ".so"
  end.

Definition rustc_dylint_cdylib_filename (crate_name : bytes) (host : RustcHost) : bytes :=
  match host with
  | HostWindows => crate_name +:+ ".dll"
  | HostMacos => "lib" +:+ crate_name +:+ ".dylib"
  | HostLinux => "lib" +:+ crate_name +:+ ".so"
  end.

Definition rustc_staticlib_filename (crate_name extra : bytes) (target : option bytes) (host : RustcHost) : bytes :=
  let msvc_like :=
    match target with
    | Some triple => ends_with "-msvc" triple || bool_decide ("uefi" ∈ split_char "-" triple)
    | None => bool_decide (host = HostWindows)
    end in
  if msvc_like then crate_name +:+ extra +:+ ".lib" else "lib" +:+ crate_name +:+ extra +:+ ".a".

Definition rustc_bin_filename (crate_name extra : bytes) (target : option bytes) (host : RustcHost) : bytes :=
  let windows_target :=
    match target with
    | Some triple => bool_decide ("windows" ∈ split_char "-" triple)
    | None => bool_decide (host = HostWindows)
    end in
  if windows_target then crate_name +:+ extra +:+ ".exe" else crate_name +:+ extra.

Definition EMIT_OUTPUT_EXTENSIONS : list (bytes * bytes * bool) :=
  [("metadata", "rmeta", true); ("dep-info", "d", false); ("obj", "o", false); ("asm", "s", false);
   ("llvm-ir", "ll", false); ("llvm-bc", "bc", false); ("bitcode", "bc", false); ("mir", "mir", false)].

Record RustcOutputShape := mkShape {
  sh_host : RustcHost;
  primary_emit : option bytes;
  metadata_only : bool;
  sh_name : bytes;
  sh_suffix : bytes;
  sh_target : option bytes;
  is_proc_macro : bool;
  is_bin : bool;
  is_dylint_cdylib : bool;
  is_staticlib : bool;
}.

Definition emit_extension (emit : bytes) : option (bytes * bool) :=
  match List.find (fun e : bytes * bytes * bool => bool_decide (e.1.1 = emit)) EMIT_OUTPUT_EXTENSIONS with
  | Some (_, ext, lib_prefixed) => Some (ext, lib_prefixed)
  | None => None
  end.

Definition rustc_primary_output_filename (sh : RustcOutputShape) : bytes :=
  let stem := sh_name sh +:+ sh_suffix sh in
  if metadata_only sh then "lib" +:+ stem +:+ ".rmeta"
  else match (primary_emit sh ≫= emit_extension : option (bytes * bool)) with
  | Some (ext, lib_prefixed) => (if lib_prefixed then "lib" else "") +:+ stem +:+ "." +:+ ext
  | None =>
      if is_proc_macro sh then rustc_proc_macro_filename (sh_name sh) (sh_suffix sh) (sh_host sh)
      else if is_dylint_cdylib sh then rustc_dylint_cdylib_filename (sh_name sh) (sh_host sh)
      else if is_bin sh then rustc_bin_filename (sh_name sh) (sh_suffix sh) (sh_target sh) (sh_host sh)
      else if is_staticlib sh then rustc_staticlib_filename (sh_name sh) (sh_suffix sh) (sh_target sh) (sh_host sh)
      else "lib" +:+ stem +:+ ".rlib"
  end.

(** ** Probes of autocfg *)

Definition is_ascii_hexdigit (c : ascii) : bool :=
  let v := byte_val c in
  ((48 <=? v) && (v <=? 57)) || ((65 <=? v) && (v <=? 70)) || ((97 <=? v) && (v <=? 102)).
Definition is_ascii_digit (c : ascii) : bool := let v := byte_val c in (48 <=? v) && (v <=? 57).

Fixpoint all_bytes (p : ascii -> bool) (s : bytes) : bool :=
  match s with EmptyString => true | String c s' => p c && all_bytes p s' end.

Definition is_randomized_autocfg_crate_name (crate_name : bytes) : bool :=
  match strip_prefix "autocfg_" crate_name ≫= split_once "_" with
  | None => false
  | Some (uuid, probe_id) =>
      (Z.of_nat (String.length uuid) =? 16) && all_bytes is_ascii_hexdigit uuid &&
      negb (bool_decide (probe_id = "")) && all_bytes is_ascii_digit probe_id
  end.

(** ** The option loop *)

Definition RUSTC_FLAGS_WITH_VALUE : list bytes :=
  ["--edition"; "--crate-type"; "--crate-name"; "--emit"; "--out-dir"; "--target"; "--cap-lints"; "--extern";
   "--error-format"; "--json"; "--color"; "--diagnostic-width"; "--sysroot"; "--cfg"; "--check-cfg"; "-o"; "-L";
   "-C"; "-A"; "-W"; "-D"; "-F"; "--codegen"; "--remap-path-prefix"; "--env-set"].

Inductive RAction :=
| AddCrateTypes (value : bytes)
| SetCrateName (value : bytes)
| AddEmit (value : bytes)
| SetOutDir (value : bytes)
| SetTarget (value : bytes)
| SetOutputFile (value : bytes)
| Codegen (value : bytes)
| TestHarness
| UnknownFlag (flag : bytes)
| SetSource (path : bytes).

Definition rust_branch : Type := option (list RAction * bool).

(** [if arg == flag { if let Some(next) .. } else if let Some(v) =
    arg.strip_prefix("flag=")]. *)
Definition value_of (flag arg : bytes) (next : option bytes) (k : bytes -> RAction) : rust_branch :=
  if bool_decide (arg = flag) then v ← next; Some ([k v], true)
  else v ← strip_prefix (flag +:+ "=") arg; Some ([k v], false).

Definition codegen_branch (arg : bytes) (next : option bytes) : rust_branch :=
  if bool_decide (arg ∈ ["-C"; "--codegen"]) then v ← next; Some ([Codegen v], true)
  else rest ← strip_prefix "-C" arg; if bool_decide (rest = "") then None else Some ([Codegen rest], false).

Fixpoint first_some {B} (bs : list (option B)) (last : B) : B :=
  match bs with
  | [] => last
  | Some r :: _ => r
  | None :: bs' => first_some bs' last
  end.

Definition rustc_step (arg : bytes) (next : option bytes) : list RAction * bool :=
  first_some
    [ value_of "--crate-type" arg next AddCrateTypes;
      value_of "--crate-name" arg next SetCrateName;
      value_of "--emit" arg next AddEmit;
      value_of "--out-dir" arg next SetOutDir;
      value_of "--target" arg next SetTarget;
      (if bool_decide (arg = "-o") then v ← next; Some ([SetOutputFile v], true) else None);
      codegen_branch arg next;
      (if bool_decide (arg ∈ RUSTC_FLAGS_WITH_VALUE) then Some ([], true) else None);
      (if starts_with "--" arg && str_contains "=" arg then Some ([], false) else None);
      (if bool_decide (arg = "--test") then Some ([TestHarness; UnknownFlag arg], false) else None);
      (if starts_with "-" arg then Some ([UnknownFlag arg], false) else None) ]
    ((if ends_with ".rs" arg then [SetSource arg] else []), false).

Fixpoint rustc_actions (args : list bytes) : list RAction :=
  match args with
  | [] => []
  | arg :: rest =>
      let '(acts, two) := rustc_step arg (head rest) in
      acts ++ match two, rest with
              | true, _ :: rest' => rustc_actions rest'
              | _, _ => rustc_actions rest
              end
  end.

Record RustcScan := mkRScan {
  crate_types : list bytes;
  rs_source : option bytes;
  rs_output : option bytes;
  rs_out_dir : option bytes;
  rs_crate_name : option bytes;
  rs_extra_filename : option bytes;
  rs_linker : option bytes;
  rs_target : option bytes;
  emit_types : list bytes;
  explicit_link_output : option bytes;
  explicit_output : option bytes;
  rs_unknown : list bytes;
  is_test_harness : bool;
}.

Definition rscan_init : RustcScan := mkRScan [] None None None None None None None [] None None [] false.

(** [kind=path] parts of [--emit]: the output of [link], the first output. *)
Fixpoint emit_paths (parts : list bytes) (link first : option bytes) : option bytes * option bytes :=
  match parts with
  | [] => (link, first)
  | part :: rest =>
      match split_once "=" part with
      | None => emit_paths rest link first
      | Some (kind, path) =>
          emit_paths rest
            (if bool_decide (kind = "link") && negb (bool_decide (path = "-")) then Some path else link)
            (if negb (bool_decide (path = "-")) && negb (bool_decide (path = "")) && bool_decide (first = None)
             then Some path else first)
      end
  end.

Definition emit_kind (part : bytes) : bytes := default part (head (split_char "=" part)).

(** The value of a [key=] option, or what was there before. *)
Definition or_keep (o old : option bytes) : option bytes := match o with Some v => Some v | None => old end.

Definition apply_raction (s : RustcScan) (a : RAction) : RustcScan :=
  let '(mkRScan ct src out dir nm ef lk tg em el ex uk th) := s in
  match a with
  | AddCrateTypes v => mkRScan (ct ++ split_char "," v) src out dir nm ef lk tg em el ex uk th
  | SetCrateName v => mkRScan ct src out dir (Some v) ef lk tg em el ex uk th
  | AddEmit v =>
      let '(el', ex') := emit_paths (split_char "," v) el ex in
      mkRScan ct src out dir nm ef lk tg (em ++ map emit_kind (split_char "," v)) el' ex' uk th
  | SetOutDir v => mkRScan ct src out (Some v) nm ef lk tg em el ex uk th
  | SetTarget v => mkRScan ct src out dir nm ef lk (Some v) em el ex uk th
  | SetOutputFile v => mkRScan ct src (Some v) dir nm ef lk tg em el ex uk th
  | Codegen v =>
      mkRScan ct src out dir nm (or_keep (strip_prefix "extra-filename=" v) ef)
        (or_keep (strip_prefix "linker=" v) lk) tg em el ex uk th
  | TestHarness => mkRScan ct src out dir nm ef lk tg em el ex uk true
  | UnknownFlag f => mkRScan ct src out dir nm ef lk tg em el ex (uk ++ [f]) th
  | SetSource p => mkRScan ct (Some p) out dir nm ef lk tg em el ex uk th
  end.

Definition rustc_scan (args : list bytes) : RustcScan := fold_left apply_raction (rustc_actions args) rscan_init.

(** ** The plan *)

Inductive RustcOutputPlan :=
| Explicit (path : bytes)
| InDirectory (directory filename : bytes).

Inductive RustcPlan :=
| RNonCacheable (reason : bytes)
| RCacheable (source : bytes) (output : RustcOutputPlan) (unknown : list bytes).

Section plan.
Context (windows_file_stem : bytes -> option bytes).

Definition syntax_file_stem (syntax : RustcPathSyntax) (path : bytes) : option bytes :=
  match syntax with SyntaxUnix => file_stem path | SyntaxWindows => windows_file_stem path end.

Definition is_dylint_linker (syntax : RustcPathSyntax) (path : option bytes) : bool :=
  match path ≫= syntax_file_stem syntax with
  | Some stem => eq_ignore_ascii_case stem "dylint-link"
  | None => false
  end.

(** The crate types, [bin] when none was named. *)
Definition declared_types (s : RustcScan) : list bytes :=
  match crate_types s with [] => ["bin"] | ts => ts end.

Definition dylint_cdylib (syntax : RustcPathSyntax) (s : RustcScan) : bool :=
  bool_decide (declared_types s = ["cdylib"]) && bool_decide (rs_target s = None) &&
  bool_decide (default "" (rs_extra_filename s) = "") && is_dylint_linker syntax (rs_linker s).

Definition crate_type_ok (dylint : bool) (ct : bytes) : bool :=
  bool_decide (ct ∈ RUSTC_CACHEABLE_CRATE_TYPES) || (bool_decide (ct = "cdylib") && dylint).

Definition primary_emit_of (emits : list bytes) : option bytes :=
  if bool_decide ("link" ∈ emits) then Some "link"
  else List.find (fun k => bool_decide (k ∈ ["metadata"; "dep-info"; "obj"; "asm"; "llvm-ir"; "llvm-bc"; "bitcode"; "mir"])) emits.

Definition output_plan (host : RustcHost) (syntax : RustcPathSyntax) (s : RustcScan) (source : bytes) : RustcOutputPlan :=
  match rs_output s, explicit_link_output s, explicit_output s with
  | Some o, _, _ | None, Some o, _ | None, None, Some o => Explicit o
  | None, None, None =>
      let types := declared_types s in
      let name := default (default "unknown" (syntax_file_stem syntax source)) (rs_crate_name s) in
      let suffix := match rs_out_dir s with Some _ => default "" (rs_extra_filename s) | None => "" end in
      let filename := rustc_primary_output_filename
        (mkShape host (primary_emit_of (emit_types s))
           (negb (bool_decide ("link" ∈ emit_types s)) && bool_decide ("metadata" ∈ emit_types s))
           name suffix (rs_target s) (bool_decide ("proc-macro" ∈ types)) (bool_decide ("bin" ∈ types))
           (dylint_cdylib syntax s) (bool_decide ("staticlib" ∈ types))) in
      match rs_out_dir s with
      | Some directory => InDirectory directory filename
      | None => Explicit filename
      end
  end.

Definition plan_of_scan (host : RustcHost) (syntax : RustcPathSyntax) (cache_test_bins : bool) (s : RustcScan) :
    RustcPlan :=
  match rs_source s with
  | None => RNonCacheable "no .rs source file found"
  | Some source =>
      if bool_decide (crate_types s = ["lib"]) && bool_decide ("llvm-ir" ∈ emit_types s) &&
         match rs_crate_name s with Some n => is_randomized_autocfg_crate_name n | None => false end
      then RNonCacheable "randomized autocfg probe crate name"
      else match List.find (fun ct => negb (crate_type_ok (dylint_cdylib syntax s) ct)) (declared_types s) with
      | Some ct => RNonCacheable ("non-cacheable crate type: " +:+ ct)
      | None =>
          if is_test_harness s && negb cache_test_bins then RNonCacheable RUSTC_TEST_HARNESS_REASON
          else RCacheable source (output_plan host syntax s source) (rs_unknown s)
      end
  end.

Definition parse_rustc_plan_with_syntax (compiler : bytes) (args : list bytes) (host : RustcHost)
    (cache_test_bins : bool) (syntax : RustcPathSyntax) : RustcPlan :=
  match dylint_inner_rustc_args compiler args with
  | inl reason => RNonCacheable reason
  | inr (Some (_, rustc_args)) => plan_of_scan host syntax cache_test_bins (rustc_scan rustc_args)
  | inr None => plan_of_scan host syntax cache_test_bins (rustc_scan args)
  end.

Definition current_syntax (host : RustcHost) : RustcPathSyntax :=
  match host with HostWindows => SyntaxWindows | _ => SyntaxUnix end.

(** [parse_rustc_plan] takes the syntax of the machine the code runs on,
    [current]; the native entry passes its host as well. *)
Definition parse_rustc_invocation_with_host (current : RustcHost) (compiler : bytes) (args : list bytes)
    (host : RustcHost) (cache_test_bins : bool) : ParsedInvocation :=
  match parse_rustc_plan_with_syntax compiler args host cache_test_bins (current_syntax current) with
  | RNonCacheable reason => NonCacheable reason
  | RCacheable source output unknown =>
      let output :=
        match output with
        | Explicit path => path
        | InDirectory directory filename => np_join (NormalizedPath_new directory) filename
        end in
      Cacheable (mkCompilation (NormalizedPath_new compiler) Rustc (NormalizedPath_new source)
        (NormalizedPath_new output) args unknown)
  end.

Definition parse_rustc_invocation_with_policy (current : RustcHost) (compiler : bytes) (args : list bytes)
    (cache_test_bins : bool) : ParsedInvocation :=
  parse_rustc_invocation_with_host current compiler args current cache_test_bins.
End plan.

(** ** Properties *)

(** The arguments rustc reads as flags or files, each with the argument behind
    it: those that are not the value of the flag in front of them. *)
Fixpoint rustc_pairs (args : list bytes) : list (bytes * option bytes) :=
  match args with
  | [] => []
  | arg :: rest =>
      (arg, head rest) :: match (rustc_step arg (head rest)).2, rest with
                          | true, _ :: rest' => rustc_pairs rest'
                          | _, _ => rustc_pairs rest
                          end
  end.
Definition rustc_heads (args : list bytes) : list bytes := (rustc_pairs args).*1.

Lemma two_step_ind (P : list bytes -> Prop) :
  P [] -> (forall x r, P r -> P (tail r) -> P (x :: r)) -> forall l, P l.
Proof.
  intros H0 Hs l. enough (P l /\ P (tail l)) by tauto. induction l as [|x l [IH1 IH2]]; simpl; auto.
Qed.

Lemma rustc_actions_pairs args : rustc_actions args = flat_map (fun p => (rustc_step p.1 p.2).1) (rustc_pairs args).
Proof.
  induction args as [|x r IH1 IH2] using two_step_ind; [done|]. cbn [rustc_actions rustc_pairs flat_map fst snd].
  destruct (rustc_step x (head r)) as [acts two]. cbn [fst snd]. f_equal. destruct two, r; done.
Qed.

Lemma rustc_heads_sublist args : rustc_heads args `sublist_of` args.
Proof.
  unfold rustc_heads. induction args as [|x r IH1 IH2] using two_step_ind; [done|].
  cbn [rustc_pairs fmap list_fmap fst]. constructor.
  destruct ((rustc_step x (head r)).2), r; try done. by constructor.
Qed.

Lemma first_some_ind {B} (P : B -> Prop) bs last :
  Forall (fun o => forall r, o = Some r -> P r) bs -> P last -> P (first_some bs last).
Proof. induction 1 as [|[r|] bs Hr _ IH]; simpl; auto. Qed.

Definition is_harness_action (a : RAction) : bool := match a with TestHarness => true | _ => false end.

(** What one argument can do to the scan. *)
Definition step_facts (arg : bytes) (acts : list RAction) : Prop :=
  Forall (fun a => match a with
    | TestHarness => arg = "--test"
    | UnknownFlag f => f = arg /\ starts_with "-" arg = true
    | SetSource p => p = arg /\ ends_with ".rs" arg = true
    | _ => True
    end) acts.

Lemma value_of_facts flag arg next k r :
  (forall v, match k v with TestHarness | UnknownFlag _ | SetSource _ => False | _ => True end) ->
  value_of flag arg next k = Some r -> step_facts arg r.1.
Proof.
  intros Hk. unfold value_of. case_bool_decide.
  - destruct next as [v|]; simpl; [|done]. intros [= <-]. repeat constructor. specialize (Hk v). by destruct (k v).
  - destruct (strip_prefix _ arg) as [v|]; simpl; [|done]. intros [= <-]. repeat constructor.
    specialize (Hk v). by destruct (k v).
Qed.

Lemma rustc_step_facts arg next : step_facts arg (rustc_step arg next).1.
Proof.
  unfold rustc_step. apply first_some_ind; [|destruct (ends_with ".rs" arg) eqn:He; repeat constructor; done].
  repeat (constructor; [intros r|]); [by apply value_of_facts..| | | | | | |constructor].
  - case_bool_decide; [|done]. destruct next; simpl; [|done]. intros [= <-]. repeat constructor.
  - unfold codegen_branch. case_bool_decide.
    + destruct next; simpl; [|done]. intros [= <-]. repeat constructor.
    + destruct (strip_prefix "-C" arg); simpl; [|done]. case_bool_decide; [done|]. intros [= <-]. repeat constructor.
  - case_bool_decide; [|done]. intros [= <-]. repeat constructor.
  - destruct (_ && _); [|done]. intros [= <-]. repeat constructor.
  - case_bool_decide; [|done]. subst. intros [= <-]. repeat constructor.
  - destruct (starts_with "-" arg) eqn:Hs; [|done]. intros [= <-]. repeat constructor. done.
Qed.

Lemma rustc_step_test next : rustc_step "--test" next = ([TestHarness; UnknownFlag "--test"], false).
Proof. vm_compute. done. Qed.

Lemma actions_in args a :
  a ∈ rustc_actions args -> exists arg, arg ∈ rustc_heads args /\ step_facts arg [a].
Proof.
  rewrite rustc_actions_pairs, list_elem_of_In, in_flat_map. intros ([arg next] & Hp & Ha). exists arg. split.
  - apply list_elem_of_fmap. exists (arg, next). split; [done|]. by apply list_elem_of_In.
  - pose proof (rustc_step_facts arg next) as H. unfold step_facts in H. rewrite Forall_forall in H.
    constructor; [|constructor]. apply H. by apply list_elem_of_In.
Qed.

Lemma harness_in args :
  TestHarness ∈ rustc_actions args <-> "--test" ∈ rustc_heads args.
Proof.
  split.
  - intros (arg & Hin & Hf)%actions_in. inversion Hf; simplify_eq. done.
  - intros ([? next] & ? & Hin)%list_elem_of_fmap. simplify_eq/=. rewrite rustc_actions_pairs.
    apply list_elem_of_In, in_flat_map. eexists. split; [by apply list_elem_of_In|].
    cbn [fst snd]. rewrite rustc_step_test. by left.
Qed.

(** The fields of the scan that the verdict rests on. *)
Definition unknown_of (a : RAction) : option bytes := match a with UnknownFlag f => Some f | _ => None end.
Definition source_of (a : RAction) : option bytes := match a with SetSource p => Some p | _ => None end.

Lemma scan_fields acts s :
  let s' := fold_left apply_raction acts s in
  is_test_harness s' = is_test_harness s || existsb is_harness_action acts /\
  rs_unknown s' = rs_unknown s ++ omap unknown_of acts /\
  (forall p, rs_source s' = Some p -> rs_source s = Some p \/ SetSource p ∈ acts).
Proof.
  revert s. induction acts as [|a acts IH]; intros s; cbn [fold_left].
  { cbn. rewrite orb_false_r, app_nil_r. split_and!; [done..|]. by left. }
  destruct (IH (apply_raction s a)) as (H1 & H2 & H3). cbv zeta. rewrite H1, H2.
  destruct s, a; simpl in *; try destruct (emit_paths _ _ _); simpl in *;
    (split; [by rewrite ?orb_true_r|]); (split; [by rewrite <- ?app_assoc|]);
    intros p Hp; destruct (H3 p Hp) as [H|H]; simplify_eq; rewrite ?elem_of_cons; auto.
Qed.

(** The rustc arguments of a command line: all of them, or those behind the
    inner compiler of the Dylint driver. *)
Definition inner_args (compiler : bytes) (args inner : list bytes) : Prop :=
  dylint_inner_rustc_args compiler args = inr None /\ inner = args \/
  exists rustc, dylint_inner_rustc_args compiler args = inr (Some (rustc, inner)) /\ args = rustc :: inner.

Lemma inner_args_some compiler args rustc inner :
  dylint_inner_rustc_args compiler args = inr (Some (rustc, inner)) -> inner_args compiler args inner.
Proof.
  intros H. right. exists rustc. split; [done|]. unfold dylint_inner_rustc_args in H.
  destruct (negb _); [done|]. destruct args as [|x r]; [done|]. destruct (_ && _); [done|]. by simplify_eq.
Qed.

Section policy.
Context (windows_file_stem : bytes -> option bytes).

(** What the verdict over the arguments of rustc itself means. *)
Definition plan_meaning (syntax : RustcPathSyntax) (cache_test_bins : bool) (inner : list bytes) (p : RustcPlan) : Prop :=
  match p with
  | RCacheable source _ unknown =>
      source ∈ rustc_heads inner /\ ends_with ".rs" source = true /\
      Forall (fun t => t ∈ RUSTC_CACHEABLE_CRATE_TYPES \/
        declared_types (rustc_scan inner) = ["cdylib"] /\ dylint_cdylib windows_file_stem syntax (rustc_scan inner) = true)
        (declared_types (rustc_scan inner)) /\
      Forall (fun f => f ∈ rustc_heads inner /\ starts_with "-" f = true) unknown /\
      ("--test" ∈ unknown <-> "--test" ∈ rustc_heads inner) /\
      ("--test" ∈ rustc_heads inner -> cache_test_bins = true)
  | RNonCacheable reason =>
      reason = RUSTC_TEST_HARNESS_REASON -> "--test" ∈ rustc_heads inner /\ cache_test_bins = false
  end.

Lemma scan_harness inner : is_test_harness (rustc_scan inner) = true <-> "--test" ∈ rustc_heads inner.
Proof.
  unfold rustc_scan. destruct (scan_fields (rustc_actions inner) rscan_init) as (-> & _ & _). simpl.
  rewrite existsb_exists, <- harness_in. split.
  - intros (a & Ha%list_elem_of_In & Hb). by destruct a.
  - intros Ha. exists TestHarness. by split; [apply list_elem_of_In|].
Qed.

Lemma scan_unknown inner f :
  f ∈ rs_unknown (rustc_scan inner) <-> UnknownFlag f ∈ rustc_actions inner.
Proof.
  unfold rustc_scan. destruct (scan_fields (rustc_actions inner) rscan_init) as (_ & -> & _). simpl.
  rewrite list_elem_of_omap. split; [|intros H; by exists (UnknownFlag f)].
  intros (a & Ha & Hu). destruct a; simplify_eq/=. done.
Qed.

Lemma scan_source inner source :
  rs_source (rustc_scan inner) = Some source -> source ∈ rustc_heads inner /\ ends_with ".rs" source = true.
Proof.
  unfold rustc_scan. destruct (scan_fields (rustc_actions inner) rscan_init) as (_ & _ & H3). intros Hsrc.
  destruct (H3 _ Hsrc) as [Hn|Hin]; [done|]. destruct (actions_in _ _ Hin) as (arg & Ha & Hf).
  apply Forall_cons in Hf as [[-> ?] _]. done.
Qed.

Lemma scan_unknown_facts inner f :
  f ∈ rs_unknown (rustc_scan inner) -> f ∈ rustc_heads inner /\ starts_with "-" f = true.
Proof.
  intros Hin%scan_unknown. destruct (actions_in _ _ Hin) as (arg & Ha & Hf). apply Forall_cons in Hf as [[-> ?] _]. done.
Qed.

Lemma scan_unknown_test inner : "--test" ∈ rs_unknown (rustc_scan inner) <-> "--test" ∈ rustc_heads inner.
Proof.
  split; [intros H; by apply scan_unknown_facts|].
  intros ([? next] & ? & Hin)%list_elem_of_fmap. simplify_eq/=. apply scan_unknown.
  rewrite rustc_actions_pairs. apply list_elem_of_In, in_flat_map. eexists. split; [by apply list_elem_of_In|].
  cbn [fst snd]. rewrite rustc_step_test. by right; left.
Qed.

Lemma crate_types_ok syntax s :
  List.find (fun ct => negb (crate_type_ok (dylint_cdylib windows_file_stem syntax s) ct)) (declared_types s) = None ->
  Forall (fun t => t ∈ RUSTC_CACHEABLE_CRATE_TYPES \/
    declared_types s = ["cdylib"] /\ dylint_cdylib windows_file_stem syntax s = true) (declared_types s).
Proof.
  intros Hct. apply Forall_forall. intros t Hin%list_elem_of_In. pose proof (List.find_none _ _ Hct t Hin) as Hn.
  apply negb_false_iff in Hn. unfold crate_type_ok in Hn.
  apply orb_prop in Hn as [Hn|[_ Hn]%andb_prop]; [left; by apply bool_decide_eq_true in Hn|right].
  split; [|done]. unfold dylint_cdylib in Hn. rewrite !andb_true_iff in Hn.
  by destruct Hn as [[[?%bool_decide_eq_true ?] ?] ?].
Qed.

Lemma plan_meaning_ok host syntax cache_test_bins inner :
  plan_meaning syntax cache_test_bins inner
    (plan_of_scan windows_file_stem host syntax cache_test_bins (rustc_scan inner)).
Proof.
  unfold plan_of_scan. destruct (rs_source (rustc_scan inner)) as [source|] eqn:Hsrc; [|done].
  destruct (_ && _); [done|]. destruct (List.find _ _) as [ct|] eqn:Hct; [done|].
  pose proof (scan_harness inner) as Hth. destruct (is_test_harness (rustc_scan inner) && negb cache_test_bins) eqn:Hb.
  - apply andb_prop in Hb as [H1 H2%negb_true_iff]. intros _. split; [by apply Hth|done].
  - destruct (scan_source _ _ Hsrc). split_and!; [done|done|by apply crate_types_ok| |apply scan_unknown_test|].
    + apply Forall_forall. apply scan_unknown_facts.
    + intros Hin. apply Hth in Hin. rewrite Hin in Hb. by destruct cache_test_bins.
Qed.
End policy.

(** The verdict on a rustc command line.  A cacheable invocation keeps the
    whole command line, compiles a [.rs] argument that is not the value of a
    flag, and has only crate types whose outputs are modelled (a [cdylib] only
    as the single crate type of a Dylint library linked for the host).  Its
    unknown flags, which are keyed, contain [--test] exactly when the command
    line does, so a test harness never shares a key with the plain crate, and
    it is accepted only when the policy admits harnesses.  The refusal of
    harnesses is given for nothing else. *)
Theorem rustc_verdict (windows_file_stem : bytes -> option bytes) (current host : RustcHost) (compiler : bytes)
    (args : list bytes) (cache_test_bins : bool) :
  match parse_rustc_invocation_with_host windows_file_stem current compiler args host cache_test_bins with
  | Cacheable c =>
      co_original_args c = args /\ co_family c = Rustc /\
      exists inner source, inner_args compiler args inner /\ co_source_file c = NormalizedPath_new source /\
        source ∈ rustc_heads inner /\ ends_with ".rs" source = true /\
        Forall (fun t => t ∈ RUSTC_CACHEABLE_CRATE_TYPES \/
          declared_types (rustc_scan inner) = ["cdylib"] /\
          dylint_cdylib windows_file_stem (current_syntax current) (rustc_scan inner) = true)
          (declared_types (rustc_scan inner)) /\
        (co_is_rustc_test_harness c = true <-> "--test" ∈ rustc_heads inner) /\
        ("--test" ∈ rustc_heads inner -> cache_test_bins = true)
  | NonCacheable reason =>
      reason = RUSTC_TEST_HARNESS_REASON ->
      cache_test_bins = false /\ exists inner, inner_args compiler args inner /\ "--test" ∈ rustc_heads inner
  | MultiFile _ _ _ => False
  end.
Proof.
  unfold parse_rustc_invocation_with_host, parse_rustc_plan_with_syntax.
  destruct (dylint_inner_rustc_args compiler args) as [reason|[[rustc inner]|]] eqn:Hd.
  { unfold dylint_inner_rustc_args in Hd. destruct (negb _); [done|].
    destruct args; [simplify_eq; done|]. destruct (_ && _); simplify_eq. done. }
  all: [> pose proof (inner_args_some _ _ _ _ Hd) as Hi
        | assert (inner_args compiler args args) as Hi by (by left; split)].
  all: match type of Hi with inner_args _ _ ?l =>
    pose proof (plan_meaning_ok windows_file_stem host (current_syntax current) cache_test_bins l) as Hm;
    destruct (plan_of_scan _ _ _ _ (rustc_scan l)) as [reason|source output unknown];
    [intros Hr; destruct (Hm Hr); split; [done|exists l; done]|];
    destruct Hm as (H1 & H2 & H3 & _ & H5 & H6); split; [done|split; [done|]]; exists l, source;
    split_and!; [done..| |done]; unfold co_is_rustc_test_harness; simpl; rewrite bool_decide_eq_true; done
  end.
Qed.
