(* ===== verification/Invocation.v ===== *)
(** * Which compiler invocations may be cached ([parse.rs], [parse_msvc.rs])

    The classifier of [zccache-compiler]: it reads a command line and answers
    whether it is one compilation, several, or none that can be cached.  It
    dispatches on the family of the compiler and on the look of the arguments
    to the parsers of rustc ([RustcPlan]), MSVC and GNU command lines. *)

From stdpp Require Import list strings gmap.
From Stdlib Require Import Lia.
From S2P Require Import Prelude Path Hash RustStr ContextKeys GnuArgs Detect RustcPlan.

(** ** [parse.rs]: source modes and default outputs *)

Definition source_mode_from_language (lang : bytes) : option SourceMode :=
  if bool_decide (lang ∈ ["c-header"; "c++-header"]) then Some ModeHeader
  else if bool_decide (lang ∈ ["c-header-unit"; "c++-header-unit"]) then Some ModeHeaderUnit
  else if bool_decide (lang = "c++-module") then Some ModeModule
  else None.

Definition source_mode_from_extension (path : bytes) : SourceMode :=
  match extension path with
  | Some ext => if bool_decide (ext ∈ MODULE_EXTENSIONS) then ModeModule else ModeNormal
  | None => ModeNormal
  end.

Definition default_output (source : bytes) (f : CompilerFamily) (mode : SourceMode) (has_precompile : bool) : bytes :=
  let filename := default source (file_name source) in
  let stem := default "a" (file_stem source) in
  match mode, pch_extension f with
  | ModeHeader, Some ext => filename +:+ "." +:+ ext
  | ModeHeaderUnit, _ => filename +:+ ".pcm"
  | ModeModule, _ | ModeNormal, _ => if has_precompile then stem +:+ ".pcm" else stem +:+ ".o"
  | ModeHeader, None => stem +:+ ".o"
  end.

(** ** [parse.rs]: the loop over a GNU command line *)

Record GnuScan := mkGScan {
  g_has_c : bool;
  g_precompile : bool;
  g_sources : list (bytes * nat * SourceMode);
  g_output : option bytes;
  g_mode : SourceMode;
  g_unknown : list bytes;
  g_positional : bool;
}.

Definition gscan_init : GnuScan := mkGScan false false [] None ModeNormal [] false.

Definition g_push_source (arg : bytes) (i : nat) (s : GnuScan) : GnuScan :=
  let special := negb (bool_decide (g_mode s = ModeNormal)) in
  let mode := if special then g_mode s else source_mode_from_extension arg in
  if is_source_path arg || special
  then mkGScan (g_has_c s) (g_precompile s) (g_sources s ++ [(arg, i, mode)]) (g_output s) (g_mode s) (g_unknown s)
         (g_positional s)
  else s.

Definition g_set_positional (s : GnuScan) : GnuScan :=
  mkGScan (g_has_c s) (g_precompile s) (g_sources s) (g_output s) (g_mode s) (g_unknown s) true.
Definition g_set_c (s : GnuScan) : GnuScan :=
  mkGScan true (g_precompile s) (g_sources s) (g_output s) (g_mode s) (g_unknown s) (g_positional s).
Definition g_set_precompile (s : GnuScan) : GnuScan :=
  mkGScan (g_has_c s) true (g_sources s) (g_output s) (g_mode s) (g_unknown s) (g_positional s).
Definition g_set_output (p : bytes) (s : GnuScan) : GnuScan :=
  mkGScan (g_has_c s) (g_precompile s) (g_sources s) (Some p) (g_mode s) (g_unknown s) (g_positional s).
Definition g_set_mode (m : SourceMode) (s : GnuScan) : GnuScan :=
  mkGScan (g_has_c s) (g_precompile s) (g_sources s) (g_output s) m (g_unknown s) (g_positional s).
Definition g_push_unknown (f : bytes) (s : GnuScan) : GnuScan :=
  mkGScan (g_has_c s) (g_precompile s) (g_sources s) (g_output s) (g_mode s) (g_unknown s ++ [f]) (g_positional s).

(** An early return, or the state and whether the next argument is consumed. *)
Definition gnu_arg (arg : bytes) (next : option bytes) (i : nat) (s : GnuScan) : bytes + GnuScan * bool :=
  if bool_decide (arg = "--") && negb (g_positional s) then inr (g_set_positional s, false)
  else if g_positional s then inr (g_push_source arg i s, false)
  else if bool_decide (arg ∈ ["-E"; "-M"; "-MM"]) then inl ("preprocessing-only flag: " +:+ arg)
  else if bool_decide (arg = "-") then inl "stdin source not cacheable"
  else if bool_decide (arg = "-fprofile-use") then inl "implicit -fprofile-use profile input is not cacheable"
  else if bool_decide (arg = "-c") then inr (g_set_c s, false)
  else if bool_decide (arg = "--precompile") then inr (g_set_precompile s, false)
  else if bool_decide (arg = "-o") then
    match next with
    | Some p => inr (g_set_output p s, true)
    | None => inr (s, false)
    end
  else match strip_prefix "-o" arg with
  | Some path => inr (g_set_output path s, false)
  | None =>
      if gnu_flag_takes_value arg then
        inr (match next with
             | Some lang =>
                 if bool_decide (arg = "-x")
                 then g_set_mode (default ModeNormal (source_mode_from_language lang)) s else s
             | None => s
             end, true)
      else if starts_with "-" arg then inr (g_push_unknown arg s, false)
      else inr (g_push_source arg i s, false)
  end.

Fixpoint gnu_loop (args : list bytes) (i : nat) (s : GnuScan) : bytes + GnuScan :=
  match args with
  | [] => inr s
  | arg :: rest =>
      match gnu_arg arg (head rest) i s with
      | inl reason => inl reason
      | inr (s, two) =>
          match two, rest with
          | true, _ :: rest' => gnu_loop rest' (S (S i)) s
          | _, _ => gnu_loop rest (S i) s
          end
      end
  end.

(** [HashSet::insert] of every name: whether one of them was there before. *)
Fixpoint name_collision (names : list bytes) (seen : gset string) : bool :=
  match names with
  | [] => false
  | n :: names' => if bool_decide (n ∈ seen) then true else name_collision names' ({[n]} ∪ seen)
  end.

Definition mk_gnu_compilation (compiler : bytes) (f : CompilerFamily) (args : list bytes) (s : GnuScan)
    (source output : bytes) : CacheableCompilation :=
  mkCompilation (NormalizedPath_new compiler) f (NormalizedPath_new source) (NormalizedPath_new output) args
    (g_unknown s).

(** What follows the loop.  [windows] is [target_is_windows]. *)
Definition gnu_verdict (windows : bool) (compiler : bytes) (args : list bytes) (reject_side_outputs : bool)
    (s : GnuScan) : ParsedInvocation :=
  if negb (g_has_c s) && negb (g_precompile s) && negb (implies_compilation (g_mode s))
  then NonCacheable "no -c flag (likely a link invocation)"
  else match g_sources s with
  | [] => NonCacheable "no source file found"
  | (source, _, mode) :: more =>
      match (if reject_side_outputs then unmodeled_side_output_flag args false else None) with
      | Some flag => NonCacheable ("unmodeled compiler side output requested by " +:+ flag)
      | None =>
          let f := detect_family compiler in
          match more with
          | _ :: _ =>
              match g_output s with
              | Some _ => NonCacheable "multi-file explicit output is compiler-owned"
              | None =>
                  let cs := map (fun x : bytes * nat * SourceMode =>
                    mk_gnu_compilation compiler f args s x.1.1 (default_output x.1.1 f x.2 (g_precompile s)))
                    (g_sources s) in
                  if name_collision (map (fun c => if windows then to_ascii_lowercase (co_output_file c)
                                                   else co_output_file c) cs) ∅
                  then NonCacheable "multi-file output name collision"
                  else MultiFile cs args (map (fun x : bytes * nat * SourceMode => x.1.2) (g_sources s))
              end
          | [] =>
              Cacheable (mk_gnu_compilation compiler f args s source
                (default (default_output source f mode (g_precompile s)) (g_output s)))
          end
      end
  end.

Definition parse_gnu_invocation (windows : bool) (compiler : bytes) (args : list bytes) (reject_side_outputs : bool) :
    ParsedInvocation :=
  match gnu_loop args 0 gscan_init with
  | inl reason => NonCacheable reason
  | inr s => gnu_verdict windows compiler args reject_side_outputs s
  end.

(** ** [parse_msvc.rs] *)

Definition MSVC_SOURCE_EXTENSIONS : list bytes :=
  ["c"; "cc"; "cpp"; "cxx"; "c++"; "cppm"; "ixx"; "m"; "mm"; "i"; "ii"; "s"; "sx"].

Definition is_flag (arg : bytes) : bool := starts_with "/" arg || starts_with "-" arg.
Definition flag_body (arg : bytes) : bytes :=
  match strip_prefix "/" arg with Some b => b | None => default arg (strip_prefix "-" arg) end.
Definition strip_flag (arg head_ : bytes) : option bytes :=
  match strip_prefix "/" arg with
  | Some rest => strip_prefix head_ rest
  | None => rest ← strip_prefix "-" arg; strip_prefix head_ rest
  end.
Definition is_exact_flag (arg head_ : bytes) : bool :=
  bool_decide (strip_prefix "/" arg = Some head_) || bool_decide (strip_prefix "-" arg = Some head_).

Definition is_msvc_source_file (path : bytes) : bool :=
  match extension path with
  | Some ext => bool_decide (to_ascii_lowercase ext ∈ MSVC_SOURCE_EXTENSIONS)
  | None => false
  end.

Definition is_alpha_byte (c : ascii) : bool :=
  let v := byte_val c in ((65 <=? v) && (v <=? 90)) || ((97 <=? v) && (v <=? 122)).
Definition first_is (p : ascii -> bool) (s : bytes) : bool :=
  match s with String c _ => p c | EmptyString => false end.

Definition looks_like_msvc_arg (arg : bytes) : bool :=
  match strip_prefix "/" arg with
  | None => false
  | Some rest => first_is is_alpha_byte rest && negb (str_contains "/" rest)
  end.
Definition looks_like_msvc_args (args : list bytes) : bool := existsb looks_like_msvc_arg args.

Definition msvc_default_output (source : bytes) : bytes := default "a" (file_stem source) +:+ ".obj".
Definition msvc_output_in_directory (directory source : bytes) : bytes := directory +:+ msvc_default_output source.

Record MsvcScan := mkMScan {
  m_has_c : bool;
  m_output : option bytes;
  m_sources : list (bytes * nat);
  m_unknown : list bytes;
  m_pdb : bool;
}.
Definition mscan_init : MsvcScan := mkMScan false None [] [] false.

Definition m_set_c (s : MsvcScan) : MsvcScan := mkMScan true (m_output s) (m_sources s) (m_unknown s) (m_pdb s).
Definition m_set_output (p : bytes) (s : MsvcScan) : MsvcScan :=
  mkMScan (m_has_c s) (Some p) (m_sources s) (m_unknown s) (m_pdb s).
Definition m_push_source (p : bytes) (i : nat) (s : MsvcScan) : MsvcScan :=
  mkMScan (m_has_c s) (m_output s) (m_sources s ++ [(p, i)]) (m_unknown s) (m_pdb s).
Definition m_push_unknown (f : bytes) (s : MsvcScan) : MsvcScan :=
  mkMScan (m_has_c s) (m_output s) (m_sources s) (m_unknown s ++ [f]) (m_pdb s).
Definition m_set_pdb (f : bytes) (s : MsvcScan) : MsvcScan :=
  mkMScan (m_has_c s) (m_output s) (m_sources s) (m_unknown s ++ [f]) true.

(** [/Tc] and [/Tp]: the source is the rest of the argument or the next one. *)
Definition msvc_source_flag (rest : bytes) (next : option bytes) (i : nat) (s : MsvcScan) : MsvcScan * bool :=
  if bool_decide (rest = "") then
    match next with
    | Some p => (m_push_source p (S i) s, true)
    | None => (s, false)
    end
  else (m_push_source rest i s, false).

(** A flag, or an argument with an inner slash that may be a path. *)
Definition msvc_passthrough (arg : bytes) : bool :=
  is_flag arg &&
  (starts_with "-" arg ||
   (negb (str_contains "/" (flag_body arg)) &&
    first_is (fun c => is_alpha_byte c || bool_decide (c = "?"%char)) (flag_body arg))).

Definition msvc_arg (arg : bytes) (next : option bytes) (i : nat) (s : MsvcScan) : bytes + MsvcScan * bool :=
  if bool_decide (arg = "") then inr (s, false)
  else if is_exact_flag arg "E" || is_exact_flag arg "EP" || is_exact_flag arg "P"
  then inl ("preprocessing-only flag: " +:+ arg)
  else if bool_decide (arg = "/?") || is_exact_flag arg "help" || is_exact_flag arg "HELP" ||
          bool_decide (arg = "--version") || bool_decide (arg = "--help")
  then inl ("help/version query: " +:+ arg)
  else if is_exact_flag arg "c" then inr (m_set_c s, false)
  else if eq_ignore_ascii_case (flag_body arg) "zi" then inr (m_set_pdb arg s, false)
  else match strip_flag arg "Fo" with
  | Some rest =>
      if bool_decide (rest = "") then
        match next with Some p => inr (m_set_output p s, true) | None => inr (s, false) end
      else inr (m_set_output (default rest (strip_prefix ":" rest)) s, false)
  | None =>
  if bool_decide (is_Some (strip_flag arg "Fe")) || bool_decide (is_Some (strip_flag arg "Fd")) ||
     bool_decide (is_Some (strip_flag arg "Fp"))
  then inr (m_push_unknown arg s, false)
  else if bool_decide (arg = "-o") then
    match next with Some p => inr (m_set_output p s, true) | None => inr (s, false) end
  else match strip_prefix "-o" arg with
  | Some path => inr (m_set_output path s, false)
  | None =>
  match strip_flag arg "Tc", strip_flag arg "Tp" with
  | Some rest, _ | None, Some rest => inr (msvc_source_flag rest next i s)
  | None, None =>
      if is_exact_flag arg "TC" || is_exact_flag arg "TP" then inr (m_push_unknown arg s, false)
      else if is_exact_flag arg "D" || is_exact_flag arg "U" || is_exact_flag arg "I" || is_exact_flag arg "FI" then
        match next with
        | Some v => inr (m_push_unknown v (m_push_unknown arg s), true)
        | None => inr (m_push_unknown arg s, false)
        end
      else if msvc_passthrough arg then inr (m_push_unknown arg s, false)
      else if is_msvc_source_file arg then inr (m_push_source arg i s, false)
      else inr (m_push_unknown arg s, false)
  end end end.

Fixpoint msvc_loop (args : list bytes) (i : nat) (s : MsvcScan) : bytes + MsvcScan :=
  match args with
  | [] => inr s
  | arg :: rest =>
      match msvc_arg arg (head rest) i s with
      | inl reason => inl reason
      | inr (s, two) =>
          match two, rest with
          | true, _ :: rest' => msvc_loop rest' (S (S i)) s
          | _, _ => msvc_loop rest (S i) s
          end
      end
  end.

Definition BSLASH1 : bytes := String BSLASH "".
Definition names_directory (path : bytes) : bool := ends_with "/" path || ends_with BSLASH1 path.

Definition mk_msvc_compilation (compiler : bytes) (f : CompilerFamily) (args : list bytes) (s : MsvcScan)
    (source output : bytes) : CacheableCompilation :=
  mkCompilation (NormalizedPath_new compiler) f (NormalizedPath_new source) (NormalizedPath_new output) args
    (m_unknown s).

Definition msvc_verdict (compiler : bytes) (args : list bytes) (f : CompilerFamily) (s : MsvcScan) : ParsedInvocation :=
  if negb (m_has_c s) then NonCacheable "no /c flag (likely a link invocation)"
  else match m_sources s with
  | [] => NonCacheable "no source file found in MSVC/clang-cl invocation"
  | (source, _) :: more =>
      if bool_decide (more = []) && m_pdb s
      then NonCacheable "MSVC /Zi debug info writes an external PDB side output"
      else match unmodeled_side_output_flag args true with
      | Some flag => NonCacheable ("unmodeled compiler side output requested by " +:+ flag)
      | None =>
          match more with
          | _ :: _ =>
              if match m_output s with Some path => negb (names_directory path) | None => false end
              then NonCacheable "multi-file explicit output is compiler-owned"
              else
                let output_of src :=
                  match m_output s with
                  | Some path => if names_directory path then msvc_output_in_directory path src else msvc_default_output src
                  | None => msvc_default_output src
                  end in
                let cs := map (fun x : bytes * nat => mk_msvc_compilation compiler f args s x.1 (output_of x.1))
                  (m_sources s) in
                if name_collision (map (fun c => to_ascii_lowercase (co_output_file c)) cs) ∅
                then NonCacheable "multi-file output name collision"
                else MultiFile cs args (map snd (m_sources s))
          | [] =>
              Cacheable (mk_msvc_compilation compiler f args s source
                (default (msvc_default_output source) (m_output s)))
          end
      end
  end.

Definition parse_msvc_invocation (compiler : bytes) (args : list bytes) (f : CompilerFamily) : ParsedInvocation :=
  match msvc_loop args 0 mscan_init with
  | inl reason => NonCacheable reason
  | inr s => msvc_verdict compiler args f s
  end.

(** ** The entry points of [parse.rs] *)

(** [config/test_harness_admission.rs] *)
Inductive TestHarnessAdmission := SharedOnly | AdmitAll.
Definition admits_test_harness (a : TestHarnessAdmission) : bool :=
  match a with AdmitAll => true | SharedOnly => false end.

Section entry.
Context (windows_file_stem : bytes -> option bytes) (current : RustcHost).

Definition parse_invocation_with (compiler : bytes) (args : list bytes) (reject_side_outputs : bool)
    (admission : TestHarnessAdmission) : ParsedInvocation :=
  let f := detect_family compiler in
  if bool_decide (f = Rustfmt)
  then NonCacheable "rustfmt is handled via the format cache path, not compile cache"
  else if bool_decide (f = Rustc)
  then parse_rustc_invocation_with_policy windows_file_stem current compiler args (admits_test_harness admission)
  else if bool_decide (f = Msvc) || looks_like_msvc_args args then parse_msvc_invocation compiler args f
  else parse_gnu_invocation (bool_decide (current = HostWindows)) compiler args reject_side_outputs.

Definition parse_invocation_with_admission (compiler : bytes) (args : list bytes) (admission : TestHarnessAdmission) :
    ParsedInvocation :=
  parse_invocation_with compiler args true admission.

Definition side_output_compilations (compiler : bytes) (args : list bytes) : option (list CacheableCompilation) :=
  match unmodeled_side_output_flag args false with
  | None => None
  | Some _ =>
      match parse_invocation_with compiler args false SharedOnly with
      | Cacheable c => Some [c]
      | MultiFile cs _ _ => Some cs
      | NonCacheable _ => None
      end
  end.
End entry.

Definition linux := parse_invocation_with_admission (fun _ => None) HostLinux.
Example gnu_examples :
  linux "gcc" ["-c"; "a.c"; "-o"; "a.o"] SharedOnly =
    Cacheable (mkCompilation "gcc" Gcc "a.c" "a.o" ["-c"; "a.c"; "-o"; "a.o"] []) /\
  linux "g++" ["-c"; "x/a.cc"; "b.cc"; "-Wall"] SharedOnly =
    (let args := ["-c"; "x/a.cc"; "b.cc"; "-Wall"] in
     MultiFile [mkCompilation "g++" Gcc "x/a.cc" "a.o" args ["-Wall"]; mkCompilation "g++" Gcc "b.cc" "b.o" args ["-Wall"]]
       args [1%nat; 2%nat]) /\
  linux "g++" ["-c"; "x/a.cc"; "y/a.cc"] SharedOnly = NonCacheable "multi-file output name collision" /\
  linux "gcc" ["-c"; "a.c"; "--coverage"] SharedOnly =
    NonCacheable "unmodeled compiler side output requested by --coverage" /\
  linux "gcc" ["-c"; "a.c"; "--coverage"; "-I"; "/src"; "-o"; "a.o"] SharedOnly =
    Cacheable (mkCompilation "gcc" Gcc "a.c" "a.o" ["-c"; "a.c"; "--coverage"; "-I"; "/src"; "-o"; "a.o"]
      ["--coverage"; "-I"; "/src"]).
Proof. vm_compute. done. Qed.

(** ** Well-formed results *)

(** The argument at an index names a source: it is the source, or the joined
    form of [/Tc] and [/Tp]. *)
Definition source_at (args : list bytes) (i : nat) (src : bytes) : Prop :=
  exists a, args !! i = Some a /\ (a = src \/ strip_flag a "Tc" = Some src \/ strip_flag a "Tp" = Some src).

(** The sources found in the first [i] arguments. *)
Definition sources_ok (args : list bytes) (i : nat) (l : list (bytes * nat)) : Prop :=
  Forall (fun x => source_at args x.2 x.1 /\ (x.2 < i)%nat) l /\ StronglySorted lt l.*2.

Lemma sources_ok_nil args i : sources_ok args i [].
Proof. split; constructor. Qed.

Lemma sources_ok_le args i j l : (i <= j)%nat -> sources_ok args i l -> sources_ok args j l.
Proof. intros Hij [H1 H2]. split; [|done]. eapply Forall_impl; [exact H1|]. intros x [Hs Hl]. split; [done|lia]. Qed.

Lemma sources_ok_snoc args i j k l src :
  sources_ok args i l -> source_at args j src -> (i <= j < k)%nat -> sources_ok args k (l ++ [(src, j)]).
Proof.
  intros [H1 H2] Hs Hj. split.
  - apply Forall_app. split; [|constructor; [split; [done|simpl; lia]|constructor]].
    eapply Forall_impl; [exact H1|]. intros x [Hx Hl]. split; [done|lia].
  - rewrite fmap_app. apply StronglySorted_app. split_and!; [|done|repeat constructor].
    intros x y (z & -> & Hz)%list_elem_of_fmap ->%list_elem_of_singleton. rewrite Forall_forall in H1.
    destruct (H1 _ Hz) as [_ Hl]. simpl. lia.
Qed.

Definition g_named (s : GnuScan) : list (bytes * nat) := (fun x : bytes * nat * SourceMode => x.1) <$> g_sources s.

Lemma gnu_arg_sources all arg next i s s' two :
  all !! i = Some arg -> sources_ok all i (g_named s) -> gnu_arg arg next i s = inr (s', two) ->
  sources_ok all (S i) (g_named s').
Proof.
  intros Ha Hs. assert (sources_ok all (S i) (g_named s)) as Hk by (by eapply sources_ok_le; [|exact Hs]; lia).
  assert (sources_ok all (S i) (g_named (g_push_source arg i s))) as Hp.
  { unfold g_push_source. destruct (_ || _); [|done]. unfold g_named. simpl. rewrite fmap_app. simpl.
    eapply sources_ok_snoc; [exact Hs|exists arg; by auto|lia]. }
  unfold gnu_arg. repeat (case_match; simpl; try (intros ?; simplify_eq; done)).
Qed.

Lemma lookup_suffix (all : list bytes) i arg rest :
  drop i all = arg :: rest -> all !! i = Some arg /\ drop (S i) all = rest /\ (forall x r, rest = x :: r -> drop (S (S i)) all = r).
Proof.
  intros H. assert (all !! i = Some arg) as Ha.
  { rewrite <- (Nat.add_0_r i), <- lookup_drop, H. done. }
  assert (drop (S i) all = rest) as Hr by (replace (S i) with (i + 1)%nat by lia; by rewrite <- drop_drop, H).
  split_and!; [done..|]. intros x r ->. replace (S (S i)) with (S i + 1)%nat by lia. by rewrite <- drop_drop, Hr.
Qed.

Lemma gnu_loop_sources all rest i s s' :
  drop i all = rest -> sources_ok all i (g_named s) -> gnu_loop rest i s = inr s' ->
  exists j, sources_ok all j (g_named s').
Proof.
  revert i s. induction rest as [|arg rest IH1 IH2] using two_step_ind; intros i s Hd Hs; cbn [gnu_loop];
    [intros [= <-]; eauto|].
  destruct (lookup_suffix all i arg rest Hd) as (Ha & Hd1 & Hd2).
  destruct (gnu_arg arg (head rest) i s) as [|[s1 two]] eqn:Hg; [done|].
  pose proof (gnu_arg_sources all arg _ i s s1 two Ha Hs Hg) as H1.
  destruct two; [|by apply IH1]. destruct rest as [|x r]; [by apply (IH1 (S i))|].
  apply (IH2 (S (S i))); [by eapply Hd2|]. eapply sources_ok_le; [|exact H1]. lia.
Qed.

Lemma msvc_arg_sources all arg next i s s' two :
  all !! i = Some arg -> next = all !! S i -> sources_ok all i (m_sources s) ->
  msvc_arg arg next i s = inr (s', two) ->
  sources_ok all (if two then S (S i) else S i) (m_sources s').
Proof.
  intros Ha Hn Hs.
  assert (forall k, (i <= k)%nat -> sources_ok all k (m_sources s)) as Hk.
  { intros k Hk. by eapply sources_ok_le; [|exact Hs]. }
  assert (forall rest, strip_flag arg "Tc" = Some rest \/ strip_flag arg "Tp" = Some rest ->
    forall s1 b, msvc_source_flag rest next i s = (s1, b) -> sources_ok all (if b then S (S i) else S i) (m_sources s1)) as Hsrc.
  { intros rest Hr s1 b. unfold msvc_source_flag. case_bool_decide.
    - destruct next as [p|]; intros [= <- <-]; [|apply Hk; lia].
      eapply sources_ok_snoc; [exact Hs|exists p; by auto|lia].
    - intros [= <- <-]. eapply sources_ok_snoc; [exact Hs|exists arg; tauto|lia]. }
  assert (sources_ok all (S i) (m_sources (m_push_source arg i s))) as Hp.
  { eapply sources_ok_snoc; [exact Hs|exists arg; by auto|lia]. }
  unfold msvc_arg. repeat (case_match; simpl;
    try (intros ?; simplify_eq; solve [done | apply Hk; lia | eapply Hsrc; eauto])).
Qed.

Lemma msvc_loop_sources all rest i s s' :
  drop i all = rest -> sources_ok all i (m_sources s) -> msvc_loop rest i s = inr s' ->
  exists j, sources_ok all j (m_sources s').
Proof.
  revert i s. induction rest as [|arg rest IH1 IH2] using two_step_ind; intros i s Hd Hs; cbn [msvc_loop];
    [intros [= <-]; eauto|].
  destruct (lookup_suffix all i arg rest Hd) as (Ha & Hd1 & Hd2).
  assert (head rest = all !! S i) as Hn.
  { rewrite <- Hd1. rewrite <- (Nat.add_0_r (S i)) at 2. rewrite <- lookup_drop. by destruct (drop (S i) all). }
  destruct (msvc_arg arg (head rest) i s) as [|[s1 two]] eqn:Hg; [done|].
  pose proof (msvc_arg_sources all arg _ i s s1 two Ha Hn Hs Hg) as H1.
  destruct two; [|by apply IH1]. destruct rest as [|x r].
  - intros [= <-]. eauto.
  - by apply (IH2 (S (S i))); [eapply Hd2|].
Qed.

Lemma name_collision_false names seen :
  name_collision names seen = false -> NoDup names /\ forall n, n ∈ names -> ~ n ∈ seen.
Proof.
  revert seen. induction names as [|n names IH]; intros seen; simpl.
  { intros _. split; [constructor|]. intros n Hn. by apply elem_of_nil in Hn. }
  case_bool_decide as Hin; [done|]. intros [H1 H2]%IH. split.
  - constructor; [|done]. intros Hn. apply (H2 n Hn). set_solver.
  - intros m [->|Hm]%elem_of_cons; [done|]. intros Hs. apply (H2 m Hm). set_solver.
Qed.

Lemma collision_nodup {B} (f : B -> bytes) (g : bytes -> bytes) (l : list B) :
  name_collision (map (fun c => g (f c)) l) ∅ = false -> NoDup (f <$> l).
Proof.
  intros [H _]%name_collision_false. apply (NoDup_fmap_1 g). rewrite <- list_fmap_compose. exact H.
Qed.

(** One compilation of a command line, its source at an index. *)
Definition compilation_at (compiler : bytes) (args : list bytes) (c : CacheableCompilation) (i : nat) : Prop :=
  co_original_args c = args /\ co_compiler c = NormalizedPath_new compiler /\ co_family c = detect_family compiler /\
  exists src, source_at args i src /\ co_source_file c = NormalizedPath_new src.

Definition invocation_wf (compiler : bytes) (args : list bytes) (p : ParsedInvocation) : Prop :=
  match p with
  | Cacheable c => exists i, compilation_at compiler args c i
  | MultiFile cs original indices =>
      original = args /\ (2 <= length cs)%nat /\ Forall2 (compilation_at compiler args) cs indices /\
      StronglySorted lt indices /\ NoDup (co_output_file <$> cs)
  | NonCacheable reason => reason <> ""
  end.

Lemma wf_multi compiler args {B} (f : B -> bytes * nat) (mk : B -> CacheableCompilation) (l : list B) j :
  sources_ok args j (f <$> l) ->
  (forall x, co_original_args (mk x) = args /\ co_compiler (mk x) = NormalizedPath_new compiler /\
     co_family (mk x) = detect_family compiler /\ co_source_file (mk x) = NormalizedPath_new (f x).1) ->
  Forall2 (compilation_at compiler args) (map mk l) (map (fun x => (f x).2) l) /\
  StronglySorted lt (map (fun x => (f x).2) l).
Proof.
  intros [H1 H2] Hmk. split.
  - apply Forall2_fmap_l, Forall2_fmap_r, Forall_Forall2_diag. apply Forall_fmap in H1.
    eapply Forall_impl; [exact H1|]. intros x [Hs _]. destruct (Hmk x) as (? & ? & ? & ?). split_and!; try done. by exists (f x).1.
  - rewrite <- list_fmap_compose in H2. exact H2.
Qed.

Lemma reason_ne (p s : bytes) : p <> "" -> p +:+ s <> "".
Proof. by destruct p. Qed.
#[export] Hint Resolve reason_ne : core.

Lemma gnu_invocation_wf windows compiler args reject :
  invocation_wf compiler args (parse_gnu_invocation windows compiler args reject).
Proof.
  unfold parse_gnu_invocation. destruct (gnu_loop args 0 gscan_init) as [reason|s] eqn:Hl.
  { revert Hl. assert (forall rest i s, gnu_loop rest i s = inl reason -> reason <> "") as H; [|apply H].
    induction rest as [|arg rest IH1 IH2] using two_step_ind; intros i s; cbn [gnu_loop]; [done|].
    destruct (gnu_arg arg (head rest) i s) as [r|[s1 two]] eqn:Hg.
    - intros [= ->]. revert Hg. unfold gnu_arg. repeat case_match; intros ?; simplify_eq; done.
    - destruct two, rest; eauto. }
  destruct (gnu_loop_sources args args 0 gscan_init s eq_refl (sources_ok_nil _ _) Hl) as [j Hs].
  unfold gnu_verdict. destruct (negb _ && _ && _); [done|].
  destruct (g_sources s) as [|[[source i] mode] more] eqn:Hg; [done|].
  destruct (if reject then _ else _); [by apply reason_ne|]. unfold g_named in Hs. rewrite Hg in Hs.
  destruct more as [|x more].
  - destruct Hs as [Hs _]. apply Forall_cons in Hs as [[Hs _] _]. exists i. split_and!; [done..|]. by exists source.
  - destruct (g_output s); [done|]. destruct (name_collision _ _) eqn:Hc; [done|].
    split; [done|]. split; [simpl; lia|].
    destruct (wf_multi compiler args (fun x : bytes * nat * SourceMode => x.1)
      (fun x => mk_gnu_compilation compiler (detect_family compiler) args s x.1.1
        (default_output x.1.1 (detect_family compiler) x.2 (g_precompile s))) _ j Hs) as [H1 H2]; [done|].
    split; [exact H1|]. split; [exact H2|].
    by apply (collision_nodup co_output_file (fun o => if windows then to_ascii_lowercase o else o)) in Hc.
Qed.

Lemma msvc_invocation_wf compiler args :
  invocation_wf compiler args (parse_msvc_invocation compiler args (detect_family compiler)).
Proof.
  unfold parse_msvc_invocation. destruct (msvc_loop args 0 mscan_init) as [reason|s] eqn:Hl.
  { revert Hl. assert (forall rest i s, msvc_loop rest i s = inl reason -> reason <> "") as H; [|apply H].
    induction rest as [|arg rest IH1 IH2] using two_step_ind; intros i s; cbn [msvc_loop]; [done|].
    destruct (msvc_arg arg (head rest) i s) as [r|[s1 two]] eqn:Hg.
    - intros [= ->]. revert Hg. unfold msvc_arg. repeat case_match; intros ?; simplify_eq; done.
    - destruct two, rest; eauto. }
  destruct (msvc_loop_sources args args 0 mscan_init s eq_refl (sources_ok_nil _ _) Hl) as [j Hs].
  unfold msvc_verdict. destruct (negb _); [done|].
  destruct (m_sources s) as [|[source i] more] eqn:Hm; [done|].
  destruct (_ && _); [done|]. destruct (unmodeled_side_output_flag args true); [by apply reason_ne|].
  destruct more as [|x more].
  - destruct Hs as [Hs _]. apply Forall_cons in Hs as [[Hs _] _]. exists i. split_and!; [done..|]. by exists source.
  - destruct (match m_output s with Some _ => _ | None => _ end); [done|].
    destruct (name_collision _ _) eqn:Hc; [done|]. split; [done|]. split; [simpl; lia|].
    rewrite <- (list_fmap_id ((source, i) :: x :: more)) in Hs.
    match goal with |- Forall2 _ (map ?mk _) _ /\ _ => destruct (wf_multi compiler args id mk _ j Hs) as [H1 H2] end; [done|].
    split; [exact H1|]. split; [exact H2|]. by apply (collision_nodup co_output_file to_ascii_lowercase) in Hc.
Qed.

(** C25: every answer of the classifier is well formed.  A cacheable compilation
    carries the command line unchanged, the family of its compiler and a source
    that is an argument.  A multi-file answer has at least two compilations, one
    per index, in the order of the command line, each with the source its index
    points at and pairwise different outputs.  A refusal gives a reason. *)
Theorem parsed_invocation_wf (windows_file_stem : bytes -> option bytes) (current : RustcHost) (compiler : bytes)
    (args : list bytes) (reject_side_outputs : bool) (admission : TestHarnessAdmission) :
  invocation_wf compiler args
    (parse_invocation_with windows_file_stem current compiler args reject_side_outputs admission).
Proof.
  unfold parse_invocation_with. case_bool_decide; [done|]. case_bool_decide as Hr; cycle 1.
  { destruct (_ || _); [apply msvc_invocation_wf|apply gnu_invocation_wf]. }
  unfold parse_rustc_invocation_with_policy, parse_rustc_invocation_with_host, parse_rustc_plan_with_syntax.
  set (b := admits_test_harness admission).
  assert (forall inner, inner_args compiler args inner ->
    let p := plan_of_scan windows_file_stem current (current_syntax current) b (rustc_scan inner) in
    match p with RCacheable src _ _ => exists i, source_at args i src | RNonCacheable r => r <> "" end) as Hp.
  { intros inner Hi p. pose proof (plan_meaning_ok windows_file_stem current (current_syntax current) b inner) as Hm.
    fold p in Hm. destruct p as [r|src out unk] eqn:Hpe.
    - revert Hpe. unfold p, plan_of_scan. repeat case_match; intros ?; simplify_eq; done.
    - destruct Hm as (Hin & _). assert (src ∈ args) as [i Hsrc]%list_elem_of_lookup_1.
      { assert (src ∈ inner) as Hx by (eapply elem_of_sublist; [exact Hin|apply rustc_heads_sublist]).
        destruct Hi as [[_ ->]|(rustc & _ & ->)]; [done|by right]. }
      exists i, src. auto. }
  destruct (dylint_inner_rustc_args compiler args) as [reason|[[rustc inner]|]] eqn:Hd.
  { unfold dylint_inner_rustc_args in Hd. repeat case_match; simplify_eq; done. }
  - specialize (Hp inner (inner_args_some _ _ _ _ Hd)). cbv zeta in Hp. destruct (plan_of_scan _ _ _ _ _); [done|].
    destruct Hp as [i Hi]. exists i. split_and!; [done..|]. eauto.
  - specialize (Hp args (or_introl (conj Hd eq_refl))). cbv zeta in Hp. destruct (plan_of_scan _ _ _ _ _); [done|].
    destruct Hp as [i Hi]. exists i. split_and!; [done..|]. eauto.
Qed.

(** ** The guards of the GNU parser *)

(** The arguments read as options: not the values of the flags that take one,
    and none behind [--]. *)
Fixpoint gnu_options (args : list bytes) : list bytes :=
  match args with
  | [] => []
  | arg :: rest =>
      if bool_decide (arg = "--") then []
      else arg :: match gnu_flag_takes_value arg, rest with
                  | true, _ :: rest' => gnu_options rest'
                  | _, _ => gnu_options rest
                  end
  end.

Definition refused_options : list bytes := ["-E"; "-M"; "-MM"; "-"; "-fprofile-use"].

(** The language in force at the end: the value of the last [-x]. *)
Fixpoint last_language (lang : option bytes) (args : list bytes) : option bytes :=
  match args with
  | [] => lang
  | arg :: rest =>
      if bool_decide (arg = "--") then lang
      else match gnu_flag_takes_value arg, rest with
           | true, value :: rest' => last_language (if bool_decide (arg = "-x") then Some value else lang) rest'
           | _, _ => last_language lang rest
           end
  end.

(** Languages of which the driver compiles a file without [-c]. *)
Definition header_languages : list bytes := ["c-header"; "c++-header"; "c-header-unit"; "c++-header-unit"].
Definition header_language (lang : option bytes) : Prop := exists l, lang = Some l /\ l ∈ header_languages.

Lemma language_implies l : implies_compilation (default ModeNormal (source_mode_from_language l)) = true -> l ∈ header_languages.
Proof.
  unfold source_mode_from_language, header_languages. case_bool_decide as H1; [set_solver|]. case_bool_decide as H2; [set_solver|].
  by case_bool_decide.
Qed.

(** A step that goes on: the option was not refused, and it consumes a value
    when the table says so. *)
Lemma gnu_arg_step arg next i s s' two :
  g_positional s = false -> gnu_arg arg next i s = inr (s', two) ->
  if bool_decide (arg = "--") then g_has_c s' = g_has_c s /\ g_precompile s' = g_precompile s /\ g_mode s' = g_mode s /\ g_positional s' = true /\ two = false
  else ~ arg ∈ refused_options /\ g_positional s' = false /\
    (two = gnu_flag_takes_value arg \/ next = None) /\
    (g_has_c s' = true -> g_has_c s = true \/ arg = "-c") /\
    (g_precompile s' = true -> g_precompile s = true \/ arg = "--precompile") /\
    g_mode s' = match next with
                | Some lang => if bool_decide (arg = "-x") then default ModeNormal (source_mode_from_language lang) else g_mode s
                | None => g_mode s
                end.
Proof.
  intros Hp. unfold gnu_arg. rewrite Hp. destruct (bool_decide_reflect (arg = "--")) as [->|Hne]; cbn [andb negb].
  { intros [= <- <-]. done. }
  destruct (bool_decide_reflect (arg ∈ ["-E"; "-M"; "-MM"])) as [|H1]; [done|].
  destruct (bool_decide_reflect (arg = "-")) as [|H2]; [done|].
  destruct (bool_decide_reflect (arg = "-fprofile-use")) as [|H3]; [done|]. intros H.
  split; [unfold refused_options; set_solver|]. revert H.
  assert (forall o : option bytes, match o with Some l => if bool_decide (arg = "-x") then default ModeNormal (source_mode_from_language l) else g_mode s | None => g_mode s end =
    g_mode s \/ gnu_flag_takes_value arg = true) as Hx.
  { intros [l|]; [|by left]. case_bool_decide as E; [|by left]. right. by subst arg. }
  destruct (bool_decide_reflect (arg = "-c")) as [->|H4]; [intros [= <- <-]; simpl; split_and!; auto; by destruct next|].
  destruct (bool_decide_reflect (arg = "--precompile")) as [->|H5]; [intros [= <- <-]; simpl; split_and!; auto; by destruct next|].
  destruct (bool_decide_reflect (arg = "-o")) as [->|H6]; [destruct next; intros [= <- <-]; simpl; split_and!; auto|].
  destruct (strip_prefix "-o" arg) as [path|] eqn:Ho.
  { intros H. simplify_eq. cbn [g_positional g_has_c g_precompile g_mode g_set_output].
    assert (gnu_flag_takes_value arg = false) as Hno.
    { apply strip_prefix_Some in Ho. subst arg. apply bool_decide_eq_false. unfold GNU_FLAGS_WITH_VALUE.
      rewrite !not_elem_of_cons. split_and!; try done. apply not_elem_of_nil. }
    split_and!; auto. destruct (Hx next) as [->|]; [done|congruence]. }
  destruct (gnu_flag_takes_value arg) eqn:Hg.
  { intros [= <- <-]. destruct next as [lang|]; simpl; [|split_and!; auto].
    case_bool_decide; simpl; split_and!; auto. }
  assert (match next with Some l => if bool_decide (arg = "-x") then default ModeNormal (source_mode_from_language l) else g_mode s | None => g_mode s end =
    g_mode s) as -> by (destruct (Hx next); [done|congruence]).
  destruct (starts_with "-" arg); intros [= <- <-]; simpl; [split_and!; auto|].
  unfold g_push_source. destruct (_ || _); simpl; split_and!; auto.
Qed.

Lemma gnu_loop_positional rest i s s' :
  g_positional s = true -> gnu_loop rest i s = inr s' ->
  g_has_c s' = g_has_c s /\ g_precompile s' = g_precompile s /\ g_mode s' = g_mode s.
Proof.
  revert i s. induction rest as [|arg rest IH]; intros i s Hp; cbn [gnu_loop]; [intros [= <-]; done|].
  unfold gnu_arg. rewrite Hp, andb_false_r. unfold g_push_source. destruct (_ || _); simpl; intros H;
    destruct rest; apply IH in H; done.
Qed.

Lemma gnu_loop_options rest i s s' :
  g_positional s = false -> gnu_loop rest i s = inr s' ->
  Forall (fun f => ~ f ∈ refused_options) (gnu_options rest) /\
  (g_has_c s' = true -> g_has_c s = true \/ "-c" ∈ gnu_options rest) /\
  (g_precompile s' = true -> g_precompile s = true \/ "--precompile" ∈ gnu_options rest) /\
  forall lang, (implies_compilation (g_mode s) = true -> header_language lang) ->
    implies_compilation (g_mode s') = true -> header_language (last_language lang rest).
Proof.
  revert i s. induction rest as [|arg rest IH1 IH2] using two_step_ind; intros i s Hp; cbn [gnu_loop gnu_options last_language].
  { intros [= <-]. split_and!; auto. }
  destruct (gnu_arg arg (head rest) i s) as [|[s1 two]] eqn:Hg; [done|].
  pose proof (gnu_arg_step arg _ i s s1 two Hp Hg) as Hstep. case_bool_decide as Hd.
  { destruct Hstep as (H1 & H2 & H3 & H4 & ->). intros Hl.
    assert (gnu_loop rest (S i) s1 = inr s') as Hl' by (by destruct rest).
    destruct (gnu_loop_positional _ _ _ _ H4 Hl') as (Ha & Hb & Hc). rewrite Ha, Hb, Hc, H1, H2, H3. split_and!; auto. }
  destruct Hstep as (Hr & Hp1 & Htwo & Hc & Hpc & Hm). intros Hl.
  set (rest1 := match gnu_flag_takes_value arg, rest with true, _ :: r => r | _, _ => rest end).
  set (next_lang := fun lang : option bytes => match gnu_flag_takes_value arg, rest with
    | true, value :: _ => if bool_decide (arg = "-x") then Some value else lang | _, _ => lang end).
  assert (exists j, gnu_loop rest1 j s1 = inr s') as [j Hj].
  { unfold rest1. destruct Htwo as [<-|Hn]; [destruct two, rest; eauto|]. destruct rest; [|done].
    destruct two, (gnu_flag_takes_value arg); eauto. }
  assert (match gnu_flag_takes_value arg, rest with true, _ :: r => gnu_options r | _, _ => gnu_options rest end =
    gnu_options rest1) as -> by (unfold rest1; by destruct (gnu_flag_takes_value arg), rest).
  assert (forall lang, match gnu_flag_takes_value arg, rest with
    | true, value :: r => last_language (if bool_decide (arg = "-x") then Some value else lang) r
    | _, _ => last_language lang rest end = last_language (next_lang lang) rest1) as Hlast.
  { intros lang. unfold rest1, next_lang. by destruct (gnu_flag_takes_value arg), rest. }
  assert (Forall (fun f => ~ f ∈ refused_options) (gnu_options rest1) /\
    (g_has_c s' = true -> g_has_c s1 = true \/ "-c" ∈ gnu_options rest1) /\
    (g_precompile s' = true -> g_precompile s1 = true \/ "--precompile" ∈ gnu_options rest1) /\
    forall lang, (implies_compilation (g_mode s1) = true -> header_language lang) ->
      implies_compilation (g_mode s') = true -> header_language (last_language lang rest1)) as (H1 & H2 & H3 & H4).
  { unfold rest1 in *. destruct (gnu_flag_takes_value arg), rest; eauto. }
  split_and!.
  - by constructor.
  - intros H. destruct (H2 H) as [H'|H']; [destruct (Hc H') as [| ->]; [by left|right; by left]|right; by right].
  - intros H. destruct (H3 H) as [H'|H']; [destruct (Hpc H') as [| ->]; [by left|right; by left]|right; by right].
  - intros lang Hlang. rewrite Hlast. apply H4. rewrite Hm. unfold next_lang. destruct rest as [|value r]; simpl; [by destruct (gnu_flag_takes_value arg)|].
    case_bool_decide as Hx; [subst arg; simpl; intros Hi%language_implies; by exists value|]. by destruct (gnu_flag_takes_value arg).
Qed.

(** C24: a GNU command line is accepted only when everything it writes and reads
    is known.  If no argument looks like an MSVC flag and the compiler is GCC or
    Clang, an accepted compilation has no option that preprocesses only, reads
    standard input or reads a profile from an implied place, no flag that
    writes files beside the object, and it asks for compilation: [-c],
    [--precompile], or the language of the last [-x] is one of headers or header
    units. *)
Theorem gnu_admission_safe (windows_file_stem : bytes -> option bytes) (current : RustcHost) (compiler : bytes)
    (args : list bytes) (admission : TestHarnessAdmission) :
  supports_depfile (detect_family compiler) = true -> looks_like_msvc_args args = false ->
  match parse_invocation_with_admission windows_file_stem current compiler args admission with
  | NonCacheable _ => True
  | _ =>
      Forall (fun f => ~ f ∈ refused_options) (gnu_options args) /\
      unmodeled_side_output_flag args false = None /\
      ("-c" ∈ gnu_options args \/ "--precompile" ∈ gnu_options args \/ header_language (last_language None args))
  end.
Proof.
  intros Hf Hm. unfold parse_invocation_with_admission, parse_invocation_with.
  rewrite (bool_decide_eq_false_2 (detect_family compiler = Rustfmt)) by (by intros E; rewrite E in Hf).
  rewrite (bool_decide_eq_false_2 (detect_family compiler = Rustc)) by (by intros E; rewrite E in Hf).
  rewrite (bool_decide_eq_false_2 (detect_family compiler = Msvc)) by (by intros E; rewrite E in Hf).
  rewrite Hm. cbn [orb]. unfold parse_gnu_invocation.
  destruct (gnu_loop args 0 gscan_init) as [reason|s] eqn:Hl; [done|].
  destruct (gnu_loop_options args 0 gscan_init s eq_refl Hl) as (H1 & H2 & H3 & H4).
  assert (negb (g_has_c s) && negb (g_precompile s) && negb (implies_compilation (g_mode s)) = false ->
    "-c" ∈ gnu_options args \/ "--precompile" ∈ gnu_options args \/ header_language (last_language None args)) as Hcomp.
  { destruct (g_has_c s); [intros _; left; by destruct H2|]. destruct (g_precompile s); [intros _; right; left; by destruct H3|].
    intros Hi. right; right. apply H4; [done|]. by destruct (implies_compilation (g_mode s)). }
  unfold gnu_verdict. destruct (negb (g_has_c s) && _ && _); [done|]. specialize (Hcomp eq_refl).
  destruct (g_sources s) as [|[[source i] mode] more]; [done|].
  destruct (unmodeled_side_output_flag args false); [done|].
  destruct more; [done|]. destruct (g_output s); [done|]. destruct (name_collision _ _); done.
Qed.

Lemma gnu_admission_safe_witness :
  let args := ["-MMD"; "-o"; "-E"; "-c"; "x/a.cc"; "-std=c++17"] in
  exists c, linux "/usr/bin/clang++" args SharedOnly = Cacheable c /\ co_output_file c = "-E" /\
    Forall (fun f => ~ f ∈ refused_options) (gnu_options args) /\ "-c" ∈ gnu_options args.
Proof.
  intros args.
  pose proof (gnu_admission_safe (fun _ => None) HostLinux "/usr/bin/clang++" args SharedOnly
    ltac:(vm_compute; reflexivity) ltac:(vm_compute; reflexivity)) as H.
  unfold linux. destruct (parse_invocation_with_admission _ _ _ _ _) as [c| |] eqn:Hp; [|vm_compute in Hp; discriminate..].
  exists c. destruct H as (H1 & _ & H2). vm_compute in Hp. injection Hp as <-.
  split; [reflexivity|]. split; [reflexivity|]. split; [exact H1|].
  apply (bool_decide_eq_true_1 _). vm_compute. reflexivity.
Defined.

(** ** Arguments in the root directory *)

Definition skipped_flags : list bytes :=
  ["--coverage"; "-fprofile-arcs"; "-ftest-coverage"; "-gsplit-dwarf"; "-save-temps"; "-fstack-usage"; "-ftime-trace";
   "-M"; "-MM"; "-fprofile-use"].

(** An argument directly below the root switches the guards off.  Any
    argument like [/src] makes a GCC or Clang command line look like an MSVC
    one; the MSVC parser does not know the GNU flags that write extra files or
    only preprocess, and accepts command lines that are refused without that
    argument. *)
Theorem root_path_skips_guards (windows_file_stem : bytes -> option bytes) (current : RustcHost)
    (compiler dir out flag : bytes) (admission : TestHarnessAdmission) :
  supports_depfile (detect_family compiler) = true -> flag ∈ skipped_flags ->
  looks_like_msvc_arg dir = true -> looks_like_msvc_arg out = false ->
  msvc_side_output dir = false -> msvc_side_output out = false ->
  let parse args := parse_invocation_with_admission windows_file_stem current compiler args admission in
  let args := ["-c"; "a.c"; flag; "-I"; dir; "-o"; out] in
  parse args = Cacheable (mkCompilation (NormalizedPath_new compiler) (detect_family compiler) "a.c"
    (NormalizedPath_new out) args [flag; "-I"; dir]) /\
  exists reason, parse ["-c"; "a.c"; flag; "-o"; out] = NonCacheable reason.
Proof.
  intros Hf Hflag Hd Ho Hsd Hso parse args. unfold parse, parse_invocation_with_admission, parse_invocation_with.
  rewrite (bool_decide_eq_false_2 (detect_family compiler = Rustfmt)) by (by intros E; rewrite E in Hf).
  rewrite (bool_decide_eq_false_2 (detect_family compiler = Rustc)) by (by intros E; rewrite E in Hf).
  rewrite (bool_decide_eq_false_2 (detect_family compiler = Msvc)) by (by intros E; rewrite E in Hf).
  cbn [orb]. unfold looks_like_msvc_args, args, skipped_flags in *. cbn [existsb]. rewrite Hd, Ho, !orb_true_r.
  rewrite !elem_of_cons, elem_of_nil in Hflag.
  assert (looks_like_msvc_arg flag = false) as Hlf by (destruct Hflag as [->|[->|[->|[->|[->|[->|[->|[->|[->|[->|[]]]]]]]]]]]; done).
  assert (forall k : list bytes, unmodeled_side_output_flag ("-c" :: "a.c" :: flag :: k) true = unmodeled_side_output_flag k true) as Hsf.
  { intros k. unfold unmodeled_side_output_flag. destruct Hflag as [->|[->|[->|[->|[->|[->|[->|[->|[->|[->|[]]]]]]]]]]]; done. }
  split.
  - unfold parse_msvc_invocation.
    assert (msvc_loop ["-c"; "a.c"; flag; "-I"; dir; "-o"; out] 0 mscan_init =
      inr (mkMScan true (Some out) [("a.c", 1%nat)] [flag; "-I"; dir] false)) as ->.
    { destruct Hflag as [->|[->|[->|[->|[->|[->|[->|[->|[->|[->|[]]]]]]]]]]]; reflexivity. }
    unfold msvc_verdict. cbn [m_has_c m_sources m_pdb negb]. rewrite Hsf. simpl. unfold unmodeled_side_output_flag. simpl.
    by rewrite Hsd, Hso.
  - rewrite Hlf. cbn [orb]. change (looks_like_msvc_arg "-c") with false. change (looks_like_msvc_arg "a.c") with false.
    change (looks_like_msvc_arg "-o") with false. cbn [orb]. unfold parse_gnu_invocation.
    destruct Hflag as [->|[->|[->|[->|[->|[->|[->|[->|[->|[->|[]]]]]]]]]]]; eexists; reflexivity.
Qed.

Lemma root_path_skips_guards_witness :
  exists c reason,
    linux "gcc" ["-c"; "a.c"; "--coverage"; "-I"; "/src"; "-o"; "a.o"] SharedOnly = Cacheable c /\
    linux "gcc" ["-c"; "a.c"; "--coverage"; "-o"; "a.o"] SharedOnly = NonCacheable reason.
Proof.
  destruct (root_path_skips_guards (fun _ => None) HostLinux "gcc" "/src" "a.o" "--coverage" SharedOnly) as [H1 [r H2]];
    [vm_compute; reflexivity|by left|vm_compute; reflexivity..|].
  eexists _, r. split; [exact H1|exact H2].
Defined.
