(* ===== verification/DepfileRoot.v ===== *)
(** * Depfiles that move between worktrees ([depfile_root.rs])

    A user's depfile is stored with the root of its worktree replaced by a
    marker, and every hit puts the requesting worktree's root in its place.
    Only whole-root prefixes at the start of a token are replaced.  The model is
    that of Linux, where a backslash is no separator. *)

From stdpp Require Import list strings.
From Stdlib Require Import Lia.
From S2P Require Import Prelude Path RustStr Depfile.

(** ** Finding text *)

(** The text before and after the first occurrence of a pattern
    ([windows(n).position(..)]). *)
Fixpoint find_split (pat s : bytes) : option (bytes * bytes) :=
  match strip_prefix pat s with
  | Some rest => Some ("", rest)
  | None =>
      match s with
      | EmptyString => None
      | String c s' =>
          match find_split pat s' with
          | Some (a, b) => Some (String c a, b)
          | None => None
          end
      end
  end.

(** ** The code *)

Definition DEPFILE_WORKTREE_ROOT_MARKER : bytes := "/__zccache_worktree_root_3f0c1e5a9b7d4c26a8e1f4b2d6c9a071__".
Definition DEPFILE_ROOT_BOUND_PREFIX : bytes := "# zccache-worktree-bound ".

(** [trim_end_matches] of slashes and backslashes, on the reversed text. *)
Fixpoint drop_seps (s : bytes) : bytes :=
  match s with
  | String c s' => if bool_decide (c = slash) || bool_decide (c = BS) then drop_seps s' else s
  | EmptyString => ""
  end.

Definition root_spelling (root : bytes) : option bytes :=
  if negb (from_utf8_ok root) then None
  else
    let text := str_rev (drop_seps (str_rev root)) in
    if has_root root && negb (bool_decide (text = "")) && negb (ends_with ":" text) then Some text else None.

Definition first_char_is (p : ascii -> bool) (s : bytes) : bool :=
  match s with String c _ => p c | EmptyString => true end.

(** The loop of [salt_depfile_arg]: what was read, what is left, what was
    written.  The root is not empty, so the rest shrinks. *)
Fixpoint salt_loop (fuel : nat) (root done rest out : bytes) : bytes :=
  match fuel with
  | O => out +:+ rest
  | S fuel' =>
      match find_split root rest with
      | None => out +:+ rest
      | Some (before, after_) =>
          let prefix := done +:+ before in
          let starts_token :=
            bool_decide (prefix = "") || ends_with "=" prefix || ends_with "," prefix ||
            ((1 <? Z.of_nat (String.length prefix)) && starts_with "-" prefix &&
             all_chars is_ascii_alphabetic (str_skip 1 prefix)) in
          let ends_root := first_char_is (fun c => bool_decide (c ∈ ["="%char; ","%char; slash])) after_ in
          salt_loop fuel' root (prefix +:+ root) after_
            (out +:+ before +:+ (if starts_token && ends_root then DEPFILE_WORKTREE_ROOT_MARKER else root))
      end
  end.

Definition salt_depfile_arg (arg : bytes) (key_root : option bytes) : bytes :=
  match key_root ≫= root_spelling with
  | None => arg
  | Some root => salt_loop (S (String.length arg)) root "" arg ""
  end.

(** The text in front of a position, reversed. *)
Fixpoint leading_bs (s : bytes) : nat :=
  match s with String c s' => if bool_decide (c = BS) then S (leading_bs s') else O | EmptyString => O end.

Definition unescaped_whitespace_before (before : bytes) : bool :=
  match str_rev before with
  | EmptyString => true
  | String c earlier =>
      if bool_decide (c = LF) || bool_decide (c = CR) then true
      else if bool_decide (c = SP) || bool_decide (c = TAB) then Nat.even (leading_bs earlier)
      else false
  end.

Definition root_ends_at (rest : bytes) : bool :=
  match rest with
  | EmptyString => true
  | String c rest' =>
      if bool_decide (c ∈ [SP; TAB; LF; CR; COLON]) then true
      else if bool_decide (c = BS)
      then match rest' with String d _ => bool_decide (d = LF) || bool_decide (d = CR) | EmptyString => false end
      else bool_decide (c = slash)
  end.

Fixpoint canonicalize_loop (fuel : nat) (needle done rest out : bytes) : bytes :=
  match fuel with
  | O => out +:+ rest
  | S fuel' =>
      match find_split needle rest with
      | None => out +:+ rest
      | Some (before, after_) =>
          let prefix := done +:+ before in
          canonicalize_loop fuel' needle (prefix +:+ needle) after_
            (out +:+ before +:+
             (if unescaped_whitespace_before prefix && root_ends_at after_
              then DEPFILE_WORKTREE_ROOT_MARKER else needle))
      end
  end.

Definition canonicalize_depfile_root (b key_root : bytes) : bytes :=
  match root_spelling key_root with
  | None => b
  | Some root => canonicalize_loop (S (String.length b)) (make_quote root) "" b ""
  end.

Definition contains_depfile_root_marker (b : bytes) : bool := str_contains DEPFILE_WORKTREE_ROOT_MARKER b.

(** [canon p] is what [canonicalize_path] gives for an absolute path. *)
Definition names_unrewritten_root_path (canon : bytes -> NormalizedPath) (canonical key_root : bytes) : bool :=
  if negb (from_utf8_ok canonical) then true
  else existsb (fun token =>
         has_root token && negb (starts_with DEPFILE_WORKTREE_ROOT_MARKER token) &&
         path_starts_with (canon token) key_root)
       (depfile_path_tokens canonical).

Definition bind_depfile_to_root (canonical key_root : bytes) : bytes :=
  DEPFILE_ROOT_BOUND_PREFIX +:+ from_utf8_lossy key_root +:+ String LF canonical.

(** The bytes [canonicalize_captured_depfile_root] stores. *)
Definition stored_depfile (canon : bytes -> NormalizedPath) (b key_root : bytes) : bytes :=
  let canonical := canonicalize_depfile_root b key_root in
  if names_unrewritten_root_path canon canonical key_root then bind_depfile_to_root canonical key_root else canonical.

Fixpoint rehydrate_loop (fuel : nat) (quoted rest out : bytes) : bytes :=
  match fuel with
  | O => out +:+ rest
  | S fuel' =>
      match find_split DEPFILE_WORKTREE_ROOT_MARKER rest with
      | None => out +:+ rest
      | Some (before, after_) => rehydrate_loop fuel' quoted after_ (out +:+ before +:+ quoted)
      end
  end.

(** The part behind the header. *)
Definition rehydrate_marker (b : bytes) (key_root : option bytes) : option bytes :=
  if negb (contains_depfile_root_marker b) then Some b
  else
    root ← key_root ≫= root_spelling;
    Some (rehydrate_loop (S (String.length b)) (make_quote root) b "").

Definition rehydrate_depfile_root (b : bytes) (key_root : option bytes) : option bytes :=
  match strip_prefix DEPFILE_ROOT_BOUND_PREFIX b with
  | None => rehydrate_marker b key_root
  | Some rest =>
      '(root, body) ← split_once LF rest;
      k ← key_root;
      if bool_decide (root = from_utf8_lossy k) then rehydrate_marker body key_root else None
  end.

Example relocates :
  let b := "/w/a/x.o: /w/a/x.c \" +:+ String LF "  /w/ab.h /w/a/y.h /usr/w/a/z.h" in
  canonicalize_depfile_root b "/w/a" =
    (let m := DEPFILE_WORKTREE_ROOT_MARKER in
     m +:+ "/x.o: " +:+ m +:+ "/x.c \" +:+ String LF ("  /w/ab.h " +:+ m +:+ "/y.h /usr/w/a/z.h")) /\
  rehydrate_depfile_root (canonicalize_depfile_root b "/w/a") (Some "/v") =
    Some ("/v/x.o: /v/x.c \" +:+ String LF "  /w/ab.h /v/y.h /usr/w/a/z.h") /\
  salt_depfile_arg "-I/w/a/inc" (Some "/w/a") = "-I" +:+ DEPFILE_WORKTREE_ROOT_MARKER +:+ "/inc".
Proof. vm_compute. done. Qed.

(** ** Lemmas *)

Lemma find_split_spec pat s :
  match find_split pat s with
  | Some (a, b) => s = a +:+ pat +:+ b
  | None => str_contains pat s = false
  end.
Proof.
  induction s as [|c s IH]; cbn [find_split].
  - destruct (strip_prefix pat "") as [r|] eqn:H; [by apply strip_prefix_Some in H|].
    cbn. unfold starts_with. by rewrite H.
  - destruct (strip_prefix pat (String c s)) as [r|] eqn:H; [by apply strip_prefix_Some in H|].
    destruct (find_split pat s) as [[a b]|]; [simpl; by rewrite IH|].
    cbn [str_contains]. unfold starts_with. by rewrite H.
Qed.

Lemma str_contains_app pat a b : str_contains pat b = true -> str_contains pat (a +:+ b) = true.
Proof. intros H. induction a as [|c a IH]; [done|]. cbn [str_contains String.append]. rewrite IH. apply orb_true_r. Qed.

Lemma starts_with_app pat a b : starts_with pat a = true -> starts_with pat (a +:+ b) = true.
Proof. rewrite !starts_with_spec. intros [r ->]. exists (r +:+ b). by rewrite string_app_assoc. Qed.

Lemma str_contains_app_l pat a b : str_contains pat a = true -> str_contains pat (a +:+ b) = true.
Proof.
  induction a as [|c a IH].
  - cbn [str_contains String.append]. rewrite orb_false_r. intros H. apply (starts_with_app _ _ b) in H.
    destruct b; simpl in *; by rewrite H.
  - cbn [str_contains]. intros [H|H]%orb_prop.
    + apply (starts_with_app _ _ b) in H. cbn [str_contains String.append] in *. by rewrite H.
    + cbn [String.append str_contains]. rewrite IH by done. apply orb_true_r.
Qed.

(** Text without a pattern has no part with it. *)
Lemma no_part pat a m b : str_contains pat (a +:+ m +:+ b) = false -> str_contains pat m = false.
Proof. intros H. apply not_true_is_false. intros Hm. by rewrite (str_contains_app _ a _ (str_contains_app_l _ _ b Hm)) in H. Qed.

Fixpoint no_slash (s : bytes) : bool :=
  match s with EmptyString => true | String c s' => negb (bool_decide (c = slash)) && no_slash s' end.

(** A pattern without a slash is not completed by text that starts with one. *)
Lemma starts_with_slash pat p x :
  no_slash pat = true -> starts_with pat (p +:+ String slash x) = true -> starts_with pat p = true.
Proof.
  revert p. induction pat as [|c pat IH]; intros p Hs; [done|].
  simpl in Hs. apply andb_prop in Hs as [Hc%negb_true_iff%bool_decide_eq_false Hs].
  unfold starts_with. destruct p as [|d p]; cbn [String.append strip_prefix].
  - rewrite bool_decide_eq_false_2 by done. done.
  - case_bool_decide; [|done]. apply (IH p Hs).
Qed.

Definition marker_tail : bytes := str_skip 1 DEPFILE_WORKTREE_ROOT_MARKER.

Lemma marker_split : DEPFILE_WORKTREE_ROOT_MARKER = String slash marker_tail.
Proof. reflexivity. Qed.

Lemma starts_marker p x :
  p <> "" -> starts_with DEPFILE_WORKTREE_ROOT_MARKER (p +:+ String slash x) = true ->
  starts_with DEPFILE_WORKTREE_ROOT_MARKER p = true.
Proof.
  destruct p as [|d p]; [done|]. intros _. rewrite marker_split. unfold starts_with. cbn [String.append strip_prefix].
  case_bool_decide; [|done]. apply starts_with_slash. reflexivity.
Qed.

(** The marker is found where it was put. *)
Lemma find_marker p x :
  str_contains DEPFILE_WORKTREE_ROOT_MARKER p = false ->
  find_split DEPFILE_WORKTREE_ROOT_MARKER (p +:+ DEPFILE_WORKTREE_ROOT_MARKER +:+ x) = Some (p, x).
Proof.
  set (M := DEPFILE_WORKTREE_ROOT_MARKER). induction p as [|c p IH]; intros Hn.
  - assert (strip_prefix M (M +:+ x) = Some x) as H by (by apply strip_prefix_Some).
    change ("" +:+ M +:+ x) with (M +:+ x). destruct (M +:+ x) eqn:E; cbn [find_split]; by rewrite H.
  - cbn [str_contains] in Hn. apply orb_false_iff in Hn as [Hs Hn].
    assert (starts_with M (String c p +:+ M +:+ x) = false) as H.
    { apply not_true_is_false. intros H. unfold M in H at 2. rewrite marker_split in H.
      change (String slash marker_tail +:+ x) with (String slash (marker_tail +:+ x)) in H.
      apply starts_marker in H; [|done]. fold M in H. congruence. }
    unfold starts_with in H. change (String c p +:+ M +:+ x) with (String c (p +:+ M +:+ x)) in *.
    cbn [find_split]. destruct (strip_prefix M _); [done|]. by rewrite IH.
Qed.

(** Pieces with a separator between them. *)
Definition join_pieces (sep p : bytes) (ps : list bytes) : bytes := p +:+ concat_bytes (map (fun x => sep +:+ x) ps).

(** ** Whole occurrences *)

Lemma string_app_split (a b r s : bytes) :
  (String.length a <= String.length b)%nat -> a +:+ r = b +:+ s -> exists c, b = a +:+ c /\ r = c +:+ s.
Proof.
  revert b. induction a as [|x a IH]; intros b Hl Heq; [by exists b|].
  destruct b as [|y b]; [simpl in Hl; lia|]. injection Heq as -> Heq. simpl in Hl.
  destruct (IH b) as (c & -> & ->); [lia|done|]. by exists c.
Qed.

(** [find_split] finds the first occurrence. *)
Lemma find_split_first pat s a b u v :
  find_split pat s = Some (a, b) -> s = u +:+ pat +:+ v -> (String.length a <= String.length u)%nat.
Proof.
  revert a u. induction s as [|c s IH]; intros a u; cbn [find_split].
  - destruct (strip_prefix pat ""); [|done]. intros [= <- <-]. simpl. lia.
  - destruct (strip_prefix pat (String c s)) as [r|] eqn:Hs; [intros [= <- <-]; simpl; lia|].
    destruct (find_split pat s) as [[a' b']|] eqn:Hf; [|done]. intros [= <- <-] Heq. destruct u as [|d u].
    + exfalso. rewrite (proj2 (strip_prefix_Some pat (String c s) v)) in Hs; done.
    + injection Heq as _ Heq. specialize (IH a' u eq_refl Heq). simpl. lia.
Qed.

(** The parity of the backslashes at the end of a text. *)
Definition even_bs (s : bytes) : bool := Nat.even (leading_bs (str_rev s)).

Lemma even_bs_snoc s c : even_bs (s +:+ String c "") = if bool_decide (c = BS) then negb (even_bs s) else true.
Proof.
  unfold even_bs. rewrite str_rev_append. change (str_rev (String c "") +:+ str_rev s) with (String c (str_rev s)).
  cbn [leading_bs]. case_bool_decide; [|done]. by rewrite Nat.even_succ, <- Nat.negb_even.
Qed.

Lemma whitespace_before_snoc s c :
  unescaped_whitespace_before (s +:+ String c "") =
    if bool_decide (c = LF) || bool_decide (c = CR) then true
    else if bool_decide (c = SP) || bool_decide (c = TAB) then even_bs s else false.
Proof.
  unfold unescaped_whitespace_before. rewrite str_rev_append.
  by change (str_rev (String c "") +:+ str_rev s) with (String c (str_rev s)).
Qed.

Lemma cons_snoc (u : bytes) c x : u +:+ String c x = (u +:+ String c "") +:+ x.
Proof. by rewrite string_app_assoc. Qed.

Definition one_line (s : bytes) : bool := negb (has_char LF s) && negb (has_char CR s).

(** A run of backslashes and what follows it, cut somewhere. *)
Lemma cut_in_run n u q x y :
  x <> "" -> repeat_char BS n +:+ q = x +:+ y ->
  unescaped_whitespace_before (u +:+ x) = false \/
  exists x', x' <> "" /\ x = repeat_char BS n +:+ x' /\ q = x' +:+ y.
Proof.
  revert u x. induction n as [|n IH]; intros u x Hx Heq; [right; by exists x|].
  destruct x as [|c x]; [done|]. injection Heq as <- Heq. rewrite cons_snoc. destruct x as [|d x].
  - left. by rewrite string_app_nil_r, whitespace_before_snoc.
  - destruct (IH (u +:+ String BS "") (String d x)) as [H|(x' & Hx' & -> & ->)]; [done|done|by left|].
    right. by exists x'.
Qed.

Lemma even_bs_run u n : even_bs (u +:+ repeat_char BS n) = Bool.eqb (even_bs u) (Nat.even n).
Proof.
  revert u. induction n as [|n IH]; intros u; cbn [repeat_char].
  - rewrite string_app_nil_r. by destruct (even_bs u).
  - rewrite cons_snoc, IH, even_bs_snoc, bool_decide_eq_true_2, Nat.even_succ, <- Nat.negb_even by done.
    by destruct (even_bs u), (Nat.even n).
Qed.

(** No cut inside a quoted name stands behind whitespace. *)
Lemma quoted_no_whitespace run s u x y :
  one_line s = true -> even_bs u = Nat.even run -> x <> "" -> quote_from run s = x +:+ y ->
  unescaped_whitespace_before (u +:+ x) = false.
Proof.
  unfold one_line. revert run u x. induction s as [|c s IH]; intros run u x Hs Hu Hx Heq; [by destruct x|].
  assert (c <> LF /\ c <> CR /\ one_line s = true) as (Hlf & Hcr & Hs').
  { unfold one_line. cbn [has_char] in Hs. apply andb_prop in Hs as [H1 H2]. rewrite negb_orb in H1, H2.
    apply andb_prop in H1 as [H1 ->]. apply andb_prop in H2 as [H2 ->]. apply negb_true_iff, bool_decide_eq_false in H1, H2. done. }
  assert (forall d, d <> LF -> d <> CR -> d <> SP -> d <> TAB -> unescaped_whitespace_before (u +:+ String d "") = false) as Hone.
  { intros d ????. rewrite whitespace_before_snoc. by rewrite !bool_decide_eq_false_2. }
  assert (forall w x, even_bs w = true -> (x = "" -> unescaped_whitespace_before w = false) ->
    quote_from 0 s = x +:+ y -> unescaped_whitespace_before (w +:+ x) = false) as Hnext.
  { intros w [|d x'] Hw H0 Hq; [by rewrite string_app_nil_r; apply H0|]. by apply (IH 0%nat). }
  cbn [quote_from] in Heq. case_bool_decide as Hb; [|destruct (bool_decide (c = SP) || bool_decide (c = TAB)) eqn:Hsp].
  - subst c. destruct x as [|d x]; [done|]. injection Heq as <- Heq. rewrite cons_snoc. destruct x as [|d x].
    + rewrite string_app_nil_r. by apply Hone.
    + apply (IH (S run)); [done| |done|done].
      by rewrite even_bs_snoc, bool_decide_eq_true_2, Hu, Nat.even_succ, <- Nat.negb_even by done.
  - rewrite repeat_char_snoc in Heq. apply (cut_in_run (S run) u) in Heq as [?|(x' & Hx' & -> & Heq)]; [done| |done].
    destruct x' as [|d x']; [done|]. injection Heq as <- Heq. rewrite <- string_app_assoc, cons_snoc. apply Hnext; [|intros ->|done].
    + by rewrite even_bs_snoc, bool_decide_eq_false_2.
    + rewrite whitespace_before_snoc, Hsp, even_bs_run, Hu, Nat.even_succ, <- Nat.negb_even.
      rewrite !bool_decide_eq_false_2 by done. by destruct (Nat.even run).
  - destruct x as [|d x]; [done|]. case_bool_decide as Hd; [|case_bool_decide as Hh].
    + injection Heq as <- Heq. rewrite cons_snoc. destruct x as [|e x]; [rewrite string_app_nil_r; by apply Hone|].
      injection Heq as <- Heq. rewrite cons_snoc. apply Hnext; [by rewrite even_bs_snoc|intros ->; by rewrite whitespace_before_snoc|done].
    + injection Heq as <- Heq. rewrite cons_snoc. destruct x as [|e x]; [rewrite string_app_nil_r; by apply Hone|].
      injection Heq as <- Heq. rewrite cons_snoc. apply Hnext; [by rewrite even_bs_snoc|intros ->; by rewrite whitespace_before_snoc|done].
    + injection Heq as <- Heq. rewrite cons_snoc. apply orb_false_elim in Hsp as [H1%bool_decide_eq_false H2%bool_decide_eq_false].
      apply Hnext; [by rewrite even_bs_snoc, bool_decide_eq_false_2|intros ->; by apply Hone|done].
Qed.

(** Where an occurrence may start: at no cut inside the searched text. *)
Definition no_inner_start (needle : bytes) : Prop :=
  forall u x y, x <> "" -> needle = x +:+ y -> unescaped_whitespace_before (u +:+ x) = false.

Lemma quoted_root_no_inner r : one_line (String slash r) = true -> no_inner_start (make_quote (String slash r)).
Proof.
  intros Hl u x y Hx Heq. destruct x as [|c x]; [done|]. unfold make_quote in Heq. cbn [quote_from] in Heq.
  rewrite !bool_decide_eq_false_2 in Heq by done. simpl in Heq. injection Heq as <- Heq. rewrite cons_snoc.
  destruct x as [|d x]; [by rewrite string_app_nil_r, whitespace_before_snoc|].
  apply (quoted_no_whitespace 0 r _ _ y); [|by rewrite even_bs_snoc|done|done].
  exact Hl.
Qed.

(** The pieces of a text that [needle] separates: the cuts are exactly its whole
    occurrences, those behind unescaped whitespace or at the start of the text,
    and in front of a separator, whitespace, a colon or the end. *)
Definition whole_cuts (needle prefix text p : bytes) (ps : list bytes) : Prop :=
  text = join_pieces needle p ps /\
  forall u v, text = u +:+ needle +:+ v ->
    (unescaped_whitespace_before (prefix +:+ u) = true /\ root_ends_at v = true <->
     exists ps1 x ps2, ps = ps1 ++ x :: ps2 /\ u = join_pieces needle p ps1 /\ v = join_pieces needle x ps2).

Lemma join_pieces_cons sep p q ps : join_pieces sep p (q :: ps) = p +:+ sep +:+ join_pieces sep q ps.
Proof. unfold join_pieces. cbn [map concat_bytes]. by rewrite !string_app_assoc. Qed.

Lemma join_pieces_app sep a p ps : join_pieces sep (a +:+ p) ps = a +:+ join_pieces sep p ps.
Proof. unfold join_pieces. by rewrite string_app_assoc. Qed.

(** Another occurrence is the first one, overlaps it, or is behind it. *)
Lemma occurrence_cases needle before after_ u v :
  (String.length before <= String.length u)%nat -> before +:+ needle +:+ after_ = u +:+ needle +:+ v ->
  (u = before /\ v = after_) \/
  (exists x y, x <> "" /\ y <> "" /\ needle = x +:+ y /\ u = before +:+ x) \/
  (exists u', u = before +:+ needle +:+ u' /\ after_ = u' +:+ needle +:+ v).
Proof.
  intros Hl Heq. apply string_app_split in Heq as (c & -> & Heq); [|done].
  destruct (decide (String.length needle <= String.length c)%nat) as [Hc|Hc].
  - right; right. apply string_app_split in Heq as (u' & -> & ->); [|done]. by exists u'.
  - destruct c as [|a c]; [left; rewrite string_app_nil_r; split; [done|]|right; left].
    + simpl in Heq. by apply (inj (String.append needle)) in Heq.
    + destruct (string_app_split (String a c) needle (needle +:+ v) after_) as (y & Hy & _); [lia|done|].
      exists (String a c), y. split_and!; [done| |done|done]. intros ->. rewrite Hy, string_app_nil_r in Hc. simpl in Hc. lia.
Qed.

Lemma str_contains_self pat : str_contains pat pat = true.
Proof.
  assert (starts_with pat pat = true) as H by (apply starts_with_spec; exists ""; by rewrite string_app_nil_r).
  destruct pat; [done|]. cbn [str_contains]. by rewrite H.
Qed.

Lemma first_whole needle prefix before after_ p ps :
  needle <> "" -> no_inner_start needle ->
  (forall u v, before +:+ needle +:+ after_ = u +:+ needle +:+ v -> (String.length before <= String.length u)%nat) ->
  unescaped_whitespace_before (prefix +:+ before) = true -> root_ends_at after_ = true ->
  whole_cuts needle (prefix +:+ before +:+ needle) after_ p ps ->
  whole_cuts needle prefix (before +:+ needle +:+ after_) before (p :: ps).
Proof.
  intros Hne Hin Hfirst Hw He [Hjoin Hcuts]. split; [by rewrite join_pieces_cons, <- Hjoin|]. intros u v Heq.
  destruct (occurrence_cases _ _ _ _ _ (Hfirst _ _ Heq) Heq) as [[-> ->]|[(x & y & Hx & Hy & Hn & ->)|(u' & -> & Ha)]].
  - split; [intros _|done]. exists [], p, ps. unfold join_pieces at 1. simpl. by rewrite string_app_nil_r.
  - split.
    + intros [Hws _]. rewrite <- string_app_assoc, (Hin _ x y) in Hws; done.
    + intros ([|q ps1] & z & ps2 & Hps & Hu & _).
      * unfold join_pieces in Hu. simpl in Hu. rewrite string_app_nil_r in Hu. apply (f_equal String.length) in Hu.
        rewrite string_length_app in Hu. destruct x; [done|]. simpl in Hu. lia.
      * rewrite join_pieces_cons in Hu. apply (f_equal String.length) in Hu.
        rewrite Hn, !string_length_app in Hu. destruct y; [done|]. simpl in Hu. lia.
  - specialize (Hcuts u' v Ha). rewrite !string_app_assoc in Hcuts. rewrite Hcuts. split.
    + intros (ps1 & x & ps2 & -> & -> & ->). exists (p :: ps1), x, ps2. by rewrite join_pieces_cons.
    + intros ([|q ps1] & x & ps2 & Hps & Hu & ->).
      * exfalso. unfold join_pieces in Hu. simpl in Hu. apply (f_equal String.length) in Hu.
        rewrite !string_length_app in Hu. destruct needle; [done|]. simpl in Hu. lia.
      * injection Hps as <- ->. rewrite join_pieces_cons in Hu. do 2 apply (inj (String.append _)) in Hu. by exists ps1, x, ps2.
Qed.

Lemma first_not_whole needle prefix before after_ p ps :
  needle <> "" -> no_inner_start needle ->
  (forall u v, before +:+ needle +:+ after_ = u +:+ needle +:+ v -> (String.length before <= String.length u)%nat) ->
  ~ (unescaped_whitespace_before (prefix +:+ before) = true /\ root_ends_at after_ = true) ->
  whole_cuts needle (prefix +:+ before +:+ needle) after_ p ps ->
  whole_cuts needle prefix (before +:+ needle +:+ after_) (before +:+ needle +:+ p) ps.
Proof.
  intros Hne Hin Hfirst Hw [Hjoin Hcuts]. split; [by rewrite !join_pieces_app, <- Hjoin|]. intros u v Heq.
  assert (forall ps1, (String.length before + String.length needle <= String.length (join_pieces needle (before +:+ needle +:+ p) ps1))%nat) as Hlen.
  { intros ps1. rewrite !join_pieces_app, !string_length_app. lia. }
  assert (0 < String.length needle)%nat as Hpos by (destruct needle; [done|simpl; lia]).
  destruct (occurrence_cases _ _ _ _ _ (Hfirst _ _ Heq) Heq) as [[-> ->]|[(x & y & Hx & Hy & Hn & ->)|(u' & -> & Ha)]].
  - split; [done|]. intros (ps1 & x & ps2 & _ & Hu & _). specialize (Hlen ps1). rewrite <- Hu in Hlen. lia.
  - split.
    + intros [Hws _]. rewrite <- string_app_assoc, (Hin _ x y) in Hws; done.
    + intros (ps1 & z & ps2 & _ & Hu & _). specialize (Hlen ps1). rewrite <- Hu, Hn, !string_length_app in Hlen.
      destruct y; [done|]. simpl in Hlen. lia.
  - specialize (Hcuts u' v Ha). rewrite !string_app_assoc in Hcuts. rewrite Hcuts.
    split; intros (ps1 & x & ps2 & -> & Hu & ->); exists ps1, x, ps2.
    + by rewrite !join_pieces_app, Hu.
    + rewrite !join_pieces_app in Hu. by do 2 apply (inj (String.append _)) in Hu.
Qed.

(** The loop replaces exactly the whole occurrences. *)
Lemma canonicalize_pieces fuel needle prefix rest out :
  needle <> "" -> no_inner_start needle -> (String.length rest < fuel)%nat ->
  exists p ps, whole_cuts needle prefix rest p ps /\
    canonicalize_loop fuel needle prefix rest out = out +:+ join_pieces DEPFILE_WORKTREE_ROOT_MARKER p ps.
Proof.
  intros Hne Hin. revert prefix rest out. induction fuel as [|fuel IH]; intros prefix rest out Hf; [lia|].
  cbn [canonicalize_loop]. pose proof (find_split_spec needle rest) as Hs.
  pose proof (find_split_first needle rest) as Hfirst.
  destruct (find_split needle rest) as [[before after_]|]; cycle 1.
  { exists rest, []. unfold join_pieces. simpl. rewrite string_app_nil_r. split; [|done]. split; [unfold join_pieces; simpl; by rewrite string_app_nil_r|].
    intros u v ->. exfalso. rewrite (str_contains_app _ u) in Hs; [done|]. apply str_contains_app_l, str_contains_self. }
  specialize (fun u v => Hfirst before after_ u v eq_refl). rewrite Hs in Hfirst.
  edestruct (IH (prefix +:+ before +:+ needle) after_) as (p & ps & Hp & Hc).
  { rewrite Hs, !string_length_app in Hf. destruct needle; [done|]. simpl in Hf. lia. }
  rewrite string_app_assoc, Hc, Hs. destruct (_ && _) eqn:Hw.
  - apply andb_prop in Hw as [Hw He]. exists before, (p :: ps). split; [by apply first_whole|].
    by rewrite join_pieces_cons, !string_app_assoc.
  - exists (before +:+ needle +:+ p), ps. split; [|by rewrite !join_pieces_app, !string_app_assoc].
    apply first_not_whole; try done. intros [H1 H2]. by rewrite H1, H2 in Hw.
Qed.

Lemma pieces_clean sep p ps :
  str_contains DEPFILE_WORKTREE_ROOT_MARKER (join_pieces sep p ps) = false ->
  Forall (fun x => str_contains DEPFILE_WORKTREE_ROOT_MARKER x = false) (p :: ps).
Proof.
  unfold join_pieces. revert p. induction ps as [|x ps IH]; intros p H.
  - constructor; [|done]. simpl in H. by rewrite string_app_nil_r in H.
  - cbn [map concat_bytes] in H. constructor.
    + apply (no_part _ "" p) in H. done.
    + apply IH. apply (no_part _ (p +:+ sep) _ ""). rewrite string_app_nil_r. by rewrite !string_app_assoc in *.
Qed.

Lemma rehydrate_pieces fuel quoted p ps out :
  Forall (fun x => str_contains DEPFILE_WORKTREE_ROOT_MARKER x = false) (p :: ps) -> (length ps < fuel)%nat ->
  rehydrate_loop fuel quoted (join_pieces DEPFILE_WORKTREE_ROOT_MARKER p ps) out = out +:+ join_pieces quoted p ps.
Proof.
  revert p ps out. induction fuel as [|fuel IH]; intros p ps out Hall Hf; [lia|].
  apply Forall_cons in Hall as [Hp Hps]. unfold join_pieces. cbn [rehydrate_loop]. destruct ps as [|x ps].
  - cbn [map concat_bytes]. rewrite !string_app_nil_r. pose proof (find_split_spec DEPFILE_WORKTREE_ROOT_MARKER p) as H.
    destruct (find_split _ p) as [[a b]|]; [|done]. exfalso. subst p.
    assert (str_contains DEPFILE_WORKTREE_ROOT_MARKER (a +:+ DEPFILE_WORKTREE_ROOT_MARKER +:+ b) = true) as H; [|congruence].
    apply str_contains_app, str_contains_app_l. vm_compute. done.
  - cbn [map concat_bytes]. rewrite !string_app_assoc, find_marker by done.
    change (x +:+ concat_bytes (map (fun y => DEPFILE_WORKTREE_ROOT_MARKER +:+ y) ps))
      with (join_pieces DEPFILE_WORKTREE_ROOT_MARKER x ps).
    rewrite IH by (done || simpl in Hf; lia). unfold join_pieces. by rewrite !string_app_assoc.
Qed.

Lemma contains_pieces p ps :
  Forall (fun x => str_contains DEPFILE_WORKTREE_ROOT_MARKER x = false) (p :: ps) ->
  contains_depfile_root_marker (join_pieces DEPFILE_WORKTREE_ROOT_MARKER p ps) = match ps with [] => false | _ => true end.
Proof.
  intros [Hp _]%Forall_cons. unfold contains_depfile_root_marker, join_pieces. destruct ps as [|x ps]; cbn [map concat_bytes].
  - by rewrite string_app_nil_r.
  - apply str_contains_app. rewrite string_app_assoc. apply str_contains_app_l. vm_compute. done.
Qed.

Lemma pieces_length p ps : (length ps <= String.length (join_pieces DEPFILE_WORKTREE_ROOT_MARKER p ps))%nat.
Proof.
  unfold join_pieces. rewrite string_length_app. induction ps as [|x ps IH]; cbn [map concat_bytes length]; [lia|].
  rewrite !string_length_app. rewrite marker_split at 1. cbn [String.length]. lia.
Qed.

(** The stored text behind the header, for any root that can be spelled. *)
Lemma rehydrate_marker_pieces p ps k r :
  Forall (fun x => str_contains DEPFILE_WORKTREE_ROOT_MARKER x = false) (p :: ps) -> root_spelling k = Some r ->
  rehydrate_marker (join_pieces DEPFILE_WORKTREE_ROOT_MARKER p ps) (Some k) = Some (join_pieces (make_quote r) p ps).
Proof.
  intros Hall Hk. unfold rehydrate_marker. rewrite contains_pieces by done. destruct ps as [|x ps].
  - unfold join_pieces. simpl. done.
  - cbn [negb mbind option_bind]. rewrite Hk. cbn [mbind option_bind]. rewrite rehydrate_pieces; [done|done|].
    pose proof (pieces_length p (x :: ps)). lia.
Qed.

Lemma root_spelling_ne k r : root_spelling k = Some r -> make_quote r <> "".
Proof.
  unfold root_spelling. destruct (negb (from_utf8_ok k)); [done|].
  destruct (has_root k && _ && _) eqn:H; [|done]. intros [= <-].
  apply andb_prop in H as [[_ H]%andb_prop _]. apply negb_true_iff, bool_decide_eq_false in H.
  destruct (str_rev _) as [|c s]; [done|]. unfold make_quote. cbn [quote_from]. repeat case_match; done.
Qed.

Lemma drop_seps_suffix s : exists t, s = t +:+ drop_seps s.
Proof.
  induction s as [|c s [t Ht]]; [by exists ""|]. cbn [drop_seps]. destruct (_ || _); [|by exists ""].
  exists (String c t). simpl. by rewrite <- Ht.
Qed.

(** A root that can be spelled starts with a slash. *)
Lemma root_spelling_slash k r : root_spelling k = Some r -> exists r', r = String slash r'.
Proof.
  unfold root_spelling. destruct (negb (from_utf8_ok k)); [done|].
  destruct (has_root k && _ && _) eqn:H; [|done]. intros [= <-].
  apply andb_prop in H as [[Hr H]%andb_prop _]. apply negb_true_iff, bool_decide_eq_false in H.
  destruct (drop_seps_suffix (str_rev k)) as [t Ht]. apply (f_equal str_rev) in Ht.
  rewrite str_rev_involutive, str_rev_append in Ht. destruct (str_rev (drop_seps (str_rev k))) as [|c s]; [done|].
  exists s. rewrite Ht in Hr. cbn in Hr. destruct (ascii_dec c slash) as [->|Hc]; [done|]. exfalso. revert Hr.
  unfold has_root. simpl. by rewrite bool_decide_eq_false_2.
Qed.

(** A header that was not there is not made by the markers. *)
Lemma no_header sep p ps :
  strip_prefix DEPFILE_ROOT_BOUND_PREFIX (join_pieces sep p ps) = None ->
  strip_prefix DEPFILE_ROOT_BOUND_PREFIX (join_pieces DEPFILE_WORKTREE_ROOT_MARKER p ps) = None.
Proof.
  intros H. destruct (strip_prefix _ (join_pieces DEPFILE_WORKTREE_ROOT_MARKER p ps)) as [r|] eqn:Hm; [|done]. exfalso.
  assert (starts_with DEPFILE_ROOT_BOUND_PREFIX (join_pieces sep p ps) = true) as Hs; [|unfold starts_with in Hs; by rewrite H in Hs].
  apply starts_with_app.
  assert (starts_with DEPFILE_ROOT_BOUND_PREFIX (join_pieces DEPFILE_WORKTREE_ROOT_MARKER p ps) = true) as Hs
    by (unfold starts_with; by rewrite Hm).
  unfold join_pieces in Hs. destruct ps as [|x ps]; cbn [map concat_bytes] in Hs; [by rewrite string_app_nil_r in Hs|].
  rewrite marker_split in Hs at 1. rewrite string_app_assoc in Hs. by apply starts_with_slash in Hs.
Qed.

Lemma split_once_line a b : has_char LF a = false -> split_once LF (a +:+ String LF b) = Some (a, b).
Proof.
  induction a as [|c a IH]; simpl; [done|]. intros [Hc Ha]%orb_false_iff. by rewrite Hc, IH.
Qed.

Lemma rehydrate_bound k body key :
  has_char LF (from_utf8_lossy k) = false ->
  rehydrate_depfile_root (bind_depfile_to_root body k) (Some key) =
    if bool_decide (from_utf8_lossy k = from_utf8_lossy key) then rehydrate_marker body (Some key) else None.
Proof.
  intros Hlf. unfold rehydrate_depfile_root, bind_depfile_to_root.
  rewrite (proj2 (strip_prefix_Some _ _ (from_utf8_lossy k +:+ String LF body)) eq_refl).
  by rewrite split_once_line.
Qed.

(** C33: a stored depfile comes back as it was, or with the new root in place of
    the old one.  For depfiles that contain neither the marker nor the header
    of a bound file, and a root without line breaks, a hit from the same
    worktree gets the compiler's bytes.  A hit from another worktree gets nothing
    when the file was bound to its root, and otherwise the text with exactly
    the whole occurrences of the old root replaced by the new one: an occurrence
    is replaced if and only if it starts the text or stands behind unescaped
    whitespace, and ends in front of a separator, whitespace, a colon or the end
    of the text. *)
Theorem depfile_relocates (canon : bytes -> NormalizedPath) (b root root2 r r2 : bytes) :
  contains_depfile_root_marker b = false -> strip_prefix DEPFILE_ROOT_BOUND_PREFIX b = None ->
  has_char LF (from_utf8_lossy root) = false -> root_spelling root = Some r -> root_spelling root2 = Some r2 ->
  one_line r = true -> from_utf8_lossy root <> from_utf8_lossy root2 ->
  let stored := stored_depfile canon b root in
  let bound := names_unrewritten_root_path canon (canonicalize_depfile_root b root) root in
  rehydrate_depfile_root stored (Some root) = Some b /\
  (bound = true -> rehydrate_depfile_root stored (Some root2) = None) /\
  (bound = false -> exists p ps, whole_cuts (make_quote r) "" b p ps /\
     rehydrate_depfile_root stored (Some root2) = Some (join_pieces (make_quote r2) p ps)).
Proof.
  intros Hm Hb Hlf Hr Hr2 Hl Hne stored bound. destruct (root_spelling_slash _ _ Hr) as [r' Hslash].
  destruct (canonicalize_pieces (S (String.length b)) (make_quote r) "" b "" (root_spelling_ne _ _ Hr))
    as (p & ps & Hcuts & Hc); [subst r; by apply quoted_root_no_inner|lia|]. pose proof (proj1 Hcuts) as Hp.
  assert (canonicalize_depfile_root b root = join_pieces DEPFILE_WORKTREE_ROOT_MARKER p ps) as Hcan.
  { unfold canonicalize_depfile_root. rewrite Hr. exact Hc. }
  assert (Forall (fun x => str_contains DEPFILE_WORKTREE_ROOT_MARKER x = false) (p :: ps)) as Hall.
  { apply (pieces_clean (make_quote r)). by rewrite <- Hp. }
  pose proof (rehydrate_marker_pieces p ps root r Hall Hr) as H1. rewrite <- Hp in H1.
  pose proof (rehydrate_marker_pieces p ps root2 r2 Hall Hr2) as H2.
  assert (strip_prefix DEPFILE_ROOT_BOUND_PREFIX (join_pieces DEPFILE_WORKTREE_ROOT_MARKER p ps) = None) as Hnh.
  { apply (no_header (make_quote r)). by rewrite <- Hp. }
  unfold stored, bound, stored_depfile. clear stored bound. cbv zeta. rewrite Hcan. destruct (names_unrewritten_root_path canon _ root).
  - rewrite !rehydrate_bound by done. rewrite bool_decide_eq_true_2, bool_decide_eq_false_2 by done.
    split_and!; [exact H1|done|done].
  - unfold rehydrate_depfile_root. rewrite Hnh. split_and!; [exact H1|done|]. intros _. by exists p, ps.
Qed.

Lemma depfile_relocates_witness :
  let b := "/w/x.o: /w/x.c /wab/y.h" +:+ String LF "" in
  let stored := stored_depfile (fun p => p) b "/w" in
  rehydrate_depfile_root stored (Some "/w") = Some b /\
  rehydrate_depfile_root stored (Some "/v") = Some ("/v/x.o: /v/x.c /wab/y.h" +:+ String LF "") /\
  (let b := "x.o: /./w/x.c" in
   rehydrate_depfile_root (stored_depfile NormalizedPath_new b "/w") (Some "/v") = None).
Proof.
  intros b stored.
  destruct (depfile_relocates (fun p => p) b "/w" "/v" "/w" "/v") as (H1 & _ & _);
    [vm_compute; reflexivity..|vm_compute; congruence|].
  split; [exact H1|]. split; [vm_compute; reflexivity|].
  destruct (depfile_relocates NormalizedPath_new "x.o: /./w/x.c" "/w" "/v" "/w" "/v") as (_ & H2 & _);
    [vm_compute; reflexivity..|vm_compute; congruence|].
  apply H2. vm_compute. reflexivity.
Defined.
