(* ===== verification/CcContext.v ===== *)
(** * The context of a C or C++ request

    How the daemon turns an accepted compilation into the context that is
    keyed: the parser of MSVC arguments ([msvc_args.rs] of the dependency
    graph), the dependency policy of the request ([dependency_policy.rs]), the
    salts for the environment ([keys.rs]) and the two builders, for one source
    ([build_cc_compile_context] of [rustc.rs]) and for a batch
    ([handle_compile_multi_context.rs]).  The compiler's hash, which the daemon
    obtains by running the compiler, is an argument of both. *)

From stdpp Require Import list strings.
From Stdlib Require Import Lia.
From S2P Require Import Prelude Path Hash RustStr KeyEnv ContextKeys DepGraph GnuArgs Depfile CompileCommands Detect.
From S2P Require Import RustcPlan Invocation DepfileRoot.

(** ** [msvc_args.rs] *)

Inductive ShowIncludesMode := ShowAll | ShowUserOnly.

Definition parse_show_includes_arg (arg : bytes) : option ShowIncludesMode :=
  body ← match strip_prefix "/" arg with Some b => Some b | None => strip_prefix "-" arg end;
  let '(head_, suffix) := match split_once ":" body with
                          | Some (h, s) => (h, Some s)
                          | None => (body, None)
                          end in
  if negb (eq_ignore_ascii_case head_ "showIncludes") then None
  else Some (match suffix with Some _ => ShowUserOnly | None => ShowAll end).

Fixpoint msvc_show_includes_mode (args : list bytes) : option ShowIncludesMode :=
  match args with
  | [] => None
  | arg :: rest => match parse_show_includes_arg arg with Some m => Some m | None => msvc_show_includes_mode rest end
  end.

(** Insertion in front of the first [--]. *)
Fixpoint inject_show_includes (args : list bytes) : list bytes :=
  match args with
  | [] => ["/showIncludes"]
  | arg :: rest => if bool_decide (arg = "--") then "/showIncludes" :: args else arg :: inject_show_includes rest
  end.

(** [if arg == flag { if let Some(next) .. } else if let Some(v) =
    arg.strip_prefix(flag)]. *)
Definition msvc_value (flag arg : bytes) (next : option bytes) (k : bytes -> Action) : Branch :=
  separate_or_joined flag arg next (fun v => [k v]).

(** [if let Some(v) = arg.strip_prefix(flag) { if v.is_empty() .. }]. *)
Definition msvc_file (flag arg : bytes) (next : option bytes) (k : bytes -> Action) : Branch :=
  v ← strip_prefix flag arg;
  if bool_decide (v = "") then p ← next; Some ([k p], true) else Some ([k v], false).

Definition msvc_keyed_flag (arg : bytes) : bool :=
  any_prefix ["/std:"; "/O"; "/W"; "/Yu"; "/Yc"] arg || bool_decide (arg ∈ ["/MD"; "/MDd"; "/MT"; "/MTd"]) ||
  any_prefix ["/EH"; "/Z"] arg.

(** One turn: the mutations, whether the next argument is consumed, and whether
    [has_md] is set. *)
Definition plain (b : Branch) : option (list Action * bool * bool) := (fun r => (r, false)) <$> b.

Definition msvc_step (cwd arg : bytes) (next : option bytes) : list Action * bool * bool :=
  first_some
    [ plain (msvc_value "/I" arg next (fun v => PushUser (resolve_path v cwd)));
      plain (msvc_value "-I" arg next (fun v => PushUser (resolve_path v cwd)));
      plain (msvc_value "/D" arg next PushDefine);
      plain (msvc_value "/U" arg next PushUndef);
      plain (msvc_file "/Fo" arg next (fun v => SetOutput (resolve_path v cwd)));
      plain (msvc_file "/FI" arg next (fun v => PushForce (resolve_path v cwd)));
      (if msvc_keyed_flag arg then Some ([PushFlag arg], false, false) else None);
      (if bool_decide (arg ∈ ["/c"; "/nologo"]) then Some ([], false, false) else None);
      (fun _ => ([], false, true)) <$> parse_show_includes_arg arg;
      (if starts_with "/Fp" arg then Some ([PushFlag arg], false, false) else None);
      (if starts_with "/Fe" arg || starts_with "/Fd" arg then Some ([], false, false) else None);
      (if is_flag arg then Some ([PushUnknown arg], false, false) else None) ]
    ([PushSource (resolve_path arg cwd)], false, false).

Fixpoint msvc_actions (cwd : bytes) (args : list bytes) : list Action * bool :=
  match args with
  | [] => ([], false)
  | arg :: rest =>
      let '(acts, two, md) := msvc_step cwd arg (head rest) in
      let '(more, md') := match two, rest with
                          | true, _ :: rest' => msvc_actions cwd rest'
                          | _, _ => msvc_actions cwd rest
                          end in
      (acts ++ more, md || md')
  end.

Definition parse_msvc_args (args : list bytes) (cwd : bytes) : ParsedArgs :=
  let '(acts, md) := msvc_actions cwd args in
  let s := fold_left apply_action acts gnu_init in
  mkParsed (pick_source (source_candidates s)) (gs_output s) (gs_search s)
    (sort_strings (gs_defines s)) (sort_strings (gs_undefines s)) (sort_strings (gs_flags s))
    (gs_force s) None (mkDepFlags md false None false) (sort_strings (gs_unknown s)).

(** ** [dependency_policy.rs] *)

Inductive DependencyDiscoveryMode := AllHeaders | SkipSystemHeaders.
#[export] Instance DependencyDiscoveryMode_eq_dec : EqDecision DependencyDiscoveryMode.
Proof. solve_decision. Defined.

(** [client_env_value] of [keys.rs]: the first assignment, when not empty. *)
Definition client_env_value (client_env : option EnvList) (name : bytes) : option bytes :=
  env ← client_env;
  v ← snd <$> List.find (fun e => bool_decide (e.1 = name)) env;
  if bool_decide (v = "") then None else Some v.

Definition any_case (v : bytes) (l : list bytes) : bool := existsb (eq_ignore_ascii_case v) l.
(** The error names the variable and its value. *)
Definition parse_bool (name value : bytes) : bytes * bytes + bool :=
  let v := str_trim value in
  if bool_decide (v = "1") || any_case v ["true"; "yes"; "on"] then inr true
  else if bool_decide (v = "0") || any_case v ["false"; "no"; "off"] then inr false
  else inl (name, v).

Definition mode_from_client_env (client_env : option EnvList) : bytes * bytes + DependencyDiscoveryMode :=
  match client_env_value client_env "ZCCACHE_SCAN_SYSTEM_HEADERS" with
  | Some value =>
      match parse_bool "ZCCACHE_SCAN_SYSTEM_HEADERS" value with
      | inl e => inl e
      | inr scan => inr (if scan then AllHeaders else SkipSystemHeaders)
      end
  | None =>
      match client_env_value client_env "ZCCACHE_FAST" with
      | Some value =>
          match parse_bool "ZCCACHE_FAST" value with
          | inl e => inl e
          | inr fast => inr (if fast then SkipSystemHeaders else AllHeaders)
          end
      | None => inr AllHeaders
      end
  end.

Definition injected_depfile_flag (m : DependencyDiscoveryMode) : bytes :=
  match m with AllHeaders => "-MD" | SkipSystemHeaders => "-MMD" end.
Definition use_mmd (m : DependencyDiscoveryMode) : bool :=
  match m with SkipSystemHeaders => true | AllHeaders => false end.

Definition mode_marker (m : DependencyDiscoveryMode) : bytes :=
  match m with
  | AllHeaders => "zccache:dependency-discovery=all-headers"
  | SkipSystemHeaders => "zccache:dependency-discovery=skip-system-headers"
  end.
Definition depfile_marker (d : UserDepFlags) : bytes :=
  if has_mmd d then "zccache:user-depfile=mmd"
  else if has_md d then "zccache:user-depfile=md" else "zccache:user-depfile=none".

Definition with_unknown (ctx : CompileContext) (l : list bytes) : CompileContext :=
  mkContext (cc_source_file ctx) (include_search ctx) (cc_defines ctx) (cc_undefines ctx) (cc_flags ctx)
    (ContextKeys.force_includes ctx) l (cc_compiler_hash ctx).

Definition push_once (x : bytes) (l : list bytes) : list bytes := if bool_decide (x ∈ l) then l else l ++ [x].

Definition apply_to_cc_context (m : DependencyDiscoveryMode) (ctx : CompileContext) (d : UserDepFlags) : CompileContext :=
  with_unknown ctx (push_once (depfile_marker d) (push_once (mode_marker m) (cc_unknown_flags ctx))).

(** The salts for the arguments that shape a user's depfile. *)
Fixpoint depfile_salts (args : list bytes) (key_root : option bytes) (content_index : Z) : list bytes :=
  match args with
  | [] => []
  | arg :: rest =>
      if bool_decide (arg = "-MF") then
        match rest with
        | value :: rest' =>
            if bool_decide (value = "-")
            then "zccache:user-depfile-output=stdout" :: depfile_salts rest' key_root (content_index + 1)
            else depfile_salts rest' key_root content_index
        | [] => []
        end
      else if bool_decide (arg = "-MF-")
      then "zccache:user-depfile-output=stdout" :: depfile_salts rest key_root (content_index + 1)
      else if negb (starts_with "-MF" arg) then
        let a := salt_depfile_arg arg key_root in
        ("zccache:user-depfile-argv=" +:+ decimal content_index +:+ ":" +:+ decimal (Z.of_nat (String.length a)) +:+ ":" +:+ a)
          :: depfile_salts rest key_root (content_index + 1)
      else depfile_salts rest key_root content_index
  end.

Definition apply_user_depfile_content (ctx : CompileContext) (d : UserDepFlags) (args : list bytes)
    (key_root : option bytes) : CompileContext :=
  if negb (has_md d) then ctx else with_unknown ctx (cc_unknown_flags ctx ++ depfile_salts args key_root 0).

Definition tracks_header (m : DependencyDiscoveryMode) (path : NormalizedPath) (s : IncludeSearchPaths) : bool :=
  match m with
  | AllHeaders => true
  | SkipSystemHeaders =>
      existsb (np_starts_with path) (iquote s ++ user s) || negb (existsb (np_starts_with path) (system s ++ after s))
  end.

Definition retain_tracked_headers (m : DependencyDiscoveryMode) (headers : list NormalizedPath) (s : IncludeSearchPaths) :
    list NormalizedPath :=
  filter (fun p => tracks_header m p s = true) headers.

Definition tracks_static_include (m : DependencyDiscoveryMode) (including_file : bytes) (directive : IncludeDirective)
    (path : NormalizedPath) (s : IncludeSearchPaths) : bool :=
  (match id_kind directive, path_parent including_file with
   | Quoted, Some parent => bool_decide (NormalizedPath_new (path_push parent (id_path directive)) = path)
   | _, _ => false
   end) || tracks_header m path s.

Definition apply_static_fallback (m : DependencyDiscoveryMode) (r : ScanResult) (s : IncludeSearchPaths) : ScanResult :=
  match m with
  | SkipSystemHeaders => mkScan (retain_tracked_headers m (resolved r) s) (unresolved r) true
  | AllHeaders => mkScan (resolved r) (unresolved r) (has_computed r || negb (bool_decide (unresolved r = [])))
  end.

(** ** [keys.rs] *)

Definition cc_env_key_flags (f : CompilerFamily) (client_env : EnvList) : list bytes :=
  match (match f with Detect.Msvc => Some KeyEnv.Msvc | Gcc | Clang => Some KeyEnv.Gnu | _ => None end) with
  | None => []
  | Some scope =>
      map (fun e => "zccache:env:" +:+ e.1 +:+ "=" +:+ e.2) (keyed_cc_env client_env scope) ++
      (if bool_decide (f = Gcc) then
         match gcc_message_locale client_env with
         | Some locale => ["zccache:env:MESSAGE_LOCALE=" +:+ locale]
         | None => []
         end
       else [])
  end.

Definition msvc_show_includes_key_flags (f : CompilerFamily) (args : list bytes) : option bytes :=
  if negb (bool_decide (f = Detect.Msvc)) then None
  else m ← msvc_show_includes_mode args;
       Some ("zccache:msvc-showincludes:" +:+ match m with ShowAll => "all" | ShowUserOnly => "user" end).

(** ** The builders *)

Section build.
Context {B3 : Blake3} (fs : bytes -> option Node).

(** The flags, sorted, and the session's include directories. *)
Definition add_keyed_flags (f : CompilerFamily) (args : list bytes) (client_env : EnvList)
    (system_includes : list NormalizedPath) (ctx : CompileContext) : CompileContext :=
  let flags := sort_strings (cc_flags ctx ++ cc_env_key_flags f client_env ++
                 match msvc_show_includes_key_flags f args with Some x => [x] | None => [] end) in
  let s := include_search ctx in
  mkContext (cc_source_file ctx) (mkSearch (iquote s) (user s) (merge_system (system s) system_includes) (after s))
    (cc_defines ctx) (cc_undefines ctx) flags (ContextKeys.force_includes ctx) (cc_unknown_flags ctx) (cc_compiler_hash ctx).

Definition with_source (ctx : CompileContext) (p : NormalizedPath) : CompileContext :=
  mkContext p (include_search ctx) (cc_defines ctx) (cc_undefines ctx) (cc_flags ctx) (ContextKeys.force_includes ctx)
    (cc_unknown_flags ctx) (cc_compiler_hash ctx).

Definition unit_source (c : CacheableCompilation) (cwd : bytes) : NormalizedPath :=
  if has_root (co_source_file c) then co_source_file c else NormalizedPath_new (path_push cwd (co_source_file c)).

Definition build_cc_compile_context (c : CacheableCompilation) (cwd : bytes) (system_includes : list NormalizedPath)
    (client_env : EnvList) (compiler_hash : ContentHash) : CompileContext * UserDepFlags :=
  let parsed := match co_family c with
                | Detect.Msvc => parse_msvc_args (co_original_args c) cwd
                | _ => parse_gnu_args fs (co_original_args c) cwd
                end in
  let ctx := add_keyed_flags (co_family c) (co_original_args c) client_env system_includes
               (cc_from_parsed_args parsed compiler_hash) in
  (with_source ctx (unit_source c cwd), pa_dep_flags parsed).

Definition build_multi_base_context (f : CompilerFamily) (args : list bytes) (cwd : NormalizedPath)
    (compiler_hash : ContentHash) (system_includes : list NormalizedPath) (client_env : EnvList)
    (mode : DependencyDiscoveryMode) : CompileContext * UserDepFlags :=
  let parsed := if bool_decide (f = Detect.Msvc) || looks_like_msvc_args args
                then parse_msvc_args args cwd else parse_gnu_args fs args cwd in
  let d := pa_dep_flags parsed in
  (apply_to_cc_context mode (add_keyed_flags f args client_env system_includes (cc_from_parsed_args parsed compiler_hash)) d, d).

(** [pch_gate.rs]: a precompiled header is keyed by its exact command line. *)
Definition exact_invocation_key_flag (cwd : bytes) (args : list bytes) : bytes :=
  "zccache-pch-invocation=" +:+
  to_hex (hash_bytes (from_utf8_lossy cwd +:+ concat_bytes (map (fun a => String NUL a) args))).

Definition is_pch_output (output : bytes) : bool :=
  match extension output with Some e => bool_decide (e ∈ ["pch"; "gch"]) | None => false end.

Definition salt_pch_key (ctx : CompileContext) (mode : SourceMode) (cwd : bytes) (args : list bytes) : CompileContext :=
  match mode with
  | ModeHeader => with_unknown ctx (cc_unknown_flags ctx ++ [exact_invocation_key_flag cwd args])
  | _ => ctx
  end.

Definition source_mode_for_key (c : CacheableCompilation) : SourceMode :=
  if is_pch_output (co_output_file c) then ModeHeader else ModeNormal.

(** The contexts that are registered: for one source, and for a unit of a
    batch. *)
Definition single_context (c : CacheableCompilation) (cwd : bytes) (system_includes : list NormalizedPath)
    (client_env : EnvList) (compiler_hash : ContentHash) (mode : DependencyDiscoveryMode) (key_root : bytes) :
    CompileContext :=
  let '(ctx, d) := build_cc_compile_context c cwd system_includes client_env compiler_hash in
  let ctx := salt_pch_key (apply_to_cc_context mode ctx d) (source_mode_for_key c) cwd (co_original_args c) in
  apply_user_depfile_content ctx d (co_original_args c) (Some key_root).

Definition unit_context (c : CacheableCompilation) (cwd : NormalizedPath) (system_includes : list NormalizedPath)
    (client_env : EnvList) (compiler_hash : ContentHash) (mode : DependencyDiscoveryMode) : CompileContext :=
  let '(base, d) := build_multi_base_context (co_family c) (co_original_args c) cwd compiler_hash system_includes
                      client_env mode in
  apply_user_depfile_content (with_source base (unit_source c cwd)) d (co_original_args c) None.
End build.

(** ** Properties *)

(** The two builders stay in lockstep.  For a compilation whose family is
    MSVC or whose arguments do not look like MSVC flags, a unit of a batch gets
    the context and the dependency flags the single-source path gives the same
    compilation; when the user asked for no depfile and the output is no
    precompiled header, the registered contexts are equal, whatever the root. *)
Theorem builders_agree {B3 : Blake3} (fs : bytes -> option Node) (c : CacheableCompilation) (cwd key_root : bytes)
    (system_includes : list NormalizedPath) (client_env : EnvList) (compiler_hash : ContentHash)
    (mode : DependencyDiscoveryMode) :
  co_family c = Detect.Msvc \/ looks_like_msvc_args (co_original_args c) = false ->
  let '(ctx, d) := build_cc_compile_context fs c cwd system_includes client_env compiler_hash in
  let '(base, d') := build_multi_base_context fs (co_family c) (co_original_args c) cwd compiler_hash system_includes
                       client_env mode in
  d' = d /\ with_source base (unit_source c cwd) = apply_to_cc_context mode ctx d /\
  (has_md d = false -> is_pch_output (co_output_file c) = false ->
   single_context fs c cwd system_includes client_env compiler_hash mode key_root =
     unit_context fs c cwd system_includes client_env compiler_hash mode).
Proof.
  intros Hf. destruct c as [cc f src out args uk]. unfold single_context, unit_context, build_cc_compile_context, build_multi_base_context.
  simpl in *. assert ((if bool_decide (f = Detect.Msvc) || looks_like_msvc_args args
      then parse_msvc_args args cwd else parse_gnu_args fs args cwd) =
    match f with Detect.Msvc => parse_msvc_args args cwd | _ => parse_gnu_args fs args cwd end) as ->.
  { destruct (bool_decide_reflect (f = Detect.Msvc)) as [->|Hn]; [done|]. destruct Hf as [|Hf]; [done|].
    rewrite Hf. by destruct f. }
  split; [done|]. split; [done|]. intros Hmd Hp. unfold source_mode_for_key. simpl. rewrite Hp. unfold salt_pch_key.
  unfold apply_user_depfile_content. by rewrite Hmd.
Qed.

Lemma builders_agree_witness :
  let c := mkCompilation "/usr/bin/g++" Gcc "b.cc" "b.o" ["-c"; "a.cc"; "b.cc"; "-DX=1"; "-Iinc"; "-O2"] [] in
  let ctx := unit_context no_files c "/w" ["/usr/include"] [("CPATH", "/opt"); ("LANG", "de_DE.UTF-8")] demo_hash AllHeaders in
  single_context (B3 := toy_blake3) no_files c "/w" ["/usr/include"] [("CPATH", "/opt"); ("LANG", "de_DE.UTF-8")] demo_hash
    AllHeaders "/w" = ctx /\
  cc_source_file ctx = "/w/b.cc" /\
  cc_flags ctx = ["-O2"; "zccache:env:CPATH=/opt"; "zccache:env:MESSAGE_LOCALE=de_DE@|"].
Proof.
  intros c ctx. split; [|vm_compute; done].
  pose proof (builders_agree (B3 := toy_blake3) no_files c "/w" "/w" ["/usr/include"]
    [("CPATH", "/opt"); ("LANG", "de_DE.UTF-8")] demo_hash AllHeaders (or_intror eq_refl)) as H.
  destruct (build_cc_compile_context _ _ _ _ _ _) as [ctx' d] eqn:Hb.
  destruct (build_multi_base_context _ _ _ _ _ _ _ _) as [base d'].
  destruct H as (_ & _ & H). apply H; [|reflexivity]. vm_compute in Hb. injection Hb as _ <-. reflexivity.
Defined.

Lemma strip_prefix_head (c : ascii) p s : starts_with (String c "") s = false -> strip_prefix (String c p) s = None.
Proof.
  intros H. destruct s as [|d s]; [done|]. unfold starts_with in H. cbn [strip_prefix] in *.
  case_bool_decide; [|done]. by destruct s.
Qed.
Lemma starts_with_head (c : ascii) p s : starts_with (String c "") s = false -> starts_with (String c p) s = false.
Proof. intros H. unfold starts_with. by rewrite strip_prefix_head. Qed.

(** A value that is no flag is read as a source. *)
Lemma msvc_step_positional cwd v next :
  is_flag v = false -> msvc_step cwd v next = ([PushSource (resolve_path v cwd)], false, false).
Proof.
  unfold is_flag. intros [H1 H2]%orb_false_iff. unfold msvc_step, msvc_value, msvc_file, separate_or_joined.
  assert (forall c p, starts_with (String c "") v = false -> bool_decide (v = String c p) = false) as Hne.
  { intros c p Hc. apply bool_decide_eq_false. intros ->. unfold starts_with in Hc. cbn [strip_prefix] in Hc.
    rewrite bool_decide_eq_true_2 in Hc by done. by destruct p. }
  rewrite !(Hne "/"%char) by done. rewrite !(Hne "-"%char) by done.
  rewrite !(strip_prefix_head "/"%char), !(strip_prefix_head "-"%char) by done.
  cbn [mbind option_bind plain fmap option_fmap option_map first_some].
  unfold msvc_keyed_flag, any_prefix. cbn [existsb]. rewrite !(starts_with_head "/"%char) by done.
  unfold parse_show_includes_arg. rewrite !(strip_prefix_head "/"%char), !(strip_prefix_head "-"%char) by done.
  rewrite !(bool_decide_eq_false_2 (v ∈ _)); cycle 1.
  { intros Hin. rewrite !elem_of_cons, elem_of_nil in Hin. destruct Hin as [->|[->|[]]]; done. }
  { intros Hin. rewrite !elem_of_cons, elem_of_nil in Hin. destruct Hin as [->|[->|[->|[->|[]]]]]; done. }
  cbn [orb mbind option_bind fmap option_fmap option_map first_some]. unfold is_flag. by rewrite H1, H2.
Qed.

(** A macro given to an MSVC-style compiler as [-D NAME] is not keyed.  The
    classifier knows that [-D] takes the next argument; the parser that builds
    the context knows only [/D] and takes the macro for a source, which is then
    overridden.  Compilations with different macros are accepted and registered
    under one context. *)
Theorem dash_define_unkeyed {B3 : Blake3} (windows_file_stem : bytes -> option bytes) (current : RustcHost)
    (fs : bytes -> option Node) (compiler cwd key_root m1 m2 : bytes) (system_includes : list NormalizedPath)
    (client_env : EnvList) (compiler_hash : ContentHash) (mode : DependencyDiscoveryMode) (adm : TestHarnessAdmission) :
  detect_family compiler = Detect.Msvc ->
  is_flag m1 = false -> is_flag m2 = false -> msvc_side_output m1 = false -> msvc_side_output m2 = false ->
  let args m := ["/c"; "-D"; m; "a.c"] in
  let c m := mkCompilation (NormalizedPath_new compiler) Detect.Msvc "a.c" "a.obj" (args m) ["-D"; m] in
  (forall m, m = m1 \/ m = m2 ->
     parse_invocation_with_admission windows_file_stem current compiler (args m) adm = Cacheable (c m)) /\
  single_context fs (c m1) cwd system_includes client_env compiler_hash mode key_root =
    single_context fs (c m2) cwd system_includes client_env compiler_hash mode key_root.
Proof.
  intros Hf H1 H2 Hs1 Hs2 args c. split.
  - intros m Hm. assert (msvc_side_output m = false) as Hs by (by destruct Hm as [->| ->]).
    unfold parse_invocation_with_admission, parse_invocation_with. rewrite Hf. cbn [bool_decide decide_rel orb].
    rewrite (bool_decide_eq_false_2 (Detect.Msvc = Rustfmt)), (bool_decide_eq_false_2 (Detect.Msvc = Rustc)),
      (bool_decide_eq_true_2 (Detect.Msvc = Detect.Msvc)) by done. cbn [orb].
    unfold parse_msvc_invocation.
    assert (msvc_loop (args m) 0 mscan_init = inr (mkMScan true None [("a.c", 3%nat)] ["-D"; m] false)) as -> by reflexivity.
    unfold msvc_verdict. cbn [m_has_c m_sources m_pdb negb].
    assert (unmodeled_side_output_flag (args m) true = None) as ->; [|done].
    unfold unmodeled_side_output_flag, args. simpl. by rewrite Hs.
  - assert (forall m, is_flag m = false -> parse_msvc_args (args m) cwd =
      mkParsed (pick_source [resolve_path m cwd; resolve_path "a.c" cwd]) None (mkSearch [] [] [] []) [] [] [] [] None
        (mkDepFlags false false None false) ["-D"]) as Hp.
    { intros m Hm. unfold parse_msvc_args, args. cbn [msvc_actions head].
      change (msvc_step cwd "/c" (Some "-D")) with (@nil Action, false, false).
      change (msvc_step cwd "-D" (Some m)) with ([PushUnknown "-D"], false, false).
      rewrite (msvc_step_positional cwd m) by done.
      change (msvc_step cwd "a.c" None) with ([PushSource (resolve_path "a.c" cwd)], false, false). reflexivity. }
    assert (forall m, is_flag m = false -> msvc_show_includes_mode (args m) = None) as Hi.
    { intros m [Ha Hb]%orb_false_iff. unfold args. cbn [msvc_show_includes_mode].
      change (parse_show_includes_arg "/c") with (@None ShowIncludesMode).
      change (parse_show_includes_arg "-D") with (@None ShowIncludesMode).
      change (parse_show_includes_arg "a.c") with (@None ShowIncludesMode). unfold parse_show_includes_arg.
      by rewrite !(strip_prefix_head "/"%char), !(strip_prefix_head "-"%char). }
    unfold single_context, build_cc_compile_context, add_keyed_flags, msvc_show_includes_key_flags. cbn [co_family co_original_args c].
    rewrite (Hp m1), (Hp m2), (Hi m1), (Hi m2) by done. reflexivity.
Qed.

Lemma dash_define_unkeyed_witness :
  let c m := mkCompilation "clang-cl" Detect.Msvc "a.c" "a.obj" ["/c"; "-D"; m; "a.c"] ["-D"; m] in
  linux "clang-cl" ["/c"; "-D"; "N=1"; "a.c"] SharedOnly = Cacheable (c "N=1") /\
  single_context (B3 := toy_blake3) no_files (c "N=1") "/w" [] [] demo_hash AllHeaders "/w" =
    single_context (B3 := toy_blake3) no_files (c "N=2") "/w" [] [] demo_hash AllHeaders "/w".
Proof.
  intros c. destruct (dash_define_unkeyed (B3 := toy_blake3) (fun _ => None) HostLinux no_files "clang-cl" "/w" "/w" "N=1" "N=2"
    [] [] demo_hash AllHeaders SharedOnly) as [H1 H2]; [vm_compute; reflexivity..|].
  split; [exact (H1 _ (or_introl eq_refl))|exact H2].
Defined.

(** MSVC flags given to a driver that is not called [cl] or [clang-cl] are
    not keyed on the single-source path.  The classifier looks at the arguments
    and reads them as MSVC flags; the builder of the context looks at the family
    only, and the GNU parser takes every [/flag] for a source.  The batch
    builder looks at the arguments and does key them. *)
Theorem slash_flags_unkeyed {B3 : Blake3} (windows_file_stem : bytes -> option bytes) (current : RustcHost)
    (fs : bytes -> option Node) (compiler cwd key_root m1 m2 : bytes) (system_includes : list NormalizedPath)
    (client_env : EnvList) (compiler_hash : ContentHash) (mode : DependencyDiscoveryMode) (adm : TestHarnessAdmission) :
  supports_depfile (detect_family compiler) = true -> m1 <> m2 ->
  (forall m, m = m1 \/ m = m2 -> m <> "" /\ str_contains "/" m = false /\ msvc_side_output ("/D" +:+ m) = false) ->
  let args m := ["/c"; "/D" +:+ m; "a.c"] in
  let c m := mkCompilation (NormalizedPath_new compiler) (detect_family compiler) "a.c" "a.obj" (args m) ["/D" +:+ m] in
  let multi m := unit_context fs (c m) cwd system_includes client_env compiler_hash mode in
  (forall m, m = m1 \/ m = m2 ->
     parse_invocation_with_admission windows_file_stem current compiler (args m) adm = Cacheable (c m)) /\
  single_context fs (c m1) cwd system_includes client_env compiler_hash mode key_root =
    single_context fs (c m2) cwd system_includes client_env compiler_hash mode key_root /\
  cc_defines (multi m1) <> cc_defines (multi m2).
Proof.
  intros Hf Hne Hm args c multi.
  assert (detect_family compiler = Gcc \/ detect_family compiler = Clang) as Hgc by (destruct (detect_family compiler); try discriminate; auto).
  split_and!.
  - intros m Hin. destruct (Hm m Hin) as (Hm0 & Hms & Hmo). unfold parse_invocation_with_admission, parse_invocation_with.
    rewrite (bool_decide_eq_false_2 (detect_family compiler = Rustfmt)) by (by intros E; rewrite E in Hf).
    rewrite (bool_decide_eq_false_2 (detect_family compiler = Rustc)) by (by intros E; rewrite E in Hf).
    assert (looks_like_msvc_args (args m) = true) as -> by reflexivity. rewrite orb_true_r.
    unfold parse_msvc_invocation.
    assert (msvc_loop (args m) 0 mscan_init = inr (mkMScan true None [("a.c", 2%nat)] ["/D" +:+ m] false)) as ->.
    { unfold args. cbn [msvc_loop head]. change (msvc_arg "/c" (Some ("/D" +:+ m)) 0 mscan_init) with (@inr bytes _ (m_set_c mscan_init, false)).
      cbv iota beta.
      assert (msvc_arg ("/D" +:+ m) (Some "a.c") 1 (m_set_c mscan_init) =
        inr (m_push_unknown ("/D" +:+ m) (m_set_c mscan_init), false)) as ->; [|reflexivity].
      unfold msvc_arg.
      assert (is_exact_flag ("/D" +:+ m) "D" = false) as HD.
      { apply orb_false_iff. split; apply bool_decide_eq_false; [|done]. intros [= E]. done. }
      assert (msvc_passthrough ("/D" +:+ m) = true) as HP.
      { unfold msvc_passthrough. change (is_flag ("/D" +:+ m)) with true. change (starts_with "-" ("/D" +:+ m)) with false.
        change (flag_body ("/D" +:+ m)) with ("D" +:+ m). change (str_contains "/" ("D" +:+ m)) with (str_contains "/" m).
        by rewrite Hms. }
      rewrite HD, HP. reflexivity. }
    unfold msvc_verdict. cbn [m_has_c m_sources m_pdb negb].
    assert (unmodeled_side_output_flag (args m) true = None) as ->; [|done].
    unfold unmodeled_side_output_flag, args. cbn [List.find]. by rewrite Hmo.
  - assert (forall m, exists src, parse_gnu_args fs (args m) cwd =
      mkParsed src None (mkSearch [] [] [] []) [] [] [] [] None (mkDepFlags false false None false) []) as Hp.
    { intros m. eexists. reflexivity. }
    unfold single_context, build_cc_compile_context, add_keyed_flags, msvc_show_includes_key_flags. cbn [co_family co_original_args c].
    destruct (Hp m1) as [s1 E1], (Hp m2) as [s2 E2]. destruct Hgc as [->| ->]; rewrite E1, E2; reflexivity.
  - assert (forall m, m = m1 \/ m = m2 -> cc_defines (multi m) = [m]) as Hd; [|rewrite !Hd by auto; congruence].
    intros m Hin. destruct (Hm m Hin) as [Hm0 _]. destruct m as [|x m]; [done|]. unfold multi, unit_context, build_multi_base_context. cbn [co_family co_original_args c].
    assert (looks_like_msvc_args (args (String x m)) = true) as -> by reflexivity. rewrite orb_true_r. reflexivity.
Qed.

Lemma slash_flags_unkeyed_witness :
  let c m := mkCompilation "clang" Clang "a.c" "a.obj" ["/c"; "/D" +:+ m; "a.c"] ["/D" +:+ m] in
  linux "clang" ["/c"; "/DN=1"; "a.c"] SharedOnly = Cacheable (c "N=1") /\
  single_context (B3 := toy_blake3) no_files (c "N=1") "/w" [] [] demo_hash AllHeaders "/w" =
    single_context (B3 := toy_blake3) no_files (c "N=2") "/w" [] [] demo_hash AllHeaders "/w".
Proof.
  intros c. destruct (slash_flags_unkeyed (B3 := toy_blake3) (fun _ => None) HostLinux no_files "clang" "/w" "/w" "N=1" "N=2"
    [] [] demo_hash AllHeaders SharedOnly) as (H1 & H2 & _); [vm_compute; reflexivity|done| |].
  { intros m [->| ->]; vm_compute; done. }
  split; [exact (H1 _ (or_introl eq_refl))|exact H2].
Defined.

(** The discovery mode is part of the key: two modes never give one context,
    unless the command line spells a marker. *)
Lemma modes_separate ctx d m1 m2 :
  m1 <> m2 -> ~ mode_marker m1 ∈ cc_unknown_flags ctx -> ~ mode_marker m2 ∈ cc_unknown_flags ctx ->
  apply_to_cc_context m1 ctx d <> apply_to_cc_context m2 ctx d.
Proof.
  intros Hne H1 H2 Heq. apply (f_equal cc_unknown_flags) in Heq. simpl in Heq.
  assert (forall x l, push_once x l = l \/ push_once x l = l ++ [x]) as Hp by (intros; unfold push_once; case_bool_decide; auto).
  assert (mode_marker m1 <> depfile_marker d) as Hd.
  { unfold depfile_marker. destruct m1, (has_mmd d), (has_md d); done. }
  assert (mode_marker m1 ∈ push_once (depfile_marker d) (push_once (mode_marker m1) (cc_unknown_flags ctx))) as Hin.
  { unfold push_once at 2. rewrite (bool_decide_eq_false_2 (mode_marker m1 ∈ _)) by done.
    destruct (Hp (depfile_marker d) (cc_unknown_flags ctx ++ [mode_marker m1])) as [->| ->]; set_solver. }
  rewrite Heq in Hin. destruct (Hp (mode_marker m2) (cc_unknown_flags ctx)) as [E|E]; rewrite E in Hin;
    match type of Hin with context [push_once ?x ?l] => destruct (Hp x l) as [E'|E']; rewrite E' in Hin end;
    rewrite ?elem_of_app, ?list_elem_of_singleton in Hin;
    assert (mode_marker m1 <> mode_marker m2) by (by destruct m1, m2); tauto.
Qed.
