(* ===== verification/ResponseFile.v ===== *)
(** * Response files ([zccache-compiler/src/response_file.rs])

    An argument [@file] stands for the arguments in a file, which may hold such
    references again.  The file holds the reader of such a text (quotes, escapes,
    byte-order marks), the two expanders (the compiler crate's, and the daemon's
    with its cache, [rsp_cache.rs]) and the formatters that spill a long command
    line ([response_file/format.rs]).

    Both expanders bound the nesting at ten files.  Here the depth counts down:
    [left] is [MAX_DEPTH - depth], the test [depth >= MAX_DEPTH] is [left = 0],
    and the recursion is structural on it, so no fuel is needed. *)

From stdpp Require Import list strings gmap.
From Stdlib Require Import Lia.
From S2P Require Import Prelude Path Hash RustStr Depfile Detect Invocation.

(** ** The text of a response file *)

Definition is_sep (c : ascii) : bool := bool_decide (c ∈ [" "; TAB; LF; CR]%char).

(** Where the loops of [parse_response_file_content] stand: outside quotes, or
    inside the loop of a double- or single-quoted string. *)
Inductive QuoteMode := Unquoted | DoubleQuoted | SingleQuoted.

Definition DQ : ascii := ascii_of_nat 34.
Definition SQ : ascii := "'"%char.

Fixpoint parse_rsp (mode : QuoteMode) (in_arg : bool) (current : bytes) (s : bytes) : list bytes :=
  match s with
  | EmptyString => if in_arg then [current] else []
  | String c s' =>
      match mode with
      | Unquoted =>
          if is_sep c then (if in_arg then [current] else []) ++ parse_rsp Unquoted false "" s'
          else if bool_decide (c = DQ) then parse_rsp DoubleQuoted true current s'
          else if bool_decide (c = SQ) then parse_rsp SingleQuoted true current s'
          else parse_rsp Unquoted true (current +:+ String c "") s'
      | DoubleQuoted =>
          if bool_decide (c = DQ) then parse_rsp Unquoted in_arg current s'
          else if bool_decide (c = BS) then
            match s' with
            | EmptyString => if in_arg then [current] else []
            | String d s'' =>
                parse_rsp DoubleQuoted in_arg
                  (current +:+ String (if bool_decide (d = "n"%char) then LF else d) "") s''
            end
          else parse_rsp DoubleQuoted in_arg (current +:+ String c "") s'
      | SingleQuoted =>
          if bool_decide (c = SQ) then parse_rsp Unquoted in_arg current s'
          else parse_rsp SingleQuoted in_arg (current +:+ String c "") s'
      end
  end.

Definition parse_response_file_content (content : bytes) : list bytes := parse_rsp Unquoted false "" content.

(** ** Encodings *)

(** The UTF-8 bytes of a character. *)
Definition utf8_char (c : Z) : bytes :=
  if c <? 0x80 then String (byte_of c) ""
  else if c <? 0x800 then String (byte_of (0xC0 + c `div` 64)) (String (byte_of (0x80 + c `mod` 64)) "")
  else if c <? 0x10000 then
    String (byte_of (0xE0 + c `div` 4096))
      (String (byte_of (0x80 + (c `div` 64) `mod` 64)) (String (byte_of (0x80 + c `mod` 64)) ""))
  else
    String (byte_of (0xF0 + c `div` 262144))
      (String (byte_of (0x80 + (c `div` 4096) `mod` 64))
        (String (byte_of (0x80 + (c `div` 64) `mod` 64)) (String (byte_of (0x80 + c `mod` 64)) ""))).

(** [u16::from_le_bytes] and [u16::from_be_bytes]. *)
Definition from_le_bytes (a b : ascii) : Z := byte_val a + 256 * byte_val b.
Definition from_be_bytes (a b : ascii) : Z := 256 * byte_val a + byte_val b.

(** [char::decode_utf16] into a [String]; an unpaired surrogate is an error. *)
Fixpoint utf16_words (words : list Z) : option bytes :=
  match words with
  | [] => Some ""
  | w :: rest =>
      if negb ((0xD800 <=? w) && (w <=? 0xDFFF)) then String.append (utf8_char w) <$> utf16_words rest
      else if 0xDC00 <=? w then None
      else match rest with
           | [] => None
           | v :: rest' =>
               if (0xDC00 <=? v) && (v <=? 0xDFFF)
               then String.append (utf8_char (0x10000 + (w - 0xD800) * 1024 + (v - 0xDC00))) <$> utf16_words rest'
               else None
           end
  end.

(** The words of an even number of bytes; [None] is the odd byte count. *)
Fixpoint chunks2 (decode_word : ascii -> ascii -> Z) (s : bytes) : option (list Z) :=
  match s with
  | EmptyString => Some []
  | String a (String b s') => cons (decode_word a b) <$> chunks2 decode_word s'
  | String _ EmptyString => None
  end.

Definition decode_utf16 (payload : bytes) (decode_word : ascii -> ascii -> Z) : option bytes :=
  words ← chunks2 decode_word payload; utf16_words words.

Definition bom (l : list Z) : bytes := fold_right (fun z s => String (byte_of z) s) "" l.

Definition response_file_text (contents : bytes) : option bytes :=
  match strip_prefix (bom [0xff; 0xfe]) contents with
  | Some payload => decode_utf16 payload from_le_bytes
  | None =>
      match strip_prefix (bom [0xfe; 0xff]) contents with
      | Some payload => decode_utf16 payload from_be_bytes
      | None =>
          let payload := default contents (strip_prefix (bom [0xef; 0xbb; 0xbf]) contents) in
          if from_utf8_ok payload then Some payload else None
      end
  end.

(** ** The file system

    What the expanders ask of it: where a path really is, links followed, and
    what is in a file. *)
Record FileSystem := mkFS { canonicalize : bytes -> option bytes; fs_read : bytes -> option bytes }.

Definition read_response_file_text (fs : FileSystem) (path : NormalizedPath) : option bytes :=
  contents ← fs_read fs path; response_file_text contents.

(** ** Expansion *)

Definition MAX_DEPTH : nat := 10.

Inductive ResponseFileError :=
  | ReadError (path : NormalizedPath)
  | CircularReference (path : NormalizedPath)
  | TooDeep (path : NormalizedPath).

Definition resolve_rsp (filename base_dir : bytes) : NormalizedPath :=
  if has_root filename then NormalizedPath_new filename else NormalizedPath_new (path_push base_dir filename).

Section Expanders.
Context (fs : FileSystem).

Definition Expansion : Type := ResponseFileError + (list bytes * gset NormalizedPath).

(** The loop over the arguments; [rec] is the call one level deeper, [None] at
    the bound. *)
Fixpoint expand_loop (rec : option (list bytes -> bytes -> gset NormalizedPath -> Expansion))
    (base_dir : bytes) (args : list bytes) (seen : gset NormalizedPath) (result : list bytes) : Expansion :=
  match args with
  | [] => inr (result, seen)
  | arg :: rest =>
      match strip_prefix "@" arg with
      | None => expand_loop rec base_dir rest seen (result ++ [arg])
      | Some filename =>
          if bool_decide (filename = "") then expand_loop rec base_dir rest seen (result ++ [arg])
          else
            let resolved := resolve_rsp filename base_dir in
            match canonicalize fs resolved with
            | None => inl (ReadError resolved)
            | Some real =>
                let canonical := NormalizedPath_new real in
                if bool_decide (canonical ∈ seen) then inl (CircularReference resolved)
                else
                  match rec with
                  | None => inl (TooDeep resolved)
                  | Some deeper =>
                      match read_response_file_text fs canonical with
                      | None => inl (ReadError resolved)
                      | Some content =>
                          let parent_dir := default base_dir (path_parent canonical) in
                          match deeper (parse_response_file_content content) parent_dir ({[canonical]} ∪ seen) with
                          | inl e => inl e
                          | inr (nested, seen') =>
                              expand_loop rec base_dir rest (seen' ∖ {[canonical]}) (result ++ nested)
                          end
                      end
                  end
            end
      end
  end.

Fixpoint expand_recursive (left : nat) (args : list bytes) (base_dir : bytes) (seen : gset NormalizedPath) : Expansion :=
  expand_loop (match left with O => None | S left' => Some (expand_recursive left') end) base_dir args seen [].

Definition expand_response_files_in (args : list bytes) (base_dir : bytes) : ResponseFileError + list bytes :=
  match expand_recursive MAX_DEPTH args base_dir ∅ with
  | inl e => inl e
  | inr (result, _) => inr result
  end.

(** ** The daemon's expander ([rsp_cache.rs]) *)

Record RspDependency := mkRspDep { dep_path : NormalizedPath; dep_hash : ContentHash }.
Record RspCacheEntry := mkRspEntry { expanded : list bytes; dependencies : list RspDependency; cached_at : Z }.

(** [hash_file_via_cache] ([util.rs]): the metadata cache's stat-verified hash,
    or else the hash of the file.  The cache is modelled in [Verify] and
    [CacheSystem]; here its lookup is a parameter, and the theorems that need it
    assume that it returns current hashes, which is what those files prove of it
    for filesystems whose stamps identify contents. *)
Context {B3 : Blake3} (lookup : NormalizedPath -> option ContentHash).
Definition hash_file_via_cache (path : NormalizedPath) : option ContentHash :=
  match lookup path with Some hash => Some hash | None => hash_bytes <$> fs_read fs path end.

Definition MAX_RSP_DEPTH : nat := 10.
Definition RspExpansion : Type := ResponseFileError + (list bytes * gset NormalizedPath * list RspDependency).

(** The loop over the children of one file. *)
Fixpoint rsp_children (rec : NormalizedPath -> gset NormalizedPath -> list RspDependency -> RspExpansion)
    (base_dir : bytes) (children : list bytes) (seen : gset NormalizedPath) (deps : list RspDependency)
    (out : list bytes) : RspExpansion :=
  match children with
  | [] => inr (out, seen, deps)
  | child :: rest =>
      match strip_prefix "@" child with
      | None => rsp_children rec base_dir rest seen deps (out ++ [child])
      | Some filename =>
          if bool_decide (filename = "") then rsp_children rec base_dir rest seen deps (out ++ [child])
          else match rec (resolve_rsp filename base_dir) seen deps with
               | inl e => inl e
               | inr (nested, seen', deps') => rsp_children rec base_dir rest seen' deps' (out ++ nested)
               end
      end
  end.

Fixpoint expand_rsp_recursive (left : nat) (path : NormalizedPath) (seen : gset NormalizedPath)
    (deps : list RspDependency) : RspExpansion :=
  match left with
  | O => inl (TooDeep path)
  | S left' =>
      match canonicalize fs path with
      | None => inl (ReadError path)
      | Some real =>
          let canonical := NormalizedPath_new real in
          if bool_decide (canonical ∈ seen) then inl (CircularReference canonical)
          else match hash_file_via_cache canonical with
               | None => inl (ReadError canonical)
               | Some content_hash =>
                   match read_response_file_text fs canonical with
                   | None => inl (ReadError canonical)
                   | Some content =>
                       match rsp_children (expand_rsp_recursive left') (default "." (path_parent canonical))
                               (parse_response_file_content content) ({[canonical]} ∪ seen)
                               (deps ++ [mkRspDep canonical content_hash]) [] with
                       | inl e => inl e
                       | inr (out, seen', deps') => inr (out, seen' ∖ {[canonical]}, deps')
                       end
                   end
               end
      end
  end.

Definition RspCache : Type := gmap NormalizedPath RspCacheEntry.

Definition rsp_fresh (entry : RspCacheEntry) : bool :=
  forallb (fun dep => bool_decide (hash_file_via_cache (dep_path dep) = Some (dep_hash dep))) (dependencies entry).

(** The error is a message for the log: [None]. *)
Definition expand_rsp_arg_cached (now : Z) (cache : RspCache) (resolved : NormalizedPath)
    : option (list bytes) * RspCache :=
  match canonicalize fs resolved with
  | None => (None, cache)
  | Some real =>
      let canonical := NormalizedPath_new real in
      let expand :=
        match expand_rsp_recursive MAX_RSP_DEPTH canonical ∅ [] with
        | inl _ => (None, cache)
        | inr (out, _, deps) => (Some out, <[canonical := mkRspEntry out deps now]> cache)
        end in
      match cache !! canonical with
      | Some cached => if rsp_fresh cached then (Some (expanded cached), cache) else expand
      | None => expand
      end
  end.

(** [a.len() > 1 && a.starts_with('@')]. *)
Definition rsp_reference (arg : bytes) : option bytes :=
  match strip_prefix "@" arg with
  | Some EmptyString | None => None
  | Some filename => Some filename
  end.

Fixpoint expand_args_loop (now : Z) (cwd : bytes) (args : list bytes) (cache : RspCache) (result : list bytes)
    : list bytes * RspCache :=
  match args with
  | [] => (result, cache)
  | arg :: rest =>
      match rsp_reference arg with
      | None => expand_args_loop now cwd rest cache (result ++ [arg])
      | Some filename =>
          match expand_rsp_arg_cached now cache (resolve_rsp filename cwd) with
          | (Some out, cache') => expand_args_loop now cwd rest cache' (result ++ out)
          | (None, cache') => expand_args_loop now cwd rest cache' (result ++ [arg])
          end
      end
  end.

Definition expand_args_cached (now : Z) (cache : RspCache) (args : list bytes) (cwd : bytes) : list bytes * RspCache :=
  if negb (existsb (fun a => bool_decide (is_Some (rsp_reference a))) args) then (args, cache)
  else expand_args_loop now cwd args cache [].
End Expanders.

(** [trim_rsp_cache_at] ([cache_trim.rs]): entries past their age go, and all of
    them when there are too many. *)
Definition RSP_CACHE_MAX_ENTRIES : nat := 1024.
Definition cache_entry_expired_at (now cached max_age : Z) : bool := max_age <? Z.max 0 (now - cached).
Definition trim_rsp_cache_at (cache : RspCache) (max_age now : Z) : RspCache * nat :=
  let kept := filter (fun e : NormalizedPath * RspCacheEntry => cache_entry_expired_at now (cached_at e.2) max_age = false) cache in
  let removed := (size cache - size kept)%nat in
  if (RSP_CACHE_MAX_ENTRIES <? size kept)%nat then (∅, (removed + size kept)%nat) else (kept, removed).

(** ** Formatting ([response_file/format.rs]) *)

(** [contains(char::is_whitespace)]: some character is white space. *)
Definition starts_white (s : bytes) : bool :=
  match s with
  | EmptyString => false
  | String a s1 =>
      ws_ascii (byte_val a) ||
      match s1 with
      | EmptyString => false
      | String b s2 =>
          ws2 (byte_val a) (byte_val b) ||
          match s2 with EmptyString => false | String c _ => ws3 (byte_val a) (byte_val b) (byte_val c) end
      end
  end.
Fixpoint has_whitespace (s : bytes) : bool :=
  starts_white s || match s with EmptyString => false | String _ s' => has_whitespace s' end.

(** [str::replace] of a character. *)
Fixpoint replace_char (c : ascii) (by_ : bytes) (s : bytes) : bytes :=
  match s with
  | EmptyString => ""
  | String d s' => (if bool_decide (d = c) then by_ else String d "") +:+ replace_char c by_ s'
  end.

Definition has_newline (arg : bytes) : bool := has_char LF arg || has_char CR arg.
Definition quoted (q : ascii) (s : bytes) : bytes := String q (s +:+ String q "").

Definition format_gnu_argument (arg : bytes) : option bytes :=
  if bool_decide (arg = "") then Some (quoted SQ "")
  else if has_newline arg then None
  else if has_char BS arg then
    Some (quoted DQ (replace_char DQ (String BS (String DQ "")) (replace_char BS (String BS (String BS "")) arg)))
  else if negb (has_whitespace arg || has_char DQ arg || has_char SQ arg || starts_with "@" arg) then Some arg
  else if negb (has_char SQ arg) then Some (quoted SQ arg)
  else Some (quoted DQ (replace_char DQ (String BS (String DQ "")) arg)).

Fixpoint msvc_quote_loop (backslashes : nat) (arg : bytes) : bytes :=
  match arg with
  | EmptyString => repeat_char BS (backslashes * 2)
  | String c rest =>
      if bool_decide (c = BS) then msvc_quote_loop (S backslashes) rest
      else if bool_decide (c = DQ) then
        repeat_char BS (backslashes * 2 + 1) +:+ String DQ (msvc_quote_loop 0 rest)
      else repeat_char BS backslashes +:+ String c (msvc_quote_loop 0 rest)
  end.

Definition format_msvc_argument (arg : bytes) : option bytes :=
  if has_newline arg then None
  else if bool_decide (arg = "") then Some (quoted DQ "")
  else if negb (has_whitespace arg) && negb (has_char DQ arg) && negb (starts_with "@" arg) then Some arg
  else Some (quoted DQ (msvc_quote_loop 0 arg)).

(** One argument per line, or nothing when one of them cannot be written. *)
Fixpoint format_lines (format_argument : bytes -> option bytes) (args : list bytes) : option bytes :=
  match args with
  | [] => Some ""
  | arg :: rest =>
      line ← format_argument arg;
      content ← format_lines format_argument rest;
      Some (line +:+ String LF content)
  end.

Definition gnu_if_safe (args : list bytes) : option bytes := format_lines format_gnu_argument args.
Definition msvc_if_safe (args : list bytes) : option bytes := format_lines format_msvc_argument args.
Definition rustc_if_safe (args : list bytes) : option bytes :=
  format_lines (fun arg => if has_newline arg then None else Some arg) args.

(** ** Spilling a long command line *)

Definition MAX_CMDLINE_LEN : nat := 30000.
Definition estimated_len (args : list bytes) : nat := sum_list_with (fun a => String.length a + 3)%nat args.

Definition rsp_file_name (pid counter : Z) : bytes :=
  "zccache_" +:+ decimal pid +:+ "_" +:+ decimal counter +:+ ".rsp".

(** The name and the text of the file to be written, and the next value of the
    counter. *)
Definition write_response_file_if_needed (target_is_windows : bool) (pid counter : Z) (args : list bytes)
    (family_hint : CompilerFamily) : option (bytes * bytes) * Z :=
  if negb target_is_windows then (None, counter)
  else if (estimated_len args <? MAX_CMDLINE_LEN)%nat then (None, counter)
  else
    let content :=
      match family_hint with
      | Rustc => rustc_if_safe args
      | Detect.Msvc => msvc_if_safe args
      | _ => if looks_like_msvc_args args then msvc_if_safe args else gnu_if_safe args
      end in
    (pair (rsp_file_name pid counter) <$> content, wrap64 (counter + 1)).

(** ** Round trip of the formats *)

Lemma has_char_cons c d s : has_char c (String d s) = false -> d <> c /\ has_char c s = false.
Proof. cbn [has_char]. case_bool_decide; [done|]. done. Qed.

Lemma has_whitespace_cons d s : has_whitespace (String d s) = false -> is_sep d = false /\ has_whitespace s = false.
Proof.
  cbn [has_whitespace starts_white]. intros [[Hw _]%orb_false_iff Hs]%orb_false_iff. split; [|done].
  unfold is_sep. apply bool_decide_eq_false_2. intros Hin.
  repeat (apply elem_of_cons in Hin as [->|Hin]; [by vm_compute in Hw|]). by apply elem_of_nil in Hin.
Qed.

Lemma parse_plain s ia cur t :
  has_whitespace s = false -> has_char DQ s = false -> has_char SQ s = false ->
  parse_rsp Unquoted ia cur (s +:+ t) = parse_rsp Unquoted (ia || negb (bool_decide (s = ""))) (cur +:+ s) t.
Proof.
  revert ia cur. induction s as [|c s IH]; intros ia cur Hw Hd Hs.
  - by rewrite string_app_nil_r, orb_false_r.
  - apply has_whitespace_cons in Hw as [Hsep Hw]. apply has_char_cons in Hd as [Hcd Hd], Hs as [Hcs Hs].
    cbn [String.append parse_rsp]. rewrite Hsep, bool_decide_eq_false_2, bool_decide_eq_false_2 by done.
    rewrite IH by done. rewrite string_app_assoc. cbn [String.append orb].
    by rewrite (bool_decide_eq_false_2 (String c s = "")), orb_true_r by done.
Qed.

Lemma parse_single s cur t :
  has_char SQ s = false -> parse_rsp SingleQuoted true cur (s +:+ String SQ t) = parse_rsp Unquoted true (cur +:+ s) t.
Proof.
  revert cur. induction s as [|c s IH]; intros cur Hs.
  - by rewrite string_app_nil_r.
  - apply has_char_cons in Hs as [Hcs Hs]. cbn [String.append parse_rsp]. rewrite bool_decide_eq_false_2 by done.
    rewrite IH by done. by rewrite string_app_assoc.
Qed.

Abbreviation escape_dq s := (replace_char DQ (String BS (String DQ "")) (replace_char BS (String BS (String BS "")) s)).

Lemma parse_double s cur t :
  parse_rsp DoubleQuoted true cur (escape_dq s +:+ String DQ t) = parse_rsp Unquoted true (cur +:+ s) t.
Proof.
  revert cur. induction s as [|c s IH]; intros cur.
  - by rewrite string_app_nil_r.
  - transitivity (parse_rsp DoubleQuoted true (cur +:+ String c "") (escape_dq s +:+ String DQ t)).
    + cbn [replace_char]. destruct (bool_decide_reflect (c = BS)) as [->|Hb].
      * reflexivity.
      * destruct (bool_decide_reflect (c = DQ)) as [->|Hd]; [reflexivity|].
        cbn [String.append replace_char]. rewrite (bool_decide_eq_false_2 (c = DQ)) by done.
        cbn [String.append parse_rsp]. by rewrite (bool_decide_eq_false_2 (c = DQ)), bool_decide_eq_false_2 by done.
    + rewrite IH. by rewrite string_app_assoc.
Qed.

Lemma replace_char_absent c r s : has_char c s = false -> replace_char c r s = s.
Proof.
  induction s as [|d s IH]; [done|]. intros [Hd Hs]%has_char_cons. cbn [replace_char].
  rewrite bool_decide_eq_false_2, IH by done. done.
Qed.

(** One line of the GNU format reads back as its argument. *)
Lemma parse_gnu_line arg line t :
  format_gnu_argument arg = Some line ->
  parse_rsp Unquoted false "" (line +:+ String LF t) = arg :: parse_rsp Unquoted false "" t.
Proof.
  unfold format_gnu_argument. destruct (bool_decide_reflect (arg = "")) as [->|Hne]; [by intros [= <-]|].
  destruct (has_newline arg); [done|]. destruct (has_char BS arg) eqn:HB.
  { intros [= <-]. unfold quoted. cbn [String.append]. rewrite string_app_assoc.
    change (parse_rsp Unquoted false "" (String DQ (escape_dq arg +:+ String DQ (String LF t))) = arg :: parse_rsp Unquoted false "" t).
    cbn [parse_rsp]. change (parse_rsp DoubleQuoted true "" (escape_dq arg +:+ String DQ (String LF t)) = arg :: parse_rsp Unquoted false "" t).
    by rewrite parse_double. }
  destruct (has_char SQ arg) eqn:HS.
  { rewrite orb_true_r. simpl negb. intros [= <-]. unfold quoted. cbn [String.append]. rewrite string_app_assoc.
    transitivity (parse_rsp DoubleQuoted true "" (escape_dq arg +:+ String DQ (String LF t))); [|by rewrite parse_double].
    rewrite (replace_char_absent BS _ arg) by done. reflexivity. }
  rewrite orb_false_r. simpl negb at 2.
  destruct (negb (has_whitespace arg || has_char DQ arg || starts_with "@" arg)) eqn:Hq; intros [= <-].
  - apply negb_true_iff, orb_false_iff in Hq as [[Hw Hd]%orb_false_iff _].
    rewrite parse_plain by done. rewrite bool_decide_eq_false_2 by done. reflexivity.
  - unfold quoted. cbn [String.append]. rewrite string_app_assoc.
    transitivity (parse_rsp SingleQuoted true "" (arg +:+ String SQ (String LF t))); [reflexivity|].
    by rewrite parse_single.
Qed.

(** A spilled GNU command line reads back as itself: whenever the GNU
    formatter accepts an argument vector, [parse_response_file_content] returns
    exactly that vector, whatever quotes, backslashes, blanks, empty or
    [@]-arguments it holds; and it refuses only a vector with a line break in it. *)
Theorem gnu_rsp_roundtrip (args : list bytes) :
  match gnu_if_safe args with
  | Some content => parse_response_file_content content = args
  | None => exists arg, arg ∈ args /\ has_newline arg = true
  end.
Proof.
  unfold gnu_if_safe, parse_response_file_content. induction args as [|arg args IH]; [done|].
  cbn [format_lines]. destruct (format_gnu_argument arg) as [line|] eqn:Hf; cbn [mbind option_bind].
  - destruct (format_lines format_gnu_argument args) as [content|]; cbn [mbind option_bind].
    + by rewrite (parse_gnu_line arg), IH.
    + destruct IH as (a & Ha & Hn). exists a. split; [by right|done].
  - exists arg. split; [by left|]. unfold format_gnu_argument in Hf. repeat case_match; congruence.
Qed.

(** *** The line formats determine their arguments *)

Lemma line_inv a b s t :
  has_char LF a = false -> has_char LF b = false -> a +:+ String LF s = b +:+ String LF t -> a = b /\ s = t.
Proof.
  revert b. induction a as [|c a IH]; intros [|d b]; cbn [String.append].
  - intros _ _ [= ->]. done.
  - intros _ Hb [= <- _]. by apply has_char_cons in Hb as [? _].
  - intros Ha _ [= -> _]. by apply has_char_cons in Ha as [? _].
  - intros [_ Ha]%has_char_cons [_ Hb]%has_char_cons [= <- Heq]. by destruct (IH b Ha Hb Heq) as [-> ->].
Qed.

Lemma format_lines_inj (f : bytes -> option bytes) args1 args2 content :
  (forall a l, f a = Some l -> has_char LF l = false) ->
  (forall a b l, f a = Some l -> f b = Some l -> a = b) ->
  format_lines f args1 = Some content -> format_lines f args2 = Some content -> args1 = args2.
Proof.
  intros Hlf Hinj. revert args2 content.
  induction args1 as [|a args1 IH]; intros [|b args2] content; cbn [format_lines]; [done|..].
  - intros [= <-]. destruct (f b) as [l|], (format_lines f args2); cbn; try done. by destruct l.
  - destruct (f a) as [l|], (format_lines f args1); cbn; try done. intros [= <-] [= H]. by destruct l.
  - destruct (f a) as [la|] eqn:Ha, (format_lines f args1) as [c1|]; cbn; try done. intros [= <-].
    destruct (f b) as [lb|] eqn:Hb, (format_lines f args2) as [c2|] eqn:H2; cbn; try done. intros [= Heq].
    apply line_inv in Heq as [-> ->]; [|eauto..]. f_equal; eauto.
Qed.

Lemma repeat_no_lf n : has_char LF (repeat_char BS n) = false.
Proof. by induction n. Qed.

Lemma msvc_loop_no_lf n arg : has_char LF arg = false -> has_char LF (msvc_quote_loop n arg) = false.
Proof.
  revert n. induction arg as [|c arg IH]; intros n; cbn [msvc_quote_loop]; [intros _; apply repeat_no_lf|].
  intros [Hc Ha]%has_char_cons. repeat case_bool_decide; subst; [by apply IH|..];
    rewrite has_char_app, repeat_no_lf; cbn [has_char]; rewrite IH, orb_false_r by done; [done|by apply bool_decide_eq_false_2].
Qed.

(** What the quoted body of an argument stands for, [k] backslashes being
    pending: half of them before a quote, all of them before anything else. *)
Fixpoint msvc_unquote (k : nat) (s : bytes) : bytes :=
  match s with
  | EmptyString => ""
  | String c s' =>
      if bool_decide (c = BS) then msvc_unquote (S k) s'
      else if bool_decide (c = DQ) then
        repeat_char BS (k / 2) +:+ (if Nat.even k then "" else String DQ (msvc_unquote 0 s'))
      else repeat_char BS k +:+ String c (msvc_unquote 0 s')
  end.

Lemma unquote_repeat n k s : msvc_unquote k (repeat_char BS n +:+ s) = msvc_unquote (n + k) s.
Proof.
  revert k. induction n as [|n IH]; intros k; [done|].
  cbn [repeat_char String.append msvc_unquote]. rewrite bool_decide_eq_true_2, IH by done. f_equal. lia.
Qed.

Lemma repeat_char_S n c : repeat_char c (S n) = repeat_char c n +:+ String c "".
Proof. induction n as [|n IH]; [done|]. cbn [repeat_char String.append] in *. by rewrite <- IH. Qed.

Lemma msvc_unquote_loop n arg : msvc_unquote 0 (msvc_quote_loop n arg +:+ String DQ "") = repeat_char BS n +:+ arg.
Proof.
  revert n. induction arg as [|c arg IH]; intros n; cbn [msvc_quote_loop].
  - rewrite unquote_repeat. cbn [msvc_unquote]. rewrite bool_decide_eq_false_2, bool_decide_eq_true_2 by done.
    rewrite Nat.add_0_r, Nat.even_mul, orb_true_r, Nat.div_mul by done. done.
  - destruct (bool_decide_reflect (c = BS)) as [->|Hb].
    + rewrite IH, repeat_char_S, string_app_assoc. done.
    + destruct (bool_decide_reflect (c = DQ)) as [->|Hd].
      * rewrite string_app_assoc, unquote_repeat. cbn [String.append msvc_unquote].
        rewrite bool_decide_eq_false_2, bool_decide_eq_true_2 by done. rewrite Nat.add_0_r.
        replace (Nat.even (n * 2 + 1)) with false by (by rewrite Nat.even_add, Nat.even_mul, orb_true_r).
        rewrite IH. replace ((n * 2 + 1) / 2)%nat with n; [done|].
        rewrite Nat.div_add_l by done. simpl. lia.
      * rewrite string_app_assoc, unquote_repeat. cbn [String.append msvc_unquote].
        rewrite (bool_decide_eq_false_2 (c = BS)), (bool_decide_eq_false_2 (c = DQ)) by done.
        rewrite Nat.add_0_r, IH. done.
Qed.

Lemma format_msvc_no_lf a l : format_msvc_argument a = Some l -> has_char LF l = false.
Proof.
  unfold format_msvc_argument, has_newline. destruct (has_char LF a) eqn:Ha; [done|]. destruct (has_char CR a); [done|].
  repeat case_match; intros [= <-]; [done..|]. unfold quoted.
  cbn [has_char]. rewrite has_char_app, msvc_loop_no_lf by done. done.
Qed.

(** Whether the argument was quoted shows in its first character. *)
Lemma format_msvc_shape a l :
  format_msvc_argument a = Some l ->
  (l = a /\ has_char DQ a = false /\ a <> "") \/ exists body, l = String DQ body /\ msvc_unquote 0 body = a.
Proof.
  unfold format_msvc_argument. destruct (has_newline a); [done|].
  destruct (bool_decide_reflect (a = "")) as [->|Hne]; [intros [= <-]; right; by eexists|].
  destruct (negb (has_whitespace a) && negb (has_char DQ a) && negb (starts_with "@" a)) eqn:Hq; intros [= <-].
  - left. apply andb_prop in Hq as [[_ Hq%negb_true_iff]%andb_prop _]. done.
  - right. exists (msvc_quote_loop 0 a +:+ String DQ ""). split; [done|]. by rewrite msvc_unquote_loop.
Qed.

Lemma format_msvc_inj a b l : format_msvc_argument a = Some l -> format_msvc_argument b = Some l -> a = b.
Proof.
  intros [(-> & Ha & _)|(u & -> & <-)]%format_msvc_shape [(Hb & Hd & _)|(v & Hb & <-)]%format_msvc_shape; subst.
  - done.
  - by apply has_char_cons in Ha as [? _].
  - by apply has_char_cons in Hd as [? _].
  - congruence.
Qed.

Lemma replace_char_no_lf c r s :
  has_char LF r = false -> has_char LF s = false -> has_char LF (replace_char c r s) = false.
Proof.
  intros Hr. induction s as [|d s IH]; [done|]. intros [Hd Hs]%has_char_cons. cbn [replace_char].
  rewrite has_char_app, IH, orb_false_r by done. case_bool_decide; [done|]. cbn [has_char].
  rewrite orb_false_r. by apply bool_decide_eq_false_2.
Qed.

Lemma format_gnu_no_lf a l : format_gnu_argument a = Some l -> has_char LF l = false.
Proof.
  unfold format_gnu_argument, has_newline. destruct (has_char LF a) eqn:Ha; [by repeat case_match; intros [= <-]|].
  destruct (has_char CR a); repeat case_match; intros [= <-]; try done; unfold quoted; cbn [has_char];
    rewrite has_char_app, ?replace_char_no_lf, ?Ha by (try apply replace_char_no_lf; done); done.
Qed.

(** No two command lines are spilled as the same file, in any of the formats. *)
Theorem rsp_formats_injective (args1 args2 : list bytes) (content : bytes) :
  (gnu_if_safe args1 = Some content -> gnu_if_safe args2 = Some content -> args1 = args2) /\
  (msvc_if_safe args1 = Some content -> msvc_if_safe args2 = Some content -> args1 = args2) /\
  (rustc_if_safe args1 = Some content -> rustc_if_safe args2 = Some content -> args1 = args2).
Proof.
  split_and!.
  - apply format_lines_inj; [apply format_gnu_no_lf|].
    intros a b l Ha%(parse_gnu_line _ _ "") Hb%(parse_gnu_line _ _ ""). congruence.
  - apply format_lines_inj; [apply format_msvc_no_lf|apply format_msvc_inj].
  - apply format_lines_inj; unfold has_newline.
    + intros a l. destruct (has_char LF a) eqn:Ha; [done|]. destruct (has_char CR a); [done|]. by intros [= <-].
    + intros a b l. repeat case_match; congruence.
Qed.

(** ** What expansion means

    Without sets of visited files and without caches: a reference stands for the
    arguments of its file, up to a nesting bound. *)

Section Meaning.
Context (fs : FileSystem).

Definition locate (filename base_dir : bytes) : option NormalizedPath :=
  NormalizedPath_new <$> canonicalize fs (resolve_rsp filename base_dir).

Definition expand_arg (file : NormalizedPath -> option (list bytes)) (base_dir arg : bytes) : option (list bytes) :=
  match rsp_reference arg with
  | None => Some [arg]
  | Some filename => locate filename base_dir ≫= file
  end.

Definition expand_args (file : NormalizedPath -> option (list bytes)) (base_dir : bytes) (args : list bytes)
    : option (list bytes) := (fun l => List.concat l) <$> mapM (expand_arg file base_dir) args.

(** The arguments a file stands for, with at most [n] files nested in each other. *)
Fixpoint expand_file (n : nat) (canonical : NormalizedPath) : option (list bytes) :=
  match n with
  | O => None
  | S n' =>
      content ← read_response_file_text fs canonical;
      dir ← path_parent canonical;
      expand_args (expand_file n') dir (parse_response_file_content content)
  end.

Lemma expand_args_nil file dir : expand_args file dir [] = Some [].
Proof. done. Qed.

Lemma expand_args_cons file dir a args :
  expand_args file dir (a :: args) = x ← expand_arg file dir a; r ← expand_args file dir args; Some (x ++ r).
Proof.
  unfold expand_args. cbn [mapM]. unfold mbind, option_bind.
  destruct (expand_arg file dir a) as [x|]; [|done]. by destruct (mapM (expand_arg file dir) args).
Qed.

Lemma expand_args_mono (f g : NormalizedPath -> option (list bytes)) dir args r :
  (forall p x, f p = Some x -> g p = Some x) -> expand_args f dir args = Some r -> expand_args g dir args = Some r.
Proof.
  intros Hfg. revert r. induction args as [|a args IH]; intros r; [done|]. rewrite !expand_args_cons.
  intros (x & Hx & (r' & Hr & [= <-])%bind_Some)%bind_Some.
  assert (expand_arg g dir a = Some x) as ->.
  { revert Hx. unfold expand_arg. destruct (rsp_reference a); [|done]. destruct (locate _ _); [|done]. apply Hfg. }
  cbn [mbind option_bind]. by rewrite (IH _ Hr).
Qed.

Lemma expand_file_mono n m p x : (n <= m)%nat -> expand_file n p = Some x -> expand_file m p = Some x.
Proof.
  revert m p x. induction n as [|n IH]; intros [|m] p x Hle; cbn [expand_file]; [done..|lia|].
  intros (c & -> & (d & -> & H)%bind_Some)%bind_Some. cbn [mbind option_bind].
  revert H. apply expand_args_mono. intros. apply IH; [lia|done].
Qed.

(** The least bound under which a file expands. *)
Lemma expand_file_least n p x :
  expand_file n p = Some x -> exists j, (j < n)%nat /\ expand_file (S j) p = Some x /\ expand_file j p = None.
Proof.
  induction n as [|n IH]; [done|]. intros Hx. destruct (expand_file n p) as [y|] eqn:Hy.
  - assert (y = x) as -> by (pose proof (expand_file_mono n (S n) p y ltac:(lia) Hy); congruence).
    destruct (IH eq_refl) as (j & Hj & H1 & H2). exists j. split; [lia|done].
  - exists n. split; [lia|done].
Qed.
End Meaning.

(** ** The compiler crate's expander computes it *)

Lemma rsp_reference_eq arg :
  rsp_reference arg = match strip_prefix "@" arg with
                      | Some filename => if bool_decide (filename = "") then None else Some filename
                      | None => None
                      end.
Proof. unfold rsp_reference. destruct (strip_prefix "@" arg) as [[|c f]|]; [done| |done]. by rewrite bool_decide_eq_false_2. Qed.

Lemma restore_seen (c : NormalizedPath) (seen : gset NormalizedPath) : ~ c ∈ seen -> ({[c]} ∪ seen) ∖ {[c]} = seen.
Proof. intros. set_solver. Qed.

Section Direct.
Context (fs : FileSystem).
(** Only the root has no parent, and a directory cannot be read. *)
Context (root_unreadable : forall p, path_parent p = None -> fs_read fs p = None).

Lemma read_has_parent p c : read_response_file_text fs p = Some c -> exists d, path_parent p = Some d.
Proof.
  unfold read_response_file_text. intros (b & Hb & _)%bind_Some.
  destruct (path_parent p) as [d|] eqn:Hp; [eauto|]. rewrite root_unreadable in Hb by done. done.
Qed.

(** One step of the loop, at an argument that is a reference or is none. *)
Lemma expand_loop_cons rec base arg rest seen res :
  expand_loop fs rec base (arg :: rest) seen res =
  match rsp_reference arg with
  | None => expand_loop fs rec base rest seen (res ++ [arg])
  | Some filename =>
      let resolved := resolve_rsp filename base in
      match locate fs filename base with
      | None => inl (ReadError resolved)
      | Some canonical =>
          if bool_decide (canonical ∈ seen) then inl (CircularReference resolved)
          else match rec with
               | None => inl (TooDeep resolved)
               | Some deeper =>
                   match read_response_file_text fs canonical with
                   | None => inl (ReadError resolved)
                   | Some content =>
                       match deeper (parse_response_file_content content) (default base (path_parent canonical))
                               ({[canonical]} ∪ seen) with
                       | inl e => inl e
                       | inr (nested, seen') => expand_loop fs rec base rest (seen' ∖ {[canonical]}) (res ++ nested)
                       end
                   end
               end
      end
  end.
Proof.
  cbn [expand_loop]. rewrite rsp_reference_eq. unfold locate.
  destruct (strip_prefix "@" arg) as [f|]; [|done]. case_bool_decide; [done|].
  by destruct (canonicalize fs (resolve_rsp f base)).
Qed.

Lemma expand_loop_sound rec file base args seen res r seen' :
  (forall deeper canonical content dir seen r s', rec = Some deeper ->
     read_response_file_text fs canonical = Some content -> path_parent canonical = Some dir ->
     deeper (parse_response_file_content content) dir seen = inr (r, s') -> file canonical = Some r /\ s' = seen) ->
  expand_loop fs rec base args seen res = inr (r, seen') ->
  exists r0, expand_args fs file base args = Some r0 /\ r = res ++ r0 /\ seen' = seen.
Proof.
  intros Hrec. revert seen res. induction args as [|arg args IH]; intros seen res.
  - cbn [expand_loop]. intros [= <- <-]. exists []. by rewrite app_nil_r.
  - rewrite expand_loop_cons, expand_args_cons. unfold expand_arg. cbv zeta.
    destruct (rsp_reference arg) as [f|].
    2:{ intros (r0 & -> & -> & ->)%IH. exists ([arg] ++ r0). by rewrite app_assoc. }
    destruct (locate fs f base) as [canonical|]; [|done]. case_bool_decide as Hseen; [done|].
    destruct rec as [deeper|]; [|done].
    destruct (read_response_file_text fs canonical) as [content|] eqn:Hread; [|done].
    destruct (read_has_parent canonical content Hread) as [dir Hdir]. rewrite Hdir. cbn [default].
    destruct (deeper _ _ _) as [e|[nested s']] eqn:Hd; [done|].
    destruct (Hrec deeper canonical content dir _ _ _ eq_refl Hread Hdir Hd) as [Hfile ->].
    rewrite restore_seen by done. cbn [mbind option_bind]. rewrite Hfile. cbn [mbind option_bind].
    intros (r0 & -> & -> & ->)%IH. exists (nested ++ r0). by rewrite app_assoc.
Qed.

Lemma expand_recursive_sound left args base seen r seen' :
  expand_recursive fs left args base seen = inr (r, seen') ->
  expand_args fs (expand_file fs left) base args = Some r /\ seen' = seen.
Proof.
  revert args base seen r seen'.
  induction left as [|left IH]; intros args base seen r seen'; cbn [expand_recursive]; intros H.
  - apply (expand_loop_sound _ (expand_file fs 0)) in H as (r0 & Hr & -> & ->); [done|]. by intros.
  - apply (expand_loop_sound _ (expand_file fs (S left))) in H as (r0 & Hr & -> & ->); [done|].
    intros deeper canonical content dir s x s' [= <-] Hread Hdir [Hx ->]%IH.
    cbn [expand_file]. rewrite Hread. cbn [mbind option_bind]. rewrite Hdir. done.
Qed.

Lemma expand_loop_complete rec file base args seen res r :
  (forall canonical x, file canonical = Some x ->
     ~ canonical ∈ seen /\ exists deeper content dir, rec = Some deeper /\
       read_response_file_text fs canonical = Some content /\ path_parent canonical = Some dir /\
       deeper (parse_response_file_content content) dir ({[canonical]} ∪ seen) = inr (x, {[canonical]} ∪ seen)) ->
  expand_args fs file base args = Some r -> expand_loop fs rec base args seen res = inr (res ++ r, seen).
Proof.
  intros Hfile. revert res r. induction args as [|arg args IH]; intros res r.
  - intros [= <-]. cbn [expand_loop]. by rewrite app_nil_r.
  - rewrite expand_loop_cons, expand_args_cons. intros (x & Hx & (r0 & Hr & [= <-])%bind_Some)%bind_Some.
    unfold expand_arg in Hx. cbv zeta. destruct (rsp_reference arg) as [f|].
    2:{ injection Hx as <-. rewrite (IH _ r0 Hr). by rewrite <- app_assoc. }
    destruct (locate fs f base) as [canonical|]; [|done]. cbn [mbind option_bind] in Hx.
    destruct (Hfile canonical x Hx) as (Hseen & deeper & content & dir & -> & -> & -> & Hd).
    rewrite bool_decide_eq_false_2 by done. cbn [default]. unfold id in *. rewrite Hd, restore_seen by done.
    rewrite (IH _ r0 Hr). by rewrite <- app_assoc.
Qed.

(** A file that is its own ancestor would have to expand within a bound smaller
    than the least one. *)
Lemma expand_recursive_complete left k args base seen r :
  (k <= left)%nat -> (forall a, a ∈ seen -> expand_file fs k a = None) ->
  expand_args fs (expand_file fs k) base args = Some r -> expand_recursive fs left args base seen = inr (r, seen).
Proof.
  revert k args base seen r. induction left as [|left IH]; intros k args base seen r Hk Hseen Hr; cbn [expand_recursive].
  - assert (k = 0%nat) as -> by lia. by apply (expand_loop_complete _ (expand_file fs 0) _ _ _ []).
  - apply (expand_loop_complete _ (expand_file fs k) _ _ _ []); [|done]. intros canonical x Hx.
    split; [intros Hin%Hseen; congruence|].
    destruct (expand_file_least fs k canonical x Hx) as (j & Hj & HSj & Hnone).
    cbn [expand_file] in HSj. apply bind_Some in HSj as (content & Hc & (dir & Hdir & Hargs)%bind_Some).
    exists (expand_recursive fs left), content, dir. split_and!; [done..|]. apply (IH j); [lia| |done].
    intros a [->%elem_of_singleton|Ha]%elem_of_union; [done|].
    destruct (expand_file fs j a) as [y|] eqn:Hy; [|done].
    apply (expand_file_mono fs j k) in Hy; [|lia]. rewrite Hseen in Hy; done.
Qed.

(** C23: the set of visited files decides only which error is reported.  An
    argument vector expands exactly when every reference in it can be read and
    at most [MAX_DEPTH] files are nested in each other, and then to the
    arguments of the files in place of the references; a cycle is always among
    the vectors that exceed the bound, and a file that is referenced twice is
    expanded twice. *)
Theorem expansion_is_substitution (args : list bytes) (base : bytes) (r : list bytes) :
  expand_response_files_in fs args base = inr r <->
  expand_args fs (expand_file fs MAX_DEPTH) base args = Some r.
Proof.
  unfold expand_response_files_in. split.
  - destruct (expand_recursive fs MAX_DEPTH args base ∅) as [e|[x s]] eqn:Hx; [done|]. intros [= <-].
    by apply expand_recursive_sound in Hx as [? _].
  - intros Hr. rewrite (expand_recursive_complete MAX_DEPTH MAX_DEPTH args base ∅ r); [done|lia| |done].
    intros a Ha. by apply elem_of_empty in Ha.
Qed.
End Direct.

(** ** The daemon's expander, its cache and the files that change under it *)

(** What one request sees: the files, and the metadata cache over them. *)
Record World := mkWorld { w_fs : FileSystem; w_lookup : NormalizedPath -> option ContentHash }.

Section Cached.
Context {B3 : Blake3}.

(** What the code relies on: directories cannot be read, a canonical path is its
    own canonical path, and the metadata cache returns hashes of the files' contents. *)
Record world_ok (w : World) : Prop := mkWorldOk {
  wok_root : forall p, path_parent p = None -> fs_read (w_fs w) p = None;
  wok_canonical : forall p c, canonicalize (w_fs w) p = Some c ->
    canonicalize (w_fs w) (NormalizedPath_new c) = Some c;
  wok_lookup : forall p h, w_lookup w p = Some h -> exists c, fs_read (w_fs w) p = Some c /\ h = hash_bytes c
}.

(** Between two requests files may be edited, created and removed; a name that
    led to a file leads to it as long as the file is there (no link is moved to
    another file). *)
Definition names_stable (old new : FileSystem) : Prop :=
  forall p c, canonicalize old p = Some c -> is_Some (fs_read new (NormalizedPath_new c)) -> canonicalize new p = Some c.

Lemma hash_via_cache_content w p :
  world_ok w -> hash_file_via_cache (w_fs w) (w_lookup w) p = hash_bytes <$> fs_read (w_fs w) p.
Proof.
  intros [_ _ Hl]. unfold hash_file_via_cache. destruct (w_lookup w p) as [h|] eqn:Hh; [|done].
  destruct (Hl p h Hh) as (c & -> & ->). done.
Qed.

(** The file a path leads to. *)
Definition leads_to (fs : FileSystem) (p : bytes) : option NormalizedPath := NormalizedPath_new <$> canonicalize fs p.

(** What a list of dependencies taken in one world guarantees in another: if the
    files still have those contents, [ask] still answers [out]. *)
Definition pinned (old : FileSystem) (ask : FileSystem -> option (list bytes)) (deps : list RspDependency)
    (out : list bytes) : Prop :=
  (forall d, d ∈ deps -> exists c, fs_read old (dep_path d) = Some c /\ dep_hash d = hash_bytes c) /\
  forall new, names_stable old new -> (forall d, d ∈ deps -> fs_read new (dep_path d) = fs_read old (dep_path d)) ->
    ask new = Some out.

(** Asking through a name [p] that is known to lead to [canonical]: what is
    pinned about the file is pinned about the name, the file being one of the
    dependencies. *)
Lemma pinned_via_name old p real n deps out :
  canonicalize old p = Some real -> (exists d, d ∈ deps /\ dep_path d = NormalizedPath_new real) ->
  pinned old (fun fs => expand_file fs n (NormalizedPath_new real)) deps out ->
  pinned old (fun fs => leads_to fs p ≫= expand_file fs n) deps out.
Proof.
  intros Hp (d & Hd & Hdp) [H1 H2]. split; [done|]. intros new Hst Hsame. unfold leads_to.
  rewrite (Hst p real Hp); [by apply H2|]. destruct (H1 d Hd) as (c & Hc & _). rewrite <- Hdp, (Hsame d Hd), Hc. eauto.
Qed.

Lemma pinned_app old dir args1 args2 n deps1 deps2 out1 out2 :
  pinned old (fun fs => expand_args fs (expand_file fs n) dir args1) deps1 out1 ->
  pinned old (fun fs => expand_args fs (expand_file fs n) dir args2) deps2 out2 ->
  pinned old (fun fs => expand_args fs (expand_file fs n) dir (args1 ++ args2)) (deps1 ++ deps2) (out1 ++ out2).
Proof.
  intros [A1 A2] [C1 C2]. split; [intros d [?|?]%elem_of_app; auto|]. intros new Hst Hsame.
  specialize (A2 new Hst ltac:(intros; apply Hsame, elem_of_app; auto)).
  specialize (C2 new Hst ltac:(intros; apply Hsame, elem_of_app; auto)). clear - A2 C2.
  revert out1 A2. induction args1 as [|a args1 IH]; intros out1; cbn [app].
  - by intros [= <-].
  - rewrite !expand_args_cons. intros (x & -> & (r & Hr & [= <-])%bind_Some)%bind_Some. cbn [mbind option_bind].
    rewrite (IH r Hr). cbn [mbind option_bind]. by rewrite app_assoc.
Qed.

Lemma expand_args_one fs file dir a : expand_args fs file dir [a] = expand_arg fs file dir a.
Proof. rewrite expand_args_cons. destruct (expand_arg fs file dir a) as [x|]; cbn; [by rewrite app_nil_r|done]. Qed.

Lemma rsp_children_cons rec dir child rest seen deps out :
  rsp_children rec dir (child :: rest) seen deps out =
  match rsp_reference child with
  | None => rsp_children rec dir rest seen deps (out ++ [child])
  | Some f =>
      match rec (resolve_rsp f dir) seen deps with
      | inl e => inl e
      | inr (nested, seen', deps') => rsp_children rec dir rest seen' deps' (out ++ nested)
      end
  end.
Proof.
  cbn [rsp_children]. rewrite rsp_reference_eq. destruct (strip_prefix "@" child) as [f|]; [|done]. by case_bool_decide.
Qed.

Lemma rsp_children_pinned rec fs n dir children seen deps out r seen' deps' :
  (forall p seen deps r s' d', rec p seen deps = inr (r, s', d') ->
     s' = seen /\ exists new, d' = deps ++ new /\ pinned fs (fun fs => leads_to fs p ≫= expand_file fs n) new r) ->
  rsp_children rec dir children seen deps out = inr (r, seen', deps') ->
  seen' = seen /\ exists r0 new, r = out ++ r0 /\ deps' = deps ++ new /\
    pinned fs (fun fs => expand_args fs (expand_file fs n) dir children) new r0.
Proof.
  intros Hrec. revert seen deps out. induction children as [|child rest IH]; intros seen deps out.
  - cbn [rsp_children]. intros [= <- <- <-]. split; [done|]. exists [], []. rewrite !app_nil_r. split_and!; [done..|].
    split; [|done]. intros d Hd. by apply elem_of_nil in Hd.
  - rewrite rsp_children_cons. destruct (rsp_reference child) as [f|] eqn:Href.
    + destruct (rec (resolve_rsp f dir) seen deps) as [e|[[nested s1] d1]] eqn:Hr; [done|].
      destruct (Hrec _ _ _ _ _ _ Hr) as (-> & new1 & -> & Hp1).
      intros (-> & r0 & new2 & -> & -> & Hp2)%IH. split; [done|]. exists (nested ++ r0), (new1 ++ new2).
      rewrite !app_assoc. split_and!; [done..|]. apply (pinned_app _ _ [child]); [|done].
      destruct Hp1 as [A B]. split; [done|]. intros new Hst Hsame.
      rewrite expand_args_one. unfold expand_arg. rewrite Href. apply (B new Hst Hsame).
    + intros (-> & r0 & new & -> & -> & Hp)%IH. split; [done|]. exists (child :: r0), new.
      rewrite <- app_assoc. split_and!; [done..|]. change new with ([] ++ new).
      apply (pinned_app _ _ [child] rest _ [] new [child] r0); [|done].
      split; [intros d Hd; by apply elem_of_nil in Hd|]. intros fs' _ _. rewrite expand_args_one. unfold expand_arg. by rewrite Href.
Qed.

Lemma expand_rsp_pinned w left p seen deps r seen' deps' :
  world_ok w -> expand_rsp_recursive (w_fs w) (w_lookup w) left p seen deps = inr (r, seen', deps') ->
  seen' = seen /\ exists real new, canonicalize (w_fs w) p = Some real /\ deps' = deps ++ new /\
    (exists d, d ∈ new /\ dep_path d = NormalizedPath_new real) /\
    pinned (w_fs w) (fun fs => expand_file fs left (NormalizedPath_new real)) new r.
Proof.
  intros Hw. revert p seen deps r seen' deps'. induction left as [|left IH]; intros p seen deps r seen' deps'; [done|].
  cbn [expand_rsp_recursive]. destruct (canonicalize (w_fs w) p) as [real|] eqn:Hp; [|done]. cbv zeta.
  case_bool_decide as Hin; [done|]. rewrite hash_via_cache_content by done.
  destruct (fs_read (w_fs w) (NormalizedPath_new real)) as [bs|] eqn:Hbs; [|done]. cbn [fmap option_fmap option_map].
  destruct (read_response_file_text (w_fs w) (NormalizedPath_new real)) as [content|] eqn:Hread; [|done].
  destruct (read_has_parent (w_fs w) (wok_root w Hw) _ _ Hread) as [dir Hdir]. rewrite Hdir. cbn [default]. unfold id.
  destruct (rsp_children _ _ _ _ _ _) as [e|[[out s1] d1]] eqn:Hc; [done|]. intros [= <- <- <-].
  eapply (rsp_children_pinned _ (w_fs w) left) in Hc as (-> & r0 & new & -> & -> & Hpin); cycle 1.
  { intros p' s' d' r' s1' d1' Hx. destruct (IH _ _ _ _ _ _ Hx) as (-> & real' & new' & Hr' & -> & Hd' & Hp').
    split; [done|]. exists new'. split; [done|]. by apply (pinned_via_name _ _ real'). }
  split; [by apply restore_seen|]. exists real, (mkRspDep (NormalizedPath_new real) (hash_bytes bs) :: new). rewrite <- app_assoc.
  split_and!; [done..|eexists; split; [by left|done]|].
  destruct Hpin as [A B]. split.
  - intros d [->|Hd]%elem_of_cons; [eauto|auto].
  - intros fs' Hst Hsame. cbn [expand_file app]. unfold read_response_file_text in *.
    rewrite (Hsame (mkRspDep (NormalizedPath_new real) (hash_bytes bs))) by (by left). cbn [dep_path].
    rewrite Hread. cbn [mbind option_bind]. rewrite Hdir. apply B; [done|]. intros d Hd. apply Hsame. by right.
Qed.

Lemma rsp_children_complete rec fs file dir children seen deps out r :
  (forall p x deps, leads_to fs p ≫= file = Some x -> exists deps', rec p seen deps = inr (x, seen, deps')) ->
  expand_args fs file dir children = Some r ->
  exists deps', rsp_children rec dir children seen deps out = inr (out ++ r, seen, deps').
Proof.
  intros Hrec. revert deps out r. induction children as [|child rest IH]; intros deps out r.
  - intros [= <-]. exists deps. cbn [rsp_children]. by rewrite app_nil_r.
  - rewrite expand_args_cons, rsp_children_cons. intros (x & Hx & (r0 & Hr & [= <-])%bind_Some)%bind_Some.
    unfold expand_arg in Hx. destruct (rsp_reference child) as [f|].
    + destruct (Hrec (resolve_rsp f dir) x deps Hx) as [d ->]. rewrite app_assoc. by apply IH.
    + injection Hx as <-. rewrite app_assoc. by apply IH.
Qed.

Lemma expand_rsp_complete w left k p seen deps x :
  world_ok w -> (k <= left)%nat -> (forall a, a ∈ seen -> expand_file (w_fs w) k a = None) ->
  leads_to (w_fs w) p ≫= expand_file (w_fs w) k = Some x ->
  exists deps', expand_rsp_recursive (w_fs w) (w_lookup w) left p seen deps = inr (x, seen, deps').
Proof.
  intros Hw. revert k p seen deps x. induction left as [|left IH]; intros k p seen deps x Hk Hseen.
  - assert (k = 0%nat) as -> by lia. by destruct (leads_to (w_fs w) p).
  - unfold leads_to. cbn [expand_rsp_recursive]. destruct (canonicalize (w_fs w) p) as [real|]; [|done].
    cbn [fmap option_fmap option_map mbind option_bind]. cbv zeta. set (c := NormalizedPath_new real). intros Hx.
    rewrite bool_decide_eq_false_2 by (intros Hin%Hseen; congruence).
    destruct (expand_file_least (w_fs w) k c x Hx) as (j & Hj & HSj & Hnone).
    cbn [expand_file] in HSj. apply bind_Some in HSj as (content & Hc & (dir & Hdir & Hargs)%bind_Some).
    rewrite hash_via_cache_content by done. pose proof Hc as Hc'. unfold read_response_file_text in Hc'.
    apply bind_Some in Hc' as (bs & -> & _). cbn [fmap option_fmap option_map]. rewrite Hc, Hdir. cbn [default]. unfold id.
    edestruct (rsp_children_complete (expand_rsp_recursive (w_fs w) (w_lookup w) left) (w_fs w) (expand_file (w_fs w) j) dir
      (parse_response_file_content content) ({[c]} ∪ seen) (deps ++ [mkRspDep c (hash_bytes bs)]) [] x) as [d ->].
    + intros p' x' deps' Hp'. apply (IH j); [lia| |done].
      intros a [->%elem_of_singleton|Ha]%elem_of_union; [done|].
      destruct (expand_file (w_fs w) j a) as [y|] eqn:Hy; [|done].
      apply (expand_file_mono (w_fs w) j k) in Hy; [|lia]. rewrite Hseen in Hy; done.
    + done.
    + exists d. cbn [app]. rewrite restore_seen; [done|]. intros Hin%Hseen. congruence.
Qed.

(** An uncached expansion is the meaning of the file. *)
Lemma expand_rsp_meaning w c real :
  world_ok w -> canonicalize (w_fs w) c = Some real -> NormalizedPath_new real = c ->
  match expand_rsp_recursive (w_fs w) (w_lookup w) MAX_RSP_DEPTH c ∅ [] with
  | inl _ => expand_file (w_fs w) MAX_DEPTH c = None
  | inr (out, _, deps) =>
      expand_file (w_fs w) MAX_DEPTH c = Some out /\ pinned (w_fs w) (fun fs => expand_file fs MAX_DEPTH c) deps out
  end.
Proof.
  intros Hw Hreal Hc.
  destruct (expand_rsp_recursive (w_fs w) (w_lookup w) MAX_RSP_DEPTH c ∅ []) as [e|[[out s] deps]] eqn:He.
  - destruct (expand_file (w_fs w) MAX_DEPTH c) as [x|] eqn:Hx; [|done].
    destruct (expand_rsp_complete w MAX_RSP_DEPTH MAX_DEPTH c ∅ [] x Hw) as [d Hd]; [unfold MAX_DEPTH, MAX_RSP_DEPTH; lia|..|congruence].
    + intros a Ha. by apply elem_of_empty in Ha.
    + unfold leads_to. rewrite Hreal. cbn. by rewrite Hc.
  - destruct (expand_rsp_pinned w _ _ _ _ _ _ _ Hw He) as (_ & real' & new & Hr' & -> & _ & Hpin). cbn [app] in *.
    assert (real' = real) as -> by congruence. rewrite Hc in Hpin. split; [|done].
    apply Hpin; [by intros p' c' Hp' _|done].
Qed.

(** *** Every entry of the cache is pinned in the world it was made in *)

Definition entry_ok (past : World -> Prop) (c : NormalizedPath) (e : RspCacheEntry) : Prop :=
  exists w, past w /\ pinned (w_fs w) (fun fs => expand_file fs MAX_DEPTH c) (dependencies e) (expanded e).
Definition cache_ok (past : World -> Prop) (cache : RspCache) : Prop := map_Forall (entry_ok past) cache.

(** The worlds a daemon has seen: nobody moved a link, and no two contents collide. *)
Record history_ok (past : World -> Prop) : Prop := mkHistoryOk {
  hist_world : forall w, past w -> world_ok w;
  hist_names : forall w1 w2, past w1 -> past w2 -> names_stable (w_fs w1) (w_fs w2);
  hist_hash : forall w1 w2 p c1 c2, past w1 -> past w2 -> fs_read (w_fs w1) p = Some c1 -> fs_read (w_fs w2) p = Some c2 ->
    hash_bytes c1 = hash_bytes c2 -> c1 = c2
}.

Lemma fresh_entry_current past c e w :
  history_ok past -> past w -> entry_ok past c e -> rsp_fresh (w_fs w) (w_lookup w) e = true ->
  expand_file (w_fs w) MAX_DEPTH c = Some (expanded e).
Proof.
  intros Hh Hw (w0 & Hw0 & A & B) Hf. apply B; [by apply (hist_names past Hh)|]. intros d Hd.
  destruct (A d Hd) as (c0 & Hc0 & Hdh). unfold rsp_fresh in Hf. rewrite forallb_forall in Hf.
  specialize (Hf d (proj1 (list_elem_of_In _ _) Hd)). apply bool_decide_eq_true in Hf.
  rewrite hash_via_cache_content in Hf by (by apply (hist_world past Hh)).
  apply fmap_Some in Hf as (c1 & Hc1 & Heq). rewrite Hc0, Hc1. f_equal.
  apply (hist_hash past Hh w w0 (dep_path d)); [done..|]. congruence.
Qed.

(** What the daemon makes of one [@file]: its meaning. *)
Lemma expand_rsp_arg_ok past w now cache resolved :
  history_ok past -> past w -> cache_ok past cache ->
  let out := expand_rsp_arg_cached (w_fs w) (w_lookup w) now cache resolved in
  out.1 = (leads_to (w_fs w) resolved ≫= expand_file (w_fs w) MAX_DEPTH) /\ cache_ok past out.2.
Proof.
  intros Hh Hw Hc. pose proof (hist_world past Hh w Hw) as Hok. cbv zeta. unfold expand_rsp_arg_cached, leads_to.
  destruct (canonicalize (w_fs w) resolved) as [real|] eqn:Hr; [|done].
  cbn [fmap option_fmap option_map mbind option_bind]. set (c := NormalizedPath_new real).
  pose proof (expand_rsp_meaning w c real Hok (wok_canonical w Hok _ _ Hr) eq_refl) as Hm.
  destruct (expand_rsp_recursive (w_fs w) (w_lookup w) MAX_RSP_DEPTH c ∅ []) as [e|[[out s] deps]].
  - destruct (cache !! c) as [e'|] eqn:He'; [|by rewrite Hm].
    destruct (rsp_fresh _ _ _) eqn:Hf; [|by rewrite Hm].
    cbn [fst snd]. split; [|done]. symmetry. exact (fresh_entry_current past c e' w Hh Hw (Hc c e' He') Hf).
  - destruct Hm as [Hm Hpin].
    assert (cache_ok past (<[c := mkRspEntry out deps now]> cache)) as Hins.
    { apply map_Forall_insert_2; [|done]. exists w. done. }
    destruct (cache !! c) as [e'|] eqn:He'; [|by rewrite Hm].
    destruct (rsp_fresh _ _ _) eqn:Hf; [|by rewrite Hm].
    cbn [fst snd]. split; [|done]. symmetry. exact (fresh_entry_current past c e' w Hh Hw (Hc c e' He') Hf).
Qed.

(** The meaning of an argument for the daemon: a reference that does not expand
    stays as it is. *)
Definition daemon_arg (fs : FileSystem) (cwd arg : bytes) : list bytes :=
  default [arg] (expand_arg fs (expand_file fs MAX_DEPTH) cwd arg).

Lemma expand_args_loop_ok past w now cwd args cache res :
  history_ok past -> past w -> cache_ok past cache ->
  let out := expand_args_loop (w_fs w) (w_lookup w) now cwd args cache res in
  out.1 = res ++ List.concat (map (daemon_arg (w_fs w) cwd) args) /\ cache_ok past out.2.
Proof.
  intros Hh Hw. revert cache res. induction args as [|arg args IH]; intros cache res Hc; cbv zeta; cbn [expand_args_loop].
  - by rewrite app_nil_r.
  - cbn [map List.concat]. unfold daemon_arg at 1, expand_arg. destruct (rsp_reference arg) as [f|].
    + destruct (expand_rsp_arg_ok past w now cache (resolve_rsp f cwd) Hh Hw Hc) as [Ho Hc'].
      destruct (expand_rsp_arg_cached _ _ _ _ _) as [o cache']. cbn [fst snd] in *. unfold locate, leads_to in *.
      rewrite <- Ho. destruct o as [out|]; cbn [default]; rewrite app_assoc; by apply IH.
    + cbn [default]. rewrite app_assoc. by apply IH.
Qed.

Lemma daemon_args_plain fs cwd args :
  existsb (fun a => bool_decide (is_Some (rsp_reference a))) args = false ->
  List.concat (map (daemon_arg fs cwd) args) = args.
Proof.
  induction args as [|a args IH]; [done|]. cbn [existsb map List.concat]. intros [Ha Hargs]%orb_false_iff.
  rewrite IH by done. unfold daemon_arg, expand_arg. apply bool_decide_eq_false in Ha.
  destruct (rsp_reference a); [exfalso; apply Ha; eauto|done].
Qed.

Lemma expand_args_cached_ok past w now cache args cwd :
  history_ok past -> past w -> cache_ok past cache ->
  let out := expand_args_cached (w_fs w) (w_lookup w) now cache args cwd in
  out.1 = List.concat (map (daemon_arg (w_fs w) cwd) args) /\ cache_ok past out.2.
Proof.
  intros Hh Hw Hc. cbv zeta. unfold expand_args_cached. destruct (existsb _ args) eqn:He; cbn [negb].
  - by apply (expand_args_loop_ok past w now cwd args cache []).
  - by rewrite daemon_args_plain.
Qed.

(** *** The life of the cache *)

Inductive RspEvent :=
  | Request (w : World) (now : Z) (args : list bytes) (cwd : bytes)
  | TrimAt (now max_age : Z)
  | ClearCache.

Definition rsp_step (cache : RspCache) (ev : RspEvent) : RspCache :=
  match ev with
  | Request w now args cwd => (expand_args_cached (w_fs w) (w_lookup w) now cache args cwd).2
  | TrimAt now max_age => (trim_rsp_cache_at cache max_age now).1
  | ClearCache => ∅
  end.
Definition rsp_run (events : list RspEvent) : RspCache := fold_left rsp_step events ∅.

Definition saw (ev : RspEvent) (w : World) : Prop := match ev with Request w' _ _ _ => w = w' | _ => False end.

Lemma rsp_step_ok past cache ev :
  history_ok past -> (forall w, saw ev w -> past w) -> cache_ok past cache -> cache_ok past (rsp_step cache ev).
Proof.
  intros Hh Hs Hc. destruct ev as [w now args cwd|now age|]; cbn [rsp_step].
  - apply (expand_args_cached_ok past w now cache args cwd Hh); [by apply Hs|done].
  - unfold trim_rsp_cache_at. case_match; [apply map_Forall_empty|].
    intros c e He. apply map_lookup_filter_Some in He as [He _]. exact (Hc c e He).
  - apply map_Forall_empty.
Qed.

Lemma rsp_run_ok past events :
  history_ok past -> (forall ev w, ev ∈ events -> saw ev w -> past w) -> cache_ok past (rsp_run events).
Proof.
  intros Hh. unfold rsp_run. assert (cache_ok past ∅) as Hc by apply map_Forall_empty. revert Hc. generalize (∅ : RspCache).
  induction events as [|ev events IH]; intros cache Hc Hs; [done|]. cbn [fold_left]. apply IH.
  - apply rsp_step_ok; [done| |done]. intros w. apply Hs. by left.
  - intros ev' w Hev. apply Hs. by right.
Qed.

(** C22: the daemon's cached expansion follows every edit.  After any requests,
    trims and clears, in worlds in which response files may have been edited,
    created and removed but no link was moved to another file and no two
    contents collide, a request gets for every argument the expansion its files
    stand for now, or the argument itself where that does not exist; where the
    compiler crate's uncached expander succeeds, both agree. *)
Theorem cached_expansion_current (past : World -> Prop) (events : list RspEvent) (w : World) (now : Z)
    (args : list bytes) (cwd : bytes) :
  history_ok past -> (forall ev w', ev ∈ events -> saw ev w' -> past w') -> past w ->
  let out := (expand_args_cached (w_fs w) (w_lookup w) now (rsp_run events) args cwd).1 in
  out = List.concat (map (daemon_arg (w_fs w) cwd) args) /\
  forall r, expand_response_files_in (w_fs w) args cwd = inr r -> out = r.
Proof.
  intros Hh Hs Hw. cbv zeta.
  destruct (expand_args_cached_ok past w now (rsp_run events) args cwd Hh Hw (rsp_run_ok past events Hh Hs)) as [-> _].
  split; [done|]. intros r Hr. unfold expand_response_files_in in Hr.
  destruct (expand_recursive (w_fs w) MAX_DEPTH args cwd ∅) as [e|[x s]] eqn:Hx; [done|]. injection Hr as <-.
  apply (expand_recursive_sound (w_fs w) (wok_root w (hist_world past Hh w Hw))) in Hx as [Hx _].
  revert x Hx. induction args as [|a args IH]; intros x; [by intros [= <-]|].
  rewrite expand_args_cons. intros (y & Hy & (r & Hr & [= <-])%bind_Some)%bind_Some.
  cbn [map List.concat]. rewrite (IH r Hr). unfold daemon_arg. by rewrite Hy.
Qed.
End Cached.

(** ** Encodings *)

(** A character is a scalar value: no surrogate. *)
Definition is_scalar (c : Z) : Prop := 0 <= c < 0xD800 \/ 0xE000 <= c < 0x110000.
Definition utf8_text (cs : list Z) : bytes := concat_bytes (map utf8_char cs).
(** The UTF-16 code units of a character, and their bytes in either order. *)
Definition utf16_units (c : Z) : list Z :=
  if c <? 0x10000 then [c] else [0xD800 + (c - 0x10000) `div` 1024; 0xDC00 + (c - 0x10000) `mod` 1024].
Definition le_word (w : Z) : bytes := String (byte_of (w `mod` 256)) (String (byte_of (w `div` 256)) "").
Definition be_word (w : Z) : bytes := String (byte_of (w `div` 256)) (String (byte_of (w `mod` 256)) "").
Definition utf16_text (word : Z -> bytes) (cs : list Z) : bytes := concat_bytes (map word (flat_map utf16_units cs)).

Definition units_ok (w : Z) : Prop := 0 <= w < 0x10000.

Lemma chunks2_words (word : Z -> bytes) decode ws :
  (forall w, units_ok w -> exists a b, word w = String a (String b "") /\ decode a b = w) -> Forall units_ok ws ->
  chunks2 decode (concat_bytes (map word ws)) = Some ws.
Proof.
  intros Hw. induction 1 as [|w ws Hok _ IH]; [done|]. cbn [map concat_bytes].
  destruct (Hw w Hok) as (a & b & -> & Hd). cbn [String.append chunks2]. rewrite IH. cbn. by rewrite Hd.
Qed.

Lemma le_word_ok w : units_ok w -> exists a b, le_word w = String a (String b "") /\ from_le_bytes a b = w.
Proof.
  intros Hw. unfold units_ok in Hw. do 2 eexists. split; [reflexivity|]. unfold from_le_bytes.
  rewrite !byte_val_of by (first [apply Z.mod_pos_bound; lia|split; [apply Z.div_pos; lia|apply Z.div_lt_upper_bound; lia]]).
  pose proof (Z.div_mod w 256). lia.
Qed.

Lemma be_word_ok w : units_ok w -> exists a b, be_word w = String a (String b "") /\ from_be_bytes a b = w.
Proof.
  intros Hw. unfold units_ok in Hw. do 2 eexists. split; [reflexivity|]. unfold from_be_bytes.
  rewrite !byte_val_of by (first [apply Z.mod_pos_bound; lia|split; [apply Z.div_pos; lia|apply Z.div_lt_upper_bound; lia]]).
  pose proof (Z.div_mod w 256). lia.
Qed.

(** The surrogates of a character outside the basic plane. *)
Lemma surrogates c : 0x10000 <= c < 0x110000 ->
  0 <= (c - 0x10000) `div` 1024 < 1024 /\ 0 <= (c - 0x10000) `mod` 1024 < 1024 /\
  c = 0x10000 + (c - 0x10000) `div` 1024 * 1024 + (c - 0x10000) `mod` 1024.
Proof.
  intros Hc. pose proof (Z.div_mod (c - 0x10000) 1024). pose proof (Z.mod_pos_bound (c - 0x10000) 1024). lia.
Qed.

Lemma utf16_units_ok cs : Forall is_scalar cs -> Forall units_ok (flat_map utf16_units cs).
Proof.
  induction 1 as [|c cs Hc _ IH]; [constructor|]. cbn [flat_map]. apply Forall_app. split; [|done].
  unfold utf16_units, units_ok, is_scalar in *. destruct (Z.ltb_spec c 0x10000); repeat constructor; try lia.
  all: pose proof (surrogates c ltac:(lia)); lia.
Qed.

Lemma utf16_decodes cs : Forall is_scalar cs -> utf16_words (flat_map utf16_units cs) = Some (utf8_text cs).
Proof.
  induction 1 as [|c cs Hc _ IH]; [done|]. unfold utf8_text. cbn [flat_map map concat_bytes]. fold (utf8_text cs).
  unfold is_scalar in Hc. unfold utf16_units at 1. destruct (Z.ltb_spec c 0x10000).
  - cbn [app utf16_words]. replace ((0xD800 <=? c) && (c <=? 0xDFFF)) with false by lia. cbn [negb]. by rewrite IH.
  - pose proof (surrogates c ltac:(lia)) as (H1 & H2 & H3). cbn [app utf16_words].
    set (hi := 0xD800 + (c - 0x10000) `div` 1024). set (lo := 0xDC00 + (c - 0x10000) `mod` 1024).
    replace ((0xD800 <=? hi) && (hi <=? 0xDFFF)) with true by lia. cbn [negb].
    replace (0xDC00 <=? hi) with false by lia. replace ((0xDC00 <=? lo) && (lo <=? 0xDFFF)) with true by lia.
    rewrite IH. cbn [fmap option_fmap option_map]. do 3 f_equal. lia.
Qed.

(** The bytes of one character are well-formed UTF-8. *)
Lemma utf8_first_char c s : is_scalar c -> utf8_first (utf8_char c +:+ s) = (true, String.length (utf8_char c)).
Proof.
  intros Hc. unfold is_scalar in Hc. unfold utf8_char.
  pose proof (Z.div_mod c 64 ltac:(lia)). pose proof (Z.mod_pos_bound c 64 ltac:(lia)).
  pose proof (Z.div_mod (c `div` 64) 64 ltac:(lia)). pose proof (Z.mod_pos_bound (c `div` 64) 64 ltac:(lia)).
  pose proof (Z.div_mod (c `div` 4096) 64 ltac:(lia)). pose proof (Z.mod_pos_bound (c `div` 4096) 64 ltac:(lia)).
  pose proof (Z.div_div c 64 64 ltac:(lia) ltac:(lia)) as E1. change (64 * 64) with 4096 in E1.
  pose proof (Z.div_div c 4096 64 ltac:(lia) ltac:(lia)) as E2. change (4096 * 64) with 262144 in E2.
  destruct (Z.ltb_spec c 0x80); [|destruct (Z.ltb_spec c 0x800); [|destruct (Z.ltb_spec c 0x10000)]];
    cbn [String.append utf8_first String.get String.length]; unfold utf8_second, utf8_cont, byte_in;
    rewrite !byte_val_of by lia;
    repeat match goal with |- context [if ?b then _ else _] =>
      lazymatch b with context [if _ then _ else _] => fail | _ => destruct b eqn:?; try lia end end; first [reflexivity|lia].
Qed.

Lemma skip_whole a s : str_skip (String.length a) (a +:+ s) = s.
Proof. induction a as [|c a IH]; [done|]. exact IH. Qed.

Lemma utf8_text_valid cs fuel :
  Forall is_scalar cs -> (String.length (utf8_text cs) <= fuel)%nat -> utf8_valid fuel (utf8_text cs) = true.
Proof.
  intros H. revert fuel. induction H as [|c cs Hc _ IH]; intros fuel; [by destruct fuel|].
  unfold utf8_text. cbn [map concat_bytes]. fold (utf8_text cs). rewrite string_length_app.
  pose proof (utf8_first_char c (utf8_text cs) Hc) as Hf. revert Hf.
  assert (0 < String.length (utf8_char c))%nat as Hpos by (unfold utf8_char; repeat case_match; simpl; lia).
  assert (exists x y, utf8_char c = String x y) as (x & y & Hxy) by (destruct (utf8_char c); [simpl in Hpos; lia|eauto]).
  intros Hf Hle. destruct fuel as [|fuel]; [lia|].
  assert (utf8_char c +:+ utf8_text cs = String x (y +:+ utf8_text cs)) as Hs by (by rewrite Hxy).
  rewrite Hs. cbn [utf8_valid]. rewrite <- Hs, Hf, skip_whole. cbn [andb]. apply IH. lia.
Qed.

Lemma from_utf8_text cs : Forall is_scalar cs -> from_utf8_ok (utf8_text cs) = true.
Proof. intros. by apply utf8_text_valid. Qed.

(** A text does not start with the byte-order marks of UTF-16. *)
Lemma utf8_text_no_bom cs b rest :
  Forall is_scalar cs -> 0xfe <= b <= 0xff -> strip_prefix (String (byte_of b) rest) (utf8_text cs) = None.
Proof.
  intros H Hb. destruct H as [|c cs Hc _]; [done|].
  unfold utf8_text. cbn [map concat_bytes]. unfold is_scalar in Hc.
  assert (exists z y, utf8_char c = String (byte_of z) y /\ 0 <= z < 0xfe) as (z & y & -> & Hz).
  { pose proof (Z.div_mod c 64 ltac:(lia)). pose proof (Z.div_mod c 4096 ltac:(lia)). pose proof (Z.div_mod c 262144 ltac:(lia)).
    pose proof (Z.mod_pos_bound c 64 ltac:(lia)). pose proof (Z.mod_pos_bound c 4096 ltac:(lia)). pose proof (Z.mod_pos_bound c 262144 ltac:(lia)).
    unfold utf8_char. repeat case_match; do 2 eexists; (split; [reflexivity|]); lia. }
  cbn [String.append strip_prefix]. rewrite bool_decide_eq_false_2; [done|].
  intros Heq%(f_equal byte_val). rewrite !byte_val_of in Heq by lia. lia.
Qed.

(** The encoding of a response file does not matter: the same characters
    written as UTF-16 in either byte order, as UTF-8 with a byte-order mark or,
    when they do not begin with that mark, as plain UTF-8, are read as the same
    text, so that the expansion and every key made from it are the same. *)
Theorem encodings_agree (cs : list Z) :
  Forall is_scalar cs ->
  response_file_text (bom [0xff; 0xfe] +:+ utf16_text le_word cs) = Some (utf8_text cs) /\
  response_file_text (bom [0xfe; 0xff] +:+ utf16_text be_word cs) = Some (utf8_text cs) /\
  response_file_text (bom [0xef; 0xbb; 0xbf] +:+ utf8_text cs) = Some (utf8_text cs) /\
  (starts_with (bom [0xef; 0xbb; 0xbf]) (utf8_text cs) = false -> response_file_text (utf8_text cs) = Some (utf8_text cs)).
Proof.
  intros Hcs. pose proof (utf16_units_ok cs Hcs) as Hu. unfold response_file_text, decode_utf16. split_and!.
  - rewrite (proj2 (strip_prefix_Some _ _ (utf16_text le_word cs)) eq_refl). unfold utf16_text.
    rewrite (chunks2_words le_word) by (try done; apply le_word_ok). by apply utf16_decodes.
  - change (strip_prefix (bom [255; 254]) (bom [254; 255] +:+ utf16_text be_word cs)) with (@None bytes). cbv iota.
    rewrite (proj2 (strip_prefix_Some _ _ (utf16_text be_word cs)) eq_refl). unfold utf16_text.
    rewrite (chunks2_words be_word) by (try done; apply be_word_ok). by apply utf16_decodes.
  - change (strip_prefix (bom [255; 254]) (bom [239; 187; 191] +:+ utf8_text cs)) with (@None bytes).
    change (strip_prefix (bom [254; 255]) (bom [239; 187; 191] +:+ utf8_text cs)) with (@None bytes). cbv iota zeta.
    rewrite (proj2 (strip_prefix_Some _ _ (utf8_text cs)) eq_refl). cbn [default]. unfold id. by rewrite from_utf8_text.
  - intros Hb. unfold bom at 1 2. cbn [fold_right]. rewrite !utf8_text_no_bom by (done || lia).
    unfold starts_with in Hb. destruct (strip_prefix (bom [239; 187; 191]) (utf8_text cs)); [done|].
    cbn [default]. by rewrite from_utf8_text.
Qed.

(** ** Witnesses and examples *)

Fixpoint assoc (l : list (bytes * bytes)) (k : bytes) : option bytes :=
  match l with [] => None | (x, v) :: l' => if bool_decide (x = k) then Some v else assoc l' k end.

(** A file system given by its links and its files. *)
Definition demo_fs (links files : list (bytes * bytes)) : FileSystem :=
  let real p := default p (assoc links p) in
  mkFS (fun p => match assoc files (real p) with Some _ => Some (real p) | None => None end) (assoc files).

Lemma assoc_In l k v : assoc l k = Some v -> (k, v) ∈ l.
Proof.
  induction l as [|[x u] l IH]; [done|]. cbn [assoc]. case_bool_decide as Hx; [intros [= ->]; subst; by left|].
  intros H. right. by apply IH.
Qed.

Definition demo_files_ok (files : list (bytes * bytes)) : bool :=
  forallb (fun x => bool_decide (is_Some (path_parent x.1)) && bool_decide (NormalizedPath_new x.1 = x.1)) files.

Lemma demo_root files p : demo_files_ok files = true -> path_parent p = None -> assoc files p = None.
Proof.
  intros Hok Hp. destruct (assoc files p) as [v|] eqn:Ha; [|done]. apply assoc_In in Ha.
  unfold demo_files_ok in Hok. rewrite forallb_forall in Hok.
  specialize (Hok _ (proj1 (list_elem_of_In _ _) Ha)). apply andb_prop in Hok as [Hok _].
  apply bool_decide_eq_true in Hok. cbn [fst] in Hok. rewrite Hp in Hok. by destruct Hok.
Qed.

Lemma demo_world {B3 : Blake3} files : demo_files_ok files = true -> world_ok (mkWorld (demo_fs [] files) (fun _ => None)).
Proof.
  intros Hok. split; cbn; [intros p; by apply demo_root| |done]. intros p c. destruct (assoc files p) as [v|] eqn:Ha; [|done].
  intros [= <-]. pose proof (assoc_In _ _ _ Ha) as Hin. unfold demo_files_ok in Hok. rewrite forallb_forall in Hok.
  specialize (Hok _ (proj1 (list_elem_of_In _ _) Hin)). apply andb_prop in Hok as [_ Hok].
  apply bool_decide_eq_true in Hok. cbn [fst] in Hok. by rewrite Hok, Ha.
Qed.

Lemma demo_names f1 f2 : demo_files_ok f1 = true -> names_stable (demo_fs [] f1) (demo_fs [] f2).
Proof.
  intros Hok p c. cbn. destruct (assoc f1 p) as [v|] eqn:Ha; [|done]. intros [= <-] [u Hu].
  pose proof (assoc_In _ _ _ Ha) as Hin. unfold demo_files_ok in Hok. rewrite forallb_forall in Hok.
  specialize (Hok _ (proj1 (list_elem_of_In _ _) Hin)). apply andb_prop in Hok as [_ Hok].
  apply bool_decide_eq_true in Hok. cbn [fst] in Hok. rewrite Hok in Hu. by rewrite Hu.
Qed.

Lemma gnu_rsp_example :
  gnu_if_safe ["-c"; "a b.c"; "C:\w x"; ""] =
    Some ("-c" +:+ String LF ("'a b.c'" +:+ String LF (String DQ ("C:\\w x" +:+ String DQ (String LF ("''" +:+ String LF "")))))).
Proof. reflexivity. Qed.

Lemma expansion_is_substitution_witness :
  let fs := demo_fs [] [("/b/x.rsp", "-O2 @y.rsp @y.rsp"); ("/b/y.rsp", "-g")] in
  expand_response_files_in fs ["-c"; "@x.rsp"] "/b" = inr ["-c"; "-O2"; "-g"; "-g"] /\
  expand_args fs (expand_file fs MAX_DEPTH) "/b" ["-c"; "@x.rsp"] = Some ["-c"; "-O2"; "-g"; "-g"].
Proof.
  intros fs. assert (expand_response_files_in fs ["-c"; "@x.rsp"] "/b" = inr ["-c"; "-O2"; "-g"; "-g"]) as H by (vm_compute; reflexivity).
  split; [exact H|]. apply (expansion_is_substitution fs); [|exact H].
  intros p. apply demo_root. vm_compute. reflexivity.
Defined.

Lemma encodings_agree_witness :
  response_file_text (bom [0xff; 0xfe] +:+ utf16_text le_word [65; 0x20AC; 0x1F600]) = Some (utf8_text [65; 0x20AC; 0x1F600]).
Proof.
  refine (proj1 (encodings_agree [65; 0x20AC; 0x1F600] _)). repeat (apply List.Forall_cons; [unfold is_scalar; lia|]). apply List.Forall_nil.
Defined.

Definition demo_w1 : World := mkWorld (demo_fs [] [("/b/x.rsp", "-O1")]) (fun _ => None).
Definition demo_w2 : World := mkWorld (demo_fs [] [("/b/x.rsp", "-O2 @y.rsp"); ("/b/y.rsp", "-g")]) (fun _ => None).

Lemma demo_history : history_ok (B3 := toy_blake3) (fun w => w = demo_w1 \/ w = demo_w2).
Proof.
  split.
  - intros w [-> | ->]; apply demo_world; vm_compute; reflexivity.
  - intros w1 w2 [-> | ->] [-> | ->]; apply demo_names; vm_compute; reflexivity.
  - intros w1 w2 p c1 c2 [-> | ->] [-> | ->]; cbn; repeat case_bool_decide; subst; intros [=] [=]; subst; try done;
      intros H; vm_compute in H; discriminate.
Qed.

Lemma cached_expansion_current_witness :
  (expand_args_cached (B3 := toy_blake3) (w_fs demo_w2) (w_lookup demo_w2) 2
     (rsp_run (B3 := toy_blake3) [Request demo_w1 1 ["@x.rsp"] "/b"; TrimAt 5 100]) ["@x.rsp"; "@gone"] "/b").1
  = ["-O2"; "-g"; "@gone"].
Proof.
  rewrite (proj1 (cached_expansion_current (B3 := toy_blake3) (fun w => w = demo_w1 \/ w = demo_w2)
    [Request demo_w1 1 ["@x.rsp"] "/b"; TrimAt 5 100] demo_w2 2 ["@x.rsp"; "@gone"] "/b" demo_history
    ltac:(intros ev w' [->|[->|Hn%elem_of_nil]%elem_of_cons]%elem_of_cons; cbn; [intros ->; by left|done|done]) (or_intror eq_refl))).
  vm_compute. reflexivity.
Defined.

(** What the cache does not follow.  A nested reference goes through a link;
    the link is moved to another file between two requests.  The entry records
    the canonical path of the old target, whose content has not changed, so the
    old expansion is served although the reference now stands for another file,
    whose arguments the uncached expander returns: a request is keyed and parsed
    with the flags of the old target. *)
Theorem rsp_cache_misses_retarget {B3 : Blake3} :
  let files := [("/b/top.rsp", "@cur.rsp"); ("/b/v1.rsp", "-O1"); ("/b/v2.rsp", "-O2")] in
  let before := demo_fs [("/b/cur.rsp", "/b/v1.rsp")] files in
  let after := demo_fs [("/b/cur.rsp", "/b/v2.rsp")] files in
  let cache := rsp_run [Request (mkWorld before (fun _ => None)) 0 ["@top.rsp"] "/b"] in
  (expand_args_cached after (fun _ => None) 1 cache ["@top.rsp"] "/b").1 = ["-O1"] /\
  expand_response_files_in after ["@top.rsp"] "/b" = inr ["-O2"].
Proof.
  intros files before after cache. split; [|vm_compute; reflexivity].
  assert (cache !! ("/b/top.rsp" : NormalizedPath) =
      Some (mkRspEntry ["-O1"] [mkRspDep "/b/top.rsp" (hash_bytes "@cur.rsp"); mkRspDep "/b/v1.rsp" (hash_bytes "-O1")] 0))
    as Hentry by (vm_compute; reflexivity).
  unfold expand_args_cached. cbn [existsb]. change (bool_decide (is_Some (rsp_reference "@top.rsp"))) with true. cbn [orb negb].
  cbn [expand_args_loop]. change (rsp_reference "@top.rsp") with (Some "top.rsp"). cbv iota beta.
  unfold expand_rsp_arg_cached. change (canonicalize after (resolve_rsp "top.rsp" "/b")) with (Some "/b/top.rsp"). cbv iota beta zeta.
  change (NormalizedPath_new "/b/top.rsp") with "/b/top.rsp". rewrite Hentry.
  unfold rsp_fresh. cbn [dependencies forallb dep_path dep_hash].
  rewrite !bool_decide_eq_true_2 by reflexivity. reflexivity.
Qed.
