(* ===== verification/IndexWal.v ===== *)
(** * The artifact index and its write-ahead log

    The index ([zccache-artifact/src/store.rs]) is a map from artifact keys to
    rows, kept in memory and written as one blob.  Publishers send commands to
    one task ([wal.rs]) that collects rows in a second map and moves them into
    the index and onto the disk on a timer, when there are many, on request and at
    shutdown.  The map in memory is also changed directly, by the publication of
    exec results ([handle_exec.rs]) and by the removal of artifacts
    ([disk_maintenance.rs], modelled in [DiskMaintenance]); the state here is what
    the writer's commands make of it.  A blob that cannot be read is rebuilt from
    the payloads ([reconcile.rs], [index_reconcile.rs]).

    Whether a write succeeds is up to the disk: [io n] says it of the [n]-th
    attempt.  Writes are atomic (a temporary file renamed into place), so a failed
    one leaves the old blob.  The blob's encoding is bincode's, of which the code
    relies on reading back what was written. *)

From stdpp Require Import list strings gmap.
From Stdlib Require Import Lia.
From S2P Require Import Prelude.

(** ** Rows *)

Record ArtifactVerdict := mkVerdict { v_stdout : bytes; v_stderr : bytes; v_exit_code : Z }.

Record ArtifactIndex := mkIndex {
  output_names : list bytes;
  output_sizes : list Z;
  ix_stdout : bytes;
  ix_stderr : bytes;
  ix_exit_code : Z;
  total_size : Z;
  stored_at_secs : Z;
  rustc_verdicts : gmap bytes ArtifactVerdict;
  output_modes : list Z
}.

Definition set_stored_at (t : Z) (m : ArtifactIndex) : ArtifactIndex :=
  mkIndex (output_names m) (output_sizes m) (ix_stdout m) (ix_stderr m) (ix_exit_code m) (total_size m) t
    (rustc_verdicts m) (output_modes m).
Definition set_verdicts (v : gmap bytes ArtifactVerdict) (m : ArtifactIndex) : ArtifactIndex :=
  mkIndex (output_names m) (output_sizes m) (ix_stdout m) (ix_stderr m) (ix_exit_code m) (total_size m)
    (stored_at_secs m) v (output_modes m).

Definition u64_sum (l : list Z) : Z := wrap64 (fold_right Z.add 0 l).

Definition ArtifactIndex_new (names : list bytes) (sizes : list Z) (out err : bytes) (exit_code now_secs : Z) : ArtifactIndex :=
  mkIndex names sizes out err exit_code (u64_sum sizes) now_secs ∅ [].

(** The rows of the two earlier formats. *)
Record LegacyVerdictArtifactIndex := mkLegacyVerdict {
  lv_names : list bytes; lv_sizes : list Z; lv_stdout : bytes; lv_stderr : bytes; lv_exit : Z; lv_total : Z; lv_stored : Z;
  lv_verdicts : gmap bytes ArtifactVerdict
}.
Record LegacyArtifactIndex := mkLegacy {
  l_names : list bytes; l_sizes : list Z; l_stdout : bytes; l_stderr : bytes; l_exit : Z; l_total : Z; l_stored : Z
}.
Definition from_legacy_verdict (l : LegacyVerdictArtifactIndex) : ArtifactIndex :=
  mkIndex (lv_names l) (lv_sizes l) (lv_stdout l) (lv_stderr l) (lv_exit l) (lv_total l) (lv_stored l) (lv_verdicts l) [].
Definition from_legacy (l : LegacyArtifactIndex) : ArtifactIndex :=
  mkIndex (l_names l) (l_sizes l) (l_stdout l) (l_stderr l) (l_exit l) (l_total l) (l_stored l) ∅ [].

(** ** The encoding *)

Class Bincode := {
  serialize : list (bytes * ArtifactIndex) -> bytes;
  deserialize : bytes -> option (list (bytes * ArtifactIndex));
  deserialize_verdict : bytes -> option (list (bytes * LegacyVerdictArtifactIndex));
  deserialize_legacy : bytes -> option (list (bytes * LegacyArtifactIndex));
  deserialize_serialize : forall rows, deserialize (serialize rows) = Some rows
}.

Abbreviation Index := (gmap bytes ArtifactIndex).

Section Store.
Context {BC : Bincode}.

Definition decode_index_rows (b : bytes) : option (list (bytes * ArtifactIndex)) :=
  match deserialize b with
  | Some rows => Some rows
  | None =>
      match deserialize_verdict b with
      | Some rows => Some (map (fun r => (r.1, from_legacy_verdict r.2)) rows)
      | None =>
          match deserialize_legacy b with
          | Some rows => Some (map (fun r => (r.1, from_legacy r.2)) rows)
          | None => None
          end
      end
  end.

(** ** The index in memory *)

Record ArtifactStore := mkStore { entries : Index; dirty : bool; started_corrupt : bool }.

Definition open_empty : ArtifactStore := mkStore ∅ false false.

(** [entry(k).or_insert(v)] for every row. *)
Definition fill_holes (rows : list (bytes * ArtifactIndex)) (m : Index) : Index :=
  fold_left (fun m r => match m !! r.1 with Some _ => m | None => <[r.1 := r.2]> m end) rows m.

(** A missing blob is an empty index; one that cannot be decoded is reported. *)
Definition load_from_disk (disk : option bytes) (st : ArtifactStore) : ArtifactStore :=
  match disk with
  | None => st
  | Some b =>
      match decode_index_rows b with
      | Some rows => mkStore (fill_holes rows (entries st)) (dirty st) (started_corrupt st)
      | None => mkStore (entries st) (dirty st) true
      end
  end.
Definition store_open (disk : option bytes) : ArtifactStore := load_from_disk disk open_empty.

Definition take_started_corrupt (st : ArtifactStore) : bool * ArtifactStore :=
  (started_corrupt st, mkStore (entries st) (dirty st) false).
Definition store_take_dirty (st : ArtifactStore) : bool * ArtifactStore :=
  (dirty st, mkStore (entries st) false (started_corrupt st)).

Definition store_insert (k : bytes) (v : ArtifactIndex) (st : ArtifactStore) : ArtifactStore :=
  mkStore (<[k := v]> (entries st)) true (started_corrupt st).
Definition insert_rows (rows : list (bytes * ArtifactIndex)) (m : Index) : Index :=
  fold_left (fun m r => <[r.1 := r.2]> m) rows m.
Definition insert_many (rows : list (bytes * ArtifactIndex)) (st : ArtifactStore) : ArtifactStore :=
  mkStore (insert_rows rows (entries st)) (dirty st || negb (bool_decide (rows = []))) (started_corrupt st).
Definition store_get (k : bytes) (st : ArtifactStore) : option ArtifactIndex := entries st !! k.

Definition delete_keys (keys : list bytes) (m : Index) : Index := fold_left (fun m k => delete k m) keys m.
(** How many of the keys were there, each counted once. *)
Fixpoint count_removed (keys : list bytes) (m : Index) : nat :=
  match keys with
  | [] => 0
  | k :: rest => (match m !! k with Some _ => 1 | None => 0 end + count_removed rest (delete k m))%nat
  end.
Definition remove_batch (keys : list bytes) (st : ArtifactStore) : nat * ArtifactStore :=
  let removed := count_removed keys (entries st) in
  (removed, mkStore (delete_keys keys (entries st)) (dirty st || (0 <? removed)%nat) (started_corrupt st)).
Definition store_clear (st : ArtifactStore) : ArtifactStore :=
  mkStore ∅ (dirty st || negb (bool_decide (entries st = ∅))) (started_corrupt st).

Definition total_size_bytes (st : ArtifactStore) : Z :=
  fold_right (fun r t => Z.min (2 ^ 64 - 1) (total_size r.2 + t)) 0 (map_to_list (entries st)).

(** ** The disk *)

Record IndexState := mkIx { store : ArtifactStore; wal : Index; disk : option bytes; attempts : nat }.

Context (io : nat -> bool).

(** [ArtifactStore::flush]: the flag is cleared first and set again when the
    write fails. *)
Definition store_flush (s : IndexState) : bool * IndexState :=
  if io (attempts s)
  then (true, mkIx (mkStore (entries (store s)) false (started_corrupt (store s))) (wal s)
                (Some (serialize (map_to_list (entries (store s))))) (S (attempts s)))
  else (false, mkIx (mkStore (entries (store s)) true (started_corrupt (store s))) (wal s) (disk s) (S (attempts s))).

Definition flush_wal_to_disk (s : IndexState) : IndexState :=
  if bool_decide (wal s = ∅) then s
  else (store_flush (mkIx (insert_many (map_to_list (wal s)) (store s)) ∅ (disk s) (attempts s))).2.

(** ** Commands *)

Inductive IndexWriterCommand :=
  | Insert (k : bytes) (v : ArtifactIndex)
  | Touch (k : bytes) (t : Z)
  | Remove (keys : list bytes)
  | Clear
  | Flush.

Context (max_pending : nat).

Definition flush_if_full (s : IndexState) : IndexState :=
  if (max_pending <=? size (wal s))%nat then flush_wal_to_disk s else s.

Definition with_wal (w : Index) (s : IndexState) : IndexState := mkIx (store s) w (disk s) (attempts s).
Definition with_store (st : ArtifactStore) (s : IndexState) : IndexState := mkIx st (wal s) (disk s) (attempts s).

Definition touch_row (t : Z) (m : ArtifactIndex) : ArtifactIndex := set_stored_at (Z.max (stored_at_secs m) t) m.

Definition process_index_writer_command (c : IndexWriterCommand) (s : IndexState) : IndexState :=
  match c with
  | Insert k v => flush_if_full (with_wal (<[k := v]> (wal s)) s)
  | Touch k t =>
      let s' := match wal s !! k with
                | Some m => with_wal (<[k := touch_row t m]> (wal s)) s
                | None =>
                    match store_get k (store s) with
                    | Some m => with_wal (<[k := touch_row t m]> (wal s)) s
                    | None => s
                    end
                end in
      flush_if_full s'
  | Remove keys =>
      let s' := with_wal (delete_keys keys (wal s)) s in
      (store_flush (with_store (remove_batch keys (store s')).2 s')).2
  | Clear => (store_flush (with_store (store_clear (store s)) (with_wal ∅ s))).2
  | Flush => flush_wal_to_disk s
  end.

(** ** The writer task: what its race of channel, timer and shutdown delivers *)

Inductive WriterEvent :=
  | Received (first : IndexWriterCommand) (queued : list IndexWriterCommand)
  | Ticked
  | ShutdownSignal (queued : list IndexWriterCommand)
  | Closed.

Definition process_all (cs : list IndexWriterCommand) (s : IndexState) : IndexState :=
  fold_left (fun s c => process_index_writer_command c s) cs s.

Definition run_index_writer_turn (ev : WriterEvent) (s : IndexState) : IndexState :=
  match ev with
  | Received first queued => process_all (first :: queued) s
  | Ticked => if bool_decide (wal s = ∅) then s else flush_wal_to_disk s
  | ShutdownSignal queued => flush_wal_to_disk (process_all queued s)
  | Closed => flush_wal_to_disk s
  end.

(** The task ends with the events that end it. *)
Fixpoint run_index_writer (evs : list WriterEvent) (s : IndexState) : IndexState :=
  match evs with
  | [] => s
  | ev :: rest =>
      let s' := run_index_writer_turn ev s in
      match ev with
      | ShutdownSignal _ | Closed => s'
      | _ => run_index_writer rest s'
      end
  end.

(** [drain_durable_state_for_shutdown], once no publisher is left: the requested
    flush, the end of the task with what is still queued, and the final flush of
    a store that is dirty. *)
Definition drain_durable_state_for_shutdown (queued : list IndexWriterCommand) (s : IndexState) : IndexState :=
  let s := process_all (queued ++ [Flush]) s in
  let s := run_index_writer_turn (ShutdownSignal []) s in
  let '(was_dirty, st) := store_take_dirty (store s) in
  let s := with_store st s in
  if was_dirty then (store_flush s).2 else s.

(** ** Rebuilding an index that cannot be read *)

Definition RECONCILED_OUTPUT_NAME : bytes := "zccache-reconciled-output.zcunknown".
Definition rebuilt_entry (sizes : list Z) (stored_at : Z) : ArtifactIndex :=
  mkIndex [RECONCILED_OUTPUT_NAME] sizes "" "" 0 (u64_sum sizes) (Z.max 0 stored_at) ∅ [].

Record IndexReconciliation := mkRec {
  rec_entries : list (bytes * ArtifactIndex);
  skipped_multi_output : nat;
  skipped_unverifiable : nat;
  truncated_by_budget : bool
}.

(** The loop over the published keys.  [verified] is what the payload layout says
    of a key: the sizes and the time of a verified generation, none, or an error
    (the last two are counted alike); [elapsed n] is the time at the [n]-th key. *)
Fixpoint reconcile_loop (verified : bytes -> option (list Z * Z)) (elapsed : nat -> Z) (budget : Z)
    (n : nat) (keys : list bytes) (r : IndexReconciliation) : IndexReconciliation :=
  match keys with
  | [] => r
  | k :: rest =>
      if budget <=? elapsed n
      then mkRec (rec_entries r) (skipped_multi_output r) (skipped_unverifiable r) true
      else
        reconcile_loop verified elapsed budget (S n) rest
          match verified k with
          | Some (sizes, stored_at) =>
              if negb (length sizes =? 1)%nat
              then mkRec (rec_entries r) (S (skipped_multi_output r)) (skipped_unverifiable r) (truncated_by_budget r)
              else mkRec (rec_entries r ++ [(k, rebuilt_entry sizes stored_at)]) (skipped_multi_output r)
                     (skipped_unverifiable r) (truncated_by_budget r)
          | None => mkRec (rec_entries r) (skipped_multi_output r) (S (skipped_unverifiable r)) (truncated_by_budget r)
          end
  end.

(** [None]: the staged generations cannot be listed. *)
Definition reconcile_index_from_disk (keys : option (list bytes)) (verified : bytes -> option (list Z * Z))
    (elapsed : nat -> Z) (budget : Z) : IndexReconciliation :=
  match keys with
  | None => mkRec [] 0 0 false
  | Some keys => reconcile_loop verified elapsed budget 0 keys (mkRec [] 0 0 false)
  end.

(** Rows are inserted only where there is none. *)
Definition insert_recovered (rows : list (bytes * ArtifactIndex)) (st : ArtifactStore) : nat * ArtifactStore :=
  fold_left (fun acc r => match store_get r.1 acc.2 with
                          | Some _ => acc
                          | None => (S acc.1, store_insert r.1 r.2 acc.2)
                          end) rows (0%nat, st).

Definition reconcile_corrupt_index (outcome : IndexReconciliation) (st : ArtifactStore) : nat * ArtifactStore :=
  let '(corrupt, st) := take_started_corrupt st in
  if negb corrupt then (0%nat, st) else insert_recovered (rec_entries outcome) st.

(** ** Rows with several verdicts ([rustc_index.rs]) *)

Definition merge_rustc_index (preferred fallback : ArtifactIndex) : ArtifactIndex :=
  if bool_decide (output_names preferred = []) && negb (bool_decide (output_names fallback = []))
  then set_stored_at (Z.max (stored_at_secs fallback) (stored_at_secs preferred))
         (set_verdicts (rustc_verdicts preferred ∪ rustc_verdicts fallback) fallback)
  else set_stored_at (Z.max (stored_at_secs preferred) (stored_at_secs fallback))
         (set_verdicts (rustc_verdicts preferred ∪ rustc_verdicts fallback) preferred).
End Store.

(** ** What the commands mean for one map *)

Definition spec_command (m : Index) (c : IndexWriterCommand) : Index :=
  match c with
  | Insert k v => <[k := v]> m
  | Touch k t => match m !! k with Some r => <[k := touch_row t r]> m | None => m end
  | Remove keys => delete_keys keys m
  | Clear => ∅
  | Flush => m
  end.
Definition spec_run (m : Index) (cs : list IndexWriterCommand) : Index := fold_left spec_command cs m.

(** The commands the task has taken from its channel. *)
Fixpoint commands_of (evs : list WriterEvent) : list IndexWriterCommand :=
  match evs with
  | [] => []
  | Received c cs :: rest => c :: cs ++ commands_of rest
  | Ticked :: rest => commands_of rest
  | ShutdownSignal cs :: _ => cs
  | Closed :: _ => []
  end.

Lemma spec_run_app m cs ds : spec_run m (cs ++ ds) = spec_run (spec_run m cs) ds.
Proof. apply fold_left_app. Qed.

Section Proofs.
Context {BC : Bincode}.

(** What a restart finds. *)
Definition durable (d : option bytes) : Index := entries (store_open d).

Lemma insert_rows_union rows (m : Index) : NoDup rows.*1 -> insert_rows rows m = list_to_map rows ∪ m.
Proof.
  revert m. induction rows as [|[k v] rows IH]; intros m Hnd; cbn [insert_rows fold_left].
  - symmetry. apply map_empty_union.
  - apply NoDup_cons in Hnd as [Hk Hnd]. unfold insert_rows in IH. cbn [fst snd]. rewrite IH by done.
    apply not_elem_of_list_to_map_1 in Hk. rewrite list_to_map_cons, <- insert_union_r by done. by rewrite insert_union_l.
Qed.

Lemma fill_holes_union rows (m : Index) : NoDup rows.*1 -> fill_holes rows m = m ∪ list_to_map rows.
Proof.
  revert m. induction rows as [|[k v] rows IH]; intros m Hnd; cbn [fill_holes fold_left].
  - symmetry. apply map_union_empty.
  - apply NoDup_cons in Hnd as [Hk Hnd]. unfold fill_holes in IH. cbn [fst snd]. rewrite IH by done.
    apply not_elem_of_list_to_map_1 in Hk. rewrite list_to_map_cons. destruct (m !! k) as [u|] eqn:Hm.
    + apply map_eq. intros j. rewrite !lookup_union. destruct (decide (j = k)) as [->|Hj].
      * rewrite Hm. by destruct (list_to_map _ !! k), (<[k:=v]> _ !! k).
      * by rewrite lookup_insert_ne.
    + by rewrite <- insert_union_l, insert_union_r.
Qed.

Lemma insert_rows_map (w m : Index) : insert_rows (map_to_list w) m = w ∪ m.
Proof. rewrite insert_rows_union by apply NoDup_fst_map_to_list. by rewrite list_to_map_to_list. Qed.

Lemma durable_written (m : Index) : durable (Some (serialize (map_to_list m))) = m.
Proof.
  unfold durable, store_open, load_from_disk, decode_index_rows. rewrite deserialize_serialize. cbn [entries open_empty].
  rewrite fill_holes_union by apply NoDup_fst_map_to_list. by rewrite list_to_map_to_list, map_empty_union.
Qed.

Lemma delete_keys_lookup keys (m : Index) k : delete_keys keys m !! k = if bool_decide (k ∈ keys) then None else m !! k.
Proof.
  revert m. induction keys as [|j keys IH]; intros m; cbn [delete_keys fold_left]; [done|].
  unfold delete_keys in IH. rewrite IH. destruct (decide (k = j)) as [->|Hkj].
  - rewrite lookup_delete_eq. rewrite (bool_decide_eq_true_2 (j ∈ j :: keys)) by (by left). by case_bool_decide.
  - rewrite lookup_delete_ne by done.
    destruct (bool_decide_reflect (k ∈ keys)) as [Hin|Hin].
    + rewrite bool_decide_eq_true_2; [done|by right].
    + rewrite bool_decide_eq_false_2; [done|]. intros [?|?]%elem_of_cons; done.
Qed.

Lemma delete_keys_union keys (m n : Index) : delete_keys keys (m ∪ n) = delete_keys keys m ∪ delete_keys keys n.
Proof.
  apply map_eq. intros k. rewrite lookup_union, !delete_keys_lookup. case_bool_decide; [done|]. by rewrite lookup_union.
Qed.


Context (io : nat -> bool) (max_pending : nat).
Abbreviation command := (process_index_writer_command io max_pending).

(** The logical index: pending rows over stored ones. *)
Definition view (s : IndexState) : Index := wal s ∪ entries (store s).

(** One atomic effect on index and disk: which of the four shapes a command's
    physical part can take. *)
Definition clean (s : IndexState) : Prop := dirty (store s) = false -> durable (disk s) = entries (store s).

Lemma store_flush_entries s :
  entries (store (store_flush io s).2) = entries (store s) /\ wal (store_flush io s).2 = wal s.
Proof. unfold store_flush. by destruct (io (attempts s)). Qed.

Lemma store_flush_disk s :
  let s' := (store_flush io s).2 in
  attempts s' = S (attempts s) /\
  (if io (attempts s) then durable (disk s') = entries (store s) /\ dirty (store s') = false
   else disk s' = disk s /\ dirty (store s') = true).
Proof. cbv zeta. unfold store_flush. destruct (io (attempts s)); cbn; [by rewrite durable_written|done]. Qed.

Lemma flush_wal_view s : view (flush_wal_to_disk io s) = view s /\ wal (flush_wal_to_disk io s) = ∅.
Proof.
  unfold flush_wal_to_disk, view. case_bool_decide as Hw; [done|].
  destruct (store_flush_entries (mkIx (insert_many (map_to_list (wal s)) (store s)) ∅ (disk s) (attempts s))) as [He Hwl].
  rewrite He, Hwl. cbn. by rewrite insert_rows_map, map_empty_union.
Qed.

Lemma flush_if_full_view s : view (flush_if_full io max_pending s) = view s.
Proof. unfold flush_if_full. case_match; [apply flush_wal_view|done]. Qed.

Lemma command_view c s : view (command c s) = spec_command (view s) c.
Proof.
  destruct c as [k v|k t|keys| |]; cbn [process_index_writer_command spec_command].
  - rewrite flush_if_full_view. unfold view. cbn. by rewrite insert_union_l.
  - rewrite flush_if_full_view. unfold view, store_get. destruct (wal s !! k) as [m|] eqn:Hk.
    + rewrite (lookup_union_Some_l _ _ _ _ Hk). cbn. by rewrite insert_union_l.
    + rewrite lookup_union_r by done. destruct (entries (store s) !! k); [|done]. cbn. by rewrite insert_union_l.
  - unfold view. set (x := with_store _ _). destruct (store_flush_entries x) as [-> ->]. cbn. by rewrite delete_keys_union.
  - unfold view. set (x := with_store _ _). destruct (store_flush_entries x) as [-> ->]. cbn. by rewrite map_union_empty.
  - apply flush_wal_view.
Qed.

Lemma process_all_view cs s : view (process_all io max_pending cs s) = spec_run (view s) cs.
Proof.
  revert s. induction cs as [|c cs IH]; intros s; [done|].
  cbn [process_all fold_left spec_run]. unfold process_all in IH. by rewrite IH, command_view.
Qed.

Lemma tick_view s : view (run_index_writer_turn io max_pending Ticked s) = view s.
Proof. cbn. case_bool_decide; [done|]. apply flush_wal_view. Qed.

Lemma run_view (evs : list WriterEvent) (s : IndexState) :
  view (run_index_writer io max_pending evs s) = spec_run (view s) (commands_of evs).
Proof.
  revert s. induction evs as [|ev evs IH]; intros s; [done|]. cbn [run_index_writer commands_of].
  destruct ev as [c cs| |cs|]; cbn [run_index_writer_turn].
  - rewrite IH, process_all_view. change (c :: cs ++ commands_of evs) with ((c :: cs) ++ commands_of evs). by rewrite spec_run_app.
  - rewrite IH. f_equal. apply tick_view.
  - destruct (flush_wal_view (process_all io max_pending cs s)) as [-> _]. apply process_all_view.
  - by destruct (flush_wal_view s) as [-> _].
Qed.

(** C12: the index writer implements one map.  Whatever interleaving of commands,
    timer ticks, early flushes and shutdown the task sees, and whichever disk
    writes fail, pending rows over stored rows are exactly the map obtained by
    applying the commands taken from the channel in order: an insert replaces, a
    touch only raises the retention time of a row that exists, a removal also
    cancels pending inserts, a clear empties. *)
Theorem wal_refines_map (evs : list WriterEvent) (s : IndexState) :
  view (run_index_writer io max_pending evs s) = spec_run (view s) (commands_of evs).
Proof. apply run_view. Qed.

(** *** What a crash leaves *)

(** The physical part of a command: stored rows only change to what the logical
    index holds, or lose a removed key. *)
Definition settles (s s' : IndexState) : Prop :=
  (forall k, entries (store s') !! k = entries (store s) !! k \/ entries (store s') !! k = view s' !! k) /\
  (disk s' = disk s \/ durable (disk s') = entries (store s')).

Lemma flush_wal_settles s : settles s (flush_wal_to_disk io s).
Proof.
  unfold settles, flush_wal_to_disk, view. case_bool_decide as Hw; [eauto|].
  set (x := mkIx (insert_many _ _) _ _ _). destruct (store_flush_entries x) as [He Hwl]. rewrite He, Hwl. cbn. split.
  - intros k. right. by rewrite map_empty_union.
  - pose proof (store_flush_disk x) as [_ Hd]. destruct (io (attempts x)); [right|left]; by destruct Hd as [-> _].
Qed.

Lemma flush_if_full_settles s s0 :
  store s0 = store s -> disk s0 = disk s -> settles s (flush_if_full io max_pending s0).
Proof.
  intros Hs Hd. unfold flush_if_full. case_match; [|unfold settles; rewrite Hs, Hd; eauto].
  destruct (flush_wal_settles s0) as [A B]. unfold settles. rewrite <- Hs, <- Hd. done.
Qed.

Lemma store_flush_settles s x :
  disk x = disk s -> (forall k, entries (store x) !! k = entries (store s) !! k \/ entries (store x) !! k = view x !! k) ->
  settles s (store_flush io x).2.
Proof.
  intros Hd Hk. unfold settles, view in *. destruct (store_flush_entries x) as [He Hw]. rewrite He, Hw. split; [done|].
  pose proof (store_flush_disk x) as [_ H]. destruct (io (attempts x)); [right; by destruct H as [-> _]|left; by destruct H as [-> _]].
Qed.

Lemma command_settles c s : settles s (command c s).
Proof.
  destruct c as [k v|k t|keys| |]; cbn [process_index_writer_command].
  - by apply flush_if_full_settles.
  - apply flush_if_full_settles; by repeat case_match.
  - apply store_flush_settles; [done|]. intros k. unfold view. cbn. rewrite lookup_union, !delete_keys_lookup.
    case_bool_decide; [by right|by left].
  - apply store_flush_settles; [done|]. intros k. right. unfold view. cbn. by rewrite map_empty_union.
  - apply flush_wal_settles.
Qed.

(** Every row of [m] is the row some prefix of the commands gave its key. *)
Definition past_rows (m0 : Index) (cs : list IndexWriterCommand) (m : Index) : Prop :=
  forall k, exists before, before `prefix_of` cs /\ m !! k = spec_run m0 before !! k.

Lemma past_rows_mono m0 cs ds m : cs `prefix_of` ds -> past_rows m0 cs m -> past_rows m0 ds m.
Proof. intros Hp H k. destruct (H k) as (b & Hb & Hk). exists b. split; [by trans cs|done]. Qed.

Lemma settles_past m0 cs s s' :
  settles s s' -> view s' = spec_run m0 cs -> past_rows m0 cs (entries (store s)) -> past_rows m0 cs (durable (disk s)) ->
  past_rows m0 cs (entries (store s')) /\ past_rows m0 cs (durable (disk s')).
Proof.
  intros [He Hd] Hv H1 H2. assert (past_rows m0 cs (entries (store s'))) as H3.
  { intros k. destruct (He k) as [-> | ->]; [apply H1|]. exists cs. by rewrite Hv. }
  split; [done|]. by destruct Hd as [-> | ->].
Qed.

Definition crash_inv (m0 : Index) (cs : list IndexWriterCommand) (s : IndexState) : Prop :=
  view s = spec_run m0 cs /\ past_rows m0 cs (entries (store s)) /\ past_rows m0 cs (durable (disk s)).

Lemma settles_inv m0 cs ds s s' :
  cs `prefix_of` ds -> settles s s' -> view s' = spec_run m0 ds -> crash_inv m0 cs s -> crash_inv m0 ds s'.
Proof.
  intros Hp Hs Hv (_ & H1 & H2). split; [done|].
  apply (settles_past m0 ds s); [done..| |]; by apply (past_rows_mono _ cs).
Qed.

Lemma process_all_inv m0 cs ds s : crash_inv m0 cs s -> crash_inv m0 (cs ++ ds) (process_all io max_pending ds s).
Proof.
  revert cs s. induction ds as [|d ds IH]; intros cs s H; [by rewrite app_nil_r|].
  cbn [process_all fold_left]. replace (cs ++ d :: ds) with ((cs ++ [d]) ++ ds) by (by rewrite <- app_assoc).
  apply IH. apply (settles_inv m0 cs _ s); [by exists [d]|apply command_settles| |done].
  rewrite command_view, spec_run_app. by destruct H as [-> _].
Qed.

Lemma flush_wal_inv m0 cs s : crash_inv m0 cs s -> crash_inv m0 cs (flush_wal_to_disk io s).
Proof.
  intros H. apply (settles_inv m0 cs cs s); [done|apply flush_wal_settles| |done].
  destruct (flush_wal_view s) as [-> _]. apply H.
Qed.

Lemma run_inv m0 cs evs s :
  crash_inv m0 cs s -> crash_inv m0 (cs ++ commands_of evs) (run_index_writer io max_pending evs s).
Proof.
  revert cs s. induction evs as [|ev evs IH]; intros cs s H; [by rewrite app_nil_r|].
  cbn [run_index_writer commands_of]. destruct ev as [c ds| |ds|]; cbn [run_index_writer_turn].
  - replace (cs ++ c :: ds ++ commands_of evs) with ((cs ++ c :: ds) ++ commands_of evs) by (by rewrite <- app_assoc).
    apply IH. by apply process_all_inv.
  - apply IH. case_bool_decide; [done|]. by apply flush_wal_inv.
  - by apply flush_wal_inv, process_all_inv.
  - rewrite app_nil_r. by apply flush_wal_inv.
Qed.

(** The writer's state after the index was read.  The daemon starts from an empty
    index and reads the blob later; this is the state from there on. *)
Definition opened (d : option bytes) : IndexState := mkIx (store_open d) ∅ d 0.

Lemma opened_view d : view (opened d) = durable d.
Proof. unfold view, opened. cbn. by rewrite map_empty_union. Qed.

(** C20: what a crash can lose.  Stop the daemon at any moment, with any disk
    writes having failed: every row the next start reads is the row its key had,
    or its absence, after some of the commands that were sent, never a row that
    was not there and never a mixture; only the newest commands of a key can be
    missing. *)
Theorem crash_leaves_past_rows (d : option bytes) (evs : list WriterEvent) (k : bytes) :
  let s := run_index_writer io max_pending evs (opened d) in
  exists before, before `prefix_of` commands_of evs /\
    entries (store_open (disk s)) !! k = spec_run (durable d) before !! k.
Proof.
  intros s. assert (crash_inv (durable d) [] (opened d)) as H.
  { split; [apply opened_view|]. split; intros j; exists []; done. }
  apply (run_inv _ [] evs) in H as (_ & _ & H). apply H.
Qed.

(** *** Shutdown *)

Lemma store_flush_clean s : clean (store_flush io s).2.
Proof.
  unfold clean. destruct (store_flush_entries s) as [-> _]. pose proof (store_flush_disk s) as [_ H].
  destruct (io (attempts s)); destruct H as [H1 H2]; [done|congruence].
Qed.

Lemma flush_wal_clean s : clean s -> clean (flush_wal_to_disk io s).
Proof. intros H. unfold flush_wal_to_disk. case_bool_decide; [done|]. apply store_flush_clean. Qed.

Lemma command_clean c s : clean s -> clean (command c s).
Proof.
  intros H. destruct c as [k v|k t|keys| |]; cbn [process_index_writer_command].
  - unfold flush_if_full. case_match; [by apply flush_wal_clean|done].
  - unfold flush_if_full. repeat case_match; try (by apply flush_wal_clean); done.
  - apply store_flush_clean.
  - apply store_flush_clean.
  - by apply flush_wal_clean.
Qed.

Lemma process_all_clean cs s : clean s -> clean (process_all io max_pending cs s).
Proof.
  revert s. induction cs as [|c cs IH]; intros s H; [done|]. cbn [process_all fold_left].
  apply IH. by apply command_clean.
Qed.

Lemma run_clean evs s : clean s -> clean (run_index_writer io max_pending evs s).
Proof.
  revert s. induction evs as [|ev evs IH]; intros s H; [done|]. cbn [run_index_writer].
  destruct ev as [c cs| |cs|]; cbn [run_index_writer_turn].
  - by apply IH, process_all_clean.
  - apply IH. case_bool_decide; [done|]. by apply flush_wal_clean.
  - by apply flush_wal_clean, process_all_clean.
  - by apply flush_wal_clean.
Qed.

(** A graceful shutdown makes everything durable.  After any life of the
    writer, including failed flushes, whose rows stay in memory and keep the
    store marked dirty, the shutdown drain leaves on disk exactly the map of all
    commands ever sent, unless the very last write of the drain fails. *)
Theorem shutdown_persists (d : option bytes) (evs : list WriterEvent) (queued : list IndexWriterCommand) :
  let s := drain_durable_state_for_shutdown io max_pending queued (run_index_writer io max_pending evs (opened d)) in
  (exists n, attempts s = S n /\ io n = false) \/
  entries (store_open (disk s)) = spec_run (durable d) (commands_of evs ++ queued).
Proof.
  intros s. subst s. unfold drain_durable_state_for_shutdown. set (s0 := run_index_writer _ _ evs (opened d)).
  assert (clean s0) as Hc0 by (apply run_clean; by intros _).
  assert (view s0 = spec_run (durable d) (commands_of evs)) as Hv0 by (by unfold s0; rewrite run_view, opened_view).
  set (s1 := process_all io max_pending (queued ++ [Flush]) s0).
  assert (clean s1) as Hc1 by (by apply process_all_clean).
  assert (view s1 = spec_run (durable d) (commands_of evs ++ queued)) as Hv1.
  { unfold s1. rewrite process_all_view, Hv0, !spec_run_app. done. }
  cbn [run_index_writer_turn process_all fold_left]. set (s2 := flush_wal_to_disk io s1).
  assert (clean s2) as Hc2 by (by apply flush_wal_clean).
  destruct (flush_wal_view s1) as [Hv2 Hw2]. fold s2 in Hv2, Hw2.
  assert (entries (store s2) = spec_run (durable d) (commands_of evs ++ queued)) as He.
  { rewrite <- Hv1, <- Hv2. unfold view. by rewrite Hw2, map_empty_union. }
  cbn [store_take_dirty]. destruct (dirty (store s2)) eqn:Hd.
  - set (x := with_store _ s2). pose proof (store_flush_disk x) as [Ha H]. destruct (io (attempts x)) eqn:Hio.
    + right. destruct H as [H _]. rewrite <- He. exact H.
    + left. exists (attempts x). done.
  - right. rewrite <- He. by apply Hc2.
Qed.

Lemma load_written m d c : entries (load_from_disk (Some (serialize (map_to_list m))) (mkStore m d c)) = m.
Proof.
  unfold load_from_disk, decode_index_rows. rewrite deserialize_serialize. cbn [entries].
  rewrite fill_holes_union by apply NoDup_fst_map_to_list. rewrite list_to_map_to_list. apply map_union_idemp.
Qed.

(** Nothing orders the writer after the deferred read of the index.  While
    the store still has the empty map it was created with, a flush of one new
    row, or a removal, replaces the whole blob: every row that was on disk is
    gone, for the later read too. *)
Theorem flush_before_load_drops (m : Index) (k : bytes) (v : ArtifactIndex) (keys : list bytes) :
  io 0 = true -> (1 < max_pending)%nat ->
  let unread := mkIx open_empty ∅ (Some (serialize (map_to_list m))) 0 in
  let flushed := process_all io max_pending [Insert k v; Flush] unread in
  let removed := command (Remove keys) unread in
  entries (load_from_disk (disk flushed) (store flushed)) = {[k := v]} /\
  entries (load_from_disk (disk removed) (store removed)) = ∅.
Proof.
  intros Hio Hmax unread flushed removed. split.
  - unfold flushed. cbn [process_all fold_left].
    assert (command (Insert k v) unread = with_wal {[k := v]} unread) as ->.
    { cbn [process_index_writer_command]. unfold flush_if_full. cbn [wal with_wal unread].
      rewrite (proj2 (Nat.leb_gt _ _)); [done|]. by rewrite insert_empty, map_size_singleton. }
    cbn [process_index_writer_command]. unfold flush_wal_to_disk. rewrite bool_decide_eq_false_2 by apply map_non_empty_singleton.
    unfold store_flush. cbn. rewrite Hio. cbn [store disk snd]. rewrite load_written. cbn.
    by rewrite insert_rows_map, map_union_empty.
  - unfold removed. cbn [process_index_writer_command]. unfold store_flush. cbn. rewrite Hio. cbn [store disk snd].
    rewrite load_written. cbn. apply map_eq. intros j. rewrite delete_keys_lookup, lookup_empty. by case_bool_decide.
Qed.
End Proofs.

(** ** Rebuilding and merging *)

Lemma insert_recovered_keeps rows n st k v :
  entries st !! k = Some v ->
  entries (fold_left (fun acc r => match store_get r.1 acc.2 with
                                   | Some _ => acc
                                   | None => (S acc.1, store_insert r.1 r.2 acc.2)
                                   end) rows (n, st)).2 !! k = Some v.
Proof.
  revert n st. induction rows as [|[j u] rows IH]; intros n st H; [done|]. cbn [fold_left fst snd].
  change (store_get j st) with (entries st !! j). destruct (entries st !! j) eqn:Hj; [by apply IH|]. apply IH. cbn.
  rewrite lookup_insert_ne by congruence. done.
Qed.

Lemma reconcile_loop_rows verified elapsed budget n keys r k v :
  (k, v) ∈ rec_entries (reconcile_loop verified elapsed budget n keys r) ->
  (k, v) ∈ rec_entries r \/
  (k ∈ keys /\ exists size stored_at, verified k = Some ([size], stored_at) /\ v = rebuilt_entry [size] stored_at).
Proof.
  revert n r. induction keys as [|j keys IH]; intros n r; cbn [reconcile_loop]; [by left|].
  destruct (budget <=? elapsed n); [by left|].
  intros [H|(Hk & H)]%IH; [|right; split; [by right|done]]. revert H.
  destruct (verified j) as [[sizes t]|] eqn:Hv; [|by left].
  destruct sizes as [|z [|z' sizes]]; cbn [length Nat.eqb negb rec_entries]; [by left| |by left].
  intros [H|H%list_elem_of_singleton]%elem_of_app; [by left|]. right. injection H as -> ->. split; [by left|eauto].
Qed.

(** Reconciliation never replaces a row, and what it adds has one output of the
    verified size and a name no request asks for. *)
Theorem reconciliation_conservative keys verified elapsed budget (st : ArtifactStore) (k : bytes) (v : ArtifactIndex) :
  let outcome := reconcile_index_from_disk keys verified elapsed budget in
  (entries st !! k = Some v -> entries (reconcile_corrupt_index outcome st).2 !! k = Some v) /\
  ((k, v) ∈ rec_entries outcome ->
     exists size stored_at, verified k = Some ([size], stored_at) /\ output_names v = [RECONCILED_OUTPUT_NAME] /\
       output_sizes v = [size] /\ ix_exit_code v = 0).
Proof.
  intros outcome. split.
  - intros H. unfold reconcile_corrupt_index. cbn [take_started_corrupt]. destruct (started_corrupt st); cbn [negb]; [|done].
    by apply insert_recovered_keeps.
  - unfold outcome, reconcile_index_from_disk. destruct keys as [keys|]; [|by intros Hn%elem_of_nil].
    intros [Hn%elem_of_nil|(_ & size & t & Hv & ->)]%reconcile_loop_rows; [done|]. exists size, t. done.
Qed.

(** Merging two rows of one key keeps every verdict, the current request's
    first, keeps outputs when either row has them, and never shortens retention. *)
Theorem merge_keeps_verdicts (preferred fallback : ArtifactIndex) :
  let m := merge_rustc_index preferred fallback in
  (forall key, rustc_verdicts m !! key =
     match rustc_verdicts preferred !! key with Some v => Some v | None => rustc_verdicts fallback !! key end) /\
  (output_names m = [] <-> output_names preferred = [] /\ output_names fallback = []) /\
  stored_at_secs m = Z.max (stored_at_secs preferred) (stored_at_secs fallback).
Proof.
  unfold merge_rustc_index. destruct (bool_decide_reflect (output_names preferred = [])) as [Hp|Hp],
    (bool_decide_reflect (output_names fallback = [])) as [Hf|Hf]; cbn; split_and!; try lia; try tauto;
    intros key; rewrite lookup_union; by destruct (rustc_verdicts preferred !! key), (rustc_verdicts fallback !! key).
Qed.

(** ** A concrete encoding, and examples *)

#[global] Instance verdict_eq_dec : EqDecision ArtifactVerdict.
Proof. solve_decision. Defined.
#[global] Instance verdict_countable : Countable ArtifactVerdict.
Proof.
  refine (inj_countable' (fun v => (v_stdout v, v_stderr v, v_exit_code v)) (fun t => mkVerdict t.1.1 t.1.2 t.2) _).
  by intros [].
Defined.
#[global] Instance index_eq_dec : EqDecision ArtifactIndex.
Proof. solve_decision. Defined.
#[global] Instance index_countable : Countable ArtifactIndex.
Proof.
  refine (inj_countable'
    (fun i => (output_names i, output_sizes i, ix_stdout i, ix_stderr i, ix_exit_code i, total_size i, stored_at_secs i,
               rustc_verdicts i, output_modes i))
    (fun t => let '(a, b, c, d, e, f, g, h, i) := t in mkIndex a b c d e f g h i) _).
  by intros [].
Defined.

(** The binary digits of a positive number as text. *)
Fixpoint bits (p : positive) : bytes :=
  match p with xH => "" | xO q => String "0" (bits q) | xI q => String "1" (bits q) end.
Fixpoint of_bits (s : bytes) : positive :=
  match s with
  | EmptyString => xH
  | String c s' => if bool_decide (c = "0"%char) then xO (of_bits s') else xI (of_bits s')
  end.
Lemma of_bits_bits p : of_bits (bits p) = p.
Proof. induction p as [p IH|p IH|]; cbn; by rewrite ?IH. Qed.

Definition toy_bincode : Bincode.
Proof.
  refine {| serialize := fun rows => bits (encode rows); deserialize := fun b => decode (of_bits b);
            deserialize_verdict := fun _ => None; deserialize_legacy := fun _ => None |}.
  intros rows. by rewrite of_bits_bits, decode_encode.
Defined.

Definition demo_row (t : Z) : ArtifactIndex := ArtifactIndex_new ["a.o"] [4] "" "" 0 t.

Lemma flush_before_load_drops_witness :
  let unread := mkIx open_empty ∅ (Some (serialize (Bincode := toy_bincode) (map_to_list {["old" := demo_row 1]}))) 0 in
  let s := process_all (BC := toy_bincode) (fun _ => true) 2048 [Insert "new" (demo_row 2); Flush] unread in
  entries (load_from_disk (BC := toy_bincode) (disk s) (store s)) = {["new" := demo_row 2]}.
Proof.
  intros unread s.
  exact (proj1 (flush_before_load_drops (BC := toy_bincode) (fun _ => true) 2048 {["old" := demo_row 1]} "new" (demo_row 2) []
    eq_refl ltac:(lia))).
Defined.

(** The first flush fails; the shutdown writes its rows all the same. *)
Lemma shutdown_persists_witness :
  let io n := negb (Nat.eqb n 0) in
  let s := drain_durable_state_for_shutdown (BC := toy_bincode) io 2 [Touch "a" 9]
             (run_index_writer (BC := toy_bincode) io 2 [Received (Insert "a" (demo_row 1)) [Insert "b" (demo_row 2)]; Ticked]
                (opened (BC := toy_bincode) None)) in
  entries (store_open (BC := toy_bincode) (disk s)) !! "a" = Some (demo_row 9) /\ attempts s = 2%nat.
Proof.
  intros io s. pose proof (shutdown_persists (BC := toy_bincode) io 2 None
    [Received (Insert "a" (demo_row 1)) [Insert "b" (demo_row 2)]; Ticked] [Touch "a" 9]) as H. fold s in H.
  assert (attempts s = 2%nat) as Ha by (vm_compute; reflexivity). split; [|exact Ha].
  destruct H as [(n & Hn & Hio)|H].
  - rewrite Ha in Hn. injection Hn as <-. discriminate Hio.
  - transitivity (spec_run (durable (BC := toy_bincode) None)
      (commands_of [Received (Insert "a" (demo_row 1)) [Insert "b" (demo_row 2)]; Ticked] ++ [Touch "a" 9]) !! "a").
    + by rewrite H.
    + vm_compute. reflexivity.
Defined.

Lemma crash_leaves_past_rows_witness :
  let s := run_index_writer (BC := toy_bincode) (fun _ => true) 10
             [Received (Insert "a" (demo_row 1)) []; Ticked; Received (Insert "a" (demo_row 2)) []] (opened (BC := toy_bincode) None) in
  entries (store_open (BC := toy_bincode) (disk s)) !! "a" = Some (demo_row 1) /\
  exists before, before `prefix_of` [Insert "a" (demo_row 1); Insert "a" (demo_row 2)] /\
    Some (demo_row 1) = spec_run ∅ before !! "a".
Proof.
  intros s.
  assert (entries (store_open (BC := toy_bincode) (disk s)) !! "a" = Some (demo_row 1)) as Hs by (vm_compute; reflexivity).
  split; [exact Hs|]. rewrite <- Hs.
  exact (crash_leaves_past_rows (BC := toy_bincode) (fun _ => true) 10 None
    [Received (Insert "a" (demo_row 1)) []; Ticked; Received (Insert "a" (demo_row 2)) []] "a").
Defined.

Lemma wal_refines_map_witness :
  view (run_index_writer (BC := toy_bincode) (fun _ => false) 2
          [Received (Insert "a" (demo_row 1)) [Insert "b" (demo_row 2); Remove ["a"]]] (opened (BC := toy_bincode) None)) !! "b"
  = Some (demo_row 2).
Proof.
  rewrite (wal_refines_map (BC := toy_bincode) (fun _ => false) 2). vm_compute. reflexivity.
Defined.
