(* ===== verification/WireMessages.v ===== *)
(** * The messages of the daemon's protocol ([zccache-protocol])

    The requests and responses as the programs use them ([messages/]), the
    messages of the schema they are sent as ([proto/zccache_v1.proto], here with
    the prefix [Pb]; a singular field of message type may be absent, as in the
    generated code), and the conversions between them ([wire_prost/convert.rs],
    [request.rs], [response.rs], [api.rs]).  Integers keep the values they have
    in the source's types; conversions do not compute with them, except that a
    count of [usize] is bounded by 64 bits on every platform considered here. *)

From stdpp Require Import list strings gmap.
From Stdlib Require Import Lia.
From S2P Require Import Prelude Path RustStr.

(** ** The schema *)

Record PbEmpty := mkPbEmpty {}.
Record PbPath := mkPbPath { p_value : bytes }.
Record PbEnvVar := mkPbEnvVar { ev_name : bytes; ev_value : bytes }.
Record PbLookup := mkPbLookup { l_cache_key : bytes }.
Inductive PbArtifactPayloadBody :=
  | PbAP_bytes (body : bytes)
  | PbAP_path (body : PbPath).
Record PbArtifactPayload := mkPbArtifactPayload { ap_body : option PbArtifactPayloadBody }.
Record PbArtifactOutput := mkPbArtifactOutput { ao_name : bytes; ao_payload : option PbArtifactPayload }.
Record PbArtifactData := mkPbArtifactData {
  ad_outputs : list PbArtifactOutput; ad_stdout : bytes; ad_stderr : bytes; ad_exit_code : Z
}.
Record PbStore := mkPbStore { s_cache_key : bytes; s_artifact : option PbArtifactData }.
Record PbPrivateDaemonSessionOptions := mkPbPrivateDaemonSessionOptions {
  pdso_daemon_name : option bytes; pdso_endpoint : option bytes; pdso_cache_dir : option PbPath;
  pdso_owner_pids : list Z; pdso_env : list PbEnvVar
}.
Record PbSessionStart := mkPbSessionStart {
  ss_client_pid : Z; ss_working_dir : option PbPath; ss_log_file : option PbPath; ss_track_stats : bool;
  ss_journal_path : option PbPath; ss_profile : bool; ss_private_daemon : option PbPrivateDaemonSessionOptions
}.
Record PbCompile := mkPbCompile {
  c_session_id : bytes; c_args : list bytes; c_cwd : option PbPath; c_compiler : option PbPath;
  c_env : list PbEnvVar; c_env_is_set : bool; c_stdin : bytes
}.
Record PbSessionEnd := mkPbSessionEnd { se_session_id : bytes }.
Record PbCompileEphemeral := mkPbCompileEphemeral {
  ce_client_pid : Z; ce_working_dir : option PbPath; ce_compiler : option PbPath; ce_args : list bytes;
  ce_cwd : option PbPath; ce_env : list PbEnvVar; ce_env_is_set : bool; ce_stdin : bytes
}.
Record PbLinkEphemeral := mkPbLinkEphemeral {
  le_client_pid : Z; le_tool : option PbPath; le_args : list bytes; le_cwd : option PbPath;
  le_env : list PbEnvVar; le_env_is_set : bool
}.
Record PbSessionStatsRequest := mkPbSessionStatsRequest { ssr_session_id : bytes }.
Record PbFingerprintCheck := mkPbFingerprintCheck {
  fc_cache_file : option PbPath; fc_cache_type : bytes; fc_root : option PbPath; fc_extensions : list bytes;
  fc_include_globs : list bytes; fc_exclude : list bytes
}.
Record PbFingerprintMarkSuccess := mkPbFingerprintMarkSuccess { fms_cache_file : option PbPath }.
Record PbFingerprintMarkFailure := mkPbFingerprintMarkFailure { fmf_cache_file : option PbPath }.
Record PbFingerprintInvalidate := mkPbFingerprintInvalidate { fi_cache_file : option PbPath }.
Record PbExecOutputStreams := mkPbExecOutputStreams { eos_stdout : bool; eos_stderr : bool }.
Record PbGenericToolExec := mkPbGenericToolExec {
  gte_tool : option PbPath; gte_args : list bytes; gte_cwd : option PbPath; gte_env : list PbEnvVar;
  gte_input_files : list PbPath; gte_input_extra : bytes; gte_output_streams : option PbExecOutputStreams;
  gte_output_files : list PbPath; gte_tool_hash : option bytes; gte_cache_policy : Z; gte_cwd_in_key : bool;
  gte_include_scan_files : list PbPath; gte_include_dirs : list PbPath; gte_system_include_dirs : list PbPath;
  gte_iquote_dirs : list PbPath; gte_depfile : option PbPath; gte_non_deterministic : bool;
  gte_key_args_filter : list bytes
}.
Record PbReleaseWorktreeHandles := mkPbReleaseWorktreeHandles { rwh_path : option PbPath }.
Record PbExecProbe := mkPbExecProbe {
  ep_name : bytes; ep_input_files : list PbPath; ep_input_env : list PbEnvVar; ep_input_extra : bytes
}.
Record PbExecStore := mkPbExecStore { es_cache_key_hex : bytes; es_result_bytes : bytes }.
Inductive PbRequestBody :=
  | PbR_ping (body : PbEmpty)
  | PbR_shutdown (body : PbEmpty)
  | PbR_status (body : PbEmpty)
  | PbR_lookup (body : PbLookup)
  | PbR_store (body : PbStore)
  | PbR_session_start (body : PbSessionStart)
  | PbR_compile (body : PbCompile)
  | PbR_session_end (body : PbSessionEnd)
  | PbR_clear (body : PbEmpty)
  | PbR_compile_ephemeral (body : PbCompileEphemeral)
  | PbR_link_ephemeral (body : PbLinkEphemeral)
  | PbR_session_stats (body : PbSessionStatsRequest)
  | PbR_fingerprint_check (body : PbFingerprintCheck)
  | PbR_fingerprint_mark_success (body : PbFingerprintMarkSuccess)
  | PbR_fingerprint_mark_failure (body : PbFingerprintMarkFailure)
  | PbR_fingerprint_invalidate (body : PbFingerprintInvalidate)
  | PbR_list_rust_artifacts (body : PbEmpty)
  | PbR_generic_tool_exec (body : PbGenericToolExec)
  | PbR_release_worktree_handles (body : PbReleaseWorktreeHandles)
  | PbR_exec_probe (body : PbExecProbe)
  | PbR_exec_store (body : PbExecStore).
Record PbRequest := mkPbRequest { r_body : option PbRequestBody; r_request_id : bytes }.
Inductive PbLookupResultBody :=
  | PbLR_hit (body : PbArtifactData)
  | PbLR_miss (body : PbEmpty).
Record PbLookupResult := mkPbLookupResult { lr_body : option PbLookupResultBody }.
Record PbStoreResult := mkPbStoreResult { sr_kind : Z }.
Record PbMaterializationStatus := mkPbMaterializationStatus {
  ms_mode : bytes; ms_reflink : Z; ms_hardlink : Z; ms_copy : Z; ms_reflink_fallbacks : Z
}.
Record PbPrivateDaemonOwnerStatus := mkPbPrivateDaemonOwnerStatus { pdos_pid : Z; pdos_ref_count : Z }.
Record PbPrivateDaemonStatus := mkPbPrivateDaemonStatus {
  pds_enabled : bool; pds_owners : list PbPrivateDaemonOwnerStatus; pds_private_env_keys : list bytes
}.
Record PbDaemonStatus := mkPbDaemonStatus {
  ds_version : bytes; ds_daemon_namespace : bytes; ds_endpoint : bytes;
  ds_private_daemon : option PbPrivateDaemonStatus; ds_artifact_count : Z; ds_cache_size_bytes : Z;
  ds_metadata_entries : Z; ds_uptime_secs : Z; ds_cache_hits : Z; ds_cache_misses : Z; ds_total_compilations : Z;
  ds_non_cacheable : Z; ds_compile_errors : Z; ds_compile_errors_cached : Z; ds_time_saved_ms : Z;
  ds_total_links : Z; ds_link_hits : Z; ds_link_misses : Z; ds_link_non_cacheable : Z; ds_dep_graph_contexts : Z;
  ds_dep_graph_files : Z; ds_sessions_total : Z; ds_sessions_active : Z; ds_cache_dir : option PbPath;
  ds_dep_graph_version : Z; ds_dep_graph_disk_size : Z; ds_dep_graph_persisted : bool; ds_watcher_active : bool;
  ds_watcher_degradations : Z; ds_index_writer_gone : bool; ds_materialization : option PbMaterializationStatus
}.
Record PbSessionStarted := mkPbSessionStarted { ssd_session_id : bytes; ssd_journal_path : option PbPath }.
Record PbCompileResult := mkPbCompileResult {
  cr_exit_code : Z; cr_stdout : bytes; cr_stderr : bytes; cr_cached : bool
}.
Record PbLookupOutcomes := mkPbLookupOutcomes {
  lo_depgraph_hit_artifact_hit : Z; lo_depgraph_hit_artifact_miss : Z; lo_depgraph_cold_skip : Z;
  lo_depgraph_other_miss : gmap bytes Z
}.
Record PbStagedProfileSummary := mkPbStagedProfileSummary {
  sps_counters : gmap bytes Z; sps_timings_ns : gmap bytes Z; sps_bytes : gmap bytes Z;
  sps_failures : gmap bytes Z
}.
Record PbPhaseProfileSummary := mkPbPhaseProfileSummary {
  pps_hit_count : Z; pps_miss_count : Z; pps_parse_args_ns : Z; pps_build_context_ns : Z; pps_hash_source_ns : Z;
  pps_hash_headers_ns : Z; pps_depgraph_check_ns : Z; pps_request_cache_lookup_ns : Z;
  pps_cross_root_validate_ns : Z; pps_artifact_lookup_ns : Z; pps_write_output_ns : Z; pps_bookkeeping_ns : Z;
  pps_total_hit_ns : Z; pps_compiler_exec_ns : Z; pps_include_scan_ns : Z; pps_hash_all_ns : Z;
  pps_artifact_store_ns : Z; pps_total_miss_ns : Z; pps_staged : option PbStagedProfileSummary
}.
Record PbSessionStats := mkPbSessionStats {
  sst_duration_ms : Z; sst_compilations : Z; sst_hits : Z; sst_misses : Z; sst_non_cacheable : Z; sst_errors : Z;
  sst_errors_cached : Z; sst_time_saved_ms : Z; sst_unique_sources : Z; sst_bytes_read : Z; sst_bytes_written : Z;
  sst_phase_profile : option PbPhaseProfileSummary; sst_lookup_outcomes : option PbLookupOutcomes
}.
Record PbSessionEnded := mkPbSessionEnded { sed_stats : option PbSessionStats }.
Record PbLinkResult := mkPbLinkResult {
  lrt_exit_code : Z; lrt_stdout : bytes; lrt_stderr : bytes; lrt_cached : bool; lrt_warning : option bytes
}.
Record PbError := mkPbError { er_message : bytes }.
Record PbCleared := mkPbCleared {
  cd_artifacts_removed : Z; cd_metadata_cleared : Z; cd_dep_graph_contexts_cleared : Z; cd_on_disk_bytes_freed : Z
}.
Record PbSessionStatsResult := mkPbSessionStatsResult { ssrt_stats : option PbSessionStats }.
Record PbFingerprintCheckResult := mkPbFingerprintCheckResult {
  fcr_decision : bytes; fcr_reason : option bytes; fcr_changed_files : list bytes
}.
Record PbRustArtifactInfo := mkPbRustArtifactInfo {
  rai_cache_key : bytes; rai_output_names : list bytes; rai_payload_count : Z
}.
Record PbRustArtifactList := mkPbRustArtifactList { ral_artifacts : list PbRustArtifactInfo }.
Record PbGenericToolExecResult := mkPbGenericToolExecResult {
  gter_exit_code : Z; gter_stdout : bytes; gter_stderr : bytes; gter_output_files : list PbArtifactOutput;
  gter_cached : bool; gter_cache_key_hex : bytes
}.
Record PbBackpressure := mkPbBackpressure { b_queue_depth : Z; b_retry_after_ms : Z; b_reason : bytes }.
Record PbCompileProgress := mkPbCompileProgress {
  cp_queue_position : Z; cp_queue_depth : Z; cp_in_flight : Z; cp_phase : bytes
}.
Record PbReleaseWorktreeHandlesResult := mkPbReleaseWorktreeHandlesResult {
  rwhr_inspected : Z; rwhr_released : Z; rwhr_sessions_dropped : list bytes; rwhr_unreleased : list PbPath
}.
Record PbExecProbeResult := mkPbExecProbeResult {
  epr_cache_key_hex : bytes; epr_cached_bytes : option bytes; epr_persistent : bool
}.
Record PbExecStoreAck := mkPbExecStoreAck { esa_stored : bool; esa_persistent : bool }.
Inductive PbResponseBody :=
  | PbRE_pong (body : PbEmpty)
  | PbRE_shutting_down (body : PbEmpty)
  | PbRE_status (body : PbDaemonStatus)
  | PbRE_lookup_result (body : PbLookupResult)
  | PbRE_store_result (body : PbStoreResult)
  | PbRE_session_started (body : PbSessionStarted)
  | PbRE_compile_result (body : PbCompileResult)
  | PbRE_session_ended (body : PbSessionEnded)
  | PbRE_link_result (body : PbLinkResult)
  | PbRE_error (body : PbError)
  | PbRE_cleared (body : PbCleared)
  | PbRE_session_stats_result (body : PbSessionStatsResult)
  | PbRE_fingerprint_check_result (body : PbFingerprintCheckResult)
  | PbRE_fingerprint_ack (body : PbEmpty)
  | PbRE_rust_artifact_list (body : PbRustArtifactList)
  | PbRE_generic_tool_exec_result (body : PbGenericToolExecResult)
  | PbRE_backpressure (body : PbBackpressure)
  | PbRE_release_worktree_handles_result (body : PbReleaseWorktreeHandlesResult)
  | PbRE_compile_progress (body : PbCompileProgress)
  | PbRE_exec_probe_result (body : PbExecProbeResult)
  | PbRE_exec_store_ack (body : PbExecStoreAck).
Record PbResponse := mkPbResponse { re_body : option PbResponseBody; re_request_id : bytes }.

(** ** The programs' messages *)

Inductive ArtifactPayload := PayloadBytes (b : bytes) | PayloadPath (p : NormalizedPath).
Record ArtifactOutput := mkArtifactOutput {
  o_name : bytes; o_payload : ArtifactPayload
}.
Record ArtifactData := mkArtifactData {
  a_outputs : list ArtifactOutput; a_stdout : bytes; a_stderr : bytes; a_exit_code : Z
}.
Record RustArtifactInfo := mkRustArtifactInfo {
  ra_cache_key : bytes; ra_output_names : list bytes; ra_payload_count : Z
}.
Record ExecOutputStreams := mkExecOutputStreams {
  x_stdout : bool; x_stderr : bool
}.
Record PrivateDaemonSessionOptions := mkPrivateDaemonSessionOptions {
  po_daemon_name : option bytes; po_endpoint : option bytes; po_cache_dir : option NormalizedPath;
  po_owner_pids : list Z; po_env : list (bytes * bytes)
}.
Record PrivateDaemonOwnerStatus := mkPrivateDaemonOwnerStatus {
  ow_pid : Z; ow_ref_count : Z
}.
Record PrivateDaemonStatus := mkPrivateDaemonStatus {
  pd_enabled : bool; pd_owners : list PrivateDaemonOwnerStatus; pd_private_env_keys : list bytes
}.
Record MaterializationStatus := mkMaterializationStatus {
  mt_mode : bytes; mt_reflink : Z; mt_hardlink : Z; mt_copy : Z; mt_reflink_fallbacks : Z
}.
Record DaemonStatus := mkDaemonStatus {
  d_version : bytes; d_daemon_namespace : bytes; d_endpoint : bytes; d_private_daemon : PrivateDaemonStatus;
  d_artifact_count : Z; d_cache_size_bytes : Z; d_metadata_entries : Z; d_uptime_secs : Z; d_cache_hits : Z;
  d_cache_misses : Z; d_total_compilations : Z; d_non_cacheable : Z; d_compile_errors : Z;
  d_compile_errors_cached : Z; d_time_saved_ms : Z; d_total_links : Z; d_link_hits : Z; d_link_misses : Z;
  d_link_non_cacheable : Z; d_dep_graph_contexts : Z; d_dep_graph_files : Z; d_sessions_total : Z;
  d_sessions_active : Z; d_cache_dir : NormalizedPath; d_dep_graph_version : Z; d_dep_graph_disk_size : Z;
  d_dep_graph_persisted : bool; d_watcher_active : bool; d_watcher_degradations : Z; d_index_writer_gone : bool;
  d_materialization : MaterializationStatus
}.
Record StagedProfileSummary := mkStagedProfileSummary {
  sg_counters : gmap bytes Z; sg_timings_ns : gmap bytes Z; sg_bytes : gmap bytes Z; sg_failures : gmap bytes Z
}.
Record PhaseProfileSummary := mkPhaseProfileSummary {
  ph_hit_count : Z; ph_miss_count : Z; ph_parse_args_ns : Z; ph_build_context_ns : Z; ph_hash_source_ns : Z;
  ph_hash_headers_ns : Z; ph_depgraph_check_ns : Z; ph_request_cache_lookup_ns : Z; ph_cross_root_validate_ns : Z;
  ph_artifact_lookup_ns : Z; ph_write_output_ns : Z; ph_bookkeeping_ns : Z; ph_total_hit_ns : Z;
  ph_compiler_exec_ns : Z; ph_include_scan_ns : Z; ph_hash_all_ns : Z; ph_artifact_store_ns : Z;
  ph_total_miss_ns : Z; ph_staged : StagedProfileSummary
}.
Record LookupOutcomes := mkLookupOutcomes {
  lk_depgraph_hit_artifact_hit : Z; lk_depgraph_hit_artifact_miss : Z; lk_depgraph_cold_skip : Z;
  lk_depgraph_other_miss : gmap bytes Z
}.
Record SessionStats := mkSessionStats {
  st_duration_ms : Z; st_compilations : Z; st_hits : Z; st_misses : Z; st_non_cacheable : Z; st_errors : Z;
  st_errors_cached : Z; st_time_saved_ms : Z; st_unique_sources : Z; st_bytes_read : Z; st_bytes_written : Z;
  st_lookup_outcomes : LookupOutcomes; st_phase_profile : option PhaseProfileSummary
}.
Inductive LookupResult := LookupHit (artifact : ArtifactData) | LookupMiss.
Inductive StoreResult := Stored | AlreadyExists.
Inductive ExecCachePolicy := PolicyNormal | PolicyBypass | PolicyReadOnly.

Inductive Request :=
  | RqPing
  | RqShutdown
  | RqStatus
  | RqLookup (cache_key : bytes)
  | RqStore (cache_key : bytes) (artifact : ArtifactData)
  | RqSessionStart (client_pid : Z) (working_dir : NormalizedPath) (log_file : option NormalizedPath) (track_stats : bool)
      (journal_path : option NormalizedPath) (profile : bool) (private_daemon : option PrivateDaemonSessionOptions)
  | RqCompile (session_id : bytes) (args : list bytes) (cwd compiler : NormalizedPath)
      (env : option (list (bytes * bytes))) (stdin : bytes)
  | RqSessionEnd (session_id : bytes)
  | RqClear
  | RqCompileEphemeral (client_pid : Z) (working_dir compiler : NormalizedPath) (args : list bytes) (cwd : NormalizedPath)
      (env : option (list (bytes * bytes))) (stdin : bytes)
  | RqLinkEphemeral (client_pid : Z) (tool : NormalizedPath) (args : list bytes) (cwd : NormalizedPath)
      (env : option (list (bytes * bytes)))
  | RqSessionStats (session_id : bytes)
  | RqFingerprintCheck (cache_file : NormalizedPath) (cache_type : bytes) (root : NormalizedPath)
      (extensions include_globs exclude : list bytes)
  | RqFingerprintMarkSuccess (cache_file : NormalizedPath)
  | RqFingerprintMarkFailure (cache_file : NormalizedPath)
  | RqFingerprintInvalidate (cache_file : NormalizedPath)
  | RqListRustArtifacts
  | RqGenericToolExec (tool : NormalizedPath) (args : list bytes) (cwd : NormalizedPath) (env : list (bytes * bytes))
      (input_files : list NormalizedPath) (input_extra : bytes) (output_streams : ExecOutputStreams)
      (output_files : list NormalizedPath) (tool_hash : option bytes) (cache_policy : ExecCachePolicy) (cwd_in_key : bool)
      (include_scan_files include_dirs system_include_dirs iquote_dirs : list NormalizedPath)
      (depfile : option NormalizedPath) (non_deterministic : bool) (key_args_filter : list bytes)
  | RqReleaseWorktreeHandles (path : NormalizedPath)
  | RqExecProbe (name : bytes) (input_files : list NormalizedPath) (input_env : list (bytes * bytes)) (input_extra : bytes)
  | RqExecStore (cache_key_hex result_bytes : bytes).

Inductive Response :=
  | RsPong
  | RsShuttingDown
  | RsStatus (status : DaemonStatus)
  | RsLookupResult (result : LookupResult)
  | RsStoreResult (result : StoreResult)
  | RsSessionStarted (session_id : bytes) (journal_path : option NormalizedPath)
  | RsCompileResult (exit_code : Z) (stdout stderr : bytes) (cached : bool)
  | RsSessionEnded (stats : option SessionStats)
  | RsLinkResult (exit_code : Z) (stdout stderr : bytes) (cached : bool) (warning : option bytes)
  | RsError (message : bytes)
  | RsCleared (artifacts_removed metadata_cleared dep_graph_contexts_cleared on_disk_bytes_freed : Z)
  | RsSessionStatsResult (stats : option SessionStats)
  | RsFingerprintCheckResult (decision : bytes) (reason : option bytes) (changed_files : list bytes)
  | RsFingerprintAck
  | RsRustArtifactList (artifacts : list RustArtifactInfo)
  | RsGenericToolExecResult (exit_code : Z) (stdout stderr : bytes) (output_files : list ArtifactOutput) (cached : bool)
      (cache_key_hex : bytes)
  | RsBackpressure (queue_depth retry_after_ms : Z) (reason : bytes)
  | RsReleaseWorktreeHandlesResult (inspected released : Z) (sessions_dropped : list bytes) (unreleased : list NormalizedPath)
  | RsExecProbeResult (cache_key_hex : bytes) (cached_bytes : option bytes) (persistent : bool)
  | RsExecStoreAck (stored persistent : bool)
  | RsCompileProgress (queue_position queue_depth in_flight : Z) (phase : bytes).

(** ** Conversions of fields ([convert.rs]) *)

Inductive ConvError :=
  | MissingField (field : bytes)
  | BadStoreResultKind (kind : Z)
  | BadCachePolicy (policy : Z)
  | BadToolHashLength (len : nat)
  | BadPayloadCount (count : Z)
  | MissingRequestBody
  | MissingResponseBody
  | NotControl.

Definition res (A : Type) : Type := ConvError + A.
#[local] Instance res_bind : MBind (sum ConvError) := fun A B f m => match m with inl e => inl e | inr a => f a end.

Definition required_prost_field {A} (value : option A) (field : bytes) : res A :=
  match value with Some a => inr a | None => inl (MissingField field) end.

Definition path_to_prost (p : NormalizedPath) : PbPath := mkPbPath (from_utf8_lossy p).
Definition path_from_prost (p : PbPath) : NormalizedPath := NormalizedPath_new (p_value p).
Definition paths_to_prost (ps : list NormalizedPath) : list PbPath := map path_to_prost ps.
Definition paths_from_prost (ps : list PbPath) : list NormalizedPath := map path_from_prost ps.
(** A required path. *)
Definition path_field (p : option PbPath) (field : bytes) : res NormalizedPath :=
  v ← required_prost_field p field; inr (path_from_prost v).

Definition env_pairs_to_prost (env : list (bytes * bytes)) : list PbEnvVar := map (fun e => mkPbEnvVar e.1 e.2) env.
Definition env_pairs_from_prost (env : list PbEnvVar) : list (bytes * bytes) := map (fun e => (ev_name e, ev_value e)) env.
Definition optional_env_to_prost (env : option (list (bytes * bytes))) : list PbEnvVar * bool :=
  match env with Some env => (env_pairs_to_prost env, true) | None => ([], false) end.
Definition optional_env_from_prost (env : list PbEnvVar) (env_is_set : bool) : option (list (bytes * bytes)) :=
  if env_is_set then Some (env_pairs_from_prost env) else None.

(** [collect] of results: the first error. *)
Fixpoint collect_res {A B} (f : A -> res B) (l : list A) : res (list B) :=
  match l with
  | [] => inr []
  | a :: l' => b ← f a; bs ← collect_res f l'; inr (b :: bs)
  end.

Definition artifact_payload_to_prost (p : ArtifactPayload) : PbArtifactPayload :=
  mkPbArtifactPayload (Some match p with
                            | PayloadBytes b => PbAP_bytes b
                            | PayloadPath p => PbAP_path (path_to_prost p)
                            end).
Definition artifact_payload_from_prost (p : PbArtifactPayload) : res ArtifactPayload :=
  match ap_body p with
  | Some (PbAP_bytes b) => inr (PayloadBytes b)
  | Some (PbAP_path p) => inr (PayloadPath (path_from_prost p))
  | None => inl (MissingField "ArtifactPayload.body")
  end.
Definition artifact_output_to_prost (o : ArtifactOutput) : PbArtifactOutput :=
  mkPbArtifactOutput (o_name o) (Some (artifact_payload_to_prost (o_payload o))).
Definition artifact_output_from_prost (o : PbArtifactOutput) : res ArtifactOutput :=
  body ← required_prost_field (ao_payload o) "ArtifactOutput.payload";
  payload ← artifact_payload_from_prost body;
  inr (mkArtifactOutput (ao_name o) payload).
Definition artifact_data_to_prost (a : ArtifactData) : PbArtifactData :=
  mkPbArtifactData (map artifact_output_to_prost (a_outputs a)) (a_stdout a) (a_stderr a) (a_exit_code a).
Definition artifact_data_from_prost (a : PbArtifactData) : res ArtifactData :=
  outputs ← collect_res artifact_output_from_prost (ad_outputs a);
  inr (mkArtifactData outputs (ad_stdout a) (ad_stderr a) (ad_exit_code a)).

Definition lookup_result_to_prost (r : LookupResult) : PbLookupResult :=
  mkPbLookupResult (Some match r with
                         | LookupHit a => PbLR_hit (artifact_data_to_prost a)
                         | LookupMiss => PbLR_miss mkPbEmpty
                         end).
Definition lookup_result_from_prost (r : PbLookupResult) : res LookupResult :=
  match lr_body r with
  | Some (PbLR_hit a) => artifact ← artifact_data_from_prost a; inr (LookupHit artifact)
  | Some (PbLR_miss _) => inr LookupMiss
  | None => inl (MissingField "LookupResult.body")
  end.

(** The numbers of the schema's enumerations. *)
Definition store_result_kind_to_prost (r : StoreResult) : Z := match r with Stored => 1 | AlreadyExists => 2 end.
Definition store_result_kind_from_prost (kind : Z) : res StoreResult :=
  if kind =? 1 then inr Stored else if kind =? 2 then inr AlreadyExists else inl (BadStoreResultKind kind).
Definition exec_cache_policy_to_prost (p : ExecCachePolicy) : Z :=
  match p with PolicyNormal => 1 | PolicyBypass => 2 | PolicyReadOnly => 3 end.
Definition exec_cache_policy_from_prost (policy : Z) : res ExecCachePolicy :=
  if policy =? 1 then inr PolicyNormal
  else if policy =? 2 then inr PolicyBypass
  else if policy =? 3 then inr PolicyReadOnly
  else inl (BadCachePolicy policy).

Definition tool_hash_from_prost (hash : option bytes) : res (option bytes) :=
  match hash with
  | None => inr None
  | Some b => if (String.length b =? 32)%nat then inr (Some b) else inl (BadToolHashLength (String.length b))
  end.

Definition rust_artifact_info_to_prost (i : RustArtifactInfo) : PbRustArtifactInfo :=
  mkPbRustArtifactInfo (ra_cache_key i) (ra_output_names i) (wrap64 (ra_payload_count i)).
Definition rust_artifact_info_from_prost (i : PbRustArtifactInfo) : res RustArtifactInfo :=
  if (0 <=? rai_payload_count i) && (rai_payload_count i <? 2 ^ 64)
  then inr (mkRustArtifactInfo (rai_cache_key i) (rai_output_names i) (rai_payload_count i))
  else inl (BadPayloadCount (rai_payload_count i)).

Definition no_staged : StagedProfileSummary := mkStagedProfileSummary ∅ ∅ ∅ ∅.
Definition no_outcomes : LookupOutcomes := mkLookupOutcomes 0 0 0 ∅.
Definition no_materialization : MaterializationStatus := mkMaterializationStatus "" 0 0 0 0.

Definition private_daemon_session_options_to_prost (x : PrivateDaemonSessionOptions) : PbPrivateDaemonSessionOptions :=
  mkPbPrivateDaemonSessionOptions
    (po_daemon_name x) (po_endpoint x) (path_to_prost <$> (po_cache_dir x)) (po_owner_pids x)
    (env_pairs_to_prost (po_env x)).
Definition private_daemon_session_options_from_prost (x : PbPrivateDaemonSessionOptions) : PrivateDaemonSessionOptions :=
  mkPrivateDaemonSessionOptions
    (pdso_daemon_name x) (pdso_endpoint x) (path_from_prost <$> (pdso_cache_dir x)) (pdso_owner_pids x)
    (env_pairs_from_prost (pdso_env x)).

Definition exec_output_streams_to_prost (x : ExecOutputStreams) : PbExecOutputStreams :=
  mkPbExecOutputStreams
    (x_stdout x) (x_stderr x).
Definition exec_output_streams_from_prost (x : PbExecOutputStreams) : ExecOutputStreams :=
  mkExecOutputStreams
    (eos_stdout x) (eos_stderr x).

Definition lookup_outcomes_to_prost (x : LookupOutcomes) : PbLookupOutcomes :=
  mkPbLookupOutcomes
    (lk_depgraph_hit_artifact_hit x) (lk_depgraph_hit_artifact_miss x) (lk_depgraph_cold_skip x)
    (lk_depgraph_other_miss x).
Definition lookup_outcomes_from_prost (x : PbLookupOutcomes) : LookupOutcomes :=
  mkLookupOutcomes
    (lo_depgraph_hit_artifact_hit x) (lo_depgraph_hit_artifact_miss x) (lo_depgraph_cold_skip x)
    (lo_depgraph_other_miss x).

Definition staged_profile_to_prost (x : StagedProfileSummary) : PbStagedProfileSummary :=
  mkPbStagedProfileSummary
    (sg_counters x) (sg_timings_ns x) (sg_bytes x) (sg_failures x).
Definition staged_profile_from_prost (x : PbStagedProfileSummary) : StagedProfileSummary :=
  mkStagedProfileSummary
    (sps_counters x) (sps_timings_ns x) (sps_bytes x) (sps_failures x).

Definition phase_profile_to_prost (x : PhaseProfileSummary) : PbPhaseProfileSummary :=
  mkPbPhaseProfileSummary
    (ph_hit_count x) (ph_miss_count x) (ph_parse_args_ns x) (ph_build_context_ns x) (ph_hash_source_ns x)
    (ph_hash_headers_ns x) (ph_depgraph_check_ns x) (ph_request_cache_lookup_ns x) (ph_cross_root_validate_ns x)
    (ph_artifact_lookup_ns x) (ph_write_output_ns x) (ph_bookkeeping_ns x) (ph_total_hit_ns x)
    (ph_compiler_exec_ns x) (ph_include_scan_ns x) (ph_hash_all_ns x) (ph_artifact_store_ns x) (ph_total_miss_ns
    x) (Some (staged_profile_to_prost (ph_staged x))).
Definition phase_profile_from_prost (x : PbPhaseProfileSummary) : PhaseProfileSummary :=
  mkPhaseProfileSummary
    (pps_hit_count x) (pps_miss_count x) (pps_parse_args_ns x) (pps_build_context_ns x) (pps_hash_source_ns x)
    (pps_hash_headers_ns x) (pps_depgraph_check_ns x) (pps_request_cache_lookup_ns x)
    (pps_cross_root_validate_ns x) (pps_artifact_lookup_ns x) (pps_write_output_ns x) (pps_bookkeeping_ns x)
    (pps_total_hit_ns x) (pps_compiler_exec_ns x) (pps_include_scan_ns x) (pps_hash_all_ns x)
    (pps_artifact_store_ns x) (pps_total_miss_ns x) (default no_staged (staged_profile_from_prost <$>
    (pps_staged x))).

Definition session_stats_to_prost (x : SessionStats) : PbSessionStats :=
  mkPbSessionStats
    (st_duration_ms x) (st_compilations x) (st_hits x) (st_misses x) (st_non_cacheable x) (st_errors x)
    (st_errors_cached x) (st_time_saved_ms x) (st_unique_sources x) (st_bytes_read x) (st_bytes_written x)
    (phase_profile_to_prost <$> (st_phase_profile x)) (Some (lookup_outcomes_to_prost (st_lookup_outcomes x))).
Definition session_stats_from_prost (x : PbSessionStats) : SessionStats :=
  mkSessionStats
    (sst_duration_ms x) (sst_compilations x) (sst_hits x) (sst_misses x) (sst_non_cacheable x) (sst_errors x)
    (sst_errors_cached x) (sst_time_saved_ms x) (sst_unique_sources x) (sst_bytes_read x) (sst_bytes_written x)
    (default no_outcomes (lookup_outcomes_from_prost <$> (sst_lookup_outcomes x))) (phase_profile_from_prost <$>
    (sst_phase_profile x)).

Definition owner_to_prost (x : PrivateDaemonOwnerStatus) : PbPrivateDaemonOwnerStatus :=
  mkPbPrivateDaemonOwnerStatus
    (ow_pid x) (ow_ref_count x).
Definition owner_from_prost (x : PbPrivateDaemonOwnerStatus) : PrivateDaemonOwnerStatus :=
  mkPrivateDaemonOwnerStatus
    (pdos_pid x) (pdos_ref_count x).

Definition private_daemon_status_to_prost (x : PrivateDaemonStatus) : PbPrivateDaemonStatus :=
  mkPbPrivateDaemonStatus
    (pd_enabled x) (map owner_to_prost (pd_owners x)) (pd_private_env_keys x).
Definition private_daemon_status_from_prost (x : PbPrivateDaemonStatus) : PrivateDaemonStatus :=
  mkPrivateDaemonStatus
    (pds_enabled x) (map owner_from_prost (pds_owners x)) (pds_private_env_keys x).

Definition materialization_to_prost (x : MaterializationStatus) : PbMaterializationStatus :=
  mkPbMaterializationStatus
    (mt_mode x) (mt_reflink x) (mt_hardlink x) (mt_copy x) (mt_reflink_fallbacks x).
Definition materialization_from_prost (x : PbMaterializationStatus) : MaterializationStatus :=
  mkMaterializationStatus
    (ms_mode x) (ms_reflink x) (ms_hardlink x) (ms_copy x) (ms_reflink_fallbacks x).

Definition daemon_status_to_prost (x : DaemonStatus) : PbDaemonStatus :=
  mkPbDaemonStatus
    (d_version x) (d_daemon_namespace x) (d_endpoint x) (Some (private_daemon_status_to_prost (d_private_daemon
    x))) (d_artifact_count x) (d_cache_size_bytes x) (d_metadata_entries x) (d_uptime_secs x) (d_cache_hits x)
    (d_cache_misses x) (d_total_compilations x) (d_non_cacheable x) (d_compile_errors x)
    (d_compile_errors_cached x) (d_time_saved_ms x) (d_total_links x) (d_link_hits x) (d_link_misses x)
    (d_link_non_cacheable x) (d_dep_graph_contexts x) (d_dep_graph_files x) (d_sessions_total x)
    (d_sessions_active x) (Some (path_to_prost (d_cache_dir x))) (d_dep_graph_version x) (d_dep_graph_disk_size
    x) (d_dep_graph_persisted x) (d_watcher_active x) (d_watcher_degradations x) (d_index_writer_gone x) (Some
    (materialization_to_prost (d_materialization x))).
Definition daemon_status_from_prost (x : PbDaemonStatus) : res DaemonStatus :=
  private_daemon ← required_prost_field (ds_private_daemon x) "DaemonStatus.private_daemon";
  cache_dir ← path_field (ds_cache_dir x) "DaemonStatus.cache_dir";
  inr (mkDaemonStatus
    (ds_version x) (ds_daemon_namespace x) (ds_endpoint x) (private_daemon_status_from_prost private_daemon)
    (ds_artifact_count x) (ds_cache_size_bytes x) (ds_metadata_entries x) (ds_uptime_secs x) (ds_cache_hits x)
    (ds_cache_misses x) (ds_total_compilations x) (ds_non_cacheable x) (ds_compile_errors x)
    (ds_compile_errors_cached x) (ds_time_saved_ms x) (ds_total_links x) (ds_link_hits x) (ds_link_misses x)
    (ds_link_non_cacheable x) (ds_dep_graph_contexts x) (ds_dep_graph_files x) (ds_sessions_total x)
    (ds_sessions_active x) cache_dir (ds_dep_graph_version x) (ds_dep_graph_disk_size x)
    (ds_dep_graph_persisted x) (ds_watcher_active x) (ds_watcher_degradations x) (ds_index_writer_gone x)
    (default no_materialization (materialization_from_prost <$> (ds_materialization x)))).

(** ** Requests ([request.rs]) *)

Definition request_body (r : Request) : PbRequestBody :=
  match r with
  | RqPing => PbR_ping mkPbEmpty
  | RqShutdown => PbR_shutdown mkPbEmpty
  | RqStatus => PbR_status mkPbEmpty
  | RqClear => PbR_clear mkPbEmpty
  | RqLookup cache_key => PbR_lookup (mkPbLookup cache_key)
  | RqStore cache_key artifact => PbR_store (mkPbStore cache_key (Some (artifact_data_to_prost artifact)))
  | RqSessionStart client_pid working_dir log_file track_stats journal_path profile private_daemon =>
      PbR_session_start (mkPbSessionStart client_pid (Some (path_to_prost working_dir)) (path_to_prost <$> log_file)
        track_stats (path_to_prost <$> journal_path) profile
        (private_daemon_session_options_to_prost <$> private_daemon))
  | RqCompile session_id args cwd compiler env stdin =>
      let '(env, env_is_set) := optional_env_to_prost env in
      PbR_compile (mkPbCompile session_id args (Some (path_to_prost cwd)) (Some (path_to_prost compiler)) env env_is_set stdin)
  | RqSessionEnd session_id => PbR_session_end (mkPbSessionEnd session_id)
  | RqCompileEphemeral client_pid working_dir compiler args cwd env stdin =>
      let '(env, env_is_set) := optional_env_to_prost env in
      PbR_compile_ephemeral (mkPbCompileEphemeral client_pid (Some (path_to_prost working_dir))
        (Some (path_to_prost compiler)) args (Some (path_to_prost cwd)) env env_is_set stdin)
  | RqLinkEphemeral client_pid tool args cwd env =>
      let '(env, env_is_set) := optional_env_to_prost env in
      PbR_link_ephemeral (mkPbLinkEphemeral client_pid (Some (path_to_prost tool)) args (Some (path_to_prost cwd)) env env_is_set)
  | RqSessionStats session_id => PbR_session_stats (mkPbSessionStatsRequest session_id)
  | RqFingerprintCheck cache_file cache_type root extensions include_globs exclude =>
      PbR_fingerprint_check (mkPbFingerprintCheck (Some (path_to_prost cache_file)) cache_type (Some (path_to_prost root))
        extensions include_globs exclude)
  | RqFingerprintMarkSuccess cache_file =>
      PbR_fingerprint_mark_success (mkPbFingerprintMarkSuccess (Some (path_to_prost cache_file)))
  | RqFingerprintMarkFailure cache_file =>
      PbR_fingerprint_mark_failure (mkPbFingerprintMarkFailure (Some (path_to_prost cache_file)))
  | RqFingerprintInvalidate cache_file =>
      PbR_fingerprint_invalidate (mkPbFingerprintInvalidate (Some (path_to_prost cache_file)))
  | RqListRustArtifacts => PbR_list_rust_artifacts mkPbEmpty
  | RqGenericToolExec tool args cwd env input_files input_extra output_streams output_files tool_hash cache_policy
      cwd_in_key include_scan_files include_dirs system_include_dirs iquote_dirs depfile non_deterministic key_args_filter =>
      PbR_generic_tool_exec (mkPbGenericToolExec (Some (path_to_prost tool)) args (Some (path_to_prost cwd))
        (env_pairs_to_prost env) (paths_to_prost input_files) input_extra
        (Some (exec_output_streams_to_prost output_streams)) (paths_to_prost output_files) tool_hash
        (exec_cache_policy_to_prost cache_policy) cwd_in_key (paths_to_prost include_scan_files)
        (paths_to_prost include_dirs) (paths_to_prost system_include_dirs) (paths_to_prost iquote_dirs)
        (path_to_prost <$> depfile) non_deterministic key_args_filter)
  | RqReleaseWorktreeHandles path =>
      PbR_release_worktree_handles (mkPbReleaseWorktreeHandles (Some (path_to_prost path)))
  | RqExecProbe name input_files input_env input_extra =>
      PbR_exec_probe (mkPbExecProbe name (paths_to_prost input_files) (env_pairs_to_prost input_env) input_extra)
  | RqExecStore cache_key_hex result_bytes => PbR_exec_store (mkPbExecStore cache_key_hex result_bytes)
  end.

Definition request_to_prost (r : Request) (request_id : bytes) : PbRequest := mkPbRequest (Some (request_body r)) request_id.

Definition request_from_prost (r : PbRequest) : res Request :=
  match r_body r with
  | Some (PbR_ping _) => inr RqPing
  | Some (PbR_shutdown _) => inr RqShutdown
  | Some (PbR_status _) => inr RqStatus
  | Some (PbR_clear _) => inr RqClear
  | Some (PbR_lookup x) => inr (RqLookup (l_cache_key x))
  | Some (PbR_store x) =>
      a ← required_prost_field (s_artifact x) "Store.artifact";
      artifact ← artifact_data_from_prost a;
      inr (RqStore (s_cache_key x) artifact)
  | Some (PbR_session_start x) =>
      working_dir ← path_field (ss_working_dir x) "SessionStart.working_dir";
      inr (RqSessionStart (ss_client_pid x) working_dir (path_from_prost <$> ss_log_file x) (ss_track_stats x)
             (path_from_prost <$> ss_journal_path x) (ss_profile x)
             (private_daemon_session_options_from_prost <$> ss_private_daemon x))
  | Some (PbR_compile x) =>
      cwd ← path_field (c_cwd x) "Compile.cwd";
      compiler ← path_field (c_compiler x) "Compile.compiler";
      inr (RqCompile (c_session_id x) (c_args x) cwd compiler (optional_env_from_prost (c_env x) (c_env_is_set x)) (c_stdin x))
  | Some (PbR_session_end x) => inr (RqSessionEnd (se_session_id x))
  | Some (PbR_compile_ephemeral x) =>
      working_dir ← path_field (ce_working_dir x) "CompileEphemeral.working_dir";
      compiler ← path_field (ce_compiler x) "CompileEphemeral.compiler";
      cwd ← path_field (ce_cwd x) "CompileEphemeral.cwd";
      inr (RqCompileEphemeral (ce_client_pid x) working_dir compiler (ce_args x) cwd
             (optional_env_from_prost (ce_env x) (ce_env_is_set x)) (ce_stdin x))
  | Some (PbR_link_ephemeral x) =>
      tool ← path_field (le_tool x) "LinkEphemeral.tool";
      cwd ← path_field (le_cwd x) "LinkEphemeral.cwd";
      inr (RqLinkEphemeral (le_client_pid x) tool (le_args x) cwd (optional_env_from_prost (le_env x) (le_env_is_set x)))
  | Some (PbR_session_stats x) => inr (RqSessionStats (ssr_session_id x))
  | Some (PbR_fingerprint_check x) =>
      cache_file ← path_field (fc_cache_file x) "FingerprintCheck.cache_file";
      root ← path_field (fc_root x) "FingerprintCheck.root";
      inr (RqFingerprintCheck cache_file (fc_cache_type x) root (fc_extensions x) (fc_include_globs x) (fc_exclude x))
  | Some (PbR_fingerprint_mark_success x) =>
      cache_file ← path_field (fms_cache_file x) "FingerprintMarkSuccess.cache_file"; inr (RqFingerprintMarkSuccess cache_file)
  | Some (PbR_fingerprint_mark_failure x) =>
      cache_file ← path_field (fmf_cache_file x) "FingerprintMarkFailure.cache_file"; inr (RqFingerprintMarkFailure cache_file)
  | Some (PbR_fingerprint_invalidate x) =>
      cache_file ← path_field (fi_cache_file x) "FingerprintInvalidate.cache_file"; inr (RqFingerprintInvalidate cache_file)
  | Some (PbR_list_rust_artifacts _) => inr RqListRustArtifacts
  | Some (PbR_generic_tool_exec x) =>
      tool ← path_field (gte_tool x) "GenericToolExec.tool";
      cwd ← path_field (gte_cwd x) "GenericToolExec.cwd";
      streams ← required_prost_field (gte_output_streams x) "GenericToolExec.output_streams";
      tool_hash ← tool_hash_from_prost (gte_tool_hash x);
      cache_policy ← exec_cache_policy_from_prost (gte_cache_policy x);
      inr (RqGenericToolExec tool (gte_args x) cwd (env_pairs_from_prost (gte_env x)) (paths_from_prost (gte_input_files x))
             (gte_input_extra x) (exec_output_streams_from_prost streams) (paths_from_prost (gte_output_files x)) tool_hash
             cache_policy (gte_cwd_in_key x) (paths_from_prost (gte_include_scan_files x))
             (paths_from_prost (gte_include_dirs x)) (paths_from_prost (gte_system_include_dirs x))
             (paths_from_prost (gte_iquote_dirs x)) (path_from_prost <$> gte_depfile x) (gte_non_deterministic x)
             (gte_key_args_filter x))
  | Some (PbR_release_worktree_handles x) =>
      path ← path_field (rwh_path x) "ReleaseWorktreeHandles.path"; inr (RqReleaseWorktreeHandles path)
  | Some (PbR_exec_probe x) =>
      inr (RqExecProbe (ep_name x) (paths_from_prost (ep_input_files x)) (env_pairs_from_prost (ep_input_env x)) (ep_input_extra x))
  | Some (PbR_exec_store x) => inr (RqExecStore (es_cache_key_hex x) (es_result_bytes x))
  | None => inl MissingRequestBody
  end.

(** ** Responses ([response.rs]) *)

Definition response_body (r : Response) : PbResponseBody :=
  match r with
  | RsPong => PbRE_pong mkPbEmpty
  | RsShuttingDown => PbRE_shutting_down mkPbEmpty
  | RsStatus status => PbRE_status (daemon_status_to_prost status)
  | RsLookupResult result => PbRE_lookup_result (lookup_result_to_prost result)
  | RsStoreResult result => PbRE_store_result (mkPbStoreResult (store_result_kind_to_prost result))
  | RsSessionStarted session_id journal_path =>
      PbRE_session_started (mkPbSessionStarted session_id (path_to_prost <$> journal_path))
  | RsCompileResult exit_code stdout stderr cached => PbRE_compile_result (mkPbCompileResult exit_code stdout stderr cached)
  | RsSessionEnded stats => PbRE_session_ended (mkPbSessionEnded (session_stats_to_prost <$> stats))
  | RsLinkResult exit_code stdout stderr cached warning =>
      PbRE_link_result (mkPbLinkResult exit_code stdout stderr cached warning)
  | RsError message => PbRE_error (mkPbError message)
  | RsCleared artifacts metadata contexts freed => PbRE_cleared (mkPbCleared artifacts metadata contexts freed)
  | RsSessionStatsResult stats => PbRE_session_stats_result (mkPbSessionStatsResult (session_stats_to_prost <$> stats))
  | RsFingerprintCheckResult decision reason changed_files =>
      PbRE_fingerprint_check_result (mkPbFingerprintCheckResult decision reason changed_files)
  | RsFingerprintAck => PbRE_fingerprint_ack mkPbEmpty
  | RsRustArtifactList artifacts => PbRE_rust_artifact_list (mkPbRustArtifactList (map rust_artifact_info_to_prost artifacts))
  | RsGenericToolExecResult exit_code stdout stderr output_files cached cache_key_hex =>
      PbRE_generic_tool_exec_result (mkPbGenericToolExecResult exit_code stdout stderr
        (map artifact_output_to_prost output_files) cached cache_key_hex)
  | RsBackpressure queue_depth retry_after_ms reason => PbRE_backpressure (mkPbBackpressure queue_depth retry_after_ms reason)
  | RsReleaseWorktreeHandlesResult inspected released sessions_dropped unreleased =>
      PbRE_release_worktree_handles_result (mkPbReleaseWorktreeHandlesResult inspected released sessions_dropped
        (map path_to_prost unreleased))
  | RsCompileProgress queue_position queue_depth in_flight phase =>
      PbRE_compile_progress (mkPbCompileProgress queue_position queue_depth in_flight phase)
  | RsExecProbeResult cache_key_hex cached_bytes persistent =>
      PbRE_exec_probe_result (mkPbExecProbeResult cache_key_hex cached_bytes persistent)
  | RsExecStoreAck stored persistent => PbRE_exec_store_ack (mkPbExecStoreAck stored persistent)
  end.

Definition response_to_prost (r : Response) (request_id : bytes) : PbResponse :=
  mkPbResponse (Some (response_body r)) request_id.

Definition response_from_prost (r : PbResponse) : res Response :=
  match re_body r with
  | Some (PbRE_pong _) => inr RsPong
  | Some (PbRE_shutting_down _) => inr RsShuttingDown
  | Some (PbRE_status x) => status ← daemon_status_from_prost x; inr (RsStatus status)
  | Some (PbRE_lookup_result x) => result ← lookup_result_from_prost x; inr (RsLookupResult result)
  | Some (PbRE_store_result x) => result ← store_result_kind_from_prost (sr_kind x); inr (RsStoreResult result)
  | Some (PbRE_session_started x) => inr (RsSessionStarted (ssd_session_id x) (path_from_prost <$> ssd_journal_path x))
  | Some (PbRE_compile_result x) => inr (RsCompileResult (cr_exit_code x) (cr_stdout x) (cr_stderr x) (cr_cached x))
  | Some (PbRE_session_ended x) => inr (RsSessionEnded (session_stats_from_prost <$> sed_stats x))
  | Some (PbRE_link_result x) =>
      inr (RsLinkResult (lrt_exit_code x) (lrt_stdout x) (lrt_stderr x) (lrt_cached x) (lrt_warning x))
  | Some (PbRE_error x) => inr (RsError (er_message x))
  | Some (PbRE_cleared x) =>
      inr (RsCleared (cd_artifacts_removed x) (cd_metadata_cleared x) (cd_dep_graph_contexts_cleared x) (cd_on_disk_bytes_freed x))
  | Some (PbRE_session_stats_result x) => inr (RsSessionStatsResult (session_stats_from_prost <$> ssrt_stats x))
  | Some (PbRE_fingerprint_check_result x) =>
      inr (RsFingerprintCheckResult (fcr_decision x) (fcr_reason x) (fcr_changed_files x))
  | Some (PbRE_fingerprint_ack _) => inr RsFingerprintAck
  | Some (PbRE_rust_artifact_list x) =>
      artifacts ← collect_res rust_artifact_info_from_prost (ral_artifacts x); inr (RsRustArtifactList artifacts)
  | Some (PbRE_generic_tool_exec_result x) =>
      output_files ← collect_res artifact_output_from_prost (gter_output_files x);
      inr (RsGenericToolExecResult (gter_exit_code x) (gter_stdout x) (gter_stderr x) output_files (gter_cached x)
             (gter_cache_key_hex x))
  | Some (PbRE_backpressure x) => inr (RsBackpressure (b_queue_depth x) (b_retry_after_ms x) (b_reason x))
  | Some (PbRE_release_worktree_handles_result x) =>
      inr (RsReleaseWorktreeHandlesResult (rwhr_inspected x) (rwhr_released x) (rwhr_sessions_dropped x)
             (map path_from_prost (rwhr_unreleased x)))
  | Some (PbRE_compile_progress x) =>
      inr (RsCompileProgress (cp_queue_position x) (cp_queue_depth x) (cp_in_flight x) (cp_phase x))
  | Some (PbRE_exec_probe_result x) => inr (RsExecProbeResult (epr_cache_key_hex x) (epr_cached_bytes x) (epr_persistent x))
  | Some (PbRE_exec_store_ack x) => inr (RsExecStoreAck (esa_stored x) (esa_persistent x))
  | None => inl MissingResponseBody
  end.

(** ** The control subset ([api.rs]) *)

Definition default_request_id (r : Request) : bytes :=
  match r with
  | RqPing => "control-ping"
  | RqStatus => "control-status"
  | RqShutdown => "control-shutdown"
  | RqClear => "control-clear"
  | RqReleaseWorktreeHandles _ => "control-release-worktree-handles"
  | RqLookup _ => "lookup"
  | RqStore _ _ => "store"
  | RqSessionStart _ _ _ _ _ _ _ => "session-start"
  | RqCompile _ _ _ _ _ _ => "compile"
  | RqSessionEnd _ => "session-end"
  | RqCompileEphemeral _ _ _ _ _ _ _ => "compile-ephemeral"
  | RqLinkEphemeral _ _ _ _ _ => "link-ephemeral"
  | RqSessionStats _ => "session-stats"
  | RqFingerprintCheck _ _ _ _ _ _ => "fingerprint-check"
  | RqFingerprintMarkSuccess _ => "fingerprint-mark-success"
  | RqFingerprintMarkFailure _ => "fingerprint-mark-failure"
  | RqFingerprintInvalidate _ => "fingerprint-invalidate"
  | RqListRustArtifacts => "list-rust-artifacts"
  | RqGenericToolExec _ _ _ _ _ _ _ _ _ _ _ _ _ _ _ _ _ _ => "generic-tool-exec"
  | RqExecProbe _ _ _ _ => "exec-probe"
  | RqExecStore _ _ => "exec-store"
  end.

Definition supported_control_request_to_prost (r : Request) : res PbRequest :=
  match r with
  | RqPing | RqStatus | RqShutdown | RqClear | RqReleaseWorktreeHandles _ =>
      inr (request_to_prost r (default_request_id r))
  | _ => inl NotControl
  end.
Definition supported_control_request_from_prost (r : PbRequest) : res Request :=
  match r_body r with
  | Some (PbR_ping _) | Some (PbR_status _) | Some (PbR_shutdown _) | Some (PbR_clear _)
  | Some (PbR_release_worktree_handles _) => request_from_prost r
  | _ => inl NotControl
  end.
Definition supported_control_response_to_prost (r : Response) (request_id : bytes) : res PbResponse :=
  match r with
  | RsPong | RsShuttingDown | RsStatus _ | RsCleared _ _ _ _ | RsError _ | RsReleaseWorktreeHandlesResult _ _ _ _ =>
      inr (response_to_prost r request_id)
  | _ => inl NotControl
  end.
Definition supported_control_response_from_prost (r : PbResponse) : res Response :=
  match re_body r with
  | Some (PbRE_pong _) | Some (PbRE_shutting_down _) | Some (PbRE_status _) | Some (PbRE_cleared _)
  | Some (PbRE_error _) | Some (PbRE_release_worktree_handles_result _) => response_from_prost r
  | _ => inl NotControl
  end.

(** ** Round trips *)

#[local] Arguments path_to_prost : simpl never.
#[local] Arguments path_from_prost : simpl never.
#[local] Arguments paths_to_prost : simpl never.
#[local] Arguments paths_from_prost : simpl never.
#[local] Arguments env_pairs_to_prost : simpl never.
#[local] Arguments env_pairs_from_prost : simpl never.
#[local] Arguments optional_env_to_prost : simpl never.
#[local] Arguments optional_env_from_prost : simpl never.
#[local] Arguments artifact_data_to_prost : simpl never.
#[local] Arguments artifact_data_from_prost : simpl never.
#[local] Arguments session_stats_to_prost : simpl never.
#[local] Arguments session_stats_from_prost : simpl never.
#[local] Arguments daemon_status_to_prost : simpl never.
#[local] Arguments daemon_status_from_prost : simpl never.
#[local] Arguments private_daemon_session_options_to_prost : simpl never.
#[local] Arguments private_daemon_session_options_from_prost : simpl never.
#[local] Arguments private_daemon_status_to_prost : simpl never.
#[local] Arguments private_daemon_status_from_prost : simpl never.
#[local] Arguments artifact_output_to_prost : simpl never.
#[local] Arguments artifact_output_from_prost : simpl never.
#[local] Arguments exec_output_streams_to_prost : simpl never.
#[local] Arguments exec_output_streams_from_prost : simpl never.
#[local] Arguments rust_artifact_info_to_prost : simpl never.
#[local] Arguments rust_artifact_info_from_prost : simpl never.

Lemma substring_skip n s : String.substring 0 n s +:+ str_skip n s = s.
Proof.
  revert s. induction n as [|n IH]; intros s; [by destruct s|]. destruct s as [|c s]; [done|].
  cbn [String.substring String.append str_skip]. by rewrite IH.
Qed.

Lemma from_utf8_lossy_ok s : from_utf8_ok s = true -> from_utf8_lossy s = s.
Proof.
  unfold from_utf8_ok, from_utf8_lossy. generalize (String.length s) as fuel. intros fuel. revert s.
  induction fuel as [|fuel IH]; intros s; [by destruct s|]. destruct s as [|c s]; [done|].
  cbn [utf8_valid utf8_lossy]. destruct (utf8_first (String c s)) as [ok n]. destruct ok; [|done].
  cbn [andb]. intros H. by rewrite IH, substring_skip.
Qed.

(** A path the wire carries: valid UTF-8, and normalized as every
    [NormalizedPath] is. *)
Definition path_ok (p : NormalizedPath) : Prop := from_utf8_ok p = true /\ NormalizedPath_new p = p.

Lemma path_roundtrip p : path_ok p -> path_from_prost (path_to_prost p) = p.
Proof. intros [Hu Hn]. unfold path_from_prost, path_to_prost. cbn. by rewrite from_utf8_lossy_ok. Qed.

Lemma paths_roundtrip ps : Forall path_ok ps -> map path_from_prost (map path_to_prost ps) = ps.
Proof. induction 1 as [|p ps Hp _ IH]; [done|]. cbn [map]. by rewrite path_roundtrip, IH. Qed.

Lemma opt_path_roundtrip o : Forall path_ok (option_list o) -> path_from_prost <$> (path_to_prost <$> o) = o.
Proof.
  destruct o as [p|]; [|done]. cbn. intros H. apply Forall_cons in H as [H _]. by rewrite path_roundtrip.
Qed.

Lemma env_roundtrip env : env_pairs_from_prost (env_pairs_to_prost env) = env.
Proof. induction env as [|[k v] env IH]; [done|]. unfold env_pairs_from_prost, env_pairs_to_prost in *. cbn in *. by rewrite IH. Qed.

Lemma optional_env_roundtrip env :
  optional_env_from_prost (optional_env_to_prost env).1 (optional_env_to_prost env).2 = env.
Proof. destruct env; [|done]. unfold optional_env_from_prost, optional_env_to_prost. cbn. by rewrite env_roundtrip. Qed.

Lemma collect_roundtrip {A B} (f : A -> B) (g : B -> res A) l :
  (forall a, a ∈ l -> g (f a) = inr a) -> collect_res g (map f l) = inr l.
Proof.
  induction l as [|a l IH]; intros H; [done|]. cbn [map collect_res]. rewrite H by (by left). cbn.
  rewrite IH; [done|]. intros b Hb. apply H. by right.
Qed.

(** *** The paths in a message *)

Definition payload_paths (p : ArtifactPayload) : list NormalizedPath :=
  match p with PayloadBytes _ => [] | PayloadPath p => [p] end.
Definition outputs_paths (l : list ArtifactOutput) : list NormalizedPath := flat_map (fun o => payload_paths (o_payload o)) l.

Definition request_paths (r : Request) : list NormalizedPath :=
  match r with
  | RqStore _ a => outputs_paths (a_outputs a)
  | RqSessionStart _ working_dir log_file _ journal_path _ private_daemon =>
      working_dir :: option_list log_file ++ option_list journal_path ++ option_list (private_daemon ≫= po_cache_dir)
  | RqCompile _ _ cwd compiler _ _ => [cwd; compiler]
  | RqCompileEphemeral _ working_dir compiler _ cwd _ _ => [working_dir; compiler; cwd]
  | RqLinkEphemeral _ tool _ cwd _ => [tool; cwd]
  | RqFingerprintCheck cache_file _ root _ _ _ => [cache_file; root]
  | RqFingerprintMarkSuccess cache_file | RqFingerprintMarkFailure cache_file | RqFingerprintInvalidate cache_file => [cache_file]
  | RqGenericToolExec tool _ cwd _ input_files _ _ output_files _ _ _ scan dirs system quote depfile _ _ =>
      tool :: cwd :: input_files ++ output_files ++ scan ++ dirs ++ system ++ quote ++ option_list depfile
  | RqReleaseWorktreeHandles path => [path]
  | RqExecProbe _ input_files _ _ => input_files
  | _ => []
  end.

(** A [[u8; 32]] has 32 bytes. *)
Definition request_typed (r : Request) : Prop :=
  match r with
  | RqGenericToolExec _ _ _ _ _ _ _ _ (Some hash) _ _ _ _ _ _ _ _ _ => String.length hash = 32%nat
  | _ => True
  end.

Definition response_paths (r : Response) : list NormalizedPath :=
  match r with
  | RsStatus status => [d_cache_dir status]
  | RsLookupResult (LookupHit a) => outputs_paths (a_outputs a)
  | RsSessionStarted _ journal_path => option_list journal_path
  | RsGenericToolExecResult _ _ _ output_files _ _ => outputs_paths output_files
  | RsReleaseWorktreeHandlesResult _ _ _ unreleased => unreleased
  | _ => []
  end.

(** A [usize] fits 64 bits. *)
Definition response_typed (r : Response) : Prop :=
  match r with
  | RsRustArtifactList l => Forall (fun i => 0 <= ra_payload_count i < 2 ^ 64) l
  | _ => True
  end.

Lemma outputs_roundtrip l :
  Forall path_ok (outputs_paths l) -> collect_res artifact_output_from_prost (map artifact_output_to_prost l) = inr l.
Proof.
  intros H. apply collect_roundtrip. intros [name payload] Hin. unfold artifact_output_from_prost, artifact_output_to_prost. cbn.
  destruct payload as [b|p]; [done|]. cbn. rewrite path_roundtrip; [done|].
  rewrite Forall_forall in H. apply H. unfold outputs_paths. apply list_elem_of_In, in_flat_map.
  exists (mkArtifactOutput name (PayloadPath p)). split; [by apply list_elem_of_In|by left].
Qed.

Lemma artifact_data_roundtrip a :
  Forall path_ok (outputs_paths (a_outputs a)) -> artifact_data_from_prost (artifact_data_to_prost a) = inr a.
Proof.
  intros H. unfold artifact_data_from_prost, artifact_data_to_prost. cbn. rewrite outputs_roundtrip by done. cbn. by destruct a.
Qed.

Lemma session_options_roundtrip o :
  Forall path_ok (option_list (po_cache_dir o)) ->
  private_daemon_session_options_from_prost (private_daemon_session_options_to_prost o) = o.
Proof.
  intros H. destruct o as [name endpoint dir pids env]. unfold private_daemon_session_options_from_prost,
    private_daemon_session_options_to_prost. cbn in *. by rewrite opt_path_roundtrip, env_roundtrip.
Qed.

Lemma session_stats_roundtrip s : session_stats_from_prost (session_stats_to_prost s) = s.
Proof. destruct s as [? ? ? ? ? ? ? ? ? ? ? [] [[? ? ? ? ? ? ? ? ? ? ? ? ? ? ? ? ? ? []]|]]; reflexivity. Qed.

Lemma opt_stats_roundtrip (o : option SessionStats) : session_stats_from_prost <$> (session_stats_to_prost <$> o) = o.
Proof. destruct o as [s|]; [|done]. cbn. by rewrite session_stats_roundtrip. Qed.

Lemma private_status_roundtrip s : private_daemon_status_from_prost (private_daemon_status_to_prost s) = s.
Proof.
  destruct s as [e owners k]. unfold private_daemon_status_from_prost, private_daemon_status_to_prost. cbn. f_equal.
  induction owners as [|[] owners IH]; [done|]. cbn [map]. by rewrite IH.
Qed.

Lemma daemon_status_roundtrip s : path_ok (d_cache_dir s) -> daemon_status_from_prost (daemon_status_to_prost s) = inr s.
Proof.
  intros H. unfold daemon_status_from_prost, daemon_status_to_prost. cbn.
  rewrite private_status_roundtrip, path_roundtrip by done. by destruct s as [? ? ? ? ? ? ? ? ? ? ? ? ? ? ? ? ? ? ? ? ? ? ? ? ? ? ? ? ? ? []].
Qed.

Lemma opt_session_options_roundtrip (o : option PrivateDaemonSessionOptions) :
  Forall path_ok (option_list (o ≫= po_cache_dir)) ->
  private_daemon_session_options_from_prost <$> (private_daemon_session_options_to_prost <$> o) = o.
Proof. destruct o as [o|]; [|done]. intros H. cbn. by rewrite session_options_roundtrip. Qed.

Lemma cache_policy_roundtrip p : exec_cache_policy_from_prost (exec_cache_policy_to_prost p) = inr p.
Proof. by destruct p. Qed.

Lemma streams_roundtrip s : exec_output_streams_from_prost (exec_output_streams_to_prost s) = s.
Proof. by destruct s. Qed.

Lemma tool_hash_roundtrip h :
  match h with Some b => String.length b = 32%nat | None => True end -> tool_hash_from_prost h = inr h.
Proof. destruct h as [b|]; [|done]. intros H. cbn. by rewrite H. Qed.

Lemma rust_info_roundtrip i :
  0 <= ra_payload_count i < 2 ^ 64 -> rust_artifact_info_from_prost (rust_artifact_info_to_prost i) = inr i.
Proof.
  intros H. unfold rust_artifact_info_from_prost, rust_artifact_info_to_prost. cbn [rai_payload_count rai_cache_key rai_output_names].
  rewrite wrap64_small by done. rewrite (proj2 (Z.leb_le _ _)), (proj2 (Z.ltb_lt _ _)) by lia. by destruct i.
Qed.

(** The field lemmas, for rewriting under the conditions in context. *)
Create Rewrite HintDb wire.
#[export] Hint Rewrite path_roundtrip paths_roundtrip opt_path_roundtrip artifact_data_roundtrip opt_session_options_roundtrip
  outputs_roundtrip daemon_status_roundtrip using done : wire.
#[export] Hint Rewrite env_roundtrip optional_env_roundtrip opt_stats_roundtrip cache_policy_roundtrip streams_roundtrip : wire.

(** Requests survive the conversion: every request, of all twenty-one kinds,
    converted to its protocol message and back is the same request, an
    environment that is empty being told from one that is not sent; the only
    conditions are that its paths are valid UTF-8 and that a tool hash has its
    32 bytes. *)
Lemma request_conv_ok (r : Request) (request_id : bytes) :
  Forall path_ok (request_paths r) -> request_typed r ->
  request_from_prost (request_to_prost r request_id) = inr r.
Proof.
  intros Hp Ht. unfold request_from_prost, request_to_prost. cbn [r_body].
  destruct r; cbn [request_body request_paths request_typed] in *; try reflexivity;
    repeat rewrite ?Forall_cons, ?Forall_app in Hp; destruct_and?.
  (* an environment that may be absent *)
  all: try (destruct (optional_env_to_prost env) as [e b] eqn:Hopt;
            pose proof (optional_env_roundtrip env) as Henv; rewrite Hopt in Henv; cbn in Henv).
  all: unfold path_field, paths_to_prost, paths_from_prost; cbn; autorewrite with wire; try done; try (by rewrite Henv).
  rewrite tool_hash_roundtrip by (by destruct tool_hash). cbn. by autorewrite with wire.
Qed.

(** Responses survive the conversion: every response converted to its message and
    back is the same response, whatever of its statistics, profiles and optional
    parts it carries, provided its paths are valid UTF-8 and its counts fit a
    64-bit [usize]. *)
Lemma response_conv_ok (r : Response) (request_id : bytes) :
  Forall path_ok (response_paths r) -> response_typed r ->
  response_from_prost (response_to_prost r request_id) = inr r.
Proof.
  intros Hp Ht. unfold response_from_prost, response_to_prost. cbn [re_body].
  destruct r; cbn [response_body response_paths response_typed] in *; try reflexivity;
    repeat rewrite ?Forall_cons, ?Forall_app in Hp; destruct_and?; cbn; autorewrite with wire; try done.
  - destruct result as [a|]; [|done]. cbn. by rewrite artifact_data_roundtrip.
  - by destruct result.
  - rewrite collect_roundtrip; [done|]. intros i Hi. apply rust_info_roundtrip. rewrite Forall_forall in Ht. by apply Ht.
Qed.

(** The control subset is closed: what it sends it reads, and it reads nothing else. *)
Theorem control_subset (r : Request) :
  Forall path_ok (request_paths r) ->
  match supported_control_request_to_prost r with
  | inr m => supported_control_request_from_prost m = inr r
  | inl _ => forall id, supported_control_request_from_prost (request_to_prost r id) = inl NotControl
  end.
Proof.
  intros Hp. destruct r; cbn [supported_control_request_to_prost]; try (by intros id); try reflexivity.
  all: try (intros id; unfold supported_control_request_from_prost, request_to_prost; cbn;
            by destruct (optional_env_to_prost env)).
  cbn in Hp. apply Forall_cons in Hp as [Hp _].
  unfold supported_control_request_from_prost, request_to_prost, request_from_prost, path_field. cbn. by rewrite path_roundtrip.
Qed.

(** A path that is not valid UTF-8 does not survive: each unreadable piece
    becomes the replacement character, so requests for different directories are
    sent as the same message and the daemon works in a third one. *)
Theorem lossy_paths_collide (a b : ascii) (request_id : bytes) :
  0xF8 <= byte_val a -> 0xF8 <= byte_val b ->
  let request c := RqCompile "s" ["-c"; "x.c"] (String "/" (String c "")) "/usr/bin/cc" None "" in
  request_to_prost (request a) request_id = request_to_prost (request b) request_id /\
  request_from_prost (request_to_prost (request a) request_id) =
    inr (RqCompile "s" ["-c"; "x.c"] (String "/" REPLACEMENT) "/usr/bin/cc" None "").
Proof.
  intros Ha Hb request.
  assert (forall c, 0xF8 <= byte_val c -> from_utf8_lossy (String "/" (String c "")) = String "/" REPLACEMENT) as Hl.
  { intros c Hc. pose proof (byte_val_bound c). unfold from_utf8_lossy. cbn [String.length utf8_lossy utf8_first].
    change (byte_val "/"%char <? 0x80) with true. cbn [fst snd String.substring String.append str_skip utf8_lossy utf8_first].
    replace (byte_val c <? 0x80) with false by lia. replace ((0xC2 <=? byte_val c) && (byte_val c <=? 0xDF)) with false by lia.
    replace ((0xE0 <=? byte_val c) && (byte_val c <=? 0xEF)) with false by lia.
    replace ((0xF0 <=? byte_val c) && (byte_val c <=? 0xF4)) with false by lia. done. }
  split.
  - unfold request_to_prost, request. cbn [request_body optional_env_to_prost]. unfold path_to_prost. by rewrite !Hl.
  - unfold request_to_prost, request, request_from_prost. cbn [request_body optional_env_to_prost r_body].
    unfold path_to_prost. rewrite Hl by done. vm_compute. reflexivity.
Qed.

(** ** Witnesses *)

Lemma lossy_paths_collide_witness :
  let request c := RqCompile "s" ["-c"; "x.c"] (String "/" (String c "")) "/usr/bin/cc" None "" in
  request_to_prost (request (ascii_of_nat 0xFE)) "id" = request_to_prost (request (ascii_of_nat 0xFF)) "id".
Proof.
  intros request. exact (proj1 (lossy_paths_collide (ascii_of_nat 0xFE) (ascii_of_nat 0xFF) "id"
    ltac:(vm_compute; discriminate) ltac:(vm_compute; discriminate))).
Defined.
