(* ===== verification/Wire.v ===== *)
(** * The wire between client and daemon ([zccache-protocol], [zccache-ipc])

    Frames and how a connection reads and writes them: the direct frames
    ([wire_prost/frame.rs]), the messages inside a broker's frame
    ([wire_frame.rs]), telling one from the other and decoding a buffer
    ([lib.rs]), the choice of the lane ([wire_prost/mod.rs], [api.rs]), and the
    connection that sends, buffers what arrives in arbitrary pieces, times out,
    and answers identity probes ([transport/mod.rs], [framing.rs], [probe.rs],
    [full_family.rs]).

    The protobuf codec of a message and the broker's frame codec are packages
    the sources only call: they are the classes [Prost] and [DaemonFrames], with
    the laws the code relies on in [ProstLaws] and [DaemonFrameLaws]. *)

From stdpp Require Import list strings.
From Stdlib Require Import Lia.
From S2P Require Import Prelude Path RustStr Depfile WireMessages.

#[local] Open Scope Z_scope.

(** ** Bytes and machine words *)

(** [u32::from_le_bytes] and [put_u32_le]. *)
Definition u32_from_le (a b c d : ascii) : Z :=
  byte_val a + 256 * byte_val b + 65536 * byte_val c + 16777216 * byte_val d.
Definition u32_to_le (n : Z) : bytes :=
  String (byte_of (n `mod` 256)) (String (byte_of ((n `div` 256) `mod` 256))
    (String (byte_of ((n `div` 65536) `mod` 256)) (String (byte_of ((n `div` 16777216) `mod` 256)) ""))).

(** [u32::from_le_bytes([buf[o], buf[o+1], buf[o+2], buf[o+3]])]; the code reads it
    only after a check of the length. *)
Definition u32_at (o : nat) (buf : bytes) : Z :=
  match str_skip o buf with
  | String a (String b (String c (String d _))) => u32_from_le a b c d
  | _ => 0
  end.

Definition buf_len (buf : bytes) : Z := Z.of_nat (String.length buf).
Definition buf_is_empty (buf : bytes) : bool := match buf with EmptyString => true | String _ _ => false end.

(** ** The packages the wire is built on *)

(** A protobuf message: [pb_value] says which model values are values of the
    generated type (text is UTF-8, numbers are in range); encoding into a vector
    does not fail. *)
Class Prost (M : Type) := {
  pb_value : M -> Prop;
  pb_encode : M -> bytes;
  pb_decode : bytes -> option M
}.
Class ProstLaws (M : Type) `{!Prost M} := {
  pb_roundtrip : forall m : M, pb_value m -> pb_decode (pb_encode m) = Some m
}.

Inductive DaemonFrameKind := FkRequest | FkResponse | FkOther (kind : Z).
Inductive DaemonPayloadEncoding := PeNone | PeOther (encoding : Z).
Inductive DaemonFrameError := FrameTooLarge (body_length : Z) | FrameErrorOther.

(** [kernal_api::daemon_frame_v1]. *)
Class DaemonFrames := {
  DaemonFrame : Type;
  frame_request : Z -> bytes -> DaemonFrame;
  with_request_id : DaemonFrame -> Z -> DaemonFrame;
  frame_response_to : DaemonFrame -> bytes -> DaemonFrame;
  envelope_version : DaemonFrame -> Z;
  payload_protocol : DaemonFrame -> Z;
  kind_classification : DaemonFrame -> DaemonFrameKind;
  payload_encoding_classification : DaemonFrame -> DaemonPayloadEncoding;
  frame_payload : DaemonFrame -> bytes;
  frame_request_id : DaemonFrame -> Z;
  codec_encode : DaemonFrame -> DaemonFrameError + bytes;
  (** [Some (frame, consumed)], or [None] when more bytes are needed. *)
  codec_decode : bytes -> DaemonFrameError + option (DaemonFrame * nat);
  DAEMON_FRAME_V1_MAX_BODY_BYTES : Z
}.
Definition DAEMON_FRAME_V1_VERSION : Z := 1.

(** ** Errors ([ProtocolError]; the text of a message is the case it is built in) *)

Inductive DeserReason :=
  | FrameTooSmall
  | BadFrame
  | BadEnvelopeVersion (version : Z)
  | ForeignPayloadProtocol (protocol : Z)
  | UnsupportedKind
  | UnsupportedEncoding
  | BadBody
  | BadMessage (e : ConvError).
Inductive ProtocolError :=
  | Serialization
  | Deserialization (why : DeserReason)
  | MessageTooLarge (len : Z)
  | VersionMismatch (expected received : Z).

Definition PROST_PROTOCOL_VERSION : Z := 26.
Definition RETIRED_BINCODE_PROTOCOL_VERSION : Z := 25.
Definition MAX_MESSAGE_SIZE : Z := 16 * 1024 * 1024.
Definition ZCCACHE_FRAME_PAYLOAD_PROTOCOL : Z := 0x7A63.

(** ** Choice of the lane ([wire_prost/mod.rs], [api.rs]) *)

Inductive WireFormat := ProstV16 | FrameV1.
Inductive ClientWireSelection := SelAuto | SelProstV16 | SelFrameV1.
#[global] Instance WireFormat_eq_dec : EqDecision WireFormat.
Proof. solve_decision. Defined.

Definition protocol_version (w : WireFormat) : option Z :=
  match w with ProstV16 => Some PROST_PROTOCOL_VERSION | FrameV1 => None end.
Definition preferred_format (s : ClientWireSelection) : WireFormat :=
  match s with SelAuto | SelProstV16 => ProstV16 | SelFrameV1 => FrameV1 end.
Definition wire_format_for_protocol_version (version : Z) : option WireFormat :=
  if version =? PROST_PROTOCOL_VERSION then Some ProstV16 else None.

(** The error is the value that was not recognized. *)
Definition client_wire_selection_from_env_value (value : option bytes) : bytes + ClientWireSelection :=
  match value with
  | None => inr SelAuto
  | Some value =>
      let v := to_ascii_lowercase (str_trim value) in
      if bool_decide (v ∈ [""; "auto"]) then inr SelAuto
      else if bool_decide (v ∈ ["prost"; "prost-v16"; "v16"]) then inr SelProstV16
      else if bool_decide (v ∈ ["frame"; "frame-v1"]) then inr SelFrameV1
      else inl v
  end.
Definition wire_format_from_env_value (value : option bytes) : bytes + WireFormat :=
  match client_wire_selection_from_env_value value with inl e => inl e | inr s => inr (preferred_format s) end.
(** The environment's value is given. *)
Definition full_family_wire_format_from_env (value : option bytes) : bytes + WireFormat :=
  match client_wire_selection_from_env_value value with
  | inl e => inl e
  | inr SelFrameV1 => inr FrameV1
  | inr (SelAuto | SelProstV16) => inr ProstV16
  end.

(** ** Frames *)

Inductive DecodedWireMessage (M : Type) :=
  | DwProstV16 (message : M)
  | DwFrameV1 (message : M) (request_id : Z).
Arguments DwProstV16 {M}.
Arguments DwFrameV1 {M}.
Definition dw_message {M} (d : DecodedWireMessage M) : M :=
  match d with DwProstV16 m => m | DwFrameV1 m _ => m end.
Definition wire_format {M} (d : DecodedWireMessage M) : WireFormat :=
  match d with DwProstV16 _ => ProstV16 | DwFrameV1 _ _ => FrameV1 end.

Definition dw_request_id {M} (d : DecodedWireMessage M) : option Z :=
  match d with DwProstV16 _ => None | DwFrameV1 _ id => Some id end.

Record FrameV1Decoded (M : Type) := mkFrameV1Decoded { fd_message : M; fd_request_id : Z }.
Arguments mkFrameV1Decoded {M}.
Arguments fd_message {M}.
Arguments fd_request_id {M}.

(** A decoder works on the buffer: it returns a message, nothing until more bytes
    have arrived, or an error, and the buffer it leaves. *)
Definition decoding (A : Type) : Type := (ProtocolError + option A) * bytes.

(** [buffer_starts_running_process_frame]. *)
Definition buffer_starts_running_process_frame (buf : bytes) : option bool :=
  match buf with
  | EmptyString => None
  | String b0 _ =>
      if negb (byte_val b0 =? DAEMON_FRAME_V1_VERSION) then Some false
      else if buf_len buf <? 8 then None
      else
        let zccache_len := u32_at 0 buf in
        let zccache_version := u32_at 4 buf in
        Some (negb ((4 <=? zccache_len) &&
                    ((zccache_version =? PROST_PROTOCOL_VERSION) || (zccache_version =? RETIRED_BINCODE_PROTOCOL_VERSION))))
  end.

(** [peek_frame_protocol_version]. *)
Definition peek_frame_protocol_version (buf : bytes) : ProtocolError + option Z :=
  if buf_len buf <? 4 then inr None
  else
    let len := u32_at 0 buf in
    if MAX_MESSAGE_SIZE <? len then inl (MessageTooLarge len)
    else if len <? 4 then inl (Deserialization FrameTooSmall)
    else if buf_len buf <? 4 + len then inr None
    else inr (Some (u32_at 4 buf)).

Section codec.
  Context {M : Type} `{!Prost M} `{!DaemonFrames}.

(** [encode_prost_message]. *)
Definition encode_prost_message (msg : M) : ProtocolError + bytes :=
  let payload := pb_encode msg in
  if 2 ^ 32 <=? 4 + buf_len payload then inl (MessageTooLarge (buf_len payload))
  else inr (u32_to_le (4 + buf_len payload) +:+ u32_to_le PROST_PROTOCOL_VERSION +:+ payload).

(** [decode_prost_message]: the frame leaves the buffer before it is looked into. *)
Definition decode_prost_message (buf : bytes) : decoding M :=
  if buf_len buf <? 4 then (inr None, buf)
  else
    let len := u32_at 0 buf in
    if MAX_MESSAGE_SIZE <? len then (inl (MessageTooLarge len), buf)
    else if buf_len buf <? 4 + len then (inr None, buf)
    else if len <? 4 then (inl (Deserialization FrameTooSmall), buf)
    else
      let frame := String.substring 4 (Z.to_nat len) buf in
      let buf := str_skip (4 + Z.to_nat len) buf in
      let remote_ver := u32_at 0 frame in
      if negb (remote_ver =? PROST_PROTOCOL_VERSION)
      then (inl (VersionMismatch PROST_PROTOCOL_VERSION remote_ver), buf)
      else match pb_decode (str_skip 4 frame) with
           | Some m => (inr (Some m), buf)
           | None => (inl (Deserialization BadBody), buf)
           end.

(** [encode_framed_bytes]. *)
Definition encode_framed_bytes (frame : DaemonFrame) : ProtocolError + bytes :=
  match codec_encode frame with
  | inr b => inr b
  | inl (FrameTooLarge body_length) => inl (MessageTooLarge body_length)
  | inl FrameErrorOther => inl Serialization
  end.

(** [encode_frame_v1_request]. *)
Definition encode_frame_v1_request (msg : M) (request_id : Z) : ProtocolError + bytes :=
  encode_framed_bytes (with_request_id (frame_request ZCCACHE_FRAME_PAYLOAD_PROTOCOL (pb_encode msg)) request_id).

(** [encode_frame_v1_response]. *)
Definition encode_frame_v1_response (msg : M) (request_id : Z) : ProtocolError + bytes :=
  let template := with_request_id (frame_request ZCCACHE_FRAME_PAYLOAD_PROTOCOL "") request_id in
  encode_framed_bytes (frame_response_to template (pb_encode msg)).

(** [decode_frame_v1_message]: the frame leaves the buffer only when its message
    was read. *)
Definition decode_frame_v1_message (buf : bytes) : decoding (FrameV1Decoded M) :=
  match codec_decode buf with
  | inr None => (inr None, buf)
  | inl (FrameTooLarge body_length) => (inl (MessageTooLarge body_length), buf)
  | inl FrameErrorOther => (inl (Deserialization BadFrame), buf)
  | inr (Some (frame, consumed)) =>
      if negb (envelope_version frame =? 1) then (inl (Deserialization (BadEnvelopeVersion (envelope_version frame))), buf)
      else if negb (payload_protocol frame =? ZCCACHE_FRAME_PAYLOAD_PROTOCOL)
      then (inl (Deserialization (ForeignPayloadProtocol (payload_protocol frame))), buf)
      else match kind_classification frame with
           | FkOther _ => (inl (Deserialization UnsupportedKind), buf)
           | FkRequest | FkResponse =>
               match payload_encoding_classification frame with
               | PeOther _ => (inl (Deserialization UnsupportedEncoding), buf)
               | PeNone =>
                   match pb_decode (frame_payload frame) with
                   | None => (inl (Deserialization BadBody), buf)
                   | Some message => (inr (Some (mkFrameV1Decoded message (frame_request_id frame))), str_skip consumed buf)
                   end
               end
           end
  end.

(** [decode_wire_message]. *)
Definition decode_wire_message (buf : bytes) : decoding (DecodedWireMessage M) :=
  match buffer_starts_running_process_frame buf with
  | None => (inr None, buf)
  | Some true =>
      match decode_frame_v1_message buf with
      | (inl e, buf) => (inl e, buf)
      | (inr None, buf) => (inr None, buf)
      | (inr (Some frame), buf) => (inr (Some (DwFrameV1 (fd_message frame) (fd_request_id frame))), buf)
      end
  | Some false =>
      match peek_frame_protocol_version buf with
      | inl e => (inl e, buf)
      | inr None => (inr None, buf)
      | inr (Some version) =>
          match wire_format_for_protocol_version version with
          | Some ProstV16 =>
              match decode_prost_message buf with
              | (inl e, buf) => (inl e, buf)
              | (inr None, buf) => (inr None, buf)
              | (inr (Some m), buf) => (inr (Some (DwProstV16 m)), buf)
              end
          | Some FrameV1 | None => (inl (VersionMismatch PROST_PROTOCOL_VERSION version), buf)
          end
      end
  end.
End codec.

(** ** A connection ([transport/mod.rs], [framing.rs]) *)

Inductive IpcError :=
  | Io
  | Protocol (e : ProtocolError)
  | ConnectionClosed
  | Endpoint
  | Timeout (d : Z).

(** What reading the socket meets next: bytes (none means the end), a fault, or
    the deadline of the receive that waits, at which its future is dropped. *)
Inductive ReadEvent := Data (chunk : bytes) | Fault | Deadline.

Record IpcConnection := mkIpcConnection {
  (** What the reader will still meet; after the last event the stream has ended. *)
  reader : list ReadEvent;
  (** What has been written. *)
  writer : bytes;
  read_buf : bytes;
  recv_timeout : option Z;
  next_frame_request_id : Z
}.

(** [from_stream]. *)
Definition from_stream (events : list ReadEvent) : IpcConnection := mkIpcConnection events "" "" None 1.
Definition set_recv_timeout (t : Z) (c : IpcConnection) : IpcConnection :=
  mkIpcConnection (reader c) (writer c) (read_buf c) (Some t) (next_frame_request_id c).
Definition clear_recv_timeout (c : IpcConnection) : IpcConnection :=
  mkIpcConnection (reader c) (writer c) (read_buf c) None (next_frame_request_id c).
Definition with_read (events : list ReadEvent) (buf : bytes) (c : IpcConnection) : IpcConnection :=
  mkIpcConnection events (writer c) buf (recv_timeout c) (next_frame_request_id c).
(** [write_all] and [flush]. *)
Definition write_all (b : bytes) (c : IpcConnection) : IpcConnection :=
  mkIpcConnection (reader c) (writer c +:+ b) (read_buf c) (recv_timeout c) (next_frame_request_id c).

(** [read_next_chunk] on what the read returned: [None] when the stream has ended. *)
Definition read_next_chunk (read : option bytes) (buf : bytes) : (IpcError + bool) * bytes :=
  match read with
  | Some (String _ _ as tmp) => (inr true, buf +:+ tmp)
  | Some EmptyString | None => if buf_is_empty buf then (inr false, buf) else (inl ConnectionClosed, buf)
  end.
Section connection.
  Context `{!DaemonFrames}.

(** [recv_wire_loop], with the deadline of [recv_wire_with_timeout] if there is
    one; without one a [Deadline] is passed over.  What is left is the events and
    the buffer. *)
Fixpoint recv_wire_loop {M} `{!Prost M} (timeout : option Z) (events : list ReadEvent) (buf : bytes) :
    (IpcError + option (DecodedWireMessage M)) * (list ReadEvent * bytes) :=
  match decode_wire_message buf with
  | (inl e, buf) => (inl (Protocol e), (events, buf))
  | (inr (Some msg), buf) => (inr (Some msg), (events, buf))
  | (inr None, buf) =>
      match events with
      | [] =>
          match read_next_chunk None buf with
          | (inl e, buf) => (inl e, ([], buf))
          | (inr _, buf) => (inr None, ([], buf))
          end
      | Fault :: rest => (inl Io, (rest, buf))
      | Deadline :: rest =>
          match timeout with
          | Some t => (inl (Timeout t), (rest, buf))
          | None => recv_wire_loop timeout rest buf
          end
      | Data chunk :: rest =>
          match read_next_chunk (Some chunk) buf with
          | (inl e, buf) => (inl e, (rest, buf))
          | (inr false, buf) => (inr None, (rest, buf))
          | (inr true, buf) => recv_wire_loop timeout rest buf
          end
      end
  end.

(** [recv_wire] and [recv_wire_with_timeout]. *)
Definition recv_wire_at {M} `{!Prost M} (timeout : option Z) (c : IpcConnection) :
    (IpcError + option (DecodedWireMessage M)) * IpcConnection :=
  match recv_wire_loop timeout (reader c) (read_buf c) with (r, (events, buf)) => (r, with_read events buf c) end.
Definition recv_wire {M} `{!Prost M} (c : IpcConnection) := recv_wire_at (M := M) (recv_timeout c) c.
Definition recv_wire_with_timeout {M} `{!Prost M} (timeout : Z) (c : IpcConnection) := recv_wire_at (M := M) (Some timeout) c.

(** [wait_for_disconnect]: [true] when the peer is gone, [false] when the future
    was dropped first. *)
Fixpoint wait_for_disconnect (events : list ReadEvent) (buf : bytes) : bool * (list ReadEvent * bytes) :=
  match events with
  | [] => (true, ([], buf))
  | Fault :: rest => (true, (rest, buf))
  | Deadline :: rest => (false, (rest, buf))
  | Data chunk :: rest =>
      match read_next_chunk (Some chunk) buf with
      | (inr true, buf) => wait_for_disconnect rest buf
      | (_, buf) => (true, (rest, buf))
      end
  end.

(** [send_prost]. *)
Definition send_prost {M} `{!Prost M} (msg : M) (c : IpcConnection) : (IpcError + unit) * IpcConnection :=
  match encode_prost_message msg with
  | inl e => (inl (Protocol e), c)
  | inr buf => (inr tt, write_all buf c)
  end.

(** [send_frame_v1_request]: the id is taken before the encoding may fail. *)
Definition send_frame_v1_request {M} `{!Prost M} (msg : M) (c : IpcConnection) : (IpcError + Z) * IpcConnection :=
  let request_id := next_frame_request_id c in
  let c := mkIpcConnection (reader c) (writer c) (read_buf c) (recv_timeout c) (wrap64 (next_frame_request_id c + 1)) in
  match encode_frame_v1_request msg request_id with
  | inl e => (inl (Protocol e), c)
  | inr buf => (inr request_id, write_all buf c)
  end.

(** [send_frame_v1_response]. *)
Definition send_frame_v1_response {M} `{!Prost M} (msg : M) (request_id : Z) (c : IpcConnection) :
    (IpcError + unit) * IpcConnection :=
  match encode_frame_v1_response msg request_id with
  | inl e => (inl (Protocol e), c)
  | inr buf => (inr tt, write_all buf c)
  end.

Section messages.
  Context `{!Prost PbRequest} `{!Prost PbResponse}.

(** [send_request]. *)
Definition send_request (request : Request) (wire : WireFormat) (c : IpcConnection) : (IpcError + unit) * IpcConnection :=
  let request := request_to_prost request (default_request_id request) in
  match wire with
  | ProstV16 => send_prost request c
  | FrameV1 =>
      match send_frame_v1_request request c with
      | (inl e, c) => (inl e, c)
      | (inr _, c) => (inr tt, c)
      end
  end.

(** [DaemonWireMessage] for responses, and [send]. *)
Definition response_message (r : Response) : PbResponse := response_to_prost r "unpaired-response".
Definition send_response (r : Response) (c : IpcConnection) : (IpcError + unit) * IpcConnection :=
  send_prost (response_message r) c.

(** [response_from_decoded_wire]. *)
Definition response_from_decoded_wire (message : DecodedWireMessage PbResponse) : ProtocolError + Response :=
  match response_from_prost (dw_message message) with
  | inr r => inr r
  | inl e => inl (Deserialization (BadMessage e))
  end.

(** [decode_response_wire]. *)
Definition decode_response_wire (message : option (DecodedWireMessage PbResponse)) : IpcError + option Response :=
  match message with
  | None => inr None
  | Some message =>
      match response_from_decoded_wire message with inr r => inr (Some r) | inl e => inl (Protocol e) end
  end.

(** [recv_response_with_timeout] (and [recv_response_for_wire_with_timeout], which
    ignores the lane it is given). *)
Definition recv_response_with_timeout (timeout : Z) (c : IpcConnection) : (IpcError + option Response) * IpcConnection :=
  match recv_wire_with_timeout timeout c with
  | (inl e, c) => (inl e, c)
  | (inr message, c) => (decode_response_wire message, c)
  end.

(** [recv_loop] for requests. *)
Definition recv_request (c : IpcConnection) : (IpcError + option Request) * IpcConnection :=
  match recv_wire (M := PbRequest) c with
  | (inl e, c) => (inl e, c)
  | (inr None, c) => (inr None, c)
  | (inr (Some message), c) =>
      match request_from_prost (dw_message message) with
      | inr r => (inr (Some r), c)
      | inl e => (inl (Protocol (Deserialization (BadMessage e))), c)
      end
  end.

(** [full_family.rs]: a request and its answer, and whether a failure came before
    anything could have been delivered.  [connected] is what connecting gives. *)
Inductive FullFamilyFailurePhase := PreDispatch | DeliveryUnknown.
Record FullFamilyRoundtripFailure := mkFullFamilyRoundtripFailure { phase : FullFamilyFailurePhase; error : IpcError }.
Definition DEFAULT_CLIENT_RECV_TIMEOUT : Z := 300.

(** [send_full_family_classified]. *)
Definition send_full_family_classified (connected : IpcError + IpcConnection) (request : Request) (timeout : option Z)
    (wire : WireFormat) : (FullFamilyRoundtripFailure + option Response) * bytes :=
  match connected with
  | inl e => (inl (mkFullFamilyRoundtripFailure PreDispatch e), "")
  | inr conn =>
      match send_request request wire conn with
      | (inl e, conn) => (inl (mkFullFamilyRoundtripFailure DeliveryUnknown e), writer conn)
      | (inr _, conn) =>
          match recv_response_with_timeout (default DEFAULT_CLIENT_RECV_TIMEOUT timeout) conn with
          | (inl e, conn) => (inl (mkFullFamilyRoundtripFailure DeliveryUnknown e), writer conn)
          | (inr r, conn) => (inr r, writer conn)
          end
      end
  end.
(** [full_family_roundtrip_classified]. *)
Definition full_family_roundtrip_classified (env : option bytes) (connected : IpcError + IpcConnection) (request : Request)
    (timeout : option Z) : (FullFamilyRoundtripFailure + option Response) * bytes :=
  match client_wire_selection_from_env_value env with
  | inl _ => (inl (mkFullFamilyRoundtripFailure PreDispatch Endpoint), "")
  | inr selection => send_full_family_classified connected request timeout (preferred_format selection)
  end.
End messages.

(** ** Identity probes ([probe.rs]) *)

Inductive LegacyPrefix := NotLegacy | LegacyNeedMoreBytes.
Inductive ProbeMuxResult := ProbeReply (reply : bytes) (consumed : nat) | ProductFrame | MuxLegacy | MuxNeedMoreBytes.

(** [ensure_buffered]. *)
Fixpoint ensure_buffered (events : list ReadEvent) (buf : bytes) (min_len : Z) : (IpcError + unit) * (list ReadEvent * bytes) :=
  if min_len <=? buf_len buf then (inr tt, (events, buf))
  else
    let closed events buf := if buf_is_empty buf then (inr tt, (events, buf)) else (inl ConnectionClosed, (events, buf)) in
    match events with
    | [] => match read_next_chunk None buf with (inl e, buf) => (inl e, ([], buf)) | (inr _, buf) => closed [] buf end
    | Fault :: rest => (inl Io, (rest, buf))
    | Deadline :: rest => ensure_buffered rest buf min_len
    | Data chunk :: rest =>
        match read_next_chunk (Some chunk) buf with
        | (inl e, buf) => (inl e, (rest, buf))
        | (inr false, buf) => closed rest buf
        | (inr true, buf) => ensure_buffered rest buf min_len
        end
    end.

Definition FRAME_V1_HEADER_BYTES : Z := 5.

(** [try_serve_backend_handle_probe]; the probe's responder is a parameter. *)
Definition try_serve_backend_handle_probe (poll : bytes -> LegacyPrefix -> option ProbeMuxResult) (c : IpcConnection) :
    (IpcError + bool) * IpcConnection :=
  match ensure_buffered (reader c) (read_buf c) 8 with
  | (inl e, (events, buf)) => (inl e, with_read events buf c)
  | (inr _, (events, buf)) =>
      match buf with
      | EmptyString => (inr false, with_read events buf c)
      | String b0 _ =>
          if negb (byte_val b0 =? DAEMON_FRAME_V1_VERSION) then (inr false, with_read events buf c)
          else match buffer_starts_running_process_frame buf with
               | Some false => (inr false, with_read events buf c)
               | prefix =>
                   let legacy_prefix := match prefix with Some _ => NotLegacy | None => LegacyNeedMoreBytes end in
                   let body_len := u32_at 1 buf in
                   if DAEMON_FRAME_V1_MAX_BODY_BYTES <? body_len then (inl Endpoint, with_read events buf c)
                   else match ensure_buffered events buf (FRAME_V1_HEADER_BYTES + body_len) with
                        | (inl e, (events, buf)) => (inl e, with_read events buf c)
                        | (inr _, (events, buf)) =>
                            match poll buf legacy_prefix with
                            | Some (ProbeReply reply consumed) =>
                                (inr true, write_all reply (with_read events (str_skip consumed buf) c))
                            | Some (ProductFrame | MuxLegacy | MuxNeedMoreBytes) => (inr false, with_read events buf c)
                            | None => (inl Endpoint, with_read events buf c)
                            end
                        end
               end
      end
  end.
End connection.

(** ** What the code relies on *)

Class DaemonFrameLaws `{!DaemonFrames} := {
  request_frame_fields : forall protocol payload id, 0 <= id < 2 ^ 64 ->
    let f := with_request_id (frame_request protocol payload) id in
    envelope_version f = 1 /\ payload_protocol f = protocol /\ kind_classification f = FkRequest /\
    payload_encoding_classification f = PeNone /\ frame_payload f = payload /\ frame_request_id f = id;
  response_frame_fields : forall protocol payload payload' id, 0 <= id < 2 ^ 64 ->
    let f := frame_response_to (with_request_id (frame_request protocol payload) id) payload' in
    envelope_version f = 1 /\ payload_protocol f = protocol /\ kind_classification f = FkResponse /\
    payload_encoding_classification f = PeNone /\ frame_payload f = payload' /\ frame_request_id f = id;
  (** The envelope: the version, the length of the body, the body, which holds at
      least the fields that are not zero. *)
  codec_shape : forall f b, codec_encode f = inr b -> envelope_version f = 1 -> payload_protocol f <> 0 ->
    exists body, b = String (byte_of DAEMON_FRAME_V1_VERSION) (u32_to_le (buf_len body) +:+ body) /\
                 3 <= buf_len body <= DAEMON_FRAME_V1_MAX_BODY_BYTES;
  codec_whole : forall f b rest, codec_encode f = inr b -> codec_decode (b +:+ rest) = inr (Some (f, String.length b));
  codec_partial : forall f p q, codec_encode f = inr (p +:+ q) -> q <> "" -> codec_decode p = inr None;
  (** The size limit keeps the length's top byte below the versions a direct
      frame has in its place. *)
  max_body_small : DAEMON_FRAME_V1_MAX_BODY_BYTES < 25 * 2 ^ 24
}.

(** ** Lemmas on buffers *)

Lemma buf_len_app a b : buf_len (a +:+ b) = buf_len a + buf_len b.
Proof. unfold buf_len. rewrite string_length_app. lia. Qed.

Lemma buf_len_nonneg a : 0 <= buf_len a.
Proof. unfold buf_len. lia. Qed.

Lemma buf_len_u32 n : buf_len (u32_to_le n) = 4.
Proof. done. Qed.

Lemma buf_len_String c s : buf_len (String c s) = 1 + buf_len s.
Proof. unfold buf_len. cbn [String.length]. lia. Qed.

Lemma buf_len_empty s : buf_len s = 0 -> s = "".
Proof. destruct s; [done|]. rewrite buf_len_String. pose proof (buf_len_nonneg s). lia. Qed.

(** Two ways of cutting one string. *)
Lemma app_cut (a b c d : bytes) :
  a +:+ b = c +:+ d ->
  (exists k, a = c +:+ k /\ d = k +:+ b) \/ (exists k, k <> "" /\ c = a +:+ k /\ b = k +:+ d).
Proof.
  revert c. induction a as [|x a IH]; intros c H.
  - destruct c as [|y c]; [left; by exists ""|]. right. exists (String y c). by cbn in *.
  - destruct c as [|y c]; [left; by exists (String x a)|]. cbn in H. injection H as <- H.
    destruct (IH c H) as [(k & -> & ->)|(k & Hk & -> & ->)]; [left|right]; by exists k.
Qed.

Lemma skip_app_r n a b : (n <= String.length a)%nat -> str_skip n (a +:+ b) = str_skip n a +:+ b.
Proof.
  revert n. induction a as [|c a IH]; intros n H; cbn in *; [by replace n with O by lia|].
  destruct n; [done|]. cbn. apply IH. lia.
Qed.

Lemma skip_app_len a b : str_skip (String.length a) (a +:+ b) = b.
Proof. induction a as [|c a IH]; [done|exact IH]. Qed.

Lemma substring_whole a b : String.substring 0 (String.length a) (a +:+ b) = a.
Proof. induction a as [|c a IH]; cbn; [by destruct b|by rewrite IH]. Qed.

(** A word is read from the part of the buffer it lies in. *)
Lemma u32_at_app o a b : (o + 4 <= String.length a)%nat -> u32_at o (a +:+ b) = u32_at o a.
Proof.
  intros H. unfold u32_at. rewrite skip_app_r by lia.
  assert (4 <= String.length (str_skip o a))%nat as Hl.
  { revert a H. induction o as [|o IH]; intros a H; [done|]. destruct a; cbn in *; [lia|]. apply IH. lia. }
  destruct (str_skip o a) as [|x [|y [|z [|w r]]]]; cbn in Hl; try lia. done.
Qed.

Lemma u32_roundtrip n : 0 <= n < 2 ^ 32 -> u32_at 0 (u32_to_le n) = n.
Proof.
  intros H. unfold u32_at, u32_to_le. cbn [str_skip]. unfold u32_from_le.
  rewrite !byte_val_of by (apply Z.mod_pos_bound; lia).
  pose proof (Z.div_mod n 256 ltac:(lia)). pose proof (Z.div_mod (n `div` 256) 256 ltac:(lia)).
  pose proof (Z.div_mod (n `div` 65536) 256 ltac:(lia)).
  pose proof (Z.div_div n 256 256 ltac:(lia) ltac:(lia)) as E1. change (256 * 256) with 65536 in E1.
  pose proof (Z.div_div n 65536 256 ltac:(lia) ltac:(lia)) as E2. change (65536 * 256) with 16777216 in E2.
  rewrite (Z.mod_small (n `div` 16777216)) by (split; [apply Z.div_pos; lia|apply Z.div_lt_upper_bound; lia]). lia.
Qed.

Lemma u32_at_0 n s : 0 <= n < 2 ^ 32 -> u32_at 0 (u32_to_le n +:+ s) = n.
Proof. intros H. rewrite u32_at_app by (cbn; lia). by apply u32_roundtrip. Qed.

Lemma u32_at_4 n m s : 0 <= m < 2 ^ 32 -> u32_at 4 (u32_to_le n +:+ u32_to_le m +:+ s) = m.
Proof.
  intros H. unfold u32_at. rewrite (skip_app_len (u32_to_le n)). exact (u32_at_0 m s H).
Qed.

(** ** Frames one after another *)

Section frames.
  Context {M : Type} `{!Prost M, !ProstLaws M} `{!DaemonFrames, !DaemonFrameLaws}.

(** A message as it is sent: on the direct lane, or in a frame with its number. *)
Inductive Sent := Direct (m : M) | FrameRequest (m : M) (id : Z) | FrameResponse (m : M) (id : Z).
Definition encode_sent (s : Sent) : ProtocolError + bytes :=
  match s with
  | Direct m => encode_prost_message m
  | FrameRequest m id => encode_frame_v1_request m id
  | FrameResponse m id => encode_frame_v1_response m id
  end.
Definition received (s : Sent) : DecodedWireMessage M :=
  match s with Direct m => DwProstV16 m | FrameRequest m id | FrameResponse m id => DwFrameV1 m id end.
(** The reader takes a direct frame up to its size limit; the other lane's limit is
    the codec's, which the writer has too. *)
Definition receivable (s : Sent) : Prop :=
  match s with
  | Direct m => pb_value m /\ 4 + buf_len (pb_encode m) <= MAX_MESSAGE_SIZE
  | FrameRequest m id | FrameResponse m id => pb_value m /\ 0 <= id < 2 ^ 64
  end.

(** The frame a message is sent in on the second lane. *)
Lemma encode_framed_inv f b : encode_framed_bytes f = inr b -> codec_encode f = inr b.
Proof. unfold encode_framed_bytes. destruct (codec_encode f) as [[]|]; congruence. Qed.

Lemma sent_frame s b : encode_sent s = inr b -> receivable s ->
  match s with
  | Direct m => b = u32_to_le (4 + buf_len (pb_encode m)) +:+ u32_to_le PROST_PROTOCOL_VERSION +:+ pb_encode m
  | FrameRequest m id | FrameResponse m id =>
      exists f, codec_encode f = inr b /\ envelope_version f = 1 /\
        payload_protocol f = ZCCACHE_FRAME_PAYLOAD_PROTOCOL /\
        (kind_classification f = FkRequest \/ kind_classification f = FkResponse) /\
        payload_encoding_classification f = PeNone /\ frame_payload f = pb_encode m /\ frame_request_id f = id
  end.
Proof.
  destruct s as [m|m id|m id]; cbn [encode_sent receivable]; intros He [Hv Hr].
  - unfold encode_prost_message in He. destruct (_ <=? _); congruence.
  - apply encode_framed_inv in He. eexists. split; [exact He|].
    destruct (request_frame_fields ZCCACHE_FRAME_PAYLOAD_PROTOCOL (pb_encode m) id Hr) as (?&?&?&?&?&?). auto 10.
  - apply encode_framed_inv in He. eexists. split; [exact He|].
    destruct (response_frame_fields ZCCACHE_FRAME_PAYLOAD_PROTOCOL "" (pb_encode m) id Hr) as (?&?&?&?&?&?). auto 10.
Qed.

(** A direct frame is not taken for the other lane, whatever its length is, and a
    piece of it is waited on. *)
Lemma direct_not_frame n p q r :
  4 <= n < 2 ^ 32 -> u32_to_le n +:+ u32_to_le PROST_PROTOCOL_VERSION +:+ r = p +:+ q ->
  buffer_starts_running_process_frame p = Some false \/
  (buffer_starts_running_process_frame p = None /\ buf_len p < 8).
Proof.
  intros Hn Hp. destruct p as [|b0 p]; [by right|]. cbn [buffer_starts_running_process_frame].
  destruct (byte_val b0 =? DAEMON_FRAME_V1_VERSION); cbn [negb]; [|by left].
  destruct (Z.ltb_spec (buf_len (String b0 p)) 8) as [|H8]; [by right|left].
  assert (8 <= String.length (String b0 p))%nat by (unfold buf_len in H8; lia).
  rewrite <-(u32_at_app 0 (String b0 p) q), <-(u32_at_app 4 (String b0 p) q) by lia. rewrite <-Hp, u32_at_0 by lia.
  rewrite u32_at_4 by done. rewrite Z.eqb_refl. replace (4 <=? n) with true by lia. done.
Qed.

Lemma peek_partial n p q r :
  4 <= n <= MAX_MESSAGE_SIZE -> u32_to_le n +:+ r = p +:+ q -> buf_len r = n -> q <> "" ->
  peek_frame_protocol_version p = inr None.
Proof.
  intros Hn Hp Hr Hq. unfold peek_frame_protocol_version. destruct (Z.ltb_spec (buf_len p) 4) as [|H4]; [done|].
  assert (4 <= String.length p)%nat by (unfold buf_len in H4; lia).
  unfold MAX_MESSAGE_SIZE in *. rewrite <-(u32_at_app 0 p q) by lia. rewrite <-Hp, u32_at_0 by lia.
  replace (16 * 1024 * 1024 <? n) with false by lia. replace (n <? 4) with false by lia.
  apply (f_equal buf_len) in Hp. rewrite !buf_len_app, buf_len_u32 in Hp.
  assert (0 < buf_len q) by (pose proof (buf_len_nonneg q); destruct (decide (buf_len q = 0)) as [E|];
    [by apply buf_len_empty in E|lia]).
  replace (buf_len p <? 4 + n) with true by lia. done.
Qed.

(** A frame of the other lane is not taken for a direct one. *)
Lemma frame_not_direct l p q r :
  String (byte_of DAEMON_FRAME_V1_VERSION) (u32_to_le l +:+ r) = p +:+ q ->
  3 <= buf_len r -> 0 <= l <= DAEMON_FRAME_V1_MAX_BODY_BYTES ->
  buffer_starts_running_process_frame p = Some true \/
  (buffer_starts_running_process_frame p = None /\ buf_len p < 8).
Proof.
  intros Hp Hb Hl. destruct p as [|b0 p]; [by right|]. cbn [buffer_starts_running_process_frame].
  assert (b0 = byte_of DAEMON_FRAME_V1_VERSION) as -> by (cbn [String.append] in Hp; congruence).
  change (byte_val (byte_of DAEMON_FRAME_V1_VERSION) =? DAEMON_FRAME_V1_VERSION) with true. cbn [negb].
  destruct (Z.ltb_spec (buf_len (String (byte_of DAEMON_FRAME_V1_VERSION) p)) 8) as [|H8]; [by right|left].
  assert (8 <= String.length (String (byte_of DAEMON_FRAME_V1_VERSION) p))%nat by (unfold buf_len in H8; lia).
  f_equal. rewrite <-(u32_at_app 4 (String (byte_of DAEMON_FRAME_V1_VERSION) p) q) by lia. rewrite <-Hp.
  enough (u32_at 4 (String (byte_of DAEMON_FRAME_V1_VERSION) (u32_to_le l +:+ r)) `mod` 256 < 25) as Hm.
  { set (v := u32_at 4 _) in *. destruct (Z.eqb_spec v PROST_PROTOCOL_VERSION) as [E|_];
      [rewrite E in Hm; vm_compute in Hm; done|].
    destruct (Z.eqb_spec v RETIRED_BINCODE_PROTOCOL_VERSION) as [E|_]; [rewrite E in Hm; vm_compute in Hm; done|].
    by rewrite andb_false_r. }
  pose proof max_body_small as Hmax. change (25 * 2 ^ 24) with (25 * 16777216) in Hmax.
  destruct r as [|x [|y [|z r]]]; unfold buf_len in Hb; cbn [String.length] in Hb; try lia.
  unfold u32_at, u32_to_le. cbn [str_skip String.append]. unfold u32_from_le.
  rewrite byte_val_of by (apply Z.mod_pos_bound; lia).
  assert (0 <= l `div` 16777216 < 25) by (split; [apply Z.div_pos; lia|apply Z.div_lt_upper_bound; lia]).
  rewrite (Z.mod_small (l `div` 16777216)) by lia.
  replace (_ + _ + _ + _) with (l `div` 16777216 + (byte_val x + 256 * byte_val y + 65536 * byte_val z) * 256) by lia.
  rewrite Z.mod_add, Z.mod_small by lia. lia.
Qed.

(** What was sent in a frame is received as soon as it is all there, and waited
    for until then. *)
Lemma framed_received f b m id :
  codec_encode f = inr b -> envelope_version f = 1 -> payload_protocol f = ZCCACHE_FRAME_PAYLOAD_PROTOCOL ->
  kind_classification f = FkRequest \/ kind_classification f = FkResponse ->
  payload_encoding_classification f = PeNone -> frame_payload f = pb_encode m -> frame_request_id f = id -> pb_value m ->
  (forall rest, decode_wire_message (b +:+ rest) = (inr (Some (DwFrameV1 m id)), rest)) /\
  (forall p q, b = p +:+ q -> q <> "" -> decode_wire_message p = (inr None, p)).
Proof.
  intros Hc H1 H2 H3 H4 H5 H6 Hv. destruct (codec_shape f b Hc H1 ltac:(by rewrite H2)) as (body & Hb & Hl).
  pose proof (buf_len_nonneg body). split.
  - intros rest. unfold decode_wire_message. pose proof (buf_len_nonneg rest).
    destruct (frame_not_direct (buf_len body) (b +:+ rest) "" (body +:+ rest)) as [->|[_ Hshort]].
    + rewrite Hb, string_app_nil_r. cbn [String.append]. by rewrite string_app_assoc.
    + rewrite buf_len_app. lia.
    + lia.
    + unfold decode_frame_v1_message. rewrite (codec_whole f b rest Hc), H1, H2, H4, H5, pb_roundtrip by done.
      cbn [negb Z.eqb Pos.eqb]. rewrite Z.eqb_refl. cbn [negb]. rewrite skip_app_len, H6. by destruct H3 as [-> | ->].
    + rewrite Hb, buf_len_app, buf_len_String, buf_len_app, buf_len_u32 in Hshort. lia.
  - intros p q Hp Hq. unfold decode_wire_message.
    destruct (frame_not_direct (buf_len body) p q body) as [->|[-> _]]; [by rewrite <-Hp|lia|lia| |done].
    unfold decode_frame_v1_message. subst b. rewrite Hp in Hc. by rewrite (codec_partial f p q Hc Hq).
Qed.

(** And so is a direct frame. *)
Lemma direct_received m b :
  b = u32_to_le (4 + buf_len (pb_encode m)) +:+ u32_to_le PROST_PROTOCOL_VERSION +:+ pb_encode m ->
  pb_value m -> 4 + buf_len (pb_encode m) <= MAX_MESSAGE_SIZE ->
  (forall rest, decode_wire_message (b +:+ rest) = (inr (Some (DwProstV16 m)), rest)) /\
  (forall p q, b = p +:+ q -> q <> "" -> decode_wire_message p = (inr None, p)).
Proof.
  intros Hb Hv Hmax. pose proof (buf_len_nonneg (pb_encode m)) as Hpos. set (n := 4 + buf_len (pb_encode m)) in *.
  assert (n < 2 ^ 32) by (unfold MAX_MESSAGE_SIZE in Hmax; lia). split.
  - intros rest. unfold decode_wire_message. pose proof (buf_len_nonneg rest).
    assert (buf_len (b +:+ rest) = 4 + n + buf_len rest) as Hlen
      by (rewrite Hb, !buf_len_app, !buf_len_u32; unfold n; lia).
    destruct (direct_not_frame n (b +:+ rest) "" (pb_encode m +:+ rest)) as [->|[_ Hshort]]; [lia| | |lia].
    { by rewrite Hb, string_app_nil_r, !string_app_assoc. }
    unfold peek_frame_protocol_version. replace (buf_len (b +:+ rest) <? 4) with false by lia.
    assert (u32_at 0 (b +:+ rest) = n) as Hn by (rewrite Hb, !string_app_assoc, u32_at_0 by lia; done).
    assert (u32_at 4 (b +:+ rest) = PROST_PROTOCOL_VERSION) as Hver by (rewrite Hb, !string_app_assoc, u32_at_4 by done; done).
    rewrite Hn, Hver. replace (MAX_MESSAGE_SIZE <? n) with false by lia. replace (n <? 4) with false by lia.
    replace (buf_len (b +:+ rest) <? 4 + n) with false by lia. change (wire_format_for_protocol_version _) with (Some ProstV16).
    cbn beta iota. unfold decode_prost_message. rewrite Hn. replace (buf_len (b +:+ rest) <? 4) with false by lia.
    replace (MAX_MESSAGE_SIZE <? n) with false by lia. replace (n <? 4) with false by lia.
    replace (buf_len (b +:+ rest) <? 4 + n) with false by lia.
    set (frame := u32_to_le PROST_PROTOCOL_VERSION +:+ pb_encode m) in *.
    assert (Z.to_nat n = String.length frame) as Hfl.
    { unfold frame. rewrite string_length_app. unfold n, buf_len. cbn [u32_to_le String.length]. lia. }
    assert (String.substring 4 (Z.to_nat n) (b +:+ rest) = frame) as Hsub.
    { rewrite Hb, string_app_assoc, Hfl. unfold u32_to_le at 1. cbn [String.append String.substring]. apply substring_whole. }
    assert (str_skip (4 + Z.to_nat n) (b +:+ rest) = rest) as Hskip.
    { replace (4 + Z.to_nat n)%nat with (String.length b) by (by rewrite Hb, string_length_app, Hfl). apply skip_app_len. }
    rewrite Hsub, Hskip. unfold frame at 1 2. rewrite u32_at_0 by done. rewrite Z.eqb_refl. cbn [negb].
    unfold frame. change 4%nat with (String.length (u32_to_le PROST_PROTOCOL_VERSION)).
    by rewrite skip_app_len, pb_roundtrip.
  - intros p q Hp Hq. unfold decode_wire_message.
    destruct (direct_not_frame n p q (pb_encode m)) as [->|[-> _]]; [lia|by rewrite <-Hp| |done].
    rewrite (peek_partial n p q (u32_to_le PROST_PROTOCOL_VERSION +:+ pb_encode m)); [done|lia|by rewrite <-Hp| |done].
    rewrite buf_len_app, buf_len_u32. unfold n. lia.
Qed.

Lemma sent_received s b :
  encode_sent s = inr b -> receivable s ->
  (forall rest, decode_wire_message (b +:+ rest) = (inr (Some (received s)), rest)) /\
  (forall p q, b = p +:+ q -> q <> "" -> decode_wire_message p = (inr None, p)).
Proof.
  intros He Hr. pose proof (sent_frame s b He Hr) as Hs.
  destruct s as [m|m id|m id]; cbn [receivable received] in *; destruct Hr as [Hv Hr]; [by apply direct_received|..];
    destruct Hs as (f & Hc & H1 & H2 & H3 & H4 & H5 & H6); by apply (framed_received f b m id).
Qed.

(** ** Receiving from a stream *)

(** What the reader will still be given. *)
Fixpoint stream_data (events : list ReadEvent) : bytes :=
  match events with
  | [] => ""
  | Data chunk :: rest => chunk +:+ stream_data rest
  | _ :: rest => stream_data rest
  end.
(** No fault, and the stream ends only when its events do. *)
Definition undisturbed (events : list ReadEvent) : Prop :=
  Forall (fun e => match e with Data chunk => chunk <> "" | Fault => False | Deadline => True end) events.
Fixpoint deadlines (events : list ReadEvent) : nat :=
  match events with [] => O | Deadline :: rest => S (deadlines rest) | _ :: rest => deadlines rest end.

(** One receive: the next message, whatever the pieces it comes in; or a timeout,
    at which nothing that has arrived is lost. *)
Lemma recv_next timeout s b rest events buf :
  encode_sent s = inr b -> receivable s -> undisturbed events -> buf +:+ stream_data events = b +:+ rest ->
  exists events' buf', undisturbed events' /\
    ((recv_wire_loop timeout events buf = (inr (Some (received s)), (events', buf')) /\
      buf' +:+ stream_data events' = rest /\ (deadlines events' <= deadlines events)%nat) \/
     (exists t, timeout = Some t /\ recv_wire_loop (M := M) timeout events buf = (inl (Timeout t), (events', buf')) /\
      buf' +:+ stream_data events' = b +:+ rest /\ (deadlines events' < deadlines events)%nat)).
Proof.
  intros He Hr. destruct (sent_received s b He Hr) as [Hwhole Hpart]. revert buf.
  induction events as [|ev events IH]; intros buf Hu Hd; destruct (app_cut _ _ _ _ Hd) as [(k & -> & Hk)|(k & Hne & -> & Hk)].
  - exists [], k. split; [done|left]. cbn [recv_wire_loop]. rewrite Hwhole. by rewrite Hk.
  - cbn in Hk. destruct k; [done|discriminate].
  - exists (ev :: events), k. split; [done|left]. cbn [recv_wire_loop]. rewrite Hwhole. by rewrite Hk.
  - apply Forall_cons in Hu as [Hev Hu]. cbn [recv_wire_loop]. rewrite (Hpart buf k eq_refl Hne).
    destruct ev as [chunk| |]; [|done|].
    + destruct chunk as [|c chunk]; [done|]. cbn [read_next_chunk]. apply IH; [done|].
      cbn [stream_data] in Hd. by rewrite string_app_assoc.
    + cbn [stream_data deadlines] in *. destruct timeout as [t|].
      * exists events, buf. split; [done|right]. exists t. repeat split; [done|lia].
      * destruct (IH buf Hu Hd) as (events' & buf' & Hu' & [(Ha & Hb & Hc)|(t & ? & _)]); [|done].
        exists events', buf'. split; [done|left]. repeat split; [done|done|lia].
Qed.

(** At the end of the stream a receive says so. *)
Lemma recv_end timeout events buf :
  undisturbed events -> buf +:+ stream_data events = "" ->
  exists events' buf', undisturbed events' /\ buf' +:+ stream_data events' = "" /\
    (recv_wire_loop (M := M) timeout events buf = (inr None, (events', buf')) \/
     (exists t, timeout = Some t /\ recv_wire_loop (M := M) timeout events buf = (inl (Timeout t), (events', buf')) /\
      (deadlines events' < deadlines events)%nat)).
Proof.
  intros Hu Hd. destruct buf as [|c buf]; [|discriminate]. revert Hu Hd.
  induction events as [|ev events IH]; intros Hu Hd.
  - exists [], "". repeat split; [done|by left].
  - apply Forall_cons in Hu as [Hev Hu]. destruct ev as [chunk| |]; [by destruct chunk|done|].
    cbn [recv_wire_loop decode_wire_message buffer_starts_running_process_frame]. destruct timeout as [t|].
    + exists events, "". repeat split; [done|done|right]. exists t. repeat split. cbn. lia.
    + destruct (IH Hu Hd) as (events' & buf' & Hu' & Hd' & [Hi|(t & ? & _)]); [|done].
      exists events', buf'. split; [done|]. split; [done|]. by left.
Qed.

(** A receiver that takes what arrives until the end, and tries again after a
    timeout. *)
Fixpoint receive_all (fuel : nat) (c : IpcConnection) : list (DecodedWireMessage M) * option (IpcError + unit) :=
  match fuel with
  | O => ([], None)
  | S fuel =>
      match recv_wire c with
      | (inr (Some m), c) => let '(ms, e) := receive_all fuel c in (m :: ms, e)
      | (inr None, c) => ([], Some (inr tt))
      | (inl (Timeout _), c) => receive_all fuel c
      | (inl e, c) => ([], Some (inl e))
      end
  end.

Fixpoint encode_all (l : list Sent) : ProtocolError + bytes :=
  match l with
  | [] => inr ""
  | s :: l =>
      match encode_sent s, encode_all l with
      | inr b, inr bs => inr (b +:+ bs)
      | inl e, _ | inr _, inl e => inl e
      end
  end.

(** Everything that was sent is received, in order, whatever the pieces. *)
Lemma receive_all_sent l bs c :
  encode_all l = inr bs -> Forall receivable l -> undisturbed (reader c) ->
  read_buf c +:+ stream_data (reader c) = bs ->
  receive_all (length l + deadlines (reader c) + 1) c = (map received l, Some (inr tt)).
Proof.
  remember (length l + deadlines (reader c) + 1)%nat as fuel eqn:Hf.
  assert (length l + deadlines (reader c) + 1 <= fuel)%nat as Hfuel by lia. clear Hf. revert l bs c Hfuel.
  induction fuel as [|fuel IH]; intros l bs c Hfuel He Hl Hu Hd; [lia|].
  cbn [receive_all]. unfold recv_wire, recv_wire_at. destruct l as [|s l].
  - cbn in He. injection He as <-. cbn [length] in Hfuel.
    destruct (recv_end (recv_timeout c) (reader c) (read_buf c) Hu Hd)
      as (events' & buf' & Hu' & Hd' & [->|(t & Ht & -> & Hlt)]); [done|].
    apply (IH [] ""); cbn; try done; lia.
  - cbn [encode_all] in He. destruct (encode_sent s) as [|b] eqn:Hs; [done|].
    destruct (encode_all l) as [|bs'] eqn:Hall; [done|]. injection He as <-.
    apply Forall_cons in Hl as [Hr Hl]. cbn [length] in Hfuel.
    destruct (recv_next (recv_timeout c) s b bs' (reader c) (read_buf c) Hs Hr Hu Hd)
      as (events' & buf' & Hu' & [(-> & Hd' & Hle)|(t & Ht & -> & Hd' & Hlt)]).
    + rewrite (IH l bs'); cbn; try done; lia.
    + apply (IH (s :: l) (b +:+ bs')); cbn; rewrite ?Hs, ?Hall; try done; [lia|by constructor].
Qed.
End frames.
