(* ===== verification/Connection.v ===== *)
(** * The daemon's side of a connection ([daemon/server/connection/mod.rs])

    The loop that serves one client: identity probes are answered first, then
    requests are read, dispatched and answered on the lane they came on, until the
    client goes, falls silent or breaks the protocol.  What a request does to the
    daemon is a parameter, [dispatch]: the heartbeats it has sent while it ran, its
    outcome, and the state it leaves. *)

From stdpp Require Import list strings.
From Stdlib Require Import Lia.
From S2P Require Import Prelude Path RustStr Depfile WireMessages Wire.

#[local] Open Scope Z_scope.

Inductive ResponseWire :=
  | RwProstV16 (request_id : bytes)
  | RwFrameV1 (frame_request_id : Z) (request_id : bytes).

Definition SERVER_REQUEST_RECV_TIMEOUT : Z := 600.
Definition COMPILE_PROGRESS_INTERVAL_MS : Z := 5000.

(** [compile_progress_interval_from]: milliseconds, or no heartbeats. *)
Definition compile_progress_interval_from (raw : option bytes) : option Z :=
  match raw with
  | None => Some COMPILE_PROGRESS_INTERVAL_MS
  | Some raw =>
      match parse_u64 (str_trim raw) with
      | Some 0 => None
      | Some ms => Some ms
      | None => Some COMPILE_PROGRESS_INTERVAL_MS
      end
  end.

(** How a dispatched request ends: with a response for the loop to send; with one
    the handler sends itself before the loop returns (a shutdown); or because the
    client went. *)
Inductive Dispatched := Respond (r : Response) | Last (r : Response) | Cancelled.

(** A response, the request it answers and the number of that request's frame. *)
Abbreviation Answer := (Response * Request * option Z)%type.

Section server.
  Context `{!Prost PbRequest, !Prost PbResponse, !DaemonFrames}.
  Context {S : Type} (dispatch : S -> Request -> list Response * Dispatched * S).
  Context (poll : bytes -> LegacyPrefix -> option ProbeMuxResult).
  (** The text of the errors the daemon answers with. *)
  Context (mismatch_text : Z -> Z -> bytes) (conversion_text : ConvError -> bytes).

(** [send_response_for_wire]. *)
Definition send_response_for_wire (response_wire : ResponseWire) (response : Response) (conn : IpcConnection) :
    (IpcError + unit) * IpcConnection :=
  match response_wire with
  | RwProstV16 request_id => send_prost (response_to_prost response request_id) conn
  | RwFrameV1 frame_request_id request_id =>
      send_frame_v1_response (response_to_prost response request_id) frame_request_id conn
  end.

(** The heartbeats of [guarded_dispatch_with_progress_every]: one that cannot be
    sent cancels the request. *)
Fixpoint send_progress (response_wire : ResponseWire) (l : list Response) (conn : IpcConnection) : bool * IpcConnection :=
  match l with
  | [] => (true, conn)
  | r :: l =>
      match send_response_for_wire response_wire r conn with
      | (inl _, conn) => (false, conn)
      | (inr _, conn) => send_progress response_wire l conn
      end
  end.

(** [dispatch_request]: a response to send, or nothing when the loop is to return. *)
Definition dispatch_request (request : Request) (response_wire : ResponseWire) (conn : IpcConnection) (s : S) :
    (IpcError + option Response) * IpcConnection * S :=
  let '(progress, outcome, s) := dispatch s request in
  match send_progress response_wire progress conn with
  | (false, conn) => (inr None, conn, s)
  | (true, conn) =>
      match outcome with
      | Respond r => (inr (Some r), conn, s)
      | Cancelled => (inr None, conn, s)
      | Last r =>
          match send_response_for_wire response_wire r conn with
          | (inl e, conn) => (inl e, conn, s)
          | (inr _, conn) => (inr None, conn, s)
          end
      end
  end.

(** The lane a request came on, and its number. *)
Definition response_wire_of (d : DecodedWireMessage PbRequest) : ResponseWire :=
  match d with
  | DwProstV16 request => RwProstV16 (r_request_id request)
  | DwFrameV1 request frame_request_id => RwFrameV1 frame_request_id (r_request_id request)
  end.

(** The loop of [handle_connection]; [None] is out of fuel. *)
Fixpoint serve (fuel : nat) (conn : IpcConnection) (s : S) : option (IpcError + unit) * IpcConnection * S :=
  match fuel with
  | O => (None, conn, s)
  | Datatypes.S fuel =>
      match recv_wire_with_timeout SERVER_REQUEST_RECV_TIMEOUT conn with
      | (inl (Timeout _), conn) => (Some (inr tt), conn, s)
      | (inl (Protocol (VersionMismatch expected received)), conn) =>
          let response := response_to_prost (RsError (mismatch_text expected received)) "protocol-version-mismatch" in
          let '(_, conn) := send_prost response conn in
          (Some (inl (Protocol (VersionMismatch expected received))), conn, s)
      | (inl e, conn) => (Some (inl e), conn, s)
      | (inr None, conn) => (Some (inr tt), conn, s)
      | (inr (Some d), conn) =>
          let response_wire := response_wire_of d in
          match request_from_prost (dw_message d) with
          | inl e =>
              match send_response_for_wire response_wire (RsError (conversion_text e)) conn with
              | (inl e, conn) => (Some (inl e), conn, s)
              | (inr _, conn) => serve fuel conn s
              end
          | inr request =>
              match dispatch_request request response_wire conn s with
              | (inl e, conn, s) => (Some (inl e), conn, s)
              | (inr None, conn, s) => (Some (inr tt), conn, s)
              | (inr (Some response), conn, s) =>
                  match send_response_for_wire response_wire response conn with
                  | (inl e, conn) => (Some (inl e), conn, s)
                  | (inr _, conn) => serve fuel conn s
                  end
              end
          end
      end
  end.

(** [handle_connection]. *)
Definition handle_connection (fuel : nat) (conn : IpcConnection) (s : S) : option (IpcError + unit) * IpcConnection * S :=
  match try_serve_backend_handle_probe poll conn with
  | (inl e, conn) => (Some (inl e), conn, s)
  | (inr true, conn) => (Some (inr tt), conn, s)
  | (inr false, conn) => serve fuel conn s
  end.

(** ** What a connection is for *)

(** A client that sends a list of requests, each on the lane it chose. *)
Fixpoint send_requests (l : list (Request * WireFormat)) (c : IpcConnection) : (IpcError + unit) * IpcConnection :=
  match l with
  | [] => (inr tt, c)
  | (r, w) :: l =>
      match send_request r w c with
      | (inl e, c) => (inl e, c)
      | (inr _, c) => send_requests l c
      end
  end.

(** The same requests with the numbers of their frames. *)
Fixpoint numbered (next : Z) (l : list (Request * WireFormat)) : list (Request * option Z) :=
  match l with
  | [] => []
  | (r, ProstV16) :: l => (r, None) :: numbered next l
  | (r, FrameV1) :: l => (r, Some next) :: numbered (wrap64 (next + 1)) l
  end.
Definition sent_request (x : Request * option Z) : Sent (M := PbRequest) :=
  let m := request_to_prost x.1 (default_request_id x.1) in
  match x.2 with None => Direct m | Some id => FrameRequest m id end.

Definition sent_answer (x : Answer) : Sent (M := PbResponse) :=
  let '(r, request, id) := x in
  let m := response_to_prost r (default_request_id request) in
  match id with None => Direct m | Some id => FrameResponse m id end.

(** Serving is a fold of [dispatch] over the requests: heartbeats and the response
    of each, until one ends the connection. *)
Fixpoint answers (s : S) (l : list (Request * option Z)) : list Answer * S :=
  match l with
  | [] => ([], s)
  | (request, id) :: l =>
      let answer r := (r, request, id) in
      match dispatch s request with
      | (progress, Respond r, s) => let '(out, s) := answers s l in (map answer progress ++ answer r :: out, s)
      | (progress, Last r, s) => (map answer progress ++ [answer r], s)
      | (progress, Cancelled, s) => (map answer progress, s)
      end
  end.

(** The request can be sent at all, and read: see [request_conv_ok]. *)
Definition request_sendable (x : Request * option Z) : Prop :=
  Forall path_ok (request_paths x.1) /\ request_typed x.1 /\ receivable (sent_request x).
Definition answer_sendable (x : Answer) : Prop :=
  Forall path_ok (response_paths x.1.1) /\ response_typed x.1.1 /\ receivable (sent_answer x) /\
  exists b, encode_sent (sent_answer x) = inr b.
End server.

(** ** Proofs *)

Section correct.
  Context `{!Prost PbRequest, !ProstLaws PbRequest, !Prost PbResponse, !ProstLaws PbResponse}.
  Context `{!DaemonFrames, !DaemonFrameLaws}.

(** What a client has sent is on the wire, numbered in order. *)
Lemma send_requests_encode l c c' :
  send_requests l c = (inr tt, c') ->
  exists bs, encode_all (map sent_request (numbered (next_frame_request_id c) l)) = inr bs /\ writer c' = writer c +:+ bs.
Proof.
  revert c. induction l as [|[r w] l IH]; intros c; cbn [send_requests numbered map encode_all].
  { intros [= <-]. exists "". by rewrite string_app_nil_r. }
  unfold send_request. destruct w; unfold send_prost, send_frame_v1_request; cbn [map encode_all sent_request encode_sent fst snd].
  - destruct (encode_prost_message _) as [|b]; [done|]. intros Hs. destruct (IH _ Hs) as (bs & Hbs & Hw).
    cbn [next_frame_request_id write_all writer] in *. rewrite Hbs. eexists. split; [done|]. by rewrite Hw, string_app_assoc.
  - destruct (encode_frame_v1_request _ _) as [|b]; [done|]. intros Hs. destruct (IH _ Hs) as (bs & Hbs & Hw).
    cbn [next_frame_request_id write_all writer] in *. rewrite Hbs. eexists. split; [done|]. by rewrite Hw, string_app_assoc.
Qed.

Lemma send_answer r request id conn b :
  encode_sent (sent_answer (r, request, id)) = inr b ->
  send_response_for_wire (response_wire_of (received (sent_request (request, id)))) r conn = (inr tt, write_all b conn).
Proof.
  unfold send_response_for_wire. destruct id as [id|]; cbn [sent_answer sent_request received response_wire_of fst snd];
    cbn [request_to_prost r_request_id encode_sent]; unfold send_prost, send_frame_v1_response; by intros ->.
Qed.

Lemma send_progress_all request id l conn bs :
  encode_all (map sent_answer (map (fun r => (r, request, id)) l)) = inr bs ->
  send_progress (response_wire_of (received (sent_request (request, id)))) l conn = (true, write_all bs conn).
Proof.
  revert conn bs. induction l as [|r l IH]; intros conn bs; cbn [map encode_all send_progress].
  { intros [= <-]. unfold write_all. rewrite string_app_nil_r. by destruct conn. }
  destruct (encode_sent _) as [|b] eqn:Hb; [done|]. destruct (encode_all _) as [|bs'] eqn:Hbs; [done|]. intros [= <-].
  rewrite (send_answer r request id conn b Hb), (IH _ bs' eq_refl). unfold write_all. cbn. by rewrite string_app_assoc.
Qed.

Lemma encode_all_app {M} `{!Prost M} (l k : list (Sent (M := M))) bs cs :
  encode_all l = inr bs -> encode_all k = inr cs -> encode_all (l ++ k) = inr (bs +:+ cs).
Proof.
  revert bs. induction l as [|s l IH]; intros bs; cbn [encode_all app]; [by intros [= <-]|].
  destruct (encode_sent s) as [|b]; [done|]. destruct (encode_all l) as [|bs']; [done|]. intros [= <-] Hk.
  rewrite (IH bs' eq_refl Hk). by rewrite string_app_assoc.
Qed.

Lemma encode_answers l :
  Forall answer_sendable l -> exists bs, encode_all (map sent_answer l) = inr bs.
Proof.
  induction 1 as [|x l (_ & _ & _ & b & Hb) _ (bs & IH)]; [by exists ""|].
  cbn [map encode_all]. rewrite Hb, IH. eauto.
Qed.
End correct.

Section serving.
  Context `{!Prost PbRequest, !ProstLaws PbRequest, !Prost PbResponse, !ProstLaws PbResponse}.
  Context `{!DaemonFrames, !DaemonFrameLaws}.
  Context {S : Type} (dispatch : S -> Request -> list Response * Dispatched * S).
  Context (poll : bytes -> LegacyPrefix -> option ProbeMuxResult).
  Context (mismatch_text : Z -> Z -> bytes) (conversion_text : ConvError -> bytes).

(** The state of the loop between two requests: what is still to be read is the
    encoding of the rest of the requests. *)
Record at_requests (c : IpcConnection) (l : list (Request * option Z)) : Prop := {
  ar_undisturbed : undisturbed (reader c);
  ar_patient : deadlines (reader c) = O;
  ar_sendable : Forall request_sendable l;
  ar_pending : encode_all (map sent_request l) = inr (read_buf c +:+ stream_data (reader c))
}.

Lemma at_requests_write b c l : at_requests c l -> at_requests (write_all b c) l.
Proof. intros []. by constructor. Qed.

Lemma recv_end_patient c :
  at_requests c [] -> exists c', recv_wire_with_timeout (M := PbRequest) SERVER_REQUEST_RECV_TIMEOUT c = (inr None, c') /\
  writer c' = writer c.
Proof.
  intros [Hu Hd _ [= Hp]].
  destruct (recv_end (M := PbRequest) (Some SERVER_REQUEST_RECV_TIMEOUT) (reader c) (read_buf c) Hu (eq_sym Hp))
    as (ev & buf & _ & _ & [Hr|(t & _ & _ & Hlt)]); [|lia].
  eexists. unfold recv_wire_with_timeout, recv_wire_at. rewrite Hr. done.
Qed.

Lemma recv_request_patient c x l :
  at_requests c (x :: l) ->
  exists c', recv_wire_with_timeout SERVER_REQUEST_RECV_TIMEOUT c = (inr (Some (received (sent_request x))), c') /\
    at_requests c' l /\ writer c' = writer c.
Proof.
  intros [Hu Hd Hs Hp]. cbn [map encode_all] in Hp. destruct (encode_sent (sent_request x)) as [|b] eqn:Hb; [done|].
  destruct (encode_all (map sent_request l)) as [|bs] eqn:Hbs; [done|]. injection Hp as Hp.
  apply Forall_cons in Hs as [(Hok & Hty & Hr) Hs].
  destruct (recv_next (Some SERVER_REQUEST_RECV_TIMEOUT) (sent_request x) b bs (reader c) (read_buf c) Hb Hr Hu (eq_sym Hp))
    as (ev & buf & Hu' & [(Hrecv & Hd' & Hle)|(t & _ & _ & _ & Hlt)]); [|lia].
  eexists. unfold recv_wire_with_timeout, recv_wire_at. rewrite Hrecv. split; [done|]. split; [|done].
  constructor; cbn [with_read reader read_buf]; [done|lia|done|by rewrite Hbs, Hd'].
Qed.

(** The loop answers every request in turn. *)
Lemma serve_answers l c s bs :
  at_requests c l -> Forall answer_sendable (answers dispatch s l).1 ->
  encode_all (map sent_answer (answers dispatch s l).1) = inr bs ->
  exists c', serve dispatch mismatch_text conversion_text (length l + 1) c s = (Some (inr tt), c', (answers dispatch s l).2) /\
    writer c' = writer c +:+ bs.
Proof.
  revert c s bs. induction l as [|[request id] l IH]; intros c s bs Hc Hans Hbs.
  { destruct (recv_end_patient c Hc) as (c' & Hr & Hw). cbn [length Nat.add serve]. rewrite Hr. injection Hbs as <-.
    exists c'. by rewrite string_app_nil_r. }
  assert (request_sendable (request, id)) as (Hok & Hty & _) by (destruct Hc as [_ _ [Hx _]%Forall_cons _]; exact Hx).
  destruct (recv_request_patient c _ l Hc) as (c1 & Hr & Hc1 & Hw1). cbn [length Nat.add serve]. rewrite Hr.
  assert (request_from_prost (dw_message (received (sent_request (request, id)))) = inr request) as ->.
  { destruct id; cbn [sent_request received dw_message fst snd]; by apply request_conv_ok. }
  unfold dispatch_request. cbn [answers] in Hans, Hbs |- *. destruct (dispatch s request) as [[progress outcome] s'].
  set (answer r := (r, request, id)) in *.
  assert (Forall answer_sendable (map answer progress)) as Hpre.
  { destruct outcome; [destruct (answers dispatch s' l)| |]; cbn in Hans; [apply Forall_app in Hans; apply Hans..|done]. }
  destruct (encode_answers _ Hpre) as [bp Hbp].
  rewrite (send_progress_all request id progress c1 bp Hbp). destruct outcome as [r|r|].
  - destruct (answers dispatch s' l) as [out s''] eqn:Hrec. cbn [fst snd] in *.
    apply Forall_app in Hans as [_ [(Ho1 & Ho2 & Ho3 & b & Hb) Hout]%Forall_cons].
    destruct (encode_answers out Hout) as [bo Hbo].
    rewrite map_app, (encode_all_app _ (map sent_answer ((r, request, id) :: out)) bp (b +:+ bo) Hbp) in Hbs
      by (cbn [map encode_all]; by rewrite Hb, Hbo). injection Hbs as <-.
    rewrite (send_answer r request id _ b Hb).
    destruct (IH (write_all b (write_all bp c1)) s' bo) as (c' & Hs' & Hw'); rewrite ?Hrec in *; cbn [fst snd] in *.
    + by apply at_requests_write, at_requests_write.
    + done.
    + done.
    + exists c'. split; [done|]. rewrite Hw'. cbn [writer write_all]. by rewrite Hw1, !string_app_assoc.
  - cbn [fst snd] in *. apply Forall_app in Hans as [_ [(Ho1 & Ho2 & Ho3 & b & Hb) _]%Forall_cons].
    rewrite map_app, (encode_all_app _ (map sent_answer [(r, request, id)]) bp b Hbp) in Hbs
      by (cbn [map encode_all]; by rewrite Hb, string_app_nil_r). injection Hbs as <-.
    rewrite (send_answer r request id _ b Hb). eexists. split; [done|]. cbn [writer write_all]. by rewrite Hw1, string_app_assoc.
  - cbn [fst snd] in *. rewrite Hbp in Hbs. injection Hbs as <-. eexists. split; [done|]. cbn [writer write_all]. by rewrite Hw1.
Qed.

(** ** Probes *)

(** Buffering loses nothing, and ends with what was asked for if it is to come. *)
Lemma ensure_buffered_ok events buf n :
  undisturbed events -> deadlines events = O ->
  n <= buf_len (buf +:+ stream_data events) \/ buf +:+ stream_data events = "" ->
  exists events' buf', ensure_buffered events buf n = (inr tt, (events', buf')) /\ undisturbed events' /\
    deadlines events' = O /\ buf' +:+ stream_data events' = buf +:+ stream_data events /\
    (n <= buf_len buf' \/ buf' +:+ stream_data events' = "").
Proof.
  revert buf. induction events as [|ev events IH]; intros buf Hu Hd Hn; cbn [ensure_buffered].
  - destruct (Z.leb_spec n (buf_len buf)) as [Hle|Hgt]; [exists [], buf; split; [done|]; auto|].
    cbn [stream_data] in *. rewrite string_app_nil_r in Hn. destruct Hn as [|Hn]; [lia|]. subst buf.
    exists [], "". split; [done|]. auto.
  - destruct (Z.leb_spec n (buf_len buf)) as [Hle|Hgt]; [exists (ev :: events), buf; split; [done|]; auto|].
    apply Forall_cons in Hu as [Hev Hu]. destruct ev as [chunk| |]; [|done|done].
    destruct chunk as [|x chunk]; [done|]. cbn [read_next_chunk stream_data deadlines] in *.
    rewrite <-string_app_assoc in Hn |- *. by apply IH.
Qed.

Lemma probe_skips events buf c :
  ensure_buffered (reader c) (read_buf c) 8 = (inr tt, (events, buf)) ->
  buffer_starts_running_process_frame buf = Some false ->
  try_serve_backend_handle_probe poll c = (inr false, with_read events buf c).
Proof.
  intros He Hf. unfold try_serve_backend_handle_probe. rewrite He, Hf. destruct buf as [|b0 buf]; [done|].
  by destruct (byte_val b0 =? DAEMON_FRAME_V1_VERSION).
Qed.

Lemma encoded_long x l bs : Forall request_sendable (x :: l) -> encode_all (map sent_request (x :: l)) = inr bs -> 8 <= buf_len bs.
Proof.
  intros [(_ & _ & Hr) _]%Forall_cons. cbn [map encode_all]. destruct (encode_sent _) as [|b] eqn:Hb; [done|].
  destruct (encode_all _) as [|bs']; [done|]. intros [= <-]. rewrite buf_len_app. pose proof (buf_len_nonneg bs').
  pose proof (sent_frame _ b Hb Hr) as Hf. destruct (sent_request x) as [m|m id|m id]; cbn beta iota in Hf.
  - rewrite Hf, !buf_len_app, !buf_len_u32. pose proof (buf_len_nonneg (pb_encode m)). lia.
  - destruct Hf as (f & Hc & Hv1 & Hv2 & _). destruct (codec_shape f b Hc Hv1 ltac:(by rewrite Hv2)) as (body & -> & Hl).
    rewrite buf_len_String, buf_len_app, buf_len_u32. lia.
  - destruct Hf as (f & Hc & Hv1 & Hv2 & _). destruct (codec_shape f b Hc Hv1 ltac:(by rewrite Hv2)) as (body & -> & Hl).
    rewrite buf_len_String, buf_len_app, buf_len_u32. lia.
Qed.

(** The responder leaves the frames of this program alone. *)
Context (poll_product : forall f b rest prefix, codec_encode f = inr b ->
  payload_protocol f = ZCCACHE_FRAME_PAYLOAD_PROTOCOL -> poll (b +:+ rest) prefix = Some ProductFrame).

(** A frame of the second lane is buffered and passed on. *)
Lemma probe_passes_frame events buf f b rest body c :
  codec_encode f = inr b -> payload_protocol f = ZCCACHE_FRAME_PAYLOAD_PROTOCOL ->
  b = String (byte_of DAEMON_FRAME_V1_VERSION) (u32_to_le (buf_len body) +:+ body) ->
  3 <= buf_len body <= DAEMON_FRAME_V1_MAX_BODY_BYTES ->
  undisturbed events -> deadlines events = O -> buf +:+ stream_data events = b +:+ rest -> 8 <= buf_len buf ->
  ensure_buffered (reader c) (read_buf c) 8 = (inr tt, (events, buf)) ->
  exists events' buf', try_serve_backend_handle_probe poll c = (inr false, with_read events' buf' c) /\
    undisturbed events' /\ deadlines events' = O /\ buf' +:+ stream_data events' = b +:+ rest.
Proof.
  intros Hc Hp Hb Hl Hu Hd Hs H8 He. unfold try_serve_backend_handle_probe. rewrite He.
  destruct buf as [|b0 buf']; [by vm_compute in H8|]. set (buf := String b0 buf') in *.
  assert (b0 = byte_of DAEMON_FRAME_V1_VERSION) as Hb0 by (rewrite Hb in Hs; cbn [buf String.append] in Hs; congruence).
  replace (byte_val b0 =? DAEMON_FRAME_V1_VERSION) with true by (by rewrite Hb0). cbn [negb].
  destruct (frame_not_direct (buf_len body) buf (stream_data events) (body +:+ rest)) as [->|[_ Hshort]]; [..|lia].
  { rewrite Hs, Hb. cbn [String.append]. by rewrite string_app_assoc. }
  { rewrite buf_len_app. pose proof (buf_len_nonneg rest). lia. }
  { lia. }
  assert (u32_at 1 buf = buf_len body) as Hlen.
  { rewrite <-(u32_at_app 1 buf (stream_data events)) by (unfold buf_len in H8; lia). rewrite Hs, Hb.
    cbn [String.append]. rewrite string_app_assoc. pose proof max_body_small. exact (u32_at_0 (buf_len body) (body +:+ rest) ltac:(lia)). }
  rewrite Hlen. replace (DAEMON_FRAME_V1_MAX_BODY_BYTES <? buf_len body) with false by lia.
  assert (buf_len b = 5 + buf_len body) as Hbl by (rewrite Hb, buf_len_String, buf_len_app, buf_len_u32; lia).
  destruct (ensure_buffered_ok events buf (FRAME_V1_HEADER_BYTES + buf_len body) Hu Hd) as (ev' & bf' & -> & Hu' & Hd' & Hs' & Hn').
  { left. rewrite Hs, buf_len_app. pose proof (buf_len_nonneg rest). unfold FRAME_V1_HEADER_BYTES. lia. }
  assert (exists k, bf' = b +:+ k) as [k ->].
  { rewrite Hs in Hs'. destruct (app_cut _ _ _ _ Hs') as [(k & -> & _)|(k & Hk & Hbk & _)]; [by exists k|exfalso].
    rewrite Hbk, buf_len_app in Hbl. destruct k; [done|]. rewrite buf_len_String in Hbl. pose proof (buf_len_nonneg k).
    unfold FRAME_V1_HEADER_BYTES in Hn'. destruct Hn' as [|Hn']; [lia|]. by rewrite Hn', Hb in Hs'. }
  rewrite (poll_product f b k _ Hc Hp). exists ev', (b +:+ k). split; [done|]. by rewrite Hs', Hs.
Qed.

Lemma probe_passes c l :
  at_requests c l ->
  exists c', try_serve_backend_handle_probe poll c = (inr false, c') /\ at_requests c' l /\ writer c' = writer c.
Proof.
  intros [Hu Hd Hs Hp].
  destruct (ensure_buffered_ok (reader c) (read_buf c) 8 Hu Hd) as (ev & buf & He & Hu' & Hd' & Hs' & Hn).
  { destruct l as [|x l]; [right; cbn in Hp; congruence|left]. by apply (encoded_long x l). }
  destruct l as [|x l].
  { cbn in Hp. injection Hp as Hp. rewrite <-Hp in Hs'. destruct buf as [|b0 buf]; [|done].
    unfold try_serve_backend_handle_probe. rewrite He. eexists. split; [done|]. split; [|done].
    constructor; cbn [with_read reader read_buf]; [done|done|done|]. by rewrite Hs'. }
  pose proof (encoded_long x l _ Hs Hp) as H8.
  assert (8 <= buf_len buf) as Hbuf by (destruct Hn as [|Hn]; [done|]; rewrite Hs' in Hn; by rewrite Hn in H8).
  assert (forall events' buf', try_serve_backend_handle_probe poll c = (inr false, with_read events' buf' c) ->
    undisturbed events' -> deadlines events' = O -> buf' +:+ stream_data events' = read_buf c +:+ stream_data (reader c) ->
    exists c', try_serve_backend_handle_probe poll c = (inr false, c') /\ at_requests c' (x :: l) /\ writer c' = writer c) as Hdone.
  { intros ev' bf' Ht Hu2 Hd2 Hs2. eexists. split; [exact Ht|]. split; [|done].
    constructor; cbn [with_read reader read_buf]; [done|done|done|]. by rewrite Hs2. }
  pose proof Hs as [(_ & _ & Hr) _]%Forall_cons. cbn [map encode_all] in Hp.
  destruct (encode_sent (sent_request x)) as [|b] eqn:Hb; [done|]. destruct (encode_all _) as [|bs] eqn:Hbs; [done|].
  injection Hp as Hp. pose proof (sent_frame _ b Hb Hr) as Hf.
  destruct (sent_request x) as [m|m id|m id] eqn:Hx; cbn beta iota in Hf.
  2,3: destruct Hf as (f & Hc & Hv1 & Hv2 & _); destruct (codec_shape f b Hc Hv1 ltac:(by rewrite Hv2)) as (body & Hbody & Hl);
    destruct (probe_passes_frame ev buf f b bs body c Hc Hv2 Hbody Hl Hu' Hd') as (ev' & bf' & Ht & Hu2 & Hd2 & Hs2);
    [by rewrite Hs'|done|done|apply (Hdone ev' bf' Ht Hu2 Hd2); by rewrite Hs2].
  apply (Hdone ev buf); [|done|done|done]. apply probe_skips; [done|].
  pose proof (buf_len_nonneg (pb_encode m)). destruct Hr as [_ Hmax]. unfold MAX_MESSAGE_SIZE in Hmax.
  destruct (direct_not_frame (4 + buf_len (pb_encode m)) buf (stream_data ev) (pb_encode m +:+ bs)) as [Hnf|[_ Hshort]];
    [lia|by rewrite Hs', <-Hp, Hf, !string_app_assoc|done|lia].
Qed.

(** C11: a connection serves its client.  Whatever requests a client sends, each on
    the lane it chose, and however the stream cuts them into pieces, the daemon
    passes them over its identity probe without losing a byte, gives each to the
    dispatcher once and in order, and what comes back to the client, again in any
    pieces, is exactly the heartbeats and responses of that fold, each on the lane
    of its request and under the number of its frame. *)
Theorem connection_serves l client s events :
  send_requests l (from_stream []) = (inr tt, client) ->
  Forall request_sendable (numbered 1 l) -> Forall answer_sendable (answers dispatch s (numbered 1 l)).1 ->
  undisturbed events -> deadlines events = O -> stream_data events = writer client ->
  exists server,
    handle_connection dispatch poll mismatch_text conversion_text (length l + 1) (from_stream events) s =
      (Some (inr tt), server, (answers dispatch s (numbered 1 l)).2) /\
    forall back, undisturbed back -> stream_data back = writer server ->
      exists ds, receive_all (length (answers dispatch s (numbered 1 l)).1 + deadlines back + 1)
                   (set_recv_timeout DEFAULT_CLIENT_RECV_TIMEOUT (from_stream back)) = (ds, Some (inr tt)) /\
        map (fun d => (response_from_decoded_wire d, wire_format d, dw_request_id d)) ds =
        map (fun a : Answer => let '(r, _, id) := a in
               (inr r, match id with None => ProstV16 | Some _ => FrameV1 end, id)) (answers dispatch s (numbered 1 l)).1.
Proof.
  intros Hsend Hreq Hans Hu Hd Hev. destruct (send_requests_encode l (from_stream []) client Hsend) as (bs & Hbs & Hw).
  cbn [from_stream next_frame_request_id writer String.append] in Hbs, Hw.
  assert (at_requests (from_stream events) (numbered 1 l)) as Hat.
  { constructor; cbn [from_stream reader read_buf String.append]; [done..|]. by rewrite Hev, Hw. }
  destruct (probe_passes _ _ Hat) as (c1 & Hprobe & Hat1 & Hw1). destruct (encode_answers _ Hans) as [out Hout].
  destruct (serve_answers (numbered 1 l) c1 s out Hat1 Hans Hout) as (server & Hserve & Hws).
  exists server. unfold handle_connection. rewrite Hprobe.
  replace (length l) with (length (numbered 1 l)) by (clear; generalize 1; induction l as [|[r []] l IH]; intros n; cbn; auto).
  rewrite Hserve. split; [done|]. intros back Hub Hback. rewrite Hw1 in Hws. cbn [from_stream writer String.append] in Hws.
  exists (map received (map sent_answer (answers dispatch s (numbered 1 l)).1)). split.
  - rewrite <-(length_map sent_answer).
    apply (receive_all_sent _ out (set_recv_timeout DEFAULT_CLIENT_RECV_TIMEOUT (from_stream back)));
      cbn [set_recv_timeout from_stream reader read_buf String.append]; [done| |done|by rewrite Hback].
    apply Forall_map, (Forall_impl _ _ _ Hans). by intros x (_ & _ & Hr & _).
  - rewrite map_map, map_map. apply map_ext_in. intros [[r request] id] Hin. apply list_elem_of_In in Hin.
    rewrite Forall_forall in Hans. destruct (Hans _ Hin) as (Hok & Hty & _).
    destruct id as [id|]; cbn [sent_answer received response_from_decoded_wire dw_message wire_format dw_request_id];
      unfold response_from_decoded_wire; cbn [dw_message]; by rewrite (response_conv_ok r _ Hok Hty).
Qed.
End serving.

(** ** A concrete codec

    A frame codec with the laws, and messages for two requests and their
    responses. *)

Module Demo.
Record DemoFrame := mkDemoFrame { df_response : bool; df_protocol : Z; df_id : Z; df_payload : bytes }.
Definition demo_max : Z := 2 ^ 24.
Definition demo_body (f : DemoFrame) : bytes :=
  String (byte_of (if df_response f then 1 else 0))
    (u32_to_le (df_protocol f) +:+ u32_to_le (df_id f `mod` 2 ^ 32) +:+ u32_to_le (df_id f `div` 2 ^ 32) +:+ df_payload f).
Definition demo_encode (f : DemoFrame) : DaemonFrameError + bytes :=
  if demo_max <? buf_len (demo_body f) then inl (FrameTooLarge (buf_len (demo_body f)))
  else if (df_protocol f <? 0) || (2 ^ 32 <=? df_protocol f) || (df_id f <? 0) || (2 ^ 64 <=? df_id f) then inl FrameErrorOther
  else inr (String (byte_of DAEMON_FRAME_V1_VERSION) (u32_to_le (buf_len (demo_body f)) +:+ demo_body f)).
Definition demo_parse (body : bytes) : DemoFrame :=
  mkDemoFrame (match body with String c _ => byte_val c =? 1 | _ => false end)
    (u32_at 1 body) (u32_at 5 body + u32_at 9 body * 2 ^ 32) (str_skip 13 body).
Definition demo_decode (buf : bytes) : DaemonFrameError + option (DemoFrame * nat) :=
  if buf_len buf <? 5 then inr None
  else
    let l := u32_at 1 buf in
    if demo_max <? l then inl (FrameTooLarge l)
    else if buf_len buf <? 5 + l then inr None
    else if l <? 13 then inl FrameErrorOther
    else inr (Some (demo_parse (String.substring 5 (Z.to_nat l) buf), (5 + Z.to_nat l)%nat)).

#[global] Instance demo_frames : DaemonFrames := {|
  DaemonFrame := DemoFrame;
  frame_request p b := mkDemoFrame false p 0 b;
  with_request_id f id := mkDemoFrame (df_response f) (df_protocol f) id (df_payload f);
  frame_response_to f b := mkDemoFrame true (df_protocol f) (df_id f) b;
  envelope_version _ := 1;
  payload_protocol := df_protocol;
  kind_classification f := if df_response f then FkResponse else FkRequest;
  payload_encoding_classification _ := PeNone;
  frame_payload := df_payload;
  frame_request_id := df_id;
  codec_encode := demo_encode;
  codec_decode := demo_decode;
  DAEMON_FRAME_V1_MAX_BODY_BYTES := demo_max
|}.

Lemma demo_encode_inv f b :
  demo_encode f = inr b ->
  b = String (byte_of DAEMON_FRAME_V1_VERSION) (u32_to_le (buf_len (demo_body f)) +:+ demo_body f) /\
  13 <= buf_len (demo_body f) <= demo_max /\ 0 <= df_protocol f < 2 ^ 32 /\ 0 <= df_id f < 2 ^ 64.
Proof.
  unfold demo_encode. destruct (Z.ltb_spec demo_max (buf_len (demo_body f))); [done|]. destruct (_ || _) eqn:Hr; [done|].
  intros [= <-]. apply orb_false_iff in Hr as [[[]%orb_false_iff ]%orb_false_iff ].
  split; [done|]. unfold demo_body in *. rewrite !buf_len_String, !buf_len_app, !buf_len_u32 in *.
  pose proof (buf_len_nonneg (df_payload f)). lia.
Qed.

Lemma demo_parse_body f : 0 <= df_protocol f < 2 ^ 32 -> 0 <= df_id f < 2 ^ 64 -> demo_parse (demo_body f) = f.
Proof.
  intros Hp Hi. unfold demo_parse.
  assert (u32_at 1 (demo_body f) = df_protocol f) as -> by exact (u32_at_0 (df_protocol f)
    (u32_to_le (df_id f `mod` 2 ^ 32) +:+ u32_to_le (df_id f `div` 2 ^ 32) +:+ df_payload f) Hp).
  assert (u32_at 5 (demo_body f) = df_id f `mod` 2 ^ 32) as ->.
  { exact (u32_at_4 (df_protocol f) _ (u32_to_le (df_id f `div` 2 ^ 32) +:+ df_payload f) (Z.mod_pos_bound (df_id f) (2 ^ 32) ltac:(lia))). }
  assert (u32_at 9 (demo_body f) = df_id f `div` 2 ^ 32) as ->.
  { refine (u32_at_4 (df_id f `mod` 2 ^ 32) _ (df_payload f) _). split; [apply Z.div_pos; lia|apply Z.div_lt_upper_bound; lia]. }
  assert (str_skip 13 (demo_body f) = df_payload f) as -> by done.
  pose proof (Z.div_mod (df_id f) (2 ^ 32) ltac:(lia)) as Hdm. replace (_ + _) with (df_id f) by lia.
  destruct f as [[] p i b]; reflexivity.
Qed.

Lemma demo_header f b rest :
  demo_encode f = inr b -> u32_at 1 (b +:+ rest) = buf_len (demo_body f) /\ buf_len b = 5 + buf_len (demo_body f).
Proof.
  intros (-> & Hl & _)%demo_encode_inv. unfold demo_max in Hl. split.
  - cbn [String.append]. rewrite string_app_assoc. exact (u32_at_0 (buf_len (demo_body f)) (demo_body f +:+ rest) ltac:(lia)).
  - rewrite buf_len_String, buf_len_app, buf_len_u32. lia.
Qed.

#[global] Instance demo_frame_laws : DaemonFrameLaws.
Proof.
  split.
  - by intros.
  - by intros.
  - intros f b (-> & Hl & _)%demo_encode_inv _ _. exists (demo_body f). split; [done|]. cbn. lia.
  - intros f b rest He. cbn. destruct (demo_header f b rest He) as [Hu Hb]. pose proof (buf_len_nonneg rest).
    destruct (demo_encode_inv f b He) as (Hbe & Hl & Hp & Hi).
    unfold demo_decode. rewrite buf_len_app, Hu, Hb. replace (_ <? 5) with false by lia.
    replace (demo_max <? _) with false by lia. replace (_ <? 5 + _) with false by lia. replace (_ <? 13) with false by lia.
    assert (Z.to_nat (buf_len (demo_body f)) = String.length (demo_body f)) as -> by (unfold buf_len; lia).
    assert (String.length b = (5 + String.length (demo_body f))%nat) as -> by (unfold buf_len in Hb; lia).
    do 3 f_equal. rewrite Hbe. unfold u32_to_le at 1. cbn [String.append String.substring]. by rewrite substring_whole, demo_parse_body.
  - intros f p q He Hq. cbn in He |- *. destruct (demo_header f (p +:+ q) "" He) as [Hu Hb].
    destruct (demo_encode_inv f _ He) as (_ & Hl & _). rewrite string_app_nil_r in Hu. rewrite buf_len_app in Hb.
    assert (0 < buf_len q) by (pose proof (buf_len_nonneg q); destruct (decide (buf_len q = 0)) as [E|];
      [by apply buf_len_empty in E|lia]).
    unfold demo_decode. destruct (Z.ltb_spec (buf_len p) 5) as [|H5]; [done|].
    rewrite u32_at_app in Hu by (unfold buf_len in H5; lia). rewrite Hu.
    replace (demo_max <? _) with false by lia. by replace (_ <? 5 + _) with true by lia.
  - done.
Qed.
End Demo.

(** ** Clients of another version *)

Section versions.
  Context `{!Prost PbRequest, !Prost PbResponse, !DaemonFrames, !DaemonFrameLaws}.
  Context {S : Type} (dispatch : S -> Request -> list Response * Dispatched * S).
  Context (poll : bytes -> LegacyPrefix -> option ProbeMuxResult).
  Context (mismatch_text : Z -> Z -> bytes) (conversion_text : ConvError -> bytes).

(** A receive waits until a whole frame is there. *)
Lemma recv_reaches {M} `{!Prost M} timeout b rest events buf :
  (forall p q, b = p +:+ q -> q <> "" -> decode_wire_message (M := M) p = (inr None, p)) ->
  undisturbed events -> deadlines events = O -> buf +:+ stream_data events = b +:+ rest ->
  exists events' k, recv_wire_loop (M := M) timeout events buf = recv_wire_loop timeout events' (b +:+ k) /\
    k +:+ stream_data events' = rest.
Proof.
  intros Hpart. revert buf. induction events as [|ev events IH]; intros buf Hu Hd Hs;
    destruct (app_cut _ _ _ _ Hs) as [(k & -> & Hk)|(k & Hne & -> & Hk)].
  - by exists [], k.
  - cbn in Hk. destruct k; [done|discriminate].
  - by exists (ev :: events), k.
  - apply Forall_cons in Hu as [Hev Hu]. destruct ev as [chunk| |]; [|done|done]. destruct chunk as [|c chunk]; [done|].
    cbn [recv_wire_loop]. rewrite (Hpart buf k eq_refl Hne). cbn [read_next_chunk]. apply IH; [done|done|].
    cbn [stream_data] in Hs. by rewrite string_app_assoc.
Qed.

(** The frame of a client of version [v], with [n] bytes after its length. *)
Definition other_frame (n v : Z) (r : bytes) : bytes := u32_to_le n +:+ u32_to_le v +:+ r.

Lemma other_frame_first n v r q p : 0 <= n -> other_frame n v r = p +:+ q -> p <> "" ->
  exists c p', p = String c p' /\ byte_val c = n `mod` 256.
Proof.
  intros Hn Hp Hne. destruct p as [|c p]; [done|]. exists c, p. split; [done|].
  unfold other_frame, u32_to_le in Hp. cbn [String.append] in Hp. injection Hp as Hc _. rewrite <-Hc.
  apply byte_val_of. apply Z.mod_pos_bound. lia.
Qed.

Lemma other_frame_waits n v r p q :
  4 <= n <= MAX_MESSAGE_SIZE -> buf_len r = n - 4 -> n `mod` 256 <> 1 \/ v = RETIRED_BINCODE_PROTOCOL_VERSION ->
  other_frame n v r = p +:+ q -> q <> "" -> decode_wire_message (M := PbRequest) p = (inr None, p).
Proof.
  intros Hn Hr Hv Hp Hq. unfold decode_wire_message.
  assert (buffer_starts_running_process_frame p = Some false \/ buffer_starts_running_process_frame p = None) as Hst.
  { destruct p as [|c0 p0]; [by right|]. destruct (other_frame_first n v r q _ ltac:(lia) Hp ltac:(done)) as (c & p & [= -> ->] & Hc).
    cbn [buffer_starts_running_process_frame]. rewrite Hc. destruct (Z.eqb_spec (n `mod` 256) DAEMON_FRAME_V1_VERSION) as [E|]; [|by left].
    destruct Hv as [|Hv]; [done|]. cbn [negb]. destruct (Z.ltb_spec (buf_len (String c p)) 8) as [|H8]; [by right|left].
    assert (8 <= String.length (String c p))%nat by (unfold buf_len in H8; lia). unfold MAX_MESSAGE_SIZE in Hn.
    rewrite <-(u32_at_app 0 _ q), <-(u32_at_app 4 _ q), <-Hp by lia. unfold other_frame.
    rewrite u32_at_0, u32_at_4 by (rewrite ?Hv; unfold RETIRED_BINCODE_PROTOCOL_VERSION; lia). rewrite Hv.
    replace (4 <=? n) with true by lia. done. }
  destruct Hst as [-> | ->]; [|done].
  rewrite (peek_partial n p q (u32_to_le v +:+ r)); [done|done|done| |done]. rewrite buf_len_app, buf_len_u32. lia.
Qed.

Lemma other_frame_refused n v r k :
  4 <= n <= MAX_MESSAGE_SIZE -> 0 <= v < 2 ^ 32 -> v <> PROST_PROTOCOL_VERSION -> buf_len r = n - 4 ->
  n `mod` 256 <> 1 \/ v = RETIRED_BINCODE_PROTOCOL_VERSION ->
  decode_wire_message (M := PbRequest) (other_frame n v r +:+ k) =
    (inl (VersionMismatch PROST_PROTOCOL_VERSION v), other_frame n v r +:+ k).
Proof.
  intros Hn Hv Hv' Hr Hlow. set (b := other_frame n v r +:+ k).
  assert (u32_at 0 b = n) as Hu0.
  { unfold b, other_frame. rewrite !string_app_assoc. apply u32_at_0. unfold MAX_MESSAGE_SIZE in Hn. lia. }
  assert (u32_at 4 b = v) as Hu4 by (unfold b, other_frame; rewrite !string_app_assoc; by apply u32_at_4).
  assert (buf_len b = 4 + n + buf_len k) as Hlen by (unfold b, other_frame; rewrite !buf_len_app, !buf_len_u32; lia).
  pose proof (buf_len_nonneg k). unfold decode_wire_message.
  assert (buffer_starts_running_process_frame b = Some false) as ->.
  { destruct b as [|c b'] eqn:Hb; [unfold buf_len in Hlen at 1; cbn [String.length] in Hlen; lia|]. cbn [buffer_starts_running_process_frame].
    assert (byte_val c = n `mod` 256) as ->.
    { unfold b, other_frame, u32_to_le in Hb. cbn [String.append] in Hb. injection Hb as <- _.
      apply byte_val_of, Z.mod_pos_bound. lia. }
    destruct (Z.eqb_spec (n `mod` 256) DAEMON_FRAME_V1_VERSION) as [E|]; [|done]. destruct Hlow as [|Hlow]; [done|].
    cbn [negb]. rewrite Hu0, Hu4, Hlow. replace (buf_len (String c b') <? 8) with false by lia.
    replace (4 <=? n) with true by lia. done. }
  unfold peek_frame_protocol_version. rewrite Hu0, Hu4. replace (buf_len b <? 4) with false by lia.
  replace (MAX_MESSAGE_SIZE <? n) with false by lia. replace (n <? 4) with false by lia.
  replace (buf_len b <? 4 + n) with false by lia. unfold wire_format_for_protocol_version.
  by replace (v =? PROST_PROTOCOL_VERSION) with false by lia.
Qed.

(** What the probe makes of a stream that begins with a frame's first words. *)
Lemma probe_buffers events b :
  undisturbed events -> deadlines events = O -> stream_data events = b -> 8 <= buf_len b ->
  exists events' buf', ensure_buffered (reader (from_stream events)) (read_buf (from_stream events)) 8 = (inr tt, (events', buf')) /\
    undisturbed events' /\ deadlines events' = O /\ buf' +:+ stream_data events' = b /\ 8 <= buf_len buf'.
Proof.
  intros Hu Hd Hs Hb. cbn [from_stream reader read_buf].
  destruct (ensure_buffered_ok events "" 8 Hu Hd) as (ev & buf & He & Hu' & Hd' & Hs' & Hn).
  { left. cbn [String.append]. by rewrite Hs. }
  cbn [String.append] in Hs'. rewrite Hs in Hs'. exists ev, buf. repeat split; try done.
  destruct Hn as [|Hn]; [done|]. rewrite Hs' in Hn. by rewrite Hn in Hb.
Qed.

(** The first words of such a frame, once they are buffered. *)
Lemma other_frame_words n v r buf q :
  4 <= n <= MAX_MESSAGE_SIZE -> 0 <= v < 2 ^ 32 -> other_frame n v r = buf +:+ q -> 8 <= buf_len buf ->
  u32_at 0 buf = n /\ u32_at 4 buf = v /\ u32_at 1 buf = u32_at 1 (other_frame n v r) /\
  exists c buf', buf = String c buf' /\ byte_val c = n `mod` 256.
Proof.
  intros Hn Hv Hs H8. unfold MAX_MESSAGE_SIZE in Hn. assert (8 <= String.length buf)%nat by (unfold buf_len in H8; lia).
  rewrite <-(u32_at_app 0 buf q), <-(u32_at_app 4 buf q), <-(u32_at_app 1 buf q), <-Hs by lia. repeat split.
  - unfold other_frame. apply u32_at_0. lia.
  - by apply u32_at_4.
  - apply (other_frame_first n v r q buf); [lia|done|]. intros ->. by vm_compute in H8.
Qed.

Lemma other_version_answered n v r s events reply :
  4 <= n <= MAX_MESSAGE_SIZE -> 0 <= v < 2 ^ 32 -> v <> PROST_PROTOCOL_VERSION -> buf_len r = n - 4 ->
  undisturbed events -> deadlines events = O -> stream_data events = other_frame n v r ->
  encode_prost_message (response_to_prost (RsError (mismatch_text PROST_PROTOCOL_VERSION v)) "protocol-version-mismatch") = inr reply ->
  n `mod` 256 <> 1 \/ v = RETIRED_BINCODE_PROTOCOL_VERSION ->
  exists server, handle_connection dispatch poll mismatch_text conversion_text 1 (from_stream events) s =
    (Some (inl (Protocol (VersionMismatch PROST_PROTOCOL_VERSION v))), server, s) /\ writer server = reply.
Proof.
  intros Hn Hv Hv' Hr Hu Hd Hs Hreply Hlow.
  assert (buf_len (other_frame n v r) = 4 + n) as Hlen by (unfold other_frame; rewrite !buf_len_app, !buf_len_u32; lia).
  destruct (probe_buffers events _ Hu Hd Hs ltac:(lia)) as (ev & buf & He & Hu' & Hd' & Hs' & H8).
  destruct (other_frame_words n v r buf (stream_data ev) Hn Hv (eq_sym Hs') H8) as (Hu0 & Hu4 & _ & c0 & buf' & Hbuf & Hc0).
  assert (buffer_starts_running_process_frame buf = Some false) as Hf.
  { rewrite Hbuf at 1. cbn [buffer_starts_running_process_frame]. rewrite <-Hbuf, Hc0, Hu0, Hu4.
    destruct (Z.eqb_spec (n `mod` 256) DAEMON_FRAME_V1_VERSION) as [E|]; [|done]. destruct Hlow as [|Hlow]; [done|].
    cbn [negb]. rewrite Hlow. replace (buf_len buf <? 8) with false by lia. replace (4 <=? n) with true by lia. done. }
  unfold handle_connection. rewrite (probe_skips poll ev buf _ He Hf).
  destruct (recv_reaches (M := PbRequest) (Some SERVER_REQUEST_RECV_TIMEOUT) (other_frame n v r) "" ev buf) as (ev2 & k & Hrecv & Hk).
  { intros p q Hp Hq. by apply (other_frame_waits n v r p q). }
  { done. } { done. } { by rewrite string_app_nil_r. }
  assert (k = "") as -> by (by destruct k). cbn [serve]. unfold recv_wire_with_timeout, recv_wire_at.
  cbn [with_read reader read_buf]. rewrite Hrecv. destruct ev2 as [|e2 ev2]; cbn [recv_wire_loop];
    rewrite (other_frame_refused n v r "") by done; unfold send_prost; rewrite Hreply; eexists; (split; [reflexivity|done]).
Qed.

Lemma newer_version_dropped n v r s events :
  4 <= n <= MAX_MESSAGE_SIZE -> 27 <= v < 256 -> buf_len r = n - 4 ->
  undisturbed events -> deadlines events = O -> stream_data events = other_frame n v r -> n `mod` 256 = 1 ->
  exists server, handle_connection dispatch poll mismatch_text conversion_text 1 (from_stream events) s =
    (Some (inl Endpoint), server, s) /\ writer server = "".
Proof.
  intros Hn Hv Hr Hu Hd Hs Hlow.
  assert (buf_len (other_frame n v r) = 4 + n) as Hlen by (unfold other_frame; rewrite !buf_len_app, !buf_len_u32; lia).
  destruct (probe_buffers events _ Hu Hd Hs ltac:(lia)) as (ev & buf & He & Hu' & Hd' & Hs' & H8).
  destruct (other_frame_words n v r buf (stream_data ev) Hn ltac:(lia) (eq_sym Hs') H8) as (Hu0 & Hu4 & Hu1 & c0 & buf' & Hbuf & Hc0).
  assert (buffer_starts_running_process_frame buf = Some true) as Hf.
  { rewrite Hbuf at 1. cbn [buffer_starts_running_process_frame]. rewrite <-Hbuf, Hc0, Hu0, Hu4, Hlow.
    cbn [Z.eqb DAEMON_FRAME_V1_VERSION Pos.eqb negb]. replace (buf_len buf <? 8) with false by lia.
    replace (v =? PROST_PROTOCOL_VERSION) with false by (unfold PROST_PROTOCOL_VERSION; lia).
    replace (v =? RETIRED_BINCODE_PROTOCOL_VERSION) with false by (unfold RETIRED_BINCODE_PROTOCOL_VERSION; lia).
    by rewrite andb_false_r. }
  assert (27 * 16777216 <= u32_at 1 buf) as Hbig.
  { rewrite Hu1. unfold other_frame, u32_at, u32_to_le. cbn [String.append str_skip]. unfold u32_from_le.
    rewrite (byte_val_of (v `mod` 256)), (Z.mod_small v) by (try apply Z.mod_pos_bound; lia).
    pose proof (byte_val_bound (byte_of ((n `div` 256) `mod` 256))).
    pose proof (byte_val_bound (byte_of ((n `div` 65536) `mod` 256))).
    pose proof (byte_val_bound (byte_of ((n `div` 16777216) `mod` 256))). lia. }
  pose proof max_body_small. eexists. unfold handle_connection, try_serve_backend_handle_probe. rewrite He, Hf, Hbuf, Hc0, <-Hbuf, Hlow.
  cbn [Z.eqb DAEMON_FRAME_V1_VERSION Pos.eqb negb]. replace (DAEMON_FRAME_V1_MAX_BODY_BYTES <? u32_at 1 buf) with true by lia. done.
Qed.

(** Clients of another protocol version.  The daemon answers a request of
    another version with an error that says so and closes, in whatever pieces the
    request came, unless the low byte of the frame's length happens to be one:
    then it takes the frame for one of the broker's, and a client of a newer
    version gets no answer at all. *)
Theorem other_version_clients n v r s events reply :
  4 <= n <= MAX_MESSAGE_SIZE -> 0 <= v < 2 ^ 32 -> v <> PROST_PROTOCOL_VERSION -> buf_len r = n - 4 ->
  undisturbed events -> deadlines events = O -> stream_data events = other_frame n v r ->
  encode_prost_message (response_to_prost (RsError (mismatch_text PROST_PROTOCOL_VERSION v)) "protocol-version-mismatch") = inr reply ->
  let served := handle_connection dispatch poll mismatch_text conversion_text 1 (from_stream events) s in
  (n `mod` 256 <> 1 \/ v = RETIRED_BINCODE_PROTOCOL_VERSION ->
   exists server, served = (Some (inl (Protocol (VersionMismatch PROST_PROTOCOL_VERSION v))), server, s) /\ writer server = reply) /\
  (n `mod` 256 = 1 -> 27 <= v < 256 -> exists server, served = (Some (inl Endpoint), server, s) /\ writer server = "").
Proof.
  intros. split; intros; [by eapply (other_version_answered n v r)|by eapply (newer_version_dropped n v r)].
Qed.
End versions.

(** ** Requests over the size limit *)

Section oversize.
  Context `{!Prost PbRequest, !Prost PbResponse, !DaemonFrames, !DaemonFrameLaws}.
  Context {S : Type} (dispatch : S -> Request -> list Response * Dispatched * S).
  Context (poll : bytes -> LegacyPrefix -> option ProbeMuxResult).
  Context (mismatch_text : Z -> Z -> bytes) (conversion_text : ConvError -> bytes).

(** The words that make a direct frame known for one, and for too large. *)
Definition large_header (n : Z) : bytes :=
  if n `mod` 256 =? 1 then u32_to_le n +:+ u32_to_le PROST_PROTOCOL_VERSION else u32_to_le n.

Lemma large_header_waits n p q :
  0 <= n -> large_header n = p +:+ q -> q <> "" -> decode_wire_message (M := PbRequest) p = (inr None, p).
Proof.
  intros Hn Hp Hq. assert (buf_len p + buf_len q = buf_len (large_header n)) as Hl by (by rewrite Hp, buf_len_app).
  assert (0 < buf_len q) by (pose proof (buf_len_nonneg q); destruct (decide (buf_len q = 0)) as [E|];
    [by apply buf_len_empty in E|lia]).
  unfold decode_wire_message. destruct p as [|c p]; [done|]. cbn [buffer_starts_running_process_frame].
  assert (byte_val c = n `mod` 256) as ->.
  { unfold large_header in Hp. assert (c = byte_of (n `mod` 256)) as ->
      by (destruct (_ =? 1); unfold u32_to_le in Hp; cbn [String.append] in Hp; congruence).
    apply byte_val_of, Z.mod_pos_bound. lia. }
  unfold large_header in Hl. unfold DAEMON_FRAME_V1_VERSION. destruct (n `mod` 256 =? 1); cbn [negb].
  - rewrite buf_len_app, !buf_len_u32 in Hl. by replace (buf_len (String c p) <? 8) with true by lia.
  - rewrite buf_len_u32 in Hl. unfold peek_frame_protocol_version. by replace (buf_len (String c p) <? 4) with true by lia.
Qed.

Lemma large_header_refused n k :
  MAX_MESSAGE_SIZE < n < 2 ^ 32 ->
  decode_wire_message (M := PbRequest) (large_header n +:+ k) = (inl (MessageTooLarge n), large_header n +:+ k).
Proof.
  intros Hn. unfold MAX_MESSAGE_SIZE in Hn. set (b := large_header n +:+ k).
  assert (u32_at 0 b = n) as Hu0.
  { unfold b, large_header. destruct (_ =? 1); rewrite ?string_app_assoc; apply u32_at_0; lia. }
  assert (4 <= buf_len b) as H4.
  { unfold b, large_header. pose proof (buf_len_nonneg k). destruct (_ =? 1); rewrite !buf_len_app, ?buf_len_u32; lia. }
  unfold decode_wire_message. assert (buffer_starts_running_process_frame b = Some false) as ->.
  { unfold b, large_header, DAEMON_FRAME_V1_VERSION in *. destruct (Z.eqb_spec (n `mod` 256) 1) as [E|E].
    - destruct (direct_not_frame n ((u32_to_le n +:+ u32_to_le PROST_PROTOCOL_VERSION) +:+ k) "" k) as [|[_ Hs]];
        [lia|by rewrite string_app_nil_r, string_app_assoc|done|].
      rewrite !buf_len_app, !buf_len_u32 in Hs. pose proof (buf_len_nonneg k). lia.
    - unfold u32_to_le at 1. cbn [String.append buffer_starts_running_process_frame].
      rewrite byte_val_of by (apply Z.mod_pos_bound; lia). unfold DAEMON_FRAME_V1_VERSION. by replace (_ =? 1) with false by lia. }
  unfold peek_frame_protocol_version. rewrite Hu0. replace (buf_len b <? 4) with false by lia.
  unfold MAX_MESSAGE_SIZE. by replace (_ <? n) with true by lia.
Qed.

(** A request over the size limit is sent and not answered: the client's send
    succeeds for anything below four gigabytes, the daemon refuses the frame as
    soon as it has read the length, and the connection ends without a response. *)
Theorem oversized_request_unanswered request s :
  let n := 4 + buf_len (pb_encode (request_to_prost request (default_request_id request))) in
  MAX_MESSAGE_SIZE < n < 2 ^ 32 ->
  exists client, send_request request ProstV16 (from_stream []) = (inr tt, client) /\
    forall events, undisturbed events -> deadlines events = O -> stream_data events = writer client ->
      exists server, handle_connection dispatch poll mismatch_text conversion_text 1 (from_stream events) s =
        (Some (inl (Protocol (MessageTooLarge n))), server, s) /\ writer server = "".
Proof.
  intros n Hn. pose proof Hn as Hn'. unfold MAX_MESSAGE_SIZE in Hn'. set (m := request_to_prost _ _) in *.
  unfold send_request, send_prost, encode_prost_message. fold m. replace (2 ^ 32 <=? _) with false by lia.
  eexists. split; [done|]. intros events Hu Hd Hs. cbn [write_all writer from_stream String.append] in Hs. fold n in Hs.
  assert (exists tail, stream_data events = large_header n +:+ tail) as [tail Htail].
  { unfold large_header. destruct (_ =? 1); eexists; [by rewrite string_app_assoc|done]. }
  destruct (probe_buffers events _ Hu Hd Hs) as (ev & buf & He & Hu' & Hd' & Hs' & H8).
  { rewrite !buf_len_app, !buf_len_u32. pose proof (buf_len_nonneg (pb_encode m)). lia. }
  assert (buffer_starts_running_process_frame buf = Some false) as Hf.
  { destruct (direct_not_frame n buf (stream_data ev) (pb_encode m)) as [|[_ Hshort]]; [lia|by rewrite Hs'|done|lia]. }
  unfold handle_connection. rewrite (probe_skips poll ev buf _ He Hf).
  destruct (recv_reaches (M := PbRequest) (Some SERVER_REQUEST_RECV_TIMEOUT) (large_header n) tail ev buf) as (ev2 & k & Hrecv & Hk).
  { intros p q Hp Hq. apply (large_header_waits n p q); [lia|done|done]. }
  { done. } { done. } { by rewrite Hs', <-Hs, Htail. }
  cbn [serve]. unfold recv_wire_with_timeout, recv_wire_at. cbn [with_read reader read_buf]. rewrite Hrecv.
  destruct ev2; cbn [recv_wire_loop]; rewrite (large_header_refused n k) by done; by eexists.
Qed.
End oversize.

(** ** Witnesses *)

Import Demo.

Definition demo_ping : PbRequest := request_to_prost RqPing "control-ping".
Definition demo_status : PbRequest := request_to_prost RqStatus "control-status".
(** Messages for two requests; a third has the length its text says. *)
#[local] Instance demo_requests : Prost PbRequest := {|
  pb_value m := m = demo_ping \/ m = demo_status;
  pb_encode m := match r_body m with
                 | Some (PbR_ping _) => "p" | Some (PbR_status _) => "s" | Some (PbR_clear _) => repeat_char "c" (Z.to_nat (2 ^ 24))
                 | _ => "" end;
  pb_decode b := if bool_decide (b = "p") then Some demo_ping else if bool_decide (b = "s") then Some demo_status else None
|}.
#[local] Instance demo_request_laws : ProstLaws PbRequest.
Proof. split. by intros m [-> | ->]. Qed.

#[local] Instance demo_responses : Prost PbResponse := {|
  pb_value m := m = response_to_prost RsPong "control-ping" \/ m = response_to_prost RsShuttingDown "control-status";
  pb_encode m := match re_body m with Some (PbRE_pong _) => "P" | _ => "D" end;
  pb_decode b := if bool_decide (b = "P") then Some (response_to_prost RsPong "control-ping")
                 else Some (response_to_prost RsShuttingDown "control-status")
|}.
#[local] Instance demo_response_laws : ProstLaws PbResponse.
Proof. split. by intros m [-> | ->]. Qed.

(** A dispatcher that counts, with a heartbeat, and a probe responder that answers
    nothing. *)
Definition demo_dispatch (s : nat) (r : Request) : list Response * Dispatched * nat :=
  match r with RqPing => ([RsPong], Respond RsPong, Datatypes.S s) | _ => ([], Last RsShuttingDown, s) end.
Definition demo_poll (b : bytes) (p : LegacyPrefix) : option ProbeMuxResult := Some ProductFrame.
Definition demo_sent : bytes :=
  match encode_all (map sent_request (numbered 1 [(RqPing, FrameV1); (RqStatus, ProstV16)])) with inr b => b | inl _ => "" end.

Lemma connection_serves_witness :
  exists server, handle_connection demo_dispatch demo_poll (fun _ _ => "") (fun _ => "") 3
    (from_stream [Data (String.substring 0 7 demo_sent); Data (str_skip 7 demo_sent)]) O = (Some (inr tt), server, 1%nat).
Proof.
  pose proof (connection_serves demo_dispatch demo_poll (fun _ _ => "") (fun _ => "") ltac:(done)
    [(RqPing, FrameV1); (RqStatus, ProstV16)] (mkIpcConnection [] demo_sent "" None 2) O
    [Data (String.substring 0 7 demo_sent); Data (str_skip 7 demo_sent)]) as H.
  destruct H as (server & H & _).
  - vm_compute. reflexivity.
  - repeat apply List.Forall_cons; [..|constructor]; (split; [constructor|]; split; [exact I|]); cbn; split; try lia; [by left|by right|].
    vm_compute. discriminate.
  - repeat apply List.Forall_cons; [..|constructor]; (split; [constructor|]; split; [exact I|]); cbn; split;
      try (eexists; vm_compute; reflexivity); split; try lia; [by left|by left|by right|]. vm_compute. discriminate.
  - repeat constructor; vm_compute; discriminate.
  - reflexivity.
  - vm_compute. reflexivity.
  - exists server. exact H.
Defined.

Lemma other_version_clients_witness :
  exists server, handle_connection demo_dispatch demo_poll (fun _ _ => "") (fun _ => "") 1
    (from_stream [Data (other_frame 257 27 (repeat_char "x" 253))]) O = (Some (inl Endpoint), server, O) /\ writer server = "".
Proof.
  refine (proj2 (other_version_clients demo_dispatch demo_poll (fun _ _ => "") (fun _ => "") 257 27 (repeat_char "x" 253) O
    [Data (other_frame 257 27 (repeat_char "x" 253))] _ _ _ _ _ _ _ _ _) _ _).
  - unfold MAX_MESSAGE_SIZE. lia.
  - lia.
  - unfold PROST_PROTOCOL_VERSION. lia.
  - vm_compute. reflexivity.
  - repeat constructor. vm_compute. discriminate.
  - reflexivity.
  - vm_compute. reflexivity.
  - vm_compute. reflexivity.
  - vm_compute. reflexivity.
  - lia.
Defined.

Lemma repeat_char_len c n : buf_len (repeat_char c n) = Z.of_nat n.
Proof. unfold buf_len. induction n as [|n IH]; [done|]. cbn [repeat_char String.length]. lia. Qed.

Lemma oversized_request_unanswered_witness :
  exists client, send_request RqClear ProstV16 (from_stream []) = (inr tt, client).
Proof.
  destruct (oversized_request_unanswered demo_dispatch demo_poll (fun _ _ => "") (fun _ => "") RqClear O) as (client & H & _).
  - change (pb_encode _) with (repeat_char "c" (Z.to_nat (2 ^ 24))). rewrite repeat_char_len, Z2Nat.id by lia.
    unfold MAX_MESSAGE_SIZE. lia.
  - exists client. exact H.
Defined.
