(* ===== verification/DiskMaintenance.v ===== *)
(** * Retention of artifacts on disk ([daemon/server/disk_maintenance.rs])

    The policy ([MaintenancePolicy]), the accounting of what is on the disk
    ([scan_artifacts]), the plan of what to remove, and the pass that removes it
    in rounds, under a barrier that keeps hits and publications out while a round
    commits; with the removal of staged generations
    ([persist/staged_store/maintenance.rs]), the record of accesses
    ([cached_artifact.rs]) and the schedule of passes.

    Times are nanoseconds since the epoch.  The disk is the legacy files of the
    artifact directory by name and the staged trees by key, with what the system
    says of each file; the free space is the environment's answer
    ([MaintenanceEnvironment]).  What other threads do between the planning and
    the commit of a round is an arbitrary function. *)

From stdpp Require Import list strings gmap sorting.
From Stdlib Require Import Lia.
From S2P Require Import Prelude Path RustStr Hash ContextKeys DepGraph DepGraphIndex IndexWal.

#[local] Open Scope Z_scope.

Definition U64_MAX : Z := 2 ^ 64 - 1.
Definition sat_add (a b : Z) : Z := Z.min (a + b) U64_MAX.
Definition sat_mul (a b : Z) : Z := Z.min (a * b) U64_MAX.

Definition GIB : Z := 1024 * 1024 * 1024.
Definition SECOND : Z := 10 ^ 9.
Definition SOFT_AGE : Z := 4 * 24 * 60 * 60 * SECOND.
Definition EXPIRE_AGE : Z := 30 * 24 * 60 * 60 * SECOND.
Definition PRESSURE_INTERVAL : Z := 5 * 60 * SECOND.
Definition HARD_PRESSURE_MIN_AGE : Z := PRESSURE_INTERVAL.
Definition FULL_INTERVAL_SECS : Z := 24 * 60 * 60.

(** ** Policy *)

Inductive MaintenanceKind := Pressure | Full.
Inductive BudgetSpec := Dynamic | Bytes (n : Z) | Percent (p : Z).
Inductive MaintenancePressure := NoPressure | Soft | Hard.
#[global] Instance MaintenanceKind_eq_dec : EqDecision MaintenanceKind.
Proof. solve_decision. Defined.
#[global] Instance MaintenancePressure_eq_dec : EqDecision MaintenancePressure.
Proof. solve_decision. Defined.

Inductive PolicyError := MutuallyExclusive | BadBytes | ZeroBytes | BadPercent.

(** A value that is not blank. *)
Definition non_blank (v : option bytes) : option bytes :=
  match v with Some s => if bool_decide (str_trim s = "") then None else Some s | None => None end.
(** [parse::<u8>]. *)
Definition parse_u8 (s : bytes) : option Z :=
  match parse_u64 s with Some n => if n <? 256 then Some n else None | None => None end.

(** [from_values]. *)
Definition from_values (bytes_ percent : option bytes) : PolicyError + BudgetSpec :=
  match non_blank bytes_, non_blank percent with
  | Some _, Some _ => inl MutuallyExclusive
  | Some value, None =>
      match parse_u64 value with
      | None => inl BadBytes
      | Some n => if n =? 0 then inl ZeroBytes else inr (Bytes n)
      end
  | None, Some value =>
      match parse_u8 value with
      | None => inl BadPercent
      | Some p => if (1 <=? p) && (p <=? 100) then inr (Percent p) else inl BadPercent
      end
  | None, None => inr Dynamic
  end.

(** [from_limits]. *)
Definition from_limits (n p : option Z) : PolicyError + BudgetSpec :=
  match n, p with
  | Some _, Some _ => inl MutuallyExclusive
  | Some n, None => if n =? 0 then inl ZeroBytes else inr (Bytes n)
  | None, Some p => if (1 <=? p) && (p <=? 100) then inr (Percent p) else inl BadPercent
  | None, None => inr Dynamic
  end.

Definition low_space_bytes (capacity : Z) : Z := Z.min (Z.max (sat_mul capacity 5 `div` 100) (20 * GIB)) capacity.
Definition critical_space_bytes (capacity : Z) : Z :=
  Z.min (Z.max (capacity `div` 100) (5 * GIB)) (low_space_bytes capacity).
Definition recovery_free_bytes (capacity : Z) : Z :=
  Z.min (Z.max (sat_mul capacity 8 `div` 100) (30 * GIB)) (capacity `div` 2).

(** [budget_bytes]. *)
Definition budget_bytes (policy : BudgetSpec) (capacity_bytes : Z) : Z :=
  let requested :=
    match policy with
    | Dynamic => Z.min (Z.max (sat_mul capacity_bytes 5 `div` 100) (40 * GIB)) (200 * GIB)
    | Bytes n => n
    | Percent p => sat_mul capacity_bytes p `div` 100
    end in
  Z.min requested (saturating_sub capacity_bytes (recovery_free_bytes capacity_bytes)).

(** ** The plan *)

Record FilesystemSpace := mkSpace { capacity_bytes : Z; free_bytes : Z }.

Record DiskArtifact := mkDiskArtifact {
  a_key : bytes;
  allocated_bytes : Z;
  reclaimable_bytes : Z;
  last_access : Z;
  recently_published : bool;
  legacy_files : list bytes;
  a_staged : bool;
  staged_generation : option bytes
}.

Definition age (now then_ : Z) : Z := Z.max 0 (now - then_).

Record MaintenancePlan := mkPlan { plan_pressure : MaintenancePressure; plan_selected : list bytes; plan_expired : gset bytes }.

Definition sum_of (f : DiskArtifact -> Z) (init : Z) (l : list DiskArtifact) : Z :=
  fold_left (fun total a => sat_add total (f a)) l init.

(** The candidates of a pressure. *)
Definition eligible (pressure : MaintenancePressure) (now : Z) (a : DiskArtifact) : bool :=
  let artifact_age := age now (last_access a) in
  (bool_decide (pressure = Hard) && (negb (recently_published a) || (HARD_PRESSURE_MIN_AGE <? artifact_age)))
  || (SOFT_AGE <? artifact_age).

(** [sort_by_key(|a| (a.reclaimable_bytes == 0, a.last_access))]. *)
Definition disk_candidate_leb (a b : DiskArtifact) : bool :=
  match reclaimable_bytes a =? 0, reclaimable_bytes b =? 0 with
  | false, true => true
  | true, false => false
  | _, _ => last_access a <=? last_access b
  end.

(** The loop over the candidates: what it takes. *)
Fixpoint take_candidates (pressure : MaintenancePressure) (usage_need free_need : Z) (candidates : list DiskArtifact)
    (usage_reclaimed free_reclaimed : Z) : list DiskArtifact :=
  match candidates with
  | [] => []
  | a :: rest =>
      if (usage_need <=? usage_reclaimed) && (free_need <=? free_reclaimed) then []
      else if (reclaimable_bytes a =? 0) && (negb (bool_decide (pressure = Hard)) || (usage_need <=? usage_reclaimed)) then []
      else a :: take_candidates pressure usage_need free_need rest
                  (sat_add usage_reclaimed (allocated_bytes a)) (sat_add free_reclaimed (reclaimable_bytes a))
  end.

Definition max_pressure (p q : MaintenancePressure) : MaintenancePressure :=
  match p, q with
  | Hard, _ | _, Hard => Hard
  | Soft, _ | _, Soft => Soft
  | _, _ => NoPressure
  end.

Section plan.
  Context (policy : BudgetSpec) (kind : MaintenanceKind) (now : Z) (space : FilesystemSpace)
    (artifacts : list DiskArtifact) (pending_write_bytes retired_bytes : Z) (minimum_pressure : MaintenancePressure).

Definition budget : Z := budget_bytes policy (capacity_bytes space).
Definition expired_artifacts : list DiskArtifact :=
  match kind with
  | Full => filter (fun a => EXPIRE_AGE <? age now (last_access a)) artifacts
  | Pressure => []
  end.
Definition projected_usage : Z :=
  saturating_sub (sat_add (sat_add (sum_of allocated_bytes 0 artifacts) pending_write_bytes) retired_bytes)
    (sum_of allocated_bytes 0 expired_artifacts).
Definition projected_free : Z := sat_add (free_bytes space) (sum_of reclaimable_bytes 0 expired_artifacts).
Definition space_low : bool := projected_free <? low_space_bytes (capacity_bytes space).
Definition detected_pressure : MaintenancePressure :=
  let hard := (budget <=? projected_usage) || (projected_free <? critical_space_bytes (capacity_bytes space)) in
  let soft := negb hard && (space_low || (sat_mul budget 85 `div` 100 <=? projected_usage)) in
  if hard then Hard else if soft then Soft else NoPressure.
Definition pass_pressure : MaintenancePressure := max_pressure minimum_pressure detected_pressure.
Definition needs : Z * Z :=
  match pass_pressure with
  | Hard => (saturating_sub projected_usage (sat_mul budget 80 `div` 100),
             saturating_sub (recovery_free_bytes (capacity_bytes space)) projected_free)
  | Soft => (saturating_sub projected_usage (sat_mul budget 70 `div` 100),
             if space_low then saturating_sub (recovery_free_bytes (capacity_bytes space)) projected_free else 0)
  | NoPressure => (0, 0)
  end.
Definition candidates : list DiskArtifact :=
  let selected := list_to_set (C := gset bytes) (map a_key expired_artifacts) in
  sort_by disk_candidate_leb (filter (fun a => eligible pass_pressure now a) (filter (fun a => a_key a ∉ selected) artifacts)).
Definition taken : list DiskArtifact :=
  let '(usage_need, free_need) := needs in
  if (0 <? usage_need) || (0 <? free_need) then take_candidates pass_pressure usage_need free_need candidates 0 0 else [].

(** [plan_maintenance_at_least]. *)
Definition plan_maintenance_at_least : MaintenancePlan :=
  let selected := list_to_set (C := gset bytes) (map a_key expired_artifacts ++ map a_key taken) in
  mkPlan pass_pressure (sort_by_key id (elements selected)) (list_to_set (map a_key expired_artifacts)).
End plan.

(** ** What is on the disk *)

Record DiskFile := mkDiskFile { f_mtime : Z; f_identity : option Z; f_allocated : Z; f_frees : bool }.
(** A staged tree: regular files, directories with their own time, links. *)
Inductive Tree := TFile (f : DiskFile) | TDir (mtime : Z) (entries : list Tree) | TLink.
(** A staged key: its tree, and its pointer with the generation it names. *)
Record StagedEntry := mkStagedEntry { s_tree : Tree; s_pointer : option (DiskFile * bytes) }.
Record Disk := mkDisk { d_files : list (bytes * DiskFile); d_staged : list (bytes * StagedEntry) }.

Definition empty_artifact (key : bytes) (is_staged : bool) : DiskArtifact := mkDiskArtifact key 0 0 0 false [] is_staged None.
Definition with_sizes (access allocated reclaimable : Z) (a : DiskArtifact) : DiskArtifact :=
  mkDiskArtifact (a_key a) allocated reclaimable access (recently_published a) (legacy_files a) (a_staged a) (staged_generation a).

(** [add_file]: a file seen before under another name is counted once. *)
Definition add_file (f : DiskFile) (st : DiskArtifact * gset Z) : DiskArtifact * gset Z :=
  let '(a, seen) := st in
  let access := Z.max (last_access a) (f_mtime f) in
  let is_new := match f_identity f with Some id => negb (bool_decide (id ∈ seen)) | None => true end in
  let seen := match f_identity f with Some id => {[id]} ∪ seen | None => seen end in
  if is_new
  then (with_sizes access (sat_add (allocated_bytes a) (f_allocated f))
          (if f_frees f then sat_add (reclaimable_bytes a) (f_allocated f) else reclaimable_bytes a) a, seen)
  else (with_sizes access (allocated_bytes a) (reclaimable_bytes a) a, seen).

(** [add_tree]. *)
Fixpoint add_tree (t : Tree) (st : DiskArtifact * gset Z) : DiskArtifact * gset Z :=
  match t with
  | TFile f => add_file f st
  | TLink => st
  | TDir _ entries => (fix go l st := match l with [] => st | e :: l => go l (add_tree e st) end) entries st
  end.

(** [staged_tree_stats]: the newest time, unless there is a link. *)
Fixpoint staged_tree_mtime (t : Tree) : option Z :=
  match t with
  | TFile f => Some (f_mtime f)
  | TLink => None
  | TDir mtime entries =>
      (fix go l acc := match l with
                       | [] => Some acc
                       | e :: l => match staged_tree_mtime e with Some m => go l (Z.max acc m) | None => None end
                       end) entries mtime
  end.

(** [str::rsplit_once]. *)
Definition rsplit_once (c : ascii) (s : bytes) : option (bytes * bytes) :=
  '(a, b) ← split_once c (str_rev s); Some (str_rev b, str_rev a).

(** [legacy_key]: the key of a file's name, and the output it is of. *)
Definition legacy_key (name : bytes) : option (bytes * option Z) :=
  if starts_with "." name then None
  else
    '(key, output_index) ←
      match strip_suffix ".meta" name with
      | Some key => Some (key, None)
      | None =>
          match strip_suffix ".pack" name with
          | Some key => Some (key, None)
          | None =>
              '(key, output) ← rsplit_once "_" name;
              output_index ← parse_u64 output;
              Some (key, Some output_index)
          end
      end;
    if (String.length key <=? 128)%nat && negb (bool_decide (key = "")) then Some (key, output_index) else None.

Definition is_hexdigit (c : ascii) : bool :=
  let v := byte_val c in
  ((48 <=? v) && (v <=? 57)) || ((65 <=? v) && (v <=? 70)) || ((97 <=? v) && (v <=? 102)).
Fixpoint all_hex (s : bytes) : bool := match s with EmptyString => true | String c s => is_hexdigit c && all_hex s end.
Definition staged_key_supported (key : bytes) : bool :=
  negb (bool_decide (key = "")) && (String.length key <=? 128)%nat && all_hex key.

(** The groups of [scan_artifacts], in the order they are first met (the code's map
    gives them in any order). *)
Abbreviation Groups := (list (bytes * DiskArtifact)).
Fixpoint upsert (key : bytes) (d : DiskArtifact) (f : DiskArtifact -> DiskArtifact * gset Z) (g : Groups) : Groups * gset Z :=
  match g with
  | [] => let '(a, seen) := f d in ([(key, a)], seen)
  | (k, a) :: g =>
      if bool_decide (k = key) then let '(a, seen) := f a in ((k, a) :: g, seen)
      else let '(g, seen) := upsert key d f g in ((k, a) :: g, seen)
  end.

Definition push_legacy (name : bytes) (a : DiskArtifact) : DiskArtifact :=
  mkDiskArtifact (a_key a) (allocated_bytes a) (reclaimable_bytes a) (last_access a) (recently_published a)
    (legacy_files a ++ [name]) (a_staged a) (staged_generation a).
Definition set_staged (generation : option bytes) (access : Z) (a : DiskArtifact) : DiskArtifact :=
  mkDiskArtifact (a_key a) (allocated_bytes a) (reclaimable_bytes a) access (recently_published a) (legacy_files a) true generation.

Fixpoint scan_legacy (l : list (bytes * DiskFile)) (st : Groups * gset Z) : Groups * gset Z :=
  match l with
  | [] => st
  | (name, f) :: l =>
      match legacy_key name with
      | None => scan_legacy l st
      | Some (key, _) =>
          let '(g, seen) := st in
          scan_legacy l (upsert key (empty_artifact key false)
            (fun a => let '(a, seen) := add_file f (a, seen) in (push_legacy name a, seen)) g)
      end
  end.

(** The generation a key's pointer names. *)
Definition generation (e : StagedEntry) : option bytes := (fun p => str_trim p.2) <$> s_pointer e.

(** [scan_staged_disk_artifacts]: the keys and their times; a link is refused. *)
Fixpoint scan_staged_disk_artifacts (l : list (bytes * StagedEntry)) : option (list (bytes * Z * StagedEntry)) :=
  match l with
  | [] => Some []
  | (key, e) :: l =>
      match s_tree e with
      | TLink => None
      | TFile _ => scan_staged_disk_artifacts l
      | TDir _ _ =>
          if negb (staged_key_supported key) then scan_staged_disk_artifacts l
          else match staged_tree_mtime (s_tree e), scan_staged_disk_artifacts l with
               | Some mtime, Some rest =>
                   let mtime := match s_pointer e with Some (f, _) => Z.max mtime (f_mtime f) | None => mtime end in
                   Some ((key, mtime, e) :: rest)
               | _, _ => None
               end
      end
  end.

Fixpoint scan_staged (l : list (bytes * Z * StagedEntry)) (st : Groups * gset Z) : Groups * gset Z :=
  match l with
  | [] => st
  | (key, mtime, e) :: l =>
      let '(g, seen) := st in
      scan_staged l (upsert key (empty_artifact key true)
        (fun a =>
           let a := set_staged (generation e) (Z.max (last_access a) mtime) a in
           let st := add_tree (s_tree e) (a, seen) in
           match s_pointer e with Some (f, _) => add_file f st | None => st end) g)
  end.

(** [scan_artifacts]; [None] is the refusal of a link. *)
Definition scan_artifacts (d : Disk) : option (list DiskArtifact) :=
  match scan_staged_disk_artifacts (d_staged d) with
  | None => None
  | Some staged => Some (scan_staged staged (scan_legacy (d_files d) ([], ∅))).1.*2
  end.

(** ** Live accesses ([cached_artifact.rs]) *)

Record ArtifactAccess := mkAccess {
  last_used : Z;
  last_used_wall : Z;
  used_in_process : bool;
  published_in_process : bool;
  last_access_checkpoint : option Z
}.
Record CachedArtifact := mkCached { c_meta : ArtifactIndex; c_access : ArtifactAccess }.

(** [with_payloads], [from_index] and [record_access], at the instant [now] of the
    monotonic clock and the time [wall]. *)
Definition cached_published (meta : ArtifactIndex) (now wall : Z) : CachedArtifact :=
  mkCached meta (mkAccess now wall true true (Some now)).
Definition from_index (meta : ArtifactIndex) (now wall : Z) : CachedArtifact :=
  mkCached meta (mkAccess now (Z.min (stored_at_secs meta * SECOND) wall) false false None).
Definition PERSIST_INTERVAL : Z := 60 * 60 * SECOND.
Definition record_access (now wall : Z) (c : CachedArtifact) : CachedArtifact * option Z :=
  let a := c_access c in
  if match last_access_checkpoint a with Some cp => Z.max 0 (now - cp) <? PERSIST_INTERVAL | None => false end
  then (mkCached (c_meta c) (mkAccess now (last_used_wall a) true (published_in_process a) (last_access_checkpoint a)), None)
  else (mkCached (c_meta c) (mkAccess now wall true (published_in_process a) (Some now)), Some (Z.max 0 (wall `div` SECOND))).

(** [refresh_live_access] of one artifact; [instant] is the monotonic clock. *)
Definition refresh_one (live : gmap bytes CachedArtifact) (g : DepGraph) (instant now : Z) (a : DiskArtifact) : DiskArtifact :=
  let recent := a_staged a && references_artifact_key g (a_key a) && (age now (last_access a) <=? HARD_PRESSURE_MIN_AGE) in
  match live !! a_key a with
  | None =>
      mkDiskArtifact (a_key a) (allocated_bytes a) (reclaimable_bytes a) (last_access a) recent (legacy_files a) (a_staged a)
        (staged_generation a)
  | Some cached =>
      let access := c_access cached in
      let live_last_use :=
        if used_in_process access then now - Z.max 0 (instant - last_used access)
        else Z.min (last_used_wall access) now in
      let published_at := stored_at_secs (c_meta cached) * SECOND in
      mkDiskArtifact (a_key a) (allocated_bytes a) (reclaimable_bytes a) (Z.max (last_access a) live_last_use)
        (recent || (published_in_process access || (a_staged a && (age now published_at <=? HARD_PRESSURE_MIN_AGE))))
        (legacy_files a) (a_staged a) (staged_generation a)
  end.
Definition refresh_live_access (live : gmap bytes CachedArtifact) (g : DepGraph) (instant now : Z) (l : list DiskArtifact) :
    list DiskArtifact := map (refresh_one live g instant now) l.

(** ** A pass *)

(** What a pass works on; [w_commands] is what was sent to the index writer. *)
Record DiskWorld := mkDiskWorld {
  w_disk : Disk;
  w_artifacts : gmap bytes CachedArtifact;
  w_store : ArtifactStore;
  w_graph : DepGraph;
  w_commands : list IndexWriterCommand;
  w_retired : Z
}.

(** What the file system does in a round: how long the store's lock takes, the order
    in which the map of expected keys is walked, the pointers that are links or
    cannot be examined, the keys whose tree or pointer is not removed, with what a
    scan sees of them afterwards, and the files that cannot be unlinked. *)
Inductive LockOutcome := LockHeld | LockTimedOut | LockFailed.
Record Faults := mkFaults {
  store_lock : LockOutcome;
  visit_rank : bytes -> Z;
  pointer_fails : bytes -> bool;
  tree_left : bytes -> option (option StagedEntry);
  unlink_fails : bytes -> bool
}.

(** The loop of [evict_staged_artifact_keys_if_unchanged]: the keys removed and what
    is left of the staged trees; a key whose pointer has moved since the scan is
    passed over.  An error ends the loop, and what was removed before it is gone. *)
Fixpoint evict_staged (faults : Faults) (expected : list (bytes * option bytes)) (staged : list (bytes * StagedEntry)) :
    option (list bytes) * list (bytes * StagedEntry) :=
  match expected with
  | [] => (Some [], staged)
  | (key, gen) :: expected =>
      if negb (staged_key_supported key) then evict_staged faults expected staged
      else if pointer_fails faults key then (None, staged)
      else
        let current := match list_find (fun e => e.1 = key) staged with Some (_, e) => generation e.2 | None => None end in
        if negb (bool_decide (current = gen)) then evict_staged faults expected staged
        else match tree_left faults key with
             | Some partial => (None, omap (fun e => if bool_decide (e.1 = key) then pair key <$> partial else Some e) staged)
             | None =>
                 let '(removed, staged) := evict_staged faults expected (filter (fun e => e.1 <> key) staged) in
                 (cons key <$> removed, staged)
             end
  end.
Definition in_visit_order (faults : Faults) (expected : list (bytes * option bytes)) : list (bytes * option bytes) :=
  sort_by (fun a b => visit_rank faults a.1 <=? visit_rank faults b.1) expected.
Definition evict_staged_artifact_keys_if_unchanged (faults : Faults) (expected : list (bytes * option bytes)) (d : Disk) :
    option (list bytes) * Disk :=
  if bool_decide (expected = []) then (Some [], d)
  else match store_lock faults with
       | LockFailed => (None, d)
       | LockTimedOut => (Some [], d)
       | LockHeld =>
           let '(removed, staged) := evict_staged faults (in_visit_order faults expected) (d_staged d) in
           (removed, mkDisk (d_files d) staged)
       end.

(** Unlinking the legacy files of the artifacts, until one fails. *)
Fixpoint unlink_files (faults : Faults) (names : list bytes) (files : list (bytes * DiskFile)) : bool * list (bytes * DiskFile) :=
  match names with
  | [] => (true, files)
  | name :: names =>
      if unlink_fails faults name then (false, files)
      else unlink_files faults names (filter (fun f => f.1 <> name) files)
  end.

(** [remove_planned_artifacts]; [None] for an error of the file system. *)
Definition remove_planned_artifacts (faults : Faults) (scanned : list DiskArtifact) (plan : MaintenancePlan) (w : DiskWorld) :
    option (list bytes) * DiskWorld :=
  let planned := list_to_set (C := gset bytes) (plan_selected plan) in
  let staged_expected :=
    map (fun a => (a_key a, staged_generation a)) (filter (fun a => a_staged a = true /\ a_key a ∈ planned) scanned) in
  match evict_staged_artifact_keys_if_unchanged faults staged_expected (w_disk w) with
  | (None, disk) => (None, mkDiskWorld disk (w_artifacts w) (w_store w) (w_graph w) (w_commands w) (w_retired w))
  | (Some staged_removed, disk) =>
      let chosen := filter (fun a => a_key a ∈ planned /\ (a_staged a = false \/ a_key a ∈ staged_removed)) scanned in
      let selected := list_to_set (C := gset bytes) (map a_key chosen) in
      let '(ok, files) := unlink_files faults (flat_map legacy_files chosen) (d_files disk) in
      let disk := mkDisk files (d_staged disk) in
      if negb ok then (None, mkDiskWorld disk (w_artifacts w) (w_store w) (w_graph w) (w_commands w) (w_retired w))
      else
        let removed_keys := filter (fun k => k ∈ selected) (plan_selected plan) in
        if bool_decide (removed_keys = []) then
          (Some [], mkDiskWorld disk (w_artifacts w) (w_store w) (w_graph w) (w_commands w) (w_retired w))
        else
          (Some removed_keys,
           mkDiskWorld disk (fold_left (fun m k => delete k m) removed_keys (w_artifacts w))
             (remove_batch removed_keys (w_store w)).2
             (invalidate_artifact_keys (list_to_set removed_keys) (w_graph w)).1
             (w_commands w ++ [Remove removed_keys]) (w_retired w))
  end.

Section pass.
  (** The environment: the space on the volume, the monotonic clock of a round, the
      sweep of retired stores (what it frees and what is left), the faults of a
      round, whether shutdown was requested before a round, and what other threads
      do between a round's plan and its commit. *)
  Context (space : Disk -> FilesystemSpace) (instant : nat -> Z) (sweep : Z -> Z * Z) (faults : nat -> Faults)
    (shutdown : nat -> bool) (between : nat -> DiskWorld -> DiskWorld).
  Context (policy : BudgetSpec) (kind : MaintenanceKind) (now pending_write_bytes : Z).

(** The plan and the removal of a round under the publication barrier. *)
Definition commit_round (n : nat) (scanned : list DiskArtifact) (pressure : MaintenancePressure) (w : DiskWorld) :
    MaintenancePlan * list DiskArtifact * (option (list bytes) * DiskWorld) :=
  let scanned := refresh_live_access (w_artifacts w) (w_graph w) (instant n) now scanned in
  let plan := plan_maintenance_at_least policy kind now (space (w_disk w)) scanned pending_write_bytes (w_retired w) pressure in
  (plan, scanned, remove_planned_artifacts (faults n) scanned plan w).

Record Progress := mkProgress {
  p_pressure : MaintenancePressure;
  p_removed : gset bytes;
  p_expired : gset bytes;
  p_reclaimed : Z;
  p_retired_reclaimed : Z
}.

Definition scan_refreshed (n : nat) (w : DiskWorld) : option (list DiskArtifact) :=
  refresh_live_access (w_artifacts w) (w_graph w) (instant n) now <$> scan_artifacts (w_disk w).

Inductive PassResult := Finished (p : Progress) (scanned : list DiskArtifact) | Failed | OutOfFuel.

(** The rounds of [maintain_disk_artifacts_with_barrier]; [swept] says that the
    retired stores were swept. *)
Fixpoint rounds (fuel : nat) (n : nat) (swept : bool) (scanned : list DiskArtifact) (p : Progress) (w : DiskWorld) : PassResult * DiskWorld :=
  match fuel with
  | O => (OutOfFuel, w)
  | S fuel =>
      if shutdown n then (Finished p scanned, w)
      else
        let plan := plan_maintenance_at_least policy kind now (space (w_disk w)) scanned pending_write_bytes (w_retired w) (p_pressure p) in
        if negb swept && (0 <? w_retired w) && negb (bool_decide (plan_pressure plan = NoPressure)) then
          let '(reclaimed, remaining) := sweep (w_retired w) in
          rounds fuel (S n) true scanned
            (mkProgress (p_pressure p) (p_removed p) (p_expired p) (p_reclaimed p) (sat_add (p_retired_reclaimed p) reclaimed))
            (mkDiskWorld (w_disk w) (w_artifacts w) (w_store w) (w_graph w) (w_commands w) remaining)
        else if bool_decide (plan_selected plan = []) then
          (Finished (mkProgress (plan_pressure plan) (p_removed p) (p_expired p) (p_reclaimed p) (p_retired_reclaimed p)) scanned, w)
        else
          let w := between n w in
          let '(plan, scanned, (removed, w)) := commit_round n scanned (p_pressure p) w in
          match removed with
          | None => (Failed, w)
          | Some [] =>
              (Finished (mkProgress (plan_pressure plan) (p_removed p) (p_expired p) (p_reclaimed p) (p_retired_reclaimed p)) scanned, w)
          | Some keys =>
              let freed := list_to_map (M := gmap bytes Z) (map (fun a => (a_key a, reclaimable_bytes a)) scanned) in
              let p := mkProgress (plan_pressure plan) (p_removed p ∪ list_to_set keys)
                         (p_expired p ∪ (list_to_set keys ∩ plan_expired plan))
                         (fold_left (fun t k => sat_add t (default 0 (freed !! k))) keys (p_reclaimed p)) (p_retired_reclaimed p) in
              match scan_refreshed n w with
              | None => (Failed, w)
              | Some scanned => rounds fuel (S n) swept scanned p w
              end
          end
  end.

Record DiskMaintenanceReport := mkReport {
  r_kind : MaintenanceKind;
  r_pressure : MaintenancePressure;
  r_budget_bytes : Z;
  usage_before_bytes : Z;
  usage_after_bytes : Z;
  bytes_reclaimed : Z;
  artifacts_removed : nat;
  expired_artifacts_removed : nat;
  retired_bytes_reclaimed : Z
}.

(** [maintain_disk_artifacts_with_barrier], after the root was validated. *)
Definition maintain_disk_artifacts_with_barrier (fuel : nat) (w : DiskWorld) : option (option DiskMaintenanceReport) * DiskWorld :=
  match scan_refreshed 0 w with
  | None => (Some None, w)
  | Some scanned =>
      let usage l w := sat_add (sum_of allocated_bytes pending_write_bytes l) (w_retired w) in
      match rounds fuel 0 false scanned (mkProgress NoPressure ∅ ∅ 0 0) w with
      | (Finished p remaining, w') =>
          (Some (Some (mkReport kind (p_pressure p) (budget_bytes policy (capacity_bytes (space (w_disk w))))
             (usage scanned w) (usage remaining w') (sat_add (p_reclaimed p) (p_retired_reclaimed p))
             (size (p_removed p)) (size (p_expired p)) (p_retired_reclaimed p))), w')
      | (Failed, w') => (Some None, w')
      | (OutOfFuel, w') => (None, w')
      end
  end.
End pass.

(** ** The schedule of passes *)

(** [full_maintenance_due] on what the marker file holds. *)
Definition full_maintenance_due (marker : option bytes) (now : Z) : bool :=
  match marker with
  | None => true
  | Some contents =>
      match parse_u64 (str_trim contents) with
      | None => true
      | Some last_secs =>
          let now_secs := Z.max 0 now `div` SECOND in
          (now_secs <? last_secs) || (FULL_INTERVAL_SECS <=? now_secs - last_secs)
      end
  end.

(** [pressure_scan_needed]. *)
Definition pressure_scan_needed (policy : BudgetSpec) (space : FilesystemSpace) (st : ArtifactStore) (pending : Z) : bool :=
  (free_bytes space <? low_space_bytes (capacity_bytes space)) ||
  (sat_mul (budget_bytes policy (capacity_bytes space)) 50 `div` 100 <=? sat_add (total_size_bytes st) pending).

(** [DiskMaintenanceProgress] and [record_pass]. *)
Record DiskMaintenanceProgress := mkDmProgress { attempts_ : Z; full_completed : Z; last_error : option bytes }.
Definition settled (p : DiskMaintenanceProgress) : bool :=
  (0 <? full_completed p) || match last_error p with Some _ => true | None => false end.
Definition record_pass (full : bool) (outcome : option bytes) (p : DiskMaintenanceProgress) : DiskMaintenanceProgress :=
  match outcome with
  | None => mkDmProgress (attempts_ p + 1) (full_completed p + if full then 1 else 0) (last_error p)
  | Some e => mkDmProgress (attempts_ p + 1) (full_completed p) (Some e)
  end.

(** [reap_ended_session_tombstones_at]: what is left and how many went. *)
Definition ENDED_SESSION_TTL : Z := 60 * 60 * SECOND.
Definition reap_ended_session_tombstones_at (ttl now : Z) (ended : gmap bytes Z) : gmap bytes Z * nat :=
  let remaining := filter (fun '(_, ended_at) => Z.max 0 (now - ended_at) < ttl) ended in
  (remaining, (size ended - size remaining)%nat).

(** ** The plan *)

Lemma sort_candidates_sorted l : StronglySorted (fun a b => disk_candidate_leb a b = true) (sort_by disk_candidate_leb l).
Proof.
  apply sort_by_sorted.
  - intros x y. unfold disk_candidate_leb. destruct (_ =? 0), (_ =? 0); auto; rewrite !Z.leb_le; lia.
  - intros x y z. unfold disk_candidate_leb. destruct (reclaimable_bytes x =? 0), (reclaimable_bytes y =? 0), (reclaimable_bytes z =? 0);
      try done; rewrite !Z.leb_le; lia.
Qed.

Lemma take_prefix pressure un fn l ur fr : take_candidates pressure un fn l ur fr `prefix_of` l.
Proof.
  revert ur fr. induction l as [|a l IH]; intros ur fr; cbn [take_candidates]; [done|].
  destruct (_ && _); [apply prefix_nil|]. destruct (_ && _); [apply prefix_nil|]. apply prefix_cons, IH.
Qed.

(** No more is taken than is needed: before the last one something was missing. *)
Lemma take_minimal pressure un fn l ur fr t a :
  take_candidates pressure un fn l ur fr = t ++ [a] ->
  sum_of allocated_bytes ur t < un \/ sum_of reclaimable_bytes fr t < fn.
Proof.
  revert ur fr t. induction l as [|b l IH]; intros ur fr t; cbn [take_candidates]; [by destruct t|].
  destruct ((un <=? ur) && (fn <=? fr)) eqn:Hmet; [by destruct t|]. apply andb_false_iff in Hmet. rewrite !Z.leb_gt in Hmet.
  destruct (_ && _); [by destruct t|]. destruct t as [|c t]; [cbn; lia|]. cbn [app]. intros [= <- Ht]. unfold sum_of. cbn [fold_left]. by apply (IH _ _ _ Ht).
Qed.

(** And no less, unless the candidates run out, or only ones are left whose removal
    frees nothing. *)
Lemma take_enough pressure un fn l ur fr :
  StronglySorted (fun a b => disk_candidate_leb a b = true) l -> Forall (fun a => 0 <= reclaimable_bytes a) l ->
  let t := take_candidates pressure un fn l ur fr in
  (un <= sum_of allocated_bytes ur t /\ fn <= sum_of reclaimable_bytes fr t) \/
  (exists rest, l = t ++ rest /\ Forall (fun a => reclaimable_bytes a = 0) rest /\
     (rest <> [] -> pressure <> Hard \/ un <= sum_of allocated_bytes ur t)).
Proof.
  revert ur fr. induction l as [|a l IH]; intros ur fr Hs Hp; cbn [take_candidates]; [right; by exists []|].
  destruct ((un <=? ur) && (fn <=? fr)) eqn:Hmet.
  { left. apply andb_true_iff in Hmet. rewrite !Z.leb_le in Hmet. done. }
  apply StronglySorted_inv in Hs as [Hs Hle]. apply Forall_cons in Hp as [Ha Hp]. destruct ((reclaimable_bytes a =? 0) && (negb (bool_decide (pressure = Hard)) || (un <=? ur))) eqn:Hstop.
  - right. exists (a :: l). apply andb_true_iff in Hstop as [Hz Hstop]. apply Z.eqb_eq in Hz. repeat split.
    + constructor; [done|]. apply (Forall_impl _ _ _ Hle). intros b. unfold disk_candidate_leb. rewrite Hz.
      destruct (Z.eqb_spec (reclaimable_bytes b) 0); [done|]. by rewrite Z.eqb_refl.
    + intros _. apply orb_true_iff in Hstop as [Hh|Hu]; [left|right; by apply Z.leb_le].
      apply negb_true_iff, bool_decide_eq_false in Hh. done.
  - destruct (IH (sat_add ur (allocated_bytes a)) (sat_add fr (reclaimable_bytes a)) Hs Hp) as [Hm|(rest & Hr & Hz & Hn)];
      [left; exact Hm|right]. exists rest. split; [cbn; by rewrite <-Hr|]. done.
Qed.

Section plan_facts.
  Context (policy : BudgetSpec) (kind : MaintenanceKind) (now : Z) (space : FilesystemSpace)
    (artifacts : list DiskArtifact) (pending_write_bytes retired_bytes : Z) (minimum_pressure : MaintenancePressure).
Let pressure := pass_pressure policy kind now space artifacts pending_write_bytes retired_bytes minimum_pressure.
Let plan := plan_maintenance_at_least policy kind now space artifacts pending_write_bytes retired_bytes minimum_pressure.

Lemma taken_candidate a :
  a ∈ taken policy kind now space artifacts pending_write_bytes retired_bytes minimum_pressure ->
  a ∈ artifacts /\ eligible pressure now a = true.
Proof.
  unfold taken. destruct (needs _ _ _ _ _ _ _ _) as [un fn]. destruct (_ || _); [|intros Ha; by apply not_elem_of_nil in Ha].
  intros Ha. eapply elem_of_prefix in Ha; [|apply (take_prefix _ un fn)]. unfold candidates in Ha. rewrite sort_by_perm in Ha.
  apply list_elem_of_filter in Ha as [He [_ Ha]%list_elem_of_filter]. split; [done|by apply Is_true_true].
Qed.

Lemma plan_selected_in k :
  k ∈ plan_selected plan <-> k ∈ map a_key (expired_artifacts kind now artifacts) \/
    k ∈ map a_key (taken policy kind now space artifacts pending_write_bytes retired_bytes minimum_pressure).
Proof.
  unfold plan, plan_maintenance_at_least. cbn [plan_selected]. rewrite sort_by_key_perm.
  by rewrite elem_of_elements, elem_of_list_to_set, elem_of_app.
Qed.

(** What is planned was idle for long enough, by the pressure there is. *)
Lemma plan_selected_idle k :
  k ∈ plan_selected plan ->
  exists a, a ∈ artifacts /\ a_key a = k /\
    ((kind = Full /\ EXPIRE_AGE < age now (last_access a)) \/ eligible pressure now a = true).
Proof.
  rewrite plan_selected_in. intros [(a & -> & Ha)%list_elem_of_fmap|(a & -> & Ha)%list_elem_of_fmap]; exists a.
  - unfold expired_artifacts in Ha. destruct kind; [by apply not_elem_of_nil in Ha|].
    apply list_elem_of_filter in Ha as [He Ha]. rewrite Is_true_true in He. apply Z.ltb_lt in He. auto.
  - destruct (taken_candidate a Ha) as [Hin He]. auto.
Qed.
End plan_facts.

(** The plan frees what is needed, and no more.  Beyond what has expired the plan
    takes the least recently used of the artifacts the pressure allows, those first
    whose removal returns space; it stops as soon as both needs are met, and stops
    short only when nothing is left that would free space, and under hard pressure
    not before the usage is met either. *)
Theorem plan_frees_enough policy kind now space artifacts pending retired minimum :
  Forall (fun a => 0 <= reclaimable_bytes a) artifacts ->
  let pressure := pass_pressure policy kind now space artifacts pending retired minimum in
  let t := taken policy kind now space artifacts pending retired minimum in
  let l := candidates policy kind now space artifacts pending retired minimum in
  let '(usage_need, free_need) := needs policy kind now space artifacts pending retired minimum in
  (forall k, k ∈ plan_selected (plan_maintenance_at_least policy kind now space artifacts pending retired minimum) <->
     k ∈ map a_key (expired_artifacts kind now artifacts) \/ k ∈ map a_key t) /\
  StronglySorted (fun a b => disk_candidate_leb a b = true) l /\ t `prefix_of` l /\
  (forall t' a, t = t' ++ [a] -> sum_of allocated_bytes 0 t' < usage_need \/ sum_of reclaimable_bytes 0 t' < free_need) /\
  ((usage_need <= sum_of allocated_bytes 0 t /\ free_need <= sum_of reclaimable_bytes 0 t) \/
   exists rest, l = t ++ rest /\ Forall (fun a => reclaimable_bytes a = 0) rest /\
     (rest <> [] -> pressure <> Hard \/ usage_need <= sum_of allocated_bytes 0 t)).
Proof.
  intros Hr pressure t l. destruct (needs _ _ _ _ _ _ _ _) as [un fn] eqn:Hn.
  split; [intros k; apply plan_selected_in|]. split; [apply sort_candidates_sorted|].
  assert (Forall (fun a => 0 <= reclaimable_bytes a) l) as Hl.
  { rewrite Forall_forall in Hr |- *. intros a Ha. apply Hr. unfold l, candidates in Ha. rewrite sort_by_perm in Ha.
    by apply list_elem_of_filter in Ha as [_ [_ Ha]%list_elem_of_filter]. }
  unfold t, taken. rewrite Hn. destruct ((0 <? un) || (0 <? fn)) eqn:Hpos.
  - split; [apply take_prefix|]. split; [intros t' a; apply take_minimal|].
    apply take_enough; [apply sort_candidates_sorted|done].
  - apply orb_false_iff in Hpos as [H1 H2]. rewrite Z.ltb_ge in H1, H2. split; [apply prefix_nil|].
    split; [by intros [|] ?|]. left. cbn. lia.
Qed.

(** ** Relief *)

Definition total (f : DiskArtifact -> Z) (l : list DiskArtifact) : Z := fold_right (fun a t => f a + t) 0 l.

Lemma total_nonneg f l : Forall (fun a => 0 <= f a) l -> 0 <= total f l.
Proof. induction 1; cbn [total fold_right]; [lia|]. unfold total in *. lia. Qed.

Lemma sum_of_total f init l :
  Forall (fun a => 0 <= f a) l -> 0 <= init -> init + total f l <= U64_MAX -> sum_of f init l = init + total f l.
Proof.
  intros Hl. revert init. induction Hl as [|a l Ha Hl IH]; intros init Hi Hb; unfold sum_of, total in *; cbn [fold_left fold_right] in *;
    [lia|]. pose proof (total_nonneg f l Hl) as Hp. unfold total in Hp.
  assert (sat_add init (f a) = init + f a) as -> by (unfold sat_add; lia). rewrite IH by lia. lia.
Qed.

Lemma total_partition f (P : DiskArtifact -> Prop) `{!forall a, Decision (P a)} l :
  total f l = total f (filter P l) + total f (filter (fun a => ~ P a) l).
Proof.
  induction l as [|a l IH]; [done|]. rewrite !filter_cons. unfold total in *. cbn [fold_right].
  destruct (decide (P a)), (decide (~ P a)); try tauto; cbn [fold_right]; lia.
Qed.

Lemma total_perm f l k : l ≡ₚ k -> total f l = total f k.
Proof. unfold total. induction 1; cbn [fold_right]; lia. Qed.

Lemma total_prefix f l k : Forall (fun a => 0 <= f a) k -> l `prefix_of` k -> total f l <= total f k.
Proof.
  intros Hk [r ->]. apply Forall_app in Hk as [_ Hr]. pose proof (total_nonneg f r Hr).
  unfold total in *. rewrite fold_right_app. clear Hr. induction l as [|a l IH]; cbn [fold_right]; lia.
Qed.

Lemma percent_gap b p q : 0 <= b < 2 ^ 57 -> 0 <= p -> p + 5 <= q <= 100 -> 20 <= b -> sat_mul b p `div` 100 < sat_mul b q `div` 100.
Proof.
  intros Hb Hp Hq H20. unfold sat_mul, U64_MAX. rewrite !Z.min_l by nia.
  apply Z.le_lt_trans with ((b * q - 100) `div` 100).
  - apply Z.div_le_mono; nia.
  - replace (b * q - 100) with (b * q + (-1) * 100) by lia. rewrite Z.div_add by lia. lia.
Qed.

Lemma recovery_above_low c : 40 * GIB <= c < 2 ^ 57 -> critical_space_bytes c <= low_space_bytes c <= recovery_free_bytes c.
Proof.
  intros Hc. unfold critical_space_bytes. split; [lia|]. unfold low_space_bytes, recovery_free_bytes, sat_mul, U64_MAX, GIB in *.
  rewrite (Z.min_l (c * 5)), (Z.min_l (c * 8)) by lia.
  assert ((c * 5) `div` 100 <= (c * 8) `div` 100) by (apply Z.div_le_mono; lia).
  assert ((c * 5) `div` 100 <= c `div` 2) by (apply Z.div_le_lower_bound; [lia|]; pose proof (Z.mul_div_le (c * 5) 100 ltac:(lia)); lia).
  assert (20 * (1024 * 1024 * 1024) <= c `div` 2) by (apply Z.div_le_lower_bound; lia). lia.
Qed.

Section relief.
  Context (policy : BudgetSpec) (kind : MaintenanceKind) (now : Z) (space : FilesystemSpace)
    (artifacts : list DiskArtifact) (pending retired : Z) (minimum : MaintenancePressure).
  Context (Hnd : NoDup (map a_key artifacts)) (Hsizes : Forall (fun a => 0 <= reclaimable_bytes a <= allocated_bytes a) artifacts).
Let t := taken policy kind now space artifacts pending retired minimum.
Let expired := expired_artifacts kind now artifacts.
Let plan := plan_maintenance_at_least policy kind now space artifacts pending retired minimum.
Let removed := filter (fun a => a_key a ∈ plan_selected plan) artifacts.
Let rest := filter (fun a => ~ a_key a ∈ plan_selected plan) artifacts.

Lemma same_key a b : a ∈ artifacts -> b ∈ artifacts -> a_key a = a_key b -> a = b.
Proof.
  intros Ha Hb Hk. apply list_elem_of_lookup in Ha as [i Hi]. apply list_elem_of_lookup in Hb as [j Hj].
  assert (i = j) as ->; [|congruence]. apply (NoDup_lookup (map a_key artifacts) i j (a_key a)); [done|..];
    rewrite list_lookup_fmap_Some; eauto.
Qed.

Lemma expired_sub a : a ∈ expired -> a ∈ artifacts.
Proof. unfold expired, expired_artifacts. destruct kind; [intros Ha; by apply not_elem_of_nil in Ha|]. by intros [_ Ha]%list_elem_of_filter. Qed.

Lemma candidates_perm :
  candidates policy kind now space artifacts pending retired minimum ≡ₚ
  filter (fun a => eligible (pass_pressure policy kind now space artifacts pending retired minimum) now a)
    (filter (fun a => a_key a ∉ list_to_set (C := gset bytes) (map a_key expired)) artifacts).
Proof. apply sort_by_perm. Qed.

Lemma taken_prefix : t `prefix_of` candidates policy kind now space artifacts pending retired minimum.
Proof.
  unfold t, taken. destruct (needs _ _ _ _ _ _ _ _). destruct (_ || _); [apply take_prefix|apply prefix_nil].
Qed.

Lemma removed_perm : removed ≡ₚ expired ++ t.
Proof.
  assert (NoDup artifacts) as Hnd' by (by apply (NoDup_fmap_1 a_key)).
  assert (NoDup (candidates policy kind now space artifacts pending retired minimum)) as Hc
    by (rewrite candidates_perm; by apply NoDup_filter, NoDup_filter).
  pose proof taken_prefix as Hpre. assert (NoDup t) as Ht by (destruct Hpre as [k Hk]; rewrite Hk in Hc; by apply NoDup_app in Hc as [? _]).
  assert (forall a, a ∈ t -> a ∈ artifacts /\ a_key a ∉ map a_key expired) as Hin.
  { intros a Ha. assert (a ∈ candidates policy kind now space artifacts pending retired minimum) as Hac
      by (by eapply elem_of_prefix).
    rewrite candidates_perm in Hac. apply list_elem_of_filter in Hac as [_ [Hn Hac]%list_elem_of_filter].
    by rewrite elem_of_list_to_set in Hn. }
  apply NoDup_Permutation.
  - by apply NoDup_filter.
  - apply NoDup_app. split; [|split; [|done]].
    + unfold expired, expired_artifacts. destruct kind; [constructor|by apply NoDup_filter].
    + intros a He Ha. apply Hin in Ha as [_ Ha]. apply Ha, list_elem_of_fmap. eauto.
  - intros a. unfold removed. rewrite list_elem_of_filter, elem_of_app. unfold plan. rewrite plan_selected_in. fold expired t. split.
    + intros [[(b & Hk & Hb)%list_elem_of_fmap|(b & Hk & Hb)%list_elem_of_fmap] Ha]; [left|right].
      * by rewrite (same_key a b Ha (expired_sub b Hb) Hk).
      * by rewrite (same_key a b Ha (proj1 (Hin b Hb)) Hk).
    + intros [Ha|Ha]; (split; [|first [by apply expired_sub|by apply Hin]]); [left|right]; apply list_elem_of_fmap; eauto.
Qed.

Lemma no_expired_left : expired_artifacts kind now rest = [].
Proof.
  unfold expired_artifacts. destruct kind eqn:Hkind; [done|].
  destruct (filter _ rest) as [|a l] eqn:Hf; [done|]. exfalso.
  assert (a ∈ filter (fun a => EXPIRE_AGE <? age now (last_access a)) rest) as Ha by (rewrite Hf; by left).
  apply list_elem_of_filter in Ha as [He [Hn Ha]%list_elem_of_filter]. apply Hn. unfold plan. apply plan_selected_in. left.
  apply list_elem_of_fmap. exists a. split; [done|]. unfold expired_artifacts. by apply list_elem_of_filter.
Qed.

(** C34: a pass ends the pressure it found.  When the plan met its needs and its
    artifacts are gone, the next look at the disk sees no pressure at all, so that
    passes do not follow one another: the usage falls below the soft limit and the
    free space reaches at least the low mark.  For disks from 40 GiB to 128 PiB, a
    budget of at least twenty bytes, and byte counts that fit 64 bits. *)
Theorem pressure_relieved :
  40 * GIB <= capacity_bytes space < 2 ^ 57 -> 0 <= free_bytes space -> 0 <= pending -> 0 <= retired ->
  total allocated_bytes artifacts + pending + retired <= U64_MAX -> free_bytes space + total reclaimable_bytes artifacts <= U64_MAX ->
  20 <= budget policy space ->
  (needs policy kind now space artifacts pending retired minimum).1 <= sum_of allocated_bytes 0 t ->
  (needs policy kind now space artifacts pending retired minimum).2 <= sum_of reclaimable_bytes 0 t ->
  detected_pressure policy kind now (mkSpace (capacity_bytes space) (free_bytes space + total reclaimable_bytes removed))
    rest pending retired = NoPressure.
Proof.
  intros Hcap Hfree Hpend Hret Husage Hfreeb Hb Hun Hfn.
  assert (budget policy space < 2 ^ 57) as Hb57.
  { unfold budget, budget_bytes, saturating_sub. pose proof (recovery_above_low _ Hcap).
    unfold low_space_bytes, recovery_free_bytes, GIB in *. lia. }
  pose proof (percent_gap (budget policy space) 80 85 ltac:(lia) ltac:(lia) ltac:(lia) Hb) as Hg80.
  pose proof (percent_gap (budget policy space) 70 85 ltac:(lia) ltac:(lia) ltac:(lia) Hb) as Hg70.
  assert (sat_mul (budget policy space) 85 `div` 100 < budget policy space) as H85.
  { unfold sat_mul. apply Z.le_lt_trans with ((budget policy space * 85) `div` 100);
      [apply Z.div_le_mono; lia|apply Z.div_lt_upper_bound; lia]. }
  pose proof (recovery_above_low _ Hcap) as [Hcl Hlr].
  assert (forall l, l ⊆ artifacts -> Forall (fun a => 0 <= reclaimable_bytes a) l /\ Forall (fun a => 0 <= allocated_bytes a) l) as Hpos.
  { intros l Hl. rewrite Forall_forall in Hsizes. split; apply Forall_forall; intros a Ha; specialize (Hsizes a (Hl a Ha)); lia. }
  assert (removed ⊆ artifacts) as Hrs by (intros a [_ Ha]%list_elem_of_filter; done).
  assert (rest ⊆ artifacts) as Hls by (intros a [_ Ha]%list_elem_of_filter; done).
  assert (expired ⊆ artifacts) as Hes by (intros a Ha; by apply expired_sub).
  assert (t ⊆ artifacts) as Hts.
  { intros a Ha. apply Hrs. rewrite removed_perm. apply elem_of_app. by right. }
  assert (forall f, total f removed = total f expired + total f t) as Hrem.
  { intros f. rewrite (total_perm f _ _ removed_perm). unfold total. clear. induction expired as [|a l IH]; cbn [app fold_right]; lia. }
  pose proof (total_partition allocated_bytes (fun a => a_key a ∈ plan_selected plan) artifacts) as Hpa. cbn beta in Hpa. fold removed rest in Hpa.
  pose proof (total_partition reclaimable_bytes (fun a => a_key a ∈ plan_selected plan) artifacts) as Hpr. cbn beta in Hpr. fold removed rest in Hpr.
  pose proof (Hrem allocated_bytes) as Hra. pose proof (Hrem reclaimable_bytes) as Hrr.
  destruct (Hpos _ (reflexivity artifacts)) as [_ HA]. destruct (Hpos _ Hls) as [HLr HLa]. destruct (Hpos _ Hes) as [HEr HEa].
  destruct (Hpos _ Hts) as [HTr HTa].
  pose proof (total_nonneg _ _ HLr). pose proof (total_nonneg _ _ HLa). pose proof (total_nonneg _ _ HEr).
  pose proof (total_nonneg _ _ HEa). pose proof (total_nonneg _ _ HTr). pose proof (total_nonneg _ _ HTa).
  rewrite (sum_of_total allocated_bytes 0 t) in Hun by (try done; lia). rewrite (sum_of_total reclaimable_bytes 0 t) in Hfn by (try done; lia).
  assert (projected_usage kind now artifacts pending retired = total allocated_bytes rest + total allocated_bytes t + pending + retired) as Hpu.
  { unfold projected_usage. fold expired. rewrite !sum_of_total by (try done; lia). unfold sat_add, saturating_sub. lia. }
  assert (projected_free kind now space artifacts = free_bytes space + total reclaimable_bytes expired) as Hpf.
  { unfold projected_free. fold expired. rewrite sum_of_total by (try done; lia). unfold sat_add. lia. }
  unfold detected_pressure, space_low, projected_usage, projected_free. rewrite no_expired_left. cbn [capacity_bytes free_bytes].
  rewrite !(sum_of_total _ 0 rest) by (try done; lia). change (sum_of allocated_bytes 0 []) with 0. change (sum_of reclaimable_bytes 0 []) with 0.
  change (budget policy (mkSpace (capacity_bytes space) _)) with (budget policy space).
  replace (saturating_sub _ 0) with (total allocated_bytes rest + pending + retired) by (unfold saturating_sub, sat_add; lia).
  replace (sat_add (free_bytes space + total reclaimable_bytes removed) 0) with (free_bytes space + total reclaimable_bytes removed)
    by (unfold sat_add; lia).
  assert (total allocated_bytes rest + pending + retired < sat_mul (budget policy space) 85 `div` 100 /\
          low_space_bytes (capacity_bytes space) <= free_bytes space + total reclaimable_bytes removed) as [Hu Hf].
  { revert Hun Hfn. unfold needs. rewrite Hpu, Hpf. unfold pass_pressure, detected_pressure, space_low. rewrite Hpu, Hpf.
    unfold max_pressure, saturating_sub.
    destruct (Z.leb_spec (budget policy space) (total allocated_bytes rest + total allocated_bytes t + pending + retired));
    destruct (Z.ltb_spec (free_bytes space + total reclaimable_bytes expired) (critical_space_bytes (capacity_bytes space)));
    destruct (Z.ltb_spec (free_bytes space + total reclaimable_bytes expired) (low_space_bytes (capacity_bytes space)));
    destruct (Z.leb_spec (sat_mul (budget policy space) 85 `div` 100) (total allocated_bytes rest + total allocated_bytes t + pending + retired));
    destruct minimum; cbn [orb andb negb fst snd]; intros; lia. }
  replace (budget policy space <=? _) with false by lia. replace (_ <? critical_space_bytes _) with false by lia.
  replace (_ <? low_space_bytes _) with false by lia. by replace (_ `div` 100 <=? _) with false by lia.
Qed.
End relief.

(** ** What a removal touches *)

(** The files and staged trees of a key. *)
Definition files_of (k : bytes) (d : Disk) : list (bytes * DiskFile) := filter (fun f => fst <$> legacy_key f.1 = Some k) (d_files d).
Definition staged_of (k : bytes) (d : Disk) : list (bytes * StagedEntry) := filter (fun e => e.1 = k) (d_staged d).
Definition wf_artifact (a : DiskArtifact) : Prop := Forall (fun name => fst <$> legacy_key name = Some (a_key a)) (legacy_files a).

(** Everything kept under a key is the same in two worlds. *)
Record untouched (k : bytes) (w w' : DiskWorld) : Prop := {
  un_files : files_of k (w_disk w') = files_of k (w_disk w);
  un_staged : staged_of k (w_disk w') = staged_of k (w_disk w);
  un_artifact : w_artifacts w' !! k = w_artifacts w !! k;
  un_row : entries (w_store w') !! k = entries (w_store w) !! k;
  un_graph : references_artifact_key (w_graph w') k = references_artifact_key (w_graph w) k
}.

Lemma list_filter_all {A} (P : A -> Prop) `{!forall x, Decision (P x)} (l : list A) : (forall x, x ∈ l -> P x) -> filter P l = l.
Proof.
  induction l as [|x l IH]; intros Hall; [done|]. rewrite filter_cons_True by (apply Hall; by left).
  f_equal. apply IH. intros y Hy. apply Hall. by right.
Qed.

Lemma staged_left_other k key partial (staged : list (bytes * StagedEntry)) :
  k <> key ->
  filter (fun e => e.1 = k) (omap (fun e => if bool_decide (e.1 = key) then pair key <$> partial else Some e) staged) =
  filter (fun e => e.1 = k) staged.
Proof.
  intros Hne. induction staged as [|e staged IH]; [done|]. cbn [omap list_omap]. case_bool_decide as He.
  - rewrite (filter_cons_False _ e) by congruence. destruct partial as [x|]; simpl; [|exact IH]. by rewrite filter_cons_False.
  - rewrite !filter_cons. destruct (decide (e.1 = k)); cbn [omap list_omap] in *; by rewrite IH.
Qed.

Lemma evict_staged_spec faults expected staged r staged' :
  evict_staged faults expected staged = (r, staged') ->
  exists removed, (forall k, k ∈ removed -> k ∈ expected.*1) /\
    (forall k, k ∉ removed -> filter (fun e => e.1 = k) staged' = filter (fun e => e.1 = k) staged) /\
    (forall keys, r = Some keys -> keys = removed /\ staged' = filter (fun e => e.1 ∉ removed) staged).
Proof.
  revert staged r staged'. induction expected as [|[key gen] expected IH]; intros staged r staged'; cbn [evict_staged].
  { intros [= <- <-]. exists []. split_and!; [done|done|]. intros ? [= <-]. split; [done|]. symmetry. apply list_filter_all.
    intros ??. apply not_elem_of_nil. }
  assert (evict_staged faults expected staged = (r, staged') -> exists removed, (forall k, k ∈ removed -> k ∈ ((key, gen) :: expected).*1) /\
    (forall k, k ∉ removed -> filter (fun e => e.1 = k) staged' = filter (fun e => e.1 = k) staged) /\
    (forall keys, r = Some keys -> keys = removed /\ staged' = filter (fun e => e.1 ∉ removed) staged)) as Hskip.
  { intros (removed & H1 & H2 & H3)%IH. exists removed. split_and!; [|done|done]. intros k Hk. right. by apply H1. }
  destruct (negb (staged_key_supported key)); [exact Hskip|].
  destruct (pointer_fails faults key). { intros [= <- <-]. exists []. split_and!; [by intros k ?%not_elem_of_nil|done|done]. }
  cbv zeta. destruct (negb _); [exact Hskip|]. destruct (tree_left faults key) as [partial|].
  { intros [= <- <-]. exists [key]. split_and!; [intros k ->%list_elem_of_singleton; by left| |done].
    intros k Hk. apply staged_left_other. intros ->. by apply Hk, list_elem_of_singleton. }
  destruct (evict_staged faults expected (filter _ staged)) as [rem st] eqn:Hrec. intros [= <- <-].
  destruct (IH _ _ _ Hrec) as (removed & H1 & H2 & H3). exists (key :: removed). split_and!.
  - intros k [->|Hk]%elem_of_cons; [left|right; by apply H1].
  - intros k [Hne Hk]%not_elem_of_cons. rewrite H2, list_filter_filter by done. apply list_filter_iff. intros e. split; [tauto|]. by intros <-.
  - intros keys Hkeys. destruct rem as [l|]; [|done]. injection Hkeys as <-. destruct (H3 l eq_refl) as [-> ->]. split; [done|].
    rewrite list_filter_filter. apply list_filter_iff. intros e. rewrite not_elem_of_cons. tauto.
Qed.

Lemma unlink_files_spec faults names files ok files' :
  unlink_files faults names files = (ok, files') ->
  exists gone, (forall name, name ∈ gone -> name ∈ names) /\ files' = filter (fun f => f.1 ∉ gone) files /\ (ok = true -> gone = names).
Proof.
  revert files. induction names as [|name names IH]; intros files; cbn [unlink_files].
  { intros [= <- <-]. exists []. split; [done|]. split; [|done]. symmetry. apply list_filter_all. intros ??. apply not_elem_of_nil. }
  destruct (unlink_fails faults name).
  { intros [= <- <-]. exists []. split; [by intros ? ?%not_elem_of_nil|]. split; [|done]. symmetry. apply list_filter_all.
    intros ??. apply not_elem_of_nil. }
  intros H%IH. destruct H as (gone & H1 & -> & H3). exists (name :: gone). split; [|split].
  - intros n [->|Hn]%elem_of_cons; [left|right; by apply H1].
  - rewrite list_filter_filter. apply list_filter_iff. intros f. rewrite not_elem_of_cons. tauto.
  - intros Hok. by rewrite H3.
Qed.

Lemma references_invalidate evicted g k :
  references_artifact_key (invalidate_artifact_keys evicted g).1 k =
  bool_decide (k ∉ evicted) && references_artifact_key g k.
Proof.
  destruct (invalidate_fields evicted g) as [Hc _]. apply eq_bool_prop_intro. unfold references_artifact_key.
  rewrite andb_True, !bool_decide_spec. unfold map_Exists. setoid_rewrite Hc. setoid_rewrite fmap_Some. split.
  - intros (c & e & (e0 & He0 & ->) & ak & Hak & ->). destruct (keyed_by evicted e0) eqn:Hk; [by destruct e0|].
    split; [|exists c, e0; eauto]. intros Hin.
    assert (keyed_by evicted e0 = true) by (apply keyed_by_spec; eauto). congruence.
  - intros [Hn (c & e & He & ak & Hak & ->)]. exists c, e. split; [|eauto]. exists e. split; [done|].
    destruct (keyed_by evicted e) eqn:Hk; [|done]. apply keyed_by_spec in Hk as (ak' & Hak' & Hin). congruence.
Qed.

Lemma delete_all_lookup {A} (ks : list bytes) (m : gmap bytes A) k :
  fold_left (fun m k => delete k m) ks m !! k = if bool_decide (k ∈ ks) then None else m !! k.
Proof.
  revert m. induction ks as [|x ks IH]; intros m; cbn [fold_left]; [by rewrite bool_decide_eq_false_2 by apply not_elem_of_nil|].
  rewrite IH. destruct (decide (k ∈ ks)) as [Hin|Hn].
  - rewrite !bool_decide_eq_true_2; [done|by right|done].
  - rewrite (bool_decide_eq_false_2 (k ∈ ks)) by done. destruct (decide (k = x)) as [->|Hne].
    + rewrite bool_decide_eq_true_2 by (by left). apply lookup_delete_eq.
    + rewrite bool_decide_eq_false_2 by (by rewrite not_elem_of_cons). by apply lookup_delete_ne.
Qed.

Lemma files_of_unlink k (gone : list bytes) d d' :
  d_files d' = filter (fun f => f.1 ∉ gone) (d_files d) -> (forall name, name ∈ gone -> fst <$> legacy_key name <> Some k) ->
  files_of k d' = files_of k d.
Proof.
  intros Hd Hg. unfold files_of. rewrite Hd, list_filter_filter. apply list_filter_iff. intros f. split; [tauto|].
  intros Hk. split; [done|]. intros Hin. by apply (Hg f.1).
Qed.

Lemma evict_if_unchanged_spec faults expected d r d' :
  evict_staged_artifact_keys_if_unchanged faults expected d = (r, d') ->
  exists removed, (forall k, k ∈ removed -> k ∈ expected.*1) /\ d_files d' = d_files d /\
    (forall k, k ∉ removed -> staged_of k d' = staged_of k d) /\
    (forall keys, r = Some keys -> keys = removed /\ d_staged d' = filter (fun e => e.1 ∉ removed) (d_staged d)).
Proof.
  assert (exists removed, (forall k, k ∈ removed -> k ∈ expected.*1) /\ d_files d = d_files d /\
    (forall k, k ∉ removed -> staged_of k d = staged_of k d) /\
    (forall keys, (Some [] = Some keys \/ None = Some keys) -> keys = removed /\ d_staged d = filter (fun e => e.1 ∉ removed) (d_staged d))) as Hnil.
  { exists []. split_and!; [by intros k ?%not_elem_of_nil|done|done|]. intros keys [[= <-]|[=]]. split; [done|]. symmetry.
    apply list_filter_all. intros ??. apply not_elem_of_nil. }
  unfold evict_staged_artifact_keys_if_unchanged. destruct (bool_decide _); [intros [= <- <-]; naive_solver|].
  destruct (store_lock faults); [|intros [= <- <-]; naive_solver..].
  destruct (evict_staged _ _ _) as [rem st] eqn:He. intros [= <- <-]. destruct (evict_staged_spec _ _ _ _ _ He) as (removed & H1 & H2 & H3).
  exists removed. split_and!; [|done|done|done]. intros k (e & -> & Hin)%H1%list_elem_of_fmap. apply list_elem_of_fmap. exists e. split; [done|].
  unfold in_visit_order in Hin. by rewrite sort_by_perm in Hin.
Qed.

(** A removal: the files and trees that go, all of them planned; and, when it
    succeeds, the keys that lost any of them, which everything forgets. *)
Record removal (scanned : list DiskArtifact) (plan : MaintenancePlan) (w : DiskWorld) (r : option (list bytes)) (w' : DiskWorld)
    (gone removed : list bytes) : Prop := {
  re_files : d_files (w_disk w') = filter (fun f => f.1 ∉ gone) (d_files (w_disk w));
  re_staged : forall k, k ∉ removed -> staged_of k (w_disk w') = staged_of k (w_disk w);
  re_evicted : is_Some r -> d_staged (w_disk w') = filter (fun e => e.1 ∉ removed) (d_staged (w_disk w));
  re_gone : forall name, name ∈ gone -> exists k, fst <$> legacy_key name = Some k /\ k ∈ default (plan_selected plan) r;
  re_removed : forall k, k ∈ removed -> k ∈ default (plan_selected plan) r;
  re_planned : forall k, k ∈ default [] r -> k ∈ plan_selected plan;
  re_complete : forall k, k ∈ default [] r -> exists a, a ∈ scanned /\ a_key a = k /\
                  (forall name, name ∈ legacy_files a -> name ∈ gone) /\ (a_staged a = true -> k ∈ removed);
  re_artifacts : forall k, w_artifacts w' !! k = if bool_decide (k ∈ default [] r) then None else w_artifacts w !! k;
  re_rows : forall k, entries (w_store w') !! k = if bool_decide (k ∈ default [] r) then None else entries (w_store w) !! k;
  re_graph : forall k, references_artifact_key (w_graph w') k =
               bool_decide (k ∉ default [] r) && references_artifact_key (w_graph w) k;
  re_retired : w_retired w' = w_retired w
}.

Lemma remove_planned_spec faults scanned plan w r w' :
  remove_planned_artifacts faults scanned plan w = (r, w') -> Forall wf_artifact scanned ->
  exists gone removed, removal scanned plan w r w' gone removed.
Proof.
  intros Hrem Hwf. unfold remove_planned_artifacts in Hrem.
  set (planned := list_to_set (C := gset bytes) (plan_selected plan)) in *.
  assert (forall k, k ∈ planned <-> k ∈ plan_selected plan) as Hpl by (intros k; unfold planned; by rewrite elem_of_list_to_set).
  assert (forall k, bool_decide (k ∈ @nil bytes) = false) as Hnil by (intros k; apply bool_decide_eq_false_2, not_elem_of_nil).
  assert (forall k, bool_decide (k ∉ @nil bytes) = true) as Hnil' by (intros k; apply bool_decide_eq_true_2, not_elem_of_nil).
  destruct (evict_staged_artifact_keys_if_unchanged _ _ _) as [ev d] eqn:Hev.
  apply evict_if_unchanged_spec in Hev as (removed & Hexp & Hfiles & Hstaged & Hall).
  destruct ev as [keys0|].
  2:{ injection Hrem as <- <-. exists [], removed. constructor; cbn [default]; intros; rewrite ?Hnil, ?Hnil'; try done;
      try (by exfalso; eapply not_elem_of_nil).
      - cbn [w_disk]. by rewrite Hfiles, list_filter_all by (intros; apply not_elem_of_nil).
      - by apply Hstaged.
      - apply Hexp in H. apply list_elem_of_fmap in H as ([k' gen] & -> & Hin).
        apply list_elem_of_fmap in Hin as (a & [= -> ->] & [[Hs Hp] Ha]%list_elem_of_filter). by apply Hpl. }
  destruct (Hall keys0 eq_refl) as [-> Hev]. rewrite Hfiles in Hrem.
  set (chosen := filter (fun a => a_key a ∈ planned /\ (a_staged a = false \/ a_key a ∈ removed)) scanned) in *.
  destruct (unlink_files faults (flat_map legacy_files chosen) (d_files (w_disk w))) as [ok files] eqn:Hun.
  destruct (unlink_files_spec _ _ _ _ _ Hun) as (gone & Hg & -> & Hok).
  assert (forall name, name ∈ gone -> exists a, a ∈ chosen /\ fst <$> legacy_key name = Some (a_key a)) as Hgone.
  { intros name (a & Ha & Hn)%Hg%list_elem_of_In%in_flat_map. apply list_elem_of_In in Ha, Hn. exists a. split; [done|].
    unfold chosen in Ha. apply list_elem_of_filter in Ha as [_ Ha]. rewrite Forall_forall in Hwf. specialize (Hwf a Ha).
    unfold wf_artifact in Hwf. rewrite Forall_forall in Hwf. by apply Hwf. }
  assert (forall k, k ∈ removed -> exists a, a ∈ chosen /\ a_key a = k) as Hremv.
  { intros k Hk. pose proof Hk as Hin%Hexp. apply list_elem_of_fmap in Hin as ([k' gen] & -> & Hin).
    apply list_elem_of_fmap in Hin as (a & [= -> ->] & [[Hs Hp] Ha]%list_elem_of_filter). exists a. split; [|done].
    unfold chosen. apply list_elem_of_filter. cbn [fst] in Hk. auto. }
  assert (forall a, a ∈ chosen -> a_key a ∈ plan_selected plan) as Hch.
  { intros a [[Ha _] _]%list_elem_of_filter. by apply Hpl. }
  exists gone, removed. destruct ok; cbn [negb] in Hrem.
  2:{ injection Hrem as <- <-. constructor; cbn [default]; intros; rewrite ?Hnil, ?Hnil'; try done;
      try (by exfalso; eapply not_elem_of_nil).
      - by apply Hstaged.
      - destruct (Hgone name ltac:(done)) as (a & Ha & Hn). eauto.
      - destruct (Hremv k ltac:(done)) as (a & Ha & <-). eauto. }
  set (keys := filter (fun k => k ∈ list_to_set (C := gset bytes) (map a_key chosen)) (plan_selected plan)) in *.
  assert (forall k, k ∈ keys <-> exists a, a ∈ chosen /\ a_key a = k) as Hkeys.
  { intros k. unfold keys. rewrite list_elem_of_filter, elem_of_list_to_set, list_elem_of_fmap. split.
    - intros [(a & -> & Ha) _]. eauto.
    - intros (a & Ha & <-). split; [eauto|]. by apply Hch. }
  assert (r = Some keys /\ w_disk w' = mkDisk (filter (fun f => f.1 ∉ gone) (d_files (w_disk w))) (d_staged d) /\
    (forall k, w_artifacts w' !! k = if bool_decide (k ∈ keys) then None else w_artifacts w !! k) /\
    (forall k, entries (w_store w') !! k = if bool_decide (k ∈ keys) then None else entries (w_store w) !! k) /\
    (forall k, references_artifact_key (w_graph w') k = bool_decide (k ∉ keys) && references_artifact_key (w_graph w) k) /\
    w_retired w' = w_retired w) as (-> & Hd & Ha & Hr & Hgr & Hret).
  { destruct (bool_decide_reflect (keys = [])) as [Hnone|_]; injection Hrem as <- <-; cbn [w_disk w_artifacts w_store w_graph w_retired].
    - rewrite Hnone. repeat split; intros; by rewrite ?Hnil, ?Hnil'.
    - split; [done|]. split; [done|]. split; [intros k; apply delete_all_lookup|]. split; [intros k; apply delete_all_lookup|].
      split; [|done]. intros k. rewrite references_invalidate. f_equal. apply bool_decide_ext. by rewrite elem_of_list_to_set. }
  constructor; cbn [default]; rewrite ?Hd; try done.
  - intros name (a & Hac & Hn)%Hgone. exists (a_key a). split; [done|]. apply Hkeys. eauto.
  - intros k Hk%Hremv. by apply Hkeys.
  - intros k (a & Hac & <-)%Hkeys. by apply Hch.
  - intros k (a & Hac & <-)%Hkeys. exists a. pose proof Hac as [[_ Hst] Hin]%list_elem_of_filter. repeat split; [done|..].
    + intros name Hname. rewrite (Hok eq_refl). apply list_elem_of_In, in_flat_map. exists a. by rewrite <-!list_elem_of_In.
    + intros Hsd. destruct Hst as [|Hst]; [congruence|done].
Qed.

(** What the plan does not name, and after success what lost nothing, is untouched. *)
Lemma removal_untouched scanned plan w r w' gone removed k :
  removal scanned plan w r w' gone removed -> k ∉ default (plan_selected plan) r -> k ∉ default [] r -> untouched k w w'.
Proof.
  intros [Hf Hs _ Hg Hr _ _ Ha Hrow Hgr _] Hk Hk'. constructor.
  - rewrite (files_of_unlink k gone _ _ Hf); [done|]. intros name (k' & Hn & Hin)%Hg. rewrite Hn. intros [= <-]. done.
  - apply Hs. intros Hin%Hr. done.
  - by rewrite Ha, bool_decide_eq_false_2.
  - by rewrite Hrow, bool_decide_eq_false_2.
  - by rewrite Hgr, bool_decide_eq_true_2.
Qed.

(** ** What a scan sees *)

Fixpoint glookup (k : bytes) (g : Groups) : option DiskArtifact :=
  match g with [] => None | (k', a) :: g => if bool_decide (k' = k) then Some a else glookup k g end.

Lemma upsert_lookup key d f g k :
  glookup k (upsert key d f g).1 = if bool_decide (key = k) then Some (f (default d (glookup key g))).1 else glookup k g.
Proof.
  induction g as [|[k' a] g IH]; cbn [upsert glookup].
  - change (default d None) with d. destruct (f d) as [a seen]. cbn [fst glookup]. by destruct (bool_decide_reflect (key = k)).
  - destruct (bool_decide_reflect (k' = key)) as [->|Hne].
    + change (default d (Some a)) with a. destruct (f a) as [a' seen] eqn:Hf. cbn [fst glookup]. by destruct (bool_decide_reflect (key = k)).
    + destruct (upsert key d f g) as [g' seen]. cbn [fst glookup] in *. rewrite IH.
      destruct (bool_decide_reflect (key = k)) as [->|]; [|done]. by rewrite bool_decide_eq_false_2.
Qed.

Lemma upsert_nodup key d f g : NoDup g.*1 -> NoDup (upsert key d f g).1.*1.
Proof.
  assert (forall k, k ∈ (upsert key d f g).1.*1 -> k = key \/ k ∈ g.*1) as Hin.
  { induction g as [|[k' a] g IH]; intros k; cbn [upsert].
    - destruct (f d). cbn. rewrite elem_of_cons. tauto.
    - destruct (bool_decide _); [destruct (f a); cbn; rewrite elem_of_cons; tauto|].
      destruct (upsert key d f g). cbn in *. rewrite !elem_of_cons. intros [->|Hk%IH]; tauto. }
  clear Hin. induction g as [|[k' a] g IH]; intros Hnd; cbn [upsert].
  - destruct (f d). cbn. apply NoDup_singleton.
  - apply NoDup_cons in Hnd as [Hn Hnd]. destruct (bool_decide_reflect (k' = key)) as [->|Hne].
    + destruct (f a). cbn. by apply NoDup_cons.
    + specialize (IH Hnd). pose proof (fun k => upsert_lookup key d f g k) as Hl.
      destruct (upsert key d f g) as [g' seen] eqn:Hu. cbn in IH |- *. apply NoDup_cons. split; [|done].
      assert (forall g k, k ∈ g.*1 <-> is_Some (glookup k g)) as Hdom.
      { clear. intros g k. induction g as [|[k' a] g IH]; cbn [glookup fmap list_fmap fst].
        - split; [by intros ?%not_elem_of_nil|by intros [? ?]].
        - rewrite elem_of_cons, IH. destruct (bool_decide_reflect (k' = k)) as [->|Hne]; [split; eauto|].
          split; [by intros [->|]|auto]. }
      rewrite Hdom. cbn in Hl. rewrite Hl, bool_decide_eq_false_2 by done. by rewrite <-Hdom.
Qed.

Lemma glookup_elem g k a : NoDup g.*1 -> (k, a) ∈ g <-> glookup k g = Some a.
Proof.
  induction g as [|[k' a'] g IH]; cbn [glookup]; intros Hnd; [split; [by intros ?%not_elem_of_nil|done]|].
  apply NoDup_cons in Hnd as [Hn Hnd]. rewrite elem_of_cons, IH by done.
  destruct (bool_decide_reflect (k' = k)) as [->|Hne].
  - split; [intros [[= <-]|Hk]; [done|]|intros [= ->]; by left]. exfalso. apply Hn. apply IH in Hk; [|done].
    apply list_elem_of_fmap. by exists (k, a).
  - split; [intros [[= -> ->]|]; done|auto].
Qed.

(** What the code keeps of an artifact while it adds files. *)
Definition same_shape (a b : DiskArtifact) : Prop :=
  a_key b = a_key a /\ legacy_files b = legacy_files a /\ a_staged b = a_staged a /\ staged_generation b = staged_generation a.

Lemma add_file_shape f a seen : same_shape a (add_file f (a, seen)).1.
Proof. unfold add_file. by destruct (match f_identity f with Some _ => _ | None => _ end). Qed.

Lemma add_tree_shape t st : same_shape st.1 (add_tree t st).1.
Proof.
  revert t st. fix IH 1. intros [f|m es|] st; cbn [add_tree].
  - destruct st. apply add_file_shape.
  - revert st. induction es as [|e es IHes]; intros st; [done|]. specialize (IHes (add_tree e st)).
    pose proof (IH e st) as He. unfold same_shape in *. destruct IHes as (-> & -> & -> & ->). exact He.
  - done.
Qed.

(** The names of a key's files. *)
Definition names_of (k : bytes) (l : list (bytes * DiskFile)) : list bytes :=
  (filter (fun f => fst <$> legacy_key f.1 = Some k) l).*1.

Definition keyed (g : Groups) : Prop := NoDup g.*1 /\ forall k a, glookup k g = Some a -> a_key a = k.

Lemma scan_legacy_spec l g seen :
  keyed g ->
  keyed (scan_legacy l (g, seen)).1 /\
  forall k,
    (glookup k (scan_legacy l (g, seen)).1 = None <-> glookup k g = None /\ names_of k l = []) /\
    (forall a, glookup k (scan_legacy l (g, seen)).1 = Some a ->
       legacy_files a = default [] (legacy_files <$> glookup k g) ++ names_of k l /\ a_staged a = default false (a_staged <$> glookup k g)).
Proof.
  revert g seen. induction l as [|[name f] l IH]; intros g seen Hg; cbn [scan_legacy].
  { split; [done|]. intros k. cbn [fst]. split; [cbn; tauto|]. intros a ->. cbn. by rewrite app_nil_r. }
  destruct (legacy_key name) as [[key o]|] eqn:Hkey.
  - set (F := fun a => let '(a, seen) := add_file f (a, seen) in (push_legacy name a, seen)).
    pose proof (fun k => upsert_lookup key (empty_artifact key false) F g k) as Hup.
    pose proof (upsert_nodup key (empty_artifact key false) F g (proj1 Hg)) as Hnd.
    assert (forall a, a_key (F a).1 = a_key a /\ legacy_files (F a).1 = legacy_files a ++ [name] /\ a_staged (F a).1 = a_staged a) as HF.
    { intros a. unfold F. pose proof (add_file_shape f a seen) as Hs. destruct (add_file f (a, seen)) as [b s2]. cbn in *.
      destruct Hs as (-> & -> & -> & _). done. }
    destruct (upsert key (empty_artifact key false) F g) as [g' seen'] eqn:Hu. cbn [fst] in *.
    assert (keyed g') as Hg'.
    { split; [done|]. intros k a. rewrite Hup. destruct (bool_decide_reflect (key = k)) as [->|]; [|apply Hg].
      intros [= <-]. rewrite (proj1 (HF _)). destruct (glookup k g) as [a0|] eqn:Hl; [by apply Hg|done]. }
    destruct (IH g' seen' Hg') as [Hk Hspec]. split; [done|]. intros k. destruct (Hspec k) as [Hn Hs]. rewrite Hup in Hn, Hs.
    unfold names_of in *. rewrite filter_cons.
    destruct (decide (fst <$> legacy_key (name, f).1 = Some k)) as [Hd|Hd]; cbn [fst] in Hd; rewrite Hkey in Hd; cbn in Hd;
      (destruct (bool_decide_reflect (key = k)) as [->|Hne]; [|try congruence]); try congruence.
    + split.
      * rewrite Hn. split; [by intros [? _]|by intros [_ ?]].
      * intros a Ha. destruct (Hs a Ha) as [-> ->]. cbn [fmap option_fmap option_map default]. destruct (HF (default (empty_artifact k false) (glookup k g))) as (_ & -> & ->).
        destruct (glookup k g) as [a0|]; cbn; split; try done; by rewrite <-app_assoc.
    + done.
  - destruct (IH g seen Hg) as [Hk Hspec]. split; [done|]. intros k. unfold names_of in *.
    rewrite filter_cons_False by (cbn [fst]; by rewrite Hkey). exact (Hspec k).
Qed.

Lemma scan_staged_spec l g seen :
  keyed g ->
  keyed (scan_staged l (g, seen)).1 /\
  forall k,
    (glookup k (scan_staged l (g, seen)).1 = None <-> glookup k g = None /\ k ∉ l.*1.*1) /\
    (forall a, glookup k (scan_staged l (g, seen)).1 = Some a ->
       legacy_files a = default [] (legacy_files <$> glookup k g) /\
       (k ∈ l.*1.*1 \/ (exists a0, glookup k g = Some a0 /\ a_staged a0 = true) -> a_staged a = true)).
Proof.
  revert g seen. induction l as [|[[key mtime] e] l IH]; intros g seen Hg; cbn [scan_staged].
  { split; [done|]. intros k. cbn [fst]. split; [split; [intros ?; split; [done|apply not_elem_of_nil]|by intros [? _]]|].
    intros a ->. split; [done|]. intros [?%not_elem_of_nil|(? & [= <-] & ?)]; done. }
  set (F := fun a => let a := set_staged (generation e) (Z.max (last_access a) mtime) a in
                     let st := add_tree (s_tree e) (a, seen) in
                     match s_pointer e with Some (f, _) => add_file f st | None => st end).
  pose proof (fun k => upsert_lookup key (empty_artifact key true) F g k) as Hup.
  pose proof (upsert_nodup key (empty_artifact key true) F g (proj1 Hg)) as Hnd.
  assert (forall a, a_key (F a).1 = a_key a /\ legacy_files (F a).1 = legacy_files a /\ a_staged (F a).1 = true) as HF.
  { intros a. unfold F. set (a0 := set_staged _ _ a). pose proof (add_tree_shape (s_tree e) (a0, seen)) as Ht.
    destruct (add_tree (s_tree e) (a0, seen)) as [b s2]. cbn [fst] in Ht. destruct Ht as (H1 & H2 & H3 & _).
    destruct (s_pointer e) as [[f p]|]; [|cbn [fst]; by rewrite H1, H2, H3].
    destruct (add_file_shape f b s2) as (E1 & E2 & E3 & _). by rewrite E1, E2, E3, H1, H2, H3. }
  destruct (upsert key (empty_artifact key true) F g) as [g' seen'] eqn:Hu. cbn [fst] in *.
  assert (keyed g') as Hg'.
  { split; [done|]. intros k a. rewrite Hup. destruct (bool_decide_reflect (key = k)) as [->|]; [|apply Hg].
    intros [= <-]. rewrite (proj1 (HF _)). destruct (glookup k g) as [a0|] eqn:Hl; [by apply Hg|done]. }
  destruct (IH g' seen' Hg') as [Hk Hspec]. split; [done|]. intros k. destruct (Hspec k) as [Hn Hs]. rewrite Hup in Hn, Hs.
  cbn [fmap list_fmap fst]. destruct (bool_decide_reflect (key = k)) as [->|Hne].
  - split.
    + rewrite Hn. split; [by intros [? _]|]. intros [_ Hx]. destruct Hx. by left.
    + intros a Ha. destruct (Hs a Ha) as [-> Hst]. cbn [fmap option_fmap option_map default].
      destruct (HF (default (empty_artifact k true) (glookup k g))) as (_ & -> & Hst').
      split; [by destruct (glookup k g)|]. intros _. apply Hst. right. eauto.
  - split; [|].
    + rewrite Hn, elem_of_cons. naive_solver.
    + intros a Ha. destruct (Hs a Ha) as [-> Hst]. split; [done|]. intros [[->|Hin]%elem_of_cons|Hg0]; [done|auto|auto].
Qed.

Definition is_dir (t : Tree) : bool := match t with TDir _ _ => true | _ => false end.
(** A key the scan sees: it has a legacy file or a staged tree. *)
Definition present (k : bytes) (d : Disk) : Prop :=
  names_of k (d_files d) <> [] \/
  exists e, (k, e) ∈ d_staged d /\ is_dir (s_tree e) = true /\ staged_key_supported k = true.

Lemma scan_staged_keys l s k :
  scan_staged_disk_artifacts l = Some s ->
  k ∈ s.*1.*1 <-> exists e, (k, e) ∈ l /\ is_dir (s_tree e) = true /\ staged_key_supported k = true.
Proof.
  revert s. induction l as [|[key e] l IH]; intros s; cbn [scan_staged_disk_artifacts].
  { intros [= <-]. split; [by intros ?%not_elem_of_nil|by intros (? & ?%not_elem_of_nil & _)]. }
  destruct (s_tree e) as [f|m es|] eqn:Ht; [| |done].
  - intros Hs. rewrite (IH s Hs). setoid_rewrite elem_of_cons. split; [naive_solver|].
    intros (e' & [[= -> ->]|Hin] & Hd & Hk); [by rewrite Ht in Hd|eauto].
  - destruct (staged_key_supported key) eqn:Hk; cbn [negb].
    + destruct (staged_tree_mtime _); [|done]. destruct (scan_staged_disk_artifacts l) as [rest|]; [|done]. intros [= <-].
      cbn [fmap list_fmap fst]. rewrite elem_of_cons, (IH rest eq_refl). setoid_rewrite elem_of_cons. split.
      * intros [->|(e' & ? & ? & ?)]; [exists e|exists e']; rewrite ?Ht; auto.
      * intros (e' & [[= -> ->]|Hin] & Hd & Hk'); [by left|eauto].
    + intros Hs. rewrite (IH s Hs). setoid_rewrite elem_of_cons. split; [naive_solver|].
      intros (e' & [[= -> ->]|Hin] & Hd & Hk'); [congruence|eauto].
Qed.

Lemma scan_artifacts_spec d l :
  scan_artifacts d = Some l ->
  NoDup (map a_key l) /\
  (forall k, present k d <-> exists a, a ∈ l /\ a_key a = k) /\
  (forall a, a ∈ l -> legacy_files a = names_of (a_key a) (d_files d) /\
     ((exists e, (a_key a, e) ∈ d_staged d /\ is_dir (s_tree e) = true /\ staged_key_supported (a_key a) = true) -> a_staged a = true)).
Proof.
  unfold scan_artifacts. destruct (scan_staged_disk_artifacts (d_staged d)) as [s|] eqn:Hs; [|done]. intros [= <-].
  assert (keyed []) as Hk0 by (split; [constructor|done]).
  pose proof (scan_legacy_spec (d_files d) [] ∅ Hk0) as [Hk1 Hl]. destruct (scan_legacy (d_files d) ([], ∅)) as [g1 seen1].
  pose proof (scan_staged_spec s g1 seen1 Hk1) as [Hk2 Hst]. set (g2 := (scan_staged s (g1, seen1)).1) in *. cbn [fst] in Hl.
  assert (forall a, a ∈ g2.*2 <-> glookup (a_key a) g2 = Some a) as Hin.
  { intros a. rewrite list_elem_of_fmap. split.
    - intros ([k b] & -> & Hb). apply glookup_elem in Hb; [|apply Hk2]. cbn [snd]. by rewrite (proj2 Hk2 k b Hb).
    - intros Ha. apply glookup_elem in Ha; [|apply Hk2]. by exists (a_key a, a). }
  split; [|split].
  - replace (map a_key g2.*2) with g2.*1; [apply Hk2|]. rewrite <-list_fmap_compose. apply list_fmap_ext. intros i [k a] Hi.
    apply list_elem_of_lookup_2, glookup_elem in Hi; [|apply Hk2]. cbn. symmetry. by apply (proj2 Hk2).
  - intros k. unfold present. rewrite <-(scan_staged_keys _ _ _ Hs). destruct (Hst k) as [Hn2 Hs2]. destruct (Hl k) as [Hn1 Hs1].
    transitivity (glookup k g2 <> None).
    + rewrite Hn2, Hn1. destruct (decide (k ∈ s.*1.*1)); destruct (decide (names_of k (d_files d) = [])); cbn [glookup]; tauto.
    + split.
      * intros Hne. destruct (glookup k g2) as [a|] eqn:Ha; [|done]. exists a. pose proof (proj2 Hk2 k a Ha) as Hka.
        split; [|done]. apply Hin. by rewrite Hka.
      * intros (a & Ha & <-). apply Hin in Ha. congruence.
  - intros a Ha. apply Hin in Ha. destruct (Hst (a_key a)) as [_ Hs2]. destruct (Hs2 a Ha) as [Hf2 Hstg].
    destruct (Hl (a_key a)) as [Hn1 Hs1]. split; [|rewrite <-(scan_staged_keys _ _ _ Hs); auto].
    rewrite Hf2. destruct (glookup (a_key a) g1) as [a1|] eqn:Ha1; cbn.
    + by destruct (Hs1 a1 eq_refl) as [-> _].
    + by destruct (proj1 Hn1 eq_refl) as [_ ->].
Qed.

Lemma scan_wf d l : scan_artifacts d = Some l -> Forall wf_artifact l.
Proof.
  intros Hs. destruct (scan_artifacts_spec d l Hs) as (_ & _ & Ha). apply Forall_forall. intros a Hin.
  destruct (Ha a Hin) as [Hf _]. unfold wf_artifact. rewrite Hf. apply Forall_forall. unfold names_of.
  intros name (f & -> & [Hk _]%list_elem_of_filter)%list_elem_of_fmap. done.
Qed.

Lemma refresh_one_shape live g instant now a : same_shape a (refresh_one live g instant now a).
Proof. unfold refresh_one. by destruct (live !! a_key a). Qed.

Lemma refresh_shape live g instant now l : map a_key (refresh_live_access live g instant now l) = map a_key l /\
  (Forall wf_artifact l -> Forall wf_artifact (refresh_live_access live g instant now l)).
Proof.
  pose proof (refresh_one_shape live g instant now) as Hs.
  unfold refresh_live_access. split.
  - rewrite map_map. apply map_ext. intros a. apply Hs.
  - intros Hl. apply Forall_map. apply (Forall_impl _ _ _ Hl). intros a. unfold wf_artifact. destruct (Hs a) as (-> & -> & _). done.
Qed.

(** ** Passes *)

Section pass_facts.
  Context (space : Disk -> FilesystemSpace) (instant : nat -> Z) (sweep : Z -> Z * Z) (faults : nat -> Faults)
    (shutdown : nat -> bool) (between : nat -> DiskWorld -> DiskWorld).
  Context (policy : BudgetSpec) (kind : MaintenanceKind) (now pending : Z).

Definition set_retired (x : Z) (w : DiskWorld) : DiskWorld :=
  mkDiskWorld (w_disk w) (w_artifacts w) (w_store w) (w_graph w) (w_commands w) x.

(** What every round keeps, a pass keeps; [F] is what is known after a failure. *)
Lemma rounds_preserve (P F : DiskWorld -> Prop) :
  (forall w, P w -> F w) -> (forall x w, P w -> P (set_retired x w)) -> (forall n w, P w -> P (between n w)) ->
  (forall n scanned pressure w plan scanned' r w', P w -> Forall wf_artifact scanned ->
     commit_round space instant faults policy kind now pending n scanned pressure w = (plan, scanned', (r, w')) ->
     match r with None => F w' | Some _ => P w' end) ->
  forall fuel n swept scanned p w, P w -> Forall wf_artifact scanned ->
    match rounds space instant sweep faults shutdown between policy kind now pending fuel n swept scanned p w with
    | (Failed, w') => F w' | (_, w') => P w' end.
Proof.
  intros HF Hret Hbet Hcommit fuel. induction fuel as [|fuel IH]; intros n swept scanned p w Hw Hwf; cbn [rounds]; [done|].
  destruct (shutdown n); [done|]. set (plan := plan_maintenance_at_least _ _ _ _ _ _ _ _).
  destruct (negb swept && _ && _).
  { destruct (sweep (w_retired w)) as [reclaimed remaining]. apply IH; [by apply (Hret remaining)|done]. }
  destruct (bool_decide (plan_selected plan = [])); [done|]. specialize (Hbet n w Hw).
  destruct (commit_round _ _ _ _ _ _ _ n scanned (p_pressure p) (between n w)) as [[plan' scanned'] [r w']] eqn:Hc.
  specialize (Hcommit _ _ _ _ _ _ _ _ Hbet Hwf Hc). destruct r as [[|k keys]|]; [done| |done].
  unfold scan_refreshed. destruct (scan_artifacts (w_disk w')) as [l|] eqn:Hs; cbn [fmap option_fmap option_map]; [|by apply HF].
  apply IH; [done|]. apply refresh_shape. by apply (scan_wf (w_disk w')).
Qed.

Lemma maintain_preserve (P F : DiskWorld -> Prop) :
  (forall w, P w -> F w) -> (forall x w, P w -> P (set_retired x w)) -> (forall n w, P w -> P (between n w)) ->
  (forall n scanned pressure w plan scanned' r w', P w -> Forall wf_artifact scanned ->
     commit_round space instant faults policy kind now pending n scanned pressure w = (plan, scanned', (r, w')) ->
     match r with None => F w' | Some _ => P w' end) ->
  forall fuel w, P w ->
    match maintain_disk_artifacts_with_barrier space instant sweep faults shutdown between policy kind now pending fuel w with
    | (Some None, w') => F w' | (_, w') => P w' end.
Proof.
  intros HF Hret Hbet Hcommit fuel w Hw. unfold maintain_disk_artifacts_with_barrier, scan_refreshed.
  destruct (scan_artifacts (w_disk w)) as [l|] eqn:Hs; cbn [fmap option_fmap option_map]; [|by apply HF].
  set (sc := refresh_live_access _ _ _ _ l).
  assert (Forall wf_artifact sc) as Hwf by (apply refresh_shape; by apply (scan_wf (w_disk w))).
  pose proof (rounds_preserve P F HF Hret Hbet Hcommit fuel 0 false sc (mkProgress NoPressure ∅ ∅ 0 0) w Hw Hwf) as H.
  destruct (rounds _ _ _ _ _ _ _ _ _ _ _ _ _ _ _) as [[] w']; exact H.
Qed.
End pass_facts.

Section pass_theorems.
  Context (space : Disk -> FilesystemSpace) (instant : nat -> Z) (sweep : Z -> Z * Z) (faults : nat -> Faults)
    (shutdown : nat -> bool) (between : nat -> DiskWorld -> DiskWorld).
  Context (policy : BudgetSpec) (kind : MaintenanceKind) (now pending : Z).

(** The files, the staged tree and the row of a key are the same. *)
Definition kept (k : bytes) (w w' : DiskWorld) : Prop :=
  files_of k (w_disk w') = files_of k (w_disk w) /\ staged_of k (w_disk w') = staged_of k (w_disk w) /\
  entries (w_store w') !! k = entries (w_store w) !! k.
(** An artifact this process published or served within five minutes of [t]. *)
Definition fresh (t : Z) (k : bytes) (w : DiskWorld) : Prop :=
  exists c, w_artifacts w !! k = Some c /\ used_in_process (c_access c) = true /\ published_in_process (c_access c) = true /\
    t - last_used (c_access c) <= HARD_PRESSURE_MIN_AGE.

Lemma fresh_not_planned t n k w scanned pressure :
  instant n <= t -> fresh t k w ->
  k ∉ plan_selected (plan_maintenance_at_least policy kind now (space (w_disk w))
        (refresh_live_access (w_artifacts w) (w_graph w) (instant n) now scanned) pending (w_retired w) pressure).
Proof.
  intros Ht (c & Hc & Hu & Hp & Hage) Hk. apply plan_selected_idle in Hk as (a & Ha & Hkey & Hidle).
  unfold refresh_live_access in Ha. apply list_elem_of_fmap in Ha as (a0 & -> & Ha0).
  assert (a_key a0 = k) as Hk0 by (unfold refresh_one in Hkey; by destruct (w_artifacts w !! a_key a0)).
  unfold refresh_one in Hidle. rewrite Hk0, Hc in Hidle. cbn in Hidle. unfold eligible in Hidle. cbn in Hidle. rewrite Hu, Hp in Hidle.
  rewrite orb_true_r in Hidle. cbn [negb orb] in Hidle. unfold age, HARD_PRESSURE_MIN_AGE, PRESSURE_INTERVAL, SOFT_AGE, EXPIRE_AGE, SECOND in *.
  destruct Hidle as [[_ H]|H]; [lia|]. destruct (bool_decide _); cbn [andb orb] in H; lia.
Qed.

(** C13: nothing fresh is evicted.  Whatever the pressure, an artifact this process
    has published, and used within the last five minutes of the pass's clock, keeps
    its files, its staged generation and its index row through all rounds, also when
    one of them fails: as long as other threads, between a round's plan and its
    commit, leave this artifact's files, generation and row alone and keep it fresh.
    They may do anything to others. *)
Theorem fresh_artifact_survives (t : Z) (k : bytes) (fuel : nat) (w : DiskWorld) :
  (forall n, instant n <= t) ->
  (forall n w, fresh t k w -> fresh t k (between n w) /\ kept k w (between n w)) ->
  fresh t k w ->
  let w' := (maintain_disk_artifacts_with_barrier space instant sweep faults shutdown between policy kind now pending fuel w).2 in
  kept k w w' /\ fresh t k w'.
Proof.
  intros Ht Hbet Hfresh w'.
  pose proof (maintain_preserve space instant sweep faults shutdown between policy kind now pending
    (fun x => kept k w x /\ fresh t k x) (fun x => kept k w x /\ fresh t k x)) as Hm.
  specialize (Hm (fun _ H => H)).
  assert (match maintain_disk_artifacts_with_barrier space instant sweep faults shutdown between policy kind now pending fuel w with
    | (Some None, w') => kept k w w' /\ fresh t k w' | (_, w') => kept k w w' /\ fresh t k w' end) as H.
  { apply Hm; [done| | |done].
    - intros n x [(K1 & K2 & K3) Hf]. destruct (Hbet n x Hf) as [Hf' (J1 & J2 & J3)]. split; [|done]. unfold kept.
      by rewrite J1, J2, J3.
    - intros n scanned pressure x plan scanned' r x' [(K1 & K2 & K3) Hf] Hwf Hc. unfold commit_round in Hc.
      injection Hc as <- <- Hrem. pose proof (fresh_not_planned t n k x scanned pressure (Ht n) Hf) as Hnp.
      destruct (remove_planned_spec _ _ _ _ _ _ Hrem) as (gone & removed & Hr); [by apply refresh_shape|].
      destruct (removal_untouched _ _ _ _ _ _ _ k Hr) as [U1 U2 U3 U4 _].
      + destruct r as [keys|]; [|done]. cbn. intros Hin. by apply Hnp, (re_planned _ _ _ _ _ _ _ Hr).
      + intros Hin. by apply Hnp, (re_planned _ _ _ _ _ _ _ Hr).
      + enough (kept k w x' /\ fresh t k x') by (by destruct r). split; [unfold kept; by rewrite U1, U2, U4|].
        unfold fresh. by rewrite U3. }
  unfold w'. destruct (maintain_disk_artifacts_with_barrier _ _ _ _ _ _ _ _ _ _ _ _) as [[[|]|] x]; exact H.
Qed.





End pass_theorems.

(** ** Passes end *)

(** Artifacts as a scan of the disk gives them, up to their access times. *)
Definition scan_like (d : Disk) (scanned : list DiskArtifact) : Prop :=
  exists l, scan_artifacts d = Some l /\ Forall2 same_shape l scanned.

Lemma scan_like_scan d l : scan_artifacts d = Some l -> scan_like d l.
Proof. intros Hl. exists l. split; [done|]. clear. induction l; by constructor. Qed.

Lemma refresh_like d scanned live g instant now : scan_like d scanned -> scan_like d (refresh_live_access live g instant now scanned).
Proof.
  intros (l & Hl & Hs). exists l. split; [done|]. unfold refresh_live_access. apply Forall2_fmap_r. apply (Forall2_impl _ _ _ _ Hs).
  intros a b (H1 & H2 & H3 & H4). destruct (refresh_one_shape live g instant now b) as (E1 & E2 & E3 & E4).
  unfold compose, same_shape. by rewrite E1, E2, E3, E4, H1, H2, H3, H4.
Qed.

Lemma scan_like_keys d scanned : scan_like d scanned -> NoDup (map a_key scanned) /\ (forall k, present k d <-> k ∈ map a_key scanned).
Proof.
  intros (l & Hl & Hs). assert (map a_key scanned = map a_key l) as ->.
  { clear Hl. induction Hs as [|a b l k (Hk & _) _ IH]; [done|]. cbn. by rewrite Hk, IH. }
  destruct (scan_artifacts_spec d l Hl) as (Hnd & Hp & _). split; [done|]. intros k. rewrite Hp, list_elem_of_fmap. naive_solver.
Qed.

(** What a round removes is no longer there for the next scan. *)
Lemma removed_absent scanned plan w keys w' gone removed k :
  removal scanned plan w (Some keys) w' gone removed -> scan_like (w_disk w) scanned -> k ∈ keys -> ~ present k (w_disk w').
Proof.
  intros Hr (l & Hl & Hs) Hk. destruct (re_complete _ _ _ _ _ _ _ Hr k Hk) as (a & Ha & Hkey & Hfiles & Hst).
  apply list_elem_of_lookup in Ha as [i Hi]. destruct (Forall2_lookup_r _ _ _ _ _ Hs Hi) as (b & Hb & Hbk & Hbf & Hbs & _).
  destruct (scan_artifacts_spec _ l Hl) as (_ & _ & Hspec). destruct (Hspec b (list_elem_of_lookup_2 _ _ _ Hb)) as [Hn Hstaged].
  rewrite Hkey in Hbk. rewrite <-Hbk in Hn, Hstaged. intros [Hp|(e & He & Hd & Hsup)].
  - apply Hp. rewrite (re_files _ _ _ _ _ _ _ Hr). unfold names_of.
    destruct (filter _ (filter _ _)) as [|f fs] eqn:Hf; [done|]. exfalso.
    assert (f ∈ filter (fun f => fst <$> legacy_key f.1 = Some k) (filter (fun f => f.1 ∉ gone) (d_files (w_disk w)))) as Hin
      by (rewrite Hf; by left).
    apply list_elem_of_filter in Hin as [Hfk [Hng Hin]%list_elem_of_filter]. apply Hng, Hfiles. rewrite Hbf, Hn.
    apply list_elem_of_fmap. exists f. split; [done|]. by apply list_elem_of_filter.
  - rewrite (re_evicted _ _ _ _ _ _ _ Hr) in He by done. apply list_elem_of_filter in He as [Hnr He]. apply Hnr. cbn.
    apply Hst. rewrite Hbs. apply Hstaged. eauto.
Qed.

Lemma removal_shrinks scanned plan w keys w' gone removed k :
  removal scanned plan w (Some keys) w' gone removed -> present k (w_disk w') -> present k (w_disk w).
Proof.
  intros Hr. unfold present. rewrite (re_files _ _ _ _ _ _ _ Hr), (re_evicted _ _ _ _ _ _ _ Hr) by done. intros [Hp|(e & He & ?)].
  - left. contradict Hp. unfold names_of in *. rewrite list_filter_filter. apply fmap_nil_inv in Hp.
    destruct (filter _ (d_files (w_disk w))) as [|f fs] eqn:Hf in |- *; [done|]. exfalso.
    assert (f ∈ filter (fun f => fst <$> legacy_key f.1 = Some k) (d_files (w_disk w))) as Hin.
    { assert (f ∈ filter (fun a => fst <$> legacy_key a.1 = Some k /\ a.1 ∉ gone) (d_files (w_disk w))) as H by (rewrite Hf; by left).
      apply list_elem_of_filter in H as [[H _] ?]. by apply list_elem_of_filter. }
    rewrite Hp in Hin. by apply not_elem_of_nil in Hin.
  - right. exists e. apply list_elem_of_filter in He as [_ He]. done.
Qed.

Section termination.
  Context (space : Disk -> FilesystemSpace) (instant : nat -> Z) (sweep : Z -> Z * Z) (faults : nat -> Faults)
    (shutdown : nat -> bool) (between : nat -> DiskWorld -> DiskWorld).
  Context (policy : BudgetSpec) (kind : MaintenanceKind) (now pending : Z).
  Context (between_disk : forall n w, w_disk (between n w) = w_disk w).

Lemma rounds_terminate fuel n (swept : bool) scanned p w :
  scan_like (w_disk w) scanned -> (length scanned + (if swept then 1 else 2) <= fuel)%nat ->
  (rounds space instant sweep faults shutdown between policy kind now pending fuel n swept scanned p w).1 <> OutOfFuel.
Proof.
  revert n swept scanned p w. induction fuel as [|fuel IH]; intros n swept scanned p w Hs Hf; [destruct swept; lia|]. cbn [rounds].
  destruct (shutdown n); [done|]. set (plan := plan_maintenance_at_least _ _ _ _ _ _ _ _).
  destruct (negb swept && _ && _) eqn:Hsw.
  { destruct swept; [done|]. destruct (sweep (w_retired w)). apply IH; [done|lia]. }
  destruct (bool_decide (plan_selected plan = [])); [done|].
  destruct (commit_round _ _ _ _ _ _ _ n scanned (p_pressure p) (between n w)) as [[plan' scanned'] [r w']] eqn:Hc.
  unfold commit_round in Hc. injection Hc as <- <- Hrem. rewrite <-(between_disk n w) in Hs.
  pose proof (refresh_like _ _ (w_artifacts (between n w)) (w_graph (between n w)) (instant n) now Hs) as Hs'.
  destruct (remove_planned_spec _ _ _ _ _ _ Hrem) as (gone & removed & Hr).
  { apply refresh_shape. destruct Hs as (l & Hl & Hsh). apply scan_wf in Hl. clear -Hl Hsh.
    induction Hsh as [|a b l k (Hk & Hfl & _) _ IH]; [constructor|]. apply Forall_cons in Hl as [Ha Hl]. constructor; [|auto].
    unfold wf_artifact. by rewrite Hk, Hfl. }
  destruct r as [[|k keys]|]; [done| |done]. unfold scan_refreshed.
  destruct (scan_artifacts (w_disk w')) as [l|] eqn:Hl; cbn [fmap option_fmap option_map]; [|done].
  pose proof (scan_like_scan _ _ Hl) as Hl'.
  apply IH; [by apply refresh_like|]. unfold refresh_live_access. rewrite length_map.
  destruct (scan_like_keys _ _ Hs) as [Hnd Hp]. destruct (scan_like_keys _ _ Hl') as [Hnd' Hp'].
  enough (S (length l) <= length scanned)%nat by lia.
  rewrite <-(length_map a_key l), <-(length_map a_key scanned). apply (submseteq_length (k :: map a_key l)). apply NoDup_submseteq.
  - apply NoDup_cons. split; [|done]. rewrite <-Hp'. apply (removed_absent _ _ _ _ _ _ _ k Hr Hs'). by left.
  - intros x [->|Hx]%elem_of_cons; apply Hp.
    + destruct (re_complete _ _ _ _ _ _ _ Hr k ltac:(by left)) as (a & Ha & <- & _). apply Hp.
      rewrite <-(proj1 (refresh_shape (w_artifacts (between n w)) (w_graph (between n w)) (instant n) now scanned)).
      apply list_elem_of_fmap. eauto.
    + apply Hp' in Hx. by apply (removal_shrinks _ _ _ _ _ _ _ x Hr).
Qed.

(** C35: a pass ends.  As long as other threads publish nothing while it runs, every
    round but the sweep of retired stores and the last one removes an artifact, so
    that a pass over [n] artifacts ends within [n + 2] rounds. *)
Theorem pass_terminates (w : DiskWorld) (l : list DiskArtifact) :
  scan_artifacts (w_disk w) = Some l ->
  (maintain_disk_artifacts_with_barrier space instant sweep faults shutdown between policy kind now pending (length l + 2) w).1 <> None.
Proof.
  intros Hl. unfold maintain_disk_artifacts_with_barrier, scan_refreshed. rewrite Hl. cbn [fmap option_fmap option_map].
  set (sc := refresh_live_access _ _ _ _ l).
  assert (scan_like (w_disk w) sc) as Hs.
  { by apply refresh_like, scan_like_scan. }
  pose proof (rounds_terminate (length l + 2) 0 false sc (mkProgress NoPressure ∅ ∅ 0 0) w Hs) as Ht.
  destruct (rounds _ _ _ _ _ _ _ _ _ _ _ _ _ _ _) as [[] w']; cbn; try done. exfalso. apply Ht; [|done].
  unfold sc, refresh_live_access. rewrite length_map. lia.
Qed.
End termination.

(** ** Witnesses *)

Definition demo_graph : DepGraph := mkGraph ∅ ∅ ∅ ∅ ∅ 0 0 0 false.
Definition demo_file (mtime size : Z) : DiskFile := mkDiskFile mtime None size true.
Definition demo_tree (mtime size : Z) : StagedEntry := mkStagedEntry (TDir mtime [TFile (demo_file mtime size)]) (Some (demo_file mtime 1, "g1")).
(** An artifact of legacy files and two staged ones. *)
Definition demo_disk : Disk :=
  mkDisk [("0a_0", demo_file 5 (10 * GIB)); (".lock", demo_file 5 1)] [("0b", demo_tree 7 (3 * GIB)); ("0c", demo_tree 9 (2 * GIB))].
Definition demo_meta : ArtifactIndex := ArtifactIndex_new ["a.o"] [4] "" "" 0 0.
Definition demo_live : gmap bytes CachedArtifact :=
  <["0b" := from_index demo_meta 0 0]> {["0c" := cached_published demo_meta (1000 * SECOND) (1000 * SECOND)]}.
Definition demo_store : ArtifactStore := mkStore (<["0a" := demo_meta]> (<["0b" := demo_meta]> {["0c" := demo_meta]})) false false.
Definition demo_world : DiskWorld := mkDiskWorld demo_disk demo_live demo_store demo_graph [] 0.
(** A volume of 100 GiB with one left. *)
Definition demo_space (d : Disk) : FilesystemSpace := mkSpace (100 * GIB) (1 * GIB).
Definition demo_now : Z := 2000 * SECOND.
Definition no_faults : Faults := mkFaults LockHeld (fun _ => 0) (fun _ => false) (fun _ => None) (fun _ => false).
Definition demo_pass (f : Faults) (fuel : nat) : option (option DiskMaintenanceReport) * DiskWorld :=
  maintain_disk_artifacts_with_barrier demo_space (fun _ => 1100 * SECOND) (fun r => (0, r)) (fun _ => f) (fun _ => false) (fun _ w => w)
    Dynamic Pressure demo_now 0 fuel demo_world.

Example demo_scan : map (fun a => (a_key a, allocated_bytes a, legacy_files a, a_staged a)) <$> scan_artifacts demo_disk =
  Some [("0a", 10 * GIB, ["0a_0"], false); ("0b", 3 * GIB + 1, [], true); ("0c", 2 * GIB + 1, [], true)].
Proof. vm_compute. reflexivity. Qed.

(** Both artifacts that are not fresh go. *)
Example demo_pass_removes :
  let '(r, w) := demo_pass no_faults 5 in
  (artifacts_removed <$> mjoin r) = Some 2%nat /\ map fst (d_files (w_disk w)) = [".lock"] /\ map fst (d_staged (w_disk w)) = ["0c"] /\
  w_commands w = [Remove ["0a"; "0b"]] /\ is_Some (entries (w_store w) !! "0c").
Proof. vm_compute. repeat split. by eexists. Qed.

Lemma plan_frees_enough_witness :
  let a := mkDiskArtifact "0a" GIB GIB 5 false ["0a_0"] false None in
  taken Dynamic Pressure demo_now (demo_space demo_disk) [a] 0 0 NoPressure `prefix_of`
  candidates Dynamic Pressure demo_now (demo_space demo_disk) [a] 0 0 NoPressure.
Proof.
  intros a. pose proof (plan_frees_enough Dynamic Pressure demo_now (demo_space demo_disk) [a] 0 0 NoPressure
    ltac:(apply List.Forall_cons; [vm_compute; discriminate|constructor])) as H. cbn zeta in H.
  destruct (needs _ _ _ _ _ _ _ _) as [un fn]. exact (proj1 (proj2 (proj2 H))).
Defined.

Lemma pressure_relieved_witness :
  let a := mkDiskArtifact "0a" (40 * GIB) (40 * GIB) 5 false ["0a_0"] false None in
  let plan := plan_maintenance_at_least Dynamic Pressure demo_now (demo_space demo_disk) [a] 0 0 NoPressure in
  detected_pressure Dynamic Pressure demo_now (mkSpace (100 * GIB) (1 * GIB + total reclaimable_bytes (filter (fun a => a_key a ∈ plan_selected plan) [a])))
    (filter (fun a => ~ a_key a ∈ plan_selected plan) [a]) 0 0 = NoPressure.
Proof.
  intros a plan. apply (pressure_relieved Dynamic Pressure demo_now (demo_space demo_disk) [a] 0 0 NoPressure).
  - apply NoDup_singleton.
  - apply List.Forall_cons; [|constructor]. split; vm_compute; discriminate.
  - vm_compute. split; [discriminate|reflexivity].
  - vm_compute. discriminate.
  - lia.
  - lia.
  - vm_compute. discriminate.
  - vm_compute. discriminate.
  - vm_compute. discriminate.
  - vm_compute. discriminate.
  - vm_compute. discriminate.
Defined.

Lemma fresh_artifact_survives_witness : kept "0c" demo_world (demo_pass no_faults 5).2.
Proof.
  apply (fresh_artifact_survives demo_space (fun _ => 1100 * SECOND) (fun r => (0, r)) (fun _ => no_faults) (fun _ => false)
    (fun _ w => w) Dynamic Pressure demo_now 0 (1100 * SECOND) "0c" 5 demo_world).
  - intros _. lia.
  - intros _ w Hf. split; [exact Hf|]. repeat split.
  - exists (cached_published demo_meta (1000 * SECOND) (1000 * SECOND)). split; [vm_compute; reflexivity|].
    split; [reflexivity|]. split; [reflexivity|]. vm_compute. discriminate.
Defined.



Lemma pass_terminates_witness : (demo_pass no_faults 5).1 <> None.
Proof.
  assert (exists l, scan_artifacts (w_disk demo_world) = Some l /\ length l = 3%nat) as (l & Hl & Hlen)
    by (eexists; split; [vm_compute; reflexivity|reflexivity]).
  pose proof (pass_terminates demo_space (fun _ => 1100 * SECOND) (fun r => (0, r)) (fun _ => no_faults) (fun _ => false)
    (fun _ w => w) Dynamic Pressure demo_now 0 (fun _ _ => eq_refl) demo_world l Hl) as H.
  rewrite Hlen in H. exact H.
Defined.

(** A failed unlink leaves the index ahead of the disk: the staged generations of the
    round are gone, and nothing has forgotten them. *)
Definition failed_unlink : Faults :=
  mkFaults LockHeld (fun _ => 0) (fun _ => false) (fun _ => None) (fun name => bool_decide (name = "0a_0")).
Example failed_unlink_dangles :
  let w' := (demo_pass failed_unlink 5).2 in
  (demo_pass failed_unlink 5).1 = Some None /\
  map fst (d_staged (w_disk w')) = ["0c"] /\ is_Some (entries (w_store w') !! "0b") /\ is_Some (w_artifacts w' !! "0b").
Proof. vm_compute. repeat split; by eexists. Qed.

(** So does an error in the middle of the staged trees. *)
Definition failed_tree : Faults :=
  mkFaults LockHeld (fun k => if bool_decide (k = "0d") then 1 else 0) (fun _ => false)
    (fun k => if bool_decide (k = "0d") then Some None else None) (fun _ => false).
Definition demo_expected : list (bytes * option bytes) := [("0d", Some "g1"); ("0b", Some "g1")].
Example failed_tree_evicts_earlier :
  let staged := ("0d", demo_tree 7 1) :: d_staged demo_disk in
  let (r, d) := evict_staged_artifact_keys_if_unchanged failed_tree demo_expected (mkDisk [] staged) in
  r = None /\ map fst (d_staged d) = ["0c"].
Proof. vm_compute. done. Qed.

(** Hard pressure takes an artifact that was served this very second, if this process
    did not publish it. *)
Example hard_pressure_takes_recent_hit :
  let a := mkDiskArtifact "0b" GIB GIB demo_now false [] true None in
  plan_selected (plan_maintenance_at_least Dynamic Pressure demo_now (demo_space demo_disk) [a] 0 0 NoPressure) = ["0b"].
Proof. vm_compute. reflexivity. Qed.
