(* ===== verification/Eviction.v ===== *)
(** * Memory-bounded eviction ([daemon/eviction.rs], [run_memory_eviction_pass])

    The estimate of the memory that the in-memory caches hold, the plan made from
    it, the write phase (fast hits first, then metadata with its journal rows, the
    dependency graph last), the opportunistic phase that runs beside compiles, and
    the sweep that puts them together.

    Counts are [nat], bytes [Z] (the code's [usize] and [u64]; sums of estimates
    stay far below their range).  Every call of the sweep sees the state other
    threads left ([between]); a single call is atomic. *)

From stdpp Require Import list strings gmap.
From Stdlib Require Import Lia.
From S2P Require Import Prelude Path RustStr Hash ContextKeys IndexWal DiskMaintenance.
From S2P Require Import DepGraph DepGraphIndex Clock Metadata CacheSystem.

#[local] Open Scope Z_scope.

Definition METADATA_ENTRY_BYTES : Z := 400.
Definition JOURNAL_ENTRY_BYTES : Z := 280.
Definition DEPGRAPH_FILE_BYTES : Z := 600.
Definition DEPGRAPH_CONTEXT_BYTES : Z := 2048.
Definition FAST_HIT_ENTRY_BYTES : Z := 200.
Definition ARTIFACT_OVERHEAD_BYTES : Z := 200.
Definition FAST_HIT_BUDGET_TRIM_MAX_AGE : Z := 5 * SECOND.

Record FastHitEntry := mkFastHit { fh_clock : Clock; artifact_key_hex : bytes; cached_at : Z }.

(** The parts of the daemon's state the sweep looks at. *)
Record MemState := mkMem {
  m_system : CacheSystem;
  m_graph : DepGraph;
  m_fast : gmap ContextKey FastHitEntry;
  m_artifacts : gmap bytes CachedArtifact;
  m_in_flight : Z;
}.

Record MemoryEvictionPlan := mkEvictionPlan { metadata_candidates : list EvictionCandidate; target_bytes : Z }.
Record MemoryEvictionOutcome := mkOutcome {
  freed_bytes : Z; items_removed : nat; o_refreshed : list EvictionCandidate }.
Record GentleEvictionOutcome := mkGentle {
  g_freed_bytes : Z; g_items_removed : nat; g_busy : list EvictionCandidate; g_refreshed : list EvictionCandidate }.
Record MemorySnapshot := mkSnapshot {
  metadata_entries : nat; journal_entries : nat; depgraph_files : nat; depgraph_contexts : nat;
  fast_hit_entries : nat; artifact_entries : nat; artifact_payload_bytes : Z; in_flight_bytes : Z;
  total_bytes : Z }.

(** [completion_from]: what was busy, then what was not visited. *)
Definition completion_from (plan : MemoryEvictionPlan) (offset : nat) (busy : list EvictionCandidate) : MemoryEvictionPlan :=
  mkEvictionPlan (busy ++ drop (Nat.min offset (length (metadata_candidates plan))) (metadata_candidates plan)) (target_bytes plan).

Definition memory_snapshot (m : MemState) : MemorySnapshot :=
  let metadata_entries := len (sys_metadata (m_system m)) in
  let journal_entries := last_change_len (sys_journal (m_system m)) in
  let dg_stats := stats (m_graph m) in
  let fast_hit_entries := size (m_fast m) in
  let artifact_entries := size (m_artifacts m) in
  let artifact_payload_bytes := map_fold (fun _ a acc => total_size (c_meta a) + acc) 0 (m_artifacts m) in
  mkSnapshot metadata_entries journal_entries (st_file_count dg_stats) (st_context_count dg_stats)
    fast_hit_entries artifact_entries artifact_payload_bytes (m_in_flight m)
    (Z.of_nat metadata_entries * METADATA_ENTRY_BYTES
     + Z.of_nat journal_entries * JOURNAL_ENTRY_BYTES
     + Z.of_nat (st_file_count dg_stats) * DEPGRAPH_FILE_BYTES
     + Z.of_nat (st_context_count dg_stats) * DEPGRAPH_CONTEXT_BYTES
     + Z.of_nat fast_hit_entries * FAST_HIT_ENTRY_BYTES
     + Z.of_nat artifact_entries * ARTIFACT_OVERHEAD_BYTES
     + m_in_flight m).

(** [(budget as f64 * 0.9) as u64]: rounding to 53 bits, ties to even, of the
    budget and of its product with the double nearest to 0.9. *)
Definition round53 (m : Z) : Z :=
  let d := Z.max 0 (Z.log2 m - 52) in
  let q := m / 2 ^ d in
  let r := m mod 2 ^ d in
  (if (2 ^ d <? 2 * r) || ((2 * r =? 2 ^ d) && Z.odd q) then q + 1 else q) * 2 ^ d.
Definition POINT_NINE_MANTISSA : Z := 8106479329266893.
Definition ninety_percent (budget : Z) : Z := round53 (round53 budget * POINT_NINE_MANTISSA) / 2 ^ 53.

(** [(to_free as usize).div_ceil(METADATA_ENTRY_BYTES).max(1).min(n)]. *)
Definition entries_needed (to_free : Z) (n : nat) : nat :=
  Nat.min (Nat.max (Z.to_nat ((to_free + METADATA_ENTRY_BYTES - 1) / METADATA_ENTRY_BYTES)) 1) n.

Definition plan_eviction_to_target_excluding (target : Z) (m : MemState) (protected_paths : gset NormalizedPath) :
    option MemoryEvictionPlan :=
  let snap := memory_snapshot m in
  if total_bytes snap <=? target then None
  else
    let to_free := total_bytes snap - target in
    let metadata_count := entries_needed to_free (metadata_entries snap) in
    let candidates := oldest_eviction_candidates (sys_metadata (m_system m)) (metadata_entries snap) in
    let candidates := filter (fun c => cand_path c ∉ protected_paths) candidates in
    Some (mkEvictionPlan (take metadata_count candidates) target).

Definition plan_eviction_to_budget (budget : Z) (m : MemState) : option MemoryEvictionPlan :=
  if total_bytes (memory_snapshot m) <=? budget then None
  else plan_eviction_to_target_excluding (ninety_percent budget) m ∅.

(** The fast hits older than the limit are collected first, and removed if
    they still are the ones that were seen. *)
Definition remove_observed (acc : gmap ContextKey FastHitEntry * nat) (x : ContextKey * Z) :
    gmap ContextKey FastHitEntry * nat :=
  let '(cache, removed) := acc in
  match cache !! x.1 with
  | Some e => if cached_at e =? x.2 then (delete x.1 cache, S removed) else (cache, removed)
  | None => (cache, removed)
  end.
Definition trim_fast_hit_cache_two_pass (now max_age : Z) (cache : gmap ContextKey FastHitEntry) :
    gmap ContextKey FastHitEntry * nat :=
  let expired := omap (fun '(k, e) =>
    if max_age <? saturating_duration_since now (cached_at e) then Some (k, cached_at e) else None) (map_to_list cache) in
  fold_left remove_observed expired (cache, 0%nat).

Definition set_system (s : CacheSystem) (m : MemState) : MemState :=
  mkMem s (m_graph m) (m_fast m) (m_artifacts m) (m_in_flight m).
Definition set_graph (g : DepGraph) (m : MemState) : MemState :=
  mkMem (m_system m) g (m_fast m) (m_artifacts m) (m_in_flight m).
Definition set_fast (f : gmap ContextKey FastHitEntry) (m : MemState) : MemState :=
  mkMem (m_system m) (m_graph m) f (m_artifacts m) (m_in_flight m).

(** Priority 1: the fast hits. *)
Definition evict_fast (now to_free : Z) (snap : MemorySnapshot) (m : MemState) : Z * Z * nat * MemState :=
  if (0 <? to_free) && (0 <? fast_hit_entries snap)%nat then
    let '(f, removed) := trim_fast_hit_cache_two_pass now FAST_HIT_BUDGET_TRIM_MAX_AGE (m_fast m) in
    let freed := Z.of_nat removed * FAST_HIT_ENTRY_BYTES in
    (saturating_sub to_free freed, freed, removed, set_fast f m)
  else (to_free, 0, 0%nat, m).

(** Priority 2: metadata and journal, [None] in the first place when the
    pass ends there. *)
Definition evict_metadata (to_free : Z) (plan : MemoryEvictionPlan) (m : MemState) :
    option Z * Z * nat * list EvictionCandidate * MemState :=
  if (0 <? to_free) && negb (is_empty (sys_metadata (m_system m))) then
    let entries_to_evict := entries_needed to_free (len (sys_metadata (m_system m))) in
    let selected := take (Nat.min entries_to_evict (length (metadata_candidates plan))) (metadata_candidates plan) in
    let '(s, (result, journal_removed)) := sys_evict_candidates_detailed selected (m_system m) in
    let freed := Z.of_nat (removed result) * METADATA_ENTRY_BYTES + Z.of_nat journal_removed * JOURNAL_ENTRY_BYTES in
    let to_free := saturating_sub to_free freed in
    let stop := (removed result <? length selected)%nat || (length selected <? entries_to_evict)%nat in
    (if stop then None else Some to_free, freed, (removed result + journal_removed)%nat, refreshed result, set_system s m)
  else (Some to_free, 0, 0%nat, [], m).

(** Priority 3: the dependency graph. *)
Definition evict_graph (now_ms to_free : Z) (m : MemState) : Z * nat * MemState :=
  if 0 <? to_free then
    let dg_stats := stats (m_graph m) in
    if (0 <? st_context_count dg_stats)%nat then
      let '(g, removed) := graph_trim 0 now_ms (m_graph m) in
      let freed := Z.of_nat removed * DEPGRAPH_CONTEXT_BYTES in
      let files_freed := (st_file_count dg_stats - st_file_count (stats g))%nat in
      (freed + Z.of_nat files_freed * DEPGRAPH_FILE_BYTES, (removed + files_freed)%nat, set_graph g m)
    else (0, 0%nat, m)
  else (0, 0%nat, m).

Definition evict_to_budget_with_plan_detailed (now now_ms : Z) (plan : MemoryEvictionPlan) (m : MemState) :
    MemoryEvictionOutcome * MemState :=
  let snap := memory_snapshot m in
  if total_bytes snap <=? target_bytes plan then (mkOutcome 0 0 [], m)
  else
    let to_free := total_bytes snap - target_bytes plan in
    let '(to_free, freed1, items1, m) := evict_fast now to_free snap m in
    let '(to_free, freed2, items2, refreshed, m) := evict_metadata to_free plan m in
    match to_free with
    | None => (mkOutcome (freed1 + freed2) (items1 + items2) refreshed, m)
    | Some to_free =>
        let '(freed3, items3, m) := evict_graph now_ms to_free m in
        (mkOutcome (freed1 + freed2 + freed3) (items1 + items2 + items3) refreshed, m)
    end.

Definition try_evict_metadata_plan (lock_busy : NormalizedPath -> bool) (plan : MemoryEvictionPlan)
    (offset max_candidates : nat) (m : MemState) : GentleEvictionOutcome * MemState :=
  let n := length (metadata_candidates plan) in
  let start := Nat.min offset n in
  let finish := Nat.min (start + max_candidates) n in
  let selected := take (finish - start) (drop start (metadata_candidates plan)) in
  let '(s, result) := sys_try_evict_candidates_detailed lock_busy selected (m_system m) in
  (mkGentle (Z.of_nat (removed result) * METADATA_ENTRY_BYTES) (removed result) (busy result) (refreshed result),
   set_system s m).

(** ** The sweep ([run_memory_eviction_pass]) *)

Definition MEMORY_GC_IDLE_GRACE : Z := 250 * 10 ^ 6.
Definition MEMORY_GC_FORCE_AFTER : Z := 5 * SECOND.
Definition MEMORY_GC_GENTLE_BATCH : nat := 256.

Definition forced_completion_stalled (items_removed : nat) (completion_had_candidates : bool) (metadata_entries : nat) : bool :=
  (items_removed =? 0)%nat && negb completion_had_candidates && (metadata_entries =? 0)%nat.

(** What the sweep meets at its [i]-th step: what other threads have done to
    the state, the clocks, the requests in progress, the shards that are locked. *)
Record Surroundings := mkSurroundings {
  between : nat -> MemState -> MemState;
  instant : nat -> Z;
  unix_ms : nat -> Z;
  active_requests : nat -> nat;
  lock_busy : nat -> NormalizedPath -> bool;
}.

Definition SweepResult : Type := (option (Z * nat) * MemState)%type.

Section sweep.
Context (env : Surroundings).

(** The forced completion: evict, look, plan again.  [None] is for fuel that
    runs out. *)
Fixpoint complete (fuel i : nat) (plan : MemoryEvictionPlan) (protected_paths : gset NormalizedPath)
    (total_freed : Z) (total_items : nat) (m : MemState) : SweepResult :=
  match fuel with
  | O => (None, m)
  | S fuel =>
      let completion_had_candidates := (0 <? length (metadata_candidates plan))%nat in
      let m := between env i m in
      let '(outcome, m) := evict_to_budget_with_plan_detailed (instant env i) (unix_ms env i) plan m in
      let total_freed := total_freed + freed_bytes outcome in
      let total_items := (total_items + items_removed outcome)%nat in
      let protected_paths := protected_paths ∪ list_to_set (cand_path <$> o_refreshed outcome) in
      let m := between env (S i) m in
      let current := memory_snapshot m in
      if total_bytes current <=? target_bytes plan then (Some (total_freed, total_items), m)
      else
        let m := between env (S (S i)) m in
        match plan_eviction_to_target_excluding (target_bytes plan) m protected_paths with
        | None => (Some (total_freed, total_items), m)
        | Some next =>
            if (0 <? metadata_entries current)%nat && (length (metadata_candidates next) =? 0)%nat
            then (Some (total_freed, total_items), m)
            else if forced_completion_stalled (items_removed outcome) completion_had_candidates (metadata_entries current)
            then (Some (total_freed, total_items), m)
            else complete fuel (3 + i) next protected_paths total_freed total_items m
        end
  end.

(** What the loop of the sweep carries. *)
Record Sweep := mkSweep {
  s_freed : Z; s_items : nat; candidate_offset : nat; gentle_finished : bool;
  busy_candidates : list EvictionCandidate; s_protected : gset NormalizedPath }.

Definition force_completion (fuel i : nat) (plan : MemoryEvictionPlan) (st : Sweep) (m : MemState) : SweepResult :=
  let '(s, journal_removed) := cleanup_journal (m_system m) in
  let m := set_system s m in
  let freed := s_freed st + Z.of_nat journal_removed * JOURNAL_ENTRY_BYTES in
  let items := (s_items st + journal_removed)%nat in
  let m := between env (S i) m in
  if total_bytes (memory_snapshot m) <=? target_bytes plan then (Some (freed, items), m)
  else complete fuel (2 + i) (completion_from plan (candidate_offset st) (busy_candidates st)) (s_protected st) freed items m.

Definition gentle_round (i : nat) (plan : MemoryEvictionPlan) (st : Sweep) (m : MemState) : Sweep * MemState :=
  let '(outcome, m) := try_evict_metadata_plan (lock_busy env i) plan (candidate_offset st) MEMORY_GC_GENTLE_BATCH m in
  let offset := (candidate_offset st + MEMORY_GC_GENTLE_BATCH)%nat in
  let m := between env (S i) m in
  let finished := (total_bytes (memory_snapshot m) <=? target_bytes plan)
                  || (length (metadata_candidates plan) <=? offset)%nat in
  (mkSweep (s_freed st + g_freed_bytes outcome) (s_items st + g_items_removed outcome) offset finished
     (busy_candidates st ++ g_busy outcome) (s_protected st ∪ list_to_set (cand_path <$> g_refreshed outcome)), m).

Fixpoint sweep_loop (fuel cfuel : nat) (started : Z) (i : nat) (plan : MemoryEvictionPlan) (st : Sweep) (m : MemState) :
    SweepResult :=
  match fuel with
  | O => (None, m)
  | S fuel =>
      let m := between env i m in
      let elapsed := saturating_duration_since (instant env i) started in
      if (active_requests env i =? 0)%nat || (MEMORY_GC_FORCE_AFTER <=? elapsed)
      then force_completion cfuel i plan st m
      else if elapsed <? MEMORY_GC_IDLE_GRACE then sweep_loop fuel cfuel started (2 + i) plan st m
      else if gentle_finished st then sweep_loop fuel cfuel started (2 + i) plan st m
      else let '(st, m) := gentle_round i plan st m in sweep_loop fuel cfuel started (2 + i) plan st m
  end.

Definition run_memory_eviction_pass (fuel cfuel : nat) (budget : Z) (m : MemState) : SweepResult :=
  let started := instant env 0 in
  let m := between env 0 m in
  match plan_eviction_to_budget budget m with
  | None => (Some (0, 0%nat), m)
  | Some plan => sweep_loop fuel cfuel started 1 plan (mkSweep 0 0 0 false [] ∅) m
  end.
End sweep.

(** ** Lemmas *)

Abbreviation meta_of m := (Metadata.entries (sys_metadata (m_system m))).
Abbreviation rows_of m := (last_change (sys_journal (m_system m))).

Definition young (now : Z) (f : gmap ContextKey FastHitEntry) : Prop :=
  map_Forall (fun _ e => saturating_duration_since now (cached_at e) <= FAST_HIT_BUDGET_TRIM_MAX_AGE) f.

(** *** Fast hits *)

Lemma remove_observed_spec l cache n cache' n' :
  fold_left remove_observed l (cache, n) = (cache', n') ->
  (n' + size cache' = n + size cache)%nat /\
  (forall k, cache' !! k = cache !! k \/ cache' !! k = None) /\
  (forall k e, cache !! k = Some e -> (k, cached_at e) ∈ l -> cache' !! k = None).
Proof.
  revert cache n. induction l as [|[k t] l IH]; intros cache n; cbn [fold_left].
  { intros [= -> ->]. split_and!; [lia|auto|]. intros k e _ Hin. by apply not_elem_of_nil in Hin. }
  unfold remove_observed at 2. cbn [fst snd].
  assert (forall c1 n1, fold_left remove_observed l (c1, n1) = (cache', n') ->
    (c1 = cache /\ n1 = n /\ (forall e, cache !! k = Some e -> cached_at e <> t)) \/
    (c1 = delete k cache /\ n1 = S n /\ is_Some (cache !! k)) ->
    (n' + size cache' = n + size cache)%nat /\
    (forall k, cache' !! k = cache !! k \/ cache' !! k = None) /\
    (forall k0 e, cache !! k0 = Some e -> (k0, cached_at e) ∈ (k, t) :: l -> cache' !! k0 = None)) as Hgen.
  { intros c1 n1 Hf [(-> & -> & Hne)|(-> & -> & Hk)]; destruct (IH _ _ Hf) as (Hs & Hl & Hr).
    - split_and!; [done|done|]. intros k0 e He [[= -> <-]|Hin]%elem_of_cons; [by destruct (Hne e He)|eauto].
    - pose proof (map_size_delete_Some k cache Hk) as Hsz. assert (0 < size cache)%nat.
      { destruct Hk as [e He]. destruct (size cache) eqn:Hz; [|lia]. apply map_size_empty_iff in Hz. subst. done. }
      split_and!.
      + lia.
      + intros k0. destruct (Hl k0) as [->|]; [|auto]. destruct (decide (k0 = k)) as [->|].
        * rewrite lookup_delete_eq. auto.
        * rewrite lookup_delete_ne by done. auto.
      + intros k0 e He Hin. destruct (decide (k0 = k)) as [->|Hne].
        * destruct (Hl k) as [-> | ->]; [apply lookup_delete_eq|done].
        * apply elem_of_cons in Hin as [[= -> _]|Hin]; [done|].
          apply (Hr k0 e); [by rewrite lookup_delete_ne|done]. }
  destruct (cache !! k) as [e|] eqn:He; [destruct (Z.eqb_spec (cached_at e) t) as [Ht|Ht]|];
    intros Hf; apply (Hgen _ _ Hf); [right|left|left]; split_and!; try done; congruence.
Qed.

Lemma trim_fast_spec now cache cache' n :
  trim_fast_hit_cache_two_pass now FAST_HIT_BUDGET_TRIM_MAX_AGE cache = (cache', n) ->
  (n + size cache' = size cache)%nat /\ young now cache'.
Proof.
  intros Hf%remove_observed_spec. destruct Hf as (Hs & Hl & Hr). split; [lia|].
  intros k e He. destruct (Hl k) as [Hk|Hk]; [|congruence]. rewrite He in Hk. symmetry in Hk.
  destruct (Z.le_gt_cases (saturating_duration_since now (cached_at e)) FAST_HIT_BUDGET_TRIM_MAX_AGE) as [|Hgt]; [done|].
  enough (cache' !! k = None) by congruence. apply (Hr k e Hk). apply list_elem_of_omap.
  exists (k, e). split; [by apply elem_of_map_to_list|]. by rewrite (proj2 (Z.ltb_lt _ _)) by lia.
Qed.

(** *** Metadata *)

Definition current (cands : list EvictionCandidate) (m : MemState) : Prop :=
  NoDup (cand_path <$> cands) /\ forall c, c ∈ cands -> c ∈ candidates_of (meta_of m).

Lemma current_sub cands cands' m : cands' `sublist_of` cands -> current cands m -> current cands' m.
Proof.
  intros Hs [Hnd Hc]. split; [|intros c Hin; apply Hc; by eapply elem_of_submseteq, sublist_submseteq].
  eapply sublist_NoDup; [done|by apply fmap_sublist].
Qed.

Lemma current_perm cands cands' m : cands ≡ₚ cands' -> current cands m -> current cands' m.
Proof. intros Hp [Hnd Hc]. split; [by rewrite <- Hp|]. intros c. rewrite <- Hp. apply Hc. Qed.

Lemma evict_fold_refreshed lock cands m r m' r' :
  fold_left (evict_step lock) cands (m, r) = (m', r') ->
  NoDup (cand_path <$> cands) -> (forall c, c ∈ cands -> c ∈ candidates_of m) -> refreshed r' = refreshed r.
Proof.
  revert m r. induction cands as [|[q tq] cands IH]; intros m r; cbn [fold_left]; [by intros [= -> ->]|].
  simpl. intros Hf [Hq Hnd]%NoDup_cons Hcur.
  assert (mkCandidate q tq ∈ candidates_of m) as (e & He & Ht)%candidates_of_elem by (apply Hcur; by left).
  destruct (lock q); [by rewrite (IH _ _ Hf) by (try done; intros c ?; apply Hcur; by right)|].
  rewrite He, Ht, Z.eqb_refl in Hf. rewrite (IH _ _ Hf); [done|done|].
  intros [p t] Hin. assert (mkCandidate p t ∈ candidates_of m) as (e' & He' & <-)%candidates_of_elem
    by (apply Hcur; by right).
  apply candidates_of_elem. exists e'. split; [|done]. rewrite lookup_delete_ne; [done|]. intros ->.
  apply Hq. apply list_elem_of_fmap. by eexists (mkCandidate p _).
Qed.

(** Both write phases, as far as the estimate is concerned. *)
Lemma sys_evict_counts cands s s' r j :
  sys_evict_candidates_detailed cands s = (s', (r, j)) ->
  (removed r + size (Metadata.entries (sys_metadata s')) = size (Metadata.entries (sys_metadata s)))%nat /\
  (j + size (last_change (sys_journal s')) = size (last_change (sys_journal s)))%nat.
Proof.
  unfold sys_evict_candidates_detailed, evict_candidates_detailed, try_evict_candidates_detailed.
  destruct (fold_left _ _ _) as [m0 r0] eqn:Hf. intros [= <- <- <-]. simpl.
  apply evict_fold_count in Hf as [Hc _]. split; [simpl in *; lia|]. apply map_size_removed.
Qed.

Lemma sys_evict_current cands s s' r j m :
  m_system m = s -> current cands m -> sys_evict_candidates_detailed cands s = (s', (r, j)) ->
  removed r = length cands /\ refreshed r = [].
Proof.
  intros <- [Hnd Hcur]. unfold sys_evict_candidates_detailed, evict_candidates_detailed, try_evict_candidates_detailed.
  destruct (fold_left _ _ _) as [m0 r0] eqn:Hf. intros [= <- <- <-]. simpl. split.
  - apply evict_fold_current in Hf as [-> _]; [simpl; lia|done|done].
  - by apply evict_fold_refreshed in Hf.
Qed.

Lemma entries_needed_bound to_free n : (entries_needed to_free n <= n)%nat.
Proof. unfold entries_needed. lia. Qed.

Lemma entries_needed_pos to_free n : (0 < n)%nat -> (0 < entries_needed to_free n)%nat.
Proof. unfold entries_needed. lia. Qed.

(** Removing as many entries as asked for, and there were enough, frees enough. *)
Lemma entries_needed_enough to_free n :
  0 < to_free -> (entries_needed to_free n < n)%nat -> to_free <= Z.of_nat (entries_needed to_free n) * METADATA_ENTRY_BYTES.
Proof.
  intros Hpos. unfold entries_needed, METADATA_ENTRY_BYTES.
  pose proof (Z.div_mod (to_free + 400 - 1) 400 ltac:(lia)). pose proof (Z.mod_pos_bound (to_free + 400 - 1) 400 ltac:(lia)).
  set (q := (to_free + 400 - 1) / 400) in *. lia.
Qed.

Lemma plan_current target m P plan :
  plan_eviction_to_target_excluding target m P = Some plan ->
  target_bytes plan = target /\ current (metadata_candidates plan) m /\ target < total_bytes (memory_snapshot m) /\
  (P = ∅ -> (0 < size (meta_of m))%nat -> (0 < length (metadata_candidates plan))%nat).
Proof.
  unfold plan_eviction_to_target_excluding. cbn zeta. destruct (Z.leb_spec (total_bytes (memory_snapshot m)) target) as [|Ht]; [done|].
  intros Heq. apply (inj Some) in Heq as <-. cbn [metadata_candidates target_bytes].
  change (metadata_entries (memory_snapshot m)) with (size (meta_of m)).
  assert (oldest_eviction_candidates (sys_metadata (m_system m)) (size (meta_of m)) =
    sort_by candidate_leb (candidates_of (meta_of m))) as ->.
  { unfold oldest_eviction_candidates. fold (candidates_of (meta_of m)).
    assert (length (sort_by candidate_leb (candidates_of (meta_of m))) = size (meta_of m)) as Hl.
    { rewrite sort_by_length. unfold candidates_of. by rewrite length_fmap, length_map_to_list. }
    destruct (Nat.eqb_spec (size (meta_of m)) 0) as [Hz|_].
    - rewrite Hz in Hl. by apply nil_length_inv in Hl.
    - apply take_ge. lia. }
  pose proof (sort_by_perm candidate_leb (candidates_of (meta_of m))) as Hp.
  split_and!; [done| |done|].
  - apply (current_sub (sort_by candidate_leb (candidates_of (meta_of m)))).
    { etrans; [apply sublist_take|apply sublist_filter]. }
    split; [rewrite Hp; apply candidates_of_nodup|intros c; by rewrite Hp].
  - intros -> Hpos. rewrite list_filter_all; [|intros x _; apply not_elem_of_empty].
    rewrite length_take, Hp. unfold candidates_of. rewrite length_fmap, length_map_to_list.
    pose proof (entries_needed_pos (total_bytes (memory_snapshot m) - target) (size (meta_of m)) Hpos).
    pose proof (entries_needed_bound (total_bytes (memory_snapshot m) - target) (size (meta_of m))). lia.
Qed.

(** *** The write phase *)

Definition estimate (m : MemState) : Z := total_bytes (memory_snapshot m).

Lemma estimate_eq m :
  estimate m = Z.of_nat (size (meta_of m)) * 400 + Z.of_nat (size (rows_of m)) * 280
    + Z.of_nat (size (files (m_graph m))) * 600 + Z.of_nat (size (contexts (m_graph m))) * 2048
    + Z.of_nat (size (m_fast m)) * 200 + Z.of_nat (size (m_artifacts m)) * 200 + m_in_flight m.
Proof. done. Qed.

(** What eviction leaves alone. *)
Definition same_rest (m m' : MemState) : Prop :=
  m_artifacts m' = m_artifacts m /\ m_in_flight m' = m_in_flight m.

(** The number of things a write phase can take. *)
Definition evictable (m : MemState) : nat := (size (meta_of m) + size (m_fast m) + size (contexts (m_graph m)))%nat.

Lemma graph_trim_all now g :
  let r := graph_trim 0 now g in
  contexts r.1 = ∅ /\ (r.2 = size (contexts g))%nat /\ (size (files r.1) <= size (files g))%nat.
Proof.
  cbn zeta. unfold graph_trim, trim_at.
  match goal with |- context [evict_contexts ?ks g] => set (keys := ks) end.
  destruct (evict_fields keys g) as (Hcs & _ & _ & _ & Hf & Hn). cbn zeta in *.
  assert (contexts (evict_contexts keys g).1 = ∅) as He.
  { apply map_empty. intros k. rewrite Hcs. case_decide as Hin; [done|].
    destruct (contexts g !! k) as [e|] eqn:Hk; [|done]. destruct Hin. subst keys.
    apply elem_of_keys_filter. exists e. split; [done|]. reflexivity. }
  split_and!; [done|rewrite He, map_size_empty in Hn; lia|]. rewrite Hf. apply map_subseteq_size, map_filter_subseteq.
Qed.

(** Where one write phase ends. *)
Inductive phase_end (now : Z) (plan : MemoryEvictionPlan) (m : MemState) (o : MemoryEvictionOutcome) (m' : MemState) : Prop :=
  | at_target : estimate m' <= target_bytes plan -> contexts (m_graph m') = contexts (m_graph m) -> phase_end now plan m o m'
  | at_metadata : contexts (m_graph m') = contexts (m_graph m) ->
      (current (metadata_candidates plan) m ->
        (length (metadata_candidates plan) <= items_removed o)%nat /\ (0 < size (meta_of m'))%nat /\ o_refreshed o = [] /\
        (evictable m' + length (metadata_candidates plan) <= evictable m)%nat) -> phase_end now plan m o m'
  | at_graph : meta_of m' = ∅ -> contexts (m_graph m') = ∅ -> young now (m_fast m') ->
      target_bytes plan < estimate m' + Z.of_nat (size (contexts (m_graph m))) * DEPGRAPH_CONTEXT_BYTES
        + Z.of_nat (size (files (m_graph m)) - size (files (m_graph m'))) * DEPGRAPH_FILE_BYTES ->
      (current (metadata_candidates plan) m -> o_refreshed o = []) ->
      ((items_removed o = 0 /\ size (meta_of m) = 0) \/ evictable m' < evictable m)%nat -> phase_end now plan m o m'.

Lemma evict_fast_spec now plan m to_free freed items m1 :
  target_bytes plan < estimate m ->
  evict_fast now (estimate m - target_bytes plan) (memory_snapshot m) m = (to_free, freed, items, m1) ->
  m_system m1 = m_system m /\ m_graph m1 = m_graph m /\ same_rest m m1 /\ young now (m_fast m1) /\
  (items + size (m_fast m1) = size (m_fast m))%nat /\ estimate m = freed + estimate m1 /\
  to_free = Z.max 0 (estimate m1 - target_bytes plan).
Proof.
  intros Ht. unfold evict_fast. rewrite (proj2 (Z.ltb_lt _ _)) by lia. cbn [andb fast_hit_entries memory_snapshot].
  destruct (Nat.ltb_spec 0 (size (m_fast m))) as [Hpos|Hz].
  - destruct (trim_fast_hit_cache_two_pass _ _ _) as [f n] eqn:Hf. apply trim_fast_spec in Hf as [Hn Hy].
    intros [= <- <- <- <-]. rewrite !estimate_eq. cbn [m_system m_graph m_fast m_artifacts m_in_flight set_fast].
    unfold saturating_sub, FAST_HIT_ENTRY_BYTES. split_and!; try done; lia.
  - intros [= <- <- <- <-]. assert (m_fast m = ∅) as Hf by (apply map_size_empty_iff; lia).
    split_and!; try done; [|lia..]. rewrite Hf. apply map_Forall_empty.
Qed.

Lemma evict_metadata_spec plan m to_free r freed items refr m1 :
  to_free = Z.max 0 (estimate m - target_bytes plan) ->
  evict_metadata to_free plan m = (r, freed, items, refr, m1) ->
  m_fast m1 = m_fast m /\ m_graph m1 = m_graph m /\ same_rest m m1 /\ estimate m = freed + estimate m1 /\
  (size (meta_of m1) <= size (meta_of m))%nat /\
  (current (metadata_candidates plan) m -> refr = []) /\
  match r with
  | None => current (metadata_candidates plan) m ->
      (0 < size (meta_of m1))%nat /\ (size (meta_of m1) + length (metadata_candidates plan) = size (meta_of m))%nat /\
      (length (metadata_candidates plan) <= items)%nat
  | Some f => f = Z.max 0 (estimate m1 - target_bytes plan) /\ (0 < f -> meta_of m1 = ∅) /\
      ((items = 0 /\ size (meta_of m1) = size (meta_of m)) \/ size (meta_of m1) < size (meta_of m))%nat
  end.
Proof.
  intros Hto. unfold evict_metadata. destruct (Z.ltb_spec 0 to_free) as [Hpos|Hz].
  2:{ cbn [andb]. intros [= <- <- <- <- <-]. split_and!; try done; lia. }
  unfold is_empty. destruct (bool_decide_reflect (meta_of m = ∅)) as [He|Hne]; cbn [andb negb].
  { intros [= <- <- <- <- <-]. split_and!; try done; try lia. }
  assert (0 < size (meta_of m))%nat as Hlen.
  { destruct (size (meta_of m)) eqn:Hs; [|lia]. by apply map_size_empty_iff in Hs. }
  change (len (sys_metadata (m_system m))) with (size (meta_of m)).
  set (need := entries_needed to_free (size (meta_of m))).
  set (sel := take (Nat.min need (length (metadata_candidates plan))) (metadata_candidates plan)).
  destruct (sys_evict_candidates_detailed sel (m_system m)) as [s [res j]] eqn:Hev.
  pose proof (sys_evict_counts _ _ _ _ _ Hev) as [Hc Hj].
  assert (current (metadata_candidates plan) m -> removed res = length sel /\ refreshed res = []) as Hcur.
  { intros Hc0. apply (sys_evict_current sel (m_system m) s res j m); [done| |done].
    eapply current_sub; [apply sublist_take|done]. }
  intros [= <- <- <- <- <-]. rewrite !estimate_eq in *. cbn [m_system m_graph m_fast m_artifacts m_in_flight set_system] in *.
  unfold saturating_sub, METADATA_ENTRY_BYTES, JOURNAL_ENTRY_BYTES.
  pose proof (entries_needed_bound to_free (size (meta_of m))) as Hnb. fold need in Hnb.
  assert (length sel = Nat.min need (length (metadata_candidates plan))) as Hsel
    by (subst sel; rewrite length_take; lia).
  split_and!; try done; [lia|lia| |].
  { intros Hc0. by apply Hcur. }
  destruct (Nat.ltb_spec (removed res) (length sel)) as [Hlt|Hge]; cbn [orb].
  { intros Hc0. destruct (Hcur Hc0) as [Hr _]. lia. }
  destruct (Nat.ltb_spec (length sel) need) as [Hlt|Hge'].
  { intros Hc0. destruct (Hcur Hc0) as [Hr _]. lia. }
  split_and!.
  - lia.
  - intros Hf. apply map_size_empty_iff. destruct (decide (need < size (meta_of m))%nat) as [Hn|Hn]; [|lia].
    pose proof (entries_needed_enough to_free (size (meta_of m)) Hpos Hn) as Hen. fold need in Hen.
    unfold METADATA_ENTRY_BYTES in Hen. lia.
  - pose proof (entries_needed_pos to_free _ Hlen) as Hp. fold need in Hp. right. lia.
Qed.

Lemma evict_graph_spec now_ms to_free m freed items m1 :
  evict_graph now_ms to_free m = (freed, items, m1) ->
  m_fast m1 = m_fast m /\ m_system m1 = m_system m /\ same_rest m m1 /\ estimate m = freed + estimate m1 /\
  (0 < to_free -> contexts (m_graph m1) = ∅ /\ (size (files (m_graph m1)) <= size (files (m_graph m)))%nat /\
     (items = 0 \/ 0 < size (contexts (m_graph m)))%nat) /\
  (to_free <= 0 -> m1 = m /\ items = 0%nat).
Proof.
  unfold evict_graph. destruct (Z.ltb_spec 0 to_free) as [Hpos|Hz].
  2:{ intros [= <- <- <-]. split_and!; try done; lia. }
  destruct (graph_trim_all now_ms (m_graph m)) as (Hc & Hn & Hf). cbn [stats st_context_count].
  destruct (Nat.ltb_spec 0 (size (contexts (m_graph m)))) as [Hlt|Hge].
  - destruct (graph_trim 0 now_ms (m_graph m)) as [g n]. cbn [fst snd] in *. intros [= <- <- <-].
    rewrite !estimate_eq. cbn [m_system m_graph m_fast m_artifacts m_in_flight set_graph st_file_count stats].
    rewrite Hc, map_size_empty, Hn. unfold DEPGRAPH_CONTEXT_BYTES, DEPGRAPH_FILE_BYTES.
    split_and!; try done; try lia. intros _. split_and!; try done; lia.
  - intros [= <- <- <-]. split_and!; try done; try lia. intros _. split_and!; try lia. apply map_size_empty_iff. lia.
Qed.

Lemma evict_call_spec now now_ms plan m o m' :
  target_bytes plan < estimate m ->
  evict_to_budget_with_plan_detailed now now_ms plan m = (o, m') ->
  estimate m = freed_bytes o + estimate m' /\ same_rest m m' /\ phase_end now plan m o m' /\ (evictable m' <= evictable m)%nat.
Proof.
  intros Ht. unfold evict_to_budget_with_plan_detailed. fold (estimate m).
  rewrite (proj2 (Z.leb_gt _ _)) by done.
  destruct (evict_fast _ _ _ _) as [[[to1 freed1] items1] m1] eqn:H1.
  apply evict_fast_spec in H1 as (Hs1 & Hg1 & [Ha1 Hi1] & Hy & Hn1 & He1 & Hto1); [|done].
  destruct (evict_metadata to1 plan m1) as [[[[r freed2] items2] refr] m2] eqn:H2.
  apply evict_metadata_spec in H2 as (Hf2 & Hg2 & [Ha2 Hi2] & He2 & Hle2 & Href & Hr); [|done].
  assert (current (metadata_candidates plan) m -> current (metadata_candidates plan) m1) as Hcur
    by (unfold current; by rewrite Hs1).
  destruct r as [to2|].
  - destruct Hr as (Hto2 & Hempty & Hit2).
    destruct (evict_graph now_ms to2 m2) as [[freed3 items3] m3] eqn:H3.
    apply evict_graph_spec in H3 as (Hf3 & Hs3 & [Ha3 Hi3] & He3 & Hpos & Hneg).
    intros [= <- <-]. cbn [freed_bytes items_removed o_refreshed]. split_and!; [lia|split; congruence| |].
    + destruct (Z.le_gt_cases to2 0) as [Hz|Hp].
      * destruct (Hneg Hz) as [-> ->]. apply at_target; [lia|congruence].
      * destruct (Hpos Hp) as (Hc3 & Hfl & Hit3). specialize (Hempty Hp).
        apply at_graph; cbn [freed_bytes items_removed o_refreshed].
        -- by rewrite Hs3.
        -- done.
        -- by rewrite Hf3, Hf2.
        -- rewrite <- Hg1, <- Hg2. rewrite !estimate_eq in *. rewrite Hc3, map_size_empty in *.
           unfold DEPGRAPH_CONTEXT_BYTES, DEPGRAPH_FILE_BYTES. rewrite Hs3, Hf3, Ha3, Hi3 in *. lia.
        -- auto.
        -- unfold evictable. rewrite Hs3, Hc3, Hf3, Hf2, Hempty, <- Hg1, <- Hg2, <- Hs1, !map_size_empty in *. lia.
    + unfold evictable. rewrite Hs3, Hf3, Hf2, <- Hg1, <- Hg2, <- Hs1.
      destruct (Z.le_gt_cases to2 0) as [Hz|Hp]; [destruct (Hneg Hz) as [-> _]; lia|].
      destruct (Hpos Hp) as (-> & _). rewrite map_size_empty. lia.
  - intros [= <- <-]. cbn [freed_bytes items_removed o_refreshed]. split_and!; [lia|split; congruence| |].
    + apply at_metadata; [congruence|]. cbn [items_removed o_refreshed]. intros Hc%Hcur. destruct (Hr Hc) as (Hp & Hsz & Hl).
      split_and!; [lia|done|by apply Href|]. unfold evictable. rewrite Hg2, Hg1, Hf2, <- Hs1. lia.
    + unfold evictable. rewrite Hg2, Hg1, Hf2, <- Hs1. lia.
Qed.

(** *** The sweep in a quiet daemon *)

Definition quiet (env : Surroundings) : Prop := forall i m, between env i m = m.

(** Nothing is left that the sweep may take. *)
Definition nothing_left (env : Surroundings) (m : MemState) : Prop :=
  meta_of m = ∅ /\ contexts (m_graph m) = ∅ /\ exists i, young (instant env i) (m_fast m).

(** What a finished sweep says and leaves. *)
Definition settled_sweep (env : Surroundings) (target base : Z) (m : MemState) (r : SweepResult) : Prop :=
  exists items, r.1 = Some (base - estimate r.2, items) /\ same_rest m r.2 /\
    (estimate r.2 <= target \/ nothing_left env r.2).

Lemma complete_settles env fuel i plan freed items m :
  quiet env -> current (metadata_candidates plan) m -> target_bytes plan < estimate m ->
  (2 * evictable m + (if decide (metadata_candidates plan = []) then 1 else 0) < fuel)%nat ->
  settled_sweep env (target_bytes plan) (freed + estimate m) m (complete env fuel i plan ∅ freed items m).
Proof.
  intros Hq. revert i plan freed items m. induction fuel as [|fuel IH]; intros i plan freed items m Hcur Ht Hfuel; [lia|].
  cbn [complete]. rewrite !Hq. destruct (evict_to_budget_with_plan_detailed _ _ _ _) as [o m'] eqn:Ho.
  apply evict_call_spec in Ho as (He & Hrest & Hend & Hev); [|done]. rewrite !Hq. fold (estimate m').
  assert (settled_sweep env (target_bytes plan) (freed + estimate m) m
    (Some (freed + freed_bytes o, (items + items_removed o)%nat), m') <->
    (estimate m' <= target_bytes plan \/ nothing_left env m')) as Hdone.
  { unfold settled_sweep. cbn [fst snd]. split; [by intros (? & _ & _ & ?)|].
    intros ?. eexists. split_and!; [f_equal; f_equal; lia|done|done]. }
  destruct (Z.leb_spec (estimate m') (target_bytes plan)) as [Hle|Hgt]; [apply Hdone; by left|].
  assert (o_refreshed o = []) as Href by (destruct Hend as [? ?|? Hm|]; [lia|by apply Hm|auto]).
  rewrite Href. cbn [fmap list_fmap list_to_set]. rewrite (right_id_L ∅ (∪)).
  destruct (plan_eviction_to_target_excluding (target_bytes plan) m' ∅) as [next|] eqn:Hnext.
  2:{ unfold plan_eviction_to_target_excluding in Hnext. fold (estimate m') in Hnext.
      rewrite (proj2 (Z.leb_gt _ _)) in Hnext by done. done. }
  apply plan_current in Hnext as (Htgt & Hcn & _ & Hne). specialize (Hne eq_refl).
  change (metadata_entries (memory_snapshot m')) with (size (meta_of m')).
  assert ((0 <? size (meta_of m'))%nat && (length (metadata_candidates next) =? 0)%nat = false) as ->.
  { destruct (Nat.ltb_spec 0 (size (meta_of m'))) as [Hp|]; [|done]. specialize (Hne Hp).
    destruct (Nat.eqb_spec (length (metadata_candidates next)) 0); [lia|done]. }
  destruct (forced_completion_stalled _ _ _) eqn:Hst.
  { apply Hdone. right. unfold forced_completion_stalled in Hst.
    rewrite !andb_true_iff, !Nat.eqb_eq in Hst. destruct Hst as [[Hit Hhad] Hz].
    destruct Hend as [? ?|? Hm|Hme Hce Hy _ _ _]; [lia|destruct (Hm Hcur); lia|]. by split_and!; eauto. }
  assert (settled_sweep env (target_bytes plan) (freed + estimate m) m
    (complete env fuel (3 + i) next ∅ (freed + freed_bytes o) (items + items_removed o) m')) as Hrec; [|exact Hrec].
  assert (2 * evictable m' + (if decide (metadata_candidates next = []) then 1 else 0) < fuel)%nat as Hfuel'.
  { destruct Hend as [? ?|? Hm|Hme Hce Hy _ _ Hit]; [lia| |].
    - destruct (Hm Hcur) as (_ & Hp & _ & Hsz). specialize (Hne Hp).
      rewrite (decide_False (P := metadata_candidates next = [])) by (intros Hnil; rewrite Hnil in Hne; simpl in Hne; lia).
      destruct (decide (metadata_candidates plan = [])) as [Hnil|Hnn]; [rewrite Hnil in Hsz; simpl in Hsz; lia|].
      destruct (metadata_candidates plan); [done|]. simpl in Hsz. lia.
    - assert (evictable m' < evictable m)%nat as Hlt; [|repeat case_decide; lia].
      destruct Hit as [[Hz Hm0]|]; [|done]. unfold forced_completion_stalled in Hst.
      rewrite Hz, Hme, map_size_empty, Nat.eqb_refl in Hst. cbn [andb] in Hst. rewrite andb_true_r in Hst.
      apply negb_false_iff, Nat.ltb_lt in Hst. apply map_size_empty_iff in Hm0. destruct Hcur as [_ Hcur].
      destruct (metadata_candidates plan) as [|[p t] l]; [simpl in Hst; lia|].
      assert (mkCandidate p t ∈ candidates_of (meta_of m)) as (e & Hp & _)%candidates_of_elem by (apply Hcur; by left).
      by rewrite Hm0 in Hp. }
  rewrite <- Htgt in Hgt |- *. destruct (IH (3 + i)%nat next (freed + freed_bytes o) (items + items_removed o)%nat m')
    as (it & Hr & [Hra Hri] & Hor); [done|done|done|].
  exists it. split_and!; [|destruct Hrest; split; congruence|done]. rewrite Hr. do 2 f_equal. lia.
Qed.

(** *** The gentle phase *)

Lemma drop_min {A} (n : nat) (l : list A) : drop (Nat.min n (length l)) l = drop n l.
Proof.
  destruct (decide (n <= length l)%nat); [by rewrite Nat.min_l|].
  rewrite Nat.min_r by lia. by rewrite !drop_ge by lia.
Qed.

Lemma batch_selected (l : list EvictionCandidate) offset k :
  let start := Nat.min offset (length l) in
  take (Nat.min (start + k) (length l) - start) (drop start l) = take k (drop offset l).
Proof.
  cbn zeta. rewrite drop_min. destruct (decide (length (drop offset l) <= k)%nat) as [Hle|Hgt].
  - rewrite !take_ge; [done|done|]. rewrite length_drop in *. lia.
  - f_equal. rewrite length_drop in Hgt. lia.
Qed.

(** Candidates that were busy, and those not tried, stay current; nothing is
    reported as refreshed. *)
Lemma try_evict_current lock sel rest m s r :
  current (sel ++ rest) m -> sys_try_evict_candidates_detailed lock sel (m_system m) = (s, r) ->
  current (busy r ++ rest) (set_system s m) /\ refreshed r = [] /\
  (removed r + size (Metadata.entries (sys_metadata s)) = size (meta_of m))%nat /\ sys_journal s = sys_journal (m_system m).
Proof.
  intros [Hnd Hc]. unfold sys_try_evict_candidates_detailed, try_evict_candidates_detailed.
  destruct (fold_left _ _ _) as [m0 r0] eqn:Hf. intros [= <- <-]. simpl.
  pose proof (evict_fold_count _ _ _ _ _ _ Hf) as [Hs Hb]. simpl in Hb.
  rewrite fmap_app, NoDup_app in Hnd. destruct Hnd as (Hn1 & Hdisj & Hn2).
  split_and!; [|apply (evict_fold_refreshed _ _ _ _ _ _ Hf Hn1); set_solver|simpl in Hs; lia|done].
  rewrite Hb. split.
  - rewrite fmap_app, NoDup_app. split_and!; [| |done].
    + eapply sublist_NoDup; [exact Hn1|]. apply fmap_sublist, sublist_filter.
    + intros p (c & -> & [_ Hin]%list_elem_of_filter)%list_elem_of_fmap. apply Hdisj, list_elem_of_fmap. eauto.
  - intros [p t] Hin. simpl.
    assert (mkCandidate p t ∈ candidates_of (meta_of m)) as (e & He & Ht)%candidates_of_elem.
    { apply Hc. apply elem_of_app in Hin as [[_ ?]%list_elem_of_filter|?]; apply elem_of_app; auto. }
    apply candidates_of_elem. exists e. split; [|done].
    destruct (evict_fold_lookup _ _ _ _ _ _ Hf p) as [->|(_ & Hl & e' & _ & Hin')]; [done|exfalso].
    apply elem_of_app in Hin as [[Hlock _]%list_elem_of_filter|Hr]; [simpl in Hlock; congruence|].
    apply (Hdisj p); apply list_elem_of_fmap; by eexists (mkCandidate p _).
Qed.

(** What the loop of the sweep keeps while it is gentle. *)
Definition sweep_inv (plan : MemoryEvictionPlan) (st : Sweep) (m : MemState) : Prop :=
  current (busy_candidates st ++ drop (candidate_offset st) (metadata_candidates plan)) m /\ s_protected st = ∅.

Lemma gentle_round_inv env i plan st m st' m' :
  quiet env -> sweep_inv plan st m -> gentle_round env i plan st m = (st', m') ->
  sweep_inv plan st' m' /\ s_freed st' + estimate m' = s_freed st + estimate m /\
  (evictable m' <= evictable m)%nat /\ same_rest m m'.
Proof.
  intros Hq [Hcur Hp]. unfold gentle_round, try_evict_metadata_plan. cbn zeta. rewrite batch_selected.
  set (b := MEMORY_GC_GENTLE_BATCH). set (rest := drop (candidate_offset st) (metadata_candidates plan)) in *.
  destruct (sys_try_evict_candidates_detailed _ (take b rest) _) as [s r] eqn:Hev. rewrite !Hq.
  intros [= <- <-]. unfold sweep_inv. cbn [busy_candidates candidate_offset s_protected s_freed g_busy g_refreshed g_freed_bytes].
  apply (try_evict_current _ _ (busy_candidates st ++ drop b rest) m) in Hev as (Hc' & -> & Hs & Hj).
  2:{ eapply (current_perm (busy_candidates st ++ rest)); [|done].
      rewrite <- (take_drop b rest) at 1. by rewrite !app_assoc, (Permutation_app_comm (busy_candidates st)). }
  subst rest. rewrite drop_drop in Hc'. rewrite !estimate_eq. unfold evictable, METADATA_ENTRY_BYTES.
  cbn [m_system m_graph m_fast m_artifacts m_in_flight set_system]. rewrite Hj.
  split_and!; [|set_solver|lia|lia|done].
  eapply current_perm; [|exact Hc']. by rewrite !app_assoc, (Permutation_app_comm (busy r)).
Qed.

(** *** The target *)

Lemma round53_bound m : 0 <= m -> 0 <= round53 m /\ 2 ^ 53 * round53 m <= (2 ^ 53 + 1) * m.
Proof.
  intros Hm. unfold round53. set (d := Z.max 0 (Z.log2 m - 52)).
  assert (0 < 2 ^ d) as Hd by (apply Z.pow_pos_nonneg; lia).
  pose proof (Z.div_mod m (2 ^ d) ltac:(lia)) as Hdm. pose proof (Z.mod_pos_bound m (2 ^ d) Hd) as Hr.
  assert (0 <= m / 2 ^ d) as Hq by (apply Z.div_pos; lia).
  destruct (Z.le_gt_cases (Z.log2 m) 52) as [Hlog|Hlog].
  - replace (2 ^ d) with 1 in * by (subst d; rewrite Z.max_l by lia; done).
    rewrite (proj2 (Z.ltb_ge 1 _)) by lia. rewrite (proj2 (Z.eqb_neq _ 1)) by lia. cbn [orb andb]. lia.
  - assert (2 ^ 52 * 2 ^ d <= m).
    { rewrite <- Z.pow_add_r by lia. replace (52 + d) with (Z.log2 m) by lia. apply Z.log2_spec.
      destruct (Z.eq_dec m 0) as [->|]; [simpl in Hlog; lia|lia]. }
    set (q := m / 2 ^ d) in *. set (r := m mod 2 ^ d) in *. set (e := 2 ^ d) in *.
    destruct (Z.ltb_spec e (2 * r)); cbn [orb]; [nia|].
    destruct (Z.eqb_spec (2 * r) e); cbn [andb]; [destruct (Z.odd q)|]; nia.
Qed.

Lemma ninety_percent_le budget : 0 <= budget -> ninety_percent budget <= budget.
Proof.
  intros Hb. unfold ninety_percent. destruct (round53_bound budget Hb) as [H0 H1].
  destruct (round53_bound (round53 budget * POINT_NINE_MANTISSA)) as [H2 H3]; [unfold POINT_NINE_MANTISSA; lia|].
  set (x := round53 budget) in *. set (y := round53 (x * POINT_NINE_MANTISSA)) in *. unfold POINT_NINE_MANTISSA in H3.
  apply Z.div_le_upper_bound; lia.
Qed.

Example ninety_percent_of_a_gigabyte : ninety_percent GIB = 966367641 /\ ninety_percent 1000 = 900 /\ ninety_percent 1 = 0.
Proof. by vm_compute. Qed.

Lemma settled_sweep_trans env target base base' m m' r :
  base' = base -> same_rest m m' -> settled_sweep env target base' m' r -> settled_sweep env target base m r.
Proof.
  intros -> [Ha Hi] (items & Hr & [Ha' Hi'] & Hor). exists items. split_and!; [done|split; congruence|done].
Qed.

(** The sweep is over when it is forced. *)
Lemma force_completion_settles env cfuel i plan st m :
  quiet env -> sweep_inv plan st m -> (2 * evictable m + 1 < cfuel)%nat ->
  settled_sweep env (target_bytes plan) (s_freed st + estimate m) m (force_completion env cfuel i plan st m).
Proof.
  intros Hq [Hcur Hp] Hfuel. unfold force_completion.
  destruct (cleanup_journal (m_system m)) as [s j] eqn:Hcl. rewrite !Hq.
  assert (sys_metadata s = sys_metadata (m_system m) /\
    (j + size (last_change (sys_journal s)) = size (rows_of m))%nat) as [Hs Hj].
  { unfold cleanup_journal in Hcl. injection Hcl as <- <-. split; [done|]. apply map_size_removed. }
  set (m' := set_system s m). fold (estimate m').
  assert (s_freed st + estimate m = s_freed st + Z.of_nat j * JOURNAL_ENTRY_BYTES + estimate m') as ->.
  { rewrite !estimate_eq. subst m'. cbn [m_system m_graph m_fast m_artifacts m_in_flight set_system].
    rewrite Hs. unfold JOURNAL_ENTRY_BYTES. lia. }
  destruct (Z.leb_spec (estimate m') (target_bytes plan)) as [Hle|Hgt].
  - eexists. split_and!; [|done|by left]. cbn [fst snd]. do 2 f_equal. lia.
  - rewrite Hp. apply (settled_sweep_trans _ _ _ _ m m' _ eq_refl); [done|]. apply (complete_settles env cfuel (2 + i)
      (completion_from plan (candidate_offset st) (busy_candidates st))); [done| |done|].
    + unfold completion_from. cbn [metadata_candidates]. rewrite drop_min. unfold current, m'.
      cbn [m_system set_system]. by rewrite Hs.
    + assert (evictable m' = evictable m) as ->; [|case_decide; lia].
      unfold evictable, m'. cbn [m_system m_graph m_fast set_system]. by rewrite Hs.
Qed.

Lemma sweep_loop_settles env n fuel cfuel started i plan st m :
  quiet env -> sweep_inv plan st m -> (2 * evictable m + 1 < cfuel)%nat -> (n < fuel)%nat ->
  (active_requests env (i + 2 * n) = 0%nat \/
   MEMORY_GC_FORCE_AFTER <= saturating_duration_since (instant env (i + 2 * n)) started) ->
  settled_sweep env (target_bytes plan) (s_freed st + estimate m) m (sweep_loop env fuel cfuel started i plan st m).
Proof.
  intros Hq. revert fuel i st m. induction n as [|n IH]; intros fuel i st m Hinv Hcf Hf Hforce;
    (destruct fuel as [|fuel]; [lia|]); cbn [sweep_loop]; rewrite !Hq;
    destruct ((active_requests env i =? 0)%nat || _) eqn:Hnow; try by apply force_completion_settles.
  - rewrite Nat.add_0_r in Hforce. apply orb_false_iff in Hnow as [Ha He].
    apply Nat.eqb_neq in Ha. apply Z.leb_gt in He. destruct Hforce; [done|lia].
  - assert (i + 2 * S n = 2 + i + 2 * n)%nat as Hi by lia. rewrite Hi in Hforce.
    destruct (_ <? MEMORY_GC_IDLE_GRACE); [apply IH; [done|done|lia|done]|].
    destruct (gentle_finished st); [apply IH; [done|done|lia|done]|].
    destruct (gentle_round env i plan st m) as [st' m'] eqn:Hg.
    apply gentle_round_inv in Hg as (Hinv' & He & Hev & Hrest); [|done..].
    eapply settled_sweep_trans; [exact He|done|]. apply IH; [done|lia|lia|done].
Qed.

(** C36: A sweep in a daemon where nothing else touches the caches ends, says how much it freed, and
    reaches its goal.  It ends at the first look at which no request is in progress or five seconds have
    passed, however many gentle batches came before it and whatever shards were locked; the bytes it reports
    are the difference of the estimates; artifacts and writes in flight are left alone; and afterwards the
    estimate is at ninety percent of the budget or less, unless the metadata cache and the dependency graph
    are empty and every fast hit is at most five seconds old.  Below the budget nothing happens. *)
Theorem memory_sweep_settles (env : Surroundings) (n fuel cfuel : nat) (budget : Z) (m : MemState) :
  quiet env -> 0 <= budget -> (n < fuel)%nat -> (2 * evictable m + 1 < cfuel)%nat ->
  (active_requests env (1 + 2 * n) = 0%nat \/
   MEMORY_GC_FORCE_AFTER <= saturating_duration_since (instant env (1 + 2 * n)) (instant env 0)) ->
  let r := run_memory_eviction_pass env fuel cfuel budget m in
  if estimate m <=? budget then r = (Some (0, 0%nat), m)
  else (exists items, r.1 = Some (estimate m - estimate r.2, items)) /\
       m_artifacts r.2 = m_artifacts m /\ m_in_flight r.2 = m_in_flight m /\
       (estimate r.2 <= ninety_percent budget \/
        (meta_of r.2 = ∅ /\ contexts (m_graph r.2) = ∅ /\ exists i, young (instant env i) (m_fast r.2))).
Proof.
  intros Hq Hb Hn Hc Hforce. cbn zeta. unfold run_memory_eviction_pass, plan_eviction_to_budget. rewrite Hq.
  fold (estimate m). destruct (Z.leb_spec (estimate m) budget) as [|Hgt]; [done|].
  pose proof (ninety_percent_le budget Hb) as Hle.
  destruct (plan_eviction_to_target_excluding (ninety_percent budget) m ∅) as [plan|] eqn:Hplan.
  2:{ unfold plan_eviction_to_target_excluding in Hplan. fold (estimate m) in Hplan.
      rewrite (proj2 (Z.leb_gt _ _)) in Hplan by lia. done. }
  apply plan_current in Hplan as (<- & Hcur & _).
  destruct (sweep_loop_settles env n fuel cfuel (instant env 0) 1 plan (mkSweep 0 0 0 false [] ∅) m)
    as (items & Hr & [Ha Hi] & Hor); [done|by split|done|done|done|]. eauto.
Qed.

(** The dependency graph, which costs a whole rebuild, goes last.  A write phase removes contexts
    only when the metadata cache is empty, every fast hit older than five seconds is gone, and the estimate
    without them was still above the target; in every other case the graph is as before.  And each phase reports
    exactly the bytes it freed. *)
Theorem graph_evicted_last (now now_ms : Z) (plan : MemoryEvictionPlan) (m : MemState) :
  let r := evict_to_budget_with_plan_detailed now now_ms plan m in
  estimate m = freed_bytes r.1 + estimate r.2 /\
  (contexts (m_graph r.2) = contexts (m_graph m) \/
   (meta_of r.2 = ∅ /\ young now (m_fast r.2) /\ contexts (m_graph r.2) = ∅ /\
    target_bytes plan < estimate r.2
      + Z.of_nat (size (contexts (m_graph m))) * DEPGRAPH_CONTEXT_BYTES
      + Z.of_nat (size (files (m_graph m)) - size (files (m_graph r.2))) * DEPGRAPH_FILE_BYTES)).
Proof.
  cbn zeta. destruct (Z.leb_spec (estimate m) (target_bytes plan)) as [Hle|Hgt].
  { unfold evict_to_budget_with_plan_detailed. fold (estimate m). rewrite (proj2 (Z.leb_le _ _)) by done.
    split; [done|by left]. }
  destruct (evict_to_budget_with_plan_detailed now now_ms plan m) as [o m'] eqn:Ho.
  apply evict_call_spec in Ho as (He & _ & Hend & _); [|done]. split; [done|].
  destruct Hend as [? ?|? ?|]; auto 10.
Qed.

(** ** An example: three cached stats, one of them in a locked shard *)

Definition demo_mem : MemState :=
  let meta := list_to_map [("/a", mkMeta 1 1 High 10 None); ("/b", mkMeta 1 1 High 20 None); ("/c", mkMeta 1 1 Low 30 None)] in
  mkMem (mkSystem (set_entries meta false MetadataCache_new) ChangeJournal_new)
    (mkGraph ∅ ∅ ∅ ∅ ∅ 0 0 0 false) {["ctx" := mkFastHit 3 "aa" 0]} ∅ 0.

(** A request stays in progress; one second passes per step. *)
Definition demo_surroundings : Surroundings :=
  mkSurroundings (fun _ m => m) (fun i => Z.of_nat i * SECOND) (fun _ => 0) (fun _ => 1%nat)
    (fun _ p => bool_decide (p = "/a")).

(** The sweep of [demo_mem] to 90% of 800 bytes: the gentle round takes [/b], the forced one finds the fast hit
    old and retries the busy [/a]. *)
Example demo_sweep :
  let r := run_memory_eviction_pass demo_surroundings 3 12 800 demo_mem in
  r.1 = Some (1000, 3%nat) /\ estimate r.2 = 400 /\ map_to_list (meta_of r.2) = [("/c", mkMeta 1 1 Low 30 None)].
Proof. vm_compute. split_and!; reflexivity. Qed.

Lemma memory_sweep_settles_witness :
  let r := run_memory_eviction_pass demo_surroundings 3 12 800 demo_mem in
  if estimate demo_mem <=? 800 then r = (Some (0, 0%nat), demo_mem)
  else (exists items, r.1 = Some (estimate demo_mem - estimate r.2, items)) /\
       m_artifacts r.2 = m_artifacts demo_mem /\ m_in_flight r.2 = m_in_flight demo_mem /\
       (estimate r.2 <= ninety_percent 800 \/
        (meta_of r.2 = ∅ /\ contexts (m_graph r.2) = ∅ /\ exists i, young (instant demo_surroundings i) (m_fast r.2))).
Proof.
  apply (memory_sweep_settles demo_surroundings 2 3 12 800 demo_mem).
  - intros i m. reflexivity.
  - lia.
  - lia.
  - vm_compute. lia.
  - right. vm_compute. discriminate.
Defined.
