(* ===== verification/Fingerprint.v ===== *)
(** * Fingerprint caches ([zccache-fingerprint/src/])

    "Has this set of files changed since the last successful run?", answered from
    a cache file: [persist.rs] (the two formats, the pending snapshot and its
    promotion), [two_layer.rs] (per file, stat first and hash second) and
    [hash_cache.rs] (one digest of everything), with the crash points of a
    promotion and any interleaving of check/mark cycles on one cache file.

    JSON is a parameter ([serde_json]): a type of documents with a codec per
    format.  Reads and writes of the cache file happen under its lock and
    succeed; the source files do not change while one check reads them. *)

From stdpp Require Import list strings gmap.
From Stdlib Require Import Lia Bool.
From S2P Require Import Prelude Path RustStr Hash Metadata.

#[local] Open Scope Z_scope.

(** ** Decisions ([decision.rs]) *)

Inductive RunReason := NoCacheFile | CacheCorrupt | PreviousFailure | ContentChanged.
Inductive CacheDecision := Skip | Run (reason : RunReason).

Definition should_skip (d : CacheDecision) : bool := match d with Skip => true | Run _ => false end.
Definition should_run (d : CacheDecision) : bool := match d with Skip => false | Run _ => true end.

Inductive FingerprintError := FpIo | FpJson | FpScan | NoPendingData.

(** ** The two formats ([persist.rs]) *)

Record ScannedFile := mkScanned { absolute : NormalizedPath; relative : bytes }.

Definition CACHE_VERSION : Z := 1.

Record FpFileEntry := mkEntry { mtime_ns : Z; e_size : Z; e_hash : bytes }.
#[global] Instance FileEntry_eq_dec : EqDecision FpFileEntry.
Proof. solve_decision. Defined.

Record TwoLayerData := mkTwoLayer {
  tl_version : Z; tl_status : bytes; tl_timestamp_ns : Z; tl_files : gmap bytes FpFileEntry; tl_max_source_mtime_ns : Z }.
#[global] Instance TwoLayerData_eq_dec : EqDecision TwoLayerData.
Proof. solve_decision. Defined.

Record HashCacheData := mkHashData {
  hc_version : Z; hc_hash : bytes; hc_status : bytes; hc_timestamp_ns : Z; hc_file_count : nat; hc_max_source_mtime_ns : Z }.
#[global] Instance HashCacheData_eq_dec : EqDecision HashCacheData.
Proof. solve_decision. Defined.

Definition TwoLayerData_new (status : bytes) (files : gmap bytes FpFileEntry) (now : Z) : TwoLayerData :=
  mkTwoLayer CACHE_VERSION status now files (map_fold (fun _ e m => Z.max (mtime_ns e) m) 0 files).
Definition HashCacheData_with_max_mtime (hash status : bytes) (file_count : nat) (max_source_mtime_ns now : Z) : HashCacheData :=
  mkHashData CACHE_VERSION hash status now file_count max_source_mtime_ns.

(** A JSON document and the derived codec of a format. *)
Class Serde (J T : Type) := {
  to_json : T -> J;
  from_json : J -> option T;
  from_to_json : forall x, from_json (to_json x) = Some x;
}.

(** What a commit stamps. *)
Class Stamped (T : Type) := { stamp : bytes -> Z -> T -> T }.
#[global] Instance TwoLayer_stamped : Stamped TwoLayerData :=
  {| stamp s now d := mkTwoLayer (tl_version d) s now (tl_files d) (tl_max_source_mtime_ns d) |}.
#[global] Instance HashCache_stamped : Stamped HashCacheData :=
  {| stamp s now d := mkHashData (hc_version d) (hc_hash d) s now (hc_file_count d) (hc_max_source_mtime_ns d) |}.

(** The cache file with its mtime, and the pending snapshot beside it. *)
Record CacheDir (J : Type) := mkCacheDir { cache_file : option (J * Z); pending_file : option J }.
Arguments mkCacheDir {J} _ _.
Arguments cache_file {J} _.
Arguments pending_file {J} _.

Definition pending_path (cache_path : bytes) : NormalizedPath := NormalizedPath_new (with_extension cache_path "pending").

Section persist.
Context {J T : Type} `{Serde J T} `{EqDecision T} `{Stamped T}.

(** [read_json] of the cache file, and [read_pending]. *)
Definition read_json (d : CacheDir J) : option T := '(j, _) ← cache_file d; from_json j.
Definition read_pending (d : CacheDir J) : option T := j ← pending_file d; from_json j.

Definition write_pending (data : T) (d : CacheDir J) : CacheDir J := mkCacheDir (cache_file d) (Some (to_json data)).

(** [write_atomic_inner] on the cache file by its effects: the temporary file,
    the removal of the target, the renaming. *)
Inductive WriteStep := WriteTmp | RemoveTarget | RenameTmp | RemovePending.
Definition write_step (data : T) (now : Z) (d : CacheDir J) (s : WriteStep) : CacheDir J :=
  match s with
  | WriteTmp => d
  | RemoveTarget => mkCacheDir None (pending_file d)
  | RenameTmp => mkCacheDir (Some (to_json data, now)) (pending_file d)
  | RemovePending => mkCacheDir (cache_file d) None
  end.

Definition commit_steps (claimed : T) (d : CacheDir J) : list WriteStep :=
  let still_ours := bool_decide (read_pending d = Some claimed) in
  [WriteTmp; RemoveTarget; RenameTmp] ++ (if still_ours then [RemovePending] else []).

(** [commit_pending], cut off after [k] of its effects. *)
Definition commit_pending_upto (k : nat) (claimed : T) (status : bytes) (now : Z) (d : CacheDir J) : CacheDir J :=
  fold_left (write_step (stamp status now claimed) now) (take k (commit_steps claimed d)) d.
Definition commit_pending (claimed : T) (status : bytes) (now : Z) (d : CacheDir J) : CacheDir J :=
  commit_pending_upto (length (commit_steps claimed d)) claimed status now d.

Definition remove_cache (d : CacheDir J) : CacheDir J := mkCacheDir None None.

(** [promote_with_status]: the snapshot this value staged, else the one on disk. *)
Definition promote_with_status (status : bytes) (now : Z) (staged : option T) (d : CacheDir J) :
    (FingerprintError + unit) * option T * CacheDir J :=
  match (match staged with Some data => Some data | None => read_pending d end) with
  | None => (inl NoPendingData, None, d)
  | Some claimed => (inr tt, None, commit_pending claimed status now d)
  end.
End persist.

(** ** The source files *)

Abbreviation Sources := (gmap NormalizedPath FileState).

Definition mtime_ns_of (f : FileState) : Z := Z.max 0 (f_mtime f).

(** [persist::mtime_ns], [persist::file_size], [hash_file]: [None] for an I/O error. *)
Definition file_mtime_ns (src : Sources) (p : NormalizedPath) : option Z := mtime_ns_of <$> src !! p.
Definition file_size (src : Sources) (p : NormalizedPath) : option Z := f_size <$> src !! p.
Definition hash_file_hex {B3 : Blake3} (src : Sources) (p : NormalizedPath) : option bytes :=
  (fun f => to_hex (hash_bytes (f_content f))) <$> src !! p.

Fixpoint max_mtime_from (src : Sources) (max : Z) (files : list ScannedFile) : option Z :=
  match files with
  | [] => Some max
  | f :: files => mt ← file_mtime_ns src (absolute f); max_mtime_from src (if max <? mt then mt else max) files
  end.
Definition max_mtime_ns (src : Sources) (files : list ScannedFile) : option Z := max_mtime_from src 0 files.

(** Collecting results: the first error wins. *)
Definition collect_results {A B} (f : A -> option B) (l : list A) : FingerprintError + list B :=
  match mapM f l with Some r => inr r | None => inl FpIo end.

(** ** [TwoLayerCache] ([two_layer.rs]) *)

(** A map filled in order: a later entry for a name replaces an earlier one. *)
Definition entries_map (l : list (bytes * FpFileEntry)) : gmap bytes FpFileEntry :=
  foldl (fun m x => <[x.1 := x.2]> m) ∅ l.

Section two_layer.
Context {J : Type} `{Serde J TwoLayerData} {B3 : Blake3}.

Definition full_entry (src : Sources) (file : ScannedFile) : option (bytes * FpFileEntry) :=
  mtime ← file_mtime_ns src (absolute file);
  size ← file_size src (absolute file);
  hash ← hash_file_hex src (absolute file);
  Some (relative file, mkEntry mtime size hash).
Definition compute_all (src : Sources) (files : list ScannedFile) : FingerprintError + gmap bytes FpFileEntry :=
  match collect_results (full_entry src) files with
  | inl e => inl e
  | inr l => inr (entries_map l)
  end.

(** The stat, and the hash where it is needed, of one file; with whether its
    content changed. *)
Definition check_file (src : Sources) (cached_files : gmap bytes FpFileEntry) (file : ScannedFile) :
    option (bytes * FpFileEntry * bool) :=
  mtime ← file_mtime_ns src (absolute file);
  size ← file_size src (absolute file);
  match cached_files !! relative file with
  | Some cached_entry =>
      if (mtime_ns cached_entry =? mtime) && (e_size cached_entry =? size)
      then Some (relative file, cached_entry, false)
      else
        hash ← hash_file_hex src (absolute file);
        Some (relative file, mkEntry mtime size hash, negb (bool_decide (hash = e_hash cached_entry)))
  | None =>
      hash ← hash_file_hex src (absolute file);
      Some (relative file, mkEntry mtime size hash, true)
  end.

Definition tl_try_mtime_fast_path (src : Sources) (files : list ScannedFile) (d : CacheDir J) : option TwoLayerData :=
  '(_, cache_mtime) ← cache_file d;
  max_source_mtime ← max_mtime_ns src files;
  if cache_mtime <=? max_source_mtime then None
  else
    data ← read_json (T := TwoLayerData) d;
    if bool_decide (tl_status data = "success") && (size (tl_files data) =? length files)%nat
       && (tl_max_source_mtime_ns data =? max_source_mtime)
    then Some data else None.

(** Staging a snapshot: on disk and in the value. *)
Definition tl_stage (now : Z) (entries : gmap bytes FpFileEntry) (d : CacheDir J) : option TwoLayerData * CacheDir J :=
  let pending := TwoLayerData_new "pending" entries now in (Some pending, write_pending pending d).

Definition tl_check (src : Sources) (now : Z) (files : list ScannedFile) (staged : option TwoLayerData) (d : CacheDir J) :
    (FingerprintError + CacheDecision) * option TwoLayerData * CacheDir J :=
  match tl_try_mtime_fast_path src files d with
  | Some data => (inr Skip, Some data, d)
  | None =>
      let run_all reason :=
        match compute_all src files with
        | inl e => (inl e, staged, d)
        | inr entries => let '(s, d) := tl_stage now entries d in (inr (Run reason), s, d)
        end in
      match read_json (T := TwoLayerData) d with
      | None => run_all NoCacheFile
      | Some data =>
          if bool_decide (tl_status data = "failure") then run_all PreviousFailure
          else
            match collect_results (check_file src (tl_files data)) files with
            | inl e => (inl e, staged, d)
            | inr results =>
                let changed := existsb snd results in
                let entries := entries_map results.*1 in
                let changed := changed || bool_decide (map_Exists (fun k _ => entries !! k = None) (tl_files data)) in
                let '(s, d) := tl_stage now entries d in
                (inr (if changed then Run ContentChanged else Skip), s, d)
            end
      end
  end.
End two_layer.

(** ** [HashCache] ([hash_cache.rs]) *)

Definition read_file (src : Sources) (f : ScannedFile) : option (bytes * bytes) :=
  (fun s => (relative f, f_content s)) <$> src !! absolute f.

(** The bytes that are fed to the hasher. *)
Definition aggregate_preimage (contents : list (bytes * bytes)) : bytes :=
  let fed := fold_left (fun s x => stream_update (stream_update (stream_update s x.1) nul) x.2) contents
               (stream_update stream_new "zccache-fingerprint-v1") in
  Hash.fed (stream_update (stream_update fed (nul +:+ "file_count:")) (le_bytes 8 (Z.of_nat (length contents)))).

Section hash_cache.
Context {J : Type} `{Serde J HashCacheData} {B3 : Blake3}.

Definition compute_aggregate_hash (src : Sources) (files : list ScannedFile) : FingerprintError + bytes :=
  match collect_results (read_file src) files with
  | inl e => inl e
  | inr contents => inr (to_hex (blake3 (aggregate_preimage contents)))
  end.

Definition hc_try_mtime_fast_path (src : Sources) (files : list ScannedFile) (d : CacheDir J) : option HashCacheData :=
  '(_, cache_mtime) ← cache_file d;
  max_source_mtime ← max_mtime_ns src files;
  if cache_mtime <=? max_source_mtime then None
  else
    data ← read_json (T := HashCacheData) d;
    if bool_decide (hc_status data = "success") && (hc_file_count data =? length files)%nat
       && (hc_max_source_mtime_ns data =? max_source_mtime)
    then Some data else None.

Definition hc_check (src : Sources) (now : Z) (files : list ScannedFile) (staged : option HashCacheData) (d : CacheDir J) :
    (FingerprintError + CacheDecision) * option HashCacheData * CacheDir J :=
  match hc_try_mtime_fast_path src files d with
  | Some data => (inr Skip, Some data, d)
  | None =>
      match compute_aggregate_hash src files with
      | inl e => (inl e, staged, d)
      | inr current_hash =>
          let max_source_mtime := default 0 (max_mtime_ns src files) in
          let decision :=
            match read_json (T := HashCacheData) d with
            | None => Run NoCacheFile
            | Some data =>
                if bool_decide (hc_status data = "failure") then Run PreviousFailure
                else if bool_decide (hc_hash data = current_hash) then Skip else Run ContentChanged
            end in
          let pending := HashCacheData_with_max_mtime current_hash "pending" (length files) max_source_mtime now in
          (inr decision, Some pending, write_pending pending d)
      end
  end.
End hash_cache.

(** ** Cycles on one cache file

    Values ([TwoLayerCache] in threads or processes) check and mark in any order,
    the sources change in between, a mark may be cut off at any of its effects, and
    a value may be gone.  The trace keeps what was checked and what was marked. *)

Inductive FpOp :=
  | OpEdit (src : Sources)
  | OpCheck (value : nat) (files : list ScannedFile) (now : Z)
  | OpMark (value : nat) (success : bool) (now : Z)
  | OpMarkCrash (value : nat) (success : bool) (effects : nat) (now : Z)
  | OpInvalidate (value : nat)
  | OpGone (value : nat).

Inductive FpEvent :=
  | EChecked (src : Sources) (files : list ScannedFile) (snapshot : gmap bytes FpFileEntry)
  | EMarked (success : bool) (snapshot : gmap bytes FpFileEntry).

Record FpState (J : Type) := mkFpState {
  fp_src : Sources; fp_dir : CacheDir J; fp_values : gmap nat TwoLayerData; fp_trace : list FpEvent }.
Arguments mkFpState {J} _ _ _ _.
Arguments fp_src {J} _.
Arguments fp_dir {J} _.
Arguments fp_values {J} _.
Arguments fp_trace {J} _.

Definition status_of (success : bool) : bytes := if success then "success" else "failure".
Definition put_staged {A} (i : nat) (s : option A) (m : gmap nat A) : gmap nat A :=
  match s with Some d => <[i := d]> m | None => delete i m end.

Section cycles.
Context {J : Type} `{Serde J TwoLayerData} {B3 : Blake3}.

Definition fp_step (st : FpState J) (op : FpOp) : FpState J :=
  match op with
  | OpEdit src => mkFpState src (fp_dir st) (fp_values st) (fp_trace st)
  | OpCheck i files now =>
      let '(r, staged, d) := tl_check (fp_src st) now files (fp_values st !! i) (fp_dir st) in
      let ev := match tl_try_mtime_fast_path (fp_src st) files (fp_dir st), r, staged with
                | None, inr _, Some data => [EChecked (fp_src st) files (tl_files data)]
                | _, _, _ => []
                end in
      mkFpState (fp_src st) d (put_staged i staged (fp_values st)) (fp_trace st ++ ev)
  | OpMark i success now =>
      let claimed := match fp_values st !! i with Some data => Some data | None => read_pending (fp_dir st) end in
      let '(_, staged, d) := promote_with_status (status_of success) now (fp_values st !! i) (fp_dir st) in
      let ev := match claimed with Some data => [EMarked success (tl_files data)] | None => [] end in
      mkFpState (fp_src st) d (put_staged i staged (fp_values st)) (fp_trace st ++ ev)
  | OpMarkCrash i success k now =>
      match (match fp_values st !! i with Some data => Some data | None => read_pending (fp_dir st) end) with
      | Some data =>
          mkFpState (fp_src st) (commit_pending_upto k data (status_of success) now (fp_dir st))
            (delete i (fp_values st)) (fp_trace st ++ [EMarked success (tl_files data)])
      | None => st
      end
  | OpInvalidate i => mkFpState (fp_src st) (remove_cache (fp_dir st)) (delete i (fp_values st)) (fp_trace st)
  | OpGone i => mkFpState (fp_src st) (fp_dir st) (delete i (fp_values st)) (fp_trace st)
  end.

Definition fp_init (src : Sources) : FpState J := mkFpState src (mkCacheDir None None) ∅ [].
Definition fp_run (src : Sources) (ops : list FpOp) : FpState J := fold_left fp_step ops (fp_init src).

(** Every state of the sources that the sequence goes through. *)
Definition sources_of (src : Sources) (ops : list FpOp) : list Sources :=
  src :: omap (fun op => match op with OpEdit s => Some s | _ => None end) ops.

(** Equal stamps of one file mean equal contents. *)
Definition stamps_honest (hist : list Sources) : Prop :=
  forall s s' p f f', s ∈ hist -> s' ∈ hist -> s !! p = Some f -> s' !! p = Some f' ->
    mtime_ns_of f = mtime_ns_of f' -> f_size f = f_size f' -> f_content f = f_content f'.

(** The scans of one root: the relative name gives the file. *)
Definition rooted (place : bytes -> NormalizedPath) (files : list ScannedFile) : Prop :=
  Forall (fun f => absolute f = place (relative f)) files.
Definition rooted_ops (place : bytes -> NormalizedPath) (ops : list FpOp) : Prop :=
  Forall (fun op => match op with OpCheck _ files _ => rooted place files | _ => True end) ops.

(** What a check of a cache that hashes every file would answer. *)
Definition full_hash_check (src : Sources) (files : list ScannedFile) (cached : option TwoLayerData) :
    FingerprintError + (CacheDecision * gmap bytes FpFileEntry) :=
  match compute_all src files with
  | inl e => inl e
  | inr cur =>
      inr (match cached with
           | None => Run NoCacheFile
           | Some d =>
               if bool_decide (tl_status d = "failure") then Run PreviousFailure
               else if bool_decide (e_hash <$> cur = e_hash <$> tl_files d) then Skip else Run ContentChanged
           end, cur)
  end.

(** ** Lemmas *)

Lemma collect_inr {A B} (f : A -> option B) l r :
  collect_results f l = inr r <-> Forall2 (fun x y => f x = Some y) l r.
Proof.
  unfold collect_results. destruct (mapM f l) as [r'|] eqn:Hm.
  - split; [intros [= <-]; by apply mapM_Some|]. intros Hr%mapM_Some. congruence.
  - split; [done|]. intros Hr%mapM_Some. congruence.
Qed.

Lemma full_entry_Some src f x :
  full_entry src f = Some x <->
  exists s, src !! absolute f = Some s /\
    x = (relative f, mkEntry (mtime_ns_of s) (f_size s) (to_hex (hash_bytes (f_content s)))).
Proof.
  unfold full_entry, file_mtime_ns, file_size, hash_file_hex.
  destruct (src !! absolute f) as [s|]; simpl; [|split; [done|by intros (? & ? & _)]].
  split; [intros [= <-]; eauto|by intros (? & [= <-] & ->)].
Qed.

(** The map built from a list of entries. *)
Lemma entries_map_elem l k x : entries_map l !! k = Some x -> (k, x) ∈ l.
Proof.
  unfold entries_map. assert (forall m : gmap bytes FpFileEntry,
    foldl (fun m (y : bytes * FpFileEntry) => <[y.1 := y.2]> m) m l !! k = Some x -> (k, x) ∈ l \/ m !! k = Some x) as Hgen.
  { induction l as [|[k' x'] l IH]; intros m; simpl; [by right|].
    intros [Hin|Hm]%IH; [left; by right|]. apply lookup_insert_Some in Hm as [[-> ->]|[_ ?]]; [|by right]. left. by left. }
  intros [?|Hm]%Hgen; [done|]. by rewrite lookup_empty in Hm.
Qed.

Lemma entries_map_in l k : k ∈ l.*1 -> is_Some (entries_map l !! k).
Proof.
  unfold entries_map. assert (forall m : gmap bytes FpFileEntry, k ∈ l.*1 \/ is_Some (m !! k) ->
    is_Some (foldl (fun m (y : bytes * FpFileEntry) => <[y.1 := y.2]> m) m l !! k)) as Hgen; [|auto].
  induction l as [|[k' x'] l IH]; intros m; simpl; [intros [Hin|?]; [by apply not_elem_of_nil in Hin|done]|].
  intros Hk. apply IH. destruct (decide (k = k')) as [->|Hne]; [right; rewrite lookup_insert_eq; eauto|].
  rewrite lookup_insert_ne by done. destruct Hk as [[?|?]%elem_of_cons|?]; [done|auto|auto].
Qed.

(** The entries of a full computation, over a rooted list. *)
Lemma compute_all_lookup place src files m k e :
  rooted place files -> compute_all src files = inr m ->
  m !! k = Some e <-> exists f s, f ∈ files /\ relative f = k /\ src !! absolute f = Some s /\
    e = mkEntry (mtime_ns_of s) (f_size s) (to_hex (hash_bytes (f_content s))).
Proof.
  intros Hroot. unfold compute_all. destruct (collect_results (full_entry src) files) as [|l] eqn:Hc; [done|].
  intros [= <-]. apply collect_inr in Hc.
  assert (forall e', entries_map l !! k = Some e' ->
    exists f s, f ∈ files /\ relative f = k /\ src !! absolute f = Some s /\
    e' = mkEntry (mtime_ns_of s) (f_size s) (to_hex (hash_bytes (f_content s)))) as Hfwd.
  { intros e' Hin%entries_map_elem.
    apply list_elem_of_lookup in Hin as [i Hi]. destruct (Forall2_lookup_r _ _ _ _ _ Hc Hi) as (f & Hf & Hx).
    apply full_entry_Some in Hx as (s & Hs & [= -> ->]). exists f, s. split_and!; try done.
    by eapply list_elem_of_lookup_2. }
  split; [apply Hfwd|]. intros (f & s & Hf & <- & Hs & ->).
  assert (is_Some (entries_map l !! relative f)) as [e' He'].
  { apply entries_map_in. apply list_elem_of_lookup in Hf as [i Hi].
    destruct (Forall2_lookup_l _ _ _ _ _ Hc Hi) as (x & Hx & Hfe). apply full_entry_Some in Hfe as (s' & _ & ->).
    apply list_elem_of_fmap. eexists. split; [|by eapply list_elem_of_lookup_2]. done. }
  rewrite He'. f_equal. apply Hfwd in He' as (f' & s' & Hf' & Hrel & Hs' & ->).
  unfold rooted in Hroot. rewrite Forall_forall in Hroot. rewrite (Hroot f' Hf'), Hrel, <- (Hroot f Hf) in Hs'. congruence.
Qed.

Lemma compute_all_dom place src files m k :
  rooted place files -> compute_all src files = inr m -> is_Some (m !! k) <-> k ∈ relative <$> files.
Proof.
  intros Hr Hm. split.
  - intros [e He]. apply (compute_all_lookup place _ _ _ _ _ Hr Hm) in He as (f & _ & Hf & <- & _).
    apply list_elem_of_fmap. eauto.
  - intros (f & -> & Hf)%list_elem_of_fmap. revert Hm. unfold compute_all.
    destruct (collect_results (full_entry src) files) as [|l] eqn:Hc; [done|]. intros [= <-]. apply entries_map_in.
    apply collect_inr in Hc. apply list_elem_of_lookup in Hf as [i Hi].
    destruct (Forall2_lookup_l _ _ _ _ _ Hc Hi) as (x & Hx & Hfe). apply full_entry_Some in Hfe as (s & _ & ->).
    apply list_elem_of_fmap. eexists. split; [|by eapply list_elem_of_lookup_2]. done.
Qed.

(** A stat that matches an honest snapshot stands for the hash. *)
Lemma check_file_spec place hist src src0 files0 m0 f :
  stamps_honest hist -> src ∈ hist -> src0 ∈ hist -> rooted place files0 -> absolute f = place (relative f) ->
  compute_all src0 files0 = inr m0 ->
  check_file src m0 f =
    '(k, e) ← full_entry src f; Some (k, e, negb (bool_decide (e_hash <$> m0 !! k = Some (e_hash e)))).
Proof.
  intros Hh Hs Hs0 Hr0 Hf Hm. unfold check_file, full_entry, file_mtime_ns, file_size, hash_file_hex.
  destruct (src !! absolute f) as [s|] eqn:Hsrc; simpl; [|done].
  destruct (m0 !! relative f) as [ce|] eqn:Hce; simpl; [|done].
  apply (compute_all_lookup place src0 files0 m0) in Hce as (f0 & s0 & Hf0 & Hrel & Hsrc0 & ->); [|done..].
  unfold rooted in Hr0. rewrite Forall_forall in Hr0. rewrite (Hr0 f0 Hf0), Hrel, <- Hf in Hsrc0.
  cbn [mtime_ns e_size e_hash].
  destruct (Z.eqb_spec (mtime_ns_of s0) (mtime_ns_of s)) as [Hmt|Hmt];
    [destruct (Z.eqb_spec (f_size s0) (f_size s)) as [Hsz|Hsz]|]; cbn [andb].
  - assert (f_content s0 = f_content s) as Hc by by apply (Hh src0 src (absolute f) s0 s).
    rewrite bool_decide_eq_true_2 by by rewrite Hc. simpl. by rewrite Hmt, Hsz, Hc.
  - do 3 f_equal. apply bool_decide_ext. split; [by intros ->|by intros [=]].
  - do 3 f_equal. apply bool_decide_ext. split; [by intros ->|by intros [=]].
Qed.

Lemma collect_check place hist src src0 files0 m0 files :
  stamps_honest hist -> src ∈ hist -> src0 ∈ hist -> rooted place files0 -> rooted place files ->
  compute_all src0 files0 = inr m0 ->
  collect_results (check_file src m0) files =
    match collect_results (full_entry src) files with
    | inl e => inl e
    | inr l => inr ((fun x => (x, negb (bool_decide (e_hash <$> m0 !! x.1 = Some (e_hash x.2))))) <$> l)
    end.
Proof.
  intros Hh Hs Hs0 Hr0 Hr Hm. unfold collect_results.
  assert (mapM (check_file src m0) files =
    fmap (fmap (fun x : bytes * FpFileEntry => (x, negb (bool_decide (e_hash <$> m0 !! x.1 = Some (e_hash x.2))))))
      (mapM (full_entry src) files)) as ->; [|by destruct (mapM (full_entry src) files)].
  unfold rooted in Hr. induction Hr as [|f files Hf Hr IH]; [done|]. cbn [mapM].
  rewrite (check_file_spec place hist src src0 files0 m0 f Hh Hs Hs0 Hr0 Hf Hm).
  destruct (full_entry src f) as [[k e]|]; [|done]. simpl. rewrite IH.
  by destruct (mapM (full_entry src) files).
Qed.

(** The two tests of the slow path together compare the hashes. *)
Lemma changed_spec place src files l (m0 : gmap bytes FpFileEntry) :
  rooted place files -> collect_results (full_entry src) files = inr l ->
  existsb snd ((fun x => (x, negb (bool_decide (e_hash <$> m0 !! x.1 = Some (e_hash x.2))))) <$> l)
    || bool_decide (map_Exists (fun k _ => entries_map l !! k = None) m0) =
  negb (bool_decide (e_hash <$> entries_map l = e_hash <$> m0)).
Proof.
  intros Hroot Hc. assert (compute_all src files = inr (entries_map l)) as Hall by (unfold compute_all; by rewrite Hc).
  assert (forall x, x ∈ l -> entries_map l !! x.1 = Some x.2) as Hin.
  { intros x Hx. apply collect_inr in Hc. apply list_elem_of_lookup in Hx as [i Hi].
    destruct (Forall2_lookup_r _ _ _ _ _ Hc Hi) as (f & Hf & Hfe). apply full_entry_Some in Hfe as (s & Hs & ->).
    apply (compute_all_lookup place src files); [done..|]. exists f, s. split_and!; try done. by eapply list_elem_of_lookup_2. }
  apply Bool.eq_iff_eq_true. rewrite orb_true_iff, negb_true_iff, bool_decide_eq_false, existsb_exists, bool_decide_eq_true. split.
  - intros [(y & Hy & Hf)|(k & e & Hk & Hn)] Heq.
    + apply list_elem_of_In, list_elem_of_fmap in Hy as (x & -> & Hx). cbn [snd] in Hf.
      apply negb_true_iff, bool_decide_eq_false in Hf. apply Hf. rewrite <- lookup_fmap, <- Heq, lookup_fmap, (Hin x Hx). done.
    + apply (f_equal (lookup k)) in Heq. rewrite !lookup_fmap, Hk, Hn in Heq. done.
  - intros Hne.
    destruct (existsb (fun x => negb (bool_decide (e_hash <$> m0 !! x.1 = Some (e_hash x.2)))) l) eqn:Hex.
    { left. apply existsb_exists in Hex as (x & Hx & Hf). exists (x, negb (bool_decide (e_hash <$> m0 !! x.1 = Some (e_hash x.2)))). split; [|exact Hf].
      apply list_elem_of_In, list_elem_of_fmap. exists x. split; [done|]. by apply list_elem_of_In. }
    right. destruct (decide (map_Exists (fun k (_ : FpFileEntry) => entries_map l !! k = None) m0)) as [|Hno]; [done|].
    exfalso. apply Hne. apply map_eq. intros k. rewrite !lookup_fmap. destruct (entries_map l !! k) as [e|] eqn:Hk.
    + apply entries_map_elem in Hk. destruct (bool_decide_reflect (e_hash <$> m0 !! k = Some (e_hash e))) as [->|Hf]; [done|].
      enough (existsb (fun x => negb (bool_decide (e_hash <$> m0 !! x.1 = Some (e_hash x.2)))) l = true) by congruence.
      apply existsb_exists. exists (k, e). split; [by apply list_elem_of_In|]. cbn [fst snd]. by rewrite bool_decide_eq_false_2.
    + destruct (m0 !! k) as [e|] eqn:Hm; [|done]. destruct Hno. by exists k, e.
Qed.

(** ** What every state of the system knows *)

Definition has_origin (tr : list FpEvent) (d : TwoLayerData) : Prop :=
  exists src files, EChecked src files (tl_files d) ∈ tr.

Record fp_inv (place : bytes -> NormalizedPath) (hist : list Sources) (st : FpState J) : Prop := {
  inv_src : fp_src st ∈ hist;
  inv_checked : forall src files m, EChecked src files m ∈ fp_trace st ->
    src ∈ hist /\ rooted place files /\ compute_all src files = inr m;
  inv_staged : forall i d, fp_values st !! i = Some d -> has_origin (fp_trace st) d;
  inv_pending : forall d, read_pending (fp_dir st) = Some d -> has_origin (fp_trace st) d;
  inv_cache : forall d, read_json (fp_dir st) = Some d ->
    has_origin (fp_trace st) d /\
    (tl_status d = "failure" \/ tl_status d = "success" /\ EMarked true (tl_files d) ∈ fp_trace st);
}.

(** The slow path answers as if it had hashed everything. *)
Lemma slow_check_spec place hist st files now staged :
  stamps_honest hist -> fp_inv place hist st -> rooted place files ->
  tl_try_mtime_fast_path (fp_src st) files (fp_dir st) = None ->
  tl_check (fp_src st) now files staged (fp_dir st) =
  match full_hash_check (fp_src st) files (read_json (fp_dir st)) with
  | inl e => (inl e, staged, fp_dir st)
  | inr (decision, cur) =>
      let pending := TwoLayerData_new "pending" cur now in (inr decision, Some pending, write_pending pending (fp_dir st))
  end.
Proof.
  intros Hh Hinv Hr Hfast. unfold tl_check, full_hash_check. rewrite Hfast.
  destruct (read_json (fp_dir st)) as [d|] eqn:Hd.
  2:{ by destruct (compute_all (fp_src st) files). }
  destruct (bool_decide (tl_status d = "failure")); [by destruct (compute_all (fp_src st) files)|].
  destruct (inv_cache _ _ _ Hinv d Hd) as [(src0 & files0 & Hev) _].
  destruct (inv_checked _ _ _ Hinv _ _ _ Hev) as (Hs0 & Hr0 & Hm0).
  rewrite (collect_check place hist (fp_src st) src0 files0 (tl_files d) files) by (done || apply (inv_src _ _ _ Hinv)).
  unfold compute_all. destruct (collect_results (full_entry (fp_src st)) files) as [e|l] eqn:Hc; [done|].
  assert (forall g : bytes * FpFileEntry -> bool, ((fun x => (x, g x)) <$> l).*1 = l) as Hl.
  { intros g. rewrite <- list_fmap_compose. apply list_fmap_id. }
  rewrite Hl, (changed_spec place (fp_src st) files l (tl_files d) Hr Hc). unfold tl_stage.
  by destruct (bool_decide (e_hash <$> entries_map l = e_hash <$> tl_files d)).
Qed.

Lemma commit_upto_cases k (claimed : TwoLayerData) status now (d : CacheDir J) :
  let d' := commit_pending_upto k claimed status now d in
  (cache_file d' = cache_file d \/ cache_file d' = None \/ cache_file d' = Some (to_json (stamp status now claimed), now)) /\
  (pending_file d' = pending_file d \/ pending_file d' = None).
Proof.
  cbn zeta. unfold commit_pending_upto, commit_steps.
  destruct (bool_decide (read_pending d = Some claimed)); do 5 (destruct k as [|k]; [simpl; auto|]); simpl; auto.
Qed.

Lemma has_origin_app tr ev d : has_origin tr d -> has_origin (tr ++ ev) d.
Proof. intros (s & f & Hin). exists s, f. apply elem_of_app. by left. Qed.

(** A mark, whole or cut off. *)
Lemma marked_inv place hist st i success k now claimed :
  fp_inv place hist st -> has_origin (fp_trace st) claimed ->
  fp_inv place hist (mkFpState (fp_src st) (commit_pending_upto k claimed (status_of success) now (fp_dir st))
    (delete i (fp_values st)) (fp_trace st ++ [EMarked success (tl_files claimed)])).
Proof.
  intros [Hsrc Hch Hst Hp Hcf] Ho. destruct (commit_upto_cases k claimed (status_of success) now (fp_dir st)) as [Hc Hq].
  split; cbn [fp_src fp_dir fp_values fp_trace].
  - done.
  - intros s f m [Hin|Hin%list_elem_of_singleton]%elem_of_app; [eauto|done].
  - intros j d [_ Hj]%lookup_delete_Some. apply has_origin_app. eauto.
  - intros d Hd. apply has_origin_app, Hp. unfold read_pending in *. destruct Hq as [Hq|Hq]; rewrite Hq in Hd; done.
  - intros d Hd. unfold read_json in *. destruct Hc as [Hc|[Hc|Hc]]; rewrite Hc in Hd.
    + destruct (Hcf d Hd) as [Hod Hs]. split; [by apply has_origin_app|]. destruct Hs as [?|[? ?]]; [by left|].
      right. split; [done|]. apply elem_of_app. by left.
    + done.
    + simpl in Hd. rewrite from_to_json in Hd. injection Hd as <-. cbn [stamp TwoLayer_stamped tl_files tl_status].
      split; [by apply has_origin_app|]. destruct success; simpl; [right|by left]. split; [done|].
      apply elem_of_app. right. by apply list_elem_of_singleton.
Qed.

Lemma fp_inv_weaken place hist st dir values :
  fp_inv place hist st ->
  (forall i d, values !! i = Some d -> has_origin (fp_trace st) d) ->
  (forall d, read_pending dir = Some d -> has_origin (fp_trace st) d) ->
  (cache_file dir = cache_file (fp_dir st) \/ cache_file dir = None) ->
  fp_inv place hist (mkFpState (fp_src st) dir values (fp_trace st)).
Proof.
  intros [Hsrc Hch Hst Hp Hcf] Hv Hpp Hc. split; try done. cbn [fp_dir fp_trace].
  intros d Hd. apply Hcf. unfold read_json in *. destruct Hc as [Hc|Hc]; by rewrite Hc in Hd.
Qed.

Lemma fast_path_read src files (d : CacheDir J) data :
  tl_try_mtime_fast_path src files d = Some data -> read_json d = Some data /\ tl_status data = "success".
Proof.
  unfold tl_try_mtime_fast_path. destruct (cache_file d) as [[j mt]|]; simpl; [|done].
  destruct (max_mtime_ns src files); simpl; [|done]. destruct (_ <=? _); [done|].
  destruct (read_json d) as [data'|]; simpl; [|done].
  destruct (bool_decide_reflect (tl_status data' = "success")); simpl; [|done].
  destruct ((size _ =? _)%nat && _); [|done]. by intros [= ->].
Qed.

Lemma checked_inv place hist st i files now :
  stamps_honest hist -> fp_inv place hist st -> rooted place files -> fp_inv place hist (fp_step st (OpCheck i files now)).
Proof.
  intros Hh Hinv Hr. cbn [fp_step].
  assert (forall j d (s : option TwoLayerData), (forall x, s = Some x -> has_origin (fp_trace st) x) ->
    put_staged i s (fp_values st) !! j = Some d -> has_origin (fp_trace st) d) as Hset.
  { intros j d s Hs Hj. destruct s as [x|]; simpl in Hj.
    - apply lookup_insert_Some in Hj as [[_ <-]|[_ Hj]]; [auto|by apply (inv_staged _ _ _ Hinv j)].
    - apply lookup_delete_Some in Hj as [_ Hj]. by apply (inv_staged _ _ _ Hinv j). }
  destruct (tl_try_mtime_fast_path (fp_src st) files (fp_dir st)) as [data|] eqn:Hfast.
  - unfold tl_check. rewrite Hfast. rewrite app_nil_r. apply fp_inv_weaken; [done| |by apply (inv_pending _ _ _ Hinv)|by left].
    intros j d. apply Hset. intros x [= <-]. apply fast_path_read in Hfast as [Hd _].
    by apply (inv_cache _ _ _ Hinv) in Hd as [? _].
  - rewrite (slow_check_spec place hist) by done. unfold full_hash_check.
    destruct (compute_all (fp_src st) files) as [e|cur] eqn:Hall.
    { rewrite app_nil_r. apply fp_inv_weaken; [done| |by apply (inv_pending _ _ _ Hinv)|by left].
      intros j d. apply Hset. intros x. apply (inv_staged _ _ _ Hinv). }
    set (pending := TwoLayerData_new "pending" cur now). cbn zeta.
    assert (has_origin (fp_trace st ++ [EChecked (fp_src st) files cur]) pending) as Hop.
    { exists (fp_src st), files. apply elem_of_app. right. by apply list_elem_of_singleton. }
    destruct Hinv as [Hsrc Hch Hst Hp Hcf]. split; cbn [fp_src fp_dir fp_values fp_trace put_staged].
    + done.
    + intros s f m [Hin|[= -> -> ->]%list_elem_of_singleton]%elem_of_app; eauto.
    + intros j d [[_ <-]|[_ Hj]]%lookup_insert_Some; [done|]. apply has_origin_app. eauto.
    + intros d. unfold read_pending, write_pending. cbn [pending_file mbind option_bind]. rewrite from_to_json. by intros [= <-].
    + intros d Hd. destruct (Hcf d Hd) as [Hod Hs]. split; [by apply has_origin_app|].
      destruct Hs as [?|[? ?]]; [by left|]. right. split; [done|]. apply elem_of_app. by left.
Qed.

Lemma fp_step_inv place hist st op :
  stamps_honest hist -> fp_inv place hist st ->
  match op with OpCheck _ files _ => rooted place files | OpEdit src => src ∈ hist | _ => True end ->
  fp_inv place hist (fp_step st op).
Proof.
  intros Hh Hinv Hop. destruct op as [src|i files now|i success now|i success k now|i|i].
  - destruct Hinv. by split.
  - by apply checked_inv.
  - cbn [fp_step]. unfold promote_with_status.
    destruct (match fp_values st !! i with Some data => Some data | None => read_pending (fp_dir st) end)
      as [claimed|] eqn:Hcl.
    + unfold commit_pending. apply marked_inv; [done|]. destruct (fp_values st !! i) as [x|] eqn:Hv.
      * injection Hcl as <-. by apply (inv_staged _ _ _ Hinv i).
      * by apply (inv_pending _ _ _ Hinv).
    + rewrite app_nil_r. cbn [put_staged]. apply fp_inv_weaken; [done| |by apply (inv_pending _ _ _ Hinv)|by left].
      intros j d [_ Hj]%lookup_delete_Some. by apply (inv_staged _ _ _ Hinv j).
  - cbn [fp_step]. destruct (match fp_values st !! i with Some data => Some data | None => read_pending (fp_dir st) end)
      as [claimed|] eqn:Hcl; [|done]. apply marked_inv; [done|]. destruct (fp_values st !! i) as [x|] eqn:Hv.
    + injection Hcl as <-. by apply (inv_staged _ _ _ Hinv i).
    + by apply (inv_pending _ _ _ Hinv).
  - cbn [fp_step]. apply fp_inv_weaken; [done| |done|by right].
    intros j d [_ Hj]%lookup_delete_Some. by apply (inv_staged _ _ _ Hinv j).
  - cbn [fp_step]. apply fp_inv_weaken; [done| |by apply (inv_pending _ _ _ Hinv)|by left].
    intros j d [_ Hj]%lookup_delete_Some. by apply (inv_staged _ _ _ Hinv j).
Qed.

Lemma fp_run_inv place src ops :
  stamps_honest (sources_of src ops) -> rooted_ops place ops -> fp_inv place (sources_of src ops) (fp_run src ops).
Proof.
  intros Hh Hr. unfold fp_run. set (hist := sources_of src ops) in *.
  assert (Forall (fun op => match op with OpEdit s => s ∈ hist | _ => True end) ops) as He.
  { apply Forall_forall. intros [s| | | | |] Hin; try done. unfold hist, sources_of. right.
    apply list_elem_of_omap. by exists (OpEdit s). }
  assert (fp_inv place hist (fp_init src)) as Hinit.
  { split; try done; [by left|]. by intros ? ? ? ?%not_elem_of_nil. }
  clearbody hist. revert Hinit. generalize (fp_init src). unfold rooted_ops in Hr.
  induction Hr as [|op ops Hop Hr IH]; intros st Hinv; [done|]. inversion He; subst. simpl.
  apply IH; [done|]. apply fp_step_inv; [done..|]. by destruct op.
Qed.

(** ** Properties *)

(** C27: The two-layer cache answers as if it hashed every file at every check.  After any sequence of checks,
    marks, cut-off marks, invalidations and edits by any number of values and processes, a check that does not take
    the mtime fast path gives the decision of a cache that hashes all files, stages exactly the snapshot such a cache
    would stage, and fails exactly where it would fail; stats stand in for hashes without any difference, as long as
    equal stamps of a file mean equal contents. *)
Theorem two_layer_is_full_hash (place : bytes -> NormalizedPath) (src : Sources) (ops : list FpOp)
    (files : list ScannedFile) (now : Z) (staged : option TwoLayerData) :
  stamps_honest (sources_of src ops) -> rooted_ops place ops -> rooted place files ->
  let st := fp_run src ops in
  tl_try_mtime_fast_path (fp_src st) files (fp_dir st) = None ->
  tl_check (fp_src st) now files staged (fp_dir st) =
  match full_hash_check (fp_src st) files (read_json (fp_dir st)) with
  | inl e => (inl e, staged, fp_dir st)
  | inr (decision, cur) =>
      let pending := TwoLayerData_new "pending" cur now in (inr decision, Some pending, write_pending pending (fp_dir st))
  end.
Proof. intros Hh Hro Hr st Hf. apply (slow_check_spec place (sources_of src ops)); [done| |done|done]. by apply fp_run_inv. Qed.

(** C26: A skip is never wrong.  When a check after any such sequence of operations answers "skip" without the
    mtime fast path, an earlier check saw the same set of names, each with the same content as now (or with a
    content of the same digest), and what it saw was marked as successful. *)
Theorem two_layer_skip_sound (place : bytes -> NormalizedPath) (src : Sources) (ops : list FpOp)
    (files : list ScannedFile) (now : Z) (staged : option TwoLayerData) :
  stamps_honest (sources_of src ops) -> rooted_ops place ops -> rooted place files ->
  let st := fp_run src ops in
  tl_try_mtime_fast_path (fp_src st) files (fp_dir st) = None ->
  (tl_check (fp_src st) now files staged (fp_dir st)).1.1 = inr Skip ->
  exists src0 files0 snapshot, EChecked src0 files0 snapshot ∈ fp_trace st /\ EMarked true snapshot ∈ fp_trace st /\
    (forall k, k ∈ relative <$> files <-> k ∈ relative <$> files0) /\
    forall f, f ∈ files -> exists f0 s s0, f0 ∈ files0 /\ relative f0 = relative f /\
      fp_src st !! absolute f = Some s /\ src0 !! absolute f0 = Some s0 /\
      (f_content s = f_content s0 \/ blake3_collision (f_content s) (f_content s0)).
Proof.
  intros Hh Hro Hr st Hf. pose proof (fp_run_inv place src ops Hh Hro) as Hinv. fold st in Hinv.
  rewrite (slow_check_spec place (sources_of src ops)) by done. unfold full_hash_check.
  destruct (compute_all (fp_src st) files) as [e|cur] eqn:Hall; [done|]. cbn [fst snd].
  destruct (read_json (fp_dir st)) as [d|] eqn:Hd; [|done].
  destruct (bool_decide_reflect (tl_status d = "failure")) as [|Hnf]; [done|].
  destruct (bool_decide_reflect (e_hash <$> cur = e_hash <$> tl_files d)) as [Heq|]; [|done]. intros _.
  destruct (inv_cache _ _ _ Hinv d Hd) as [(src0 & files0 & Hev) [?|[_ Hmark]]]; [done|].
  destruct (inv_checked _ _ _ Hinv _ _ _ Hev) as (_ & Hr0 & Hm0).
  pose proof (fun k e => compute_all_lookup place _ files cur k e Hr Hall) as Hcur.
  pose proof (fun k e => compute_all_lookup place _ files0 (tl_files d) k e Hr0 Hm0) as Hold.
  assert (forall k, e_hash <$> cur !! k = e_hash <$> tl_files d !! k) as Hk.
  { intros k. rewrite <- !lookup_fmap. by rewrite Heq. }
  exists src0, files0, (tl_files d). split_and!; [done|done| |].
  - intros k. rewrite <- (compute_all_dom place _ _ _ k Hr Hall), <- (compute_all_dom place _ _ _ k Hr0 Hm0).
    rewrite <- !(fmap_is_Some e_hash). by rewrite Hk.
  - intros f Hf'. assert (is_Some (cur !! relative f)) as [e He].
    { apply (compute_all_dom place _ _ _ _ Hr Hall), list_elem_of_fmap. eauto. }
    specialize (Hk (relative f)). rewrite He in Hk. destruct (tl_files d !! relative f) as [e0|] eqn:He0; [|done].
    apply Hold in He0 as (f0 & s0 & Hf0 & Hrel & Hs0 & ->). apply Hcur in He as (f1 & s & Hf1 & Hrel1 & Hs & ->).
    exists f0, s, s0. split_and!; try done.
    + unfold rooted in Hr. rewrite Forall_forall in Hr. by rewrite (Hr f Hf'), <- Hrel1, <- (Hr f1 Hf1).
    + simpl in Hk. injection Hk as Hk. apply hex_encode_inj in Hk. by apply blake3_eq.
Qed.
End cycles.

(** ** Where the answer is wrong *)

Section limits.
Context {J : Type} `{Serde J TwoLayerData} `{Serde J HashCacheData} {B3 : Blake3}.

(** One successful cycle of the aggregate cache. *)
Definition hc_cycle (src : Sources) (files : list ScannedFile) (t0 t1 : Z) : CacheDir J :=
  let '(_, staged, d) := hc_check src t0 files None (mkCacheDir None None) in
  (promote_with_status "success" t1 staged d).2.

Lemma two_files_lookup (pa pb : NormalizedPath) (fa fb : FileState) :
  pa <> pb -> ({[pa := fa; pb := fb]} : Sources) !! pa = Some fa /\ ({[pa := fa; pb := fb]} : Sources) !! pb = Some fb.
Proof. intros Hne. rewrite lookup_insert_eq, lookup_insert_ne by done. by rewrite lookup_singleton_eq. Qed.

Lemma two_files_max src a b fa fb :
  src !! absolute a = Some fa -> src !! absolute b = Some fb -> 0 <= f_mtime fb <= f_mtime fa ->
  max_mtime_ns src [a; b] = Some (f_mtime fa).
Proof.
  intros Ha Hb Hm. unfold max_mtime_ns. cbn [max_mtime_from]. unfold file_mtime_ns, mtime_ns_of. rewrite Ha, Hb.
  cbn [fmap option_fmap option_map mbind option_bind]. do 2 case_match; f_equal; lia.
Qed.

Lemma hc_cycle_dir src files t0 t1 h :
  compute_aggregate_hash src files = inr h ->
  hc_cycle src files t0 t1 = mkCacheDir (Some (to_json (mkHashData 1 h "success" t1 (length files)
    (default 0 (max_mtime_ns src files))), t1)) None.
Proof.
  intros Hh. unfold hc_cycle, hc_check. cbn [hc_try_mtime_fast_path cache_file mbind option_bind]. rewrite Hh.
  unfold promote_with_status, commit_pending, commit_pending_upto, commit_steps, read_pending, write_pending.
  cbn [pending_file mbind option_bind]. rewrite from_to_json, bool_decide_eq_true_2 by done. done.
Qed.

(** The mtime fast path does not see that a file was replaced by another one.  After a successful cycle over two
    files, the older of them is removed and some file of another name appears, of any content, that is no newer than the
    one that stayed (a renaming keeps the mtime).  Both caches answer "skip", although the set of files changed: the
    fast path compares only the number of files and their latest mtime. *)
Theorem fast_path_misses_replacement (a b c : ScannedFile) (fa fb fc : FileState) (t0 t1 t2 : Z) :
  relative a <> relative b -> absolute a <> absolute b -> absolute a <> absolute c ->
  0 <= f_mtime fb <= f_mtime fa -> 0 <= f_mtime fc <= f_mtime fa -> f_mtime fa < t1 ->
  let src0 : Sources := {[absolute a := fa; absolute b := fb]} in
  let src1 : Sources := {[absolute a := fa; absolute c := fc]} in
  let st := fp_run (J := J) src0 [OpCheck 0 [a; b] t0; OpMark 0 true t1; OpEdit src1] in
  (tl_check src1 t2 [a; c] None (fp_dir st)).1.1 = inr Skip /\
  (hc_check src1 t2 [a; c] None (hc_cycle src0 [a; b] t0 t1)).1.1 = inr Skip.
Proof.
  intros Hrel Hab Hac Hb Hc Ht src0 src1 st.
  destruct (two_files_lookup _ _ fa fb Hab) as [Ha0 Hb0]. destruct (two_files_lookup _ _ fa fc Hac) as [Ha1 Hc1].
  pose proof (two_files_max src0 a b fa fb Ha0 Hb0 Hb) as Hm0. pose proof (two_files_max src1 a c fa fc Ha1 Hc1 Hc) as Hm1.
  split.
  - set (e f := mkEntry (mtime_ns_of f) (f_size f) (to_hex (hash_bytes (f_content f)))).
    set (m := entries_map [(relative a, e fa); (relative b, e fb)]).
    assert (collect_results (full_entry src0) [a; b] = inr [(relative a, e fa); (relative b, e fb)]) as Hcol.
    { apply collect_inr. repeat constructor; apply full_entry_Some; eauto. }
    assert (fp_dir st = mkCacheDir (Some (to_json (mkTwoLayer 1 "success" t1 m
      (map_fold (fun _ x mx => Z.max (mtime_ns x) mx) 0 m)), t1)) None) as Hdir.
    { unfold st, fp_run. cbn [fold_left fp_step fp_init fp_src fp_dir fp_values tl_check tl_try_mtime_fast_path read_json
        cache_file mbind option_bind]. unfold compute_all. rewrite Hcol. cbn [tl_stage put_staged fp_values fp_dir].
      rewrite lookup_insert_eq. unfold promote_with_status, commit_pending, commit_pending_upto, commit_steps, read_pending, write_pending.
      cbn [pending_file mbind option_bind]. rewrite from_to_json, bool_decide_eq_true_2 by done. done. }
    assert (map_fold (fun _ x mx => Z.max (mtime_ns x) mx) 0 m = f_mtime fa /\ size m = 2%nat) as [Hmax Hsize].
    { unfold m, entries_map. cbn [foldl fst snd]. split.
      - rewrite map_fold_insert_L; [|intros; lia|by rewrite lookup_insert_ne, lookup_empty].
        rewrite map_fold_insert_L; [|intros; lia|apply lookup_empty]. rewrite map_fold_empty.
        unfold e, mtime_ns_of. cbn [mtime_ns]. lia.
      - rewrite map_size_insert_None by by rewrite lookup_insert_ne, lookup_empty.
        by rewrite map_size_insert_None, map_size_empty by apply lookup_empty. }
    unfold tl_check, tl_try_mtime_fast_path. rewrite Hdir. unfold read_json. cbn [cache_file mbind option_bind].
    rewrite Hm1. cbn [mbind option_bind]. rewrite (proj2 (Z.leb_gt _ _)) by done. rewrite from_to_json. cbn [mbind option_bind].
    rewrite bool_decide_eq_true_2 by done. cbn [tl_files tl_max_source_mtime_ns length]. by rewrite Hmax, Hsize, Z.eqb_refl.
  - assert (exists h, compute_aggregate_hash src0 [a; b] = inr h) as [h Hh].
    { unfold compute_aggregate_hash. assert (collect_results (read_file src0) [a; b] = inr [(relative a, f_content fa); (relative b, f_content fb)]) as ->;
        [|eauto]. apply collect_inr. unfold read_file, src0. rewrite !Forall2_cons. split_and!; [by rewrite Ha0|by rewrite Hb0|done]. }
    rewrite (hc_cycle_dir _ _ t0 t1 h Hh), Hm0. cbn [default]. unfold hc_check, hc_try_mtime_fast_path, read_json.
    cbn [cache_file mbind option_bind]. rewrite Hm1. cbn [mbind option_bind]. rewrite (proj2 (Z.leb_gt _ _)) by done.
    rewrite from_to_json. cbn [mbind option_bind]. rewrite bool_decide_eq_true_2 by done.
    cbn [hc_file_count hc_max_source_mtime_ns length]. by rewrite Z.eqb_refl.
Qed.

Lemma aggregate_two a x b y :
  aggregate_preimage [(a, x); (b, y)] =
  "zccache-fingerprint-v1" +:+ a +:+ nul +:+ x +:+ b +:+ nul +:+ y +:+ nul +:+ "file_count:" +:+ le_bytes 8 2.
Proof.
  unfold aggregate_preimage, stream_update, stream_new. cbn [fold_left Hash.fed length Z.of_nat]. simpl Z.of_nat.
  by rewrite !string_app_assoc.
Qed.

(** The aggregate digest does not say where one file ends and the next begins.  Bytes that move from the end of the
    first file to the start of the second, where they spell the second file's name and a zero byte, leave the digest
    as it was, whatever digest function is used: the file-count trailer does not prevent it.  The aggregate cache
    then answers "skip" for files whose contents changed. *)
Theorem aggregate_hash_ambiguous (a b : ScannedFile) (y : bytes) (fa0 fb0 fa1 fb1 : FileState) (t0 t1 t2 : Z) :
  absolute a <> absolute b ->
  f_content fa0 = "" -> f_content fb0 = relative b +:+ nul +:+ y ->
  f_content fa1 = relative b +:+ nul -> f_content fb1 = y ->
  let src0 : Sources := {[absolute a := fa0; absolute b := fb0]} in
  let src1 : Sources := {[absolute a := fa1; absolute b := fb1]} in
  f_content fa0 <> f_content fa1 /\
  compute_aggregate_hash src0 [a; b] = compute_aggregate_hash src1 [a; b] /\
  (hc_check src1 t2 [a; b] None (hc_cycle src0 [a; b] t0 t1)).1.1 = inr Skip.
Proof.
  intros Hab Ha0 Hb0 Ha1 Hb1 src0 src1.
  assert (forall fa fb, collect_results (read_file {[absolute a := fa; absolute b := fb]}) [a; b] =
    inr [(relative a, f_content fa); (relative b, f_content fb)]) as Hread.
  { intros fa fb. destruct (two_files_lookup _ _ fa fb Hab) as [Hx Hy].
    apply collect_inr. unfold read_file. rewrite !Forall2_cons. split_and!; [by rewrite Hx|by rewrite Hy|done]. }
  assert (compute_aggregate_hash src0 [a; b] = compute_aggregate_hash src1 [a; b]) as Heq.
  { unfold compute_aggregate_hash, src0, src1. rewrite !Hread, !aggregate_two, Ha0, Hb0, Ha1, Hb1.
    do 4 f_equal. by rewrite ?string_app_assoc. }
  split_and!; [|done|].
  - rewrite Ha0, Ha1. by destruct (relative b).
  - assert (exists h, compute_aggregate_hash src0 [a; b] = inr h) as [h Hh]
      by (unfold compute_aggregate_hash, src0; rewrite Hread; eauto).
    rewrite (hc_cycle_dir _ _ t0 t1 h Hh). unfold hc_check. destruct (hc_try_mtime_fast_path _ _ _); [done|].
    rewrite <- Heq, Hh. unfold read_json. cbn [cache_file mbind option_bind]. rewrite from_to_json.
    cbn [hc_status hc_hash]. by rewrite bool_decide_eq_false_2, bool_decide_eq_true_2.
Qed.
End limits.

(** ** Examples *)

#[local] Instance demo_two : Serde (TwoLayerData + HashCacheData) TwoLayerData :=
  {| to_json := inl; from_json j := match j with inl d => Some d | inr _ => None end; from_to_json _ := eq_refl |}.
#[local] Instance demo_hash_serde : Serde (TwoLayerData + HashCacheData) HashCacheData :=
  {| to_json := inr; from_json j := match j with inr d => Some d | inl _ => None end; from_to_json _ := eq_refl |}.

Definition demo_place (rel : bytes) : NormalizedPath := "/p/" +:+ rel.
Definition demo_scanned (rel : bytes) : ScannedFile := mkScanned (demo_place rel) rel.
Definition demo_src (mtime : Z) : Sources := {[demo_place "a" := mkFile mtime 3 "abc"]}.

(** A check, a mark of success, and the file is touched. *)
Definition demo_ops : list FpOp := [OpCheck 0 [demo_scanned "a"] 10; OpMark 0 true 11; OpEdit (demo_src 20)].

Lemma demo_honest : stamps_honest (sources_of (demo_src 5) demo_ops).
Proof.
  assert (forall s p f, s ∈ sources_of (demo_src 5) demo_ops -> s !! p = Some f -> f_content f = "abc") as Hc.
  { intros s p f Hs Hp. assert (exists m, s = demo_src m) as [m ->].
    { repeat (apply elem_of_cons in Hs as [->|Hs]; [eauto|]). by apply not_elem_of_nil in Hs. }
    unfold demo_src in Hp. apply lookup_singleton_Some in Hp as [_ <-]. done. }
  intros s s' p f f' Hs Hs' Hp Hp' _ _. by rewrite (Hc s p f Hs Hp), (Hc s' p f' Hs' Hp').
Qed.

Lemma two_layer_is_full_hash_witness :
  let st := fp_run (B3 := toy_blake3) (demo_src 5) demo_ops in
  tl_check (B3 := toy_blake3) (fp_src st) 21 [demo_scanned "a"] None (fp_dir st) =
  match full_hash_check (B3 := toy_blake3) (fp_src st) [demo_scanned "a"] (read_json (fp_dir st)) with
  | inl e => (inl e, None, fp_dir st)
  | inr (decision, cur) =>
      let pending := TwoLayerData_new "pending" cur 21 in (inr decision, Some pending, write_pending pending (fp_dir st))
  end.
Proof.
  apply (two_layer_is_full_hash (B3 := toy_blake3) demo_place (demo_src 5) demo_ops [demo_scanned "a"] 21 None).
  - exact demo_honest.
  - repeat constructor.
  - repeat constructor.
  - vm_compute. reflexivity.
Defined.

Lemma two_layer_skip_sound_witness :
  let st := fp_run (B3 := toy_blake3) (demo_src 5) demo_ops in
  exists src0 files0 snapshot, EChecked src0 files0 snapshot ∈ fp_trace st /\ EMarked true snapshot ∈ fp_trace st /\
    (forall k, k ∈ relative <$> [demo_scanned "a"] <-> k ∈ relative <$> files0) /\
    forall f, f ∈ [demo_scanned "a"] -> exists f0 s s0, f0 ∈ files0 /\ relative f0 = relative f /\
      fp_src st !! absolute f = Some s /\ src0 !! absolute f0 = Some s0 /\
      (f_content s = f_content s0 \/ blake3_collision (B3 := toy_blake3) (f_content s) (f_content s0)).
Proof.
  apply (two_layer_skip_sound (B3 := toy_blake3) demo_place (demo_src 5) demo_ops [demo_scanned "a"] 21 None).
  - exact demo_honest.
  - repeat constructor.
  - repeat constructor.
  - vm_compute. reflexivity.
  - vm_compute. reflexivity.
Defined.

Lemma fast_path_misses_replacement_witness :
  let src0 : Sources := {[demo_place "a" := mkFile 9 1 "x"; demo_place "b" := mkFile 7 1 "y"]} in
  let src1 : Sources := {[demo_place "a" := mkFile 9 1 "x"; demo_place "c" := mkFile 7 5 "other"]} in
  let st := fp_run (J := TwoLayerData + HashCacheData) (B3 := toy_blake3) src0
              [OpCheck 0 [demo_scanned "a"; demo_scanned "b"] 10; OpMark 0 true 11; OpEdit src1] in
  (tl_check (B3 := toy_blake3) src1 12 [demo_scanned "a"; demo_scanned "c"] None (fp_dir st)).1.1 = inr Skip /\
  (hc_check (B3 := toy_blake3) src1 12 [demo_scanned "a"; demo_scanned "c"] None
     (hc_cycle (J := TwoLayerData + HashCacheData) (B3 := toy_blake3) src0 [demo_scanned "a"; demo_scanned "b"] 10 11)).1.1 = inr Skip.
Proof.
  apply (fast_path_misses_replacement (J := TwoLayerData + HashCacheData) (B3 := toy_blake3)
    (demo_scanned "a") (demo_scanned "b") (demo_scanned "c") (mkFile 9 1 "x") (mkFile 7 1 "y") (mkFile 7 5 "other") 10 11 12);
    simpl; try lia; discriminate.
Defined.

Lemma aggregate_hash_ambiguous_witness :
  let src0 : Sources := {[demo_place "a" := mkFile 1 0 ""; demo_place "b" := mkFile 1 3 ("b" +:+ nul +:+ "y")]} in
  let src1 : Sources := {[demo_place "a" := mkFile 20 2 ("b" +:+ nul); demo_place "b" := mkFile 20 1 "y"]} in
  (hc_check (B3 := toy_blake3) src1 21 [demo_scanned "a"; demo_scanned "b"] None
     (hc_cycle (J := TwoLayerData + HashCacheData) (B3 := toy_blake3) src0 [demo_scanned "a"; demo_scanned "b"] 10 11)).1.1 = inr Skip.
Proof.
  apply (aggregate_hash_ambiguous (J := TwoLayerData + HashCacheData) (B3 := toy_blake3) (demo_scanned "a") (demo_scanned "b") "y"
    (mkFile 1 0 "") (mkFile 1 3 ("b" +:+ nul +:+ "y")) (mkFile 20 2 ("b" +:+ nul)) (mkFile 20 1 "y") 10 11 21);
    [discriminate|reflexivity..].
Defined.

(** Cache files that differ only in their extension share one pending file. *)
Example pending_shared : pending_path "/cache/cpp.lint" = pending_path "/cache/cpp.test".
Proof. reflexivity. Qed.
