(* ===== verification/FingerprintScan.v ===== *)
(** * Scanning the files of a fingerprint ([zccache-fingerprint/src/scan.rs])

    A walk below a root with directories pruned by what the patterns allow, and
    the choice of files by extension or by glob patterns.  The matcher of glob
    patterns and the walk of the directory tree are libraries' code: parameters,
    with what the code relies on as the laws [GlobLaws] and [WalkLaws].

    A path below the root is the list of its names; names are valid UTF-8. *)

From stdpp Require Import list strings gmap.
From Stdlib Require Import Lia.
From S2P Require Import Prelude Path RustStr Fingerprint.

(** ** Globs *)

Definition is_wildcard (c : ascii) : bool := bool_decide (c ∈ ["*"; "?"; "["; "{"]%char).

(** The part of a pattern before its first wildcard. *)
Fixpoint literal_prefix (p : bytes) : bytes :=
  match p with
  | EmptyString => ""
  | String c p => if is_wildcard c then "" else String c (literal_prefix p)
  end.

(** [&prefix[..prefix.rfind('/')]], the empty string without a slash. *)
Definition literal_dir (p : bytes) : bytes :=
  match split_once "/" (str_rev (literal_prefix p)) with Some (_, d) => str_rev d | None => "" end.

Fixpoint slashes (p : bytes) : bytes :=
  match p with EmptyString => "" | String c p => String (if bool_decide (c = "\"%char) then "/"%char else c) (slashes p) end.

Class Globs := { is_match : bytes -> bytes -> bool; valid_pattern : bytes -> bool }.

(** A pattern's literal start is matched literally; [q/**] matches everything
    below what [q] matches. *)
Class GlobLaws (G : Globs) : Prop := {
  glob_literal : forall p s, slashes p = p -> literal_dir p <> "" -> is_match p s = true ->
    starts_with (literal_dir p +:+ "/") s = true;
  glob_below : forall q s x, is_match q s = true -> is_match (q +:+ "/**") (s +:+ "/" +:+ x) = true;
  glob_deep : forall q s x, is_match (q +:+ "/**") s = true -> is_match (q +:+ "/**") (s +:+ "/" +:+ x) = true;
}.

(** ** The tree below the root *)

Record Entry := mkEntryAt { names : list bytes; entry_is_file : bool }.

(** [normalize_slashes]. *)
Fixpoint normalize_slashes (rel : list bytes) : bytes :=
  match rel with
  | [] => ""
  | [n] => n
  | n :: rel => n +:+ "/" +:+ normalize_slashes rel
  end.

(** The directories on the way to an entry. *)
Definition ancestors (rel : list bytes) : list (list bytes) := (fun i => take i rel) <$> seq 1 (length rel - 1).

(** [DirectoryWalk]: the entries all of whose directories are kept; [None] for an error. *)
Class Walk := { tree : list Entry; walk : (list bytes -> bool) -> option (list Entry) }.
Class WalkLaws (W : Walk) : Prop := {
  walk_entries : forall keep l e, walk keep = Some l ->
    e ∈ l <-> e ∈ tree /\ Forall (fun a => keep a = true) (ancestors (names e));
}.

Section scan.
Context {G : Globs} {W : Walk} (root : NormalizedPath).

Definition scanned (e : Entry) : ScannedFile :=
  mkScanned (np_join root (normalize_slashes (names e))) (normalize_slashes (names e)).

(** ** By extension *)

Definition walk_files (extensions exclude_dirs : list bytes) : option (list ScannedFile) :=
  let keep dir := match last dir with Some name => negb (bool_decide (name ∈ exclude_dirs)) | None => true end in
  entries ← walk keep;
  let chosen e :=
    entry_is_file e &&
    (bool_decide (extensions = []) ||
     match extension (normalize_slashes (names e)) with
     | Some ext => existsb (fun x => eq_ignore_ascii_case x ext) extensions
     | None => false
     end) in
  Some (sort_by_key relative (scanned <$> filter (fun e => chosen e = true) entries)).

(** ** By patterns *)

Definition set_match (patterns : list bytes) (s : bytes) : bool := existsb (fun p => is_match p s) patterns.

Definition build_globset (patterns : list bytes) : option (list bytes) :=
  if forallb valid_pattern patterns then Some patterns else None.
Definition build_dir_exclude_set (exclude : list bytes) : option (list bytes) :=
  build_globset (omap (strip_suffix "/**") exclude).

Fixpoint include_dirs (include : list bytes) : option (list bytes) :=
  match include with
  | [] => Some []
  | pattern :: include =>
      let dir_prefix := literal_dir (slashes pattern) in
      if bool_decide (dir_prefix = "") then None else rest ← include_dirs include; Some (dir_prefix :: rest)
  end.
Definition extract_include_dir_prefixes (include : list bytes) : option (list bytes) :=
  match include with [] => None | _ => include_dirs include end.

Definition byte_at (n : nat) (s : bytes) : option ascii := String.get n s.
(** [long] goes on below [short]. *)
Definition goes_below (short long : bytes) : bool :=
  (String.length short <? String.length long)%nat && starts_with short long
  && bool_decide (byte_at (String.length short) long = Some "/"%char).
Definition dir_matches_include_prefixes (rel_dir : bytes) (prefixes : list bytes) : bool :=
  existsb (fun p => bool_decide (p = rel_dir) || goes_below rel_dir p || goes_below p rel_dir) prefixes.

Definition keep_directory (dir_exclude : list bytes) (prefixes : option (list bytes)) (dir : list bytes) : bool :=
  if bool_decide (dir = []) then true
  else
    let rel_str := normalize_slashes dir in
    if set_match dir_exclude rel_str then false
    else match prefixes with Some ps => dir_matches_include_prefixes rel_str ps | None => true end.

Definition has_non_dir_excludes (exclude : list bytes) : bool := existsb (fun p => negb (ends_with "/**" p)) exclude.

Definition glob_chosen (include exclude : list bytes) (e : Entry) : bool :=
  let rel := normalize_slashes (names e) in
  entry_is_file e && negb (set_match exclude rel) && (bool_decide (include = []) || set_match include rel)
  && negb (has_non_dir_excludes exclude && existsb (fun a => set_match exclude (normalize_slashes a)) (ancestors (names e))).

Definition walk_files_glob (include exclude : list bytes) : option (list ScannedFile) :=
  include_set ← build_globset include;
  exclude_set ← build_globset exclude;
  dir_exclude_set ← build_dir_exclude_set exclude;
  entries ← walk (keep_directory dir_exclude_set (extract_include_dir_prefixes include));
  Some (sort_by_key relative (scanned <$> filter (fun e => glob_chosen include_set exclude_set e = true) entries)).

(** ** What the walk means

    A file is selected when an include pattern matches it (or there is none) and
    no exclude pattern matches it or a directory it is in. *)
Definition selected (include exclude : list bytes) (e : Entry) : Prop :=
  entry_is_file e = true /\ (include = [] \/ set_match include (normalize_slashes (names e)) = true) /\
  set_match exclude (normalize_slashes (names e)) = false /\
  Forall (fun a => set_match exclude (normalize_slashes a) = false) (ancestors (names e)).

Context {GL : GlobLaws G} {WL : WalkLaws W}.

Lemma set_match_spec ps s : set_match ps s = true <-> exists p, p ∈ ps /\ is_match p s = true.
Proof. unfold set_match. rewrite existsb_exists. by setoid_rewrite list_elem_of_In. Qed.

Lemma normalize_slashes_app a b :
  a <> [] -> b <> [] -> normalize_slashes (a ++ b) = normalize_slashes a +:+ "/" +:+ normalize_slashes b.
Proof.
  intros Ha Hb. induction a as [|n a IH]; [done|]. destruct a as [|m a].
  - destruct b as [|y b]; [done|]. done.
  - assert (normalize_slashes ((m :: a) ++ b) = normalize_slashes (m :: a) +:+ "/" +:+ normalize_slashes b) as Hm by by apply IH.
    change (n +:+ "/" +:+ normalize_slashes ((m :: a) ++ b) = (n +:+ "/" +:+ normalize_slashes (m :: a)) +:+ "/" +:+ normalize_slashes b).
    rewrite Hm. by rewrite !string_app_assoc.
Qed.

Lemma ancestor_split rel a : a ∈ ancestors rel -> a <> [] /\ exists b, b <> [] /\ rel = a ++ b.
Proof.
  unfold ancestors. intros (i & -> & Hi)%list_elem_of_fmap. apply elem_of_seq in Hi.
  split; [intros Hn; apply (f_equal length) in Hn; rewrite length_take in Hn; simpl in Hn; lia|].
  exists (drop i rel). rewrite take_drop. split; [|done].
  intros Hn. apply (f_equal length) in Hn. rewrite length_drop in Hn. simpl in Hn. lia.
Qed.

(** Two directories of one path: equal, or one below the other. *)
Lemma prefixes_comparable d a s :
  starts_with (d +:+ "/") s = true -> starts_with (a +:+ "/") s = true ->
  d = a \/ goes_below a d = true \/ goes_below d a = true.
Proof.
  intros (r & Hr)%starts_with_spec (q & Hq)%starts_with_spec. rewrite !string_app_assoc in *.
  assert (forall x y u v, (String.length x < String.length y)%nat -> x +:+ "/" +:+ u = y +:+ "/" +:+ v -> goes_below x y = true) as Hgo.
  { intros x y u v. revert y. unfold goes_below. intros y Hlen Heq. rewrite (proj2 (Nat.ltb_lt _ _)) by done. cbn [andb].
    assert (exists z, y = x +:+ String "/" z) as [z ->].
    { revert y Hlen Heq. induction x as [|c x IH]; intros y Hlen Heq.
      - destruct y as [|c y]; simpl in *; [lia|]. injection Heq as <- _. by exists y.
      - destruct y as [|c' y]; simpl in *; [lia|]. injection Heq as <- Heq.
        destruct (IH y) as [z ->]; [lia|done|]. by exists z. }
    rewrite (proj2 (starts_with_spec _ _)) by eauto. cbn [andb]. apply bool_decide_eq_true. unfold byte_at. clear.
    induction x; simpl; auto. }
  rewrite Hr in Hq. destruct (lt_eq_lt_dec (String.length d) (String.length a)) as [[Hlt|He]|Hgt].
  - right. right. by apply (Hgo d a r q).
  - left. by apply string_app_inv_len in Hq as [? _].
  - right. left. by apply (Hgo a d q r).
Qed.

Lemma include_dirs_elem include ps p :
  include_dirs include = Some ps -> p ∈ include -> literal_dir (slashes p) <> "" /\ literal_dir (slashes p) ∈ ps.
Proof.
  revert ps. induction include as [|q include IH]; intros ps; simpl; [by intros _ ?%not_elem_of_nil|].
  case_bool_decide as Hd; [done|]. destruct (include_dirs include) as [rest|] eqn:Hr; [|done]. intros [= <-].
  intros [->|Hin]%elem_of_cons; [split; [done|by left]|]. destruct (IH rest eq_refl Hin). split; [done|by right].
Qed.

(** A selected file is in no pruned directory. *)
Lemma selected_kept include exclude dirs e a :
  Forall (fun p => slashes p = p) include -> build_dir_exclude_set exclude = Some dirs ->
  selected include exclude e -> a ∈ ancestors (names e) ->
  keep_directory dirs (extract_include_dir_prefixes include) a = true.
Proof.
  intros Hsl Hdirs (Hfile & Hinc & Hex & Hanc) Ha. destruct (ancestor_split _ _ Ha) as (Hane & b & Hbne & Hab).
  assert (normalize_slashes (names e) = normalize_slashes a +:+ "/" +:+ normalize_slashes b) as Hrel
    by (rewrite Hab; by apply normalize_slashes_app).
  unfold keep_directory. rewrite bool_decide_eq_false_2 by done.
  destruct (set_match dirs (normalize_slashes a)) eqn:Hm.
  { exfalso. apply set_match_spec in Hm as (q & Hq & Hqm). unfold build_dir_exclude_set, build_globset in Hdirs.
    destruct (forallb _ _); [|done]. injection Hdirs as <-. apply list_elem_of_omap in Hq as (p & Hp & Hs).
    apply strip_suffix_Some in Hs as ->. apply (glob_below q _ (normalize_slashes b)) in Hqm. rewrite <- Hrel in Hqm.
    enough (set_match exclude (normalize_slashes (names e)) = true) by congruence. apply set_match_spec. eauto. }
  unfold extract_include_dir_prefixes. destruct include as [|i0 include]; [done|].
  destruct (include_dirs (i0 :: include)) as [ps|] eqn:Hps; [|done].
  destruct Hinc as [?|Hinc]; [done|]. apply set_match_spec in Hinc as (p & Hp & Hpm).
  destruct (include_dirs_elem _ _ _ Hps Hp) as [Hne Hin]. rewrite Forall_forall in Hsl. rewrite (Hsl p Hp) in Hne, Hin.
  unfold dir_matches_include_prefixes. apply existsb_exists. exists (literal_dir p). split; [by apply list_elem_of_In|].
  assert (starts_with (normalize_slashes a +:+ "/") (normalize_slashes (names e)) = true) as Hsa.
  { apply starts_with_spec. exists (normalize_slashes b). by rewrite Hrel, string_app_assoc. }
  destruct (prefixes_comparable (literal_dir p) (normalize_slashes a) (normalize_slashes (names e))) as [->|[->| ->]].
  - apply glob_literal; [by apply Hsl|done|done].
  - done.
  - by rewrite bool_decide_eq_true_2.
  - by rewrite !orb_true_r.
  - by rewrite !orb_true_r.
Qed.

(** An excluded directory is noticed with or without the look at the ancestors. *)
Lemma excluded_ancestors exclude e :
  entry_is_file e = true -> set_match exclude (normalize_slashes (names e)) = false ->
  (has_non_dir_excludes exclude && existsb (fun a => set_match exclude (normalize_slashes a)) (ancestors (names e)) = false <->
   Forall (fun a => set_match exclude (normalize_slashes a) = false) (ancestors (names e))).
Proof.
  intros _ Hex. destruct (existsb (fun a => set_match exclude (normalize_slashes a)) (ancestors (names e))) eqn:Hany.
  - apply existsb_exists in Hany as (a & Ha%list_elem_of_In & Hm). rewrite andb_true_r. split.
    + intros Hno. exfalso. apply set_match_spec in Hm as (p & Hp & Hpm). destruct (ancestor_split _ _ Ha) as (Hane & b & Hbne & Hab).
      assert (ends_with "/**" p = true) as (q & ->)%ends_with_spec.
      { destruct (ends_with "/**" p) eqn:Hend; [done|]. unfold has_non_dir_excludes in Hno.
        enough (existsb (fun p => negb (ends_with "/**" p)) exclude = true) by congruence.
        apply existsb_exists. exists p. split; [by apply list_elem_of_In|]. by rewrite Hend. }
      apply (glob_deep q _ (normalize_slashes b)) in Hpm. rewrite <- normalize_slashes_app in Hpm by done. rewrite <- Hab in Hpm.
      enough (set_match exclude (normalize_slashes (names e)) = true) by congruence. apply set_match_spec. eauto.
    + rewrite Forall_forall. intros Hall. by rewrite Hall in Hm.
  - rewrite andb_false_r. split; [|done]. intros _. apply Forall_forall. intros a Ha.
    destruct (set_match exclude (normalize_slashes a)) eqn:Hm; [|done].
    enough (existsb (fun a => set_match exclude (normalize_slashes a)) (ancestors (names e)) = true) by congruence.
    apply existsb_exists. exists a. split; [by apply list_elem_of_In|done].
Qed.

(** Pruning changes nothing.  The glob walk, which skips directories that an exclude pattern [q/**] covers and
    directories off the literal start of every include pattern, and looks at a file's directories only when some
    exclude pattern is of another form, returns exactly the files below the root that the patterns (without
    backslashes) select: a file that some include pattern matches (or any, without include patterns), that no exclude pattern
    matches and that is in no directory an exclude pattern matches.  They come in the order of their relative paths. *)
Theorem glob_walk_is_filter (include exclude : list bytes) (files : list ScannedFile) :
  Forall (fun p => slashes p = p) include -> walk_files_glob include exclude = Some files ->
  (forall f, f ∈ files <-> exists e, e ∈ tree /\ selected include exclude e /\ f = scanned e) /\
  StronglySorted (fun f g => String.leb (relative f) (relative g) = true) files.
Proof.
  intros Hsl. unfold walk_files_glob.
  destruct (build_globset include) as [inc|] eqn:Hi; [|done]. destruct (build_globset exclude) as [exc|] eqn:Hx; [|done].
  destruct (build_dir_exclude_set exclude) as [dirs|] eqn:Hd; [|done]. cbn [mbind option_bind].
  unfold build_globset in Hi, Hx. destruct (forallb _ include); [|done]. destruct (forallb _ exclude); [|done].
  injection Hi as <-. injection Hx as <-.
  destruct (walk _) as [l|] eqn:Hw; [|done]. intros [= <-]. split; [|apply sort_by_key_sorted].
  intros f. rewrite (sort_by_key_perm relative). rewrite list_elem_of_fmap.
  assert (forall e, glob_chosen include exclude e = true <-> selected include exclude e) as Hch.
  { intros e. unfold glob_chosen, selected. rewrite !andb_true_iff, orb_true_iff, bool_decide_eq_true, !negb_true_iff.
    destruct (entry_is_file e) eqn:Hf; [|naive_solver]. destruct (set_match exclude (normalize_slashes (names e))) eqn:Hm; [naive_solver|].
    rewrite (excluded_ancestors exclude e Hf Hm). naive_solver. }
  split.
  - intros (e & -> & [Hc Hin]%list_elem_of_filter). apply Hch in Hc. apply (walk_entries _ _ _ Hw) in Hin as [Hin _]. eauto.
  - intros (e & Hin & Hsel & ->). exists e. split; [done|]. apply list_elem_of_filter. split; [by apply Hch|].
    apply (walk_entries _ _ _ Hw). split; [done|]. apply Forall_forall. intros a Ha. by eapply selected_kept.
Qed.
End scan.

(** ** An example: a wildcard matches any rest *)

Definition demo_match (p s : bytes) : bool :=
  if bool_decide (literal_prefix p = p) then bool_decide (p = s) else starts_with (literal_prefix p) s.
#[local] Instance demo_globs : Globs := {| is_match := demo_match; valid_pattern _ := true |}.

Lemma literal_prefix_below q :
  literal_prefix (q +:+ "/**") <> q +:+ "/**" /\
  literal_prefix (q +:+ "/**") = (if bool_decide (literal_prefix q = q) then q +:+ "/" else literal_prefix q).
Proof.
  induction q as [|c q [IH1 IH2]]; [done|]. simpl. destruct (is_wildcard c) eqn:Hc; [done|].
  rewrite IH2 in *. split; [by intros [= ?]|].
  destruct (bool_decide_reflect (literal_prefix q = q)) as [He|He].
  - rewrite bool_decide_eq_true_2 by by rewrite He. done.
  - rewrite bool_decide_eq_false_2; [done|]. by intros [= ?].
Qed.

Lemma starts_with_more p s x : starts_with p s = true -> starts_with p (s +:+ x) = true.
Proof. intros (r & ->)%starts_with_spec. apply starts_with_spec. exists (r +:+ x). by rewrite string_app_assoc. Qed.

Lemma literal_dir_prefix p : literal_dir p <> "" -> exists r, literal_prefix p = literal_dir p +:+ "/" +:+ r.
Proof.
  unfold literal_dir. destruct (split_once "/" (str_rev (literal_prefix p))) as [[a d]|] eqn:Hs; [|done]. intros _.
  apply split_once_Some in Hs. exists (str_rev a). rewrite <- (str_rev_involutive (literal_prefix p)), Hs, str_rev_append, str_rev_cons.
  by rewrite string_app_assoc.
Qed.

#[local] Instance demo_glob_laws : GlobLaws demo_globs.
Proof.
  split; cbn [is_match demo_globs]; unfold demo_match.
  - intros p s _ Hd Hm. apply literal_dir_prefix in Hd as [r Hr]. apply starts_with_spec.
    destruct (bool_decide_reflect (literal_prefix p = p)) as [He|He].
    + apply bool_decide_eq_true in Hm as <-. exists r. by rewrite <- He, Hr at 1; rewrite !string_app_assoc.
    + apply starts_with_spec in Hm as [x ->]. exists (r +:+ x). by rewrite Hr, !string_app_assoc.
  - intros q s x Hm. destruct (literal_prefix_below q) as [Hne He]. rewrite bool_decide_eq_false_2 by done. rewrite He.
    destruct (bool_decide (literal_prefix q = q)); [|by apply starts_with_more].
    apply bool_decide_eq_true in Hm as ->. apply starts_with_spec. exists x. by rewrite string_app_assoc.
  - intros q s x. destruct (literal_prefix_below q) as [Hne _]. rewrite bool_decide_eq_false_2 by done. apply starts_with_more.
Qed.

#[local] Instance demo_walk : Walk :=
  {| tree := [mkEntryAt ["src"] false; mkEntryAt ["src"; "a.c"] true; mkEntryAt ["src"; "gen"] false;
              mkEntryAt ["src"; "gen"; "b.c"] true; mkEntryAt ["docs"] false; mkEntryAt ["docs"; "c.c"] true];
     walk keep := Some (filter (fun e => Forall (fun a => keep a = true) (ancestors (names e)))
       [mkEntryAt ["src"] false; mkEntryAt ["src"; "a.c"] true; mkEntryAt ["src"; "gen"] false;
        mkEntryAt ["src"; "gen"; "b.c"] true; mkEntryAt ["docs"] false; mkEntryAt ["docs"; "c.c"] true]) |}.
#[local] Instance demo_walk_laws : WalkLaws demo_walk.
Proof. split. intros keep l e [= <-]. rewrite list_elem_of_filter. tauto. Qed.

Lemma glob_walk_is_filter_witness :
  (forall f, f ∈ [scanned "/p" (mkEntryAt ["src"; "a.c"] true)] <->
     exists e, e ∈ tree /\ selected ["src/**"] ["src/gen/**"] e /\ f = scanned "/p" e) /\
  StronglySorted (fun f g => String.leb (relative f) (relative g) = true) [scanned "/p" (mkEntryAt ["src"; "a.c"] true)].
Proof.
  apply (glob_walk_is_filter "/p" ["src/**"] ["src/gen/**"]).
  - repeat constructor.
  - vm_compute. reflexivity.
Defined.
