(* ===== verification/FpManager.v ===== *)
(** * The daemon's fingerprint watches ([daemon/fingerprint/mod.rs], [verify.rs])

    The daemon keeps, per root and cache file, the files of the root with the
    stats and hashes it last saw, a dirty flag that the watcher's batches raise,
    and the generations that tell whether something changed between a check and
    its mark.  A clean watch is verified against the filesystem before a check
    answers "skip".

    A check runs in phases, because it holds no lock while it reads files; the
    filesystem is a parameter of every phase, so that it may change between any
    two of them.  [canonicalize] and the scan of a root are parameters. *)

From stdpp Require Import list strings gmap.
From Stdlib Require Import Lia.
From S2P Require Import Prelude Path RustStr Hash Fingerprint.

#[local] Open Scope Z_scope.

Record WatchKey := mkWatchKey { key_root : NormalizedPath; key_cache_file : NormalizedPath }.
#[global] Instance WatchKey_eq_dec : EqDecision WatchKey.
Proof. solve_decision. Defined.
#[global] Program Instance WatchKey_countable : Countable WatchKey :=
  inj_countable' (fun k => (key_root k, key_cache_file k)) (fun p => mkWatchKey p.1 p.2) _.
Next Obligation. by intros []. Qed.

(** ** Observations ([verify.rs]) *)

(** What a stat and a read give for a file. *)
Record DiskEntry := mkDiskEntry { d_mtime : Z; d_size : Z; d_id : option Z; d_ctime : Z; d_content : bytes }.
Abbreviation Fs := (gmap NormalizedPath DiskEntry).

Record FileObservation := mkObs { o_mtime_ns : Z; o_size : Z; o_file_id : option Z; o_inode_change_ns : Z }.
#[global] Instance FileObservation_eq_dec : EqDecision FileObservation.
Proof. solve_decision. Defined.

Definition default_observation : FileObservation := mkObs 0 0 None 0.
Definition observation_of (e : DiskEntry) : FileObservation :=
  mkObs (Z.max 0 (d_mtime e)) (d_size e) (d_id e) (d_ctime e).
Definition observe_path (fs : Fs) (p : NormalizedPath) : option FileObservation := observation_of <$> fs !! p.

Record TrackedFile := mkTracked { t_signals : FileObservation; t_hash_hex : bytes }.
#[global] Instance TrackedFile_eq_dec : EqDecision TrackedFile.
Proof. solve_decision. Defined.

Definition t_observe (observed : FileObservation) (hash_hex : bytes) (t : TrackedFile) : TrackedFile := mkTracked observed hash_hex.
Definition t_refresh (observed : FileObservation) (t : TrackedFile) : TrackedFile := mkTracked observed (t_hash_hex t).

Inductive VerificationUpdate :=
  | Missing (rel : bytes)
  | HashFailed (rel : bytes)
  | SmartTouch (rel : bytes) (observed : FileObservation)
  | UContentChanged (rel : bytes) (observed : FileObservation) (hash_hex : bytes).
Definition update_rel (u : VerificationUpdate) : bytes :=
  match u with Missing rel | HashFailed rel | SmartTouch rel _ | UContentChanged rel _ _ => rel end.

(** Layer 1: every signal the platform gives matches. *)
Definition unchanged (tracked : TrackedFile) (observed : FileObservation) : bool :=
  (o_mtime_ns observed =? o_mtime_ns (t_signals tracked)) && (o_size observed =? o_size (t_signals tracked))
  && (o_inode_change_ns observed =? o_inode_change_ns (t_signals tracked))
  && match o_file_id observed with
     | Some id => bool_decide (o_file_id (t_signals tracked) = Some id)
     | None => true
     end.

Record WatchState := mkWatch {
  w_files : gmap bytes TrackedFile;
  w_dirty : bool;
  w_dirty_files : gset bytes;
  w_generation : Z;
  w_checked_generation : Z;
  w_status : bytes;
  w_cache_type : bytes;
  w_root : NormalizedPath;
}.
Definition w_with_files (files : gmap bytes TrackedFile) (w : WatchState) : WatchState :=
  mkWatch files (w_dirty w) (w_dirty_files w) (w_generation w) (w_checked_generation w) (w_status w) (w_cache_type w) (w_root w).

Record FpCheckResult := mkResult { r_decision : bytes; r_reason : option bytes; r_changed_files : list bytes }.
Definition r_skip : FpCheckResult := mkResult "skip" None [].
Definition r_run (reason : bytes) (changed : list bytes) : FpCheckResult := mkResult "run" (Some reason) changed.

Abbreviation Watches := (gmap WatchKey WatchState).

Section manager.
Context {B3 : Blake3} (canonicalize : bytes -> option NormalizedPath)
  (scan_files : Fs -> NormalizedPath -> list bytes -> list bytes -> list bytes -> option (list ScannedFile)).

Definition hash_path (fs : Fs) (p : NormalizedPath) : option bytes := (fun e => to_hex (hash_bytes (d_content e))) <$> fs !! p.

(** [collect_verifications]: the stats with [fs], the hashes of the candidates with [fs']. *)
Definition verification_candidate (fs : Fs) (root : NormalizedPath) (x : bytes * TrackedFile) :
    option (VerificationUpdate + (bytes * FileObservation * bytes)) :=
  let '(rel, tracked) := x in
  match observe_path fs (np_join root rel) with
  | None => Some (inl (Missing rel))
  | Some observed => if unchanged tracked observed then None else Some (inr (rel, observed, t_hash_hex tracked))
  end.
Definition hash_candidate (fs : Fs) (root : NormalizedPath) (c : bytes * FileObservation * bytes) : VerificationUpdate :=
  let '(rel, observed, tracked_hex) := c in
  match hash_path fs (np_join root rel) with
  | None => HashFailed rel
  | Some hash_hex => if bool_decide (hash_hex = tracked_hex) then SmartTouch rel observed else UContentChanged rel observed hash_hex
  end.
Definition collect_verifications (fs fs' : Fs) (root : NormalizedPath) (files : gmap bytes TrackedFile) : list VerificationUpdate :=
  let pass1 := omap (verification_candidate fs root) (map_to_list files) in
  omap (fun x => match x with inl u => Some u | inr _ => None end) pass1
  ++ (hash_candidate fs' root <$> omap (fun x => match x with inr c => Some c | inl _ => None end) pass1).

(** [apply_verifications]: an update is dropped when its entry is not the one it was made from. *)
Definition apply_one (snapshot : gmap bytes TrackedFile) (acc : gmap bytes TrackedFile * list bytes) (u : VerificationUpdate) :
    gmap bytes TrackedFile * list bytes :=
  let '(files, changed) := acc in
  let rel := update_rel u in
  match files !! rel with
  | None => acc
  | Some live =>
      if bool_decide (snapshot !! rel = Some live) then
        match u with
        | Missing _ | HashFailed _ => (files, changed ++ [rel])
        | SmartTouch _ observed => (<[rel := t_refresh observed live]> files, changed)
        | UContentChanged _ observed hash_hex => (<[rel := t_observe observed hash_hex live]> files, changed ++ [rel])
        end
      else acc
  end.
Definition apply_verifications (files snapshot : gmap bytes TrackedFile) (updates : list VerificationUpdate) :
    gmap bytes TrackedFile * list bytes :=
  fold_left (apply_one snapshot) updates (files, []).

(** ** Paths *)

Definition canon_path (path : bytes) : NormalizedPath := default (NormalizedPath_new path) (canonicalize path).
Definition canon_maybe_missing (path : bytes) : NormalizedPath :=
  match canonicalize path with
  | Some c => c
  | None =>
      match path_parent path, file_name path with
      | Some parent, Some name =>
          match canonicalize parent with Some cp => np_join cp name | None => NormalizedPath_new path end
      | _, _ => NormalizedPath_new path
      end
  end.

(** ** [check] by its phases *)

Record CheckArgs := mkArgs {
  a_cache_file : bytes; a_cache_type : bytes; a_root : bytes;
  a_extensions : list bytes; a_include : list bytes; a_exclude : list bytes }.
Definition watch_key (a : CheckArgs) : WatchKey := mkWatchKey (canon_path (a_root a)) (canon_maybe_missing (a_cache_file a)).

Inductive CheckPhase :=
  | PStart
  | PRead (dirty : bool) (status : bytes) (changed : list bytes) (gen : Z)   (* the first look *)
  | PVerify (root : NormalizedPath) (files : gmap bytes TrackedFile)         (* a clean watch, its files copied *)
  | PCollected (files : gmap bytes TrackedFile) (updates : list VerificationUpdate)
  | PScan
  | PScanned (tracked : gmap bytes TrackedFile)
  | PDone (r : FpCheckResult).

Definition mark_checked (gen : Z) (w : WatchState) : WatchState :=
  mkWatch (w_files w) (w_dirty w) (w_dirty_files w) (w_generation w) gen "pending" (w_cache_type w) (w_root w).

(** The write half of a verification. *)
Definition finish_verify (snapshot : gmap bytes TrackedFile) (updates : list VerificationUpdate) (w : WatchState) :
    FpCheckResult * WatchState :=
  let '(files, changed) := apply_verifications (w_files w) snapshot updates in
  let w := w_with_files files w in
  if bool_decide (changed = []) && negb (w_dirty w) then (r_skip, w)
  else
    let new_gen := w_generation w + 1 in
    (r_run "content changed" changed,
     mkWatch files true (w_dirty_files w ∪ list_to_set changed) new_gen new_gen "pending" (w_cache_type w) (w_root w)).

Definition initial_files (fs : Fs) (files : list ScannedFile) : gmap bytes TrackedFile :=
  foldl (fun m f => <[relative f := mkTracked (default default_observation (observe_path fs (absolute f)))
                                      (default "" (hash_path fs (absolute f)))]> m) ∅ files.

Definition check_phase (fs : Fs) (a : CheckArgs) (ph : CheckPhase) (ws : Watches) : CheckPhase * Watches :=
  let key := watch_key a in
  match ph with
  | PStart =>
      match ws !! key with
      | Some w => (PRead (w_dirty w) (w_status w) (elements (w_dirty_files w)) (w_generation w), ws)
      | None => (PScan, ws)
      end
  | PRead dirty status changed gen =>
      if negb dirty && bool_decide (status = "success") then
        match ws !! key with
        | Some w => (PVerify (w_root w) (w_files w), ws)
        | None => (PScan, ws)
        end
      else if dirty then (PDone (r_run "content changed" changed), alter (mark_checked gen) key ws)
      else if bool_decide (status = "failure") then (PDone (r_run "previous failure" []), alter (mark_checked gen) key ws)
      else (PDone (r_run "pending" []), ws)
  | PVerify root files => (PCollected files (collect_verifications fs fs root files), ws)
  | PCollected snapshot updates =>
      match ws !! key with
      | None => (PScan, ws)
      | Some w => let '(r, w) := finish_verify snapshot updates w in (PDone r, <[key := w]> ws)
      end
  | PScan =>
      match scan_files fs (key_root key) (a_extensions a) (a_include a) (a_exclude a) with
      | None => (PDone (r_run "scan error" []), ws)
      | Some files => (PScanned (initial_files fs files), ws)
      end
  | PScanned tracked =>
      (PDone (r_run "no cache file" []),
       <[key := mkWatch tracked false ∅ 0 0 "pending" (a_cache_type a) (key_root key)]> ws)
  | PDone r => (PDone r, ws)
  end.

(** Seven phases at most: a watch that vanishes twice is scanned for. *)
Fixpoint check_from (n : nat) (fs : Fs) (a : CheckArgs) (ph : CheckPhase) (ws : Watches) : CheckPhase * Watches :=
  match n with
  | O => (ph, ws)
  | S n => let '(ph, ws) := check_phase fs a ph ws in check_from n fs a ph ws
  end.

(** A check that nothing interrupts. *)
Definition fp_check (fs : Fs) (a : CheckArgs) (ws : Watches) : CheckPhase * Watches := check_from 7 fs a PStart ws.

(** ** Marks, invalidation and batches *)

(** The first watch of the cache file, in the map's order. *)
Definition first_watch (cache_file : NormalizedPath) (ws : Watches) : option WatchKey :=
  head (filter (fun k => key_cache_file k = cache_file) (map_to_list ws).*1).

Definition succeed (w : WatchState) : WatchState :=
  let clean := w_generation w =? w_checked_generation w in
  mkWatch (w_files w) (if clean then false else w_dirty w) (if clean then ∅ else w_dirty_files w)
    (w_generation w) (w_checked_generation w) "success" (w_cache_type w) (w_root w).
Definition fp_mark_success (cache_file : bytes) (ws : Watches) : Watches :=
  match first_watch (canon_maybe_missing cache_file) ws with Some k => alter succeed k ws | None => ws end.

Definition fail (w : WatchState) : WatchState :=
  mkWatch (w_files w) (w_dirty w) (w_dirty_files w) (w_generation w) (w_checked_generation w) "failure" (w_cache_type w) (w_root w).
Definition fp_mark_failure (cache_file : bytes) (ws : Watches) : Watches :=
  match first_watch (canon_maybe_missing cache_file) ws with Some k => alter fail k ws | None => ws end.

Definition fp_invalidate (cache_file : bytes) (ws : Watches) : Watches :=
  filter (fun kv => key_cache_file kv.1 <> canon_maybe_missing cache_file) ws.

Record ChangedMeta := mkChanged { cm_canon : NormalizedPath; cm_observed : FileObservation; cm_hash_hex : bytes }.
(** What a batch reads before it takes any lock. *)
Definition changed_meta (fs : Fs) (path : bytes) : ChangedMeta :=
  let canonical := canon_path path in
  mkChanged canonical (default default_observation (observe_path fs canonical)) (default "" (hash_path fs canonical)).

(** [to_string_lossy().replace('\\', "/")]. *)
Fixpoint forward_slashes (s : bytes) : bytes :=
  match s with EmptyString => "" | String c s => String (if bool_decide (c = "\"%char) then "/"%char else c) (forward_slashes s) end.

Definition batch_changed (w : WatchState) (cm : ChangedMeta) : WatchState :=
  match forward_slashes <$> np_strip_prefix (cm_canon cm) (w_root w) with
  | None => w
  | Some rel =>
      match w_files w !! rel with
      | Some existing =>
          if bool_decide (t_hash_hex existing = cm_hash_hex cm)
          then w_with_files (<[rel := t_refresh (cm_observed cm) existing]> (w_files w)) w
          else mkWatch (<[rel := mkTracked (cm_observed cm) (cm_hash_hex cm)]> (w_files w)) true ({[rel]} ∪ w_dirty_files w)
                 (w_generation w + 1) (w_checked_generation w) (w_status w) (w_cache_type w) (w_root w)
      | None => mkWatch (<[rel := mkTracked (cm_observed cm) (cm_hash_hex cm)]> (w_files w)) true ({[rel]} ∪ w_dirty_files w)
                  (w_generation w + 1) (w_checked_generation w) (w_status w) (w_cache_type w) (w_root w)
      end
  end.
Definition batch_removed (w : WatchState) (p : NormalizedPath) : WatchState :=
  match forward_slashes <$> np_strip_prefix p (w_root w) with
  | None => w
  | Some rel =>
      match w_files w !! rel with
      | Some _ => mkWatch (delete rel (w_files w)) true ({[rel]} ∪ w_dirty_files w)
                    (w_generation w + 1) (w_checked_generation w) (w_status w) (w_cache_type w) (w_root w)
      | None => w
      end
  end.
(** The in-memory half of [on_batch]. *)
Definition apply_batch (changed : list ChangedMeta) (removed : list NormalizedPath) (ws : Watches) : Watches :=
  (fun w => fold_left batch_removed removed (fold_left batch_changed changed w)) <$> ws.
Definition on_batch (fs : Fs) (changed removed : list bytes) (ws : Watches) : Watches :=
  if bool_decide (changed = []) && bool_decide (removed = []) then ws
  else apply_batch (changed_meta fs <$> changed) (canon_maybe_missing <$> removed) ws.

(** ** Sequences of operations *)

Inductive WatchOp :=
  | WFs (fs : Fs)
  | WCheck (a : CheckArgs)
  | WSuccess (cache_file : bytes)
  | WFailure (cache_file : bytes)
  | WInvalidate (cache_file : bytes)
  | WBatch (changed removed : list bytes).

(** What clients were told and said: a run with the hashes the watch had then, and marks. *)
Inductive WatchLog :=
  | ERan (key : WatchKey) (hashes : gmap bytes bytes)
  | ESucceeded (cache_file : NormalizedPath).

Record WatchSystem := mkWatchSystem { ws_fs : Fs; ws_watches : Watches; ws_trace : list WatchLog }.

Definition hashes (w : WatchState) : gmap bytes bytes := t_hash_hex <$> w_files w.

Definition ran_event (key : WatchKey) (ph : CheckPhase) (ws : Watches) : list WatchLog :=
  match ph, ws !! key with
  | PDone r, Some w => if bool_decide (r_decision r = "run") then [ERan key (hashes w)] else []
  | _, _ => []
  end.

(** A check runs as one step.  The code releases the lock while it looks at the
    files, and a batch may arrive there; [verified_change_dropped] is about that. *)
Definition watch_step (s : WatchSystem) (op : WatchOp) : WatchSystem :=
  match op with
  | WFs fs => mkWatchSystem fs (ws_watches s) (ws_trace s)
  | WCheck a =>
      let '(ph, ws) := fp_check (ws_fs s) a (ws_watches s) in
      mkWatchSystem (ws_fs s) ws (ws_trace s ++ ran_event (watch_key a) ph ws)
  | WSuccess c => mkWatchSystem (ws_fs s) (fp_mark_success c (ws_watches s)) (ws_trace s ++ [ESucceeded (canon_maybe_missing c)])
  | WFailure c => mkWatchSystem (ws_fs s) (fp_mark_failure c (ws_watches s)) (ws_trace s)
  | WInvalidate c => mkWatchSystem (ws_fs s) (fp_invalidate c (ws_watches s)) (ws_trace s)
  | WBatch changed removed => mkWatchSystem (ws_fs s) (on_batch (ws_fs s) changed removed (ws_watches s)) (ws_trace s)
  end.
Definition watch_run (fs : Fs) (ops : list WatchOp) : WatchSystem := fold_left watch_step ops (mkWatchSystem fs ∅ []).

(** ** Lemmas *)

(** A successful run of this watch with these hashes. *)
Definition ran_and_succeeded (tr : list WatchLog) (k : WatchKey) (h : gmap bytes bytes) : Prop :=
  exists t1 t2 t3, tr = t1 ++ ERan k h :: t2 ++ ESucceeded (key_cache_file k) :: t3.

Record watch_ok (tr : list WatchLog) (k : WatchKey) (w : WatchState) : Prop := {
  ok_root : w_root w = key_root k;
  ok_clean : w_dirty w = false -> w_generation w = w_checked_generation w;
  ok_le : w_checked_generation w <= w_generation w;
  ok_ran : w_generation w = w_checked_generation w -> ERan k (hashes w) ∈ tr;
  ok_success : w_status w = "success" -> w_dirty w = false -> ran_and_succeeded tr k (hashes w);
}.

Lemma ran_and_succeeded_app tr ev k h : ran_and_succeeded tr k h -> ran_and_succeeded (tr ++ ev) k h.
Proof.
  intros (t1 & t2 & t3 & ->). exists t1, t2, (t3 ++ ev). rewrite <- !app_assoc. simpl. by rewrite <- !app_assoc.
Qed.

Lemma watch_ok_app tr ev k w : watch_ok tr k w -> watch_ok (tr ++ ev) k w.
Proof.
  intros [Hr Hc Hl Hran Hs]. split; try done.
  - intros Hg. apply elem_of_app. left. auto.
  - intros H1 H2. apply ran_and_succeeded_app. auto.
Qed.

(** *** Batches *)

(** Either nothing but signals moved, or the watch is dirty and a generation on. *)
Lemma batch_changed_ok tr k w cm : watch_ok tr k w -> watch_ok tr k (batch_changed w cm).
Proof.
  intros [Hr Hc Hl Hran Hs]. unfold batch_changed. destruct (forward_slashes <$> _) as [rel|]; [|by split].
  destruct (w_files w !! rel) as [t|] eqn:Ht; [destruct (bool_decide_reflect (t_hash_hex t = cm_hash_hex cm)) as [He|_]|];
    [|split; simpl; try done; intros; lia..].
  assert (hashes (w_with_files (<[rel:=t_refresh (cm_observed cm) t]> (w_files w)) w) = hashes w) as Hh.
  { unfold hashes. cbn [w_files w_with_files]. rewrite fmap_insert. apply insert_id. by rewrite lookup_fmap, Ht. }
  split; rewrite ?Hh; auto.
Qed.

Lemma batch_removed_ok tr k w p : watch_ok tr k w -> watch_ok tr k (batch_removed w p).
Proof.
  intros [Hr Hc Hl Hran Hs]. unfold batch_removed. destruct (forward_slashes <$> _) as [rel|]; [|by split].
  destruct (w_files w !! rel); [|by split]. split; simpl; try done; intros; lia.
Qed.

Lemma fold_ok {A} (f : WatchState -> A -> WatchState) tr k l w :
  (forall w x, watch_ok tr k w -> watch_ok tr k (f w x)) -> watch_ok tr k w -> watch_ok tr k (fold_left f l w).
Proof. intros Hf. revert w. induction l as [|x l IH]; intros w Hw; simpl; auto. Qed.

(** *** Verification *)

Lemma collect_elem fs root files rel t :
  files !! rel = Some t ->
  (exists u, u ∈ collect_verifications fs fs root files /\ update_rel u = rel) \/
  (exists e, fs !! np_join root rel = Some e /\ unchanged t (observation_of e) = true).
Proof.
  intros Hf. unfold collect_verifications. assert ((rel, t) ∈ map_to_list files) as Hin by by apply elem_of_map_to_list.
  destruct (verification_candidate fs root (rel, t)) as [x|] eqn:Hc.
  - left. assert (x ∈ omap (verification_candidate fs root) (map_to_list files)) as Hx
      by (apply list_elem_of_omap; by exists (rel, t)).
    unfold verification_candidate in Hc. destruct (observe_path fs (np_join root rel)) as [o|].
    + destruct (unchanged t o); [done|]. injection Hc as <-. exists (hash_candidate fs root (rel, o, t_hash_hex t)). split.
      * apply elem_of_app. right. apply list_elem_of_fmap. eexists. split; [done|]. apply list_elem_of_omap. by eexists.
      * unfold hash_candidate. destruct (hash_path _ _) as [h|]; [by destruct (bool_decide (h = t_hash_hex t))|done].
    + injection Hc as <-. exists (Missing rel). split; [|done]. apply elem_of_app. left. apply list_elem_of_omap. by eexists.
  - right. unfold verification_candidate in Hc. unfold observe_path in Hc. destruct (fs !! np_join root rel) as [e|]; simpl in Hc; [|done].
    exists e. split; [done|]. by destruct (unchanged t (observation_of e)).
Qed.

Lemma collect_wf fs root files u :
  u ∈ collect_verifications fs fs root files ->
  exists t, files !! update_rel u = Some t /\
    match u with
    | SmartTouch rel _ => exists e, fs !! np_join root rel = Some e /\ t_hash_hex t = to_hex (hash_bytes (d_content e))
    | _ => True
    end.
Proof.
  unfold collect_verifications. intros [Hu|Hu]%elem_of_app.
  - apply list_elem_of_omap in Hu as ([u'|] & Hx & [= ->]).
    apply list_elem_of_omap in Hx as ([rel t] & Hin%elem_of_map_to_list & Hc). unfold verification_candidate in Hc.
    destruct (observe_path _ _); [by case_match|]. injection Hc as <-. by exists t.
  - apply list_elem_of_fmap in Hu as ([[rel o] hex] & -> & Hu). apply list_elem_of_omap in Hu as ([|c] & Hx & [= ->]).
    apply list_elem_of_omap in Hx as ([rel' t] & Hin%elem_of_map_to_list & Hc). unfold verification_candidate in Hc.
    destruct (observe_path _ _); [|done]. destruct (unchanged _ _); [done|]. injection Hc as -> -> <-.
    exists t. unfold hash_candidate, hash_path. destruct (fs !! np_join root rel) as [e|] eqn:He; simpl; [|done].
    case_bool_decide as Hh; [|done]. split; [done|]. exists e. by rewrite <- Hh.
Qed.

(** The updates, applied to the files they were made from, when none says "changed". *)
Lemma apply_quiet snapshot updates files changed files' changed' :
  fold_left (apply_one snapshot) updates (files, changed) = (files', changed') ->
  (forall rel, t_hash_hex <$> files !! rel = t_hash_hex <$> snapshot !! rel) ->
  NoDup (update_rel <$> updates) -> (forall u, u ∈ updates -> files !! update_rel u = snapshot !! update_rel u) ->
  (forall u, u ∈ updates -> is_Some (snapshot !! update_rel u)) -> changed' = changed ->
  t_hash_hex <$> files' = t_hash_hex <$> files /\ (forall u, u ∈ updates -> exists o, u = SmartTouch (update_rel u) o) /\
  (forall rel, rel ∉ update_rel <$> updates -> files' !! rel = files !! rel).
Proof.
  revert files changed. induction updates as [|u updates IH]; intros files changed Hf Hh Hnd Hlive Hsnap Hq; cbn [fold_left] in Hf.
  { injection Hf as -> ->. split_and!; [done| |done]. by intros u ?%not_elem_of_nil. }
  apply NoDup_cons in Hnd as [Hu Hnd].
  assert (exists t, snapshot !! update_rel u = Some t) as [t Ht] by (apply Hsnap; by left).
  assert (files !! update_rel u = Some t) as Hl by (rewrite Hlive; [done|by left]).
  assert (apply_one snapshot (files, changed) u = match u with
      | Missing _ | HashFailed _ => (files, changed ++ [update_rel u])
      | SmartTouch _ observed => (<[update_rel u := t_refresh observed t]> files, changed)
      | UContentChanged _ observed hash_hex => (<[update_rel u := t_observe observed hash_hex t]> files, changed ++ [update_rel u])
      end) as Hone.
  { unfold apply_one. rewrite Hl, bool_decide_eq_true_2 by done. done. }
  assert (forall f c, fold_left (apply_one snapshot) updates (f, c) = (files', changed') ->
    (length c <= length changed')%nat) as Hmono.
  { clear. induction updates as [|v updates IH]; intros f c; cbn [fold_left]; [by intros [= _ ->]|].
    destruct (apply_one snapshot (f, c) v) as [f1 c1] eqn:Hv. intros Hf. transitivity (length c1); [|exact (IH f1 c1 Hf)].
    revert Hv. unfold apply_one. repeat case_match; intros [= <- <-]; rewrite ?length_app; simpl; lia. }
  rewrite Hone in Hf. destruct u as [rel|rel|rel o|rel o hx]; cbn [update_rel] in *;
    try (apply Hmono in Hf; subst changed'; rewrite length_app in Hf; simpl in Hf; lia).
  assert (t_hash_hex <$> <[rel:=t_refresh o t]> files = t_hash_hex <$> files) as Hsame.
  { rewrite fmap_insert. apply insert_id. by rewrite lookup_fmap, Hl. }
  destruct (IH (<[rel:=t_refresh o t]> files) changed) as (H1 & H2 & H3); try done.
  - intros r. rewrite <- Hh, <- !lookup_fmap. by rewrite Hsame.
  - intros u Hin. rewrite lookup_insert_ne; [apply Hlive; by right|]. intros ->. apply Hu. apply list_elem_of_fmap. eauto.
  - intros u Hin. apply Hsnap. by right.
  - split_and!.
    + by rewrite H1.
    + intros u [->|Hin]%elem_of_cons; [by exists o|auto].
    + intros r Hr. rewrite H3, lookup_insert_ne; [done| |]; intros ?; apply Hr; subst; [by left|by right].
Qed.

Lemma collect_nodup fs root files : NoDup (update_rel <$> collect_verifications fs fs root files).
Proof.
  unfold collect_verifications. pose proof (NoDup_fst_map_to_list files) as Hnd.
  induction (map_to_list files) as [|[rel t] l IH]; [constructor|].
  apply NoDup_cons in Hnd as [Hrel Hnd]. specialize (IH Hnd).
  assert (forall r, r ∈ update_rel <$> (omap (fun x => match x with inl u => Some u | inr _ => None end) (omap (verification_candidate fs root) l)
     ++ (hash_candidate fs root <$> omap (fun x => match x with inr c => Some c | inl _ => None end) (omap (verification_candidate fs root) l))) ->
     r ∈ l.*1) as Hsub.
  { intros r (u & -> & Hu)%list_elem_of_fmap. apply list_elem_of_fmap. apply elem_of_app in Hu as [Hu|Hu].
    - apply list_elem_of_omap in Hu as ([u'|] & Hx & [= ->]). apply list_elem_of_omap in Hx as ([r' t'] & Hin & Hc).
      unfold verification_candidate in Hc. destruct (observe_path _ _); [by case_match|]. injection Hc as <-. by exists (r', t').
    - apply list_elem_of_fmap in Hu as (c & -> & Hu). apply list_elem_of_omap in Hu as ([|c'] & Hx & [= ->]).
      apply list_elem_of_omap in Hx as ([r' t'] & Hin & Hc). unfold verification_candidate in Hc.
      destruct (observe_path _ _); [|done]. destruct (unchanged _ _); [done|]. injection Hc as <-. exists (r', t'). split; [|done].
      unfold hash_candidate. destruct (hash_path _ _) as [h|]; [by destruct (bool_decide (h = t_hash_hex t'))|done]. }
  cbn [omap list_omap]. destruct (verification_candidate fs root (rel, t)) as [x|] eqn:Hc; [|done].
  unfold verification_candidate in Hc. destruct (observe_path fs (np_join root rel)) as [o|].
  - destruct (unchanged t o); [done|]. injection Hc as <-. cbn [omap list_omap fmap list_fmap].
    assert (update_rel (hash_candidate fs root (rel, o, t_hash_hex t)) = rel) as Hu.
    { unfold hash_candidate. destruct (hash_path _ _) as [h|]; [by destruct (bool_decide (h = t_hash_hex t))|done]. }
    rewrite <- Permutation_middle. cbn [fmap list_fmap]. rewrite Hu. apply NoDup_cons. split; [|exact IH].
    intros Hin. apply Hrel, Hsub, Hin.
  - injection Hc as <-. cbn [omap list_omap fmap list_fmap app update_rel]. apply NoDup_cons. split; [|exact IH].
    intros Hin. apply Hrel, Hsub, Hin.
Qed.

(** A verification that nothing interrupts. *)
Lemma finish_verify_spec fs tr k w r w' :
  watch_ok tr k w -> w_dirty w = false -> w_status w = "success" ->
  finish_verify (w_files w) (collect_verifications fs fs (w_root w) (w_files w)) w = (r, w') ->
  (r = r_skip /\ watch_ok tr k w' /\
   (forall rel t, w_files w !! rel = Some t -> exists e, fs !! np_join (w_root w) rel = Some e /\
      (unchanged t (observation_of e) = true \/ t_hash_hex t = to_hex (hash_bytes (d_content e))))) \/
  (r_decision r = "run" /\ watch_ok (tr ++ [ERan k (hashes w')]) k w').
Proof.
  intros [Hr Hc Hl Hran Hs] Hd Hst. unfold finish_verify, apply_verifications.
  destruct (fold_left _ _ _) as [files changed] eqn:Hf. cbn [w_dirty w_with_files]. rewrite Hd, andb_true_r.
  destruct (bool_decide_reflect (changed = [])) as [->|Hne]; intros [= <- <-].
  - left. apply apply_quiet in Hf as (Hh & Hall & Hother); [|done|apply collect_nodup|done| |done].
    2:{ intros u Hu. apply collect_wf in Hu as (t & Ht & _). eauto. }
    split_and!; [done| |].
    + split; unfold hashes; cbn [w_root w_dirty w_generation w_checked_generation w_files w_status w_with_files]; rewrite ?Hh; auto.
    + intros rel t Ht. destruct (collect_elem fs (w_root w) _ rel t Ht) as [(u & Hu & <-)|(e & He & Hun)]; [|eauto].
      destruct (Hall u Hu) as [o Ho]. pose proof (collect_wf _ _ _ _ Hu) as (t' & Ht' & Hm).
      rewrite Ho in Hm. cbn [update_rel] in Hm. destruct Hm as (e & He & Hhash). exists e.
      split; [done|]. right. congruence.
  - right. split; [done|]. split; cbn [w_root w_dirty w_generation w_checked_generation w_status]; try done.
    intros _. apply elem_of_app. right. by apply list_elem_of_singleton.
Qed.

Lemma mark_checked_ok tr k w : watch_ok tr k w -> watch_ok (tr ++ [ERan k (hashes w)]) k (mark_checked (w_generation w) w).
Proof.
  intros [Hr Hc Hl Hran Hs]. split; cbn [mark_checked w_root w_dirty w_generation w_checked_generation w_status]; try done.
  intros _. apply elem_of_app. right. by apply list_elem_of_singleton.
Qed.

(** What an uninterrupted check does. *)
Lemma fp_check_cases fs a ws :
  let key := watch_key a in
  fp_check fs a ws =
  match ws !! key with
  | None =>
      match scan_files fs (key_root key) (a_extensions a) (a_include a) (a_exclude a) with
      | None => (PDone (r_run "scan error" []), ws)
      | Some files => (PDone (r_run "no cache file" []),
                       <[key := mkWatch (initial_files fs files) false ∅ 0 0 "pending" (a_cache_type a) (key_root key)]> ws)
      end
  | Some w =>
      if negb (w_dirty w) && bool_decide (w_status w = "success") then
        let '(r, w') := finish_verify (w_files w) (collect_verifications fs fs (w_root w) (w_files w)) w in
        (PDone r, <[key := w']> ws)
      else if w_dirty w then (PDone (r_run "content changed" (elements (w_dirty_files w))), <[key := mark_checked (w_generation w) w]> ws)
      else if bool_decide (w_status w = "failure") then (PDone (r_run "previous failure" []), <[key := mark_checked (w_generation w) w]> ws)
      else (PDone (r_run "pending" []), ws)
  end.
Proof.
  cbn zeta. unfold fp_check. cbn [check_from].
  assert (forall n r ws', check_from n fs a (PDone r) ws' = (PDone r, ws')) as Hdone
    by (induction n as [|n IH]; intros r ws'; [done|apply IH]).
  assert (forall w f, ws !! watch_key a = Some w -> alter f (watch_key a) ws = <[watch_key a := f w]> ws) as Halter.
  { intros w f Hw. apply map_eq. intros k. destruct (decide (k = watch_key a)) as [->|Hne].
    - by rewrite lookup_alter_eq, lookup_insert_eq, Hw.
    - by rewrite lookup_alter_ne, lookup_insert_ne. }
  unfold check_phase at 1. destruct (ws !! watch_key a) as [w|] eqn:Hw.
  - unfold check_phase at 1. rewrite Hw.
    destruct (negb (w_dirty w) && bool_decide (w_status w = "success")).
    + cbn [check_phase]. rewrite Hw. by destruct (finish_verify _ _ w) as [r w'].
    + destruct (w_dirty w); [by rewrite (Halter w)|]. destruct (bool_decide (w_status w = "failure")); [by rewrite (Halter w)|done].
  - cbn [check_phase]. by destruct (scan_files _ _ _ _ _).
Qed.

Definition all_ok (s : WatchSystem) : Prop := forall k w, ws_watches s !! k = Some w -> watch_ok (ws_trace s) k w.

Lemma succeed_ok tr k w : watch_ok tr k w -> watch_ok (tr ++ [ESucceeded (key_cache_file k)]) k (succeed w).
Proof.
  intros [Hr Hc Hl Hran Hs]. unfold succeed.
  split; cbn [w_root w_dirty w_generation w_checked_generation w_status w_files hashes].
  - done.
  - destruct (Z.eqb_spec (w_generation w) (w_checked_generation w)); auto.
  - done.
  - intros Hg. apply elem_of_app. left. auto.
  - intros _. destruct (Z.eqb_spec (w_generation w) (w_checked_generation w)) as [Hg|Hg]; [|intros Hd; by destruct (Hg (Hc Hd))].
    intros _. destruct (list_elem_of_split _ _ (Hran Hg)) as (t1 & t2 & ->). exists t1, t2, []. by rewrite <- app_assoc.
Qed.

Lemma fail_ok tr k w : watch_ok tr k w -> watch_ok tr k (fail w).
Proof. intros [Hr Hc Hl Hran Hs]. by split. Qed.

Lemma first_watch_key c ws k : first_watch c ws = Some k -> key_cache_file k = c.
Proof.
  unfold first_watch. intros Hk. assert (k ∈ filter (fun k => key_cache_file k = c) (map_to_list ws).*1) as Hin.
  { destruct (filter _ _); [done|]. injection Hk as ->. by left. }
  by apply list_elem_of_filter in Hin as [? _].
Qed.

Lemma check_ok s a : all_ok s -> all_ok (watch_step s (WCheck a)).
Proof.
  intros Hok k w'. cbn [watch_step]. rewrite fp_check_cases. cbn zeta.
  assert (forall ev w, ws_watches s !! k = Some w -> watch_ok (ws_trace s ++ ev) k w) as Hold
    by (intros ev w Hw; apply watch_ok_app; auto).
  assert (forall ph w1 ev, (ran_event (watch_key a) ph (<[watch_key a := w1]> (ws_watches s)) = ev) ->
    watch_ok (ws_trace s ++ ev) (watch_key a) w1 ->
    ws_watches (mkWatchSystem (ws_fs s) (<[watch_key a := w1]> (ws_watches s))
      (ws_trace s ++ ran_event (watch_key a) ph (<[watch_key a := w1]> (ws_watches s)))) !! k = Some w' ->
    watch_ok (ws_trace s ++ ran_event (watch_key a) ph (<[watch_key a := w1]> (ws_watches s))) k w') as Hins.
  { intros ph w1 ev Hev Hw1. cbn [ws_watches]. rewrite Hev. intros [[<- <-]|[_ Hk]]%lookup_insert_Some; auto. }
  assert (forall r w1, r_decision r = "run" ->
    ran_event (watch_key a) (PDone r) (<[watch_key a := w1]> (ws_watches s)) = [ERan (watch_key a) (hashes w1)]) as Hrun.
  { intros r w1 Hr. unfold ran_event. by rewrite lookup_insert_eq, bool_decide_eq_true_2. }
  destruct (ws_watches s !! watch_key a) as [w|] eqn:Hw.
  - destruct (negb (w_dirty w) && bool_decide (w_status w = "success")) eqn:Hclean.
    + apply andb_prop in Hclean as [Hd%negb_true_iff Hs%bool_decide_eq_true].
      destruct (finish_verify _ _ w) as [r w1] eqn:Hf.
      eapply finish_verify_spec in Hf as [(-> & Hw1 & _)|[Hr Hw1]]; [| |by apply Hok|done|done].
      * apply (Hins (PDone r_skip) w1 []); [|by rewrite app_nil_r]. unfold ran_event. by rewrite lookup_insert_eq.
      * by apply (Hins (PDone r) w1 _ (Hrun r w1 Hr)).
    + destruct (w_dirty w) eqn:Hd.
      * eapply Hins; [by apply Hrun|]. apply (mark_checked_ok _ _ w). by apply Hok.
      * destruct (bool_decide (w_status w = "failure")).
        -- eapply Hins; [by apply Hrun|]. apply (mark_checked_ok _ _ w). by apply Hok.
        -- cbn [ws_watches ws_trace]. apply Hold.
  - destruct (scan_files _ _ _ _ _) as [files|].
    + eapply Hins; [by apply Hrun|]. split; cbn [w_root w_dirty w_generation w_checked_generation w_status]; try done.
      intros _. apply elem_of_app. right. by apply list_elem_of_singleton.
    + cbn [ws_watches ws_trace]. apply Hold.
Qed.

Lemma alter_ok s f c tr :
  all_ok s -> (forall k w, watch_ok (ws_trace s) k w -> watch_ok tr k w) ->
  (forall k w, key_cache_file k = c -> watch_ok (ws_trace s) k w -> watch_ok tr k (f w)) ->
  forall k w, (match first_watch c (ws_watches s) with Some k => alter f k (ws_watches s) | None => ws_watches s end) !! k = Some w ->
  watch_ok tr k w.
Proof.
  intros Hok Hw Hf k w. destruct (first_watch c (ws_watches s)) as [k0|] eqn:Hk0; [|intros; apply Hw; by apply Hok].
  apply first_watch_key in Hk0. destruct (decide (k = k0)) as [->|Hne].
  - rewrite lookup_alter_eq. intros (w0 & Hw0 & ->)%fmap_Some. apply Hf; [done|by apply Hok].
  - rewrite lookup_alter_ne by done. intros. apply Hw. by apply Hok.
Qed.

Lemma watch_step_ok s op : all_ok s -> all_ok (watch_step s op).
Proof.
  intros Hok. destruct op as [fs|a|c|c|c|changed removed].
  - done.
  - by apply check_ok.
  - intros k w. cbn [watch_step ws_watches ws_trace]. apply (alter_ok s succeed); [done|intros; by apply watch_ok_app|].
    intros k' w' <- Hw'. by apply succeed_ok.
  - intros k w. cbn [watch_step ws_watches ws_trace]. apply (alter_ok s fail); [done|done|]. intros. by apply fail_ok.
  - intros k w. cbn [watch_step ws_watches ws_trace]. unfold fp_invalidate. intros [Hk _]%map_lookup_filter_Some. by apply Hok.
  - intros k w. cbn [watch_step ws_watches ws_trace]. unfold on_batch. destruct (bool_decide _ && _); [by apply Hok|].
    unfold apply_batch. rewrite lookup_fmap. intros (w0 & Hw0 & ->)%fmap_Some.
    apply fold_ok; [intros; by apply batch_removed_ok|]. apply fold_ok; [intros; by apply batch_changed_ok|]. by apply Hok.
Qed.

Lemma watch_run_ok fs ops : all_ok (watch_run fs ops).
Proof.
  unfold watch_run. assert (all_ok (mkWatchSystem fs ∅ [])) as H0 by by intros k w Hk.
  revert H0. generalize (mkWatchSystem fs ∅ []). induction ops as [|op ops IH]; intros s Hs; [done|]. apply IH. by apply watch_step_ok.
Qed.

(** ** Properties *)

(** C28: The daemon's "skip" is backed by a successful run and by a look at every tracked file.  After any sequence
    of checks, marks, invalidations, watcher batches (complete, incomplete or late) and changes of the filesystem, when
    a check that no batch interrupts answers "skip": an earlier check of the same root and cache file told the client
    to run, with the hashes the watch still has, and after it success was reported for the cache file, by this root or
    by another one that uses the same file; and in this very check every tracked file was found, either with all its recorded signals (mtime, size, ctime, identity) or with a
    content of the recorded hash. *)
Theorem watch_skip_verified (fs : Fs) (ops : list WatchOp) (a : CheckArgs) (r : FpCheckResult) :
  let s := watch_run fs ops in
  (fp_check (ws_fs s) a (ws_watches s)).1 = PDone r -> r_decision r = "skip" ->
  exists w t1 t2 t3, ws_watches s !! watch_key a = Some w /\
    ws_trace s = t1 ++ ERan (watch_key a) (hashes w) :: t2 ++ ESucceeded (key_cache_file (watch_key a)) :: t3 /\
    forall rel t, w_files w !! rel = Some t -> exists e, ws_fs s !! np_join (w_root w) rel = Some e /\
      (unchanged t (observation_of e) = true \/ t_hash_hex t = to_hex (hash_bytes (d_content e))).
Proof.
  intros s. pose proof (watch_run_ok fs ops) as Hok. fold s in Hok. rewrite fp_check_cases. cbn zeta.
  destruct (ws_watches s !! watch_key a) as [w|] eqn:Hw.
  2:{ destruct (scan_files _ _ _ _ _); intros [= <-] Hr; done. }
  destruct (negb (w_dirty w) && bool_decide (w_status w = "success")) eqn:Hclean.
  2:{ destruct (w_dirty w); [by intros [= <-]|]. destruct (bool_decide (w_status w = "failure")); by intros [= <-]. }
  apply andb_prop in Hclean as [Hd%negb_true_iff Hs%bool_decide_eq_true].
  destruct (finish_verify _ _ w) as [r' w'] eqn:Hf. intros [= <-] Hr.
  destruct (ok_success _ _ _ (Hok _ _ Hw) Hs Hd) as (t1 & t2 & t3 & Htr). exists w, t1, t2, t3. split_and!; [done|done|].
  eapply finish_verify_spec in Hf as [(_ & _ & Hall)|[Hrun _]]; [exact Hall| |by apply Hok|done|done].
  rewrite Hr in Hrun. done.
Qed.

(** A change that the verification itself has seen can be dropped.  A tracked file is touched; a watcher
    batch stats and hashes it; before the batch is applied the file is rewritten, and a check reads the new content and
    finds it different.  If the batch is applied now, the check takes its own, newer observation for the older one and
    answers "skip", although the content on disk when it looked was not the recorded one. *)
Theorem verified_change_dropped (a : CheckArgs) (w : WatchState) (path rel : bytes) (t : TrackedFile) (fs1 fs2 : Fs) (e1 e2 : DiskEntry) :
  let key := watch_key a in
  let ws : Watches := {[key := w]} in
  w_root w = key_root key -> w_dirty w = false -> w_status w = "success" -> w_files w = {[rel := t]} ->
  np_strip_prefix (canon_path path) (w_root w) = Some rel -> forward_slashes rel = rel -> np_join (w_root w) rel = canon_path path ->
  fs1 !! canon_path path = Some e1 -> t_hash_hex t = to_hex (hash_bytes (d_content e1)) -> t_signals t <> observation_of e1 ->
  fs2 !! canon_path path = Some e2 -> unchanged t (observation_of e2) = false -> t_hash_hex t <> to_hex (hash_bytes (d_content e2)) ->
  let batch := changed_meta fs1 path in
  let '(collected, ws) := check_from 3 fs2 a PStart ws in
  let ws := apply_batch [batch] [] ws in
  collected = PCollected (w_files w) [UContentChanged rel (observation_of e2) (to_hex (hash_bytes (d_content e2)))] /\
  (check_phase fs2 a collected ws).1 = PDone r_skip.
Proof.
  intros key ws Hroot Hd Hs Hfiles Hstrip Hslash Hjoin He1 Hh1 Hs1 He2 Hun Hh2 batch.
  assert (collect_verifications fs2 fs2 (w_root w) (w_files w) =
    [UContentChanged rel (observation_of e2) (to_hex (hash_bytes (d_content e2)))]) as Hcol.
  { unfold collect_verifications. rewrite Hfiles, map_to_list_singleton. cbn [omap list_omap].
    unfold verification_candidate, observe_path. rewrite Hjoin, He2. cbn [fmap option_fmap option_map]. rewrite Hun.
    cbn [omap list_omap fmap list_fmap app]. unfold hash_candidate, hash_path. rewrite Hjoin, He2.
    cbn [fmap option_fmap option_map]. by rewrite bool_decide_eq_false_2 by done. }
  assert (check_from 3 fs2 a PStart ws = (PCollected (w_files w) [UContentChanged rel (observation_of e2) (to_hex (hash_bytes (d_content e2)))], ws)) as ->.
  { cbn [check_from check_phase]. fold key. unfold ws. rewrite !lookup_singleton_eq. cbn [check_phase]. rewrite Hd, Hs, bool_decide_eq_true_2 by done. cbn [negb andb].
    fold key. rewrite !lookup_singleton_eq. cbn [check_phase]. by rewrite Hcol. }
  cbn zeta. split; [done|]. unfold apply_batch. cbn [fold_left check_phase]. fold key. unfold ws.
  rewrite map_fmap_singleton, lookup_singleton_eq.
  assert (batch_changed w batch = w_with_files {[rel := t_refresh (observation_of e1) t]} w) as ->.
  { unfold batch_changed, batch, changed_meta. cbn [cm_canon cm_observed cm_hash_hex]. rewrite Hstrip. cbn [fmap option_fmap option_map].
    rewrite Hslash, Hfiles, lookup_singleton_eq. unfold hash_path, observe_path. rewrite He1. cbn [fmap option_fmap option_map default].
    rewrite bool_decide_eq_true_2 by done. by rewrite insert_singleton_eq. }
  unfold finish_verify, apply_verifications. cbn [fold_left w_files w_with_files]. unfold apply_one at 1.
  cbn [update_rel]. rewrite lookup_singleton_eq, Hfiles, lookup_singleton_eq.
  rewrite bool_decide_eq_false_2. 2:{ intros [= Heq]. apply Hs1. rewrite Heq. done. }
  cbn [w_dirty w_with_files]. rewrite Hd. done.
Qed.

(** An existing watch answers without regard to the filters of the request. *)
Lemma filters_ignored fs ws c ty ty' root ext ext' inc inc' exc exc' :
  is_Some (ws !! watch_key (mkArgs c ty root ext inc exc)) ->
  fp_check fs (mkArgs c ty root ext inc exc) ws = fp_check fs (mkArgs c ty' root ext' inc' exc') ws.
Proof.
  intros [w Hw]. rewrite !fp_check_cases. cbn zeta.
  change (watch_key (mkArgs c ty' root ext' inc' exc')) with (watch_key (mkArgs c ty root ext inc exc)). by rewrite Hw.
Qed.
End manager.

(** ** Examples *)

Definition demo_canonicalize (p : bytes) : option NormalizedPath := Some p.
Definition demo_scan_root (fs : Fs) (root : NormalizedPath) (ext inc exc : list bytes) : option (list ScannedFile) :=
  Some [mkScanned (np_join root "f") "f"].
Definition demo_args (root : bytes) : CheckArgs := mkArgs "/cache" "two-layer" root [] [] [].
Definition demo_entry (t : Z) (content : bytes) : DiskEntry := mkDiskEntry t 1 (Some 7) t content.
Definition demo_watch_fs : Fs := {["/r/f" := demo_entry 5 "A"; "/s/f" := demo_entry 5 "S"]}.

Abbreviation demo_watch_run := (watch_run (B3 := toy_blake3) demo_canonicalize demo_scan_root demo_watch_fs).
Abbreviation demo_check s a := (fp_check (B3 := toy_blake3) demo_canonicalize demo_scan_root (ws_fs s) a (ws_watches s)).
Definition demo_cycle : list WatchOp := [WCheck (demo_args "/r"); WSuccess "/cache"; WBatch ["/r/f"] []].

Lemma watch_skip_verified_witness :
  let s := demo_watch_run demo_cycle in
  exists w t1 t2 t3, ws_watches s !! watch_key demo_canonicalize (demo_args "/r") = Some w /\
    ws_trace s = t1 ++ ERan (watch_key demo_canonicalize (demo_args "/r")) (hashes w)
                   :: t2 ++ ESucceeded (key_cache_file (watch_key demo_canonicalize (demo_args "/r"))) :: t3 /\
    forall rel t, w_files w !! rel = Some t -> exists e, ws_fs s !! np_join (w_root w) rel = Some e /\
      (unchanged t (observation_of e) = true \/ t_hash_hex t = to_hex (hash_bytes (B3 := toy_blake3) (d_content e))).
Proof.
  apply (watch_skip_verified (B3 := toy_blake3) demo_canonicalize demo_scan_root demo_watch_fs demo_cycle (demo_args "/r") r_skip).
  - vm_compute. reflexivity.
  - reflexivity.
Defined.

Lemma verified_change_dropped_witness :
  let a := demo_args "/r" in
  let w := mkWatch {["f" := mkTracked (observation_of (demo_entry 5 "A")) (to_hex (hash_bytes (B3 := toy_blake3) "A"))]}
             false ∅ 0 0 "success" "two-layer" "/r" in
  let batch := changed_meta (B3 := toy_blake3) demo_canonicalize {["/r/f" := demo_entry 6 "A"]} "/r/f" in
  let fs2 : Fs := {["/r/f" := demo_entry 7 "B"]} in
  let '(collected, ws) := check_from (B3 := toy_blake3) demo_canonicalize demo_scan_root 3 fs2 a PStart
                            {[watch_key demo_canonicalize a := w]} in
  let ws := apply_batch [batch] [] ws in
  collected = PCollected (w_files w) [UContentChanged "f" (observation_of (demo_entry 7 "B")) (to_hex (hash_bytes (B3 := toy_blake3) "B"))] /\
  (check_phase (B3 := toy_blake3) demo_canonicalize demo_scan_root fs2 a collected ws).1 = PDone r_skip.
Proof.
  apply (verified_change_dropped (B3 := toy_blake3) demo_canonicalize demo_scan_root (demo_args "/r")
    (mkWatch {["f" := mkTracked (observation_of (demo_entry 5 "A")) (to_hex (hash_bytes (B3 := toy_blake3) "A"))]}
             false ∅ 0 0 "success" "two-layer" "/r") "/r/f" "f"
    (mkTracked (observation_of (demo_entry 5 "A")) (to_hex (hash_bytes (B3 := toy_blake3) "A")))
    {["/r/f" := demo_entry 6 "A"]} {["/r/f" := demo_entry 7 "B"]} (demo_entry 6 "A") (demo_entry 7 "B"));
    first [reflexivity | vm_compute; discriminate].
Defined.

(** Two roots with one cache file: success is reported once, and the root it is taken for skips, also if the
    client had run the other one. *)
Example success_of_another_root :
  let s := demo_watch_run [WCheck (demo_args "/r"); WCheck (demo_args "/s"); WSuccess "/cache"] in
  exists root, root ∈ ["/r"; "/s"] /\ (demo_check s (demo_args root)).1 = PDone r_skip.
Proof. cbn zeta. first [exists "/r"; split; [set_solver|vm_compute; reflexivity] | exists "/s"; split; [set_solver|vm_compute; reflexivity]]. Qed.

(** A file that appears without an event of the watcher is not looked for. *)
Example unseen_new_file :
  let s := demo_watch_run (demo_cycle ++ [WFs (<["/r/new" := demo_entry 9 "N"]> demo_watch_fs)]) in
  (demo_check s (demo_args "/r")).1 = PDone r_skip.
Proof. vm_compute. reflexivity. Qed.
