(* ===== verification/StagedStore.v ===== *)
(** * The staged artifact store ([persist/staged_store.rs], [layout.rs])

    Outputs are published as immutable generations: copied into a temporary
    directory, made durable, renamed to a name that is a digest of the contents,
    and then pointed at by a small file per key.  A lookup follows the pointer and
    checks every byte against the digests.  Here are the publication with its
    materialization of outputs ([staged_store/materialize.rs]) and digest sidecars
    ([link_registry.rs]), the resolver ([zccache-artifact/src/layout.rs]) and the
    clean-up at start.

    The disk is the tree below the staged root, with what is durable: contents
    that were synced and directory entries that were synced.  Every access can
    work, fail or be the last one of the process ([Fate]); a failed or interrupted
    write or removal leaves a part.  One publication runs at a time per key, which
    the publish lock ensures; the store holds no symbolic links.  The theorems are
    in [StagedPublish]. *)

From stdpp Require Import gmap list strings.
From Stdlib Require Import Lia.
From S2P Require Import Prelude Path RustStr Hash Depfile Detect DiskMaintenance.

#[local] Open Scope Z_scope.

(** ** The disk below the staged root *)

Record File := mkFile { f_data : bytes; f_synced : bool }.
Record Entry (A : Type) := mkEntry { item : A; linked : bool }.
Arguments mkEntry {A}.
Arguments item {A}.
Arguments linked {A}.
Abbreviation Dir A := (gmap bytes (Entry A)).
Inductive Child := ChildFile (f : File) | Generation (files : Dir File).
Inductive Top := TopFile (f : File) | KeyRoot (children : Dir Child).
Abbreviation Staged := (Dir Top).

Definition entry_at {A} (n : bytes) (d : Dir A) : option A := item <$> d !! n.
(** Creating or rewriting: a new entry is not durable, an old one stays. *)
Definition put {A} (n : bytes) (x : A) (d : Dir A) : Dir A :=
  <[n := mkEntry x (match d !! n with Some e => linked e | None => false end)]> d.
Definition move {A} (a b : bytes) (d : Dir A) : option (Dir A) :=
  e ← d !! a; Some (<[b := mkEntry (item e) false]> (delete a d)).
Definition sync_entries {A} (d : Dir A) : Dir A := (fun e => mkEntry (item e) true) <$> d.

Definition children (key : bytes) (d : Staged) : option (Dir Child) :=
  match entry_at key d with Some (KeyRoot c) => Some c | _ => None end.
Definition files_in (g : bytes) (c : Dir Child) : option (Dir File) :=
  match entry_at g c with Some (Generation fs) => Some fs | _ => None end.
Definition files (key g : bytes) (d : Staged) : option (Dir File) := c ← children key d; files_in g c.
Definition on_key (key : bytes) (f : Dir Child -> option (Dir Child)) (d : Staged) : option Staged :=
  c ← children key d; c' ← f c; Some (put key (KeyRoot c') d).
Definition on_generation (key g : bytes) (f : Dir File -> option (Dir File)) : Staged -> option Staged :=
  on_key key (fun c => fs ← files_in g c; fs' ← f fs; Some (put g (Generation fs') c)).

(** What a power failure may leave of a disk: all that was durable, and anything
    else. *)
Definition keeps {A} (P : A -> A -> Prop) (d d' : Dir A) : Prop :=
  forall n x, d !! n = Some (mkEntry x true) -> exists x', entry_at n d' = Some x' /\ P x x'.
Definition keeps_file (f f' : File) : Prop := f_synced f = true -> f_data f' = f_data f.
Definition keeps_child (c c' : Child) : Prop :=
  match c with
  | ChildFile f => exists f', c' = ChildFile f' /\ keeps_file f f'
  | Generation fs => exists fs', c' = Generation fs' /\ keeps keeps_file fs fs'
  end.
Definition keeps_top (t t' : Top) : Prop :=
  match t with
  | TopFile f => exists f', t' = TopFile f' /\ keeps_file f f'
  | KeyRoot c => exists c', t' = KeyRoot c' /\ keeps keeps_child c c'
  end.
Definition power_loss : Staged -> Staged -> Prop := keeps keeps_top.

(** ** Names *)

Definition STAGED_MANIFEST_VERSION : Z := 1.
Definition STORE_LOCK : bytes := ".store.lock".
Definition PUBLISH_LOCK : bytes := ".publish.lock".
Definition pointer_path (key : bytes) : bytes := key +:+ ".current".
Definition output_path (i : nat) : bytes := "output-" +:+ decimal (Z.of_nat i).
Definition manifest_path : bytes := "manifest.bin".
Definition temporary_path (name : bytes) (pid nonce : Z) (suffix : bytes) : bytes :=
  "." +:+ name +:+ "." +:+ decimal pid +:+ "." +:+ decimal nonce +:+ "-" +:+ suffix.
Definition temporary_generation (pid n : Z) : bytes := ".tmp-" +:+ decimal pid +:+ "-" +:+ decimal n.

(** ** Manifests *)

Record StagedOutput := mkOutput { o_index : nat; o_size : Z; digest_hex : bytes }.
Record StagedManifest := mkManifest {
  m_version : Z;
  m_key_hex : bytes;
  m_generation_hex : bytes;
  m_outputs : list StagedOutput
}.

(** bincode on manifests. *)
Class ManifestCodec := {
  serialize_manifest : StagedManifest -> option bytes;
  deserialize_manifest : bytes -> option StagedManifest
}.
Class ManifestCodecLaws `{!ManifestCodec} := {
  manifest_roundtrip : forall m b, serialize_manifest m = Some b -> deserialize_manifest b = Some m
}.

Inductive ErrorKind := NotFound | InvalidData | InvalidInput.

Definition read_to_string (f : File) : ErrorKind + bytes :=
  if from_utf8_ok (f_data f) then inr (f_data f) else inl InvalidData.
Definition read_pointer (key : bytes) (d : Staged) : ErrorKind + bytes :=
  match entry_at (pointer_path key) d with
  | Some (TopFile f) => read_to_string f
  | Some (KeyRoot _) => inl InvalidData
  | None => inl NotFound
  end.
Definition data_of (n : bytes) (fs : Dir File) : ErrorKind + bytes :=
  match entry_at n fs with Some f => inr (f_data f) | None => inl NotFound end.

Definition validate_key (key : bytes) : ErrorKind + unit :=
  if staged_key_supported key then inr tt else inl InvalidInput.
Definition validate_generation (g : bytes) : ErrorKind + unit :=
  if negb (String.length g =? 64)%nat || negb (all_hex g) then inl InvalidData else inr tt.

Section Digests.
Context {B3 : Blake3} {MC : ManifestCodec}.

(** The error monad of the readers. *)
#[local] Instance ek_ret : MRet (sum ErrorKind) := fun A => inr.
#[local] Instance ek_bind : MBind (sum ErrorKind) := fun A B f m =>
  match m with inl e => inl e | inr a => f a end.

Definition output_row (o : StagedOutput) : bytes :=
  le_bytes 8 (Z.of_nat (o_index o)) +:+ le_bytes 8 (o_size o) +:+ digest_hex o.
Fixpoint output_rows (l : list StagedOutput) : bytes :=
  match l with [] => "" | o :: l => output_row o +:+ output_rows l end.
Definition generation_preimage (key : bytes) (outputs : list StagedOutput) : bytes := key +:+ output_rows outputs.
Definition generation_digest (key : bytes) (outputs : list StagedOutput) : bytes :=
  to_hex (blake3 (generation_preimage key outputs)).

(** Size, hexadecimal digest and digest of a file's contents. *)
Definition digest_file (data : bytes) : Z * bytes * bytes :=
  (Z.of_nat (String.length data), to_hex (blake3 data), blake3 data).

Definition load_manifest (fs : Dir File) (expected_key expected_generation : bytes) : ErrorKind + StagedManifest :=
  b ← data_of manifest_path fs;
  match deserialize_manifest b with
  | None => inl InvalidData
  | Some m =>
      if negb (m_version m =? STAGED_MANIFEST_VERSION) || negb (bool_decide (m_key_hex m = expected_key))
         || negb (bool_decide (m_generation_hex m = expected_generation))
      then inl InvalidData else inr m
  end.

(** One output against its row: a new index in range, the size, the digest. *)
Definition check_output (fs : Dir File) (seen : list bool) (o : StagedOutput) : ErrorKind + list bool :=
  match seen !! o_index o with
  | Some false =>
      b ← data_of (output_path (o_index o)) fs;
      if negb (Z.of_nat (String.length b) =? o_size o) then inl InvalidData
      else if negb (bool_decide ((digest_file b).1.2 = digest_hex o)) then inl InvalidData
      else inr (<[o_index o := true]> seen)
  | _ => inl InvalidData
  end.
Fixpoint check_outputs (fs : Dir File) (seen : list bool) (l : list StagedOutput) : ErrorKind + list bool :=
  match l with
  | [] => inr seen
  | o :: l => seen' ← check_output fs seen o; check_outputs fs seen' l
  end.

Definition open_generation (key g : bytes) (d : Staged) : ErrorKind + (Dir File * StagedManifest) :=
  match files key g d with
  | None => inl NotFound
  | Some fs =>
      m ← load_manifest fs key g;
      if negb (bool_decide (generation_digest key (m_outputs m) = g)) then inl InvalidData else inr (fs, m)
  end.

(** [validate_staged_generation] of the publisher. *)
Definition validate_staged_generation (key g : bytes) (d : Staged) : ErrorKind + unit :=
  _ ← validate_generation g;
  '(fs, m) ← open_generation key g d;
  seen ← check_outputs fs (replicate (length (m_outputs m)) false) (m_outputs m);
  if existsb negb seen then inl InvalidData else inr tt.

(** The resolver of [layout.rs]; a path below the key's directory is the name of
    the generation and the name of the file. *)
Definition load_published_generation (key : bytes) (d : Staged) : ErrorKind + option (bytes * Dir File * list StagedOutput) :=
  _ ← validate_key key;
  match read_pointer key d with
  | inl NotFound => inr None
  | inl e => inl e
  | inr value =>
      let g := str_trim value in
      _ ← validate_generation g;
      '(fs, m) ← open_generation key g d;
      inr (Some (g, fs, m_outputs m))
  end.

Definition index_leb (a b : nat * bytes) : bool := (a.1 <=? b.1)%nat.
Definition verify_generation_outputs (fs : Dir File) (outputs : list StagedOutput) : ErrorKind + list bytes :=
  _ ← check_outputs fs (replicate (length outputs) false) outputs;
  inr (sort_by index_leb ((fun o => (o_index o, output_path (o_index o))) <$> outputs)).*2.

Definition size_matches (sizes : list Z) (o : StagedOutput) : bool :=
  match sizes !! o_index o with Some s => s =? o_size o | None => false end.
Definition validated_staged_generation (key : bytes) (sizes : list Z) (d : Staged) :
    ErrorKind + option (bytes * Dir File * list StagedOutput * list bytes) :=
  r ← load_published_generation key d;
  match r with
  | None => inr None
  | Some (g, fs, outputs) =>
      if negb (length outputs =? length sizes)%nat then inl InvalidData
      else if negb (forallb (size_matches sizes) outputs) then inl InvalidData
      else paths ← verify_generation_outputs fs outputs; inr (Some (g, fs, outputs, paths))
  end.
Definition resolve_staged_artifact_files (key : bytes) (sizes : list Z) (d : Staged) : ErrorKind + option (list (bytes * bytes)) :=
  match validated_staged_generation key sizes d with
  | inl e => inl e
  | inr None => inr None
  | inr (Some (g, _, _, paths)) => inr (Some ((g,.) <$> paths))
  end.

(** [verified_staged_generation]: the sizes from the manifest alone. *)
Definition verified_staged_generation (key : bytes) (d : Staged) : ErrorKind + option (list Z) :=
  r ← load_published_generation key d;
  match r with
  | None => inr None
  | Some (_, fs, outputs) =>
      _ ← verify_generation_outputs fs outputs;
      inr (Some (fold_left (fun sizes o => <[o_index o := o_size o]> sizes) outputs (replicate (length outputs) 0)))
  end.

Definition published_staged_keys (d : Staged) : list bytes :=
  sort_by_key id
    (omap (fun '(name, e) =>
             match item e with
             | TopFile _ => key ← strip_suffix ".current" name; if validate_key key is inr _ then Some key else None
             | KeyRoot _ => None
             end) (map_to_list d)).

(** What a request gets for a key: the contents of the resolved files. *)
Definition content (key : bytes) (p : bytes * bytes) (d : Staged) : option bytes :=
  fs ← files key p.1 d; f_data <$> entry_at p.2 fs.
Definition served (key : bytes) (sizes : list Z) (d : Staged) : option (list bytes) :=
  match resolve_staged_artifact_files key sizes d with
  | inr (Some paths) => mapM (fun p => content key p d) paths
  | _ => None
  end.
End Digests.

(** ** Accesses that may fail *)

Inductive StagedPublishFailure :=
  | StoreSetup | OutputCopy | OutputDurability | HashFailure | DurableDigest | ManifestFailure
  | GenerationPublish | PointerCommit | IndexCommit | Conflict.

(** What callers inspect of an error is its reason ([staged_publish_failure]). *)
Inductive Stop := Err (reason : option StagedPublishFailure) | Killed.

Record World := mkStoreWorld {
  w_disk : Staged;
  w_counter : Z;  (** [STAGED_ARTIFACT_TMP_COUNTER] *)
  w_sidecars : Z; (** [ARTIFACT_PERSIST_TMP_COUNTER] *)
  w_tick : nat    (** accesses so far *)
}.
Abbreviation IO := (SE World Stop).

(** A failed or interrupted write leaves the contents it chooses, or nothing; a
    removal of a tree leaves the names it chooses. *)
Record Junk := mkJunk { j_data : option bytes; j_keep : bytes -> bool }.
Inductive Fate := Works | Fails (j : Junk) | Dies (j : Junk).

Definition set_disk (d : Staged) (w : World) : World := mkStoreWorld d (w_counter w) (w_sidecars w) (S (w_tick w)).

Inductive StagedSource := SourcePath (p : bytes) | SourceBytes (b : bytes).
Inductive MaterializationMode := AutoMode | ReflinkOrLinkOrCopy | LinkMode | CopyMode | ReflinkMode.

Record PersistArtifactFileStats := mkPersistStats { reflink_count : Z; copy_count : Z; copy_bytes : Z }.

Section Publication.
Context {B3 : Blake3} {MC : ManifestCodec}.
(** The process, what happens at each access, and the files of the workspace. *)
Context (pid : Z) (fate : nat -> Fate) (workspace : bytes -> option bytes).

Definition step (effect : Staged -> option Staged) (torn : Junk -> Staged -> Staged) : IO unit := fun w =>
  match fate (w_tick w) with
  | Works =>
      match effect (w_disk w) with
      | Some d => (inr tt, set_disk d w)
      | None => (inl (Err None), set_disk (w_disk w) w)
      end
  | Fails j => (inl (Err None), set_disk (torn j (w_disk w)) w)
  | Dies j => (inl Killed, set_disk (torn j (w_disk w)) w)
  end.
Definition whole (_ : Junk) (d : Staged) : Staged := d.
(** An access that changes neither names nor contents: locks, times, permissions. *)
Definition touch_disk : IO unit := step Some whole.
Definition read_disk {A} (f : Staged -> option A) : IO A :=
  touch_disk;; w ← se_get;
  match f (w_disk w) with Some a => mret a | None => se_fail (Err None) end.
Definition publish_error {A} (reason : StagedPublishFailure) (m : IO A) : IO A := fun w =>
  match m w with (inl (Err _), w') => (inl (Err (Some reason)), w') | r => r end.
(** [let _ = ...] and [.ok()]. *)
Definition attempt {A} (m : IO A) : IO (option A) := fun w =>
  match m w with
  | (inr a, w') => (inr (Some a), w')
  | (inl (Err _), w') => (inr None, w')
  | (inl Killed, w') => (inl Killed, w')
  end.
(** Clean-up on an error, which the process must live to do. *)
Definition or_cleanup {A} (m : IO A) (cleanup : IO unit) : IO A := fun w =>
  match m w with
  | (inl (Err e), w') => (attempt cleanup;; se_fail (Err e)) w'
  | r => r
  end.
Definition fetch_counter : IO Z := fun w =>
  (inr (w_counter w), mkStoreWorld (w_disk w) (wrap64 (w_counter w + 1)) (w_sidecars w) (w_tick w)).

(** *** Files of a generation *)

Definition write_in (key g n : bytes) (b : bytes) : IO unit :=
  step (on_generation key g (fun fs => Some (put n (mkFile b false) fs)))
       (fun j d => match j_data j with
                   | Some b => default d (on_generation key g (fun fs => Some (put n (mkFile b false) fs)) d)
                   | None => d
                   end).
Definition create_new (key g n : bytes) : IO unit :=
  step (on_generation key g (fun fs => if entry_at n fs is Some _ then None else Some (put n (mkFile "" false) fs))) whole.
Definition remove_in (key g n : bytes) : IO unit :=
  step (on_generation key g (fun fs => if entry_at n fs is Some _ then Some (delete n fs) else None)) whole.
Definition sync_file (key g n : bytes) : IO unit :=
  step (on_generation key g (fun fs => f ← entry_at n fs; Some (put n (mkFile (f_data f) true) fs))) whole.
Definition read_in (key g n : bytes) : IO bytes :=
  read_disk (fun d => fs ← files key g d; f_data <$> entry_at n fs).
Definition replace_in (key g a b : bytes) : IO unit := step (on_generation key g (move a b)) whole.

(** *** Digest sidecars ([link_registry.rs]) *)

Definition digest_path (name : bytes) : bytes := ".cowhash-" +:+ to_hex (blake3 name).
Definition sidecar_tmp (name : bytes) (counter : Z) : bytes :=
  "." +:+ digest_path name +:+ ".tmp-" +:+ decimal pid +:+ "-" +:+ decimal counter.
(** The loop over [create_new]: the first counter whose name is free. *)
Fixpoint free_counter (fuel : nat) (name : bytes) (counter : Z) (fs : Dir File) : Z :=
  match fuel with
  | O => counter
  | S fuel => if entry_at (sidecar_tmp name counter) fs is Some _ then free_counter fuel name (wrap64 (counter + 1)) fs else counter
  end.
Definition take_sidecar_counter (key g name : bytes) : IO Z := fun w =>
  let fs := default ∅ (files key g (w_disk w)) in
  let c := free_counter (S (size fs)) name (w_sidecars w) fs in
  (inr c, mkStoreWorld (w_disk w) (w_counter w) (wrap64 (c + 1)) (w_tick w)).
Definition write_digest_sidecar (digest key g name : bytes) : IO unit :=
  c ← take_sidecar_counter key g name;
  create_new key g (sidecar_tmp name c);;
  or_cleanup
    (write_in key g (sidecar_tmp name c) digest;; replace_in key g (sidecar_tmp name c) (digest_path name))
    (remove_in key g (sidecar_tmp name c)).

(** *** Materialization of one output ([materialize.rs]) *)

Definition copy_independent (key g n b : bytes) (mode : MaterializationMode) : IO (bool * Z) :=
  reflinked ← match mode with CopyMode => mret None | _ => attempt (write_in key g n b) end;
  match reflinked with
  | Some _ => mret (true, 0)
  | None =>
      attempt (remove_in key g n);;
      write_in key g n b;;
      mret (false, Z.of_nat (String.length b))
  end.
Definition copy_output_with (source key g n : bytes) (mode : MaterializationMode) : IO (bool * Z) :=
  touch_disk;;
  match workspace source with
  | None => se_fail (Err None)
  | Some b =>
      touch_disk;;
      r ← or_cleanup (copy_independent key g n b mode) (remove_in key g n);
      touch_disk;; touch_disk;;
      mret r
  end.
Definition write_to (source : StagedSource) (key g n : bytes) (mode : MaterializationMode) : IO (bool * Z) :=
  match source with
  | SourcePath p => copy_output_with p key g n mode
  | SourceBytes b => touch_disk;; write_in key g n b;; mret (false, Z.of_nat (String.length b))
  end.

(** One turn of the loop over the sources. *)
Definition stage_output (key g : bytes) (mode : MaterializationMode) (index : nat) (source : StagedSource) :
    IO (StagedOutput * (bool * Z)) :=
  let n := output_path index in
  r ← publish_error OutputCopy (write_to source key g n mode);
  publish_error OutputDurability (sync_file key g n);;
  publish_error OutputCopy touch_disk;;
  b ← publish_error HashFailure (read_in key g n);
  let '(size, hex, digest) := digest_file b in
  publish_error DurableDigest (write_digest_sidecar digest key g n);;
  mret (mkOutput index size hex, r).

Definition add_stats (r : bool * Z) (s : PersistArtifactFileStats) : PersistArtifactFileStats :=
  if r.1 then mkPersistStats (reflink_count s + 1) (copy_count s) (copy_bytes s)
  else mkPersistStats (reflink_count s) (copy_count s + 1) (copy_bytes s + r.2).
Fixpoint stage_outputs (key g : bytes) (mode : MaterializationMode) (index : nat) (sources : list StagedSource)
    (outputs : list StagedOutput) (stats : PersistArtifactFileStats) : IO (list StagedOutput * PersistArtifactFileStats) :=
  match sources with
  | [] => mret (outputs, stats)
  | source :: rest =>
      '(o, r) ← stage_output key g mode index source;
      stage_outputs key g mode (S index) rest (outputs ++ [o]) (add_stats r stats)
  end.

(** *** Trees and the pointer *)

(** [remove_dir_all] and [remove_staged_tree] of a directory in the key's
    directory; [Ok] when there is none. *)
Definition remove_tree (key g : bytes) : IO unit :=
  step (fun d => Some (default d (on_key key (fun c => Some (delete g c)) d)))
       (fun j d => default d (on_generation key g (fun fs => Some (filter (fun e => j_keep j e.1) fs)) d)).
(** [remove_staged_tree] of the pointer; [remove_registered_blob] also removes a
    sidecar. *)
Definition remove_pointer (key : bytes) : IO unit :=
  step (fun d => Some (if entry_at (pointer_path key) d is Some _
                       then delete (digest_path (pointer_path key)) (delete (pointer_path key) d) else d))
       (fun j d => if j_keep j (pointer_path key) then d else delete (pointer_path key) d).
Definition sync_generation (key g : bytes) : IO unit := step (on_generation key g (fun fs => Some (sync_entries fs))) whole.
Definition sync_key_root (key : bytes) : IO unit := step (on_key key (fun c => Some (sync_entries c))) whole.
Definition sync_root : IO unit := step (fun d => Some (sync_entries d)) whole.

Definition put_top (n : bytes) (f : File) (d : Staged) : Staged := put n (TopFile f) d.
Definition atomic_write (name : bytes) (b : bytes) : IO unit :=
  nonce ← fetch_counter;
  let t := temporary_path name pid nonce "tmp" in
  or_cleanup
    (step (fun d => if entry_at t d is Some _ then None else Some (put_top t (mkFile "" false) d)) whole;;
     step (fun d => Some (put_top t (mkFile b false) d))
          (fun j d => match j_data j with Some b => put_top t (mkFile b false) d | None => d end);;
     step (fun d => Some (put_top t (mkFile b true) d)) whole;;
     step (move t name) whole)
    (step (fun d => if entry_at t d is Some _ then Some (delete t d) else None) whole).

Definition remove_uncommitted_generation (key g : bytes) : IO unit :=
  value ← attempt (read_disk (fun d => if read_pointer key d is inr v then Some v else None));
  if bool_decide (str_trim <$> value = Some g) then mret tt else attempt (remove_tree key g);; mret tt.

(** *** The publication *)

(** What the pointer says already: [Some g'] is an invalid generation to remove
    after the commit; a valid other generation is a conflict. *)
Definition settle_previous (key g : bytes) : IO (option bytes) :=
  value ← attempt (read_disk (fun d => if read_pointer key d is inr v then Some v else None));
  match value with
  | None => mret None
  | Some value =>
      let previous := str_trim value in
      if bool_decide (previous = "") || bool_decide (previous = g) then mret None
      else
        valid ← attempt (read_disk (fun d => if validate_staged_generation key previous d is inr _ then Some tt else None));
        match valid with
        | Some _ =>
            attempt (remove_tree key previous);;
            attempt (remove_pointer key);;
            se_fail (Err (Some Conflict))
        | None => mret (if validate_generation previous is inr _ then Some previous else None)
        end
  end.

Definition rename_generation (key t g : bytes) : IO bool :=
  renamed ← attempt (step (on_key key (fun c => if entry_at g c is Some _ then None else move t g c)) whole);
  match renamed with
  | Some _ => mret true
  | None =>
      present ← attempt (read_disk (fun d => c ← children key d; entry_at g c));
      match present with
      | Some _ => attempt (remove_tree key t);; mret false
      | None => se_fail (Err (Some GenerationPublish))
      end
  end.

Definition commit_pointer (key g : bytes) (renamed : bool) : IO unit :=
  let undo := if renamed then remove_uncommitted_generation key g else mret tt in
  publish_error PointerCommit (or_cleanup (atomic_write (pointer_path key) g) undo);;
  publish_error PointerCommit (or_cleanup sync_root undo).

Definition write_manifest (key t b : bytes) : IO unit :=
  publish_error ManifestFailure (write_in key t manifest_path b);;
  publish_error ManifestFailure (sync_file key t manifest_path);;
  publish_error GenerationPublish (sync_generation key t).
Definition install_generation (key t g b : bytes) (invalid : option bytes) : IO unit :=
  write_manifest key t b;;
  renamed ← rename_generation key t g;
  publish_error GenerationPublish (sync_key_root key);;
  commit_pointer key g renamed;;
  match invalid with
  | Some previous => attempt (remove_tree key previous);; mret tt
  | None => mret tt
  end.
Definition publish_outputs (key t : bytes) (outputs : list StagedOutput) : IO unit :=
  let g := generation_digest key outputs in
  match validate_generation g with
  | inl _ => se_fail (Err None)
  | inr _ =>
      invalid ← settle_previous key g;
      match serialize_manifest (mkManifest STAGED_MANIFEST_VERSION key g outputs) with
      | None => se_fail (Err (Some ManifestFailure))
      | Some b => install_generation key t g b invalid
      end
  end.
Definition publish_generation (key t : bytes) (mode : MaterializationMode) (sources : list StagedSource) :
    IO PersistArtifactFileStats :=
  '(outputs, stats) ← stage_outputs key t mode 0 sources [] (mkPersistStats 0 0 0);
  publish_outputs key t outputs;;
  mret stats.

Definition open_store_lock : IO unit :=
  step (fun d => Some (if entry_at STORE_LOCK d is Some _ then d else put_top STORE_LOCK (mkFile "" false) d)) whole.
(** The store lock, the key's directory and its publish lock. *)
Definition open_staged_key (key : bytes) : IO unit :=
  open_store_lock;; touch_disk;;
  step (fun d => match entry_at key d with
                 | None => Some (put key (KeyRoot ∅) d)
                 | Some (KeyRoot _) => Some d
                 | Some (TopFile _) => None
                 end) whole;;
  step (on_key key (fun c => Some (if entry_at PUBLISH_LOCK c is Some _ then c
                                   else put PUBLISH_LOCK (ChildFile (mkFile "" false)) c))) whole;;
  touch_disk.
Definition create_generation (key t : bytes) : IO unit :=
  step (on_key key (fun c => if entry_at t c is Some _ then None else Some (put t (Generation ∅) c))) whole.
Definition persist_staged_generation (key : bytes) (sources : list StagedSource) (mode : MaterializationMode) :
    IO PersistArtifactFileStats :=
  match validate_key key, sources with
  | inl _, _ | _, [] => se_fail (Err None)
  | inr _, _ =>
      publish_error StoreSetup (open_staged_key key);;
      n ← fetch_counter;
      let t := temporary_generation pid n in
      publish_error StoreSetup (create_generation key t);;
      or_cleanup (publish_generation key t mode sources) (remove_tree key t)
  end.

Definition persist_staged_artifact_paths_with_mode (key : bytes) (sources : list bytes) (mode : MaterializationMode) :=
  persist_staged_generation key (SourcePath <$> sources) mode.
Definition persist_staged_artifact_payloads (key : bytes) (payloads : list bytes) : IO PersistArtifactFileStats :=
  match payloads with [] => se_fail (Err None) | _ => persist_staged_generation key (SourceBytes <$> payloads) AutoMode end.

(** *** Clean-up at start, and removal of everything *)

Definition is_generation (c : Child) : bool := match c with Generation _ => true | ChildFile _ => false end.
Definition stale_child (current : option bytes) (name : bytes) (c : Child) : bool :=
  negb (bool_decide (name = PUBLISH_LOCK))
  && (starts_with ".tmp-" name || (is_generation c && negb (bool_decide (current = Some name)))).
Definition remove_child (key name : bytes) (c : Child) : IO unit :=
  if is_generation c then remove_tree key name
  else step (on_key key (fun c => if entry_at name c is Some _ then Some (delete name c) else None)) whole.
Fixpoint clean_children (key : bytes) (current : option bytes) (l : list (bytes * Entry Child)) (removed : nat) : IO nat :=
  match l with
  | [] => mret removed
  | (name, e) :: rest =>
      if stale_child current name (item e)
      then remove_child key name (item e);; clean_children key current rest (S removed)
      else clean_children key current rest removed
  end.
Fixpoint clean_entries (l : list (bytes * Entry Top)) (removed : nat) : IO nat :=
  match l with
  | [] => mret removed
  | (name, e) :: rest =>
      match item e with
      | TopFile _ =>
          if starts_with "." name && negb (bool_decide (name = STORE_LOCK))
          then step (fun d => if entry_at name d is Some _ then Some (delete name d) else None) whole;;
               clean_entries rest (S removed)
          else clean_entries rest removed
      | KeyRoot _ =>
          value ← attempt (read_disk (fun d => if read_pointer name d is inr v then Some v else None));
          l ← read_disk (fun d => map_to_list <$> children name d);
          removed ← clean_children name (str_trim <$> value) l removed;
          clean_entries rest removed
      end
  end.
Definition cleanup_staged_artifact_temps : IO nat :=
  open_store_lock;; touch_disk;;
  l ← read_disk (fun d => Some (map_to_list d));
  clean_entries l 0%nat.

Definition part_of_child (j : Junk) (c : Child) : Child :=
  match c with Generation fs => Generation (filter (fun e => j_keep j e.1) fs) | ChildFile f => ChildFile f end.
Definition part_of_key (j : Junk) (c : Dir Child) : Dir Child :=
  (fun e => mkEntry (part_of_child j (item e)) (linked e)) <$> filter (fun e => j_keep j e.1) c.
(** [remove_staged_tree] of an entry of the root. *)
Definition remove_top (name : bytes) : IO unit :=
  step (fun d => Some match entry_at name d with
                      | Some (TopFile _) => delete (digest_path name) (delete name d)
                      | _ => delete name d
                      end)
       (fun j d => match entry_at name d with
                   | Some (KeyRoot c) => put name (KeyRoot (part_of_key j c)) d
                   | _ => d
                   end).
Fixpoint clear_entries (l : list (bytes * Entry Top)) : IO unit :=
  match l with
  | [] => mret tt
  | (name, _) :: rest =>
      if bool_decide (name = STORE_LOCK) then clear_entries rest else remove_top name;; clear_entries rest
  end.
Definition clear_staged_artifacts : IO unit :=
  open_store_lock;; touch_disk;;
  l ← read_disk (fun d => Some (map_to_list d));
  clear_entries l.
End Publication.

(** ** Which lanes are staged

    The value of [ZCCACHE_STAGED_ARTIFACTS], if set. *)

Definition one_of (l : list bytes) (v : bytes) : bool := existsb (fun w => bool_decide (w = v)) l.
Definition lane_value (v : bytes) : bytes := to_ascii_lowercase (str_trim v).
Definition all_lanes : list bytes := ["all"; "1"; "true"; "yes"; "on"].
Definition staged_artifacts_enabled_for (value : option bytes) : bool :=
  match value with None => true | Some v => negb (one_of [""; "0"; "false"; "off"; "no"] (lane_value v)) end.
Definition staged_lane_enabled_for (value : option bytes) (family : CompilerFamily) : bool :=
  match value with
  | None => bool_decide (family = Rustc)
  | Some v =>
      let v := lane_value v in
      if one_of all_lanes v then true
      else if one_of ["rust"] v then bool_decide (family = Rustc)
      else if one_of ["c"; "cc"; "c-cpp"; "cpp"] v then match family with Gcc | Clang | Msvc => true | _ => false end
      else false
  end.
Definition staged_archive_lane_enabled_for (value : option bytes) : bool :=
  match value with None => true | Some v => one_of (all_lanes ++ ["c"; "cc"; "c-cpp"; "cpp"]) (lane_value v) end.
Definition staged_link_lane_enabled_for (value : option bytes) : bool :=
  match value with None => false | Some v => one_of all_lanes (lane_value v) end.
Definition staged_exec_lane_enabled_for (value : option bytes) : bool :=
  match value with None => false | Some v => one_of (all_lanes ++ ["exec"]) (lane_value v) end.
