(* ===== verification/StagedPublish.v ===== *)
(** * Publications are atomic, durable and authentic ([StagedStore])

    What holds of a computation whatever its accesses do ([keeps_rel], [ends]), the
    states a publication can leave ([aftermath]), what requests see of them
    ([answers]), power failures ([durable]) and whole histories of a store
    ([authentic]). *)

From stdpp Require Import gmap list strings.
From Stdlib Require Import Lia.
From S2P Require Import Prelude Path RustStr Hash Depfile DiskMaintenance StagedStore.

#[local] Open Scope Z_scope.

(** ** Names that cannot be confused *)

Definition dotted (n : bytes) : bool := starts_with "." n.

Lemma dotted_cons n : dotted (String "." n) = true.
Proof. done. Qed.
Lemma dotted_head c n : dotted (String c n) = bool_decide ("."%char = c).
Proof. unfold dotted, starts_with. cbn [strip_prefix]. by destruct (bool_decide ("."%char = c)). Qed.
Lemma hex_head_not_dotted c n : is_hexdigit c = true -> dotted (String c n) = false.
Proof. rewrite dotted_head. intros Hc. by apply bool_decide_eq_false_2; intros <-. Qed.
Lemma hex_not_dotted n : all_hex n = true -> dotted n = false.
Proof. destruct n as [|c n]; [done|]. intros [Hc _]%andb_true_iff. by apply hex_head_not_dotted. Qed.
Lemma all_hex_app a b : all_hex (a +:+ b) = all_hex a && all_hex b.
Proof. induction a as [|c a IH]; simpl; [done|]. by rewrite IH, andb_assoc. Qed.
Lemma supported_hex key : staged_key_supported key = true -> all_hex key = true /\ key <> "".
Proof.
  unfold staged_key_supported. intros [[Hne%negb_true_iff _]%andb_true_iff Hh]%andb_true_iff. split; [done|].
  by apply bool_decide_eq_false in Hne.
Qed.
Lemma pointer_not_hex key : all_hex (pointer_path key) = false.
Proof. unfold pointer_path. rewrite all_hex_app. by apply andb_false_r. Qed.
Lemma pointer_path_inj k1 k2 : pointer_path k1 = pointer_path k2 -> k1 = k2.
Proof.
  unfold pointer_path. intros Heq. assert (String.length k1 = String.length k2) as Hl.
  { apply (f_equal String.length) in Heq. rewrite !string_length_app in Heq. lia. }
  by apply string_app_inv_len in Heq as [? _].
Qed.
Lemma pointer_not_dotted key : staged_key_supported key = true -> dotted (pointer_path key) = false.
Proof.
  intros [Hh Hne]%supported_hex. destruct key as [|c key]; [done|]. simpl in Hh. apply andb_true_iff in Hh as [Hc _].
  by apply hex_head_not_dotted.
Qed.
Lemma validate_generation_hex g u : validate_generation g = inr u -> all_hex g = true /\ String.length g = 64%nat.
Proof.
  unfold validate_generation. destruct (Nat.eqb_spec (String.length g) 64); simpl; [|done].
  by destruct (all_hex g).
Qed.

(** ** Relations that a computation keeps, whatever its accesses do *)

Definition result_disk {A} (m : IO A) (w : World) : Staged := w_disk (m w).2.
Definition keeps_rel {A} (R : Staged -> Staged -> Prop) (m : IO A) : Prop := forall w, R (w_disk w) (result_disk m w).

Create HintDb staged.

Section KeepsRel.
Context (R : Staged -> Staged -> Prop) `{!PreOrder R} (fate : nat -> Fate).

Lemma keeps_ret {A} (a : A) : keeps_rel R (mret a).
Proof. intros w. cbn. reflexivity. Qed.
Lemma keeps_fail {A} (e : Stop) : keeps_rel R (se_fail e : IO A).
Proof. intros w. cbn. reflexivity. Qed.
Lemma keeps_get : keeps_rel R (se_get : IO World).
Proof. intros w. cbn. reflexivity. Qed.
Lemma keeps_fetch : keeps_rel R fetch_counter.
Proof. intros w. cbn. reflexivity. Qed.
Lemma keeps_bind {A B} (m : IO A) (k : A -> IO B) :
  keeps_rel R m -> (forall a, keeps_rel R (k a)) -> keeps_rel R (m ≫= k).
Proof.
  intros Hm Hk w. specialize (Hm w). unfold result_disk, mbind, SE_bind in *.
  destruct (m w) as [[e|a] w']; simpl in *; [done|]. etrans; [exact Hm|]. apply Hk.
Qed.
Lemma keeps_publish_error {A} reason (m : IO A) : keeps_rel R m -> keeps_rel R (publish_error reason m).
Proof. intros Hm w. specialize (Hm w). unfold result_disk, publish_error in *. by destruct (m w) as [[[e|]|a] w']. Qed.
Lemma keeps_attempt {A} (m : IO A) : keeps_rel R m -> keeps_rel R (attempt m).
Proof. intros Hm w. specialize (Hm w). unfold result_disk, attempt in *. by destruct (m w) as [[[e|]|a] w']. Qed.
Lemma keeps_cleanup {A} (m : IO A) c : keeps_rel R m -> keeps_rel R c -> keeps_rel R (or_cleanup m c).
Proof.
  intros Hm Hc w. specialize (Hm w). unfold result_disk, or_cleanup in *. destruct (m w) as [[[e|]|a] w']; try done.
  etrans; [exact Hm|].
  refine (keeps_bind (attempt c) (fun _ => se_fail (Err e)) _ _ w'); [by apply keeps_attempt|]. intros _. apply keeps_fail.
Qed.
Lemma keeps_step effect torn :
  (forall d d', effect d = Some d' -> R d d') -> (forall j d, R d (torn j d)) -> keeps_rel R (step fate effect torn).
Proof.
  intros He Ht w. unfold result_disk, step. destruct (fate (w_tick w)); cbn; [|apply Ht..].
  destruct (effect (w_disk w)) eqn:E; cbn; [by apply He|reflexivity].
Qed.
Lemma keeps_whole effect : (forall d d', effect d = Some d' -> R d d') -> keeps_rel R (step fate effect whole).
Proof. intros He. apply keeps_step; [done|]. intros j d. cbn. reflexivity. Qed.
Lemma keeps_touch : keeps_rel R (touch_disk fate).
Proof. apply keeps_whole. intros d d' [= <-]. reflexivity. Qed.
Lemma keeps_read {A} (f : Staged -> option A) : keeps_rel R (read_disk fate f).
Proof.
  unfold read_disk. apply keeps_bind; [apply keeps_touch|intros _]. apply keeps_bind; [apply keeps_get|intros w].
  destruct (f (w_disk w)); [apply keeps_ret|apply keeps_fail].
Qed.
End KeepsRel.

Lemma keeps_mono {A} (R S : Staged -> Staged -> Prop) (m : IO A) :
  (forall d d', R d d' -> S d d') -> keeps_rel R m -> keeps_rel S m.
Proof. intros H Hm w. apply H, Hm. Qed.

#[export] Hint Resolve keeps_ret keeps_fail keeps_get keeps_fetch keeps_bind keeps_publish_error keeps_attempt
  keeps_cleanup keeps_touch keeps_read : staged.

(** ** Lookups in a directory *)

Section Entries.
Context {A : Type}.
Implicit Types (d : Dir A) (n : bytes).

Lemma get_put_eq n x d : entry_at n (put n x d) = Some x.
Proof. unfold entry_at, put. by rewrite lookup_insert_eq. Qed.
Lemma get_put_ne n m x d : n <> m -> entry_at n (put m x d) = entry_at n d.
Proof. intros. unfold entry_at, put. by rewrite lookup_insert_ne by done. Qed.
Lemma get_delete_eq n d : entry_at n (delete n d) = None.
Proof. unfold entry_at. by rewrite lookup_delete_eq. Qed.
Lemma get_delete_ne n m d : n <> m -> entry_at n (delete m d) = entry_at n d.
Proof. intros. unfold entry_at. by rewrite lookup_delete_ne by done. Qed.
Lemma get_sync n d : entry_at n (sync_entries d) = entry_at n d.
Proof. unfold entry_at, sync_entries. rewrite lookup_fmap. by destruct (d !! n). Qed.
Lemma move_inv a b d d' :
  move a b d = Some d' -> exists e, d !! a = Some e /\ d' = <[b := mkEntry (item e) false]> (delete a d).
Proof. unfold move. destruct (d !! a) as [e|] eqn:E; [|done]. intros [= <-]. by exists e. Qed.
Lemma get_move a b d d' n :
  move a b d = Some d' -> n <> a -> entry_at n d' = if bool_decide (n = b) then entry_at a d else entry_at n d.
Proof.
  intros (e & He & ->)%move_inv Hn. unfold entry_at. case_bool_decide as Hb.
  - subst. by rewrite lookup_insert_eq, He.
  - by rewrite lookup_insert_ne, lookup_delete_ne by done.
Qed.
Lemma get_some n x d : entry_at n d = Some x -> exists e, d !! n = Some e /\ item e = x.
Proof. unfold entry_at. destruct (d !! n) as [e|]; [|done]. intros [= <-]. by exists e. Qed.
Lemma put_is_some n x d : is_Some (put n x d !! n).
Proof. unfold put. by rewrite lookup_insert_eq. Qed.
End Entries.

(** ** Work below one temporary generation *)

Definition child (key n : bytes) (d : Staged) : option Child := c ← children key d; entry_at n c.

Lemma files_child key g d : files key g d = match child key g d with Some (Generation fs) => Some fs | _ => None end.
Proof. unfold files, child, files_in. by destruct (children key d). Qed.

(** The items of the root other than the key's directory are the same, and so are
    the key's children other than [t]. *)
Definition within (key t : bytes) (d d' : Staged) : Prop :=
  (forall n, n <> key -> entry_at n d' = entry_at n d) /\ (forall n, n <> t -> child key n d' = child key n d) /\
  (is_Some (children key d) -> is_Some (children key d')).
#[export] Instance within_preorder key t : PreOrder (within key t).
Proof.
  split; [done|]. intros d1 d2 d3 (H1 & H2 & H3) (H4 & H5 & H6). split_and!; [|..|by eauto].
  - intros n Hn. by rewrite H4, H1.
  - intros n Hn. by rewrite H5, H2.
Qed.

(** The same, and of the files of [t] only those in [N] change. *)
Definition touches (key t : bytes) (N : bytes -> Prop) (d d' : Staged) : Prop :=
  within key t d d' /\
  forall fs, files key t d = Some fs -> exists fs', files key t d' = Some fs' /\ forall n, ~ N n -> fs' !! n = fs !! n.
#[export] Instance touches_preorder key t N : PreOrder (touches key t N).
Proof.
  split.
  - intros d. split; [reflexivity|]. intros fs Hfs. by exists fs.
  - intros d1 d2 d3 [Hw1 H1] [Hw2 H2]. split; [by etrans|]. intros fs Hfs.
    destruct (H1 fs Hfs) as (fs2 & Hfs2 & E2). destruct (H2 fs2 Hfs2) as (fs3 & Hfs3 & E3).
    exists fs3. split; [done|]. intros n Hn. by rewrite E3, E2.
Qed.
Lemma touches_within key t N d d' : touches key t N d d' -> within key t d d'.
Proof. by intros [H _]. Qed.
Lemma touches_mono key t (N M : bytes -> Prop) d d' : (forall n, N n -> M n) -> touches key t N d d' -> touches key t M d d'.
Proof. intros HNM [Hw H]. split; [done|]. intros fs Hfs. destruct (H fs Hfs) as (fs' & ? & E). exists fs'. split; [done|]. eauto. Qed.

Lemma on_key_inv key f d d' :
  on_key key f d = Some d' ->
  exists c c', children key d = Some c /\ f c = Some c' /\ children key d' = Some c' /\ d' = put key (KeyRoot c') d.
Proof.
  unfold on_key. destruct (children key d) as [c|]; [|done]. simpl. destruct (f c) as [c'|] eqn:E; [|done].
  intros Heq. injection Heq as <-. exists c, c'. split_and!; [done..| |done]. unfold children. by rewrite get_put_eq.
Qed.
Lemma on_generation_inv key g f d d' :
  on_generation key g f d = Some d' ->
  exists fs fs', files key g d = Some fs /\ f fs = Some fs' /\ files key g d' = Some fs' /\ within key g d d'.
Proof.
  intros (c & c' & Hc & Hf & Hc' & ->)%on_key_inv. unfold files. rewrite Hc, Hc'. simpl.
  destruct (files_in g c) as [fs|]; [|done]. simpl in Hf. destruct (f fs) as [fs'|] eqn:E; [|done].
  simpl in Hf. injection Hf as <-. exists fs, fs'. split_and!; [done..| |].
  - unfold files_in. by rewrite get_put_eq.
  - split_and!.
    + intros n Hn. by rewrite get_put_ne.
    + intros n Hn. unfold child. rewrite Hc, Hc'. simpl. by rewrite get_put_ne.
    + by rewrite Hc'.
Qed.
Lemma on_generation_touches key g f (N : bytes -> Prop) d d' :
  (forall fs fs', f fs = Some fs' -> forall n, ~ N n -> fs' !! n = fs !! n) ->
  on_generation key g f d = Some d' -> touches key g N d d'.
Proof.
  intros Hf (fs & fs' & Hfs & Hf' & Hfs' & Hw)%on_generation_inv. split; [done|].
  intros ? [= <-]%(eq_trans (eq_sym Hfs)). exists fs'. split; [done|]. by apply Hf.
Qed.

(** ** Numbers in names *)

Fixpoint digits_value (a : Z) (s : bytes) : Z :=
  match s with EmptyString => a | String c s => digits_value (a * 10 + (byte_val c - 48)) s end.
Lemma decimal_go_value fuel n acc :
  0 <= n < 10 ^ Z.of_nat fuel -> digits_value 0 (decimal_go fuel n acc) = digits_value n acc.
Proof.
  revert n acc. induction fuel as [|fuel IH]; intros n acc Hn.
  { change (10 ^ Z.of_nat 0) with 1 in Hn. assert (n = 0) as -> by lia. done. }
  rewrite Nat2Z.inj_succ, Z.pow_succ_r in Hn by lia. cbn [decimal_go].
  assert (byte_val (ascii_of_N (Z.to_N (48 + n `mod` 10))) - 48 = n `mod` 10) as Hd.
  { pose proof (Z.mod_pos_bound n 10 ltac:(lia)). fold (byte_of (48 + n `mod` 10)). rewrite byte_val_of by lia. lia. }
  destruct (Z.ltb_spec n 10) as [Hlt|Hge].
  - cbn [digits_value]. by rewrite Hd, Z.mod_small by lia.
  - rewrite IH by (split; [apply Z.div_pos; lia|apply Z.div_lt_upper_bound; lia]). cbn [digits_value]. rewrite Hd.
    f_equal. pose proof (Z.div_mod n 10 ltac:(lia)). lia.
Qed.
Lemma decimal_inj a b : 0 <= a < 2 ^ 64 -> 0 <= b < 2 ^ 64 -> decimal a = decimal b -> a = b.
Proof.
  intros Ha Hb Heq. apply (f_equal (digits_value 0)) in Heq. unfold decimal in Heq.
  by rewrite !decimal_go_value in Heq by (change (10 ^ Z.of_nat 20) with 100000000000000000000; lia).
Qed.
Lemma output_path_inj i j :
  Z.of_nat i < 2 ^ 64 -> Z.of_nat j < 2 ^ 64 -> output_path i = output_path j -> i = j.
Proof.
  intros Hi Hj Heq. unfold output_path in Heq. simpl in Heq. injection Heq as Heq.
  apply decimal_inj in Heq; lia.
Qed.
Lemma output_not_dotted i : dotted (output_path i) = false.
Proof. done. Qed.
Lemma manifest_not_output i : manifest_path <> output_path i.
Proof. done. Qed.

(** ** What successful accesses did *)

Lemma step_ok fate effect torn w u w' :
  step fate effect torn w = (inr u, w') -> effect (w_disk w) = Some (w_disk w').
Proof.
  unfold step. destruct (fate (w_tick w)); [|done..]. destruct (effect (w_disk w)) as [d|]; [|done].
  intros H. injection H as <- <-. done.
Qed.
Lemma touch_ok fate w u w' : touch_disk fate w = (inr u, w') -> w_disk w' = w_disk w.
Proof. intros [= Heq]%step_ok. done. Qed.
Lemma read_disk_ok {A} fate (f : Staged -> option A) w a w' :
  read_disk fate f w = (inr a, w') -> w_disk w' = w_disk w /\ f (w_disk w) = Some a.
Proof.
  unfold read_disk. intros (u & w1 & H1 & H)%se_bind_inr_inv. apply touch_ok in H1.
  apply se_bind_inr_inv in H as (w2 & w3 & H2 & H). unfold se_get in H2. injection H2 as <- <-. rewrite H1 in H.
  destruct (f (w_disk w)) as [b|]; [|done]. unfold mret, SE_ret in H. injection H as <- <-. by rewrite H1.
Qed.
Lemma publish_error_ok {A} reason (m : IO A) w a w' :
  publish_error reason m w = (inr a, w') -> m w = (inr a, w').
Proof. unfold publish_error. by destruct (m w) as [[[e|]|b] w1]. Qed.
Lemma or_cleanup_ok {A} (m : IO A) c w a w' : or_cleanup m c w = (inr a, w') -> m w = (inr a, w').
Proof.
  unfold or_cleanup. destruct (m w) as [[[e|]|b] w1]; [|done..].
  intros (? & ? & _ & H)%se_bind_inr_inv. done.
Qed.
Lemma attempt_some {A} (m : IO A) w a w' : attempt m w = (inr (Some a), w') -> m w = (inr a, w').
Proof. unfold attempt. destruct (m w) as [[[e|]|b] w1]; [done..|]. intros H. by injection H as <- <-. Qed.

Lemma io_ret_ok {A} (a : A) w b w' : (mret a : IO A) w = (inr b, w') -> b = a /\ w' = w.
Proof. unfold mret, SE_ret. by intros [= -> ->]. Qed.

Ltac io_inv :=
  repeat match goal with
  | H : (_ ≫= _) _ = (inr _, _) |- _ => apply se_bind_inr_inv in H as (? & ? & ? & H)
  | H : publish_error _ _ _ = (inr _, _) |- _ => apply publish_error_ok in H
  | H : or_cleanup _ _ _ = (inr _, _) |- _ => apply or_cleanup_ok in H
  | H : @mret (SE World Stop) _ _ ?a ?w = (inr _, _) |- _ => apply io_ret_ok in H as [? ?]; subst
  | H : touch_disk _ _ = (inr _, _) |- _ => apply touch_ok in H
  | H : read_disk _ _ _ = (inr _, _) |- _ => apply read_disk_ok in H as [? H]
  end.

Section Staging.
Context {B3 : Blake3} {MC : ManifestCodec} (pid : Z) (fate : nat -> Fate) (workspace : bytes -> option bytes).
Context (key t : bytes).

Definition has (n : bytes) (f : File) (d : Staged) : Prop := exists fs, files key t d = Some fs /\ entry_at n fs = Some f.

Lemma has_touches N n f d d' : touches key t N d d' -> ~ N n -> has n f d -> has n f d'.
Proof.
  intros [_ H] Hn (fs & Hfs & Hg). destruct (H fs Hfs) as (fs' & Hfs' & E). exists fs'. split; [done|].
  unfold entry_at. by rewrite (E n Hn).
Qed.

Lemma put_other n x (fs : Dir File) m : n <> m -> put n x fs !! m = fs !! m.
Proof. intros. unfold put. by rewrite lookup_insert_ne. Qed.

Lemma write_in_touches n b : keeps_rel (touches key t (eq n)) (write_in fate key t n b).
Proof.
  assert (forall b d d', on_generation key t (fun fs => Some (put n (mkFile b false) fs)) d = Some d' -> touches key t (eq n) d d') as Hput.
  { intros b' d d'. apply on_generation_touches. intros fs fs' [= <-] m Hm. by apply put_other. }
  apply keeps_step; [typeclasses eauto|apply Hput|]. intros j d. destruct (j_data j) as [b'|]; [|reflexivity].
  destruct (on_generation _ _ _ d) eqn:E; simpl; [by eapply Hput|reflexivity].
Qed.
Lemma create_new_touches n : keeps_rel (touches key t (eq n)) (create_new fate key t n).
Proof.
  apply keeps_whole; [typeclasses eauto|]. intros d d'. apply on_generation_touches. intros fs fs' H m Hm.
  destruct (entry_at n fs); [done|]. injection H as <-. by apply put_other.
Qed.
Lemma remove_in_touches n : keeps_rel (touches key t (eq n)) (remove_in fate key t n).
Proof.
  apply keeps_whole; [typeclasses eauto|]. intros d d'. apply on_generation_touches. intros fs fs' H m Hm.
  destruct (entry_at n fs); [|done]. injection H as <-. by rewrite lookup_delete_ne.
Qed.
Lemma sync_file_touches n : keeps_rel (touches key t (eq n)) (sync_file fate key t n).
Proof.
  apply keeps_whole; [typeclasses eauto|]. intros d d'. apply on_generation_touches. intros fs fs' H m Hm.
  destruct (entry_at n fs) as [f|]; [|done]. simpl in H. injection H as <-. by apply put_other.
Qed.
Lemma replace_in_touches a b : keeps_rel (touches key t (fun n => n = a \/ n = b)) (replace_in fate key t a b).
Proof.
  apply keeps_whole; [typeclasses eauto|]. intros d d'. apply on_generation_touches.
  intros fs fs' (e & He & ->)%move_inv m Hm. rewrite lookup_insert_ne, lookup_delete_ne; naive_solver.
Qed.
Lemma take_counter_keeps R `{!PreOrder R} n : keeps_rel R (take_sidecar_counter pid key t n).
Proof. intros w. cbn. reflexivity. Qed.

Lemma keeps_more {A} (N M : bytes -> Prop) (m : IO A) :
  (forall n, N n -> M n) -> keeps_rel (touches key t N) m -> keeps_rel (touches key t M) m.
Proof. intros H. apply keeps_mono. intros d d'. by apply touches_mono. Qed.

Lemma sidecar_touches digest n : keeps_rel (touches key t (fun m => dotted m = true)) (write_digest_sidecar pid fate digest key t n).
Proof.
  unfold write_digest_sidecar. apply keeps_bind; [typeclasses eauto|apply take_counter_keeps; typeclasses eauto|intros c].
  apply keeps_bind; [typeclasses eauto| |intros _].
  { eapply keeps_more, create_new_touches. by intros ? <-. }
  apply keeps_cleanup; [typeclasses eauto| |].
  - apply keeps_bind; [typeclasses eauto| |intros _].
    + eapply keeps_more, write_in_touches. by intros ? <-.
    + eapply keeps_more, replace_in_touches. by intros ? [->| ->].
  - eapply keeps_more, remove_in_touches. by intros ? <-.
Qed.

#[local] Hint Resolve write_in_touches create_new_touches remove_in_touches sync_file_touches : core.

Lemma write_to_touches source n mode : keeps_rel (touches key t (eq n)) (write_to fate workspace source key t n mode).
Proof.
  destruct source as [p|b]; cbn; [unfold copy_output_with|]; [|by eauto 10 with staged typeclass_instances].
  apply keeps_bind; [typeclasses eauto|by apply keeps_touch; typeclasses eauto|intros _].
  destruct (workspace p) as [b|]; [|by eauto with staged typeclass_instances].
  apply keeps_bind; [typeclasses eauto|by apply keeps_touch; typeclasses eauto|intros _].
  apply keeps_bind; [typeclasses eauto| |intros r; by eauto 10 with staged typeclass_instances].
  apply keeps_cleanup; [typeclasses eauto| |done]. unfold copy_independent.
  apply keeps_bind; [typeclasses eauto|destruct mode; by eauto with staged typeclass_instances|].
  intros [u|]; by eauto 10 with staged typeclass_instances.
Qed.

Definition in_turn (index : nat) (m : bytes) : Prop := m = output_path index \/ dotted m = true.
Lemma stage_output_touches mode index source :
  keeps_rel (touches key t (in_turn index)) (stage_output pid fate workspace key t mode index source).
Proof.
  unfold stage_output. cbn zeta. apply keeps_bind; [typeclasses eauto| |intros r].
  { apply keeps_publish_error. eapply keeps_more, write_to_touches. intros ? <-. by left. }
  apply keeps_bind; [typeclasses eauto| |intros _].
  { apply keeps_publish_error. eapply keeps_more, sync_file_touches. intros ? <-. by left. }
  apply keeps_bind; [typeclasses eauto|apply keeps_publish_error, keeps_touch; typeclasses eauto|intros _].
  apply keeps_bind; [typeclasses eauto|apply keeps_publish_error, keeps_read; typeclasses eauto|intros b].
  destruct (digest_file b) as [[size hex] digest].
  apply keeps_bind; [typeclasses eauto| |intros _; apply keeps_ret; typeclasses eauto].
  apply keeps_publish_error. eapply keeps_more, sidecar_touches. intros ? ?. by right.
Qed.

Lemma write_in_ok n b w u w' : write_in fate key t n b w = (inr u, w') -> has n (mkFile b false) (w_disk w').
Proof.
  intros (fs & fs' & _ & [= <-] & Hfs' & _)%step_ok%on_generation_inv. eexists. split; [done|]. apply get_put_eq.
Qed.
Lemma sync_file_ok n f w u w' :
  has n f (w_disk w) -> sync_file fate key t n w = (inr u, w') -> has n (mkFile (f_data f) true) (w_disk w').
Proof.
  intros (fs0 & Hfs0 & Hf) (fs & fs' & Hfs & H & Hfs' & _)%step_ok%on_generation_inv. simplify_eq.
  rewrite Hf in H. simpl in H. simplify_eq. eexists. split; [done|]. apply get_put_eq.
Qed.

Definition source_content (s : StagedSource) : option bytes :=
  match s with SourcePath p => workspace p | SourceBytes b => Some b end.

Lemma copy_independent_ok n b mode w r w' :
  copy_independent fate key t n b mode w = (inr r, w') -> has n (mkFile b false) (w_disk w').
Proof.
  unfold copy_independent. intros (o & w1 & H1 & H)%se_bind_inr_inv. destruct o as [u|]; io_inv.
  - destruct mode; try done; exact (write_in_ok _ _ _ _ _ (attempt_some _ _ _ _ H1)).
  - by eapply write_in_ok.
Qed.
Lemma write_to_ok source n mode w r w' :
  write_to fate workspace source key t n mode w = (inr r, w') ->
  exists b, source_content source = Some b /\ has n (mkFile b false) (w_disk w').
Proof.
  destruct source as [p|b]; cbn [write_to source_content]; [unfold copy_output_with|]; intros H.
  - apply se_bind_inr_inv in H as (u & w1 & H1 & H). destruct (workspace p) as [b|]; [|done]. exists b. split; [done|].
    io_inv. repeat match goal with E : w_disk ?a = _ |- has _ _ (w_disk ?a) => rewrite E; clear E end.
    by eapply copy_independent_ok.
  - exists b. split; [done|]. io_inv. by eapply write_in_ok.
Qed.

Definition row_of (index : nat) (b : bytes) : StagedOutput :=
  mkOutput index (Z.of_nat (String.length b)) (to_hex (blake3 b)).
Definition rows (cs : list bytes) : list StagedOutput := imap row_of cs.

Lemma stage_output_ok mode index source w o r w' :
  stage_output pid fate workspace key t mode index source w = (inr (o, r), w') ->
  exists b, source_content source = Some b /\ o = row_of index b /\ has (output_path index) (mkFile b true) (w_disk w').
Proof.
  unfold stage_output. cbn zeta. intros (r' & w1 & H1%publish_error_ok & H)%se_bind_inr_inv.
  apply write_to_ok in H1 as (b & Hb & H1). exists b. split; [done|].
  apply se_bind_inr_inv in H as (u2 & w2 & H2%publish_error_ok & H). apply (sync_file_ok _ _ _ _ _ H1) in H2. simpl in H2.
  apply se_bind_inr_inv in H as (u3 & w3 & H3%publish_error_ok & H). apply touch_ok in H3. rewrite <- H3 in H2.
  apply se_bind_inr_inv in H as (b' & w4 & H4%publish_error_ok & H). apply read_disk_ok in H4 as [Hw4 Hread].
  destruct H2 as (fs & Hfs & Hg). rewrite Hfs in Hread. simpl in Hread. rewrite Hg in Hread. simpl in Hread.
  injection Hread as <-. unfold digest_file in H.
  apply se_bind_inr_inv in H as (u5 & w5 & H5%publish_error_ok & H). unfold mret, SE_ret in H. injection H as <- <- <-.
  split; [done|]. eapply has_touches.
  - pose proof (sidecar_touches (blake3 b) (output_path index) w4) as Ht.
    unfold result_disk in Ht. rewrite H5 in Ht. exact Ht.
  - done.
  - rewrite Hw4. by exists fs.
Qed.

(** The outputs of a list of contents are in place and durable. *)
Definition staged_contents (cs : list bytes) (d : Staged) : Prop :=
  forall i b, cs !! i = Some b -> has (output_path i) (mkFile b true) d.

Lemma stage_outputs_within mode index sources outputs stats :
  keeps_rel (within key t) (stage_outputs pid fate workspace key t mode index sources outputs stats).
Proof.
  revert index outputs stats. induction sources as [|s sources IH]; intros; cbn [stage_outputs].
  - apply keeps_ret. typeclasses eauto.
  - apply keeps_bind; [typeclasses eauto| |intros [o r]; apply IH].
    eapply keeps_mono, stage_output_touches. intros d d'. apply touches_within.
Qed.
Lemma stage_outputs_ok mode sources cs0 stats w outputs stats' w' :
  Z.of_nat (length cs0 + length sources) <= 2 ^ 64 ->
  stage_outputs pid fate workspace key t mode (length cs0) sources (rows cs0) stats w = (inr (outputs, stats'), w') ->
  staged_contents cs0 (w_disk w) ->
  exists cs, mapM source_content sources = Some cs /\ outputs = rows (cs0 ++ cs) /\ staged_contents (cs0 ++ cs) (w_disk w').
Proof.
  revert cs0 stats w. induction sources as [|s sources IH]; intros cs0 stats w Hlen H Hcs; cbn [stage_outputs] in H.
  { unfold mret, SE_ret in H. injection H as <- <- <-. exists []. by rewrite app_nil_r. }
  apply se_bind_inr_inv in H as ([o r] & w1 & H1 & H). pose proof H1 as Ht%(f_equal snd).
  apply stage_output_ok in H1 as (b & Hb & -> & Hhas). simpl in Hlen.
  replace (S (length cs0)) with (length (cs0 ++ [b])) in H by (rewrite length_app; simpl; lia).
  replace (rows cs0 ++ [row_of (length cs0) b]) with (rows (cs0 ++ [b])) in H
    by (unfold rows; rewrite imap_app; simpl; by rewrite Nat.add_0_r).
  apply IH in H as (cs & Hm & -> & Hst).
  - exists (b :: cs). simpl. rewrite Hb, Hm. simpl. rewrite <- app_assoc in *. done.
  - rewrite length_app. simpl. lia.
  - intros i b' Hi. destruct (decide (i = length cs0)) as [->|Hne].
    + rewrite lookup_app_r in Hi by done. rewrite Nat.sub_diag in Hi. by injection Hi as <-.
    + assert (cs0 !! i = Some b') as Hi'.
      { pose proof (lookup_lt_Some _ _ _ Hi) as Hl. rewrite length_app in Hl. simpl in Hl. by rewrite lookup_app_l in Hi by lia. }
      pose proof (lookup_lt_Some _ _ _ Hi') as Hl.
      pose proof (stage_output_touches mode (length cs0) s w) as Hk. unfold result_disk in Hk. rewrite Ht in Hk. simpl in Hk.
      eapply has_touches; [exact Hk| |by apply Hcs]. intros [E|E]; [|done]. apply output_path_inj in E; lia.
Qed.
End Staging.

(** ** What a generation serves *)

Section Serving.
Context {B3 : Blake3} {MC : ManifestCodec}.

(** The resolver below the pointer, on the files of a generation. *)
Definition serve_files (key g : bytes) (sizes : list Z) (fs : Dir File) : option (list bytes) :=
  match load_manifest fs key g with
  | inl _ => None
  | inr m =>
      if negb (bool_decide (generation_digest key (m_outputs m) = g)) || negb (length (m_outputs m) =? length sizes)%nat
         || negb (forallb (size_matches sizes) (m_outputs m))
      then None
      else match verify_generation_outputs fs (m_outputs m) with
           | inr names => mapM (fun n => f_data <$> entry_at n fs) names
           | inl _ => None
           end
  end.

Definition serve_pointer (key : bytes) (sizes : list Z) (value : bytes) (d : Staged) : option (list bytes) :=
  match validate_generation (str_trim value), files key (str_trim value) d with
  | inr _, Some fs => serve_files key (str_trim value) sizes fs
  | _, _ => None
  end.

Lemma mapM_over {A B C} (f : B -> option C) (h : A -> B) l : mapM f (h <$> l) = mapM (fun x => f (h x)) l.
Proof. induction l as [|x l IH]; [done|]. cbn. destruct (f (h x)); [|done]. cbn. cbn in IH. by rewrite IH. Qed.

Lemma served_spec key sizes d :
  served key sizes d =
  if staged_key_supported key then
    match read_pointer key d with inr value => serve_pointer key sizes value d | inl _ => None end
  else None.
Proof.
  unfold served, resolve_staged_artifact_files, validated_staged_generation, load_published_generation, validate_key, mbind.
  destruct (staged_key_supported key); [|done]. cbn [ek_bind].
  destruct (read_pointer key d) as [[]|value]; cbn [ek_bind]; try done.
  unfold serve_pointer, open_generation. destruct (validate_generation (str_trim value)) as [e|u]; [done|]. cbn [ek_bind].
  destruct (files key (str_trim value) d) as [fs|] eqn:Hfs; [|done]. unfold serve_files, mbind.
  destruct (load_manifest fs key (str_trim value)) as [e|m]; [done|]. cbn [ek_bind].
  destruct (bool_decide _); [|done]. cbn [negb orb ek_bind].
  destruct (length (m_outputs m) =? length sizes)%nat; [|done]. cbn [negb orb].
  destruct (forallb (size_matches sizes) (m_outputs m)); [|done]. cbn [negb].
  destruct (verify_generation_outputs fs (m_outputs m)) as [e|names]; [done|]. cbn [ek_bind].
  assert (forall n, content key (str_trim value, n) d = f_data <$> entry_at n fs) as Hc by (intros n; unfold content; simpl; by rewrite Hfs).
  rewrite mapM_over. by apply mapM_ext.
Qed.

(** *** A complete generation *)

Definition complete_generation (key : bytes) (cs : list bytes) (fs : Dir File) : Prop :=
  (forall i b, cs !! i = Some b -> f_data <$> entry_at (output_path i) fs = Some b) /\
  exists b, serialize_manifest (mkManifest STAGED_MANIFEST_VERSION key (generation_digest key (rows cs)) (rows cs)) = Some b /\
            f_data <$> entry_at manifest_path fs = Some b.

Lemma data_of_some n fs b : f_data <$> entry_at n fs = Some b -> data_of n fs = inr b.
Proof. unfold data_of. destruct (entry_at n fs); [|done]. by intros [= ->]. Qed.

Lemma check_rows fs k l :
  (forall i b, l !! i = Some b -> f_data <$> entry_at (output_path (k + i)) fs = Some b) ->
  check_outputs fs (replicate k true ++ replicate (length l) false) (imap (fun i => row_of (k + i)) l) =
  inr (replicate (k + length l) true).
Proof.
  revert k. induction l as [|b l IH]; intros k Hl; cbn [imap check_outputs length].
  { by rewrite app_nil_r, Nat.add_0_r. }
  unfold check_output. rewrite Nat.add_0_r. cbn [row_of o_index o_size digest_hex].
  rewrite lookup_app_r, length_replicate, Nat.sub_diag by (by rewrite length_replicate). cbn [replicate lookup list_lookup].
  pose proof (Hl O b eq_refl) as Hb. rewrite Nat.add_0_r in Hb. rewrite (data_of_some _ _ _ Hb). unfold mbind. cbn [ek_bind].
  rewrite Z.eqb_refl. cbn [negb digest_file fst snd]. rewrite bool_decide_true by done. cbn [negb ek_bind].
  replace (<[k:=true]> (replicate k true ++ false :: replicate (length l) false))
    with (replicate (S k) true ++ replicate (length l) false).
  2:{ rewrite insert_app_r_alt, length_replicate, Nat.sub_diag by (by rewrite length_replicate). cbn [insert list_insert].
      rewrite replicate_S_end, <- app_assoc. done. }
  replace (imap ((fun i => row_of (k + i)) ∘ S) l) with (imap (fun i => row_of (S k + i)) l)
    by (apply imap_ext; intros i x _; unfold compose; by rewrite Nat.add_succ_r).
  rewrite IH; [by rewrite Nat.add_succ_r|].
  intros i b' Hi. rewrite Nat.add_succ_l, <- Nat.add_succ_r. by apply Hl.
Qed.

Lemma sort_by_index_id (f : nat -> bytes) k n :
  sort_by index_leb ((fun i => (i, f i)) <$> seq k n) = (fun i => (i, f i)) <$> seq k n.
Proof.
  revert k. induction n as [|n IH]; intros k; [done|]. cbn [seq fmap list_fmap sort_by].
  rewrite IH. destruct n as [|n]; [done|]. cbn [seq fmap list_fmap insert_by]. unfold index_leb at 1. cbn [fst].
  by rewrite (proj2 (Nat.leb_le k (S k))) by lia.
Qed.
Lemma rows_seq cs : (fun o => (o_index o, output_path (o_index o))) <$> rows cs = (fun i => (i, output_path i)) <$> seq 0 (length cs).
Proof.
  apply list_eq. intros i. unfold rows. rewrite !list_lookup_fmap, list_lookup_imap.
  destruct (cs !! i) eqn:E; simpl.
  - by rewrite lookup_seq_lt by (by eapply lookup_lt_Some).
  - by rewrite lookup_seq_ge by (by apply lookup_ge_None).
Qed.

Lemma verify_rows fs cs :
  (forall i b, cs !! i = Some b -> f_data <$> entry_at (output_path i) fs = Some b) ->
  verify_generation_outputs fs (rows cs) = inr (output_path <$> seq 0 (length cs)).
Proof.
  intros Hcs. unfold verify_generation_outputs.
  assert (length (rows cs) = length cs) as -> by apply length_imap.
  pose proof (check_rows fs 0 cs Hcs) as Hc. cbn [replicate app] in Hc. unfold mbind.
  replace (imap (fun i => row_of (0 + i)) cs) with (rows cs) in Hc by done. rewrite Hc. cbn [ek_bind].
  rewrite rows_seq, sort_by_index_id, <- list_fmap_compose. done.
Qed.

Definition lens (cs : list bytes) : list Z := (fun b => Z.of_nat (String.length b)) <$> cs.
Lemma size_matches_rows sizes cs :
  length cs = length sizes -> forallb (size_matches sizes) (rows cs) = bool_decide (sizes = lens cs).
Proof.
  intros Hlen. apply Bool.eq_iff_eq_true. rewrite forallb_forall, bool_decide_eq_true. split.
  - intros Hall. apply list_eq. intros i. unfold lens. rewrite list_lookup_fmap.
    destruct (cs !! i) as [b|] eqn:E; simpl.
    + assert (rows cs !! i = Some (row_of i b)) as Hr by (unfold rows; by rewrite list_lookup_imap, E).
      specialize (Hall (row_of i b)). rewrite <- list_elem_of_In in Hall.
      specialize (Hall (list_elem_of_lookup_2 _ _ _ Hr)). unfold size_matches in Hall. cbn [row_of o_index o_size] in Hall.
      destruct (sizes !! i); [|done]. by apply Z.eqb_eq in Hall as ->.
    + apply lookup_ge_None in E. apply lookup_ge_None. lia.
  - intros -> o Ho. apply list_elem_of_In, list_elem_of_lookup in Ho as [i Hi]. unfold rows in Hi.
    rewrite list_lookup_imap in Hi. destruct (cs !! i) as [b|] eqn:E; [|done]. simpl in Hi. injection Hi as <-.
    unfold size_matches, lens. cbn [row_of o_index o_size]. rewrite list_lookup_fmap, E. simpl. apply Z.eqb_refl.
Qed.

Definition fresh_answer (cs : list bytes) (sizes : list Z) : option (list bytes) :=
  if bool_decide (sizes = lens cs) then Some cs else None.

Lemma mapM_outputs fs cs :
  (forall i b, cs !! i = Some b -> f_data <$> entry_at (output_path i) fs = Some b) ->
  mapM (fun n => f_data <$> entry_at n fs) (output_path <$> seq 0 (length cs)) = Some cs.
Proof.
  intros Hcs. apply mapM_Some_2, Forall2_lookup. intros i. rewrite list_lookup_fmap.
  destruct (cs !! i) as [b|] eqn:E.
  - rewrite lookup_seq_lt by (by eapply lookup_lt_Some). simpl. constructor. by apply Hcs.
  - rewrite lookup_seq_ge by (by apply lookup_ge_None). constructor.
Qed.

Lemma serve_complete `{!ManifestCodecLaws} key cs sizes fs :
  complete_generation key cs fs -> serve_files key (generation_digest key (rows cs)) sizes fs = fresh_answer cs sizes.
Proof.
  intros [Hcs (b & Hser & Hb)]. unfold serve_files, load_manifest, mbind. rewrite (data_of_some _ _ _ Hb). cbn [ek_bind].
  rewrite (manifest_roundtrip _ _ Hser). cbn [m_version m_key_hex m_generation_hex m_outputs].
  rewrite Z.eqb_refl, !bool_decide_true by done. cbn [negb orb m_outputs].
  assert (length (rows cs) = length cs) as -> by apply length_imap. rewrite bool_decide_true by done. cbn [negb orb].
  unfold fresh_answer. destruct (Nat.eqb_spec (length cs) (length sizes)) as [Hl|Hl]; cbn [negb orb].
  - rewrite size_matches_rows by done. destruct (bool_decide (sizes = lens cs)); [|done]. cbn [negb].
    by rewrite verify_rows, mapM_outputs.
  - rewrite bool_decide_false; [done|]. intros ->. apply Hl. unfold lens. by rewrite length_fmap.
Qed.

(** *** A generation that lost files *)

Definition shrinks (fs' fs : Dir File) : Prop :=
  forall n b, f_data <$> entry_at n fs' = Some b -> f_data <$> entry_at n fs = Some b.

Lemma shrinks_data n fs' fs b : shrinks fs' fs -> data_of n fs' = inr b -> data_of n fs = inr b.
Proof.
  intros Hs Hd. apply data_of_some, Hs. unfold data_of in Hd. destruct (entry_at n fs'); [|done]. simpl. congruence.
Qed.
Lemma check_outputs_shrinks fs' fs seen l s : shrinks fs' fs -> check_outputs fs' seen l = inr s -> check_outputs fs seen l = inr s.
Proof.
  intros Hs. revert seen. induction l as [|o l IH]; intros seen; cbn [check_outputs]; [done|].
  unfold check_output, mbind. destruct (seen !! o_index o) as [[]|]; try done.
  destruct (data_of (output_path (o_index o)) fs') as [e|b] eqn:E; [done|]. rewrite (shrinks_data _ _ _ _ Hs E).
  cbn [ek_bind]. repeat case_match; try done. apply IH.
Qed.
Lemma serve_shrinks key g sizes fs' fs cs :
  shrinks fs' fs -> serve_files key g sizes fs' = Some cs -> serve_files key g sizes fs = Some cs.
Proof.
  intros Hs. unfold serve_files, load_manifest, mbind.
  destruct (data_of manifest_path fs') as [e|b] eqn:E; [done|]. rewrite (shrinks_data _ _ _ _ Hs E). cbn [ek_bind].
  destruct (deserialize_manifest b) as [m|]; [|done]. destruct (_ || _ || _); [done|]. destruct (_ || _ || _); [done|].
  unfold verify_generation_outputs, mbind. destruct (check_outputs fs' _ _) as [e|s] eqn:Ec; [done|].
  rewrite (check_outputs_shrinks _ _ _ _ _ Hs Ec). cbn [ek_bind]. intros Hm. rewrite mapM_Some in *.
  eapply Forall2_impl; [exact Hm|]. intros n b'. apply Hs.
Qed.
Lemma serve_shrinks_or key g sizes fs' fs :
  shrinks fs' fs -> serve_files key g sizes fs' = None \/ serve_files key g sizes fs' = serve_files key g sizes fs.
Proof.
  intros Hs. destruct (serve_files key g sizes fs') as [cs|] eqn:E; [right|by left].
  symmetry. by eapply serve_shrinks.
Qed.
End Serving.

(** ** Stages of a publication *)

(** A child of a key's directory that is as before, gone, or a generation that lost
    files. *)
Definition lost (o o' : option Child) : Prop :=
  o' = o \/ o' = None \/
  exists fs fs', o = Some (Generation fs) /\ o' = Some (Generation fs') /\ shrinks fs' fs.
#[export] Instance lost_preorder : PreOrder lost.
Proof.
  split; [by left|]. intros o1 o2 o3 [->|[->|(fs & fs' & -> & -> & Hs)]] [->|[->|(fs2 & fs3 & E & -> & Hs')]]; try done.
  all: rewrite ?E; try (by right; left); try (by left).
  - right; right. by exists fs2, fs3.
  - right; right. by exists fs, fs'.
  - injection E as <-. right; right. exists fs, fs3. split_and!; [done..|]. intros n b Hb. by apply Hs, Hs'.
Qed.

Definition ends {A} (P : Staged -> Prop) (m : IO A) (Q : A -> Staged -> Prop) (X : Staged -> Prop) : Prop :=
  forall w, P (w_disk w) -> match m w with (inr a, w') => Q a (w_disk w') | (inl _, w') => X (w_disk w') end.

Section Ends.
Context {A B : Type}.
Implicit Types (P X : Staged -> Prop).

Lemma ends_bind P (m : IO A) (Q : A -> Staged -> Prop) (k : A -> IO B) R X :
  ends P m Q X -> (forall a, ends (Q a) (k a) R X) -> ends P (m ≫= k) R X.
Proof.
  intros Hm Hk w HP. specialize (Hm w HP). unfold mbind, SE_bind. destruct (m w) as [[e|a] w']; [done|]. by apply Hk.
Qed.
Lemma ends_ret P (a : A) (Q : A -> Staged -> Prop) X : (forall d, P d -> Q a d) -> ends P (mret a) Q X.
Proof. intros H w HP. cbn. by apply H. Qed.
Lemma ends_fail P e (Q : A -> Staged -> Prop) X : (forall d, P d -> X d) -> ends P (se_fail e) Q X.
Proof. intros H w HP. cbn. by apply H. Qed.
Lemma ends_publish_error P reason (m : IO A) Q X : ends P m Q X -> ends P (publish_error reason m) Q X.
Proof. intros Hm w HP. specialize (Hm w HP). unfold publish_error. by destruct (m w) as [[[e|]|a] w']. Qed.
Lemma ends_cleanup P (m : IO A) c Q X Y :
  ends P m Q X -> (forall d, X d -> Y d) -> ends X c (fun _ => Y) Y -> ends P (or_cleanup m c) Q Y.
Proof.
  intros Hm HXY Hc w HP. specialize (Hm w HP). unfold or_cleanup. destruct (m w) as [[[e|]|a] w']; [|by apply HXY|done].
  specialize (Hc w' Hm). unfold mbind, SE_bind, attempt. destruct (c w') as [[[e'|]|u] w'']; by cbn.
Qed.
Lemma ends_attempt P (m : IO A) (Q : A -> Staged -> Prop) X Y :
  ends P m Q X -> (forall d, X d -> Y d) ->
  ends P (attempt m) (fun o d => match o with Some a => Q a d | None => X d end) Y.
Proof.
  intros Hm HXY w HP. specialize (Hm w HP). unfold attempt. destruct (m w) as [[[e|]|a] w']; [done|by apply HXY|done].
Qed.
Lemma ends_keeps P R (m : IO A) Q : keeps_rel R m -> (forall d d', P d -> R d d' -> Q d') -> ends P m (fun _ => Q) Q.
Proof.
  intros Hm H w HP. specialize (Hm w). unfold result_disk in Hm. destruct (m w) as [[e|a] w']; by eapply H.
Qed.
Lemma ends_keeps_to P R (m : IO A) (Q X : Staged -> Prop) :
  keeps_rel R m -> (forall d d', P d -> R d d' -> Q d') -> (forall d, Q d -> X d) -> ends P m (fun _ => Q) X.
Proof.
  intros Hm H HX w HP. specialize (Hm w). unfold result_disk in Hm.
  destruct (m w) as [[e|a] w']; [apply HX|]; by eapply H.
Qed.
Lemma ends_mono P P' (m : IO A) Q Q' X X' :
  (forall d, P' d -> P d) -> (forall a d, Q a d -> Q' a d) -> (forall d, X d -> X' d) -> ends P m Q X -> ends P' m Q' X'.
Proof. intros H1 H2 H3 Hm w HP. specialize (Hm w (H1 _ HP)). destruct (m w) as [[e|a] w']; eauto. Qed.
End Ends.
Arguments ends_bind {A B} P m Q k R X.

Lemma ends_step fate effect (P Q X : Staged -> Prop) :
  (forall d d', P d -> effect d = Some d' -> Q d') -> (forall d, P d -> X d) -> ends P (step fate effect whole) (fun _ => Q) X.
Proof.
  intros He HX w HP. unfold step. destruct (fate (w_tick w)); cbn; [|by apply HX..].
  destruct (effect (w_disk w)) eqn:E; cbn; [by eapply He|by apply HX].
Qed.
Lemma ends_read {A} fate (f : Staged -> option A) (P : Staged -> Prop) :
  ends P (read_disk fate f) (fun a d => P d /\ f d = Some a) P.
Proof.
  intros w HP. unfold read_disk, mbind, SE_bind, touch_disk, step, whole. destruct (fate (w_tick w)); cbn; [|done..].
  destruct (f (w_disk w)) eqn:E; by cbn.
Qed.

(** Everything but dotted names is as it was: temporary files, locks and sidecars
    are dotted. *)
Section Near.
Context (key : bytes).

Definition others (d0 d : Staged) : Prop :=
  forall n, n <> key -> n <> pointer_path key -> dotted n = false -> entry_at n d = entry_at n d0.
Definition near (d0 d : Staged) : Prop :=
  others d0 d /\ entry_at (pointer_path key) d = entry_at (pointer_path key) d0 /\
  forall n, dotted n = false -> child key n d = child key n d0.
#[export] Instance near_preorder : PreOrder near.
Proof.
  split; [done|]. intros d1 d2 d3 (H1 & H2 & H3) (H4 & H5 & H6). split_and!; [|congruence|].
  - intros n ???. rewrite H4, H1; done.
  - intros n ?. by rewrite H6, H3.
Qed.

Context (Hkey : staged_key_supported key = true).

Lemma key_not_pointer : key <> pointer_path key.
Proof. intros E. pose proof (pointer_not_hex key) as H. rewrite <- E in H. apply supported_hex in Hkey as [? _]. congruence. Qed.
Lemma key_not_dotted : dotted key = false.
Proof. apply hex_not_dotted. by apply supported_hex in Hkey as [? _]. Qed.

Lemma within_near t d d' : dotted t = true -> within key t d d' -> near d d'.
Proof.
  intros Ht (H1 & H2 & _). split_and!.
  - intros n Hn _ _. by apply H1.
  - apply H1. intros E. by apply key_not_pointer.
  - intros n Hn. apply H2. congruence.
Qed.
(** Changes of dotted entries of the root only. *)
Definition root_only (d d' : Staged) : Prop := forall n, dotted n = false -> entry_at n d' = entry_at n d.
#[export] Instance root_only_preorder : PreOrder root_only.
Proof. split; [done|]. intros d1 d2 d3 H1 H2 n Hn. by rewrite H2, H1. Qed.
Lemma root_only_entry n d d' : dotted n = true -> (forall m, m <> n -> entry_at m d' = entry_at m d) -> root_only d d'.
Proof. intros Hn H m Hm. apply H. intros ->. by rewrite Hn in Hm. Qed.
Lemma root_only_near d d' : root_only d d' -> near d d'.
Proof.
  intros H. split_and!.
  - intros m _ _ Hm. by apply H.
  - by apply H, pointer_not_dotted.
  - intros m _. unfold child, children. by rewrite H by apply key_not_dotted.
Qed.
Lemma key_near f d d' :
  (forall c c', f c = Some c' -> forall n, dotted n = false -> entry_at n c' = entry_at n c) -> on_key key f d = Some d' -> near d d'.
Proof.
  intros Hf (c & c' & Hc & Hfc & Hc' & ->)%on_key_inv. split_and!.
  - intros n Hn _ _. by apply get_put_ne.
  - apply get_put_ne. intros E. by apply key_not_pointer.
  - intros n Hn. unfold child. rewrite Hc, Hc'. simpl. by eapply Hf.
Qed.

(** Removing a tree. *)
Definition loses (g : bytes) (d d' : Staged) : Prop :=
  (forall n, n <> key -> entry_at n d' = entry_at n d) /\ (forall n, n <> g -> child key n d' = child key n d) /\
  lost (child key g d) (child key g d').
#[export] Instance loses_preorder g : PreOrder (loses g).
Proof.
  split; [intros d; split_and!; [done..|reflexivity]|]. intros d1 d2 d3 (H1 & H2 & H3) (H4 & H5 & H6).
  split_and!; [intros n ?; by rewrite H4, H1|intros n ?; by rewrite H5, H2|by etrans].
Qed.
Lemma filter_shrinks keep (fs : Dir File) : shrinks (filter (fun e => Is_true (keep e.1)) fs) fs.
Proof.
  intros n b. unfold entry_at. destruct (filter _ fs !! n) as [e|] eqn:E; [|done]. apply map_lookup_filter_Some in E as [-> _]. done.
Qed.
Lemma remove_tree_loses fate g : keeps_rel (loses g) (remove_tree fate key g).
Proof.
  apply keeps_step; [typeclasses eauto| |].
  - intros d d' H. injection H as <-. destruct (on_key _ _ d) as [d'|] eqn:E; simpl; [|reflexivity].
    apply on_key_inv in E as (c & c' & Hc & [= <-] & Hc' & ->). split_and!.
    + intros n Hn. by apply get_put_ne.
    + intros n Hn. unfold child. rewrite Hc, Hc'. simpl. by apply get_delete_ne.
    + right; left. unfold child. rewrite Hc'. simpl. apply get_delete_eq.
  - intros j d. destruct (on_generation _ _ _ d) as [d'|] eqn:E; simpl; [|reflexivity].
    apply on_generation_inv in E as (fs & fs' & Hfs & [= <-] & Hfs' & Hw & Hc & _). split_and!; [done..|].
    right; right. rewrite files_child in Hfs, Hfs'.
    destruct (child key g d) as [[|fs1]|]; [done| |done]. destruct (child key g d') as [[|fs2]|]; [done| |done].
    simplify_eq. eexists _, _. split_and!; [done..|]. apply filter_shrinks.
Qed.
Lemma loses_near t d d' : dotted t = true -> loses t d d' -> near d d'.
Proof.
  intros Ht (H1 & H2 & _). split_and!.
  - intros n Hn _ _. by apply H1.
  - apply H1. intros E. by apply key_not_pointer.
  - intros n Hn. apply H2. congruence.
Qed.
End Near.

(** ** A publication as a whole *)

Section Atomic.
Context {B3 : Blake3} {MC : ManifestCodec} {MCL : ManifestCodecLaws}.
Context (pid : Z) (fate : nat -> Fate) (workspace : bytes -> option bytes).
Context (key : bytes) (Hkey : staged_key_supported key = true).

Abbreviation gen_of cs := (generation_digest key (rows cs)).

Lemma hex_digit_is_hex d : 0 <= d < 16 -> is_hexdigit (hex_digit d) = true.
Proof.
  intros Hd. unfold is_hexdigit, hex_digit. fold (byte_of (if d <? 10 then 48 + d else 87 + d)).
  rewrite byte_val_of by (destruct (Z.ltb_spec d 10); lia). destruct (Z.ltb_spec d 10);
    rewrite ?(proj2 (Z.leb_le _ _)) by lia; simpl; try done.
  by rewrite (proj2 (Z.leb_le 97 (87 + d))), (proj2 (Z.leb_le (87 + d) 102)), orb_true_r by lia.
Qed.
Lemma hex_fixed_is_hex n z : all_hex (hex_fixed n z) = true.
Proof.
  revert z. induction n as [|n IH]; intros z; simpl; [done|]. rewrite all_hex_app, IH. simpl.
  rewrite hex_digit_is_hex; [done|]. apply Z.mod_pos_bound. lia.
Qed.
Lemma to_hex_is_hex b : all_hex (to_hex b) = true.
Proof. unfold to_hex. induction b as [|c b IH]; cbn [hex_encode]; [done|]. by rewrite all_hex_app, hex_fixed_is_hex, IH. Qed.
Lemma generation_digest_valid outs : validate_generation (generation_digest key outs) = inr tt.
Proof.
  unfold validate_generation, generation_digest. rewrite to_hex_is_hex. unfold to_hex. by rewrite hex_encode_length, blake3_length.
Qed.
Lemma generation_not_dotted outs : dotted (generation_digest key outs) = false.
Proof. apply hex_not_dotted, to_hex_is_hex. Qed.

(** The generation is new and whole. *)
Definition added (cs : list bytes) (d0 d : Staged) : Prop :=
  others key d0 d /\ entry_at (pointer_path key) d = entry_at (pointer_path key) d0 /\
  (forall n, dotted n = false -> n <> gen_of cs -> child key n d = child key n d0) /\
  child key (gen_of cs) d0 = None /\ exists fs, child key (gen_of cs) d = Some (Generation fs) /\ complete_generation key cs fs.

(** The child with the generation's name: what was there, or the new generation
    with possibly files lost. *)
Definition new_child (cs : list bytes) (d0 d : Staged) : Prop :=
  (child key (gen_of cs) d0 <> None /\ child key (gen_of cs) d = child key (gen_of cs) d0) \/
  (child key (gen_of cs) d0 = None /\ exists fs, complete_generation key cs fs /\ lost (Some (Generation fs)) (child key (gen_of cs) d)).

Definition intact (g : bytes) (d : Staged) : Prop :=
  exists fs m seen, open_generation key g d = inr (fs, m) /\
    check_outputs fs (replicate (length (m_outputs m)) false) (m_outputs m) = inr seen.
(** The pointer names another generation, which is not damaged. *)
Definition conflicting (cs : list bytes) (d : Staged) : Prop :=
  exists value, read_pointer key d = inr value /\ str_trim value <> gen_of cs /\ intact (str_trim value) d.

Definition committed (cs : list bytes) (d0 d : Staged) : Prop :=
  others key d0 d /\ (exists f, entry_at (pointer_path key) d = Some (TopFile f) /\ f_data f = gen_of cs) /\
  (forall n, dotted n = false -> n <> gen_of cs -> lost (child key n d0) (child key n d)) /\ new_child cs d0 d.

Inductive aftermath (cs : list bytes) (d0 d : Staged) : Prop :=
  | AfterNothing : near key d0 d -> aftermath cs d0 d
  | AfterAdded :
      others key d0 d -> entry_at (pointer_path key) d = entry_at (pointer_path key) d0 ->
      (forall n, dotted n = false -> n <> gen_of cs -> child key n d = child key n d0) ->
      child key (gen_of cs) d0 = None -> new_child cs d0 d -> aftermath cs d0 d
  | AfterCommitted : committed cs d0 d -> aftermath cs d0 d
  | AfterConflict :
      conflicting cs d0 -> others key d0 d ->
      entry_at (pointer_path key) d = entry_at (pointer_path key) d0 \/ entry_at (pointer_path key) d = None ->
      (forall n, dotted n = false -> lost (child key n d0) (child key n d)) -> aftermath cs d0 d.

Lemma others_trans d0 d1 d2 : others key d0 d1 -> others key d1 d2 -> others key d0 d2.
Proof. intros H1 H2 n ???. rewrite H2, H1; done. Qed.
Lemma others_near d0 d1 d2 : others key d0 d1 -> near key d1 d2 -> others key d0 d2.
Proof. intros H [H' _]. by eapply others_trans. Qed.

Lemma new_child_near cs d0 d d' : new_child cs d0 d -> near key d d' -> new_child cs d0 d'.
Proof. intros H (_ & _ & Hc). unfold new_child. by rewrite (Hc _ (generation_not_dotted _)). Qed.
Lemma committed_near cs d0 d d' : committed cs d0 d -> near key d d' -> committed cs d0 d'.
Proof.
  intros (Ho & (f & Hf & Hg) & Hc & Hn) Hnear. pose proof Hnear as (_ & Hp & Hc').
  split_and!; [by eapply others_near|exists f; by rewrite Hp| |by eapply new_child_near].
  intros n Hd Hng. rewrite Hc' by done. by apply Hc.
Qed.
Lemma added_near cs d0 d d' : added cs d0 d -> near key d d' -> added cs d0 d'.
Proof.
  intros (Ho & Hp & Hc & H0 & fs & Hfs & Hcomp) Hnear. pose proof Hnear as (_ & Hp' & Hc').
  split_and!; [by eapply others_near|congruence| |done|].
  - intros n Hd Hng. rewrite Hc' by done. by apply Hc.
  - exists fs. by rewrite Hc' by apply generation_not_dotted.
Qed.
Lemma aftermath_near cs d0 d d' : aftermath cs d0 d -> near key d d' -> aftermath cs d0 d'.
Proof.
  intros [Hn|Ho Hp Hc H0 Hg|Hcom|Hconf Ho Hp Hc] Hnear; pose proof Hnear as (_ & Hp' & Hc').
  - apply AfterNothing. by etrans.
  - apply AfterAdded; [by eapply others_near|congruence| |done|by eapply new_child_near].
    intros n Hd Hng. rewrite Hc' by done. by apply Hc.
  - apply AfterCommitted. by eapply committed_near.
  - apply AfterConflict; [done|by eapply others_near|by rewrite Hp'|]. intros n Hd. rewrite Hc' by done. by apply Hc.
Qed.
Lemma added_aftermath cs d0 d : added cs d0 d -> aftermath cs d0 d.
Proof.
  intros (Ho & Hp & Hc & H0 & fs & Hfs & Hcomp). apply AfterAdded; [done..|]. right. split; [done|].
  exists fs. rewrite Hfs. split; [done|reflexivity].
Qed.

(** Removing the new generation, or another one after the commit. *)
Lemma loses_others g d d' : loses key g d d' -> others key d d'.
Proof. intros (H & _) n Hn _ _. by apply H. Qed.
Lemma loses_pointer g d d' : loses key g d d' -> entry_at (pointer_path key) d' = entry_at (pointer_path key) d.
Proof. intros (H & _). apply H. intros E. by apply (key_not_pointer key Hkey). Qed.
Lemma loses_lost g d d' n : loses key g d d' -> lost (child key n d) (child key n d').
Proof. intros (_ & H & Hg). destruct (decide (n = g)) as [->|Hn]; [done|]. rewrite (H n Hn). reflexivity. Qed.

Lemma added_loses cs d0 d d' : added cs d0 d -> loses key (gen_of cs) d d' -> aftermath cs d0 d'.
Proof.
  intros (Ho & Hp & Hc & H0 & fs & Hfs & Hcomp) Hl. apply AfterAdded; [|by rewrite (loses_pointer _ _ _ Hl)| |done|].
  - by eapply others_trans; [|eapply loses_others].
  - intros n Hd Hng. destruct Hl as (_ & H & _). rewrite H by done. by apply Hc.
  - right. split; [done|]. exists fs. split; [done|]. rewrite <- Hfs. by eapply loses_lost.
Qed.
Lemma committed_loses cs d0 d d' g :
  committed cs d0 d -> loses key g d d' -> g <> gen_of cs \/ child key (gen_of cs) d0 = None -> committed cs d0 d'.
Proof.
  intros (Ho & (f & Hf & Hg) & Hc & Hn) Hl Hcase. split_and!.
  - by eapply others_trans; [|eapply loses_others].
  - exists f. by rewrite (loses_pointer _ _ _ Hl).
  - intros n Hd Hng. etrans; [by apply Hc|]. by eapply loses_lost.
  - destruct Hn as [[Hex Heq]|(H0 & fs & Hcomp & Hlost)].
    + left. split; [done|]. destruct Hcase as [Hne|]; [|done]. destruct Hl as (_ & H & _). by rewrite H.
    + right. split; [done|]. exists fs. split; [done|]. etrans; [done|]. by eapply loses_lost.
Qed.

(** *** What the pointer says already *)

Lemma validate_intact g d u : validate_staged_generation key g d = inr u -> dotted g = false /\ intact g d.
Proof.
  unfold validate_staged_generation, mbind. destruct (validate_generation g) as [e|v] eqn:Hv; [done|]. cbn [ek_bind].
  destruct (open_generation key g d) as [e|[fs m]] eqn:Ho; [done|]. cbn [ek_bind].
  destruct (check_outputs fs _ _) as [e|seen] eqn:Hc; [done|]. intros _.
  apply validate_generation_hex in Hv as [Hh _]. split; [by apply hex_not_dotted|]. by exists fs, m, seen.
Qed.
Lemma intact_child g d d' : child key g d = child key g d' -> intact g d -> intact g d'.
Proof. unfold intact, open_generation. rewrite !files_child. by intros ->. Qed.

(** The state of a conflict that is being evicted. *)
Definition evicting (d0 d : Staged) : Prop :=
  others key d0 d /\
  (entry_at (pointer_path key) d = entry_at (pointer_path key) d0 \/ entry_at (pointer_path key) d = None) /\
  (forall n, dotted n = false -> lost (child key n d0) (child key n d)).
Lemma evicting_loses g d0 d d' : evicting d0 d -> loses key g d d' -> evicting d0 d'.
Proof.
  intros (Ho & Hp & Hc) Hl. split_and!; [by eapply others_trans; [|eapply loses_others]|by rewrite (loses_pointer _ _ _ Hl)|].
  intros n Hn. etrans; [by apply Hc|]. by eapply loses_lost.
Qed.

(** Entries of the root other than the pointer and dotted ones are as before. *)
Definition drops (d d' : Staged) : Prop :=
  (forall n, n <> pointer_path key -> dotted n = false -> entry_at n d' = entry_at n d) /\
  (entry_at (pointer_path key) d' = entry_at (pointer_path key) d \/ entry_at (pointer_path key) d' = None).
#[local] Instance drops_preorder : PreOrder drops.
Proof.
  split; [by intros d; split; [|left]|]. intros d1 d2 d3 [H1 H2] [H3 H4]. split.
  - intros n ??. by rewrite H3, H1.
  - destruct H4 as [->|]; [done|by right].
Qed.
Lemma remove_pointer_drops : keeps_rel drops (remove_pointer fate key).
Proof.
  apply keeps_step; [typeclasses eauto| |].
  - intros d d' H. injection H as <-. destruct (entry_at (pointer_path key) d); [|reflexivity]. split.
    + intros n Hn Hd. rewrite !get_delete_ne; [done..| by intros ->].
    + right. destruct (decide (pointer_path key = digest_path (pointer_path key))) as [E|E].
      * rewrite <- E. apply get_delete_eq.
      * rewrite get_delete_ne by done. apply get_delete_eq.
  - intros j d. destruct (j_keep j _); [reflexivity|]. split; [|right; apply get_delete_eq].
    intros n Hn _. by apply get_delete_ne.
Qed.
Lemma drops_child d d' n : drops d d' -> child key n d' = child key n d.
Proof.
  intros [H _]. unfold child, children. rewrite H; [done| |by apply key_not_dotted].
  intros E. by apply (key_not_pointer key Hkey).
Qed.
Lemma evicting_drops d0 d d' : evicting d0 d -> drops d d' -> evicting d0 d'.
Proof.
  intros (Ho & Hp & Hc) Hd. split_and!.
  - eapply others_trans; [done|]. intros n _ Hn Hdn. by apply Hd.
  - destruct Hd as [_ [->| ->]]; [done|by right].
  - intros n Hn. rewrite (drops_child _ _ _ Hd). by apply Hc.
Qed.

Lemma near_pointer d0 d : near key d0 d -> read_pointer key d = read_pointer key d0.
Proof. intros (_ & Hp & _). unfold read_pointer. by rewrite Hp. Qed.

Lemma settle_previous_ends cs d0 (S : Staged -> Prop) :
  ends (fun d => near key d0 d /\ S d) (settle_previous fate key (gen_of cs))
    (fun invalid d => (near key d0 d /\ S d) /\ forall p, invalid = Some p -> p <> gen_of cs)
    (aftermath cs d0).
Proof.
  unfold settle_previous. eapply ends_bind.
  { eapply ends_attempt; [apply ends_read|]. intros d [H _]. by apply AfterNothing. }
  intros [value|]; [|by apply ends_ret]. cbn zeta.
  destruct (bool_decide_reflect (str_trim value = "")); [apply ends_ret; naive_solver|].
  destruct (bool_decide_reflect (str_trim value = gen_of cs)) as [|Hne]; [apply ends_ret; naive_solver|]. cbn [orb].
  eapply ends_bind.
  { eapply ends_attempt; [apply ends_read|]. intros d [[H _] _]. by apply AfterNothing. }
  intros [u|].
  - apply (ends_bind _ _ (fun _ d => conflicting cs d0 /\ evicting d0 d)).
    + eapply ends_keeps_to; [apply keeps_attempt, remove_tree_loses| |by intros d (Hc & Ho & Hp & Hl); apply AfterConflict].
      intros d d' (((Hnear & _) & Hr) & Hv) Hl. destruct (read_pointer key d) as [e|v] eqn:Hp; [done|]. injection Hr as ->.
      destruct (validate_staged_generation key (str_trim value) d) as [e|u'] eqn:Hval; [done|].
      apply validate_intact in Hval as [Hdot Hint]. rewrite (near_pointer _ _ Hnear) in Hp.
      assert (conflicting cs d0) as Hconf.
      { exists value. split_and!; [done..|]. eapply intact_child, Hint. by apply Hnear. }
      split; [done|]. destruct Hnear as (Ho & Hptr & Hc). eapply evicting_loses; [|done]. split_and!; [done|by left|].
      intros m Hm. rewrite Hc by done. reflexivity.
    + intros _. apply (ends_bind _ _ (fun _ d => conflicting cs d0 /\ evicting d0 d)).
      * eapply ends_keeps_to; [apply keeps_attempt, remove_pointer_drops| |by intros d (Hc & Ho & Hp & Hl); apply AfterConflict].
        intros d d' [H1 H2] Hd. split; [done|]. by eapply evicting_drops.
      * intros _. apply ends_fail. intros d (Hc & Ho & Hp & Hl). by apply AfterConflict.
    Unshelve. all: try typeclasses eauto.
  - apply ends_ret. intros d (H & _). split; [done|]. intros p. destruct (validate_generation _); [done|]. by intros [= <-].
Qed.

(** *** The rename *)

Lemma lookup_child n c d : children key d = Some c -> child key n d = entry_at n c.
Proof. unfold child. by intros ->. Qed.

Lemma rename_ends t cs d0 :
  dotted t = true ->
  ends (fun d => near key d0 d /\ exists fs, files key t d = Some fs /\ complete_generation key cs fs)
    (rename_generation fate key t (gen_of cs))
    (fun renamed d => if renamed : bool then added cs d0 d else near key d0 d /\ child key (gen_of cs) d0 <> None)
    (near key d0).
Proof.
  intros Ht. unfold rename_generation. eapply ends_bind.
  { eapply ends_attempt.
    - apply (ends_step _ _ _ (added cs d0) (fun d => near key d0 d)); [|by intros d [H _]].
      intros d d' [Hnear (fs & Hfs & Hcomp)] (c & c' & Hc & Hm & Hc' & ->)%on_key_inv.
      destruct (entry_at (gen_of cs) c) eqn:Hg; [done|].
      pose proof Hnear as (Ho & Hp & Hch).
      assert (entry_at t c = Some (Generation fs)) as Hgt.
      { rewrite files_child, (lookup_child _ _ _ Hc) in Hfs. destruct (entry_at t c) as [[]|]; naive_solver. }
      pose proof (generation_not_dotted (rows cs)) as Hgd.
      assert (gen_of cs <> t) as Hgt' by congruence. split_and!.
      + intros n Hn Hn' Hd. rewrite get_put_ne by done. by apply Ho.
      + rewrite get_put_ne; [done|]. intros E. by apply (key_not_pointer key Hkey).
      + intros n Hd Hng. rewrite (lookup_child _ _ _ Hc'), (get_move _ _ _ _ _ Hm) by congruence.
        rewrite bool_decide_false by done. rewrite <- (lookup_child _ _ _ Hc). by apply Hch.
      + rewrite <- Hch, (lookup_child _ _ _ Hc); done.
      + exists fs. rewrite (lookup_child _ _ _ Hc'), (get_move _ _ _ _ _ Hm) by done. by rewrite bool_decide_true.
    - by intros d H. }
  intros [u|]; [by apply ends_ret|]. eapply ends_bind.
  { eapply ends_attempt; [apply ends_read|]. by intros d H. }
  intros [x|]; [|by apply ends_fail].
  apply (ends_bind _ _ (fun _ d => near key d0 d /\ child key (gen_of cs) d0 <> None)); [|intros _; by apply ends_ret].
  eapply ends_keeps_to; [apply keeps_attempt, remove_tree_loses| |by intros d [H _]].
  intros d d' [Hnear Hx] Hl. split.
  - etrans; [done|]. by eapply loses_near.
  - intros E. destruct Hnear as (_ & _ & Hch). rewrite <- Hch in E by apply generation_not_dotted.
    unfold child in E. by rewrite Hx in E.
  Unshelve. all: typeclasses eauto.
Qed.

(** *** The commit *)

(** The pointer now names the generation; everything else is as before. *)
Definition points (cs : list bytes) (d d' : Staged) : Prop :=
  entry_at (pointer_path key) d' = Some (TopFile (mkFile (gen_of cs) true)) /\
  forall n, n <> pointer_path key -> dotted n = false -> entry_at n d' = entry_at n d.

Lemma temporary_dotted name nonce suffix : dotted (temporary_path name pid nonce suffix) = true.
Proof. done. Qed.

Lemma atomic_write_ends cs (I : Staged -> Prop) :
  (forall d d', I d -> root_only d d' -> I d') ->
  ends I (atomic_write pid fate (pointer_path key) (gen_of cs)) (fun _ d' => exists d, I d /\ points cs d d') I.
Proof.
  intros HI. unfold atomic_write. apply (ends_bind _ _ (fun _ => I)); [by intros w Hw|]. intros nonce. cbn zeta.
  set (t := temporary_path _ _ _ _). assert (dotted t = true) as Ht by done. clearbody t.
  assert (forall f d, root_only d (put_top t f d)) as Hput.
  { intros f d. apply (root_only_entry t); [done|]. intros m Hm. by apply get_put_ne. }
  eapply ends_cleanup; [|by intros d H; exact H|].
  - apply (ends_bind _ _ (fun _ => I)).
    { apply ends_step; [|done]. intros d d' Hd. destruct (entry_at t d); [done|]. intros [= <-]. by eapply HI. }
    intros _. apply (ends_bind _ _ (fun _ => I)).
    { eapply ends_keeps; [apply (keeps_step root_only)|by apply HI].
      - by intros d d' [= <-].
      - intros j d. destruct (j_data j); [done|reflexivity]. }
    intros _. apply (ends_bind _ _ (fun _ d => I d /\ entry_at t d = Some (TopFile (mkFile (gen_of cs) true)))).
    { apply ends_step; [|done]. intros d d' Hd [= <-]. split; [by eapply HI|]. apply get_put_eq. }
    intros _. apply ends_step; [|by intros d [H _]]. intros d d' [Hd Hgt] Hm. exists d. split; [done|].
    pose proof (pointer_not_dotted key Hkey) as Hpd. split.
    + rewrite (get_move _ _ _ _ _ Hm) by congruence. by rewrite bool_decide_true.
    + intros n Hn Hnd. rewrite (get_move _ _ _ _ _ Hm) by congruence. by rewrite bool_decide_false.
  - apply (ends_step _ _ I I); [|done]. intros d d' Hd. destruct (entry_at t d); [|done]. intros [= <-].
    eapply HI; [done|]. apply (root_only_entry t); [done|]. intros m Hm. by apply get_delete_ne.
Qed.

Lemma points_child cs d d' n : points cs d d' -> child key n d' = child key n d.
Proof.
  intros [_ H]. unfold child, children. rewrite H; [done| |by apply key_not_dotted].
  intros E. by apply (key_not_pointer key Hkey).
Qed.
Lemma points_committed cs d0 d d' :
  points cs d d' -> others key d0 d -> (forall n, dotted n = false -> n <> gen_of cs -> child key n d = child key n d0) ->
  new_child cs d0 d -> committed cs d0 d'.
Proof.
  intros Hp Ho Hc Hn. split_and!.
  - eapply others_trans; [done|]. intros n _ Hn' Hd. by apply Hp.
  - eexists. split; [apply Hp|done].
  - intros n Hd Hng. rewrite (points_child _ _ _ _ Hp), Hc by done. reflexivity.
  - unfold new_child. by rewrite (points_child _ _ _ _ Hp).
Qed.

Definition ready (renamed : bool) (cs : list bytes) (d0 d : Staged) : Prop :=
  if renamed then added cs d0 d else near key d0 d /\ child key (gen_of cs) d0 <> None.
Lemma ready_near renamed cs d0 d d' : ready renamed cs d0 d -> near key d d' -> ready renamed cs d0 d'.
Proof. destruct renamed; cbn; [apply added_near|]. intros [H ?] ?. split; [by etrans|done]. Qed.
Lemma ready_points renamed cs d0 d d' : ready renamed cs d0 d -> points cs d d' -> committed cs d0 d'.
Proof.
  destruct renamed; cbn.
  - intros (Ho & Hp & Hc & H0 & fs & Hfs & Hcomp) Hpt. eapply points_committed; [done..|]. right. split; [done|].
    exists fs. rewrite Hfs. split; [done|reflexivity].
  - intros [(Ho & Hp & Hc) Hex] Hpt. eapply points_committed; [done..|by intros; apply Hc|]. left. split; [done|].
    apply Hc, generation_not_dotted.
Qed.
Lemma ready_aftermath renamed cs d0 d : ready renamed cs d0 d -> aftermath cs d0 d.
Proof. destruct renamed; cbn; [apply added_aftermath|]. intros [H _]. by apply AfterNothing. Qed.

Lemma undo_ends cs d0 (P : Staged -> Prop) :
  (forall d, P d -> aftermath cs d0 d) -> (forall d d', P d -> loses key (gen_of cs) d d' -> aftermath cs d0 d') ->
  ends P (remove_uncommitted_generation fate key (gen_of cs)) (fun _ => aftermath cs d0) (aftermath cs d0).
Proof.
  intros H1 H2. unfold remove_uncommitted_generation. apply (ends_bind _ _ (fun _ => P)).
  { eapply ends_keeps_to; [apply keeps_attempt, (keeps_read eq)| |exact H1]. by intros d ? ? <-. }
  intros v. destruct (bool_decide _); [by apply ends_ret|].
  apply (ends_bind _ _ (fun _ => aftermath cs d0)); [|intros _; by apply ends_ret].
  eapply ends_keeps; [apply keeps_attempt, remove_tree_loses|done].
  Unshelve. all: typeclasses eauto.
Qed.

Lemma commit_pointer_ends renamed cs d0 :
  ends (ready renamed cs d0) (commit_pointer pid fate key (gen_of cs) renamed) (fun _ => committed cs d0) (aftermath cs d0).
Proof.
  unfold commit_pointer. cbn zeta.
  apply (ends_bind _ _ (fun _ d => committed cs d0 d /\ (renamed = true -> child key (gen_of cs) d0 = None))).
  - apply ends_publish_error. eapply ends_cleanup.
    + eapply ends_mono; [by intros d H; exact H| |by intros d H; exact H|apply (atomic_write_ends cs (ready renamed cs d0))].
      * intros _ d' (d & Hd & Hp). split; [by eapply ready_points|]. intros ->. apply Hd.
      * intros d d' Hr Hd. eapply ready_near; [done|]. by apply root_only_near.
    + apply ready_aftermath.
    + destruct renamed; [|apply ends_ret; intros d; apply ready_aftermath].
      apply undo_ends; [apply added_aftermath|apply added_loses].
  - intros _. apply ends_publish_error. eapply ends_cleanup.
    + eapply ends_step.
      * intros d d' [Hd H0] [= <-]. eapply committed_near; [exact Hd|]. split_and!.
        -- intros n _ _ _. apply get_sync.
        -- apply get_sync.
        -- intros n _. unfold child, children. by rewrite get_sync.
      * by intros d H; exact H.
    + intros d [H _]. by apply AfterCommitted.
    + destruct renamed; [|apply ends_ret; intros d [H _]; by apply AfterCommitted].
      apply undo_ends; [intros d [H _]; by apply AfterCommitted|]. intros d d' [H H0] Hl. apply AfterCommitted.
      eapply committed_loses; [done..|]. right. by apply H0.
Qed.

(** *** The whole *)

Section Whole.
Context (t : bytes) (Ht : dotted t = true).

Lemma staged_touches N cs d0 d d' :
  (forall i, ~ N (output_path i)) -> touches key t N d d' -> near key d0 d -> staged_contents key t cs d ->
  near key d0 d' /\ staged_contents key t cs d'.
Proof.
  intros HN Htch Hnear Hst. split.
  - etrans; [done|]. apply within_near with t; [done..|]. by apply touches_within in Htch.
  - intros i b Hi. eapply has_touches; [done|apply HN|]. by apply Hst.
Qed.

Lemma stage_ends mode sources d0 :
  Z.of_nat (length sources) <= 2 ^ 64 ->
  ends (near key d0) (stage_outputs pid fate workspace key t mode 0 sources [] (mkPersistStats 0 0 0))
    (fun r d => exists cs, (near key d0 d /\ staged_contents key t cs d) /\ mapM (source_content workspace) sources = Some cs /\ r.1 = rows cs)
    (near key d0).
Proof.
  intros Hlen w HP. pose proof (stage_outputs_within pid fate workspace key t mode 0 sources [] (mkPersistStats 0 0 0) w) as Hw.
  unfold result_disk in Hw. destruct (stage_outputs _ _ _ _ _ _ _ _ _ _ w) as [[e|[outs stats]] w'] eqn:E; simpl in Hw;
    (apply (within_near key Hkey t) in Hw; [|done]).
  - by etrans.
  - change (@nil StagedOutput) with (rows []) in E. change 0%nat with (length (@nil bytes)) in E.
    apply stage_outputs_ok in E as (cs & Hm & -> & Hst); [|done|done]. exists cs. split_and!; [by etrans|done..].
Qed.

(** The files are in place, and all of it would survive a power failure. *)
Definition durable_dir (cs : list bytes) (fs : Dir File) : Prop :=
  (forall i b, cs !! i = Some b -> fs !! output_path i = Some (mkEntry (mkFile b true) true)) /\
  exists b, serialize_manifest (mkManifest STAGED_MANIFEST_VERSION key (gen_of cs) (rows cs)) = Some b /\
            fs !! manifest_path = Some (mkEntry (mkFile b true) true).
Lemma durable_complete cs fs : durable_dir cs fs -> complete_generation key cs fs.
Proof.
  intros [H1 (b & Hs & Hb)]. split.
  - intros i b' Hi. unfold entry_at. by rewrite (H1 _ _ Hi).
  - exists b. split; [done|]. unfold entry_at. by rewrite Hb.
Qed.

Lemma sync_entries_has n f d fs :
  files key t d = Some fs -> has key t n f d -> sync_entries fs !! n = Some (mkEntry f true).
Proof.
  intros Hfs (fs' & Hfs' & (e & He & Hi)%get_some). simplify_eq. unfold sync_entries. by rewrite lookup_fmap, He.
Qed.

Lemma write_manifest_ends cs d0 b :
  serialize_manifest (mkManifest STAGED_MANIFEST_VERSION key (gen_of cs) (rows cs)) = Some b ->
  ends (fun d => near key d0 d /\ staged_contents key t cs d) (write_manifest fate key t b)
    (fun _ d => near key d0 d /\ exists fs, files key t d = Some fs /\ durable_dir cs fs) (near key d0).
Proof.
  intros Hs. unfold write_manifest.
  apply (ends_bind _ _ (fun _ d => (near key d0 d /\ staged_contents key t cs d) /\ has key t manifest_path (mkFile b false) d)).
  { apply ends_publish_error. intros w [Hn Hst]. pose proof (write_in_touches fate key t manifest_path b w) as Htch.
    unfold result_disk in Htch. destruct (write_in fate key t manifest_path b w) as [[e|u] w'] eqn:E; simpl in Htch.
    - by eapply (staged_touches _ cs) in Htch as [??]; [| |done..].
    - split; [|by eapply write_in_ok]. eapply staged_touches; [|done..]. done. }
  intros _.
  apply (ends_bind _ _ (fun _ d => (near key d0 d /\ staged_contents key t cs d) /\ has key t manifest_path (mkFile b true) d)).
  { apply ends_publish_error. intros w [[Hn Hst] Hb]. pose proof (sync_file_touches fate key t manifest_path w) as Htch.
    unfold result_disk in Htch. destruct (sync_file fate key t manifest_path w) as [[e|u] w'] eqn:E; simpl in Htch.
    - by eapply (staged_touches _ cs) in Htch as [??]; [| |done..].
    - split; [|exact (sync_file_ok _ _ _ _ _ _ _ _ Hb E)]. eapply staged_touches; [|done..]. done. }
  intros _. apply ends_publish_error, ends_step; [|by intros d [[H _] _]].
  intros d d' [[Hn Hst] Hb] (fs & fs' & Hfs & [= <-] & Hfs' & Hw)%on_generation_inv. split.
  { etrans; [done|]. by apply within_near with t. }
  exists (sync_entries fs). split; [done|]. split.
  - intros i b' Hi. eapply sync_entries_has; [done|]. by apply Hst.
  - exists b. split; [done|]. by eapply sync_entries_has.
Qed.

Definition published_contents (sources : list StagedSource) (cs : list bytes) : Prop :=
  mapM (source_content workspace) sources = Some cs.

Lemma install_ends cs d0 b invalid :
  serialize_manifest (mkManifest STAGED_MANIFEST_VERSION key (gen_of cs) (rows cs)) = Some b ->
  (forall p, invalid = Some p -> p <> gen_of cs) ->
  ends (fun d => near key d0 d /\ staged_contents key t cs d) (install_generation pid fate key t (gen_of cs) b invalid)
    (fun _ => committed cs d0) (aftermath cs d0).
Proof.
  intros Hser Hinv. unfold install_generation. eapply ends_bind.
  { eapply ends_mono; [| | |exact (write_manifest_ends cs d0 b Hser)]; [done|by intros a d H; exact H|by apply AfterNothing]. }
  intros []. apply (ends_bind _ _ (fun renamed => ready renamed cs d0)).
  { eapply ends_mono; [| | |apply (rename_ends t cs d0 Ht)].
    - intros d (Hn & fs & Hfs & Hdur). split; [done|]. exists fs. split; [done|]. by apply durable_complete.
    - done.
    - by apply AfterNothing. }
  intros renamed. apply (ends_bind _ _ (fun _ => ready renamed cs d0)).
  { apply ends_publish_error. apply ends_step; [|apply ready_aftermath]. intros d d' Hd Hk. eapply ready_near; [done|].
    eapply key_near, Hk; [done|]. intros c c' [= <-] n _. apply get_sync. }
  intros _. apply (ends_bind _ _ (fun _ => committed cs d0)); [apply commit_pointer_ends|intros _].
  destruct invalid as [p|]; [|by apply ends_ret].
  apply (ends_bind _ _ (fun _ => committed cs d0)); [|intros _; by apply ends_ret].
  eapply ends_keeps_to; [apply keeps_attempt, remove_tree_loses| |by apply AfterCommitted].
  intros d d' Hd Hl. eapply committed_loses; [done..|]. left. by apply Hinv.
Qed.

Lemma publish_outputs_ends cs d0 :
  ends (fun d => near key d0 d /\ staged_contents key t cs d) (publish_outputs pid fate key t (rows cs))
    (fun _ => committed cs d0) (aftermath cs d0).
Proof.
  unfold publish_outputs. cbn zeta. rewrite generation_digest_valid.
  eapply ends_bind; [apply settle_previous_ends|]. intros invalid.
  destruct (serialize_manifest _) as [b|] eqn:Hser; [|by apply ends_fail; intros d [[H _] _]; apply AfterNothing].
  intros w [Hst Hinv]. by apply (install_ends cs d0 b invalid Hser Hinv).
Qed.

Lemma publish_generation_ends mode sources d0 :
  Z.of_nat (length sources) <= 2 ^ 64 ->
  ends (near key d0) (publish_generation pid fate workspace key t mode sources)
    (fun _ d => exists cs, published_contents sources cs /\ committed cs d0 d)
    (fun d => near key d0 d \/ exists cs, published_contents sources cs /\ aftermath cs d0 d).
Proof.
  intros Hlen. unfold publish_generation. eapply ends_bind.
  { eapply ends_mono; [| | |by apply stage_ends]; [done|by intros a d H; exact H|by intros d H; left]. }
  intros [outs stats]. cbn [fst].
  apply (ends_bind _ _ (fun _ d => exists cs, published_contents sources cs /\ committed cs d0 d)); [|intros _; by apply ends_ret].
  intros w (cs & Hst & Hm & ->). pose proof (publish_outputs_ends cs d0 w Hst) as Hp.
  destruct (publish_outputs pid fate key t (rows cs) w) as [[e|u] w']; [right|]; by exists cs.
Qed.
End Whole.

Lemma step_near effect : (forall d d', effect d = Some d' -> near key d d') -> keeps_rel (near key) (step fate effect whole).
Proof. intros. by apply keeps_whole; [typeclasses eauto|]. Qed.
Lemma setup_near : keeps_rel (near key) (publish_error StoreSetup (open_staged_key fate key)).
Proof.
  apply keeps_publish_error. unfold open_staged_key.
  repeat (apply keeps_bind; [typeclasses eauto| |intros _]); try (apply keeps_touch; typeclasses eauto).
  - apply step_near. intros d d' [= <-]. destruct (entry_at STORE_LOCK d); [reflexivity|]. apply root_only_near; [done|].
    apply (root_only_entry STORE_LOCK); [done|]. intros m Hm. by apply get_put_ne.
  - apply step_near. intros d d' H. destruct (entry_at key d) as [[]|] eqn:E; [done|by simplify_eq|]. injection H as <-. split_and!.
    + intros n Hn _ _. by apply get_put_ne.
    + apply get_put_ne. intros E'. by apply (key_not_pointer key Hkey).
    + intros n _. unfold child, children. by rewrite get_put_eq, E.
  - apply step_near. intros d d'. apply key_near; [done|]. intros c c' [= <-] n Hn.
    destruct (entry_at PUBLISH_LOCK c); [done|]. apply get_put_ne. by intros ->.
Qed.
Lemma temporary_near t : dotted t = true -> keeps_rel (near key) (publish_error StoreSetup (create_generation fate key t)).
Proof.
  intros Ht. apply keeps_publish_error, step_near. intros d d'. apply key_near; [done|]. intros c c' H m Hm.
  destruct (entry_at t c); [done|]. injection H as <-. apply get_put_ne. intros ->. by rewrite Ht in Hm.
Qed.

Lemma persist_ends sources mode d0 :
  Z.of_nat (length sources) <= 2 ^ 64 ->
  ends (near key d0) (persist_staged_generation pid fate workspace key sources mode)
    (fun _ d => exists cs, published_contents sources cs /\ committed cs d0 d)
    (fun d => near key d0 d \/ exists cs, published_contents sources cs /\ aftermath cs d0 d).
Proof.
  intros Hlen. unfold persist_staged_generation, validate_key. rewrite Hkey.
  destruct sources as [|s sources]; [apply ends_fail; by intros d H; left|]. set (srcs := s :: sources) in *. clearbody srcs.
  assert (forall A (m : IO A), keeps_rel (near key) m ->
    ends (near key d0) m (fun _ => near key d0)
      (fun d => near key d0 d \/ exists cs, published_contents srcs cs /\ aftermath cs d0 d)) as Hkeep.
  { intros A m Hm. eapply ends_keeps_to; [done| |by intros d H; left]. intros d d' ??. by etrans. }
  apply (ends_bind _ _ (fun _ => near key d0)); [apply Hkeep, setup_near|intros _].
  apply (ends_bind _ _ (fun _ => near key d0)); [apply Hkeep, keeps_fetch; typeclasses eauto|intros n]. cbn zeta.
  assert (dotted (temporary_generation pid n) = true) as Ht by done. revert Ht. generalize (temporary_generation pid n) as t. intros t Ht.
  apply (ends_bind _ _ (fun _ => near key d0)); [by apply Hkeep, temporary_near|intros _].
  eapply ends_cleanup; [by apply publish_generation_ends|by intros d H; exact H|].
  eapply ends_keeps; [apply remove_tree_loses|]. intros d d' Hd Hl. apply (loses_near key Hkey t) in Hl; [|done].
  destruct Hd as [H|(cs & Hm & H)]; [left; by etrans|]. right. exists cs. split; [done|]. by eapply aftermath_near.
Qed.
End Atomic.

(** ** Reading hexadecimal text back *)

Lemma hexdigit_range c : is_hexdigit c = true -> 48 <= byte_val c <= 102.
Proof. unfold is_hexdigit. cbn zeta. rewrite !orb_true_iff, !andb_true_iff, !Z.leb_le. lia. Qed.
Lemma all_hex_utf8 s : all_hex s = true -> from_utf8_ok s = true.
Proof.
  unfold from_utf8_ok. induction s as [|c s IH]; [done|]. cbn [all_hex]. intros [Hc Hs]%andb_true_iff.
  apply hexdigit_range in Hc. cbn [String.length utf8_valid utf8_first]. cbn zeta.
  rewrite (proj2 (Z.ltb_lt (byte_val c) 0x80)) by lia. simpl. by apply IH.
Qed.
Lemma trim_dir_hex fwd fuel s : all_hex s = true -> trim_dir fwd fuel s = s.
Proof.
  destruct fuel as [|fuel], s as [|a s]; try done. cbn [all_hex]. intros [Ha _]%andb_true_iff. apply hexdigit_range in Ha.
  cbn [trim_dir]. cbn zeta. unfold ws_ascii.
  rewrite (proj2 (Z.leb_gt (byte_val a) 13)), (proj2 (Z.eqb_neq (byte_val a) 32)), andb_false_r by lia. cbn [orb].
  destruct s as [|b s]; [done|].
  assert ((if fwd then ws2 (byte_val a) (byte_val b) else ws2 (byte_val b) (byte_val a)) = false) as ->.
  { destruct fwd; unfold ws2; [by rewrite (proj2 (Z.eqb_neq (byte_val a) 0xC2)) by lia|].
    by rewrite (proj2 (Z.eqb_neq (byte_val a) 0x85)), (proj2 (Z.eqb_neq (byte_val a) 0xA0)), andb_false_r by lia. }
  destruct s as [|c s]; [done|].
  assert ((if fwd then ws3 (byte_val a) (byte_val b) (byte_val c) else ws3 (byte_val c) (byte_val b) (byte_val a)) = false) as ->; [|done].
  destruct fwd; unfold ws3.
  - by rewrite (proj2 (Z.eqb_neq (byte_val a) 0xE1)), (proj2 (Z.eqb_neq (byte_val a) 0xE2)), (proj2 (Z.eqb_neq (byte_val a) 0xE3)) by lia.
  - rewrite (proj2 (Z.eqb_neq (byte_val a) 0x80)), (proj2 (Z.eqb_neq (byte_val a) 0xA8)), (proj2 (Z.eqb_neq (byte_val a) 0xA9)),
      (proj2 (Z.eqb_neq (byte_val a) 0xAF)), (proj2 (Z.eqb_neq (byte_val a) 0x9F)), (proj2 (Z.leb_gt 0x80 (byte_val a))) by lia.
    by rewrite !andb_false_r.
Qed.
Lemma all_hex_rev_app s acc : all_hex (str_rev_app s acc) = all_hex s && all_hex acc.
Proof.
  revert acc. induction s as [|c s IH]; intros acc; cbn [str_rev_app all_hex]; [done|]. rewrite IH. cbn [all_hex].
  destruct (is_hexdigit c), (all_hex s); done.
Qed.
Lemma str_trim_hex s : all_hex s = true -> str_trim s = s.
Proof.
  intros Hs. unfold str_trim. rewrite (trim_dir_hex true) by done. cbn zeta.
  rewrite trim_dir_hex by (unfold str_rev; by rewrite all_hex_rev_app, Hs). apply str_rev_involutive.
Qed.

(** ** What requests see of a publication *)

Section Answers.
Context {B3 : Blake3} {MC : ManifestCodec} {MCL : ManifestCodecLaws}.

Definition serve_child (key g : bytes) (sizes : list Z) (o : option Child) : option (list bytes) :=
  match o with Some (Generation fs) => serve_files key g sizes fs | _ => None end.

Lemma served_pointer key sizes d :
  staged_key_supported key = true ->
  served key sizes d =
  match read_pointer key d with
  | inl _ => None
  | inr v => match validate_generation (str_trim v) with
             | inl _ => None
             | inr _ => serve_child key (str_trim v) sizes (child key (str_trim v) d)
             end
  end.
Proof.
  intros Hk. rewrite served_spec, Hk. destruct (read_pointer key d); [done|]. unfold serve_pointer.
  destruct (validate_generation _); [done|]. rewrite files_child. by destruct (child _ _ _) as [[]|].
Qed.
Lemma serve_lost key g sizes o o' :
  lost o o' -> serve_child key g sizes o' = None \/ serve_child key g sizes o' = serve_child key g sizes o.
Proof. intros [->|[->|(fs & fs' & -> & -> & Hs)]]; [by right|by left|]. by apply serve_shrinks_or. Qed.

Lemma serve_files_intact key g sizes d fs cs :
  files key g d = Some fs -> serve_files key g sizes fs = Some cs -> intact key g d.
Proof.
  intros Hfs. unfold serve_files, intact, open_generation, verify_generation_outputs. rewrite Hfs. unfold mbind.
  destruct (load_manifest fs key g) as [e|m]; [done|]. cbn [ek_bind].
  destruct (bool_decide _); [|done]. cbn [negb orb]. destruct (_ || _); [done|].
  destruct (check_outputs fs _ _) as [e|seen] eqn:E; [done|]. intros _. by exists fs, m, seen.
Qed.

Lemma others_served key k sizes d0 d :
  staged_key_supported key = true -> k <> key -> others key d0 d -> served k sizes d = served k sizes d0.
Proof.
  intros Hkey Hne Ho. destruct (staged_key_supported k) eqn:Hk; [|by rewrite !served_spec, Hk].
  pose proof (supported_hex _ Hk) as [Hh _]. pose proof (supported_hex _ Hkey) as [Hh' _].
  assert (entry_at (pointer_path k) d = entry_at (pointer_path k) d0) as Hp.
  { apply Ho; [|by intros ?%pointer_path_inj|by apply pointer_not_dotted].
    intros E. pose proof (pointer_not_hex k) as Hn. by rewrite E, Hh' in Hn. }
  assert (entry_at k d = entry_at k d0) as Hkd.
  { apply Ho; [done| |by apply hex_not_dotted]. intros E. pose proof (pointer_not_hex key) as Hn. by rewrite <- E, Hh in Hn. }
  rewrite !served_pointer by done. unfold read_pointer, child, children. by rewrite Hp, Hkd.
Qed.

(** The four answers that a publication can leave: the old one, the new one, that of
    an older generation of the same name, and none because the key had an intact
    generation with other contents. *)
Definition answers (key : bytes) (cs : list bytes) (sizes : list Z) (d0 d : Staged) : Prop :=
  served key sizes d = served key sizes d0 \/
  served key sizes d = fresh_answer cs sizes \/
  (child key (generation_digest key (rows cs)) d0 <> None /\
   served key sizes d = serve_child key (generation_digest key (rows cs)) sizes (child key (generation_digest key (rows cs)) d0)) \/
  (served key sizes d = None /\ conflicting key cs d0).

Lemma serve_new_child key cs sizes fs o :
  complete_generation key cs fs -> lost (Some (Generation fs)) o ->
  serve_child key (generation_digest key (rows cs)) sizes o = None \/
  serve_child key (generation_digest key (rows cs)) sizes o = fresh_answer cs sizes.
Proof.
  intros Hcomp Hl. apply (serve_lost key (generation_digest key (rows cs)) sizes) in Hl as [H|H]; [by left|right].
  rewrite H. cbn. by apply serve_complete.
Qed.

Lemma near_served key sizes d0 d : staged_key_supported key = true -> near key d0 d -> served key sizes d = served key sizes d0.
Proof.
  intros Hk Hn. rewrite !served_pointer, (near_pointer _ _ _ Hn) by done. destruct (read_pointer key d0) as [|v]; [done|].
  destruct (validate_generation (str_trim v)) as [|u] eqn:Hv; [done|]. destruct Hn as (_ & _ & Hc).
  rewrite Hc; [done|]. apply validate_generation_hex in Hv as [Hh _]. by apply hex_not_dotted.
Qed.

Lemma aftermath_answers key cs sizes d0 d :
  staged_key_supported key = true -> aftermath key cs d0 d -> answers key cs sizes d0 d.
Proof.
  intros Hk [Hn|Ho Hp Hc H0 Hg|(Ho & (f & Hf & Hd) & Hc & Hg)|Hconf Ho Hp Hc].
  - left. by apply near_served.
  - assert (read_pointer key d = read_pointer key d0) as Hr by (unfold read_pointer; by rewrite Hp).
    unfold answers. rewrite !served_pointer, Hr by done. destruct (read_pointer key d0) as [|v]; [by left|].
    destruct (validate_generation (str_trim v)) as [|u] eqn:Hv; [by left|].
    apply validate_generation_hex in Hv as [Hh _]. destruct (decide (str_trim v = generation_digest key (rows cs))) as [E|E].
    + rewrite E, H0. destruct Hg as [[? _]|(_ & fs & Hcomp & Hl)]; [done|].
      destruct (serve_new_child key cs sizes fs _ Hcomp Hl) as [->| ->]; [by left|by right; left].
    + rewrite Hc; [by left|by apply hex_not_dotted|done].
  - assert (read_pointer key d = inr (generation_digest key (rows cs))) as Hr.
    { unfold read_pointer. rewrite Hf. unfold read_to_string. rewrite Hd. by rewrite all_hex_utf8 by apply to_hex_is_hex. }
    assert (served key sizes d = serve_child key (generation_digest key (rows cs)) sizes (child key (generation_digest key (rows cs)) d)) as Hs.
    { rewrite served_pointer, Hr by done. by rewrite (str_trim_hex (generation_digest key (rows cs))) by apply to_hex_is_hex;
        rewrite generation_digest_valid. }
    unfold answers. rewrite Hs. destruct Hg as [[Hex ->]|(H0 & fs & Hcomp & Hl)]; [by right; right; left|].
    destruct (serve_new_child key cs sizes fs _ Hcomp Hl) as [->| ->]; [|by right; left].
    rewrite served_pointer by done. destruct (read_pointer key d0) as [|v] eqn:Hr0; [by left|].
    destruct (validate_generation (str_trim v)); [by left|].
    destruct (serve_child key (str_trim v) sizes (child key (str_trim v) d0)) as [cs0|] eqn:Hs0; [|by left].
    right; right; right. split; [done|]. exists v. split_and!; [done| |].
    + intros E. by rewrite E, H0 in Hs0.
    + destruct (child key (str_trim v) d0) as [[|fs0]|] eqn:Hch; [done| |done]. eapply serve_files_intact, Hs0.
      by rewrite files_child, Hch.
  - unfold answers. destruct Hp as [Hp|Hp].
    + rewrite !served_pointer by done. assert (read_pointer key d = read_pointer key d0) as -> by (unfold read_pointer; by rewrite Hp).
      destruct (read_pointer key d0) as [|v]; [by left|].
      destruct (validate_generation (str_trim v)) as [|u] eqn:Hv; [by left|]. apply validate_generation_hex in Hv as [Hh _].
      destruct (serve_lost key (str_trim v) sizes _ _ (Hc _ (hex_not_dotted _ Hh))) as [->| ->]; [by right; right; right|by left].
    + right; right; right. split; [|done]. rewrite served_pointer by done. unfold read_pointer. by rewrite Hp.
Qed.
End Answers.

Section Theorems.
Context {B3 : Blake3} {MC : ManifestCodec} {MCL : ManifestCodecLaws}.
Context (pid : Z) (fate : nat -> Fate) (workspace : bytes -> option bytes).

(** C18: A publication is atomic.  Whatever its accesses do (work, fail, or be the
    last of the process), afterwards a request for the key gets the answer it got
    before, or the published contents, or what an older generation of the same name
    holds, or nothing because the key had an intact generation with other contents;
    the answers for other keys do not change.  Success means the new generation is
    the one pointed at. *)
Theorem publish_atomic (key : bytes) (sources : list StagedSource) (mode : MaterializationMode) (w : World) :
  Z.of_nat (length sources) <= 2 ^ 64 ->
  let (r, w') := persist_staged_generation pid fate workspace key sources mode w in
  (forall sizes, served key sizes (w_disk w') = served key sizes (w_disk w) \/
     exists cs, published_contents workspace sources cs /\ answers key cs sizes (w_disk w) (w_disk w')) /\
  (forall k sizes, k <> key -> served k sizes (w_disk w') = served k sizes (w_disk w)) /\
  (forall stats, r = inr stats -> exists cs, published_contents workspace sources cs /\
     read_pointer key (w_disk w') = inr (generation_digest key (rows cs))).
Proof.
  intros Hlen. destruct (staged_key_supported key) eqn:Hkey.
  2:{ unfold persist_staged_generation, validate_key. rewrite Hkey. cbn. split_and!; [by left|done..]. }
  pose proof (persist_ends pid fate workspace key Hkey sources mode (w_disk w) Hlen w ltac:(reflexivity)) as H.
  destruct (persist_staged_generation pid fate workspace key sources mode w) as [[e|stats] w'].
  - split_and!; [| |done].
    + intros sizes. destruct H as [H|(cs & Hm & H)]; [left; by apply near_served|right].
      exists cs. split; [done|]. by apply aftermath_answers.
    + intros k sizes Hk. apply others_served with key; [done..|]. destruct H as [[H _]|(cs & _ & [[H _]|? |(H & _)|])]; done.
  - destruct H as (cs & Hm & H). pose proof H as (Ho & (f & Hf & Hd) & _). split_and!.
    + intros sizes. right. exists cs. split; [done|]. by apply aftermath_answers, AfterCommitted.
    + intros k sizes Hk. by apply others_served with key.
    + intros _ _. exists cs. split; [done|]. unfold read_pointer, read_to_string. rewrite Hf, Hd.
      by rewrite all_hex_utf8 by apply to_hex_is_hex.
Qed.
End Theorems.

(** ** Durability *)

Section Durable.
Context {B3 : Blake3} {MC : ManifestCodec} {MCL : ManifestCodecLaws}.
Context (pid : Z) (fate : nat -> Fate) (workspace : bytes -> option bytes).
Context (key : bytes) (Hkey : staged_key_supported key = true).
Context (cs : list bytes) (d0 : Staged) (Hnew : child key (generation_digest key (rows cs)) d0 = None).

Abbreviation gen := (generation_digest key (rows cs)).
Abbreviation anywhere := (fun _ : Staged => True).

(** The generation is in the key's directory, with or without its entry synced. *)
Definition installed (flag : bool) (d : Staged) : Prop :=
  exists c fs, entry_at key d = Some (KeyRoot c) /\ c !! gen = Some (mkEntry (Generation fs) flag) /\ durable_dir key cs fs.
Definition durable (d : Staged) : Prop :=
  exists c fs, d !! key = Some (mkEntry (KeyRoot c) true) /\ c !! gen = Some (mkEntry (Generation fs) true) /\
    durable_dir key cs fs /\ d !! pointer_path key = Some (mkEntry (TopFile (mkFile gen true)) true).

Lemma ends_anything {A} P (m : IO A) : ends P m (fun _ => anywhere) anywhere.
Proof. intros w _. by destruct (m w) as [[e|a] w']. Qed.

Lemma rename_installs t :
  dotted t = true ->
  ends (fun d => near key d0 d /\ exists fs, files key t d = Some fs /\ durable_dir key cs fs)
    (rename_generation fate key t gen) (fun _ => installed false) anywhere.
Proof.
  intros Ht. unfold rename_generation. eapply ends_bind.
  { eapply (ends_attempt _ _ _ (fun d => near key d0 d)); [|done].
    apply (ends_step _ _ _ (installed false)); [|by intros d [H _]].
    intros d d' [_ (fs & Hfs & Hdur)] (c & c' & Hc & Hm & _ & ->)%on_key_inv. destruct (entry_at gen c); [done|].
    assert (entry_at t c = Some (Generation fs)) as (e & He & Hi)%get_some.
    { rewrite files_child, (lookup_child _ _ _ _ Hc) in Hfs. destruct (entry_at t c) as [[]|]; naive_solver. }
    apply move_inv in Hm as (e' & He' & ->). simplify_eq. rewrite Hi.
    exists (<[gen := mkEntry (Generation fs) false]> (delete t c)), fs.
    split_and!; [apply get_put_eq| |done]. by rewrite lookup_insert_eq. }
  intros [u|]; [by apply ends_ret|]. eapply ends_bind.
  { eapply ends_attempt; [apply ends_read|done]. }
  intros [x|]; [|by apply ends_fail]. intros w [(_ & _ & Hc) Hx]. exfalso.
  rewrite <- Hc in Hnew by apply generation_not_dotted. unfold child in Hnew. by rewrite Hx in Hnew.
Qed.

Lemma sync_key_installs : ends (installed false) (sync_key_root fate key) (fun _ => installed true) anywhere.
Proof.
  apply ends_step; [|done]. intros d d' (c & fs & Hk & Hg & Hdur) (c1 & c2 & Hc & [= <-] & _ & ->)%on_key_inv.
  unfold children in Hc. rewrite Hk in Hc. injection Hc as <-. exists (sync_entries c), fs. split_and!; [apply get_put_eq| |done].
  unfold sync_entries. by rewrite lookup_fmap, Hg.
Qed.
Lemma commit_durable renamed : ends (installed true) (commit_pointer pid fate key gen renamed) (fun _ => durable) anywhere.
Proof.
  pose proof (key_not_dotted key Hkey) as Hkd. pose proof (key_not_pointer key Hkey) as Hkp.
  unfold commit_pointer. cbn zeta.
  apply (ends_bind _ _ (fun _ d => installed true d /\ entry_at (pointer_path key) d = Some (TopFile (mkFile gen true)))).
  - apply ends_publish_error. eapply (ends_cleanup _ _ _ _ anywhere); [|done|by apply ends_anything].
    eapply ends_mono; [by intros d H; exact H| |done|apply (atomic_write_ends pid fate key Hkey cs (installed true))].
    + intros _ d' (d & (c & fs & Hk & Hr) & Hp & Ho). split; [|done]. exists c, fs. by rewrite Ho.
    + intros d d' (c & fs & Hk & Hr) Ho. exists c, fs. by rewrite Ho.
  - intros _. apply ends_publish_error. eapply (ends_cleanup _ _ _ _ anywhere); [|done|by apply ends_anything].
    apply ends_step; [|done]. intros d d' [(c & fs & (e & He & Hi)%get_some & Hg & Hdur) (e' & He' & Hi')%get_some] [= <-].
    exists c, fs. unfold sync_entries. rewrite !lookup_fmap, He, He'. simpl. by rewrite Hi, Hi'.
Qed.
Lemma durable_on_key f d d' :
  (forall c c', f c = Some c' -> c' !! gen = c !! gen) -> on_key key f d = Some d' -> durable d -> durable d'.
Proof.
  intros Hf (c & c' & Hc & Hfc & _ & ->)%on_key_inv (c0 & fs & Hk & Hg & Hdur & Hp).
  unfold children, entry_at in Hc. rewrite Hk in Hc. injection Hc as <-. exists c', fs. split_and!; [|by rewrite (Hf _ _ Hfc)|done|].
  - unfold put. by rewrite lookup_insert_eq, Hk.
  - unfold put. rewrite lookup_insert_ne; [done|]. by apply key_not_pointer.
Qed.
Lemma remove_other_durable g : g <> gen -> ends durable (remove_tree fate key g) (fun _ => durable) durable.
Proof.
  intros Hg. eapply (ends_keeps _ (fun d d' => durable d -> durable d')); [|by intros d d' H1 H2; apply H2].
  apply keeps_step; [by split; [intros d|intros d1 d2 d3; auto]| |].
  - intros d d' H. injection H as <-. destruct (on_key _ _ d) as [d'|] eqn:E; simpl; [|done].
    eapply durable_on_key, E. intros c c' [= <-]. by rewrite lookup_delete_ne.
  - intros j d. destruct (on_generation _ _ _ d) as [d'|] eqn:E; simpl; [|done]. eapply durable_on_key, E.
    intros c c' Hc. cbn beta in Hc. destruct (files_in g c) as [fs|]; [|discriminate Hc]. cbn in Hc. injection Hc as <-. unfold put. by rewrite lookup_insert_ne.
Qed.

Lemma install_durable t b invalid :
  dotted t = true -> serialize_manifest (mkManifest STAGED_MANIFEST_VERSION key gen (rows cs)) = Some b ->
  (forall p, invalid = Some p -> p <> gen) ->
  ends (fun d => near key d0 d /\ staged_contents key t cs d) (install_generation pid fate key t gen b invalid)
    (fun _ => durable) anywhere.
Proof.
  intros Ht Hser Hinv. unfold install_generation. eapply ends_bind.
  { eapply ends_mono; [| | |exact (write_manifest_ends fate key Hkey t Ht cs d0 b Hser)]; [done|by intros a d H; exact H|done]. }
  intros []. apply (ends_bind _ _ (fun _ => installed false)); [by apply rename_installs|intros renamed].
  apply (ends_bind _ _ (fun _ => installed true)); [apply ends_publish_error, sync_key_installs|intros _].
  apply (ends_bind _ _ (fun _ => durable)); [apply commit_durable|intros _].
  destruct invalid as [p|]; [|by apply ends_ret].
  apply (ends_bind _ _ (fun _ => durable)); [|intros _; by apply ends_ret].
  eapply ends_mono; [by intros d H; exact H| |done|
    exact (ends_attempt _ _ _ _ durable (remove_other_durable p (Hinv p eq_refl)) (fun d H => H))].
  by intros [] d H.
Qed.

Lemma persist_durable sources mode :
  Z.of_nat (length sources) <= 2 ^ 64 -> published_contents workspace sources cs ->
  ends (near key d0) (persist_staged_generation pid fate workspace key sources mode) (fun _ => durable) anywhere.
Proof.
  intros Hlen Hcs. unfold persist_staged_generation, validate_key. rewrite Hkey.
  destruct sources as [|s sources]; [by apply ends_fail|]. set (srcs := s :: sources) in *. clearbody srcs.
  apply (ends_bind _ _ (fun _ => near key d0)).
  { eapply ends_keeps_to; [by apply setup_near| |done]. intros d d' ??. by etrans. }
  intros _. apply (ends_bind _ _ (fun _ => near key d0)); [by intros w Hw|]. intros n. cbn zeta.
  assert (dotted (temporary_generation pid n) = true) as Ht by done. revert Ht. generalize (temporary_generation pid n) as t. intros t Ht.
  apply (ends_bind _ _ (fun _ => near key d0)).
  { eapply ends_keeps_to; [by apply temporary_near| |done]. intros d d' ??. by etrans. }
  intros _. eapply (ends_cleanup _ _ _ _ anywhere); [|done|by apply ends_anything].
  unfold publish_generation. eapply ends_bind.
  { eapply ends_mono; [| | |by apply (stage_ends pid fate workspace key Hkey t Ht mode srcs d0 Hlen)];
      [by intros d H; exact H|by intros a d H; exact H|done]. }
  intros [outs stats]. cbn [fst]. apply (ends_bind _ _ (fun _ => durable)); [|intros _; by apply ends_ret].
  intros w (cs' & Hst & Hm & ->). unfold published_contents in Hcs. rewrite Hcs in Hm. injection Hm as <-.
  revert w Hst. fold (ends (fun d => near key d0 d /\ staged_contents key t cs d) (publish_outputs pid fate key t (rows cs)) (fun _ => durable) anywhere).
  unfold publish_outputs. cbn zeta. rewrite generation_digest_valid. eapply ends_bind.
  { eapply ends_mono; [| | |exact (settle_previous_ends fate workspace key Hkey cs d0 (staged_contents key t cs))];
      [by intros d H; exact H|by intros a d H; exact H|done]. }
  intros invalid. destruct (serialize_manifest _) as [b|] eqn:Hser; [|by apply ends_fail].
  intros w [Hst Hinv]. by apply (install_durable t b invalid Ht Hser Hinv).
Qed.

Lemma durable_power_loss sizes d d' : durable d -> power_loss d d' -> served key sizes d' = fresh_answer cs sizes.
Proof.
  intros (c & fs & Hk & Hg & [Houts (b & Hser & Hb)] & Hp) Hloss.
  destruct (Hloss _ _ Hk) as (x & Hk' & c' & -> & Hc). destruct (Hloss _ _ Hp) as (x & Hp' & f & -> & Hf).
  destruct (Hc _ _ Hg) as (x & Hg' & fs' & -> & Hfs). specialize (Hf eq_refl). simpl in Hf.
  assert (complete_generation key cs fs') as Hcomp.
  { split.
    - intros i b' Hi. destruct (Hfs _ _ (Houts _ _ Hi)) as (x & Hx & Hkeep). rewrite Hx. simpl. f_equal. by apply Hkeep.
    - exists b. split; [done|]. destruct (Hfs _ _ Hb) as (x & Hx & Hkeep). rewrite Hx. simpl. f_equal. by apply Hkeep. }
  rewrite served_pointer by done. unfold read_pointer, read_to_string. rewrite Hp', Hf.
  rewrite all_hex_utf8, str_trim_hex, generation_digest_valid by apply to_hex_is_hex.
  unfold child, children. rewrite Hk'. simpl. rewrite Hg'. simpl. by apply serve_complete.
Qed.
End Durable.

(** ** Contents are what was published *)

Section Authentic.
Context {B3 : Blake3} {MC : ManifestCodec}.

(** Every row that was checked has its file, of the recorded digest. *)
Lemma check_outputs_all fs seen l s :
  check_outputs fs seen l = inr s ->
  Forall (fun o => (o_index o < length seen)%nat /\
    exists b, f_data <$> entry_at (output_path (o_index o)) fs = Some b /\ digest_hex o = to_hex (blake3 b)) l.
Proof.
  revert seen. induction l as [|o l IH]; intros seen; cbn [check_outputs]; [by constructor|].
  unfold check_output, mbind. destruct (seen !! o_index o) as [[]|] eqn:E; try done.
  destruct (data_of (output_path (o_index o)) fs) as [e|b] eqn:Hd; [done|]. cbn [ek_bind].
  destruct (_ =? _); [|done]. cbn [negb]. destruct (bool_decide_reflect ((digest_file b).1.2 = digest_hex o)) as [Hx|]; [|done].
  cbn [negb ek_bind]. intros H. constructor.
  - split; [by eapply lookup_lt_Some|]. exists b. split; [|done]. unfold data_of in Hd. destruct (entry_at _ fs); [|done]. simpl. congruence.
  - apply IH in H. by rewrite length_insert in H.
Qed.

Lemma output_rows_inj l k :
  Forall (fun o => String.length (digest_hex o) = 64%nat) l -> Forall (fun o => String.length (digest_hex o) = 64%nat) k ->
  output_rows l = output_rows k ->
  Forall2 (fun a b => le_bytes 8 (Z.of_nat (o_index a)) = le_bytes 8 (Z.of_nat (o_index b)) /\ digest_hex a = digest_hex b) l k.
Proof.
  revert k. induction l as [|a l IH]; intros [|b k] Hl Hk Heq; cbn [output_rows] in Heq.
  - constructor.
  - apply Forall_cons in Hk as [Hb _]. apply (f_equal String.length) in Heq. unfold output_row in Heq.
    rewrite !string_length_app, !le_bytes_length in Heq. simpl in Heq. lia.
  - apply Forall_cons in Hl as [Ha _]. apply (f_equal String.length) in Heq. unfold output_row in Heq.
    rewrite !string_length_app, !le_bytes_length in Heq. simpl in Heq. lia.
  - apply Forall_cons in Hl as [Ha Hl], Hk as [Hb Hk].
    apply string_app_inv_len in Heq as [Hrow Hrest]; [|unfold output_row; by rewrite !string_length_app, !le_bytes_length, Ha, Hb].
    constructor; [|by apply IH]. unfold output_row in Hrow.
    apply string_app_inv_len in Hrow as [Hi Hrow]; [|by rewrite !le_bytes_length].
    by apply string_app_inv_len in Hrow as [_ ?]; [|by rewrite !le_bytes_length].
Qed.
Lemma to_hex_length b : String.length (to_hex (blake3 b)) = 64%nat.
Proof. unfold to_hex. by rewrite hex_encode_length, blake3_length. Qed.

(** Rows that agree with those of [P] are in the order of their indexes. *)
Lemma rows_in_order outs P :
  Z.of_nat (length P) <= 2 ^ 64 -> Forall (fun o => (o_index o < length outs)%nat) outs ->
  Forall2 (fun a b => le_bytes 8 (Z.of_nat (o_index a)) = le_bytes 8 (Z.of_nat (o_index b)) /\ digest_hex a = digest_hex b) outs (rows P) ->
  (fun o => (o_index o, output_path (o_index o))) <$> outs = (fun i => (i, output_path i)) <$> seq 0 (length P).
Proof.
  intros Hlen Hidx Hrows. pose proof (Forall2_length _ _ _ Hrows) as Hl. unfold rows in Hl. rewrite length_imap in Hl.
  apply list_eq. intros i. rewrite !list_lookup_fmap. destruct (outs !! i) as [o|] eqn:Ho.
  - pose proof (lookup_lt_Some _ _ _ Ho) as Hi. rewrite lookup_seq_lt by lia. simpl.
    destruct (Forall2_lookup_l _ _ _ _ _ Hrows Ho) as (r & Hr & Hle & _). unfold rows in Hr. rewrite list_lookup_imap in Hr.
    destruct (P !! i) as [p|]; [|done]. simpl in Hr. injection Hr as <-. cbn [row_of o_index] in Hle.
    pose proof (Forall_lookup_1 _ _ _ _ Hidx Ho) as Hb. simpl in Hb. change (256 ^ Z.of_nat 8) with (2 ^ 64) in *.
    apply le_bytes_inj in Hle; [|change (256 ^ Z.of_nat 8) with (2 ^ 64); lia..]. by replace (o_index o) with i by lia.
  - apply lookup_ge_None in Ho. by rewrite lookup_seq_ge by lia.
Qed.

(** C30: A served answer is authentic, on any disk at all: if the pointer of a key
    reads the generation of some contents, a request that is served gets exactly
    these contents, whatever else happened to the files, unless blake3 has one digest
    for the two manifests or for two of the outputs. *)
Theorem staged_answer_authentic (key : bytes) (sizes : list Z) (d : Staged) (value : bytes) (P cs : list bytes)
    (fs : Dir File) (m : StagedManifest) :
  Z.of_nat (length P) <= 2 ^ 64 ->
  read_pointer key d = inr value -> str_trim value = generation_digest key (rows P) ->
  served key sizes d = Some cs ->
  files key (str_trim value) d = Some fs -> load_manifest fs key (str_trim value) = inr m ->
  cs = P \/ blake3_collision (generation_preimage key (m_outputs m)) (generation_preimage key (rows P)) \/
  exists i c p, cs !! i = Some c /\ P !! i = Some p /\ blake3_collision c p.
Proof.
  intros Hlen Hptr Hg Hs Hfs Hm. rewrite served_spec in Hs. destruct (staged_key_supported key); [|done]. rewrite Hptr in Hs.
  unfold serve_pointer in Hs. destruct (validate_generation _); [done|]. rewrite Hfs in Hs. unfold serve_files in Hs. rewrite Hm in Hs.
  destruct (bool_decide_reflect (generation_digest key (m_outputs m) = str_trim value)) as [Hd|]; [|done]. cbn [negb orb] in Hs.
  destruct (_ || _) in Hs; [done|]. unfold verify_generation_outputs, mbind in Hs.
  destruct (check_outputs fs _ _) as [e|seen] eqn:Hc; [done|]. cbn [ek_bind] in Hs.
  apply check_outputs_all in Hc. rewrite length_replicate in Hc.
  rewrite Hg in Hd. unfold generation_digest, to_hex in Hd. apply hex_encode_inj, blake3_eq in Hd as [Hd|Hd]; [|by right; left].
  unfold generation_preimage in Hd. apply string_app_inv_len in Hd as [_ Hd]; [|done].
  apply output_rows_inj in Hd.
  2:{ eapply Forall_impl; [exact Hc|]. intros o (_ & b & _ & ->). apply to_hex_length. }
  2:{ apply Forall_lookup. intros i o. unfold rows. rewrite list_lookup_imap. destruct (P !! i); [|done]. simpl. intros [= <-]. apply to_hex_length. }
  rewrite (rows_in_order (m_outputs m) P) in Hs; [|done|by eapply Forall_impl; [exact Hc|]; intros o [? _]|done].
  rewrite sort_by_index_id, <- list_fmap_compose in Hs. apply mapM_Some in Hs.
  destruct (decide (cs = P)) as [|Hne]; [by left|right; right].
  assert (length cs = length P) as Hlcs.
  { apply Forall2_length in Hs. rewrite length_fmap, length_seq in Hs. done. }
  assert (exists i c p, cs !! i = Some c /\ P !! i = Some p /\ c <> p) as (i & c & p & Hci & Hpi & Hcp).
  { clear -Hne Hlcs. revert P Hlcs Hne. induction cs as [|c cs IH]; intros [|p P]; simpl; intros Hlcs Hne; try done.
    destruct (decide (c = p)) as [->|]; [|by exists 0%nat, c, p].
    destruct (IH P) as (i & c' & p' & ? & ? & ?); [lia|congruence|]. by exists (S i), c', p'. }
  exists i, c, p. split_and!; [done..|]. split; [done|].
  destruct (Forall2_lookup_r _ _ _ _ _ Hs Hci) as (n & Hn & Hdata). rewrite list_lookup_fmap in Hn.
  rewrite lookup_seq_lt in Hn by (rewrite <- Hlcs; by eapply lookup_lt_Some). apply (inj Some) in Hn.
  change (output_path i = n) in Hn. subst n. change (f_data <$> entry_at (output_path i) fs = Some c) in Hdata.
  assert (exists o, m_outputs m !! i = Some o) as (o & Ho).
  { apply lookup_lt_is_Some_2. apply Forall2_length in Hd. unfold rows in Hd. rewrite length_imap in Hd. rewrite Hd. by eapply lookup_lt_Some. }
  pose proof (Forall_lookup_1 _ _ _ _ Hc Ho) as (_ & b & Hb & Hx).
  destruct (Forall2_lookup_l _ _ _ _ _ Hd Ho) as (r & Hr & Hle & Hdig). unfold rows in Hr. rewrite list_lookup_imap, Hpi in Hr.
  simpl in Hr. injection Hr as <-. cbn [row_of o_index digest_hex] in *.
  assert (o_index o = i) as Hio.
  { pose proof (f_equal (fun l : list (nat * bytes) => l !! i) (rows_in_order (m_outputs m) P Hlen ltac:(eapply Forall_impl; [exact Hc|]; by intros ? [? _]) Hd)) as E. cbn beta in E.
    rewrite !list_lookup_fmap, Ho, lookup_seq_lt in E by (rewrite <- Hlcs; by eapply lookup_lt_Some). apply (inj Some) in E. by apply (f_equal fst) in E. }
  rewrite Hio in Hb. rewrite Hb in Hdata. injection Hdata as ->.
  rewrite Hx in Hdig. unfold to_hex in Hdig. by apply hex_encode_inj in Hdig.
Qed.
End Authentic.

(** ** Histories of the store *)

Section History.
Context {B3 : Blake3} {MC : ManifestCodec} {MCL : ManifestCodecLaws}.

(** Every generation of every key is as it was, gone, or lost files. *)
Definition all_lost (d d' : Staged) : Prop :=
  forall k g, staged_key_supported k = true -> dotted g = false -> lost (child k g d) (child k g d').
#[export] Instance all_lost_preorder : PreOrder all_lost.
Proof. split; [intros d k g _ _; reflexivity|]. intros d1 d2 d3 H1 H2 k g Hk Hg. etrans; [by apply H1|by apply H2]. Qed.

Lemma root_only_all_lost d d' : root_only d d' -> all_lost d d'.
Proof. intros H k g Hk _. left. unfold child, children. by rewrite H by (by apply key_not_dotted). Qed.
Lemma loses_all_lost key g d d' : loses key g d d' -> all_lost d d'.
Proof.
  intros Hl k n Hk Hn. destruct (decide (k = key)) as [->|Hne]; [by eapply loses_lost|].
  left. destruct Hl as (H & _). unfold child, children. by rewrite H.
Qed.
Lemma open_store_lock_all_lost fate : keeps_rel all_lost (open_store_lock fate).
Proof.
  apply keeps_whole; [typeclasses eauto|]. intros d d' [= <-]. destruct (entry_at STORE_LOCK d); [reflexivity|].
  apply root_only_all_lost, (root_only_entry STORE_LOCK); [done|]. intros m Hm. by apply get_put_ne.
Qed.
Lemma remove_child_all_lost fate key name c : keeps_rel all_lost (remove_child fate key name c).
Proof.
  unfold remove_child. destruct (is_generation c).
  - eapply keeps_mono, remove_tree_loses. intros d d'. apply loses_all_lost.
  - apply keeps_whole; [typeclasses eauto|]. intros d d' (c0 & c' & Hc & Hf & Hc' & ->)%on_key_inv.
    destruct (entry_at name c0); [|done]. injection Hf as <-. apply (loses_all_lost key name). split_and!.
    + intros n Hn. by apply get_put_ne.
    + intros n Hn. rewrite (lookup_child _ _ _ _ Hc'), (lookup_child _ _ _ _ Hc). by apply get_delete_ne.
    + right; left. rewrite (lookup_child _ _ _ _ Hc'). apply get_delete_eq.
Qed.
Lemma clean_children_all_lost fate key current l n : keeps_rel all_lost (clean_children fate key current l n).
Proof.
  revert n. induction l as [|[name e] l IH]; intros n; cbn [clean_children]; [apply keeps_ret; typeclasses eauto|].
  destruct (stale_child _ _ _); [|apply IH]. apply keeps_bind; [typeclasses eauto|apply remove_child_all_lost|intros _; apply IH].
Qed.
Lemma clean_entries_all_lost fate l n : keeps_rel all_lost (clean_entries fate l n).
Proof.
  revert n. induction l as [|[name e] l IH]; intros n; cbn [clean_entries]; [apply keeps_ret; typeclasses eauto|].
  destruct (item e).
  - destruct (starts_with "." name && _) eqn:E; [|apply IH]. apply andb_true_iff in E as [E _].
    apply keeps_bind; [typeclasses eauto| |intros _; apply IH]. apply keeps_whole; [typeclasses eauto|].
    intros d d'. destruct (entry_at name d); [|done]. intros [= <-]. apply root_only_all_lost, (root_only_entry name); [done|].
    intros m Hm. by apply get_delete_ne.
  - apply keeps_bind; [typeclasses eauto|apply keeps_attempt, keeps_read; typeclasses eauto|intros v].
    apply keeps_bind; [typeclasses eauto|apply keeps_read; typeclasses eauto|intros l'].
    apply keeps_bind; [typeclasses eauto|apply clean_children_all_lost|intros n'; apply IH].
Qed.
Lemma cleanup_all_lost fate : keeps_rel all_lost (cleanup_staged_artifact_temps fate).
Proof.
  unfold cleanup_staged_artifact_temps.
  apply keeps_bind; [typeclasses eauto|apply open_store_lock_all_lost|intros _].
  apply keeps_bind; [typeclasses eauto|apply keeps_touch; typeclasses eauto|intros _].
  apply keeps_bind; [typeclasses eauto|apply keeps_read; typeclasses eauto|intros l]. apply clean_entries_all_lost.
Qed.
Lemma part_of_lost j c n : lost (entry_at n c) (entry_at n (part_of_key j c)).
Proof.
  unfold part_of_key, entry_at. rewrite lookup_fmap. destruct (filter _ c !! n) as [e|] eqn:E; simpl; [|by right; left].
  apply map_lookup_filter_Some in E as [-> _]. simpl. destruct (item e) as [f|fs]; [by left|]. right; right.
  eexists _, _. split_and!; [done..|]. apply filter_shrinks.
Qed.
Lemma remove_top_all_lost fate name : keeps_rel all_lost (remove_top fate name).
Proof.
  assert (forall d, all_lost d (delete name d)) as Hdel.
  { intros d k g Hk Hg. unfold child, children. destruct (decide (k = name)) as [->|Hne]; [rewrite get_delete_eq; by right; left|].
    left. by rewrite get_delete_ne. }
  apply keeps_step; [typeclasses eauto| |].
  - intros d d' [= <-]. destruct (entry_at name d) as [[]|]; [|apply Hdel..]. etrans; [apply Hdel|].
    apply root_only_all_lost, (root_only_entry (digest_path name)); [done|]. intros m Hm. by apply get_delete_ne.
  - intros j d. destruct (entry_at name d) as [[|c]|] eqn:E; [reflexivity| |reflexivity]. intros k g Hk Hg. unfold child, children.
    destruct (decide (k = name)) as [->|Hne]; [rewrite get_put_eq, E; apply part_of_lost|]. left. by rewrite get_put_ne.
Qed.
Lemma clear_all_lost fate : keeps_rel all_lost (clear_staged_artifacts fate).
Proof.
  unfold clear_staged_artifacts.
  apply keeps_bind; [typeclasses eauto|apply open_store_lock_all_lost|intros _].
  apply keeps_bind; [typeclasses eauto|apply keeps_touch; typeclasses eauto|intros _].
  apply keeps_bind; [typeclasses eauto|apply keeps_read; typeclasses eauto|intros l].
  induction l as [|[name e] l IH]; cbn [clear_entries]; [apply keeps_ret; typeclasses eauto|].
  destruct (bool_decide _); [done|]. apply keeps_bind; [typeclasses eauto|apply remove_top_all_lost|by intros _].
Qed.

(** What can happen to a store.  A pointer may also be lost or overwritten with
    anything. *)
Record Run := mkRun { r_pid : Z; r_fate : nat -> Fate; r_workspace : bytes -> option bytes }.
Inductive StoreOp :=
  | Publish (r : Run) (key : bytes) (sources : list StagedSource) (mode : MaterializationMode)
  | CleanUp (r : Run)
  | Clear (r : Run)
  | PointerBecomes (key : bytes) (f : option File).
Definition run_op (op : StoreOp) (w : World) : World :=
  match op with
  | Publish r key sources mode => (persist_staged_generation (r_pid r) (r_fate r) (r_workspace r) key sources mode w).2
  | CleanUp r => (cleanup_staged_artifact_temps (r_fate r) w).2
  | Clear r => (clear_staged_artifacts (r_fate r) w).2
  | PointerBecomes key f =>
      set_disk (match f with Some f => put_top (pointer_path key) f (w_disk w) | None => delete (pointer_path key) (w_disk w) end) w
  end.
Definition run_ops (ops : list StoreOp) (w : World) : World := fold_left (fun w op => run_op op w) ops w.

Definition op_publishes (op : StoreOp) (key : bytes) (cs : list bytes) : Prop :=
  match op with Publish r k sources _ => k = key /\ published_contents (r_workspace r) sources cs | _ => False end.
Definition op_bounded (op : StoreOp) : Prop :=
  match op with Publish _ _ sources _ => Z.of_nat (length sources) <= 2 ^ 64 | _ => True end.

(** Every generation that passes the checks holds contents of [H]. *)
Definition authentic (H : bytes -> list bytes -> Prop) (d : Staged) : Prop :=
  forall key g sizes cs, staged_key_supported key = true -> dotted g = false ->
    serve_child key g sizes (child key g d) = Some cs -> H key cs.

Lemma authentic_lost H d d' : authentic H d -> all_lost d d' -> authentic H d'.
Proof.
  intros Ha Hl key g sizes cs Hk Hg Hs. destruct (serve_lost key g sizes _ _ (Hl key g Hk Hg)) as [E|E]; [by rewrite E in Hs|].
  rewrite E in Hs. by eapply Ha.
Qed.
Lemma authentic_mono (H K : bytes -> list bytes -> Prop) d : (forall k cs, H k cs -> K k cs) -> authentic H d -> authentic K d.
Proof. intros HK Ha key g sizes cs ???. eapply HK, Ha; done. Qed.

Lemma others_child key k g d0 d :
  staged_key_supported key = true -> staged_key_supported k = true -> k <> key -> others key d0 d -> child k g d = child k g d0.
Proof.
  intros Hkey Hk Hne Ho. unfold child, children. rewrite Ho; [done..| |by apply key_not_dotted].
  intros E. pose proof (pointer_not_hex key) as Hn. apply supported_hex in Hk as [Hh _]. by rewrite <- E, Hh in Hn.
Qed.
(** The children of the key after a publication. *)
Lemma aftermath_children key cs d0 d g :
  aftermath key cs d0 d -> dotted g = false ->
  lost (child key g d0) (child key g d) \/
  (g = generation_digest key (rows cs) /\ exists fs, complete_generation key cs fs /\ lost (Some (Generation fs)) (child key g d)).
Proof.
  intros Ha Hg. destruct (decide (g = generation_digest key (rows cs))) as [->|Hne].
  - assert (new_child key cs d0 d -> lost (child key (generation_digest key (rows cs)) d0) (child key (generation_digest key (rows cs)) d) \/
      exists fs, complete_generation key cs fs /\ lost (Some (Generation fs)) (child key (generation_digest key (rows cs)) d)) as Hnc.
    { intros [[_ ->]|(_ & H)]; [left; reflexivity|by right]. }
    destruct Ha as [(_ & _ & H)|? ? ? ? Hn|(_ & _ & _ & Hn)|_ _ _ H]; [left; rewrite H by done; reflexivity| | |left; by apply H];
      (destruct (Hnc Hn); [by left|right; done]).
  - left. destruct Ha as [(_ & _ & H)|_ _ H _ _|(_ & _ & H & _)|_ _ _ H]; [rewrite H by done; reflexivity|rewrite H by done; reflexivity|by apply H..].
Qed.
Lemma aftermath_others key cs d0 d : aftermath key cs d0 d -> others key d0 d.
Proof. by intros [[H _]| |(H & _)|]. Qed.

Lemma after_authentic (H : bytes -> list bytes -> Prop) r key sources mode cs d0 d :
  staged_key_supported key = true -> authentic H d0 -> published_contents (r_workspace r) sources cs -> aftermath key cs d0 d ->
  authentic (fun k cs => H k cs \/ op_publishes (Publish r key sources mode) k cs) d.
Proof.
  intros Hkey Ha Hm Haf k g sizes cs' Hk Hg Hs. destruct (decide (k = key)) as [->|Hne].
  - destruct (aftermath_children _ _ _ _ g Haf Hg) as [Hl|(-> & fs & Hcomp & Hl)].
    + left. destruct (serve_lost key g sizes _ _ Hl) as [E|E]; [by rewrite E in Hs|]. rewrite E in Hs. by eapply Ha.
    + right. split; [done|]. destruct (serve_new_child key cs sizes fs _ Hcomp Hl) as [E|E]; rewrite E in Hs; [done|].
      unfold fresh_answer in Hs. case_bool_decide; [|done]. by injection Hs as <-.
  - left. rewrite (others_child key k g d0) in Hs by (done || by eapply aftermath_others). by eapply Ha.
Qed.
Lemma publish_authentic (H : bytes -> list bytes -> Prop) r key sources mode w :
  Z.of_nat (length sources) <= 2 ^ 64 -> authentic H (w_disk w) ->
  authentic (fun k cs => H k cs \/ op_publishes (Publish r key sources mode) k cs)
    (w_disk (run_op (Publish r key sources mode) w)).
Proof.
  intros Hlen Ha. cbn [run_op op_publishes]. destruct (staged_key_supported key) eqn:Hkey.
  2:{ unfold persist_staged_generation, validate_key. rewrite Hkey. cbn. eapply authentic_mono, Ha. by left. }
  pose proof (persist_ends (r_pid r) (r_fate r) (r_workspace r) key Hkey sources mode (w_disk w) Hlen w ltac:(reflexivity)) as He.
  destruct (persist_staged_generation _ _ _ key sources mode w) as [[e|stats] w']; cbn [snd].
  - destruct He as [Hn|(cs & Hm & He)].
    + intros k g sizes cs Hk Hg Hs. left. eapply Ha; [done..|]. destruct (decide (k = key)) as [->|Hne].
      * destruct Hn as (_ & _ & Hc). by rewrite Hc in Hs.
      * by rewrite (others_child key k g (w_disk w)) in Hs by (done || apply Hn).
    + exact (after_authentic H r key sources mode cs _ _ Hkey Ha Hm He).
  - destruct He as (cs & Hm & He). exact (after_authentic H r key sources mode cs _ _ Hkey Ha Hm (AfterCommitted _ _ _ _ He)).
Qed.

Lemma pointer_becomes_all_lost key f w : all_lost (w_disk w) (w_disk (run_op (PointerBecomes key f) w)).
Proof.
  intros k g Hk _. left. apply supported_hex in Hk as [Hh _]. unfold child, children. cbn.
  assert (k <> pointer_path key) as Hne.
  { intros ->. by rewrite pointer_not_hex in Hh. }
  destruct f; [unfold put_top; by rewrite get_put_ne|by rewrite get_delete_ne].
Qed.
Lemma run_op_authentic (H : bytes -> list bytes -> Prop) op w :
  op_bounded op -> authentic H (w_disk w) -> authentic (fun k cs => H k cs \/ op_publishes op k cs) (w_disk (run_op op w)).
Proof.
  intros Hb Ha. destruct op as [r key sources mode|r|r|key f]; [by apply publish_authentic|..];
    eapply authentic_mono; try (by left; eassumption); eapply authentic_lost; try exact Ha.
  - apply cleanup_all_lost.
  - apply clear_all_lost.
  - apply pointer_becomes_all_lost.
Qed.
Lemma run_ops_authentic ops (H : bytes -> list bytes -> Prop) w :
  Forall op_bounded ops -> authentic H (w_disk w) ->
  authentic (fun k cs => H k cs \/ Exists (fun op => op_publishes op k cs) ops) (w_disk (run_ops ops w)).
Proof.
  revert H w. induction ops as [|op ops IH]; intros H w Hb Ha; [eapply authentic_mono, Ha; by left|].
  apply Forall_cons in Hb as [Hop Hb]. cbn [run_ops fold_left]. eapply authentic_mono, (IH _ _ Hb (run_op_authentic H op w Hop Ha)).
  intros k cs [[?|?]|?]; [by left|right; by constructor|right; by constructor 2].
Qed.

(** C19: The store serves only what was published: starting from an empty store, after
    any sequence of publications, clean-ups and clearings, with any of their accesses
    failing or the process dying at any of them, and with pointers lost or overwritten
    with anything in between, the contents served for a key are the contents of one
    publication under that key. *)
Theorem staged_serves_published (ops : list StoreOp) (w : World) (key : bytes) (sizes : list Z) (cs : list bytes) :
  w_disk w = ∅ -> Forall op_bounded ops -> served key sizes (w_disk (run_ops ops w)) = Some cs ->
  Exists (fun op => op_publishes op key cs) ops.
Proof.
  intros Hw Hb Hs. assert (staged_key_supported key = true) as Hk.
  { rewrite served_spec in Hs. by destruct (staged_key_supported key). }
  rewrite served_pointer in Hs by done. destruct (read_pointer key _) as [|v]; [done|].
  destruct (validate_generation (str_trim v)) as [|u] eqn:Hv; [done|]. apply validate_generation_hex in Hv as [Hh _].
  assert (authentic (fun _ _ => False) (w_disk w)) as H0.
  { rewrite Hw. intros k g s c _ _. unfold child, children, entry_at. by rewrite lookup_empty. }
  destruct (run_ops_authentic ops _ w Hb H0 key (str_trim v) sizes cs Hk (hex_not_dotted _ Hh) Hs); done.
Qed.

(** C29: A publication that reported success survives a power failure: if its
    generation is new, then on any disk that keeps what was synced a request gets the
    published contents. *)
Theorem published_survives (r : Run) (key : bytes) (sources : list StagedSource) (mode : MaterializationMode) (cs : list bytes)
    (w : World) (stats : PersistArtifactFileStats) (w' : World) (d : Staged) :
  Z.of_nat (length sources) <= 2 ^ 64 -> published_contents (r_workspace r) sources cs ->
  child key (generation_digest key (rows cs)) (w_disk w) = None ->
  persist_staged_generation (r_pid r) (r_fate r) (r_workspace r) key sources mode w = (inr stats, w') ->
  power_loss (w_disk w') d ->
  served key (lens cs) d = Some cs.
Proof.
  intros Hlen Hm Hnew Hp Hloss. destruct (staged_key_supported key) eqn:Hkey.
  2:{ unfold persist_staged_generation, validate_key in Hp. by rewrite Hkey in Hp. }
  pose proof (persist_durable (r_pid r) (r_fate r) (r_workspace r) key Hkey cs (w_disk w) Hnew sources mode Hlen Hm w ltac:(reflexivity)) as He.
  rewrite Hp in He. rewrite (durable_power_loss key Hkey cs (lens cs) _ _ He Hloss). unfold fresh_answer. by rewrite bool_decide_true.
Qed.
End History.

(** ** Sidecar names *)

(** The search for a free sidecar name ends within its bound. *)
Lemma free_counter_spec {B3 : Blake3} pid fuel name c fs :
  0 <= c -> c + Z.of_nat fuel < 2 ^ 64 ->
  entry_at (sidecar_tmp pid name (free_counter pid fuel name c fs)) fs = None \/
  forall i, (i < fuel)%nat -> is_Some (fs !! sidecar_tmp pid name (c + Z.of_nat i)).
Proof.
  revert c. induction fuel as [|fuel IH]; intros c Hc Hb; cbn [free_counter]; [right; lia|].
  destruct (entry_at (sidecar_tmp pid name c) fs) as [f|] eqn:E; [|by left].
  rewrite wrap64_small by lia. destruct (IH (c + 1)) as [H|H]; [lia..|by left|right]. intros [|i] Hi.
  - rewrite Z.add_0_r. apply get_some in E as (e & -> & _). done.
  - replace (c + Z.of_nat (S i)) with (c + 1 + Z.of_nat i) by lia. apply H. lia.
Qed.
Lemma sidecar_tmp_inj {B3 : Blake3} pid name a b :
  0 <= a < 2 ^ 64 -> 0 <= b < 2 ^ 64 -> sidecar_tmp pid name a = sidecar_tmp pid name b -> a = b.
Proof.
  intros Ha Hb Heq. unfold sidecar_tmp in Heq. repeat (apply string_app_inv_len in Heq as [_ Heq]; [|done]).
  by apply decimal_inj in Heq.
Qed.
Lemma free_counter_free {B3 : Blake3} pid name c (fs : Dir File) :
  0 <= c -> c + Z.of_nat (S (size fs)) < 2 ^ 64 ->
  entry_at (sidecar_tmp pid name (free_counter pid (S (size fs)) name c fs)) fs = None.
Proof.
  intros Hc Hb. destruct (free_counter_spec pid (S (size fs)) name c fs Hc Hb) as [H|H]; [done|exfalso].
  set (l := (fun i => sidecar_tmp pid name (c + Z.of_nat i)) <$> seq 0 (S (size fs))).
  assert (NoDup l) as Hnd.
  { apply NoDup_fmap_2_strong; [|apply NoDup_seq]. intros i j Hi Hj E. rewrite elem_of_seq in Hi, Hj.
    apply sidecar_tmp_inj in E; lia. }
  assert (list_to_set (C := gset bytes) l ⊆ dom fs) as Hsub.
  { intros n Hn. apply elem_of_list_to_set, list_elem_of_fmap in Hn as (i & -> & Hi). apply elem_of_seq in Hi.
    apply elem_of_dom, H. lia. }
  apply subseteq_size in Hsub. rewrite size_list_to_set, size_dom in Hsub by done. unfold l in Hsub.
  rewrite length_fmap, length_seq in Hsub. lia.
Qed.

(** ** Runs *)

#[export] Instance StagedOutput_eq_dec : EqDecision StagedOutput.
Proof. solve_decision. Defined.
#[export] Instance StagedManifest_eq_dec : EqDecision StagedManifest.
Proof. solve_decision. Defined.

(** A codec that knows one manifest. *)
Definition one_manifest (m0 : StagedManifest) : ManifestCodec := {|
  serialize_manifest m := if bool_decide (m = m0) then Some "manifest" else None;
  deserialize_manifest b := if bool_decide (b = "manifest") then Some m0 else None
|}.
Lemma one_manifest_laws m0 : @ManifestCodecLaws (one_manifest m0).
Proof. constructor. intros m b. cbn. case_bool_decide as E; [|done]. intros [= <-]. by subst. Qed.

Definition demo_key : bytes := "0a1b".
Definition demo_contents : list bytes := ["object"; "deps"].
Definition demo_workspace (p : bytes) : option bytes := if bool_decide (p = "out/deps.d") then Some "deps" else None.
Definition demo_sources : list StagedSource := [SourceBytes "object"; SourcePath "out/deps.d"].
Definition demo_generation : bytes := Eval vm_compute in generation_digest (B3 := toy_blake3) demo_key (rows (B3 := toy_blake3) demo_contents).
Definition demo_codec : ManifestCodec :=
  one_manifest (mkManifest 1 demo_key demo_generation (rows (B3 := toy_blake3) demo_contents)).
Definition demo_start : World := mkStoreWorld ∅ 1 1 0.
Definition demo_run (fate : nat -> Fate) : Run := mkRun 7 fate demo_workspace.
Definition demo_publish (fate : nat -> Fate) (w : World) : (Stop + PersistArtifactFileStats) * World :=
  persist_staged_generation (B3 := toy_blake3) (MC := demo_codec) 7 fate demo_workspace demo_key demo_sources AutoMode w.
Abbreviation demo_served := (served (B3 := toy_blake3) (MC := demo_codec) demo_key [6; 4]).

(** Without faults both outputs are served; the reflink of a path counts as one. *)
Example demo_publish_ok :
  let (r, w) := demo_publish (fun _ => Works) demo_start in
  r = inr (mkPersistStats 1 1 6) /\ demo_served (w_disk w) = Some demo_contents /\
  files demo_key (temporary_generation 7 1) (w_disk w) = None.
Proof. vm_compute. done. Qed.
(** Whichever access is the last of the process, there is either nothing or
    everything. *)
Example demo_publish_dies :
  forallb (fun n => let w := (demo_publish (fun k => if (k =? n)%nat then Dies (mkJunk (Some "junk") (fun _ => true)) else Works) demo_start).2 in
                    bool_decide (demo_served (w_disk w) = None) || bool_decide (demo_served (w_disk w) = Some demo_contents))
    (seq 0 48) = true.
Proof. vm_compute. done. Qed.

Lemma publish_atomic_witness :
  Z.of_nat (length demo_sources) <= 2 ^ 64 /\
  exists cs, published_contents demo_workspace demo_sources cs /\
    read_pointer demo_key (w_disk (demo_publish (fun _ => Works) demo_start).2) =
    inr (generation_digest (B3 := toy_blake3) demo_key (rows (B3 := toy_blake3) cs)).
Proof.
  split; [by vm_compute|].
  pose proof (publish_atomic (B3 := toy_blake3) (MC := demo_codec) (MCL := one_manifest_laws _) 7 (fun _ => Works) demo_workspace
    demo_key demo_sources AutoMode demo_start ltac:(by vm_compute)) as H.
  fold (demo_publish (fun _ => Works) demo_start) in H.
  assert ((demo_publish (fun _ => Works) demo_start).1 = inr (mkPersistStats 1 1 6)) as E by (vm_compute; reflexivity).
  destruct (demo_publish (fun _ => Works) demo_start) as [r w']. destruct H as (_ & _ & H). exact (H _ E).
Defined.

Definition demo_disk_published : Staged := w_disk (demo_publish (fun _ => Works) demo_start).2.

Definition demo_files : Dir File := default ∅ (files demo_key demo_generation demo_disk_published).
Definition demo_manifest : StagedManifest := mkManifest 1 demo_key demo_generation (rows (B3 := toy_blake3) demo_contents).
Lemma staged_answer_authentic_witness :
  demo_served demo_disk_published = Some demo_contents /\
    (demo_contents = demo_contents \/
     blake3_collision (B3 := toy_blake3) (generation_preimage demo_key (m_outputs demo_manifest)) (generation_preimage demo_key (rows (B3 := toy_blake3) demo_contents)) \/
     exists i c p, demo_contents !! i = Some c /\ demo_contents !! i = Some p /\ blake3_collision (B3 := toy_blake3) c p).
Proof.
  split; [vm_compute; reflexivity|].
  apply (staged_answer_authentic (B3 := toy_blake3) (MC := demo_codec) demo_key [6; 4] demo_disk_published demo_generation
    demo_contents demo_contents demo_files demo_manifest); vm_compute; (reflexivity || discriminate).
Defined.

Lemma staged_serves_published_witness :
  let r := demo_run (fun _ => Works) in
  let ops := [Publish r demo_key demo_sources AutoMode; PointerBecomes demo_key None;
              Publish (demo_run (fun k => if (k =? 60)%nat then Dies (mkJunk None (fun _ => false)) else Works)) demo_key demo_sources AutoMode;
              CleanUp r; Publish r demo_key demo_sources AutoMode; CleanUp r] in
  demo_served (w_disk (run_ops (B3 := toy_blake3) (MC := demo_codec) ops demo_start)) = Some demo_contents /\
  Exists (fun op => op_publishes op demo_key demo_contents) ops.
Proof.
  intros r ops. assert (demo_served (w_disk (run_ops (B3 := toy_blake3) (MC := demo_codec) ops demo_start)) = Some demo_contents) as E
    by (vm_compute; reflexivity).
  split; [exact E|].
  refine (staged_serves_published (B3 := toy_blake3) (MC := demo_codec) (MCL := one_manifest_laws _) ops demo_start demo_key [6; 4] demo_contents _ _ E).
  - reflexivity.
  - repeat constructor; by vm_compute.
Defined.

Lemma keeps_refl {A} (P : A -> A -> Prop) (d : Dir A) : (forall x, P x x) -> keeps P d d.
Proof. intros H n x Hn. exists x. unfold entry_at. by rewrite Hn. Qed.
Lemma power_loss_refl d : power_loss d d.
Proof.
  apply keeps_refl. intros [f|c]; [by exists f|]. exists c. split; [done|]. apply keeps_refl.
  intros [f|fs]; [by exists f|]. exists fs. split; [done|]. by apply keeps_refl.
Qed.
Lemma published_survives_witness :
  exists stats w', demo_publish (fun _ => Works) demo_start = (inr stats, w') /\ power_loss (w_disk w') (w_disk w') /\
    demo_served (w_disk w') = Some demo_contents.
Proof.
  destruct (demo_publish (fun _ => Works) demo_start) as [[e|stats] w'] eqn:E; [by vm_compute in E|].
  exists stats, w'. split; [reflexivity|]. split; [apply power_loss_refl|].
  apply (published_survives (B3 := toy_blake3) (MC := demo_codec) (MCL := one_manifest_laws _) (demo_run (fun _ => Works)) demo_key demo_sources
    AutoMode demo_contents demo_start stats w').
  - by vm_compute.
  - vm_compute. reflexivity.
  - vm_compute. reflexivity.
  - exact E.
  - apply power_loss_refl.
Defined.

