(* ===== verification/StagedDamage.v ===== *)
(** * Damaged generations of the staged store ([persist/staged_store.rs])

    A publication whose accesses work ends in success; and what success means
    when the directory of the generation is there already, but damaged. *)

From stdpp Require Import list strings gmap.
From Stdlib Require Import Lia.
From S2P Require Import Prelude Path RustStr Hash Depfile Detect DiskMaintenance StagedStore StagedPublish.

#[local] Open Scope Z_scope.

(** ** Computations that return *)

Definition goes {A} (m : IO A) (w : World) (Q : A -> World -> Prop) : Prop :=
  exists a w', m w = (inr a, w') /\ Q a w'.

Abbreviation working := (fun _ : nat => Works).

Lemma goes_ret {A} (a : A) w (Q : A -> World -> Prop) : Q a w -> goes (mret a) w Q.
Proof. intros H. by exists a, w. Qed.
Lemma goes_bind {A B} (m : IO A) (k : A -> IO B) w Q : goes m w (fun a w' => goes (k a) w' Q) -> goes (m ≫= k) w Q.
Proof. intros (a & w1 & Hm & b & w2 & Hk & HQ). exists b, w2. by rewrite (se_bind_inr _ _ _ _ _ Hm). Qed.
Lemma goes_mono {A} (m : IO A) w (P Q : A -> World -> Prop) :
  goes m w P -> (forall a w', m w = (inr a, w') -> P a w' -> Q a w') -> goes m w Q.
Proof. intros (a & w1 & Hm & HP) H. exists a, w1. eauto. Qed.
Lemma goes_publish_error {A} reason (m : IO A) w Q : goes m w Q -> goes (publish_error reason m) w Q.
Proof. intros (a & w1 & Hm & HP). exists a, w1. unfold publish_error. by rewrite Hm. Qed.
Lemma goes_cleanup {A} (m : IO A) c w Q : goes m w Q -> goes (or_cleanup m c) w Q.
Proof. intros (a & w1 & Hm & HP). exists a, w1. unfold or_cleanup. by rewrite Hm. Qed.
Lemma goes_attempt {A} (m : IO A) w (Q : option A -> World -> Prop) : goes m w (fun a => Q (Some a)) -> goes (attempt m) w Q.
Proof. intros (a & w1 & Hm & HP). exists (Some a), w1. unfold attempt. by rewrite Hm. Qed.
Lemma goes_step effect torn w (Q : unit -> World -> Prop) :
  (exists d, effect (w_disk w) = Some d /\ Q tt (set_disk d w)) -> goes (step working effect torn) w Q.
Proof. intros (d & He & HQ). exists tt, (set_disk d w). unfold step. by rewrite He. Qed.
Lemma goes_touch w (Q : unit -> World -> Prop) : Q tt (set_disk (w_disk w) w) -> goes (touch_disk working) w Q.
Proof. intros H. apply goes_step. by exists (w_disk w). Qed.
Lemma goes_read {A} (f : Staged -> option A) w (Q : A -> World -> Prop) :
  (exists a, f (w_disk w) = Some a /\ Q a (set_disk (w_disk w) w)) -> goes (read_disk working f) w Q.
Proof.
  intros (a & Hf & HQ). unfold read_disk. apply goes_bind, goes_touch. exists a, (set_disk (w_disk w) w).
  unfold se_get, mbind, SE_bind. simpl. by rewrite Hf.
Qed.
Lemma goes_attempt_step effect torn w (Q : option unit -> World -> Prop) :
  (forall d, effect (w_disk w) = Some d -> Q (Some tt) (set_disk d w)) ->
  (effect (w_disk w) = None -> Q None (set_disk (w_disk w) w)) -> goes (attempt (step working effect torn)) w Q.
Proof.
  intros H1 H2. unfold goes, attempt, step. destruct (effect (w_disk w)) as [d|]; simpl.
  - exists (Some tt), (set_disk d w). by auto.
  - exists None, (set_disk (w_disk w) w). by auto.
Qed.
Lemma goes_attempt_read {A} (f : Staged -> option A) w (Q : option A -> World -> Prop) :
  Q (f (w_disk w)) (set_disk (w_disk w) w) -> goes (attempt (read_disk working f)) w Q.
Proof.
  intros H. exists (f (w_disk w)), (set_disk (w_disk w) w). split; [|done]. unfold attempt, read_disk, touch_disk, step, se_get, mbind, SE_bind.
  simpl. by destruct (f (w_disk w)).
Qed.

(** ** Staging *)

Section Staging.
Context {B3 : Blake3} {MC : ManifestCodec} (pid : Z) (workspace : bytes -> option bytes) (key t : bytes).

Lemma on_generation_some f d fs fs' :
  files key t d = Some fs -> f fs = Some fs' ->
  exists d', on_generation key t f d = Some d' /\ files key t d' = Some fs'.
Proof.
  intros Hfs Hf. destruct (on_generation key t f d) as [d'|] eqn:E.
  - exists d'. split; [done|]. apply on_generation_inv in E as (fs0 & fs1 & H0 & H1 & H2 & _). congruence.
  - exfalso. unfold on_generation, on_key, files in *. destruct (children key d) as [c|]; [|done]. simpl in *.
    destruct (files_in t c) as [fs0|]; [|done]. simplify_eq. simpl in E. rewrite Hf in E. done.
Qed.

(** The generation in work: its files, none of them an unfinished sidecar. *)
Definition sidecar_temporary (n : bytes) : bool := starts_with ".." n.
Definition in_work (counter : Z) (w : World) : Prop :=
  w_counter w = counter /\
  exists fs, files key t (w_disk w) = Some fs /\ forall n, sidecar_temporary n = true -> entry_at n fs = None.

Lemma sidecar_tmp_is n c : sidecar_temporary (sidecar_tmp pid n c) = true.
Proof. reflexivity. Qed.
Lemma sidecar_tmp_not_digest n c m : sidecar_tmp pid n c <> digest_path m.
Proof. discriminate. Qed.

Lemma write_in_goes counter n b w :
  in_work counter w -> sidecar_temporary n = false -> goes (write_in working key t n b) w (fun _ => in_work counter).
Proof.
  intros (Hc & fs & Hfs & Hno) Hn. apply goes_step.
  destruct (on_generation_some (fun fs => Some (put n (mkFile b false) fs)) (w_disk w) fs _ Hfs eq_refl) as (d & Hd & Hfs').
  exists d. split; [done|]. split; [done|]. eexists. split; [done|]. intros m Hm. rewrite get_put_ne; [by apply Hno|]. congruence.
Qed.

Lemma sidecar_goes counter digest n w :
  in_work counter w -> goes (write_digest_sidecar pid working digest key t n) w (fun _ => in_work counter).
Proof.
  intros (Hc & fs & Hfs & Hno). unfold write_digest_sidecar. apply goes_bind.
  eexists _, _. split; [reflexivity|]. cbv beta. rewrite Hfs. cbn [default free_counter]. rewrite Hno by apply sidecar_tmp_is.
  set (tmp := sidecar_tmp pid n (w_sidecars w)). apply goes_bind, goes_step. cbn [w_disk].
  destruct (on_generation_some (fun fs => if entry_at tmp fs is Some _ then None else Some (put tmp (mkFile "" false) fs)) (w_disk w) fs
    (put tmp (mkFile "" false) fs) Hfs) as (d1 & Hd1 & Hfs1); [by rewrite Hno|].
  exists d1. split; [done|]. apply goes_cleanup, goes_bind, goes_step. cbn [w_disk set_disk].
  destruct (on_generation_some (fun fs => Some (put tmp (mkFile digest false) fs)) d1 _ _ Hfs1 eq_refl) as (d2 & Hd2 & Hfs2).
  exists d2. split; [done|]. apply goes_step. cbn [w_disk set_disk].
  match type of Hfs2 with _ = Some ?f => set (fs2 := f) in Hfs2 end.
  assert (exists fs3, move tmp (digest_path n) fs2 = Some fs3 /\ forall m, sidecar_temporary m = true -> entry_at m fs3 = None)
    as (fs3 & Hmove & Hno3).
  { destruct (put_is_some tmp (mkFile digest false) (put tmp (mkFile "" false) fs)) as [e He]. fold fs2 in He.
    unfold move. rewrite He. eexists. split; [reflexivity|]. intros m Hm. unfold entry_at.
    rewrite lookup_insert_ne by (intros <-; done). destruct (decide (tmp = m)) as [<-|Hne]; [by rewrite lookup_delete_eq|].
    rewrite lookup_delete_ne by done. unfold fs2, put. rewrite !lookup_insert_ne by done. by apply Hno. }
  destruct (on_generation_some (move tmp (digest_path n)) d2 _ _ Hfs2 Hmove) as (d3 & Hd3 & Hfs3).
  exists d3. split; [done|]. split; [done|]. by exists fs3.
Qed.

Lemma write_to_goes counter source b n mode w :
  in_work counter w -> sidecar_temporary n = false -> source_content workspace source = Some b ->
  goes (write_to working workspace source key t n mode) w (fun _ => in_work counter).
Proof.
  intros Hw Hn Hs. destruct source as [p|b']; cbn [write_to source_content] in *.
  - unfold copy_output_with. apply goes_bind, goes_touch. rewrite Hs. apply goes_bind, goes_touch. apply goes_bind, goes_cleanup.
    enough (forall w, in_work counter w -> goes (copy_independent working key t n b mode) w (fun _ => in_work counter)) as Hcopy.
    { eapply goes_mono; [by apply Hcopy|]. intros r w' _ H. apply goes_bind, goes_touch, goes_bind, goes_touch, goes_ret. exact H. }
    { clear w Hw. intros w Hw. unfold copy_independent. apply goes_bind.
      assert (goes (attempt (write_in working key t n b)) w (fun o w' => is_Some o /\ in_work counter w')) as Hr.
      { apply goes_attempt. eapply goes_mono; [by apply write_in_goes|]. intros [] w' _ H. split; [by eexists|done]. }
      destruct mode; try (eapply goes_mono; [exact Hr|]; intros o w' _ [[u ->] H]; by apply goes_ret).
      apply goes_ret. apply goes_bind. unfold remove_in. apply goes_attempt_step.
      - intros d (fs & fs' & Hfs & Hf & Hfs' & _)%on_generation_inv. apply goes_bind.
        eapply goes_mono; [apply (write_in_goes counter); [|done]|by intros; apply goes_ret].
        destruct Hw as (Hc & fs0 & Hfs0 & Hno). assert (fs0 = fs) as -> by congruence. split; [done|]. exists fs'. split; [done|]. intros m Hm.
        destruct (entry_at n fs); [|done]. injection Hf as <-. rewrite get_delete_ne; [by apply Hno|]. congruence.
      - intros _. apply goes_bind. eapply goes_mono; [by apply (write_in_goes counter)|by intros; apply goes_ret]. }
  - apply goes_bind, goes_touch, goes_bind. eapply goes_mono; [by apply (write_in_goes counter)|by intros; apply goes_ret].
Qed.

Lemma stage_output_goes counter mode index source b w :
  in_work counter w -> source_content workspace source = Some b ->
  goes (stage_output pid working workspace key t mode index source) w (fun _ => in_work counter).
Proof.
  intros Hw Hs. unfold stage_output. cbn zeta. apply goes_bind, goes_publish_error.
  eapply goes_mono; [by apply (write_to_goes counter source b)|]. intros r w1 H1 Hw1.
  apply write_to_ok in H1 as (b' & _ & fs & Hfs & Hf).
  apply goes_bind, goes_publish_error, goes_step.
  destruct (on_generation_some (fun fs => f ← entry_at (output_path index) fs; Some (put (output_path index) (mkFile (f_data f) true) fs))
    (w_disk w1) fs (put (output_path index) (mkFile b' true) fs) Hfs) as (d2 & Hd2 & Hfs2); [by rewrite Hf|].
  exists d2. split; [done|]. apply goes_bind, goes_publish_error, goes_touch. apply goes_bind, goes_publish_error, goes_read.
  exists b'. cbn [w_disk set_disk]. rewrite Hfs2. simpl. rewrite get_put_eq. split; [done|]. unfold digest_file.
  apply goes_bind, goes_publish_error. eapply goes_mono; [apply (sidecar_goes counter)|by intros; apply goes_ret].
  destruct Hw1 as (Hc & fs' & Hfs' & Hno'). split; [done|]. exists (put (output_path index) (mkFile b' true) fs). split; [done|].
  intros m Hm. rewrite get_put_ne by (intros ->; done). simplify_eq. by apply Hno'.
Qed.

Lemma stage_outputs_goes counter mode sources cs index outputs stats w :
  in_work counter w -> mapM (source_content workspace) sources = Some cs ->
  goes (stage_outputs pid working workspace key t mode index sources outputs stats) w (fun _ => in_work counter).
Proof.
  revert cs index outputs stats w. induction sources as [|s sources IH]; intros cs index outputs stats w Hw Hm; cbn [stage_outputs].
  - by apply goes_ret.
  - cbn [mapM] in Hm. destruct (source_content workspace s) as [b|] eqn:Hb; [|done]. simpl in Hm.
    destruct (mapM (source_content workspace) sources) as [cs'|]; [|done]. apply goes_bind.
    eapply goes_mono; [by eapply stage_output_goes|]. intros [o r] w' _ Hw'. by eapply IH.
Qed.
End Staging.

(** ** The publication *)

Section Succeeds.
Context {B3 : Blake3} {MC : ManifestCodec} {MCL : ManifestCodecLaws}.
Context (pid : Z) (workspace : bytes -> option bytes) (key : bytes) (Hkey : staged_key_supported key = true).
Abbreviation gen_of cs := (generation_digest key (rows cs)).

(** The pointer's temporary file is not the store's lock. *)
Lemma pointer_temporary_not_lock nonce : temporary_path (pointer_path key) pid nonce "tmp" <> STORE_LOCK.
Proof.
  apply supported_hex in Hkey as [Hh Hne]. destruct key as [|c k]; [done|]. simpl in Hh. apply andb_prop in Hh as [Hc _].
  intros E. unfold temporary_path, pointer_path, STORE_LOCK in E. simpl in E. injection E as -> _. by vm_compute in Hc.
Qed.
Lemma pointer_temporary_not_key nonce : temporary_path (pointer_path key) pid nonce "tmp" <> key.
Proof. intros E. pose proof (key_not_dotted key Hkey) as H. rewrite <- E in H. done. Qed.

Lemma settle_goes cs d0 w :
  near key d0 (w_disk w) -> ~ conflicting key cs d0 ->
  goes (settle_previous working key (gen_of cs)) w (fun _ w' => w_disk w' = w_disk w /\ w_counter w' = w_counter w).
Proof.
  intros Hnear Hno. unfold settle_previous. apply goes_bind, goes_attempt_read.
  destruct (read_pointer key (w_disk w)) as [e|value] eqn:Hp; [by apply goes_ret|]. cbn zeta.
  destruct (bool_decide _ || bool_decide _) eqn:Hb; [by apply goes_ret|].
  apply orb_false_elim in Hb as [_ Hb%bool_decide_eq_false].
  apply goes_bind, goes_attempt_read. cbn [w_disk set_disk].
  destruct (validate_staged_generation key (str_trim value) (w_disk w)) as [e|u] eqn:Hv; [by apply goes_ret|].
  exfalso. apply Hno. apply validate_intact in Hv as [Hd Hi]. exists value.
  rewrite <- (near_pointer key d0 _ Hnear). split_and!; [done|done|]. eapply intact_child; [|exact Hi].
  by apply Hnear.
Qed.

Lemma on_key_some f d c c' :
  children key d = Some c -> f c = Some c' -> exists d', on_key key f d = Some d' /\ children key d' = Some c' /\ d' = put key (KeyRoot c') d.
Proof.
  intros Hc Hf. exists (put key (KeyRoot c') d). unfold on_key, children. rewrite get_put_eq. split_and!; try done.
  unfold children in Hc. destruct (entry_at key d) as [[|]|]; try done. simplify_eq. simpl. by rewrite Hf.
Qed.

Lemma atomic_write_goes name b w :
  entry_at (temporary_path name pid (w_counter w) "tmp") (w_disk w) = None -> goes (atomic_write pid working name b) w (fun _ _ => True).
Proof.
  intros Hfree. unfold atomic_write. apply goes_bind. eexists _, _. split; [reflexivity|]. cbv beta zeta.
  set (tmp := temporary_path name pid (w_counter w) "tmp") in *. apply goes_cleanup.
  apply goes_bind, goes_step. cbn [w_disk]. rewrite Hfree. eexists. split; [reflexivity|].
  apply goes_bind, goes_step. eexists. split; [reflexivity|]. apply goes_bind, goes_step. eexists. split; [reflexivity|].
  apply goes_step. cbn [w_disk set_disk]. unfold put_top.
  match goal with |- context [move tmp name (put tmp ?f ?d)] => destruct (put_is_some tmp f d) as [e He] end.
  unfold move. rewrite He. by eexists.
Qed.

Lemma commit_goes g renamed w :
  entry_at (temporary_path (pointer_path key) pid (w_counter w) "tmp") (w_disk w) = None ->
  goes (commit_pointer pid working key g renamed) w (fun _ _ => True).
Proof.
  intros Hfree. unfold commit_pointer. apply goes_bind, goes_publish_error, goes_cleanup.
  eapply goes_mono; [by apply atomic_write_goes|]. intros _ w' _ _. apply goes_publish_error, goes_cleanup, goes_step. by eexists.
Qed.

(** A temporary file at the top, outside of the key's directory. *)
Definition top_free (n : bytes) (w : World) : Prop := entry_at n (w_disk w) = None.

Lemma rename_goes t g w fs n :
  files key t (w_disk w) = Some fs -> g <> t -> n <> key -> top_free n w ->
  goes (rename_generation working key t g) w
    (fun _ w' => top_free n w' /\ w_counter w' = w_counter w /\ is_Some (children key (w_disk w'))).
Proof.
  intros Hfs Hgt Hn Hfree. unfold files in Hfs. destruct (children key (w_disk w)) as [c|] eqn:Hc; [|done]. simpl in Hfs.
  assert (forall f d', on_key key f (w_disk w) = Some d' -> entry_at n d' = None /\ is_Some (children key d')) as Hafter.
  { intros f d' (c0 & c1 & _ & _ & H1 & ->)%on_key_inv. rewrite get_put_ne by done. split; [done|]. by rewrite H1. }
  unfold rename_generation. apply goes_bind, goes_attempt_step.
  - intros d Hd. destruct (Hafter _ _ Hd). by apply goes_ret.
  - intros Hnone. apply goes_bind, goes_attempt_read. cbn [w_disk set_disk]. rewrite Hc. simpl.
    destruct (entry_at g c) as [x|] eqn:Hg.
    + apply goes_bind. unfold remove_tree. apply goes_attempt_step; cbv beta; [|by intros [=]]. intros d. cbn [w_disk set_disk].
      destruct (on_key key (fun c => Some (delete t c)) (w_disk w)) as [d'|] eqn:Hd.
      * intros [= <-]. destruct (Hafter _ _ Hd). by apply goes_ret.
      * intros [= <-]. apply goes_ret. split_and!; [done|done|]. cbn [w_disk set_disk]. rewrite Hc. by eexists.
    + exfalso. unfold files_in, entry_at in Hfs. destruct (c !! t) as [e|] eqn:Ht; [|done].
      edestruct (on_key_some (fun c => if entry_at g c is Some _ then None else move t g c)) as (d' & Hd' & _); [exact Hc| |].
      { rewrite Hg. unfold move. rewrite Ht. reflexivity. }
      rewrite Hd' in Hnone. done.
Qed.

Lemma install_goes t g b invalid counter w :
  in_work key t counter w -> g <> t ->
  top_free (temporary_path (pointer_path key) pid counter "tmp") w ->
  goes (install_generation pid working key t g b invalid) w (fun _ _ => True).
Proof.
  intros (Hcounter & fs & Hfs & _) Hgt Hfree. pose proof (pointer_temporary_not_key counter) as Hnk.
  set (tmp := temporary_path (pointer_path key) pid counter "tmp") in *.
  assert (forall f d d', on_generation key t f d = Some d' -> entry_at tmp d = None -> entry_at tmp d' = None) as Hkeep.
  { intros f d d' (fs0 & fs1 & _ & _ & _ & Hw & _)%on_generation_inv H. by rewrite Hw. }
  unfold install_generation, write_manifest. apply goes_bind.
  apply goes_bind, goes_publish_error, goes_step.
  destruct (on_generation_some key t (fun fs => Some (put manifest_path (mkFile b false) fs)) (w_disk w) fs _ Hfs eq_refl) as (d1 & Hd1 & Hfs1).
  exists d1. split; [done|]. apply Hkeep in Hd1; [|done].
  apply goes_bind, goes_publish_error, goes_step. cbn [w_disk set_disk].
  edestruct (on_generation_some key t (fun fs => f ← entry_at manifest_path fs; Some (put manifest_path (mkFile (f_data f) true) fs)) d1)
    as (d2 & Hd2 & Hfs2); [exact Hfs1|by rewrite get_put_eq|].
  exists d2. split; [done|]. apply Hkeep in Hd2; [|done].
  apply goes_publish_error, goes_step. cbn [w_disk set_disk].
  destruct (on_generation_some key t (fun fs => Some (sync_entries fs)) d2 _ _ Hfs2 eq_refl) as (d3 & Hd3 & Hfs3).
  exists d3. split; [done|]. apply Hkeep in Hd3; [|done].
  apply goes_bind. eapply goes_mono; [eapply (rename_goes t g _ _ tmp); [exact Hfs3|done..]|]. intros renamed w4 _ (Hfree4 & Hc4 & [c Hch]).
  apply goes_bind, goes_publish_error, goes_step. edestruct (on_key_some (fun c => Some (sync_entries c))) as (d5 & Hd5 & _ & Hput); [exact Hch|reflexivity|].
  exists d5. split; [done|]. apply goes_bind. eapply goes_mono; [apply commit_goes|].
  - cbn [w_disk w_counter set_disk]. rewrite Hc4. cbn [w_counter set_disk]. rewrite Hcounter. fold tmp. rewrite Hput, get_put_ne by done. exact Hfree4.
  - intros _ w6 _ _. destruct invalid as [previous|]; [|by apply goes_ret]. apply goes_bind. unfold remove_tree.
    apply goes_attempt_step; cbv beta; [|by intros [=]]. intros d _. by apply goes_ret.
Qed.

Lemma publish_generation_goes cs t mode sources d0 counter b w :
  Z.of_nat (length sources) <= 2 ^ 64 -> dotted t = true ->
  in_work key t counter w -> near key d0 (w_disk w) -> mapM (source_content workspace) sources = Some cs ->
  serialize_manifest (mkManifest STAGED_MANIFEST_VERSION key (gen_of cs) (rows cs)) = Some b -> ~ conflicting key cs d0 ->
  top_free (temporary_path (pointer_path key) pid counter "tmp") w ->
  goes (publish_generation pid working workspace key t mode sources) w (fun _ _ => True).
Proof.
  intros Hlen Ht Hw Hnear Hm Hser Hno Hfree. unfold publish_generation. apply goes_bind.
  eapply goes_mono; [by eapply stage_outputs_goes|]. intros [outs stats] w1 Hrun Hw1.
  pose proof (stage_ends pid working workspace key Hkey t Ht mode sources d0 Hlen w Hnear) as He. rewrite Hrun in He.
  destruct He as (cs' & (Hnear1 & _) & Hm' & Houts). simpl in Houts. rewrite Hm in Hm'. injection Hm' as <-. subst outs.
  pose proof (stage_outputs_within pid working workspace key t mode 0 sources [] (mkPersistStats 0 0 0) w) as Hin.
  unfold result_disk in Hin. rewrite Hrun in Hin. simpl in Hin. apply goes_bind. unfold publish_outputs.
  rewrite generation_digest_valid. apply goes_bind.
  eapply goes_mono; [by apply (settle_goes cs d0)|]. intros invalid w2 _ [Hd2 Hc2]. rewrite Hser.
  eapply goes_mono; [apply (install_goes t (gen_of cs) b invalid counter)|by intros; apply goes_ret].
  - unfold in_work. rewrite Hd2, Hc2. exact Hw1.
  - intros E. pose proof (generation_not_dotted key (rows cs)) as H. rewrite E in H. congruence.
  - unfold top_free. rewrite Hd2. destruct Hin as [Hin _]. rewrite Hin; [exact Hfree|]. apply pointer_temporary_not_key.
Qed.

(** The temporary names the publication takes are free. *)
Definition temporaries_free (w : World) : Prop :=
  child key (temporary_generation pid (w_counter w)) (w_disk w) = None /\
  entry_at (temporary_path (pointer_path key) pid (wrap64 (w_counter w + 1)) "tmp") (w_disk w) = None.

Lemma open_goes t tmp c w :
  children key (w_disk w) = Some c -> entry_at t c = None -> t <> PUBLISH_LOCK -> tmp <> STORE_LOCK -> tmp <> key -> top_free tmp w ->
  goes (open_staged_key working key) w
    (fun _ w1 => w_counter w1 = w_counter w /\ top_free tmp w1 /\ exists c1, children key (w_disk w1) = Some c1 /\ entry_at t c1 = None).
Proof.
  intros Hc Ht Hlock Htop Hkey' Hfree. unfold open_staged_key, open_store_lock. apply goes_bind, goes_step. eexists. split; [reflexivity|].
  set (d1 := if entry_at STORE_LOCK (w_disk w) is Some _ then _ else _).
  assert (entry_at tmp d1 = None /\ entry_at key d1 = Some (KeyRoot c)) as [Hf1 Hk1].
  { unfold children in Hc. destruct (entry_at key (w_disk w)) as [[|c0]|] eqn:E; try done. injection Hc as ->.
    unfold d1, put_top. destruct (entry_at STORE_LOCK (w_disk w)) eqn:El; [done|]. rewrite !get_put_ne by congruence. done. }
  clearbody d1. apply goes_bind, goes_touch, goes_bind, goes_step. cbn [w_disk set_disk]. rewrite Hk1. eexists. split; [reflexivity|].
  apply goes_bind, goes_step. cbn [w_disk set_disk].
  edestruct (on_key_some (fun c => Some (if entry_at PUBLISH_LOCK c is Some _ then c else put PUBLISH_LOCK (ChildFile (mkFile "" false)) c)) d1 c)
    as (d2 & Hd2 & Hc2 & Hput); [unfold children; by rewrite Hk1|reflexivity|].
  exists d2. split; [done|]. apply goes_touch. split; [done|]. split.
  - unfold top_free. cbn [w_disk set_disk]. by rewrite Hput, get_put_ne.
  - eexists. split; [exact Hc2|]. destruct (entry_at PUBLISH_LOCK c); [done|]. by rewrite get_put_ne.
Qed.

Lemma create_goes t tmp c w :
  children key (w_disk w) = Some c -> entry_at t c = None -> tmp <> key -> top_free tmp w ->
  goes (create_generation working key t) w (fun _ w1 => in_work key t (w_counter w) w1 /\ top_free tmp w1).
Proof.
  intros Hc Ht Hkey' Hfree. unfold create_generation. apply goes_step.
  edestruct (on_key_some (fun c => if entry_at t c is Some _ then None else Some (put t (Generation ∅) c)) (w_disk w) c)
    as (d & Hd & Hcd & Hput); [done|by rewrite Ht|].
  exists d. split; [done|]. split.
  - split; [done|]. exists ∅. unfold files. cbn [w_disk set_disk]. rewrite Hcd. simpl. unfold files_in. rewrite get_put_eq.
    split; [done|]. intros n _. unfold entry_at. by rewrite lookup_empty.
  - unfold top_free. cbn [w_disk set_disk]. by rewrite Hput, get_put_ne.
Qed.

Lemma persist_goes cs sources mode b w c :
  Z.of_nat (length sources) <= 2 ^ 64 -> sources <> [] -> mapM (source_content workspace) sources = Some cs ->
  children key (w_disk w) = Some c -> temporaries_free w ->
  serialize_manifest (mkManifest STAGED_MANIFEST_VERSION key (gen_of cs) (rows cs)) = Some b -> ~ conflicting key cs (w_disk w) ->
  goes (persist_staged_generation pid working workspace key sources mode) w (fun _ _ => True).
Proof.
  intros Hlen Hne Hm Hc [Hft Hfp] Hser Hno. unfold persist_staged_generation, validate_key. rewrite Hkey.
  destruct sources as [|s sources]; [done|]. set (srcs := s :: sources) in *. clearbody srcs. clear Hne s sources.
  unfold child in Hft. rewrite Hc in Hft. simpl in Hft.
  set (t := temporary_generation pid (w_counter w)) in *. set (tmp := temporary_path (pointer_path key) pid (wrap64 (w_counter w + 1)) "tmp") in *.
  assert (tmp <> key) as Hnk by apply pointer_temporary_not_key. assert (tmp <> STORE_LOCK) as Hnl by apply pointer_temporary_not_lock.
  apply goes_bind, goes_publish_error. eapply goes_mono; [by apply (open_goes t tmp c)|]. intros u w1 Hrun (Hc1 & Hfp1 & c1 & Hch1 & Ht1).
  pose proof (setup_near working key Hkey w) as Hnear. unfold result_disk, publish_error in Hnear. rewrite Hrun in Hnear. simpl in Hnear.
  apply goes_bind. eexists _, _. split; [reflexivity|]. cbv beta zeta. rewrite Hc1. fold t. set (w2 := mkStoreWorld _ _ _ _).
  apply goes_bind, goes_publish_error. eapply goes_mono; [by apply (create_goes t tmp c1 w2)|]. intros u' w3 Hrun2 (Hw3 & Hfp3).
  pose proof (temporary_near working key Hkey t eq_refl w2) as Hnear2. unfold result_disk, publish_error in Hnear2. rewrite Hrun2 in Hnear2. simpl in Hnear2.
  apply goes_cleanup. eapply (publish_generation_goes cs t mode srcs (w_disk w)); try done. by etrans.
Qed.
End Succeeds.

(** ** Damage *)

(** C40: A damaged generation is not repaired by publishing its contents again.  When
    every access works, the names of its temporary files are free and no other
    generation is current, the publication returns success; and whatever its accesses
    do, when it returns success the directory of that name is as it was, the pointer
    names it, and requests go on being refused. *)
Theorem damaged_generation_kept {B3 : Blake3} {MC : ManifestCodec} {MCL : ManifestCodecLaws} (pid : Z) (workspace : bytes -> option bytes)
    (key : bytes) (sources : list StagedSource) (mode : MaterializationMode) (cs : list bytes) (w : World) (fs : Dir File) (sizes : list Z) (b : bytes) :
  let g := generation_digest key (rows cs) in
  staged_key_supported key = true -> sources <> [] -> Z.of_nat (length sources) <= 2 ^ 64 -> published_contents workspace sources cs ->
  serialize_manifest (mkManifest STAGED_MANIFEST_VERSION key g (rows cs)) = Some b ->
  child key g (w_disk w) = Some (Generation fs) -> serve_files key g sizes fs = None ->
  temporaries_free pid key w -> ~ conflicting key cs (w_disk w) ->
  (exists stats w', persist_staged_generation pid (fun _ => Works) workspace key sources mode w = (inr stats, w')) /\
  forall fate stats w', persist_staged_generation pid fate workspace key sources mode w = (inr stats, w') ->
    child key g (w_disk w') = Some (Generation fs) /\
    (exists f, entry_at (pointer_path key) (w_disk w') = Some (TopFile f) /\ f_data f = g) /\
    served key sizes (w_disk w') = None.
Proof.
  intros g Hkey Hne Hlen Hm Hser Hold Hbad Hfree Hno. split.
  - assert (exists c, children key (w_disk w) = Some c) as [c Hc].
    { unfold child in Hold. destruct (children key (w_disk w)) as [c|]; [by exists c|done]. }
    destruct (persist_goes pid workspace key Hkey cs sources mode b w c Hlen Hne Hm Hc Hfree Hser Hno) as (stats & w' & H & _). by exists stats, w'.
  - intros fate stats w' Hp.
    pose proof (persist_ends pid fate workspace key Hkey sources mode (w_disk w) Hlen w ltac:(reflexivity)) as He.
    rewrite Hp in He. destruct He as (cs' & Hm' & (_ & (f & Hf & Hd) & _ & Hn)). unfold published_contents in *.
    rewrite Hm in Hm'. injection Hm' as <-. fold g in Hd.
    assert (child key g (w_disk w') = Some (Generation fs)) as Hsame by (unfold g in *; destruct Hn as [[_ E]|(E & _)]; congruence).
    split_and!; [done|by exists f|].
    rewrite served_pointer by done. unfold read_pointer, read_to_string. rewrite Hf, Hd. unfold g in *.
    rewrite all_hex_utf8, str_trim_hex, generation_digest_valid by apply to_hex_is_hex. rewrite Hsame. exact Hbad.
Qed.

Definition demo_damaged : World :=
  mkStoreWorld (default ∅ (on_generation demo_key demo_generation (fun fs => Some (put "output-0" (mkFile "0bject" true) fs)) demo_disk_published)) 9 9 0.
Definition demo_damaged_files : Dir File := default ∅ (files demo_key demo_generation (w_disk demo_damaged)).

Lemma damaged_generation_kept_witness :
  exists stats w', demo_publish (fun _ => Works) demo_damaged = (inr stats, w') /\ demo_served (w_disk w') = None.
Proof.
  destruct (damaged_generation_kept (B3 := toy_blake3) (MC := demo_codec) (MCL := one_manifest_laws _) 7 demo_workspace demo_key demo_sources
    AutoMode demo_contents demo_damaged demo_damaged_files [6; 4] "manifest") as [(stats & w' & H) Hany].
  - vm_compute. reflexivity.
  - discriminate.
  - by vm_compute.
  - vm_compute. reflexivity.
  - vm_compute. reflexivity.
  - vm_compute. reflexivity.
  - vm_compute. reflexivity.
  - split; vm_compute; reflexivity.
  - intros (v & Hv & Hne & _). vm_compute in Hv. injection Hv as <-. apply Hne. vm_compute. reflexivity.
  - exists stats, w'. split; [exact H|]. exact (proj2 (proj2 (Hany _ _ _ H))).
Defined.
