(* ===== verification/LinkArgs.v ===== *)
(** * Linker, archiver and formatter command lines

    The parsers of [zccache-compiler] behind link and archive requests
    ([parse_archiver.rs], [parse_linker/]) and behind the format cache
    ([parse_rustfmt.rs]): which tool is called, whether the call may be cached,
    and what of its command line the cache key is made of.

    The option loops test one argument after the other; a branch is the list of
    its mutations ([LinkAction]) with the question whether it consumed the next
    argument, and the loop applies them.

    Two library functions are arguments: [to_uppercase], Unicode's upper case,
    of which nothing is assumed, and [is_file].  A slice of a string that leaves
    it or splits a character panics ([None]). *)

From stdpp Require Import list strings gmap.
From Stdlib Require Import Lia.
From S2P Require Import Prelude Path Hash RustStr GnuArgs Detect Invocation ResponseFile.

(** ** Data *)

Inductive ArchiverFamily := Ar | LlvmAr | MsvcLib.

Record CacheableArchive := mkArchive {
  ca_tool : NormalizedPath;
  ca_family : ArchiverFamily;
  ca_input_files : list NormalizedPath;
  ca_output_file : NormalizedPath;
  ca_cache_relevant_flags : list bytes;
  ca_original_args : list bytes;
  ca_non_deterministic : bool;
}.

Inductive ParsedArchiveInvocation :=
  | ArchiveCacheable (a : CacheableArchive)
  | ArchiveNonCacheable (reason : bytes).

Inductive LinkerFamily := Ld | Lld | MsvcLink | CompilerDriver | Dsymutil.
Inductive LinkOutputKind := OutputFile | DirectoryBundle.

Record CacheableLink := mkLink {
  cl_tool : NormalizedPath;
  cl_family : LinkerFamily;
  cl_input_files : list NormalizedPath;
  cl_output_file : NormalizedPath;
  cl_output_kind : LinkOutputKind;
  cl_secondary_outputs : list NormalizedPath;
  cl_cache_relevant_flags : list bytes;
  cl_original_args : list bytes;
  cl_non_deterministic : bool;
}.

Inductive ParsedLinkerInvocation :=
  | LinkCacheable (l : CacheableLink)
  | LinkNonCacheable (reason : bytes).

#[export] Instance ArchiverFamily_eq_dec : EqDecision ArchiverFamily.
Proof. solve_decision. Defined.
#[export] Instance LinkerFamily_eq_dec : EqDecision LinkerFamily.
Proof. solve_decision. Defined.

(** ** Names of tools *)

Definition detect_archiver (tool : bytes) : option ArchiverFamily :=
  let name := default tool (file_stem tool) in
  if eq_ignore_ascii_case name "lib" then Some MsvcLib
  else if starts_with "llvm-ar" name || starts_with "llvm_ar" name then Some LlvmAr
  else if bool_decide (name = "ar") || ends_with "-ar" name then Some Ar
  else None.

Definition is_archiver (tool : bytes) : bool := bool_decide (is_Some (detect_archiver tool)).

(** [detect.rs]'s own [file_stem]: up to the last dot, unless that is the first
    character. *)
Definition link_stem (filename : bytes) : bytes := (split_file_at_dot filename).1.

Definition detect_linker (tool : bytes) : option LinkerFamily :=
  let full_name := last_segment tool in
  let stem := link_stem full_name in
  if bool_decide (stem = "dsymutil") || starts_with "dsymutil-" stem then Some Dsymutil
  else if eq_ignore_ascii_case stem "link" then Some MsvcLink
  else if bool_decide (full_name = "ld.lld") || starts_with "ld.lld-" full_name ||
          bool_decide (stem = "lld") || starts_with "lld-" stem || bool_decide (stem = "wasm-ld") then Some Lld
  else if bool_decide (full_name = "ld.bfd") || bool_decide (full_name = "ld.gold") ||
          bool_decide (stem = "ld") || ends_with "-ld" stem then Some Ld
  else None.

Definition is_compiler_driver (tool : bytes) : bool :=
  let stem := link_stem (last_segment tool) in
  bool_decide (stem ∈ ["cc"; "c++"; "emcc"; "em++"]) || bool_decide (stem = "gcc") || bool_decide (stem = "g++") ||
  ends_with "-gcc" stem || ends_with "-g++" stem || str_contains "clang" stem.

Definition is_linker (tool : bytes) : bool := bool_decide (is_Some (detect_linker tool)).

(** [windows(2)] with [-x] first and a language that is compiled second. *)
Fixpoint names_compiled_language (args : list bytes) : bool :=
  match args with
  | [] => false
  | a :: rest =>
      match rest with
      | lang :: _ =>
          bool_decide (a = "-x") &&
          match source_mode_from_language lang with Some mode => implies_compilation mode | None => false end
      | [] => false
      end || names_compiled_language rest
  end.

Definition is_rsp_arg (a : bytes) : bool := starts_with "@" a && (1 <? String.length a)%nat.

(** [None] for the current directory: the process has none. *)
Definition link_effective_args (fs : FileSystem) (current_dir : option bytes) (args : list bytes) : list bytes :=
  if existsb is_rsp_arg args then
    let expanded := match current_dir with
                    | Some cwd => match expand_response_files_in fs args cwd with inr l => l | inl _ => [] end
                    | None => []
                    end in
    match expanded with [] => args | _ => expanded end
  else args.

Definition is_link_invocation (fs : FileSystem) (current_dir : option bytes) (tool : bytes) (args : list bytes) : bool :=
  if bool_decide (is_Some (detect_linker tool)) then true
  else if negb (is_compiler_driver tool) then false
  else
    let effective_args := link_effective_args fs current_dir args in
    if existsb (fun a => bool_decide (a ∈ ["-c"; "-E"; "-S"; "--precompile"])) effective_args then false
    else negb (names_compiled_language effective_args).

(** ** Archives *)

(** The long options in front of the operation; [--plugin] and [--target] take
    the next argument unless it starts with a dash. *)
Fixpoint ar_long_options (args long_flags : list bytes) : list bytes * list bytes :=
  match args with
  | arg :: rest =>
      if starts_with "--" arg then
        let long_flags := long_flags ++ [arg] in
        match rest with
        | v :: rest' =>
            if negb (starts_with "-" v) && bool_decide (arg ∈ ["--plugin"; "--target"])
            then ar_long_options rest' (long_flags ++ [v])
            else ar_long_options rest long_flags
        | [] => (long_flags, [])
        end
      else (long_flags, args)
  | [] => (long_flags, [])
  end.

Definition ar_op_str (op : bytes) : bytes := default op (strip_prefix "-" op).
Definition op_has (c : bytes) (op_str : bytes) : bool := str_contains c op_str.

(** The first operation the parser refuses. *)
Definition ar_refused (op_str : bytes) : option bytes :=
  if op_has "x" op_str then Some "extract operation (x) not cacheable"
  else if op_has "t" op_str then Some "list operation (t) not cacheable"
  else if op_has "d" op_str then Some "delete operation (d) not cacheable"
  else if op_has "p" op_str then Some "print operation (p) not cacheable"
  else if negb (op_has "r" op_str) && negb (op_has "q" op_str) then Some ("unsupported operation: " +:+ op_str)
  else None.

(** How many arguments behind the operation come before the archive's name. *)
Definition ar_skipped (op_str : bytes) : nat :=
  (if op_has "a" op_str || op_has "b" op_str || op_has "i" op_str then 1 else 0) +
  (if op_has "N" op_str then 1 else 0).

Definition parse_gnu_ar (tool : bytes) (family : ArchiverFamily) (args : list bytes) : ParsedArchiveInvocation :=
  match args with
  | [] => ArchiveNonCacheable "no arguments"
  | _ =>
      match ar_long_options args [] with
      | (_, []) => ArchiveNonCacheable "no operation specified"
      | (long_flags, op :: rest) =>
          let op_str := ar_op_str op in
          match ar_refused op_str with
          | Some reason => ArchiveNonCacheable reason
          | None =>
              match drop (ar_skipped op_str) rest with
              | [] => ArchiveNonCacheable "no archive file specified"
              | archive :: members =>
                  match members with
                  | [] => ArchiveNonCacheable "no input files specified"
                  | _ =>
                      ArchiveCacheable (mkArchive (NormalizedPath_new tool) family
                        (NormalizedPath_new <$> members) (NormalizedPath_new archive)
                        (op_str :: long_flags) args (negb (op_has "D" op_str)))
                  end
              end
          end
      end
  end.

(** ** Strings that may panic *)

(** [s[n..]]: in range and at the start of a character. *)
Definition slice_from (n : nat) (s : bytes) : option bytes :=
  if (String.length s <? n)%nat then None
  else let t := str_skip n s in
       match t with
       | String c _ => if (128 <=? byte_val c) && (byte_val c <? 192) then None else Some t
       | EmptyString => Some t
       end.

(** [str::find] of a non-empty pattern. *)
Fixpoint str_find (pat s : bytes) : option nat :=
  if starts_with pat s then Some 0%nat
  else match s with EmptyString => None | String _ s' => S <$> str_find pat s' end.

(** ** [ld] and the compiler drivers *)

Inductive LinkAction :=
  | AFlag (f : bytes)                (* cache_relevant_flags.push *)
  | AInput (p : NormalizedPath)      (* input_files.push *)
  | ASide (p : NormalizedPath)       (* secondary_outputs.push *)
  | AOutput (p : NormalizedPath)     (* output_file = Some *)
  | AUuid                            (* has_build_id_uuid = true *)
  | ACompileOnly.                    (* has_compile_only = true *)

Record LinkState := mkLinkState {
  output_file : option NormalizedPath;
  input_files : list NormalizedPath;
  cache_relevant_flags : list bytes;
  secondary_outputs : list NormalizedPath;
  has_build_id_uuid : bool;
  has_compile_only : bool;
}.

Definition link_init : LinkState := mkLinkState None [] [] [] false false.

Definition link_act (s : LinkState) (a : LinkAction) : LinkState :=
  match a with
  | AFlag f => mkLinkState (output_file s) (input_files s) (cache_relevant_flags s ++ [f]) (secondary_outputs s) (has_build_id_uuid s) (has_compile_only s)
  | AInput p => mkLinkState (output_file s) (input_files s ++ [p]) (cache_relevant_flags s) (secondary_outputs s) (has_build_id_uuid s) (has_compile_only s)
  | ASide p => mkLinkState (output_file s) (input_files s) (cache_relevant_flags s) (secondary_outputs s ++ [p]) (has_build_id_uuid s) (has_compile_only s)
  | AOutput p => mkLinkState (Some p) (input_files s) (cache_relevant_flags s) (secondary_outputs s) (has_build_id_uuid s) (has_compile_only s)
  | AUuid => mkLinkState (output_file s) (input_files s) (cache_relevant_flags s) (secondary_outputs s) true (has_compile_only s)
  | ACompileOnly => mkLinkState (output_file s) (input_files s) (cache_relevant_flags s) (secondary_outputs s) (has_build_id_uuid s) true
  end.

(** One turn of an option loop: the mutations, and whether the next argument
    was consumed with this one ([i += 2]; past the end, the loop stops). *)
Definition LinkStep : Type := bytes -> option bytes -> list LinkAction * bool.

Fixpoint link_actions (step : LinkStep) (args : list bytes) : list LinkAction :=
  match args with
  | [] => []
  | arg :: rest =>
      let '(acts, two) := step arg (head rest) in
      acts ++ match two, rest with
              | true, _ :: rest' => link_actions step rest'
              | _, _ => link_actions step rest
              end
  end.

Definition link_loop (step : LinkStep) (args : list bytes) : LinkState :=
  fold_left link_act (link_actions step args) link_init.

Definition is_one_of (l : list bytes) (arg : bytes) : bool := bool_decide (arg ∈ l).

(** A flag with its value, both keyed; [more] is what else the value is. *)
Definition flag_and_value (arg : bytes) (next : option bytes) (more : bytes -> list LinkAction) : list LinkAction * bool :=
  (AFlag arg :: match next with Some v => more v ++ [AFlag v] | None => [] end, true).

Definition side_unless_stdout (v : bytes) : list LinkAction :=
  if bool_decide (v = "-") then [] else [ASide (NormalizedPath_new v)].

Definition gnu_ld_step : LinkStep := fun arg next =>
  match strip_prefix "--out-implib=" arg with
  | Some implib => ([ASide (NormalizedPath_new implib); AFlag arg], false)
  | None =>
  if bool_decide (arg = "--out-implib") then flag_and_value arg next (fun v => [ASide (NormalizedPath_new v)])
  else match strip_prefix "-Map=" arg with
  | Some map => (side_unless_stdout map ++ [AFlag arg], false)
  | None =>
  if bool_decide (arg = "-Map") then flag_and_value arg next side_unless_stdout
  else match strip_prefix "--dependency-file=" arg with
  | Some depfile => (side_unless_stdout depfile ++ [AFlag arg], false)
  | None =>
  if bool_decide (arg = "--dependency-file") then flag_and_value arg next side_unless_stdout
  else if is_one_of ["-map"; "-dependency_info"] arg then flag_and_value arg next (fun v => [ASide (NormalizedPath_new v)])
  else if is_one_of ["-shared"; "--shared"] arg then ([AFlag arg], false)
  else if bool_decide (arg = "-dylib") then ([AFlag arg], false)
  else if bool_decide (arg = "-o") then
    (match next with Some v => [AOutput (NormalizedPath_new v)] | None => [] end, true)
  else match strip_prefix "--output=" arg with
  | Some rest => ([AOutput (NormalizedPath_new rest)], false)
  | None =>
  if bool_decide (arg = "--build-id=uuid") then ([AUuid; AFlag arg], false)
  else if starts_with "--build-id" arg then ([AFlag arg], false)
  else if is_one_of ["-soname"; "-h"] arg then flag_and_value arg next (fun _ => [])
  else match strip_prefix "--soname=" arg with
  | Some rest => ([AFlag ("--soname=" +:+ rest)], false)
  | None =>
  if bool_decide (arg = "-install_name") then flag_and_value arg next (fun _ => [])
  else if bool_decide (arg = "-L") then flag_and_value arg next (fun _ => [])
  else if starts_with "-L" arg then ([AFlag arg], false)
  else if starts_with "-l" arg then ([AFlag arg], false)
  else if starts_with "-Wl," arg then ([AFlag arg], false)
  else if is_one_of ["-T"; "--script"; "-z"; "--version-script"] arg then
    flag_and_value arg next (fun v =>
      if is_one_of ["-T"; "--script"; "--version-script"] arg then [AInput (NormalizedPath_new v)] else [])
  else match strip_prefix "--version-script=" arg with
  | Some rest => ([AFlag arg; AInput (NormalizedPath_new rest)], false)
  | None =>
  if starts_with "-" arg then ([AFlag arg], false)
  else ([AInput (NormalizedPath_new arg)], false)
  end end end end end end.

Definition OBJECT_EXTENSIONS : list bytes := ["o"; "obj"; "a"; "lib"; "lo"; "so"; "dylib"; "dll"].

Definition is_linker_input (path : bytes) : bool :=
  match extension path with Some ext => bool_decide (ext ∈ OBJECT_EXTENSIONS) | None => false end.

(** What one part of a [-Wl,] argument adds, with the part behind it. *)
Definition wl_part (part : bytes) (next : option bytes) : list LinkAction :=
  (if bool_decide (part = "--build-id=uuid") then [AUuid] else []) ++
  (match strip_prefix "--out-implib=" part with Some implib => [ASide (NormalizedPath_new implib)] | None => [] end) ++
  (match strip_prefix "-Map=" part with Some map => side_unless_stdout map | None => [] end) ++
  (if is_one_of ["-Map"; "--dependency-file"] part
   then match next with Some value => side_unless_stdout value | None => [] end else []) ++
  (match strip_prefix "--dependency-file=" part with Some depfile => side_unless_stdout depfile | None => [] end) ++
  (if is_one_of ["-map"; "-dependency_info"] part
   then match next with
        | Some value => if bool_decide (value = "") then [] else [ASide (NormalizedPath_new value)]
        | None => []
        end
   else []).

Fixpoint wl_parts (parts : list bytes) : list LinkAction :=
  match parts with
  | [] => []
  | part :: rest => wl_part part (head rest) ++ wl_parts rest
  end.

Definition driver_step : LinkStep := fun arg next =>
  if is_one_of ["-shared"; "--shared"] arg then ([AFlag arg], false)
  else if bool_decide (arg = "-c") then ([ACompileOnly], false)
  else if bool_decide (arg = "-o") then
    (match next with Some v => [AOutput (NormalizedPath_new v)] | None => [] end, true)
  else if starts_with "-Wl," arg then (wl_parts (split_char "," arg) ++ [AFlag arg], false)
  else if bool_decide (arg = "-L") then flag_and_value arg next (fun _ => [])
  else if starts_with "-L" arg then ([AFlag arg], false)
  else if starts_with "-l" arg then ([AFlag arg], false)
  else if is_one_of ["-target"; "--target"; "-isysroot"] arg then flag_and_value arg next (fun _ => [])
  else if starts_with "-" arg then ([AFlag arg], false)
  else if is_linker_input arg then ([AInput (NormalizedPath_new arg)], false)
  else ([], false).

(** [retain(|output| seen.insert(output.clone()))]: the first of equal paths. *)
Fixpoint retain_new (seen : gset bytes) (l : list NormalizedPath) : list NormalizedPath :=
  match l with
  | [] => []
  | p :: l' =>
      if bool_decide (case_key p ∈ seen) then retain_new seen l'
      else p :: retain_new ({[case_key p]} ∪ seen) l'
  end.

(** The end of both parsers. *)
Definition link_result (tool : bytes) (family : LinkerFamily) (args : list bytes) (s : LinkState) : ParsedLinkerInvocation :=
  match output_file s with
  | None => LinkNonCacheable "no output file specified (-o)"
  | Some out =>
      if bool_decide (input_files s = []) then LinkNonCacheable "no input files specified"
      else LinkCacheable (mkLink (NormalizedPath_new tool) family (input_files s) out OutputFile
             (retain_new ∅ (secondary_outputs s)) (cache_relevant_flags s) args (has_build_id_uuid s))
  end.

Definition parse_gnu_ld (tool : bytes) (family : LinkerFamily) (args : list bytes) : ParsedLinkerInvocation :=
  match args with
  | [] => LinkNonCacheable "no arguments"
  | _ => link_result tool family args (link_loop gnu_ld_step args)
  end.

Definition parse_compiler_driver_link (tool : bytes) (args : list bytes) : ParsedLinkerInvocation :=
  match args with
  | [] => LinkNonCacheable "no arguments"
  | _ =>
      let s := link_loop driver_step args in
      if has_compile_only s then LinkNonCacheable "-c flag present (compilation, not linking)"
      else link_result tool CompilerDriver args s
  end.

(** ** [dsymutil] *)

Definition dsymutil_refused (arg : bytes) : bool :=
  is_one_of ["--codesign"; "--flat"; "-f"; "--no-output"; "--dump-debug-map"; "--symtab"; "-s"; "-S";
             "--update"; "-u"; "--gen-reproducer"] arg ||
  any_prefix ["--codesign="; "--reproducer"; "--use-reproducer"; "--embed-resource"] arg.

Definition option_takes_value (option : bytes) : bool :=
  is_one_of ["--accelerator"; "--allow"; "--arch"; "-arch"; "--build-variant-suffix"; "-D"; "--disallow"; "-j";
             "--num-threads"; "--object-prefix-map"; "--oso-prepend-path"; "--remarks-output-format";
             "--remarks-prepend-path"; "--toolchain"] option.

Definition dsymutil_step : LinkStep := fun arg next =>
  if is_one_of ["-o"; "--out"] arg then
    (match next with Some path => [AOutput (NormalizedPath_new path)] | None => [] end, true)
  else match strip_prefix "--out=" arg with
  | Some path => ([AOutput (NormalizedPath_new path)], false)
  | None =>
  if option_takes_value arg then flag_and_value arg next (fun _ => [])
  else if starts_with "-" arg then ([AFlag arg], false)
  else ([AInput (NormalizedPath_new arg)], false)
  end.

(** The option at the end of the line that lacks its value: the loop returns
    there. *)
Fixpoint dsymutil_missing (args : list bytes) : option bytes :=
  match args with
  | [] => None
  | arg :: rest =>
      match dsymutil_step arg (head rest), rest with
      | (_, true), [] =>
          Some (if is_one_of ["-o"; "--out"] arg then "dsymutil output option is missing its path"
                else "dsymutil option " +:+ arg +:+ " is missing its value")
      | (_, true), _ :: rest' => dsymutil_missing rest'
      | (_, false), _ => dsymutil_missing rest
      end
  end.

Definition parse_dsymutil (tool : bytes) (args : list bytes) : ParsedLinkerInvocation :=
  if existsb dsymutil_refused args then
    LinkNonCacheable "dsymutil mode requires signed, mutable, flat, or opaque outputs"
  else match dsymutil_missing args with
  | Some reason => LinkNonCacheable reason
  | None =>
      let s := link_loop dsymutil_step args in
      match input_files s with
      | [image] =>
          LinkCacheable (mkLink (NormalizedPath_new tool) Dsymutil [image]
            (default (NormalizedPath_new (image +:+ ".dSYM")) (output_file s)) DirectoryBundle []
            (cache_relevant_flags s) args false)
      | _ => LinkNonCacheable "dsymutil caching requires exactly one input image"
      end
  end.

(** ** MSVC *)

Section Msvc.
Context (to_uppercase : bytes -> bytes).

(** [/NAME] or [-NAME], and the same as a prefix. *)
Definition msvc_is (name upper : bytes) : bool := is_one_of ["/" +:+ name; "-" +:+ name] upper.
Definition msvc_starts (name upper : bytes) : bool := any_prefix ["/" +:+ name; "-" +:+ name] upper.

Definition msvc_flag_like (arg : bytes) : bool := starts_with "/" arg || starts_with "-" arg.

Record LibState := mkLibState {
  lib_output : option NormalizedPath;
  lib_inputs : list NormalizedPath;
  lib_flags : list bytes;
  lib_extract : bool;
  lib_brepro : bool;
  lib_list : bool;
}.

(** The loop stops at [/EXTRACT]; [/LIST] is noted and goes on to the branches
    below. *)
Fixpoint msvc_lib_loop (args : list bytes) (s : LibState) : option LibState :=
  match args with
  | [] => Some s
  | arg :: rest =>
      let upper := to_uppercase arg in
      if msvc_starts "EXTRACT:" upper then
        Some (mkLibState (lib_output s) (lib_inputs s) (lib_flags s) true (lib_brepro s) (lib_list s))
      else
        let has_list := lib_list s || msvc_is "LIST" upper in
        if msvc_starts "OUT:" upper then
          out ← slice_from 5 arg;
          msvc_lib_loop rest (mkLibState (Some (NormalizedPath_new out)) (lib_inputs s) (lib_flags s) (lib_extract s) (lib_brepro s) has_list)
        else if msvc_is "BREPRO" upper then
          msvc_lib_loop rest (mkLibState (lib_output s) (lib_inputs s) (lib_flags s ++ [arg]) (lib_extract s) true has_list)
        else if msvc_flag_like arg then
          msvc_lib_loop rest (mkLibState (lib_output s) (lib_inputs s) (lib_flags s ++ [arg]) (lib_extract s) (lib_brepro s) has_list)
        else
          msvc_lib_loop rest (mkLibState (lib_output s) (lib_inputs s ++ [NormalizedPath_new arg]) (lib_flags s) (lib_extract s) (lib_brepro s) has_list)
  end.

Definition parse_msvc_lib (tool : bytes) (args : list bytes) : option ParsedArchiveInvocation :=
  match args with
  | [] => Some (ArchiveNonCacheable "no arguments")
  | _ =>
      s ← msvc_lib_loop args (mkLibState None [] [] false false false);
      Some
        (if lib_extract s then ArchiveNonCacheable "extract operation (/EXTRACT) not cacheable"
         else if lib_list s then ArchiveNonCacheable "list operation (/LIST) not cacheable"
         else match lib_inputs s with
         | [] => ArchiveNonCacheable "no input files specified"
         | first :: _ =>
             ArchiveCacheable (mkArchive (NormalizedPath_new tool) MsvcLib (lib_inputs s)
               (default (NormalizedPath_new (with_extension first "lib")) (lib_output s))
               (lib_flags s) args (negb (lib_brepro s)))
         end)
  end.

Definition parse_archive_invocation (tool : bytes) (args : list bytes) : option ParsedArchiveInvocation :=
  match detect_archiver tool with
  | None => Some (ArchiveNonCacheable ("not a recognized archiver: " +:+ tool))
  | Some MsvcLib => parse_msvc_lib tool args
  | Some family => Some (parse_gnu_ar tool family args)
  end.

(** The mutations of [link.exe]'s loop, one constructor per variable. *)
Inductive MsvcAction :=
  | MDll | MOutput (p : NormalizedPath) | MInput (p : NormalizedPath) | MFlag (f : bytes) | MDeterministic
  | MSide (p : NormalizedPath) | MDebug (on : bool) | MIncremental (on : bool) | MMap | MExplicitPdb | MExplicitIlk
  | MDebugOutput (p : NormalizedPath) | MIncrementalOutput (p : NormalizedPath) | MLtcg | MLtcgOutput (p : NormalizedPath)
  | MProfileGeneration | MProfileUse | MProfileOutput (p : NormalizedPath) | MWinmd | MWinmdOutput (p : NormalizedPath).

#[export] Instance MsvcAction_eq_dec : EqDecision MsvcAction.
Proof. solve_decision. Defined.

Definition EXPLICIT_OUTPUTS : list bytes :=
  ["/PDB:"; "-PDB:"; "/PDBSTRIPPED:"; "-PDBSTRIPPED:"; "/ILK:"; "-ILK:"; "/MAP:"; "-MAP:"].

(** [/PDB:], [/PDBSTRIPPED:], [/ILK:] and [/MAP:] with a path behind them. *)
Definition explicit_output_step (prefix arg : bytes) : option (list MsvcAction) :=
  path ← slice_from (String.length prefix) arg;
  let named name := eq_ignore_ascii_case prefix ("/" +:+ name) || eq_ignore_ascii_case prefix ("-" +:+ name) in
  Some
    ((if bool_decide (path = "") then []
      else if named "PDB:" || named "PDBSTRIPPED:" then [MDebugOutput (NormalizedPath_new path)]
      else if named "ILK:" then [MIncrementalOutput (NormalizedPath_new path)]
      else [MSide (NormalizedPath_new path)]) ++
     (if named "PDB:" then [MExplicitPdb] else []) ++
     (if named "ILK:" then [MExplicitIlk] else []) ++ [MFlag arg]).

Definition msvc_link_step (arg : bytes) : option (list MsvcAction) :=
  let upper := to_uppercase arg in
  if msvc_is "DLL" upper then Some [MDll; MFlag arg]
  else if msvc_starts "OUT:" upper then out ← slice_from 5 arg; Some [MOutput (NormalizedPath_new out)]
  else if msvc_is "DETERMINISTIC" upper then Some [MDeterministic; MFlag arg]
  else if msvc_starts "IMPLIB:" upper then
    implib ← slice_from 8 arg;
    let implib_path := NormalizedPath_new implib in
    Some [MSide implib_path; MSide (NormalizedPath_new (with_extension implib_path "exp")); MFlag arg]
  else if msvc_is "DEBUG:NONE" upper then Some [MDebug false; MFlag arg]
  else if msvc_is "DEBUG" upper || msvc_starts "DEBUG:" upper then Some [MDebug true; MFlag arg]
  else if msvc_is "INCREMENTAL" upper then Some [MIncremental true; MFlag arg]
  else if msvc_is "INCREMENTAL:NO" upper then Some [MIncremental false; MFlag arg]
  else if msvc_is "LTCG:INCREMENTAL" upper then Some [MLtcg; MFlag arg]
  else if msvc_starts "LTCGOUT:" upper then out ← slice_from 9 arg; Some [MLtcgOutput (NormalizedPath_new out); MFlag arg]
  else if msvc_is "GENPROFILE" upper || msvc_is "FASTGENPROFILE" upper then Some [MProfileGeneration; MFlag arg]
  else if msvc_is "USEPROFILE" upper || msvc_starts "USEPROFILE:" upper then
    pgd ← match str_find "PGD=" upper with
          | Some pgd_offset => p ← slice_from (pgd_offset + 4) arg; Some [MProfileOutput (NormalizedPath_new p)]
          | None => Some []
          end;
    Some (MProfileUse :: pgd ++ [MFlag arg])
  else if msvc_starts "PGD:" upper then p ← slice_from 5 arg; Some [MProfileOutput (NormalizedPath_new p); MFlag arg]
  else if msvc_is "WINMD" upper then Some [MWinmd; MFlag arg]
  else if msvc_starts "WINMDFILE:" upper then p ← slice_from 11 arg; Some [MWinmdOutput (NormalizedPath_new p); MFlag arg]
  else if msvc_is "MAP" upper then Some [MMap; MFlag arg]
  else match List.find (fun prefix => starts_with prefix upper) EXPLICIT_OUTPUTS with
  | Some prefix => explicit_output_step prefix arg
  | None => Some [if msvc_flag_like arg then MFlag arg else MInput (NormalizedPath_new arg)]
  end.

(** The variables behind the loop: what was pushed, in order; the last value
    assigned; whether a switch was thrown. *)
Definition pushed {A} (f : MsvcAction -> option A) (acts : list MsvcAction) : list A := omap f acts.
Definition assigned {A} (f : MsvcAction -> option A) (acts : list MsvcAction) : option A := last (omap f acts).
Definition thrown (a : MsvcAction) (acts : list MsvcAction) : bool := bool_decide (a ∈ acts).

Definition m_flag (a : MsvcAction) : option bytes := match a with MFlag f => Some f | _ => None end.
Definition m_input (a : MsvcAction) : option NormalizedPath := match a with MInput p => Some p | _ => None end.
Definition m_output (a : MsvcAction) : option NormalizedPath := match a with MOutput p => Some p | _ => None end.
Definition m_side (a : MsvcAction) : option NormalizedPath := match a with MSide p => Some p | _ => None end.
Definition m_debug (a : MsvcAction) : option bool := match a with MDebug b => Some b | _ => None end.
Definition m_incremental (a : MsvcAction) : option bool := match a with MIncremental b => Some b | _ => None end.
Definition m_debug_output (a : MsvcAction) : option NormalizedPath := match a with MDebugOutput p => Some p | _ => None end.
Definition m_incremental_output (a : MsvcAction) : option NormalizedPath := match a with MIncrementalOutput p => Some p | _ => None end.
Definition m_ltcg_output (a : MsvcAction) : option NormalizedPath := match a with MLtcgOutput p => Some p | _ => None end.
Definition m_profile_output (a : MsvcAction) : option NormalizedPath := match a with MProfileOutput p => Some p | _ => None end.
Definition m_winmd_output (a : MsvcAction) : option NormalizedPath := match a with MWinmdOutput p => Some p | _ => None end.

Fixpoint msvc_link_actions (args : list bytes) : option (list MsvcAction) :=
  match args with
  | [] => Some []
  | arg :: rest => acts ← msvc_link_step arg; more ← msvc_link_actions rest; Some (acts ++ more)
  end.

(** [with_extension] of a path, unless it has an extension. *)
Definition ext_or (p : NormalizedPath) (ext : bytes) : NormalizedPath :=
  if bool_decide (is_Some (extension p)) then p else NormalizedPath_new (with_extension p ext).

(** The declared products, explicit ones first, then those the options imply. *)
Definition msvc_secondary (acts : list MsvcAction) (out : NormalizedPath) : list NormalizedPath :=
  let has_debug := default false (assigned m_debug acts) in
  let incremental := assigned m_incremental acts in
  let incremental_enabled := bool_decide (incremental = Some true) || (has_debug && negb (bool_decide (incremental = Some false))) in
  let implied ext := NormalizedPath_new (with_extension out ext) in
  pushed m_side acts ++
  (if has_debug then pushed m_debug_output acts else []) ++
  (if incremental_enabled then pushed m_incremental_output acts else []) ++
  (if has_debug && negb (thrown MExplicitPdb acts) then [implied "pdb"] else []) ++
  (if incremental_enabled && negb (thrown MExplicitIlk acts) then [implied "ilk"] else []) ++
  (if thrown MMap acts then [implied "map"] else []) ++
  (if thrown MLtcg acts then [default (implied "iobj") (assigned m_ltcg_output acts)] else []) ++
  (if thrown MProfileGeneration acts then [default (implied "pgd") (assigned m_profile_output acts)] else []) ++
  (if thrown MWinmd acts then [ext_or (default (implied "winmd") (assigned m_winmd_output acts)) "winmd"] else []).

Definition msvc_link_result (tool : bytes) (args : list bytes) (acts : list MsvcAction) : ParsedLinkerInvocation :=
  match pushed m_input acts with
  | [] => LinkNonCacheable "no input files specified"
  | first :: _ =>
      let out := default (NormalizedPath_new (with_extension first (if thrown MDll acts then "dll" else "exe")))
                   (assigned m_output acts) in
      let finish inputs :=
        LinkCacheable (mkLink (NormalizedPath_new tool) MsvcLink inputs out OutputFile
          (retain_new ∅ (msvc_secondary acts out)) (pushed m_flag acts) args (negb (thrown MDeterministic acts))) in
      if thrown MProfileGeneration acts && thrown MProfileUse acts then
        LinkNonCacheable "MSVC profile generation and profile use cannot share one staged plan"
      else if thrown MProfileUse acts then
        match assigned m_profile_output acts with
        | None => LinkNonCacheable "MSVC /USEPROFILE requires an explicit PGD path for caching"
        | Some profile_input => finish (pushed m_input acts ++ [ext_or profile_input "pgd"])
        end
      else finish (pushed m_input acts)
  end.

Definition parse_msvc_link (tool : bytes) (args : list bytes) : option ParsedLinkerInvocation :=
  match args with
  | [] => Some (LinkNonCacheable "no arguments")
  | _ => acts ← msvc_link_actions args; Some (msvc_link_result tool args acts)
  end.

Definition parse_linker_invocation (tool : bytes) (args : list bytes) : option ParsedLinkerInvocation :=
  match detect_linker tool with
  | Some MsvcLink => parse_msvc_link tool args
  | Some CompilerDriver => Some (parse_compiler_driver_link tool args)
  | Some Dsymutil => Some (parse_dsymutil tool args)
  | Some family => Some (parse_gnu_ld tool family args)
  | None =>
      Some (if is_compiler_driver tool then parse_compiler_driver_link tool args
            else LinkNonCacheable ("not a recognized linker: " +:+ tool))
  end.
End Msvc.

(** ** [rustfmt] *)

Record ParsedRustfmt := mkRustfmt {
  rf_source_files : list NormalizedPath;
  rf_check_mode : bool;
  rf_edition : option bytes;
  rf_config_path : option NormalizedPath;
  rf_flags : list bytes;
}.

Definition RUSTFMT_FLAGS_WITH_VALUE : list bytes :=
  ["--edition"; "--config-path"; "--config"; "--color"; "--print-config"; "--files-with-diff"; "--file-lines"].

(** The loop; [None] where it returns early. *)
Fixpoint rustfmt_loop (args : list bytes) (r : ParsedRustfmt) : option ParsedRustfmt :=
  match args with
  | [] => Some r
  | arg :: rest =>
      let flags fs := mkRustfmt (rf_source_files r) (rf_check_mode r) (rf_edition r) (rf_config_path r) (rf_flags r ++ fs) in
      let last_branches :=
        if (starts_with "--" arg && str_contains "=" arg) || starts_with "-" arg then rustfmt_loop rest (flags [arg])
        else rustfmt_loop rest
               (if ends_with ".rs" arg
                then mkRustfmt (rf_source_files r ++ [NormalizedPath_new arg]) (rf_check_mode r) (rf_edition r) (rf_config_path r) (rf_flags r)
                else r) in
      if is_one_of ["--help"; "-h"; "--version"; "-V"] arg then None
      else if is_one_of ["--check"; "-l"] arg then
        rustfmt_loop rest (mkRustfmt (rf_source_files r) true (rf_edition r) (rf_config_path r) (rf_flags r ++ [arg]))
      else match strip_prefix "--edition=" arg with
      | Some val => rustfmt_loop rest (mkRustfmt (rf_source_files r) (rf_check_mode r) (Some val) (rf_config_path r) (rf_flags r ++ [arg]))
      | None =>
      match strip_prefix "--config-path=" arg with
      | Some val => rustfmt_loop rest (mkRustfmt (rf_source_files r) (rf_check_mode r) (rf_edition r) (Some (NormalizedPath_new val)) (rf_flags r ++ [arg]))
      | None =>
      match rest with
      | next :: rest' =>
          if bool_decide (arg = "--edition") then
            rustfmt_loop rest' (mkRustfmt (rf_source_files r) (rf_check_mode r) (Some next) (rf_config_path r) (rf_flags r ++ [arg; next]))
          else if bool_decide (arg = "--config-path") then
            rustfmt_loop rest' (mkRustfmt (rf_source_files r) (rf_check_mode r) (rf_edition r) (Some (NormalizedPath_new next)) (rf_flags r ++ [arg; next]))
          else if is_one_of RUSTFMT_FLAGS_WITH_VALUE arg then rustfmt_loop rest' (flags [arg; next])
          else last_branches
      | [] => last_branches
      end
      end end
  end.

Definition parse_rustfmt_invocation (args : list bytes) : option ParsedRustfmt :=
  r ← rustfmt_loop args (mkRustfmt [] false None None []);
  if bool_decide (rf_source_files r = []) then None else Some r.

(** The configuration file of a directory or of the nearest directory above it
    that has one; the walk is bounded by the number of components. *)
Fixpoint find_config_from (exists_ : bytes -> bool) (fuel : nat) (dir : bytes) : option NormalizedPath :=
  let candidate := np_join (NormalizedPath_new dir) "rustfmt.toml" in
  let hidden := np_join (NormalizedPath_new dir) ".rustfmt.toml" in
  if exists_ candidate then Some candidate
  else if exists_ hidden then Some hidden
  else match fuel, path_parent dir with
  | S fuel', Some parent => find_config_from exists_ fuel' parent
  | _, _ => None
  end.

Definition find_rustfmt_config (exists_ : bytes -> bool) (start_dir : bytes) : option NormalizedPath :=
  find_config_from exists_ (length (components start_dir)) start_dir.

(** ** What a command line is read as *)

(** Consecutive arguments, with the flags they key, the inputs they name and
    the outputs they name.  Three readings key nothing: the name of the output,
    and for a compiler driver an operand without the extension of an object. *)
Inductive link_piece (to_uppercase : bytes -> bytes) (family : LinkerFamily) :
    list bytes -> list bytes -> list NormalizedPath -> list NormalizedPath -> Prop :=
  | piece_flags fs : link_piece to_uppercase family fs fs [] []
  | piece_script f v : f ∈ ["-T"; "--script"; "--version-script"] ->
      link_piece to_uppercase family [f; v] [f; v] [NormalizedPath_new v] []
  | piece_script_joined v :
      link_piece to_uppercase family ["--version-script=" +:+ v] ["--version-script=" +:+ v] [NormalizedPath_new v] []
  | piece_input a : starts_with "-" a = false -> link_piece to_uppercase family [a] [] [NormalizedPath_new a] []
  | piece_output o v : o ∈ ["-o"; "--out"] -> link_piece to_uppercase family [o; v] [] [] [NormalizedPath_new v]
  | piece_output_joined f v : f ∈ ["--output="; "--out="] ->
      link_piece to_uppercase family [f +:+ v] [] [] [NormalizedPath_new v]
  | piece_output_msvc a v : family = MsvcLink -> msvc_starts "OUT:" (to_uppercase a) = true -> slice_from 5 a = Some v ->
      link_piece to_uppercase family [a] [] [] [NormalizedPath_new v]
  | piece_output_missing o : o ∈ ["-o"; "--out"] -> link_piece to_uppercase family [o] [] [] []
  | piece_operand a : family = CompilerDriver -> starts_with "-" a = false -> is_linker_input a = false ->
      link_piece to_uppercase family [a] [] [] [].

Inductive link_reading (to_uppercase : bytes -> bytes) (family : LinkerFamily) :
    list bytes -> list bytes -> list NormalizedPath -> list NormalizedPath -> Prop :=
  | reading_nil : link_reading to_uppercase family [] [] [] []
  | reading_piece chunk fs ins outs args flags inputs outputs :
      link_piece to_uppercase family chunk fs ins outs ->
      link_reading to_uppercase family args flags inputs outputs ->
      link_reading to_uppercase family (chunk ++ args) (fs ++ flags) (ins ++ inputs) (outs ++ outputs).

(** ** The loops of [ld], the drivers and [dsymutil] *)

Definition a_flag (a : LinkAction) : option bytes := match a with AFlag f => Some f | _ => None end.
Definition a_input (a : LinkAction) : option NormalizedPath := match a with AInput p => Some p | _ => None end.
Definition a_output (a : LinkAction) : option NormalizedPath := match a with AOutput p => Some p | _ => None end.

(** A turn reads what it consumes. *)
Definition turn_reads (upper : bytes -> bytes) (family : LinkerFamily) (arg : bytes) (next : option bytes)
    (turn : list LinkAction * bool) : Prop :=
  let '(acts, two) := turn in
  let chunk := arg :: (if two then match next with Some v => [v] | None => [] end else []) in
  link_piece upper family chunk (omap a_flag acts) (omap a_input acts) (omap a_output acts).

Section Turns.
Context (upper : bytes -> bytes) (family : LinkerFamily).

Definition only_sides (acts : list LinkAction) : Prop :=
  omap a_flag acts = [] /\ omap a_input acts = [] /\ omap a_output acts = [].

Lemma only_sides_app a b : only_sides a -> only_sides b -> only_sides (a ++ b).
Proof. intros (A1 & A2 & A3) (B1 & B2 & B3). repeat split; rewrite omap_app; by rewrite ?A1, ?A2, ?A3. Qed.

Lemma side_unless_stdout_only v : only_sides (side_unless_stdout v).
Proof. unfold side_unless_stdout. by case_bool_decide. Qed.

Lemma wl_part_only part next : only_sides (wl_part part next).
Proof.
  unfold wl_part. repeat apply only_sides_app; repeat case_match; try apply side_unless_stdout_only; done.
Qed.

Lemma wl_parts_only parts : only_sides (wl_parts parts).
Proof. induction parts as [|p ps IH]; simpl; [done|]. by apply only_sides_app; [apply wl_part_only|]. Qed.

(** Side outputs in front of one flag. *)
Lemma keyed_flag arg next acts :
  only_sides acts -> turn_reads upper family arg next (acts ++ [AFlag arg], false).
Proof.
  intros (H1 & H2 & H3). unfold turn_reads. rewrite !omap_app, H1, H2, H3. apply (piece_flags _ _ [arg]).
Qed.

Lemma plain_flag_reads arg next : turn_reads upper family arg next ([AFlag arg], false).
Proof. by apply (keyed_flag arg next []). Qed.

Lemma flag_and_value_reads arg next more :
  (forall v, only_sides (more v)) -> turn_reads upper family arg next (flag_and_value arg next more).
Proof.
  intros Hm. unfold flag_and_value, turn_reads. destruct next as [v|]; [|apply (piece_flags _ _ [arg])].
  destruct (Hm v) as (H1 & H2 & H3). cbn [omap list_omap a_flag a_input a_output].
  rewrite !omap_app, H1, H2, H3. apply (piece_flags _ _ [arg; v]).
Qed.

Lemma output_reads arg next :
  arg ∈ ["-o"; "--out"] ->
  turn_reads upper family arg next (match next with Some v => [AOutput (NormalizedPath_new v)] | None => [] end, true).
Proof. intros Ha. destruct next as [v|]; [by apply piece_output|by apply piece_output_missing]. Qed.

Lemma positional_reads arg next :
  starts_with "-" arg = false -> turn_reads upper family arg next ([AInput (NormalizedPath_new arg)], false).
Proof. apply piece_input. Qed.

(** Splits the first test of a turn and closes the branches that only key. *)
Ltac split_turn arg :=
  match goal with
  | |- context [turn_reads _ _ _ _ (match strip_prefix ?p arg with _ => _ end)] =>
      let E := fresh "Hjoined" in destruct (strip_prefix p arg) eqn:E; [apply strip_prefix_Some in E|]
  | |- context [turn_reads _ _ _ _ (if bool_decide _ then _ else _)] => case_bool_decide
  | |- context [turn_reads _ _ _ _ (if ?b then _ else _)] => let E := fresh "Htest" in destruct b eqn:E
  end.

Ltac keyed_turn :=
  first
    [ apply plain_flag_reads
    | apply flag_and_value_reads; intros ?; first [apply side_unless_stdout_only|done]
    | apply keyed_flag; first [apply side_unless_stdout_only|done]
    | apply (keyed_flag _ _ [_]); done ].

Lemma script_reads arg next :
  turn_reads upper family arg next
    (flag_and_value arg next (fun v =>
       if is_one_of ["-T"; "--script"; "--version-script"] arg then [AInput (NormalizedPath_new v)] else [])).
Proof.
  unfold is_one_of. case_bool_decide as Ha; [|keyed_turn].
  destruct next as [v|]; [by apply piece_script|apply (piece_flags _ _ [arg])].
Qed.

Lemma gnu_ld_step_reads arg next : turn_reads upper family arg next (gnu_ld_step arg next).
Proof.
  unfold gnu_ld_step.
  repeat (split_turn arg; try keyed_turn).
  all: subst; first
    [ apply script_reads
    | apply output_reads; by left
    | apply (piece_output_joined _ _ "--output="); by left
    | apply piece_script_joined
    | by apply positional_reads
    | idtac ].
  all: try apply plain_flag_reads.
Qed.

Lemma dsymutil_step_reads arg next : turn_reads upper family arg next (dsymutil_step arg next).
Proof.
  unfold dsymutil_step, is_one_of. repeat (split_turn arg; try keyed_turn).
  - by apply output_reads.
  - subst. apply (piece_output_joined _ _ "--out="). by right; left.
  - by apply positional_reads.
Qed.

Lemma driver_step_reads arg next :
  family = CompilerDriver -> ACompileOnly ∉ (driver_step arg next).1 ->
  turn_reads upper family arg next (driver_step arg next).
Proof.
  intros Hf. unfold driver_step. repeat (split_turn arg; try (intros _; keyed_turn)).
  - intros []. by left.
  - intros _. subst arg. apply output_reads. by left.
  - intros _. apply keyed_flag, wl_parts_only.
  - intros _. by apply positional_reads.
  - intros _. by apply piece_operand.
Qed.

(** A loop reads its command line, turn by turn. *)
Lemma loop_reads (step : LinkStep) n args :
  (length args <= n)%nat ->
  (forall arg next, ACompileOnly ∉ (step arg next).1 -> turn_reads upper family arg next (step arg next)) ->
  ACompileOnly ∉ link_actions step args ->
  let acts := link_actions step args in
  link_reading upper family args (omap a_flag acts) (omap a_input acts) (omap a_output acts).
Proof.
  intros Hn Hs. revert args Hn. induction n as [|n IH]; intros [|arg rest] Hn Hc; simpl in *; try constructor; [lia|].
  specialize (Hs arg (head rest)). destruct (step arg (head rest)) as [acts two]. simpl in Hs.
  rewrite not_elem_of_app in Hc. destruct Hc as [Hc Hrest]. specialize (Hs Hc).
  rewrite !omap_app.
  assert (forall chunk args', arg :: rest = chunk ++ args' -> (length args' <= n)%nat ->
            ACompileOnly ∉ link_actions step args' ->
            link_piece upper family chunk (omap a_flag acts) (omap a_input acts) (omap a_output acts) ->
            link_reading upper family (arg :: rest)
              (omap a_flag acts ++ omap a_flag (link_actions step args'))
              (omap a_input acts ++ omap a_input (link_actions step args'))
              (omap a_output acts ++ omap a_output (link_actions step args'))) as Hcut.
  { intros chunk args' -> Hl Hc' Hp. constructor; [done|]. by apply IH. }
  destruct two, rest as [|v rest]; simpl in *.
  - apply (Hcut [arg] []); [done|simpl; lia|done|done].
  - apply (Hcut [arg; v] rest); [done|lia|done|done].
  - apply (Hcut [arg] []); [done|simpl; lia|done|done].
  - apply (Hcut [arg] (v :: rest)); [done|simpl; lia|done|done].
Qed.
End Turns.

(** The variables behind the loop. *)
Lemma fold_link_act acts s :
  let r := fold_left link_act acts s in
  output_file r = match last (omap a_output acts) with Some p => Some p | None => output_file s end /\
  input_files r = input_files s ++ omap a_input acts /\
  cache_relevant_flags r = cache_relevant_flags s ++ omap a_flag acts /\
  (has_compile_only r = true <-> has_compile_only s = true \/ ACompileOnly ∈ acts).
Proof.
  revert s. induction acts as [|a acts IH]; intros s; cbn [fold_left].
  { simpl. rewrite !app_nil_r. split_and!; try done. rewrite elem_of_nil. intuition. }
  destruct (IH (link_act s a)) as (H1 & H2 & H3 & H4). rewrite H1, H2, H3, H4. clear IH H1 H2 H3 H4.
  split_and!; [|destruct a; simpl; by rewrite <- ?app_assoc..|].
  - destruct a as [| | |p| |]; try done. change (omap a_output (AOutput p :: acts)) with (p :: omap a_output acts).
    rewrite last_cons. simpl. by destruct (last _).
  - rewrite elem_of_cons. destruct a; simpl; intuition (try discriminate).
Qed.

Lemma link_loop_vars step args :
  let acts := link_actions step args in
  let r := link_loop step args in
  output_file r = last (omap a_output acts) /\ input_files r = omap a_input acts /\
  cache_relevant_flags r = omap a_flag acts /\ (has_compile_only r = true <-> ACompileOnly ∈ acts).
Proof.
  intros acts r. destruct (fold_link_act acts link_init) as (H1 & H2 & H3 & H4). unfold r, link_loop.
  fold acts. rewrite H1, H2, H3, H4. simpl. split_and!; try done; [by case_match|]. split; [|tauto]. by intros [?|?].
Qed.

(** ** MSVC *)

Section MsvcReads.
Context (upper : bytes -> bytes).

Definition msvc_turn_reads (arg : bytes) (acts : list MsvcAction) : Prop :=
  link_piece upper MsvcLink [arg] (omap m_flag acts) (omap m_input acts) (omap m_output acts).

Lemma msvc_keyed arg : msvc_turn_reads arg [MFlag arg].
Proof. apply (piece_flags _ _ [arg]). Qed.

Lemma explicit_output_reads prefix arg acts :
  explicit_output_step prefix arg = Some acts -> msvc_turn_reads arg acts.
Proof.
  unfold explicit_output_step. destruct (slice_from _ arg) as [path|]; [|done]. intros [= <-].
  unfold msvc_turn_reads. repeat case_match; apply (piece_flags _ _ [arg]).
Qed.

Lemma msvc_link_step_reads arg acts : msvc_link_step upper arg = Some acts -> msvc_turn_reads arg acts.
Proof.
  unfold msvc_link_step.
  repeat match goal with
  | |- (if ?b then _ else _) = _ -> _ => let E := fresh "Htest" in destruct b eqn:E
  end; try (intros [= <-]; apply (piece_flags _ _ [arg])).
  all: try (destruct (slice_from _ arg) as [v|] eqn:Hv; [|done]; intros [= <-]; apply (piece_flags _ _ [arg])).
  - destruct (slice_from 5 arg) as [v|] eqn:Hv; [|done]. intros [= <-]. by apply piece_output_msvc.
  - destruct (str_find _ _) as [n|]; [destruct (slice_from _ arg) as [v|]; [|done]|]; intros [= <-];
      apply (piece_flags _ _ [arg]).
  - destruct (find _ _) as [prefix|]; [by apply explicit_output_reads|]. intros [= <-].
    destruct (msvc_flag_like arg) eqn:Hf; [apply (piece_flags _ _ [arg])|]. apply piece_input.
    unfold msvc_flag_like in Hf. by apply orb_false_elim in Hf as [_ ?].
Qed.

Lemma msvc_reads args acts :
  msvc_link_actions upper args = Some acts ->
  link_reading upper MsvcLink args (omap m_flag acts) (omap m_input acts) (omap m_output acts).
Proof.
  revert acts. induction args as [|arg args IH]; intros acts; simpl; [intros [= <-]; constructor|].
  destruct (msvc_link_step upper arg) as [a1|] eqn:E1; [|done].
  destruct (msvc_link_actions upper args) as [a2|]; [|done]. intros [= <-]. rewrite !omap_app.
  apply (reading_piece _ _ [arg]); [by apply msvc_link_step_reads|by apply IH].
Qed.
End MsvcReads.

(** ** Outputs *)

Lemma retain_new_spec seen l :
  NoDup (case_key <$> retain_new seen l) /\
  (forall p, p ∈ retain_new seen l -> p ∈ l /\ case_key p ∉ seen) /\
  (forall p, p ∈ l -> case_key p ∉ seen -> case_key p ∈ case_key <$> retain_new seen l).
Proof.
  revert seen. induction l as [|p l IH]; intros seen; simpl.
  { split_and!; [constructor|by intros p ?%elem_of_nil|by intros p ?%elem_of_nil]. }
  destruct (IH ({[case_key p]} ∪ seen)) as (N & A & C). destruct (IH seen) as (N' & A' & C').
  case_bool_decide as Hs; simpl.
  - split_and!; [done|intros q Hq; by destruct (A' q Hq) as [?%(list_elem_of_further q p) ?]|].
    intros q [->|Hq]%elem_of_cons Hn; [done|]. by apply C'.
  - split_and!.
    + constructor; [|done]. intros (q & Hq & Hin)%list_elem_of_fmap. apply A in Hin as [_ Hin]. set_solver.
    + intros q [->|Hq]%elem_of_cons; [by split; [left|]|]. apply A in Hq as [Hq Hn]. split; [by right|set_solver].
    + intros q [->|Hq]%elem_of_cons Hn; [by left|]. destruct (decide (case_key q = case_key p)) as [->|Hne]; [by left|].
      right. apply C; [done|set_solver].
Qed.

(** ** Every argument has a reading *)

Lemma link_result_reads upper tool family step args l :
  ACompileOnly ∉ link_actions step args ->
  (forall arg next, ACompileOnly ∉ (step arg next).1 -> turn_reads upper family arg next (step arg next)) ->
  link_result tool family args (link_loop step args) = LinkCacheable l ->
  exists outputs,
    cl_family l = family /\ link_reading upper family args (cl_cache_relevant_flags l) (cl_input_files l) outputs /\
    cl_input_files l <> [] /\ last outputs = Some (cl_output_file l) /\
    NoDup (case_key <$> cl_secondary_outputs l).
Proof.
  intros Hc Hs. destruct (link_loop_vars step args) as (H1 & H2 & H3 & _). unfold link_result.
  rewrite H1, H2, H3. destruct (last (omap a_output _)) as [o|] eqn:Ho; [|done].
  case_bool_decide as Hi; [done|]. intros [= <-]. simpl.
  eexists. split_and!; [done| |done|exact Ho|apply retain_new_spec].
  by apply (loop_reads upper family step (length args)).
Qed.

Lemma link_actions_Forall (P : LinkAction -> Prop) step args :
  (forall arg next, Forall P (step arg next).1) -> Forall P (link_actions step args).
Proof.
  intros Hs. remember (length args) as n eqn:Hn. revert args Hn.
  induction (lt_wf n) as [n _ IH]; intros [|arg rest] ->; cbn [link_actions]; [constructor|].
  specialize (Hs arg (head rest)). destruct (step arg (head rest)) as [acts two]. simpl in Hs.
  apply Forall_app. split; [done|].
  destruct two, rest as [|v rest]; eapply IH; try reflexivity; simpl; lia.
Qed.

(** Only the drivers know [-c]. *)
Lemma no_compile_only step args :
  step = gnu_ld_step \/ step = dsymutil_step -> ACompileOnly ∉ link_actions step args.
Proof.
  intros Hs. assert (Forall (fun a => a <> ACompileOnly) (link_actions step args)) as Hf.
  { apply link_actions_Forall. intros arg next.
    destruct Hs as [-> | ->]; [unfold gnu_ld_step|unfold dsymutil_step];
      unfold flag_and_value, side_unless_stdout; repeat case_match; repeat constructor; done. }
  rewrite Forall_forall in Hf. intros Hin. by apply (Hf _ Hin).
Qed.

(** The arguments are consecutive pieces whose flags and inputs, in order, are
    those of the result; a used profile of [link.exe] is hashed besides.  The
    output is the last one named, and no side output is declared twice. *)
Definition link_accounted (to_uppercase : bytes -> bytes) (args : list bytes) (l : CacheableLink) : Prop :=
  exists inputs outputs,
    link_reading to_uppercase (cl_family l) args (cl_cache_relevant_flags l) inputs outputs /\ inputs <> [] /\
    (cl_input_files l = inputs \/
     cl_family l = MsvcLink /\ exists profile, cl_input_files l = inputs ++ [profile]) /\
    (forall out, last outputs = Some out -> cl_output_file l = out) /\
    (last outputs = None -> cl_family l = MsvcLink \/ cl_family l = Dsymutil) /\
    NoDup (case_key <$> cl_secondary_outputs l).

Lemma link_result_accounted upper tool family step args l :
  ACompileOnly ∉ link_actions step args ->
  (forall arg next, ACompileOnly ∉ (step arg next).1 -> turn_reads upper family arg next (step arg next)) ->
  link_result tool family args (link_loop step args) = LinkCacheable l -> link_accounted upper args l.
Proof.
  intros Hc Hs Hr. destruct (link_result_reads upper tool family step args l Hc Hs Hr) as (outs & Hf & Hr' & Hi & Ho & Hn).
  exists (cl_input_files l), outs. rewrite Hf, Ho. split_and!; try done; [by left|by intros ? [= ->]].
Qed.

Lemma dsymutil_accounted upper tool args l : parse_dsymutil tool args = LinkCacheable l -> link_accounted upper args l.
Proof.
  unfold parse_dsymutil. destruct (existsb _ _); [done|]. destruct (dsymutil_missing args); [done|].
  destruct (link_loop_vars dsymutil_step args) as (H1 & H2 & H3 & _). rewrite H1, H2, H3.
  destruct (omap a_input _) as [|image [|]] eqn:Hi; [done| |done]. intros [= <-].
  exists [image], (omap a_output (link_actions dsymutil_step args)). cbn.
  split_and!; [|done|by left|by intros o ->|by right|constructor].
  rewrite <- Hi. apply (loop_reads upper Dsymutil dsymutil_step (length args)); [done| |by apply no_compile_only; right].
  intros arg next _. apply dsymutil_step_reads.
Qed.

Lemma msvc_accounted upper tool args l :
  parse_msvc_link upper tool args = Some (LinkCacheable l) -> link_accounted upper args l.
Proof.
  unfold parse_msvc_link. destruct args as [|a args]; [done|].
  destruct (msvc_link_actions upper (a :: args)) as [acts|] eqn:Ha; [|done]. simpl. intros [= Hr]. revert Hr.
  unfold msvc_link_result, pushed, assigned. destruct (omap m_input acts) as [|first more] eqn:Hi; [done|].
  apply msvc_reads in Ha. rewrite Hi in Ha.
  repeat case_match; try done; intros [= <-]; (eexists _, _; cbn; split_and!;
    [exact Ha|done|first [by left|right; split; [done|by eexists]]|by intros out ->|by left|apply retain_new_spec]).
Qed.

(** C32: linker command lines are read without loss.  When a link may be
    cached, its arguments are consecutive pieces, and the flags of the key and
    the hashed inputs are the pieces' flags and inputs in the order of the
    command line; [link.exe] hashes a used profile besides.  What is not keyed is
    the name of the output, which is the last one given, and for a compiler
    driver the operands that do not look like objects.  At least one input is
    hashed, and no side output is declared twice. *)
Theorem link_args_accounted (to_uppercase : bytes -> bytes) (tool : bytes) (args : list bytes) (l : CacheableLink) :
  parse_linker_invocation to_uppercase tool args = Some (LinkCacheable l) -> link_accounted to_uppercase args l.
Proof.
  assert (forall family, parse_gnu_ld tool family args = LinkCacheable l -> link_accounted to_uppercase args l) as Hld.
  { intros family. unfold parse_gnu_ld. destruct args as [|a rest]; [done|].
    apply link_result_accounted; [by apply no_compile_only; left|]. intros ?? _. apply gnu_ld_step_reads. }
  assert (parse_compiler_driver_link tool args = LinkCacheable l -> link_accounted to_uppercase args l) as Hcc.
  { unfold parse_compiler_driver_link. destruct args as [|a rest]; [done|].
    destruct (link_loop_vars driver_step (a :: rest)) as (_ & _ & _ & Hc).
    destruct (has_compile_only _); [done|].
    apply link_result_accounted; [intros Hin; by apply Hc in Hin|]. intros ??. by apply driver_step_reads. }
  unfold parse_linker_invocation. destruct (detect_linker tool) as [[]|].
  - intros [= H]. by apply (Hld Ld).
  - intros [= H]. by apply (Hld Lld).
  - apply msvc_accounted.
  - by intros [= H%Hcc].
  - intros [= H]. by eapply dsymutil_accounted.
  - destruct (is_compiler_driver tool); intros [= H]. by apply Hcc.
Qed.

(** Upper case of ASCII letters, for examples. *)
Fixpoint ascii_upper (s : bytes) : bytes :=
  match s with
  | EmptyString => ""
  | String c s' =>
      let v := byte_val c in
      String (if (97 <=? v) && (v <=? 122) then byte_of (v - 32) else c) (ascii_upper s')
  end.

Definition demo_link_args : list bytes :=
  ["--whole-archive"; "liba.a"; "-z"; "now"; "-T"; "x.ld"; "-Map=app.map"; "-o"; "app"; "main.o"].

Lemma link_args_accounted_witness :
  match parse_linker_invocation ascii_upper "/usr/bin/ld.lld" demo_link_args with
  | Some (LinkCacheable l) =>
      link_accounted ascii_upper demo_link_args l /\ cl_input_files l = ["liba.a"; "x.ld"; "main.o"] /\
      cl_cache_relevant_flags l = ["--whole-archive"; "-z"; "now"; "-T"; "x.ld"; "-Map=app.map"] /\
      cl_secondary_outputs l = ["app.map"] /\ cl_output_file l = "app"
  | _ => False
  end.
Proof.
  destruct (parse_linker_invocation ascii_upper "/usr/bin/ld.lld" demo_link_args) as [[l|]|] eqn:E;
    [|exfalso; revert E; vm_compute; discriminate..].
  split; [exact (link_args_accounted ascii_upper _ _ l E)|]. revert E. vm_compute. by intros [= <-].
Defined.

(** ** Archives *)

Lemma ar_long_options_app n args acc :
  (length args <= n)%nat ->
  exists long, (ar_long_options args acc).1 = acc ++ long /\ args = long ++ (ar_long_options args acc).2.
Proof.
  revert args acc. induction n as [|n IH]; intros [|arg rest] acc Hn; simpl in *;
    try (exists []; simpl; rewrite ?app_nil_r; split; [done|done]); [lia|].
  destruct (starts_with "--" arg); [|exists []; by rewrite app_nil_r].
  destruct rest as [|v rest]; [by exists [arg]|]. destruct (_ && _); simpl in Hn.
  - destruct (IH rest ((acc ++ [arg]) ++ [v])) as (long & -> & Hl); [lia|]. exists (arg :: v :: long).
    split; [by rewrite <- !app_assoc|]. by rewrite Hl at 1.
  - destruct (IH (v :: rest) (acc ++ [arg])) as (long & -> & Hl); [simpl; lia|]. exists (arg :: long).
    split; [by rewrite <- !app_assoc|]. by rewrite Hl at 1.
Qed.

(** An [ar] command line that may be cached is long options, the operation,
    what its modifiers consume, the archive and its members.  The key gets the
    operation without its dash, the long options and the members' contents; what
    the modifiers consume ([relpos], [count]) and the members' names are not
    keyed. *)
Theorem ar_args_accounted (tool : bytes) (family : ArchiverFamily) (args : list bytes) (a : CacheableArchive) :
  parse_gnu_ar tool family args = ArchiveCacheable a ->
  exists long op skipped archive members,
    args = long ++ op :: skipped ++ archive :: members /\ length skipped = ar_skipped (ar_op_str op) /\
    ca_cache_relevant_flags a = ar_op_str op :: long /\ ca_output_file a = NormalizedPath_new archive /\
    ca_input_files a = NormalizedPath_new <$> members /\ members <> [] /\
    (ca_non_deterministic a = true <-> op_has "D" (ar_op_str op) = false) /\
    (op_has "r" (ar_op_str op) = true \/ op_has "q" (ar_op_str op) = true).
Proof.
  unfold parse_gnu_ar. destruct args as [|first rest]; [done|].
  destruct (ar_long_options_app (length (first :: rest)) (first :: rest) [] (le_n _)) as (long & Hlong & Hargs).
  destruct (ar_long_options (first :: rest) []) as [lf [|op tail]]; [done|]. simpl in Hlong, Hargs. subst lf.
  destruct (ar_refused (ar_op_str op)) eqn:Hr; [done|].
  destruct (drop (ar_skipped (ar_op_str op)) tail) as [|archive members] eqn:Hd; [done|].
  destruct members as [|m ms]; [done|]. intros [= <-].
  exists long, op, (take (ar_skipped (ar_op_str op)) tail), archive, (m :: ms). simpl. split_and!; try done.
  - by rewrite Hargs, <- Hd, take_drop.
  - apply length_take_le. assert (length (drop (ar_skipped (ar_op_str op)) tail) = S (S (length ms))) as Hl by by rewrite Hd.
    rewrite length_drop in Hl. lia.
  - destruct (op_has "D" _); done.
  - unfold ar_refused in Hr. repeat case_match; try done.
    destruct (op_has "r" _), (op_has "q" _); auto.
Qed.

Lemma ar_args_accounted_witness :
  match parse_gnu_ar "ar" Ar ["--plugin"; "lto.so"; "-rcaD"; "old.o"; "libx.a"; "new.o"] with
  | ArchiveCacheable a =>
      (exists long op skipped archive members,
        ["--plugin"; "lto.so"; "-rcaD"; "old.o"; "libx.a"; "new.o"] = long ++ op :: skipped ++ archive :: members /\
        length skipped = ar_skipped (ar_op_str op) /\
        ca_cache_relevant_flags a = ar_op_str op :: long /\ ca_output_file a = NormalizedPath_new archive /\
        ca_input_files a = NormalizedPath_new <$> members /\ members <> [] /\
        (ca_non_deterministic a = true <-> op_has "D" (ar_op_str op) = false) /\
        (op_has "r" (ar_op_str op) = true \/ op_has "q" (ar_op_str op) = true)) /\
      ca_input_files a = ["new.o"]
  | _ => False
  end.
Proof.
  destruct (parse_gnu_ar "ar" Ar ["--plugin"; "lto.so"; "-rcaD"; "old.o"; "libx.a"; "new.o"]) as [a|] eqn:E;
    [|revert E; vm_compute; discriminate].
  split; [exact (ar_args_accounted _ _ _ a E)|]. revert E. vm_compute. by intros [= <-].
Defined.

(** ** The search for a formatter's configuration *)

(** Components in the order [Path] can have them survive their text. *)
Lemma components_collect_app start cs :
  components (collect_path start) = start -> Forall (fun c => comp_ok c = true) cs ->
  components (collect_path (start ++ cs)) = start ++ cs.
Proof.
  intros Hs. induction cs as [|c cs IH] using rev_ind; [by rewrite app_nil_r|].
  intros [Hcs [Hc _]%Forall_cons]%Forall_app. rewrite app_assoc. unfold collect_path. rewrite fold_left_app. simpl.
  rewrite components_push by done. f_equal. exact (IH Hcs).
Qed.

Lemma components_parent dir p : path_parent dir = Some p -> components p = removelast (components dir).
Proof.
  unfold path_parent. intros Hp. assert (p = collect_path (removelast (components dir)) /\ components dir <> [RootDir] /\
    components dir <> []) as (-> & Hroot & Hne).
  { destruct (last (components dir)) as [[]|] eqn:Hl; try done; injection Hp as <-; split_and!; try done;
      intros E; by rewrite E in Hl. }
  destruct (components_shape dir) as (cs & Hcs & Hd). destruct (decide (cs = [])) as [->|Hn].
  { destruct Hd as [Hd|[Hd|Hd]]; rewrite Hd in *; try done. }
  destruct (exists_last Hn) as (ini & c & ->). apply Forall_app in Hcs as [Hini _].
  destruct Hd as [-> | [-> | ->]]; rewrite ?app_comm_cons, removelast_last.
  - by apply (components_collect_app [RootDir]).
  - by apply (components_collect_app [CurDir]).
  - by apply (components_collect_app []).
Qed.

(** The directories [Path::ancestors] lists, nearest first. *)
Fixpoint dirs_above (fuel : nat) (dir : bytes) : list bytes :=
  dir :: match fuel, path_parent dir with
         | S fuel', Some parent => dirs_above fuel' parent
         | _, _ => []
         end.

Definition config_names (dir : bytes) : list NormalizedPath :=
  [np_join (NormalizedPath_new dir) "rustfmt.toml"; np_join (NormalizedPath_new dir) ".rustfmt.toml"].

(** The search gives the nearest configuration, [rustfmt.toml] before
    [.rustfmt.toml] in a directory, and looks through all directories up to one
    without a parent. *)
Theorem find_rustfmt_config_nearest (exists_ : bytes -> bool) (start_dir : bytes) :
  let dirs := dirs_above (length (components start_dir)) start_dir in
  find_rustfmt_config exists_ start_dir = List.find exists_ (flat_map config_names dirs) /\
  (exists top, last dirs = Some top /\ path_parent top = None).
Proof.
  unfold find_rustfmt_config. remember (length (components start_dir)) as n eqn:Hn. split.
  - clear Hn. revert start_dir. induction n as [|n IH]; intros dir; simpl;
      (destruct (exists_ _); [done|]; destruct (exists_ _); [done|]); [done|].
    destruct (path_parent dir); [|done]. by rewrite IH.
  - assert (length (components start_dir) <= n)%nat as Hle by lia. clear Hn. revert start_dir Hle.
    induction n as [|n IH]; intros dir Hle; simpl; destruct (path_parent dir) as [p|] eqn:Hp; try by eauto.
    + exfalso. unfold path_parent in Hp. destruct (components dir); [done|simpl in Hle; lia].
    + destruct (IH p) as (top & Ht & Hnone).
      { rewrite (components_parent _ _ Hp). destruct (decide (components dir = [])) as [->|Hne]; [simpl; lia|].
        destruct (exists_last Hne) as (ini & c & E). rewrite E in *. rewrite removelast_last.
        rewrite length_app in Hle. simpl in Hle. lia. }
      exists top. split; [|done]. by destruct n; simpl in *; destruct (path_parent p).
Qed.
