(* ===== verification/RequestKeys.v ===== *)
(** * Request keys ([daemon/server/keys.rs])

    What identifies a compile request before anything of it is parsed: the
    worktree it belongs to, the arguments the daemon adds so that outputs do not
    name that worktree, the arguments rewritten relative to it, and the
    fingerprint over all of that; besides the paths an entry of the request
    cache keeps ([request_cache.rs]) and rustc's remap arguments ([rustc.rs]).

    The theorems say when two checkouts of one tree share a request, and that
    the arguments added cover what the cache key then leaves out. *)

From stdpp Require Import list strings gmap.
From Stdlib Require Import Lia.
From S2P Require Import Prelude Path Hash RustStr KeyEnv ContextKeys RequestFingerprint Detect CcContext.

Definition WORKTREE_ROOT_ENV : bytes := "ZCCACHE_WORKTREE_ROOT".
Definition PATH_REMAP_ENV : bytes := "ZCCACHE_PATH_REMAP".
Definition REQUEST_ROOT_MARKER : bytes := "$ZCCACHE_WORKTREE_ROOT".
Definition DYLINT_LIBS_ENV : bytes := "DYLINT_LIBS".

Definition first_value (env : EnvList) (name : bytes) : option bytes :=
  snd <$> List.find (fun e => bool_decide (e.1 = name)) env.

Definition rustc_env_dep_value (client_env : option EnvList) (name : bytes) : option bytes :=
  env ← client_env;
  match (if bool_decide (name = DYLINT_LIBS_ENV) then first_value env DYLINT_CACHE_INPUT_HASH_ENV else None) with
  | Some value => Some value
  | None => first_value env name
  end.

(** ** The worktree of a request *)

Definition path_remap_auto_enabled (client_env : option EnvList) : bool :=
  match client_env_value client_env PATH_REMAP_ENV with
  | Some value => eq_ignore_ascii_case value "auto"
  | None => false
  end.

Definition diag_path_remap_state (client_env : option EnvList) (worktree_root_resolved : bool) : bytes :=
  if path_remap_auto_enabled client_env then if worktree_root_resolved then "auto" else "auto_no_git" else "off".

Section Worktree.
Context (is_dir is_file : bytes -> bool).

(** [cwd.ancestors()] with a [.git] in it, nearest first; the number of
    components bounds the walk. *)
Fixpoint find_git_root_from (fuel : nat) (candidate : bytes) : option NormalizedPath :=
  let dot_git := path_push candidate ".git" in
  if is_dir dot_git || is_file dot_git then Some (NormalizedPath_new candidate)
  else match fuel, path_parent candidate with
  | S fuel', Some parent => find_git_root_from fuel' parent
  | _, _ => None
  end.

Definition find_git_root (cwd : bytes) : option NormalizedPath :=
  find_git_root_from (length (components cwd)) cwd.

Definition resolve_worktree_root (cwd : bytes) (client_env : option EnvList) : option NormalizedPath :=
  match client_env_value client_env WORKTREE_ROOT_ENV with
  | Some configured =>
      let root := if has_root configured then configured else path_push cwd configured in
      if is_dir root then Some (NormalizedPath_new root) else find_git_root cwd
  | None => find_git_root cwd
  end.

Record SessionWorktreeRoot := mkSessionRoot { swr_working_dir : NormalizedPath; swr_root : option NormalizedPath }.

(** What the session's cached root answers: [None] when it does not apply. *)
Definition session_root_answer (cached : option SessionWorktreeRoot) (cwd_normalized : NormalizedPath)
    (client_env : option EnvList) : option (option NormalizedPath) :=
  c ← cached;
  match swr_root c with
  | Some root => if np_starts_with cwd_normalized root then Some (Some root) else None
  | None =>
      if np_starts_with cwd_normalized (swr_working_dir c) && negb (path_remap_auto_enabled client_env)
      then Some None else None
  end.

Definition compile_worktree_root (cached : option SessionWorktreeRoot) (cwd : bytes) (client_env : option EnvList) :
    option NormalizedPath :=
  match client_env_value client_env WORKTREE_ROOT_ENV with
  | Some _ => resolve_worktree_root cwd client_env
  | None =>
      let cwd_normalized := NormalizedPath_new cwd in
      match session_root_answer cached cwd_normalized client_env with
      | Some answer => answer
      | None =>
          match resolve_worktree_root cwd client_env with
          | Some root => Some root
          | None => if path_remap_auto_enabled client_env then Some cwd_normalized else None
          end
      end
  end.
End Worktree.

(** ** Paths relative to the worktree *)

Definition normalize_path_for_request_key (path : bytes) (key_root : option bytes) : bytes :=
  match key_root ≫= path_strip_prefix path with
  | Some relative =>
      let relative := normalize_for_key relative in
      if bool_decide (relative = "") then REQUEST_ROOT_MARKER else REQUEST_ROOT_MARKER +:+ "/" +:+ relative
  | None => normalize_for_key path
  end.

Definition normalize_request_path_value (value : bytes) (key_root : option bytes) : option bytes :=
  if has_root value then Some (normalize_path_for_request_key value key_root) else None.

Definition normalize_rust_remap_path_prefix_value_for_key (value : bytes) (key_root : option bytes) : option bytes :=
  '(old, new) ← split_once "=" value;
  normalized_old ← normalize_request_path_value old key_root;
  Some (normalized_old +:+ "=" +:+ new).

Definition CC_PREFIX_MAP_FLAGS : list bytes :=
  ["-ffile-prefix-map"; "-fmacro-prefix-map"; "-fdebug-prefix-map"; "-fcoverage-prefix-map"; "-fprofile-prefix-map"].

(** The first flag that matches with two [=] behind it. *)
Fixpoint split_prefix_map_among (flags : list bytes) (arg : bytes) : option (bytes * bytes * bytes) :=
  match flags with
  | [] => None
  | flag :: rest =>
      match (rest_ ← strip_prefix flag arg; value ← strip_prefix "=" rest_; split_once "=" value) with
      | Some (old, new) => Some (flag, old, new)
      | None => split_prefix_map_among rest arg
      end
  end.

Definition split_cc_prefix_map_arg (arg : bytes) : option (bytes * bytes * bytes) :=
  split_prefix_map_among CC_PREFIX_MAP_FLAGS arg.

Definition normalize_cc_prefix_map_arg_for_key (arg : bytes) (key_root : option bytes) : option bytes :=
  '(flag, old, new) ← split_cc_prefix_map_arg arg;
  normalized_old ← normalize_request_path_value old key_root;
  Some (flag +:+ "=" +:+ normalized_old +:+ "=" +:+ new).

Definition same_key_path (left right : bytes) : bool := bool_decide (normalize_for_key left = normalize_for_key right).

Definition has_cc_prefix_map_for_old (args : list bytes) (target_flag old : bytes) : bool :=
  existsb (fun arg =>
    match split_cc_prefix_map_arg arg with
    | Some (flag, existing_old, _) => bool_decide (flag = target_flag) && same_key_path existing_old old
    | None => false
    end) args.

Definition compiler_supports_ffile_prefix_map (compiler_path : bytes) : bool :=
  match detect_family (from_utf8_lossy compiler_path) with Clang | Gcc => true | _ => false end.

(** ** Which artifacts stay with their worktree *)

Definition requires_worktree_in_key (f : CompilerFamily) (mode : SourceMode) : bool :=
  match f, mode with Detect.Msvc, _ | _, ModeHeader => true | _, _ => false end.

Definition AUTO_PREFIX_MAP_FLAGS : list bytes := ["-ffile-prefix-map"; "-fmacro-prefix-map"; "-fdebug-prefix-map"].

Definition cc_prefix_maps_cover_root (args : list bytes) (root : bytes) : bool :=
  forallb (fun flag => has_cc_prefix_map_for_old args flag root) AUTO_PREFIX_MAP_FLAGS.

Definition cc_requires_worktree_salt (f : CompilerFamily) (mode : SourceMode) (args : list bytes) (root : bytes) : bool :=
  requires_worktree_in_key f mode ||
  (match f with Gcc | Clang => true | _ => false end && negb (cc_prefix_maps_cover_root args root)).

(** ** rustc's remap arguments ([rustc.rs]) *)

Definition rust_remap_value_matches_old (value old : bytes) : bool :=
  match split_once "=" value with
  | Some (existing_old, _) => has_root existing_old && same_key_path existing_old old
  | None => false
  end.

Definition rust_remap_values_have_old (values : list bytes) (old : bytes) : bool :=
  existsb (fun value => rust_remap_value_matches_old value old) values.

Fixpoint rust_args_have_remap_for_old (args : list bytes) (old : bytes) : bool :=
  match args with
  | [] => false
  | arg :: rest =>
      if bool_decide (arg = "--remap-path-prefix") then
        match rest with
        | value :: rest' => rust_remap_value_matches_old value old || rust_args_have_remap_for_old rest' old
        | [] => false
        end
      else
        match strip_prefix "--remap-path-prefix=" arg with
        | Some value => rust_remap_value_matches_old value old
        | None => false
        end || rust_args_have_remap_for_old rest old
  end.

Definition compiler_is_rustc_like (compiler_path : bytes) : bool :=
  bool_decide (detect_family (from_utf8_lossy compiler_path) = Rustc).

Definition rustc_request_key_root (args : list bytes) (worktree_root : option NormalizedPath) : option NormalizedPath :=
  root ← worktree_root; if rust_args_have_remap_for_old args root then Some root else None.

Definition rustc_context_key_root (remap_path_prefixes : list bytes) (worktree_root : option NormalizedPath) :
    option NormalizedPath :=
  root ← worktree_root; if rust_remap_values_have_old remap_path_prefixes root then Some root else None.

Inductive RustRemapGate := RemapOk | RemapMissing | RemapOldOutsideRoot | RemapMalformed.

Fixpoint rust_remap_gate_loop (values : list bytes) (root_key : bytes) (saw_malformed saw_external : bool) : RustRemapGate :=
  match values with
  | [] => if saw_malformed then RemapMalformed else if saw_external then RemapOldOutsideRoot else RemapMissing
  | value :: rest =>
      match split_once "=" value with
      | None => rust_remap_gate_loop rest root_key true saw_external
      | Some (old, _) =>
          if negb (has_root old) then rust_remap_gate_loop rest root_key true saw_external
          else
            let old_key := normalize_for_key old in
            if bool_decide (old_key = root_key) then RemapOk
            else rust_remap_gate_loop rest root_key saw_malformed
                   (saw_external || negb (starts_with (root_key +:+ "/") old_key))
      end
  end.

Definition rust_remap_gate (remap_path_prefixes : list bytes) (worktree_root : option NormalizedPath) : RustRemapGate :=
  match worktree_root with
  | None => RemapMissing
  | Some root => rust_remap_gate_loop remap_path_prefixes (normalize_for_key root) false false
  end.

Definition request_key_root (compiler_path : bytes) (args : list bytes) (worktree_root : option NormalizedPath) :
    option NormalizedPath :=
  if compiler_is_rustc_like compiler_path then rustc_request_key_root args worktree_root else worktree_root.

(** ** The arguments the daemon runs *)

(** The maps still missing for a root and, when it is another directory, for
    the working directory. *)
Definition missing_maps (args : list bytes) (old : bytes) : list bytes :=
  map (fun flag => flag +:+ "=" +:+ from_utf8_lossy old +:+ "=.")
    (filter (fun flag => has_cc_prefix_map_for_old args flag old = false) AUTO_PREFIX_MAP_FLAGS).

Definition effective_compile_args (expanded_args : list bytes) (compiler_path cwd : bytes)
    (worktree_root : option NormalizedPath) (client_env : option EnvList) : list bytes :=
  if negb (path_remap_auto_enabled client_env) then expanded_args
  else match worktree_root with
  | None => expanded_args
  | Some root =>
      let remap := ["--remap-path-prefix"; from_utf8_lossy root +:+ "=."] in
      if compiler_is_rustc_like compiler_path then
        if rust_args_have_remap_for_old expanded_args root then expanded_args
        else if is_dylint_driver (from_utf8_lossy compiler_path) then
          match expanded_args with
          | [] => expanded_args
          | inner :: rest => inner :: remap ++ rest
          end
        else remap ++ expanded_args
      else if negb (compiler_supports_ffile_prefix_map compiler_path) then expanded_args
      else
        missing_maps expanded_args root ++
        (if same_key_path root cwd then [] else missing_maps expanded_args cwd) ++ expanded_args
  end.

(** ** The fingerprint *)

Definition normalize_request_arg (arg : bytes) (key_root : option bytes) : bytes :=
  match key_root with
  | None => arg
  | Some root =>
      match normalize_cc_prefix_map_arg_for_key arg (Some root) with
      | Some normalized => normalized
      | None =>
      match strip_prefix "--remap-path-prefix=" arg with
      | Some value =>
          match normalize_rust_remap_path_prefix_value_for_key value (Some root) with
          | Some normalized => "--remap-path-prefix=" +:+ normalized
          | None => arg
          end
      | None =>
      match normalize_request_path_value arg (Some root) with
      | Some normalized => normalized
      | None =>
      let joined flag :=
        match strip_prefix flag arg with
        | Some rest => if bool_decide (rest = "") then None else (fun n => flag +:+ n) <$> normalize_request_path_value rest (Some root)
        | None => None
        end in
      match joined "-I" with
      | Some normalized => normalized
      | None =>
      match joined "-L" with
      | Some normalized => normalized
      | None =>
      match split_once "=" arg with
      | Some (lhs, rhs) =>
          match normalize_request_path_value lhs (Some root) with
          | Some normalized_left => normalized_left +:+ "=" +:+ rhs
          | None =>
              match normalize_request_path_value rhs (Some root) with
              | Some normalized_right => lhs +:+ "=" +:+ normalized_right
              | None => arg
              end
          end
      | None => arg
      end end end end end end
  end.

(** The iterator over the arguments; [remap_value] after [--remap-path-prefix]. *)
Fixpoint normalize_request_args (remap_value : bool) (args : list bytes) (key_root : option bytes) : list bytes :=
  match args with
  | [] => []
  | arg :: rest =>
      if remap_value then
        default arg (normalize_rust_remap_path_prefix_value_for_key arg key_root) :: normalize_request_args false rest key_root
      else if bool_decide (arg = "--remap-path-prefix") then arg :: normalize_request_args true rest key_root
      else normalize_request_arg arg key_root :: normalize_request_args false rest key_root
  end.

(** [Vec::dedup]. *)
Fixpoint dedup_pairs (l : list (bytes * bytes)) : list (bytes * bytes) :=
  match l with
  | a :: rest => match rest with
                 | b :: _ => if bool_decide (a = b) then dedup_pairs rest else a :: dedup_pairs rest
                 | [] => [a]
                 end
  | [] => []
  end.

Definition request_env_fingerprint_vars (client_env : option EnvList) (compiler : bytes) (args : list bytes) : EnvList :=
  let env := default [] client_env in
  let cargo := bool_decide (detect_family compiler = Rustc) &&
    (negb (is_plain_rustc compiler) || negb (argv_emits_dep_info args) || argv_may_load_proc_macro args) in
  let vars := List.filter (fun e =>
    (cargo && is_conservatively_keyed_cargo_env e.1) || bool_decide (e.1 ∈ REQUEST_CONTROL_ENV_KEYED)) env in
  dedup_pairs (sort_pairs (vars ++ keyed_cc_env env AnyScope ++ keyed_rustc_env_superset env ++ keyed_locale_env env)).

(** The stream hasher gets what [emit_request_fingerprint] emits. *)
Definition request_fingerprint {B3 : Blake3} (compiler : bytes) (args : list bytes) (cwd : bytes)
    (key_root : option bytes) (client_env : option EnvList) : ContentHash :=
  let compiler := normalize_for_key compiler in
  let emitted := emit_request_fingerprint (E := Empty_set) (fun fragment s => (inr tt, s +:+ fragment))
    compiler (normalize_request_args false args key_root) args
    (normalize_path_for_request_key cwd key_root) (request_env_fingerprint_vars client_env compiler args) "" in
  blake3 (match emitted with Some (_, s, _) => s | None => "" end).

(** [Vec::dedup] of sorted paths, by their keys. *)
Fixpoint dedup_after (p : NormalizedPath) (l : list NormalizedPath) : list NormalizedPath :=
  match l with
  | [] => [p]
  | q :: rest => if bool_decide (case_key p = case_key q) then dedup_after p rest else p :: dedup_after q rest
  end.
Definition dedup_paths (l : list NormalizedPath) : list NormalizedPath :=
  match l with [] => [] | p :: rest => dedup_after p rest end.

(** ** Entries of the request cache ([request_cache.rs]) *)

Inductive CachedRequestPath := RootRelative (relative : NormalizedPath) | AbsolutePath (path : NormalizedPath).

Definition capture (path : bytes) (key_root : option bytes) : CachedRequestPath :=
  match key_root ≫= path_strip_prefix path with
  | Some relative => RootRelative (NormalizedPath_new relative)
  | None => AbsolutePath (NormalizedPath_new path)
  end.

Definition resolve_cached (self : CachedRequestPath) (key_root : option bytes) : NormalizedPath :=
  match self, key_root with
  | RootRelative relative, Some root => NormalizedPath_new (path_push root relative)
  | RootRelative relative, None | AbsolutePath relative, _ => relative
  end.

Definition is_root_relative (self : CachedRequestPath) : bool :=
  match self with RootRelative _ => true | AbsolutePath _ => false end.

Record RequestCacheEntry := mkRequestEntry {
  re_context_key : ContextKey;
  re_root : option NormalizedPath;
  re_source_path : CachedRequestPath;
  re_output_path : CachedRequestPath;
  re_depfile_path : option CachedRequestPath;
  re_input_paths : list CachedRequestPath;
  re_cross_root_shareable : bool;
  re_test_harness : bool;
  re_cached_at : Z;
}.

Definition request_cache_entry (now : Z) (context_key : ContextKey) (source_path output_path : NormalizedPath)
    (depfile_path : option NormalizedPath) (input_paths : list NormalizedPath) (key_root : option NormalizedPath)
    (worktree_bound : bool) : RequestCacheEntry :=
  let source := capture source_path key_root in
  let output := capture output_path key_root in
  let depfile := (fun p => capture p key_root) <$> depfile_path in
  let inputs := map (fun p => capture p key_root) input_paths in
  let shareable :=
    negb worktree_bound && bool_decide (is_Some key_root) && is_root_relative source && is_root_relative output &&
    match depfile with Some d => is_root_relative d | None => true end && forallb is_root_relative inputs in
  mkRequestEntry context_key key_root source output depfile inputs shareable false now.

Definition for_test_harness (self : RequestCacheEntry) (test_harness : bool) : RequestCacheEntry :=
  mkRequestEntry (re_context_key self) (re_root self) (re_source_path self) (re_output_path self) (re_depfile_path self)
    (re_input_paths self) (re_cross_root_shareable self) test_harness (re_cached_at self).

Definition request_cache_entry_matches_root (entry : RequestCacheEntry) (key_root : option NormalizedPath) : bool :=
  bool_decide (re_root entry = key_root) ||
  (re_cross_root_shareable entry && bool_decide (is_Some (re_root entry)) && bool_decide (is_Some key_root)).

(** The loop returns at the first path that is not relative. *)
Fixpoint resolve_relative (paths : list CachedRequestPath) (root : NormalizedPath) : option (list NormalizedPath) :=
  match paths with
  | [] => Some []
  | p :: rest => if is_root_relative p then cons (resolve_cached p (Some root)) <$> resolve_relative rest root else None
  end.

Definition request_cache_resolved_inputs (entry : RequestCacheEntry) (root : NormalizedPath) : option (list NormalizedPath) :=
  if re_cross_root_shareable entry then resolve_relative (re_input_paths entry) root else None.

(** ** A path below a root *)

Definition below (root rel : bytes) : bytes := root +:+ "/" +:+ rel.

Lemma components_below root rel :
  has_root root = true -> components (below root rel) = components root ++ omap piece_component (split_slash rel).
Proof.
  intros Hr. unfold components, below. rewrite (has_root_app root) by (destruct root; done). rewrite Hr.
  change (root +:+ "/" +:+ rel) with (root +:+ "/" +:+ rel). rewrite split_slash_sep, omap_app. by rewrite app_assoc.
Qed.

Lemma strip_below root rel :
  has_root root = true ->
  path_strip_prefix (below root rel) root = Some (collect_path (omap piece_component (split_slash rel))).
Proof. intros Hr. unfold path_strip_prefix. by rewrite components_below, strip_components_app. Qed.

(** How the path is spelled in a key: the root is not in it. *)
Definition spelled_below (rel : bytes) : bytes :=
  let relative := normalize_for_key (collect_path (omap piece_component (split_slash rel))) in
  if bool_decide (relative = "") then REQUEST_ROOT_MARKER else REQUEST_ROOT_MARKER +:+ "/" +:+ relative.

Lemma request_path_below root rel :
  has_root root = true -> normalize_path_for_request_key (below root rel) (Some root) = spelled_below rel.
Proof. intros Hr. unfold normalize_path_for_request_key. simpl. by rewrite strip_below. Qed.

Lemma has_root_below root rel : has_root root = true -> has_root (below root rel) = true.
Proof. unfold below. destruct root as [|c root]; simpl; done. Qed.

Lemma request_value_below root rel :
  has_root root = true -> normalize_request_path_value (below root rel) (Some root) = Some (spelled_below rel).
Proof. intros Hr. unfold normalize_request_path_value. by rewrite has_root_below, request_path_below. Qed.

(** ** Arguments of a checkout *)

(** An argument that does not name the root, one with a path below it behind an
    option, and a prefix map of such a path. *)
Inductive ArgShape :=
  | Fixed (arg : bytes)
  | Below (option rel : bytes)
  | Mapped (flag rel new : bytes).

Definition render (root : bytes) (s : ArgShape) : bytes :=
  match s with
  | Fixed arg => arg
  | Below option rel => option +:+ below root rel
  | Mapped flag rel new => flag +:+ "=" +:+ below root rel +:+ "=" +:+ new
  end.

Definition PATH_OPTIONS : list bytes := [""; "-I"; "-L"; "--sysroot="; "-fprofile-use="; "-fmodule-file="].

Definition no_path (o : option bytes) : bool := match o with Some s => negb (has_root s) | None => true end.

(** No reading of the argument gives an absolute path. *)
Definition names_no_path (arg : bytes) : bool :=
  negb (has_root arg) && no_path (strip_prefix "-I" arg) && no_path (strip_prefix "-L" arg) &&
  match split_once "=" arg with Some (lhs, rhs) => negb (has_root lhs) && negb (has_root rhs) | None => true end &&
  match split_cc_prefix_map_arg arg with Some (_, old, _) => negb (has_root old) | None => true end &&
  negb (starts_with "--remap-path-prefix" arg).

Definition shape_ok (s : ArgShape) : bool :=
  match s with
  | Fixed arg => names_no_path arg && negb (is_depfile_flag arg)
  | Below option _ => bool_decide (option ∈ PATH_OPTIONS)
  | Mapped flag rel _ => bool_decide (flag ∈ CC_PREFIX_MAP_FLAGS) && no_equals rel
  end.

Definition root_ok (root : bytes) : bool := has_root root && no_equals root.

Definition shape_key (s : ArgShape) : bytes :=
  match s with
  | Fixed arg => arg
  | Below option rel => option +:+ spelled_below rel
  | Mapped flag rel new => flag +:+ "=" +:+ spelled_below rel +:+ "=" +:+ new
  end.

Lemma split_once_no_equals a b : no_equals a = true -> split_once "=" (a +:+ String "=" b) = Some (a, b).
Proof.
  induction a as [|c a IH]; simpl; [done|]. intros [Hc Ha]%andb_true_iff.
  destruct (bool_decide (c = "="%char)); [done|]. by rewrite IH.
Qed.

Lemma no_equals_app a b : no_equals (a +:+ b) = no_equals a && no_equals b.
Proof. induction a as [|c a IH]; simpl; [done|]. by rewrite IH, andb_assoc. Qed.

Lemma no_equals_below root rel : root_ok root = true -> no_equals rel = true -> no_equals (below root rel) = true.
Proof.
  intros [_ Hr]%andb_true_iff Hrel. unfold below. rewrite !no_equals_app, Hr, Hrel. done.
Qed.

Lemma root_ok_root root : root_ok root = true -> has_root root = true.
Proof. by intros [? _]%andb_true_iff. Qed.

Lemma no_value s root : has_root s = false -> normalize_request_path_value s (Some root) = None.
Proof. unfold normalize_request_path_value. by intros ->. Qed.

Lemma no_joined_value o root (k : bytes -> bytes) :
  no_path o = true ->
  match o with
  | Some rest => if bool_decide (rest = "") then None else k <$> normalize_request_path_value rest (Some root)
  | None => None
  end = None.
Proof. destruct o as [s|]; simpl; [|done]. intros Hs%negb_true_iff. by rewrite no_value; [case_bool_decide|]. Qed.

Lemma names_no_path_key arg root : names_no_path arg = true -> normalize_request_arg arg (Some root) = arg.
Proof.
  unfold names_no_path. rewrite !andb_true_iff, !negb_true_iff. intros (((((Ha & HI) & HL) & He) & Hm) & Hr).
  unfold normalize_request_arg.
  assert (normalize_cc_prefix_map_arg_for_key arg (Some root) = None) as ->.
  { unfold normalize_cc_prefix_map_arg_for_key. destruct (split_cc_prefix_map_arg arg) as [[[flag old] new]|]; [|done].
    apply negb_true_iff in Hm. simpl. by rewrite no_value. }
  assert (strip_prefix "--remap-path-prefix=" arg = None) as ->.
  { destruct (strip_prefix "--remap-path-prefix=" arg) as [r|] eqn:E; [|done]. apply strip_prefix_Some in E.
    subst arg. by vm_compute in Hr. }
  rewrite (no_value arg root Ha), (no_joined_value _ root _ HI), (no_joined_value _ root _ HL).
  destruct (split_once "=" arg) as [[lhs rhs]|]; [|done].
  apply andb_true_iff in He as [Hl%negb_true_iff Hrr%negb_true_iff]. by rewrite !no_value.
Qed.

(** The slash a root starts with. *)
Lemma below_slash root rel : has_root root = true -> exists s, below root rel = String "/" s.
Proof.
  intros Hr. destruct root as [|c root]; [done|]. simpl in Hr. apply bool_decide_eq_true in Hr as ->. by eexists.
Qed.

Lemma mapped_key root flag rel new :
  root_ok root = true -> flag ∈ CC_PREFIX_MAP_FLAGS -> no_equals rel = true ->
  normalize_cc_prefix_map_arg_for_key (render root (Mapped flag rel new)) (Some root) =
    Some (shape_key (Mapped flag rel new)).
Proof.
  intros Hr Hf Hrel. pose proof (no_equals_below root rel Hr Hrel) as Hb. apply root_ok_root in Hr.
  assert (split_cc_prefix_map_arg (flag +:+ String "=" (below root rel +:+ String "=" new)) =
            Some (flag, below root rel, new)) as Hs.
  { pose proof (split_once_no_equals _ new Hb) as Ho. unfold split_cc_prefix_map_arg.
    unfold CC_PREFIX_MAP_FLAGS in Hf. rewrite !elem_of_cons, elem_of_nil in Hf. destruct Hf as [-> |[-> |[-> |[-> |[-> |[]]]]]]; simpl;
      by rewrite Ho. }
  unfold normalize_cc_prefix_map_arg_for_key. simpl. 
  change (flag +:+ "=" +:+ below root rel +:+ "=" +:+ new) with (flag +:+ String "=" (below root rel +:+ String "=" new)).
  rewrite Hs. simpl. by rewrite request_value_below.
Qed.

Lemma shape_key_spec root s :
  root_ok root = true -> shape_ok s = true -> normalize_request_arg (render root s) (Some root) = shape_key s.
Proof.
  intros Hroot Hs. pose proof (root_ok_root _ Hroot) as Hr. destruct s as [arg|o rel|flag rel new]; simpl in Hs.
  - apply andb_true_iff in Hs as [Hs _]. by apply names_no_path_key.
  - apply bool_decide_eq_true in Hs. pose proof (request_path_below root rel Hr) as Hv.
    destruct (below_slash root rel Hr) as [t Ht]. simpl. unfold normalize_request_arg.
    unfold PATH_OPTIONS in Hs. rewrite !elem_of_cons, elem_of_nil in Hs. rewrite Ht in *.
    destruct Hs as [-> |[-> |[-> |[-> |[-> |[-> |[]]]]]]]; lazy -[normalize_path_for_request_key spelled_below]; by rewrite ?Hv.
  - apply andb_true_iff in Hs as [Hf%bool_decide_eq_true Hrel]. unfold normalize_request_arg.
    by rewrite (mapped_key root flag rel new).
Qed.

Lemma normalize_shapes root shapes :
  root_ok root = true -> Forall (fun s => shape_ok s = true) shapes ->
  normalize_request_args false (map (render root) shapes) (Some root) = map shape_key shapes.
Proof.
  intros Hroot Hs. induction Hs as [|s shapes Hs Hss IH]; cbn [map normalize_request_args]; [done|].
  rewrite bool_decide_eq_false_2; [by rewrite shape_key_spec, IH|].
  pose proof (root_ok_root _ Hroot) as Hr. destruct (below_slash root "" Hr) as [t Ht].
  destruct s as [arg|o rel|flag rel new]; simpl in *; intros Heq.
  - subst arg. by vm_compute in Hs.
  - apply bool_decide_eq_true in Hs. destruct (below_slash root rel Hr) as [t' Ht'].
    unfold PATH_OPTIONS in Hs. rewrite !elem_of_cons, elem_of_nil in Hs. rewrite Ht' in Heq.
    by destruct Hs as [-> |[-> |[-> |[-> |[-> |[-> |[]]]]]]].
  - apply andb_true_iff in Hs as [Hf%bool_decide_eq_true _].
    unfold CC_PREFIX_MAP_FLAGS in Hf. rewrite !elem_of_cons, elem_of_nil in Hf.
    by destruct Hf as [-> |[-> |[-> |[-> |[-> |[]]]]]].
Qed.

Lemma shapes_no_depfile root shapes :
  root_ok root = true -> Forall (fun s => shape_ok s = true) shapes ->
  existsb is_depfile_flag (map (render root) shapes) = false.
Proof.
  intros Hroot Hs. pose proof (root_ok_root _ Hroot) as Hr. induction Hs as [|s shapes Hs Hss IH]; simpl; [done|].
  rewrite IH, orb_false_r. destruct s as [arg|o rel|flag rel new]; simpl in *.
  - apply andb_true_iff in Hs as [_ Hs]. by apply negb_true_iff.
  - apply bool_decide_eq_true in Hs. destruct (below_slash root rel Hr) as [t' Ht']. rewrite Ht'.
    unfold PATH_OPTIONS in Hs. rewrite !elem_of_cons, elem_of_nil in Hs. unfold is_depfile_flag.
    destruct Hs as [-> |[-> |[-> |[-> |[-> |[-> |[]]]]]]]; by rewrite !bool_decide_eq_false_2 by done.
  - apply andb_true_iff in Hs as [Hf%bool_decide_eq_true _].
    unfold CC_PREFIX_MAP_FLAGS in Hf. rewrite !elem_of_cons, elem_of_nil in Hf. unfold is_depfile_flag.
    destruct Hf as [-> |[-> |[-> |[-> |[-> |[]]]]]]; by rewrite !bool_decide_eq_false_2 by done.
Qed.

(** The hasher's input is the protocol's bytes. *)
Lemma emit_all_append fragments s :
  emit_all (E := Empty_set) (fun fragment s => (inr tt, s +:+ fragment)) fragments s = (inr tt, s +:+ concat_bytes fragments).
Proof.
  revert s. induction fragments as [|f fs IH]; intros s; simpl; [by rewrite string_app_nil_r|].
  by rewrite IH, string_app_assoc.
Qed.

Lemma request_fingerprint_bytes {B3 : Blake3} compiler args cwd key_root client_env :
  request_fingerprint compiler args cwd key_root client_env =
  blake3 (fingerprint_bytes (normalize_for_key compiler) (normalize_request_args false args key_root) args
    (normalize_path_for_request_key cwd key_root) (request_env_fingerprint_vars client_env (normalize_for_key compiler) args)).
Proof.
  unfold request_fingerprint. cbv zeta.
  destruct (emit_spells_fragments (E := Empty_set) (fun fragment s => (inr tt, s +:+ fragment))
    (normalize_for_key compiler) (normalize_request_args false args key_root) args
    (normalize_path_for_request_key cwd key_root)
    (request_env_fingerprint_vars client_env (normalize_for_key compiler) args) "") as (c' & -> & _).
  by rewrite emit_all_append.
Qed.

Lemma env_vars_cc client_env compiler args1 args2 :
  detect_family compiler <> Rustc ->
  request_env_fingerprint_vars client_env compiler args1 = request_env_fingerprint_vars client_env compiler args2.
Proof. intros Hf. unfold request_env_fingerprint_vars. by rewrite bool_decide_eq_false_2. Qed.

(** C31: two checkouts of a tree share their C/C++ requests.  When the arguments
    of one request are those of another with its root in the place of the other's
    (in plain absolute paths, behind one of the [PATH_OPTIONS], in prefix maps), the
    other arguments name no absolute path, and it runs in the same directory below
    its root, both get one request fingerprint.  For compilers other than rustc,
    roots without ['='] and requests without [-MD] or [-MMD], whose own text is
    keyed.  Paths joined to other options, such as [-o/root/a.o], are keyed as they
    are spelled and are not covered. *)
Theorem request_shared_across_worktrees {B3 : Blake3} (compiler sub root1 root2 : bytes) (shapes : list ArgShape)
    (client_env : option EnvList) :
  root_ok root1 = true -> root_ok root2 = true -> Forall (fun s => shape_ok s = true) shapes ->
  detect_family (normalize_for_key compiler) <> Rustc ->
  request_fingerprint compiler (map (render root1) shapes) (below root1 sub) (Some root1) client_env =
  request_fingerprint compiler (map (render root2) shapes) (below root2 sub) (Some root2) client_env.
Proof.
  intros H1 H2 Hs Hf. rewrite !request_fingerprint_bytes, !normalize_shapes by done.
  rewrite !request_path_below by (by apply root_ok_root). rewrite (env_vars_cc _ _ _ (map (render root2) shapes) Hf).
  unfold fingerprint_bytes, fingerprint_fragments, raw_section. by rewrite !shapes_no_depfile.
Qed.

Definition demo_shapes : list ArgShape :=
  [Fixed "-c"; Fixed "-O2"; Below "-I" "include"; Mapped "-ffile-prefix-map" "" "."; Fixed "-DN=1"; Below "" "src/a.c"].

Lemma request_shared_across_worktrees_witness :
  request_fingerprint (B3 := toy_blake3) "/usr/bin/gcc" (map (render "/w/one") demo_shapes) "/w/one/build" (Some "/w/one") None =
  request_fingerprint (B3 := toy_blake3) "/usr/bin/gcc" (map (render "/home/two") demo_shapes) "/home/two/build" (Some "/home/two") None.
Proof.
  apply (@request_shared_across_worktrees toy_blake3 "/usr/bin/gcc" "build" "/w/one" "/home/two" demo_shapes None);
    [by vm_compute|by vm_compute| |by vm_compute]. repeat constructor; by vm_compute.
Defined.

(** ** What the added arguments cover *)

Lemma has_map_app args1 args2 flag old :
  has_cc_prefix_map_for_old (args1 ++ args2) flag old =
  has_cc_prefix_map_for_old args1 flag old || has_cc_prefix_map_for_old args2 flag old.
Proof. apply existsb_app. Qed.

Lemma missing_maps_cover args old flag :
  from_utf8_lossy old = old -> no_equals old = true -> flag ∈ AUTO_PREFIX_MAP_FLAGS ->
  has_cc_prefix_map_for_old (missing_maps args old ++ args) flag old = true.
Proof.
  intros Hu He Hf. rewrite has_map_app. destruct (has_cc_prefix_map_for_old args flag old) eqn:Hm; [apply orb_true_r|].
  rewrite orb_false_r. apply existsb_exists. exists (flag +:+ "=" +:+ old +:+ "=."). split.
  { unfold missing_maps. rewrite Hu. apply in_map_iff. exists flag. split; [done|].
    apply list_elem_of_In, list_elem_of_filter. done. }
  assert (split_cc_prefix_map_arg (flag +:+ String "=" (old +:+ String "=" ".")) = Some (flag, old, ".")) as Hs.
  { pose proof (split_once_no_equals old "." He) as Ho. unfold split_cc_prefix_map_arg.
    unfold AUTO_PREFIX_MAP_FLAGS in Hf. rewrite !elem_of_cons, elem_of_nil in Hf.
    destruct Hf as [-> |[-> |[-> |[]]]]; simpl; by rewrite Ho. }
  change (flag +:+ "=" +:+ old +:+ "=.") with (flag +:+ String "=" (old +:+ String "=" ".")). rewrite Hs.
  unfold same_key_path. by rewrite !bool_decide_eq_true_2.
Qed.

(** With path remapping on, what the daemon runs names no worktree: a GCC or
    Clang command line maps the root in file names, macros and debug information,
    so that only precompiled headers and MSVC keep the worktree in their key, and
    a rustc command line remaps the root, so that requests are keyed relative to
    it.  The caller's arguments stay, behind the added ones. *)
Theorem remap_covers_root (args : list bytes) (compiler cwd : bytes) (root : NormalizedPath) (client_env : option EnvList) :
  path_remap_auto_enabled client_env = true -> has_root root = true -> from_utf8_lossy root = root -> no_equals root = true ->
  let effective := effective_compile_args args compiler cwd (Some root) client_env in
  (compiler_supports_ffile_prefix_map compiler = true ->
   cc_prefix_maps_cover_root effective root = true /\
   forall f mode, cc_requires_worktree_salt f mode effective root = requires_worktree_in_key f mode) /\
  (compiler_is_rustc_like compiler = true -> is_dylint_driver (from_utf8_lossy compiler) = false ->
   request_key_root compiler effective (Some root) = Some root) /\
  (is_dylint_driver (from_utf8_lossy compiler) = false -> exists added, effective = added ++ args).
Proof.
  intros Hp Hr Hu He effective. unfold effective, effective_compile_args. rewrite Hp. simpl. split_and!.
  - intros Hs. assert (compiler_is_rustc_like compiler = false) as ->.
    { unfold compiler_supports_ffile_prefix_map in Hs. unfold compiler_is_rustc_like.
      destruct (detect_family _); try done; by apply bool_decide_eq_false_2. }
    rewrite Hs. simpl.
    assert (cc_prefix_maps_cover_root (missing_maps args root ++
      (if same_key_path root cwd then [] else missing_maps args cwd) ++ args) root = true) as Hc.
    { unfold cc_prefix_maps_cover_root. apply forallb_forall. intros flag Hin%list_elem_of_In.
      pose proof (missing_maps_cover args root flag Hu He Hin) as Hm. rewrite has_map_app in Hm.
      rewrite !has_map_app. apply orb_true_iff in Hm as [-> | ->]; [done|]. by rewrite !orb_true_r. }
    split; [done|]. intros f mode. unfold cc_requires_worktree_salt. by rewrite Hc, andb_false_r, orb_false_r.
  - intros Hrc Hd. rewrite Hrc, Hd. unfold request_key_root. rewrite Hrc. unfold rustc_request_key_root. simpl.
    destruct (rust_args_have_remap_for_old args root) eqn:Hh; [by rewrite Hh|].
    assert (rust_remap_value_matches_old (from_utf8_lossy root +:+ String "=" ".") root = true) as Hv.
    { unfold rust_remap_value_matches_old. rewrite Hu, split_once_no_equals by done. rewrite Hr. simpl.
      by apply bool_decide_eq_true_2. }
    simpl. change (from_utf8_lossy root +:+ "=.") with (from_utf8_lossy root +:+ String "=" "."). by rewrite Hv.
  - intros Hd. destruct (compiler_is_rustc_like compiler).
    + rewrite Hd. destruct (rust_args_have_remap_for_old args root); [by exists []|]. by exists ["--remap-path-prefix"; from_utf8_lossy root +:+ "=."].
    + destruct (compiler_supports_ffile_prefix_map compiler); simpl; [|by exists []]. rewrite app_assoc. eexists. reflexivity.
Qed.

Lemma remap_covers_root_witness :
  let effective := effective_compile_args ["-c"; "/w/one/a.c"] "/usr/bin/gcc" "/w/one/build" (Some "/w/one")
                     (Some [("ZCCACHE_PATH_REMAP", "auto")]) in
  (compiler_supports_ffile_prefix_map "/usr/bin/gcc" = true ->
   cc_prefix_maps_cover_root effective "/w/one" = true /\
   forall f mode, cc_requires_worktree_salt f mode effective "/w/one" = requires_worktree_in_key f mode) /\
  (compiler_is_rustc_like "/usr/bin/gcc" = true -> is_dylint_driver (from_utf8_lossy "/usr/bin/gcc") = false ->
   request_key_root "/usr/bin/gcc" effective (Some "/w/one") = Some "/w/one") /\
  (is_dylint_driver (from_utf8_lossy "/usr/bin/gcc") = false -> exists added, effective = added ++ ["-c"; "/w/one/a.c"]).
Proof. apply remap_covers_root; reflexivity. Defined.

(** ** Paths of a shared entry *)

Lemma acc_ok_app a b : acc_ok (a ++ b) = true -> acc_ok a = true.
Proof.
  induction a as [|c a IH]; simpl; [done|]. intros [Hc Ha]%andb_true_iff. rewrite IH, andb_true_r by done.
  destruct c; try done.
  - apply bool_decide_eq_true in Hc. apply bool_decide_eq_true. by apply app_eq_nil in Hc as [? _].
  - destruct a as [|[]]; try done.
Qed.

Lemma acc_ok_reverse_names names acc :
  Forall (fun c => comp_ok c = true) names -> ParentDir ∉ names -> acc_ok acc = true -> acc_ok (reverse names ++ acc) = true.
Proof.
  intros Hn Hp Ha. induction names as [|c names IH] using rev_ind; [done|]. rewrite reverse_app. simpl.
  apply Forall_app in Hn as [Hn [Hc _]%Forall_cons]. rewrite not_elem_of_app, list_elem_of_singleton in Hp.
  destruct Hp as [Hp Hc']. rewrite IH, andb_true_r by done. by destruct c.
Qed.

(** What is left of a normalized path behind a root: components that survive. *)
Lemma strip_normalized p root rest :
  normalize p = p -> has_root root = true -> strip_components (components p) (components root) = Some rest ->
  Forall (fun c => comp_ok c = true) rest /\ normalize (collect_path rest) = collect_path rest.
Proof.
  intros Hp Hr Hs%strip_components_Some.
  assert (acc_ok (reverse (components p)) = true) as Hok.
  { rewrite <- Hp, components_normalize. unfold normalize_components. rewrite reverse_involutive. apply normalize_acc_ok. }
  rewrite Hs, reverse_app in Hok. assert (Forall (fun c => comp_ok c = true) rest) as Hrest.
  { destruct (acc_ok_shape _ Hok) as (cs & Hcs & Hsh). rewrite reverse_app, !reverse_involutive in Hsh.
    apply has_root_components in Hr. destruct (components root) as [|c base]; [done|]. injection Hr as ->.
    destruct Hsh as [[= Hsh]|Hsh].
    - rewrite <- Hsh in Hcs. by apply Forall_app in Hcs as [_ ?].
    - rewrite <- Hsh in Hcs. simpl in Hcs. by apply Forall_cons in Hcs as [? _]. }
  split; [done|]. apply acc_ok_app in Hok. unfold normalize, normalize_components.
  rewrite components_collect_rel by done. rewrite <- (reverse_involutive rest) at 1.
  by rewrite normalize_fixed, reverse_involutive.
Qed.

(** A path kept by an entry is found again: in the worktree it was captured in
    it is the path itself, and in another one it is the path with the same
    components below the other root. *)
Theorem captured_path_rebases (p root other : NormalizedPath) :
  normalize p = p -> normalize root = root -> has_root root = true -> normalize other = other -> has_root other = true ->
  resolve_cached (capture p (Some root)) (Some root) = p /\
  (is_root_relative (capture p (Some root)) = true -> ParentDir ∉ components p ->
   components (resolve_cached (capture p (Some root)) (Some other)) = components other ++ drop (length (components root)) (components p)).
Proof.
  intros Hp Hroot Hr Hother Ho. unfold capture, path_strip_prefix. simpl.
  destruct (strip_components (components p) (components root)) as [rest|] eqn:Hs; simpl; [|done].
  destruct (strip_normalized p root rest Hp Hr Hs) as [Hrest Hn]. apply strip_components_Some in Hs.
  unfold NormalizedPath_new. rewrite Hn. split.
  - rewrite <- Hp in Hs at 1. rewrite <- Hroot in Hs. apply components_rejoin in Hs.
    rewrite Hroot, Hp in Hs. unfold normalize. rewrite Hs. exact Hp.
  - intros _ Hnp. rewrite Hs, drop_app_length, components_normalize, components_push_names by (done || by destruct other).
    unfold normalize_components. assert (acc_ok (reverse (components other ++ rest)) = true) as Hok.
    { rewrite reverse_app. apply acc_ok_reverse_names; [done| |].
      - rewrite Hs in Hnp. by apply not_elem_of_app in Hnp as [_ ?].
      - rewrite <- Hother, components_normalize. unfold normalize_components. rewrite reverse_involutive. apply normalize_acc_ok. }
    rewrite <- (reverse_involutive (components other ++ rest)) at 1. by rewrite normalize_fixed, reverse_involutive.
Qed.

Lemma captured_path_rebases_witness :
  resolve_cached (capture "/w/one/src/a.c" (Some "/w/one")) (Some "/w/one") = "/w/one/src/a.c" /\
  (is_root_relative (capture "/w/one/src/a.c" (Some "/w/one")) = true -> ParentDir ∉ components "/w/one/src/a.c" ->
   components (resolve_cached (capture "/w/one/src/a.c" (Some "/w/one")) (Some "/home/two")) =
   components "/home/two" ++ drop (length (components "/w/one")) (components "/w/one/src/a.c")).
Proof. apply captured_path_rebases; reflexivity. Defined.

(** ** Lists of distinct paths *)

Lemma dedup_after_keys l p q : q ∈ p :: l -> case_key q ∈ case_key <$> dedup_after p l.
Proof.
  revert p q. induction l as [|r l IH]; intros p q Hq; simpl.
  { apply list_elem_of_singleton in Hq as ->. by left. }
  apply elem_of_cons in Hq. case_bool_decide as He.
  - destruct Hq as [-> | [-> | Hq]%elem_of_cons]; [apply IH; by left| |apply IH; by right].
    rewrite <- He. apply IH. by left.
  - simpl. destruct Hq as [-> |Hq]; [by left|]. right. by apply IH.
Qed.

Lemma dedup_paths_keys l q : q ∈ l -> case_key q ∈ case_key <$> dedup_paths l.
Proof. destruct l as [|p l]; [by intros ?%elem_of_nil|]. apply dedup_after_keys. Qed.

Lemma dedup_after_subset l p q : q ∈ dedup_after p l -> q ∈ p :: l.
Proof.
  revert p. induction l as [|r l IH]; intros p; simpl; [done|]. case_bool_decide.
  - intros [-> |Hq]%IH%elem_of_cons; [by left|]. by do 2 right.
  - intros [-> |Hq%IH]%elem_of_cons; [by left|]. by right.
Qed.

(** Among normalized paths, nothing is lost but repetitions. *)
Lemma dedup_paths_elem l q : Forall (fun p => NormalizedPath_new p = p) l -> q ∈ dedup_paths l <-> q ∈ l.
Proof.
  intros Hn. assert (forall x, x ∈ dedup_paths l -> x ∈ l) as Hsub.
  { destruct l; [done|]. apply dedup_after_subset. }
  split; [apply Hsub|]. intros Hq. pose proof (dedup_paths_keys l q Hq) as Hk.
  apply list_elem_of_fmap in Hk as (x & Hx & Hin). rewrite Forall_forall in Hn.
  pose proof (Hn x (Hsub x Hin)) as Hnx. pose proof (Hn q Hq) as Hnq.
  unfold case_key, normalize_for_key, NormalizedPath_new in *. congruence.
Qed.
