(* ===== verification/LinkKey.v ===== *)
(** * Keys of link and archive requests ([link_helpers.rs], [handle_link.rs])

    From a parsed tool call to its cache key: the flags rewritten relative to
    the worktree, the libraries [-l] names looked up in the search directories,
    the digests of the tool and the inputs, and the linker's environment, fed to
    the link key builder of [Hash].

    Of the handler itself this is the part in front of the cache: which requests
    are passed through, and the key of the others. *)

From stdpp Require Import list strings gmap.
From Stdlib Require Import Lia.
From S2P Require Import Prelude Path Hash RustStr KeyEnv ContextKeys RequestFingerprint Detect CcContext RequestKeys LinkArgs.

(** ** The parsed request *)

Record ParsedLinkTool := mkLinkTool {
  lt_input_files : list NormalizedPath;
  lt_output_file : NormalizedPath;
  lt_secondary_outputs : list NormalizedPath;
  lt_cache_relevant_flags : list bytes;
  lt_non_deterministic : bool;
  lt_non_determinism_hint : bytes;
  lt_is_archive : bool;
  lt_output_kind : LinkOutputKind;
}.

Inductive ParseLinkToolOutcome :=
  | ToolCacheable (parsed : ParsedLinkTool)
  | ToolNonCacheable (archive_reason link_reason : bytes).

(** Archivers first, then linkers; [None] when a parser panics. *)
Definition parse_link_tool (to_uppercase : bytes -> bytes) (tool : bytes) (args : list bytes) : option ParseLinkToolOutcome :=
  let name := if from_utf8_ok tool then tool else "" in
  archive ← parse_archive_invocation to_uppercase name args;
  match archive with
  | ArchiveCacheable a =>
      Some (ToolCacheable (mkLinkTool (ca_input_files a) (ca_output_file a) [] (ca_cache_relevant_flags a)
        (ca_non_deterministic a) (match ca_family a with MsvcLib => "/BREPRO" | _ => "D" end) true OutputFile))
  | ArchiveNonCacheable archive_reason =>
      link ← parse_linker_invocation to_uppercase name args;
      match link with
      | LinkCacheable l =>
          Some (ToolCacheable (mkLinkTool (cl_input_files l) (cl_output_file l) (cl_secondary_outputs l)
            (cl_cache_relevant_flags l) (cl_non_deterministic l)
            (match cl_family l with
             | MsvcLink => "/DETERMINISTIC"
             | Dsymutil => "deterministic input debug information"
             | _ => "--build-id=sha1 (avoid --build-id=uuid)"
             end) false (cl_output_kind l)))
      | LinkNonCacheable link_reason => Some (ToolNonCacheable archive_reason link_reason)
      end
  end.

(** The dash in the middle is U+2014. *)
Definition EM_DASH : bytes := String (ascii_of_nat 226) (String (ascii_of_nat 128) (String (ascii_of_nat 148) "")).

Definition link_non_determinism_warning (parsed : ParsedLinkTool) : option bytes :=
  if lt_non_deterministic parsed then
    Some ("non-deterministic invocation (missing " +:+ lt_non_determinism_hint parsed +:+ " flag) " +:+ EM_DASH +:+
          " output is cached but may differ from a fresh link")
  else None.

(** ** Flags relative to the worktree *)

Definition normalize_link_path_value_for_key (value : bytes) (key_root : option bytes) : bytes :=
  match key_root with
  | None => value
  | Some root => default value (normalize_request_path_value value (Some root))
  end.

(** The first answer of a sequence of attempts. *)
Fixpoint first_answer (attempts : list (option bytes)) (otherwise : bytes) : bytes :=
  match attempts with
  | [] => otherwise
  | Some answer :: _ => answer
  | None :: rest => first_answer rest otherwise
  end.

Definition normalize_link_flag_atom_for_key (atom : bytes) (key_root : option bytes) : bytes :=
  match key_root with
  | None => atom
  | Some root =>
      let value v := normalize_request_path_value v (Some root) in
      let joined prefix := rest ← strip_prefix prefix atom; n ← value rest; Some (prefix +:+ n) in
      let nocase prefix :=
        let n := String.length prefix in
        let head := String.substring 0 n atom in
        if eq_ignore_ascii_case head prefix then v ← value (str_skip n atom); Some (head +:+ v) else None in
      first_answer
        ([normalize_cc_prefix_map_arg_for_key atom (Some root);
          match strip_prefix "-L" atom with Some EmptyString | None => None | Some _ => joined "-L" end] ++
         map joined ["--library-path="; "--version-script="; "--script="; "--sysroot="] ++
         map nocase ["/LIBPATH:"; "/DEF:"] ++
         ['(lhs, rhs) ← split_once "=" atom; n ← value rhs; Some (lhs +:+ "=" +:+ n)])
        atom
  end.

(** [parts[1..]]: a path behind its flag, or an atom. *)
Fixpoint normalize_wl_parts (parts : list bytes) (key_root : option bytes) : list bytes :=
  match parts with
  | [] => []
  | part :: rest =>
      match rest with
      | value :: rest' =>
          if is_one_of ["-L"; "-T"; "--script"; "--version-script"; "--library-path"; "--sysroot"] part
          then part :: normalize_link_path_value_for_key value key_root :: normalize_wl_parts rest' key_root
          else normalize_link_flag_atom_for_key part key_root :: normalize_wl_parts rest key_root
      | [] => [normalize_link_flag_atom_for_key part key_root]
      end
  end.

Fixpoint join_with (sep : bytes) (l : list bytes) : bytes :=
  match l with
  | [] => ""
  | a :: rest => match rest with [] => a | _ => a +:+ sep +:+ join_with sep rest end
  end.

Definition normalize_wl_flag_for_key (flag : bytes) (key_root : option bytes) : bytes :=
  match split_char "," flag with
  | [] => ""
  | first :: rest => join_with "," (first :: normalize_wl_parts rest key_root)
  end.

Definition normalize_link_cache_flag_for_key (flag : bytes) (key_root : option bytes) : bytes :=
  if starts_with "-Wl," flag then normalize_wl_flag_for_key flag key_root
  else normalize_link_flag_atom_for_key flag key_root.

Fixpoint normalize_link_flags (previous_path_flag : bool) (flags : list bytes) (key_root : option bytes) : list bytes :=
  match flags with
  | [] => []
  | flag :: rest =>
      if previous_path_flag
      then normalize_link_path_value_for_key flag key_root :: normalize_link_flags false rest key_root
      else normalize_link_cache_flag_for_key flag key_root ::
           normalize_link_flags
             (is_one_of ["-L"; "-T"; "--script"; "--version-script"; "--library-path"; "-isysroot"] flag ||
              eq_ignore_ascii_case flag "/DEF") rest key_root
  end.

Definition normalize_link_cache_flags_for_key (flags : list bytes) (key_root : option bytes) : list bytes :=
  normalize_link_flags false flags key_root.

(** ** Libraries named by [-l] *)

Record LinkSearchAnalysis := mkSearch { search_dirs : list NormalizedPath; lib_names : list bytes }.

Definition push_link_search_dir (a : LinkSearchAnalysis) (value : bytes) : LinkSearchAnalysis :=
  mkSearch (search_dirs a ++ [NormalizedPath_new value]) (lib_names a).
Definition push_link_lib_name (a : LinkSearchAnalysis) (value : bytes) : LinkSearchAnalysis :=
  if bool_decide (value = "") then a else mkSearch (search_dirs a) (lib_names a ++ [value]).

(** [strip_prefix(p).filter(|rest| !rest.is_empty())]. *)
Definition strip_nonempty (p s : bytes) : option bytes :=
  match strip_prefix p s with Some EmptyString | None => None | Some rest => Some rest end.

(** The parts of one [-Wl,] flag. *)
Fixpoint analyze_wl_parts (parts : list bytes) (a : LinkSearchAnalysis) : LinkSearchAnalysis :=
  match parts with
  | [] => a
  | part :: rest =>
      if is_one_of ["-L"; "--library-path"] part then
        match rest with value :: rest' => analyze_wl_parts rest' (push_link_search_dir a value) | [] => a end
      else if bool_decide (part = "-l") then
        match rest with value :: rest' => analyze_wl_parts rest' (push_link_lib_name a value) | [] => a end
      else analyze_wl_parts rest
        match strip_nonempty "-L" part with
        | Some dir => push_link_search_dir a dir
        | None =>
        match strip_nonempty "--library-path=" part with
        | Some dir => push_link_search_dir a dir
        | None =>
        match strip_nonempty "-l" part with
        | Some lib => push_link_lib_name a lib
        | None => a
        end end end
  end.

Fixpoint analyze_flags (previous_search_dir_flag : bool) (flags : list bytes) (a : LinkSearchAnalysis) : LinkSearchAnalysis :=
  match flags with
  | [] => a
  | flag :: rest =>
      if previous_search_dir_flag then analyze_flags false rest (push_link_search_dir a flag)
      else if is_one_of ["-L"; "--library-path"] flag then analyze_flags true rest a
      else analyze_flags false rest
        match strip_nonempty "-L" flag with
        | Some dir => push_link_search_dir a dir
        | None =>
        match strip_prefix "--library-path=" flag with
        | Some dir => push_link_search_dir a dir
        | None =>
        match strip_nonempty "-l" flag with
        | Some lib => push_link_lib_name a lib
        | None =>
        match strip_prefix "-Wl," flag with
        | Some parts => analyze_wl_parts (split_char "," parts) a
        | None => a
        end end end end
  end.

Definition analyze_link_search_flags (flags : list bytes) : LinkSearchAnalysis := analyze_flags false flags (mkSearch [] []).

Definition link_path_to_absolute (path cwd : bytes) : bytes := if has_root path then path else path_push cwd path.
Definition path_is_under_root (path root : bytes) : bool := bool_decide (is_Some (path_strip_prefix path root)).

Definition link_library_candidate_names (lib : bytes) : list bytes :=
  match strip_prefix ":" lib with
  | Some exact_name => [exact_name]
  | None =>
      ["lib" +:+ lib +:+ ".a"; "lib" +:+ lib +:+ ".so"; "lib" +:+ lib +:+ ".dylib"; lib +:+ ".lib";
       "lib" +:+ lib +:+ ".dll.a"; lib +:+ ".dll.a"]
  end.

Section Plan.
Context (is_file : bytes -> bool).

(** The first candidate that is a file, directory by directory. *)
Definition resolve_link_library (lib : bytes) (dirs : list NormalizedPath) (cwd : bytes) : option NormalizedPath :=
  NormalizedPath_new <$>
    List.find is_file
      (flat_map (fun dir => map (path_push (link_path_to_absolute dir cwd)) (link_library_candidate_names lib)) dirs).

Record LinkPathRemapKeyPlan := mkPlan {
  plan_flags : list bytes;
  extra_input_files : list NormalizedPath;
  root_specific : bool;
}.

(** What one library adds: a file to hash, or the root to the key. *)
Definition plan_library (a : LinkSearchAnalysis) (root_local_search : bool) (root cwd lib : bytes) :
    list NormalizedPath * bool :=
  match resolve_link_library lib (search_dirs a) cwd with
  | Some path =>
      let abs_path := link_path_to_absolute path cwd in
      if path_is_under_root abs_path root then ([NormalizedPath_new abs_path], false) else ([], root_local_search)
  | None => ([], root_local_search)
  end.

Definition is_root_local (root cwd : bytes) (a : LinkSearchAnalysis) : bool :=
  existsb (fun dir => path_is_under_root (link_path_to_absolute dir cwd) root) (search_dirs a).

Definition build_link_path_remap_key_plan (flags : list bytes) (cwd : bytes) (key_root : option bytes) : LinkPathRemapKeyPlan :=
  let a := analyze_link_search_flags flags in
  let normalized_flags := normalize_link_cache_flags_for_key flags key_root in
  match key_root with
  | None => mkPlan normalized_flags [] false
  | Some root =>
      let local := is_root_local root cwd a in
      let added := map (plan_library a local root cwd) (lib_names a) in
      mkPlan normalized_flags (dedup_paths (sort_by_key case_key (flat_map fst added)))
        ((local && bool_decide (lib_names a = [])) || existsb snd added)
  end.
End Plan.

(** ** The key of a request *)

Definition LINK_PATH_REMAP_AUTO_KEY_FLAG : bytes := "zccache:path-remap=auto".
Definition LINK_PATH_REMAP_ROOT_SPECIFIC_FLAG : bytes := "zccache:path-remap=root-specific".

(** What the daemon sees of the machine: files and directories, and the digest
    of a file through the metadata cache. *)
Record LinkWorld := mkLinkWorld {
  lw_is_dir : bytes -> bool;
  lw_is_file : bytes -> bool;
  lw_hash : NormalizedPath -> option ContentHash;
}.

Record LinkRequest := mkLinkRequest {
  lr_tool : bytes;
  lr_args : list bytes;
  lr_cwd : bytes;
  lr_env : option EnvList;
}.

Definition link_key_root (w : LinkWorld) (r : LinkRequest) : option NormalizedPath :=
  if path_remap_auto_enabled (lr_env r) then resolve_worktree_root (lw_is_dir w) (lw_is_file w) (lr_cwd r) (lr_env r)
  else None.

Definition link_inputs (parsed : ParsedLinkTool) (plan : LinkPathRemapKeyPlan) (cwd : bytes) : list NormalizedPath :=
  map (fun input => if has_root input then input else NormalizedPath_new (path_push cwd input))
    (lt_input_files parsed ++ extra_input_files plan).

(** The flags of the key, in the order they are added. *)
Definition link_key_flags (key_root : option NormalizedPath) (plan : LinkPathRemapKeyPlan) : list bytes :=
  (if bool_decide (is_Some key_root) then [LINK_PATH_REMAP_AUTO_KEY_FLAG] else []) ++
  (if root_specific plan
   then [LINK_PATH_REMAP_ROOT_SPECIFIC_FLAG +:+ ":" +:+ default "" (normalize_for_key <$> key_root)] else []) ++
  plan_flags plan.

Definition link_key_builder (tool_hash : ContentHash) (flags : list bytes) (env : EnvList) (inputs : list ContentHash) :
    LinkCacheKeyBuilder :=
  let b := lk_tool tool_hash lk_new in
  let b := fold_left (fun b f => lk_flag f b) flags b in
  let b := fold_left (fun b e => lk_env e.1 e.2 b) env b in
  fold_left (fun b h => lk_input h b) inputs b.

(** The outcome in front of the cache: the tool is run as it is, or the key is
    looked up. *)
Inductive LinkDecision :=
  | PassThrough
  | LookUp (parsed : ParsedLinkTool) (key : ContentHash).

(** The digests of all files, or nothing. *)
Definition all_hashes (w : LinkWorld) (paths : list NormalizedPath) : option (list ContentHash) := mapM (lw_hash w) paths.

(** [None] when the daemon panics: a parser does, or the key builder (which
    never happens, there is an input). *)
Definition link_decision {B3 : Blake3} (to_uppercase : bytes -> bytes) (w : LinkWorld) (r : LinkRequest) : option LinkDecision :=
  outcome ← parse_link_tool to_uppercase (lr_tool r) (lr_args r);
  match outcome with
  | ToolNonCacheable _ _ => Some PassThrough
  | ToolCacheable parsed =>
      let key_root := link_key_root w r in
      let plan := build_link_path_remap_key_plan (lw_is_file w) (lt_cache_relevant_flags parsed) (lr_cwd r) key_root in
      match lw_hash w (NormalizedPath_new (lr_tool r)), all_hashes w (link_inputs parsed plan (lr_cwd r)) with
      | Some tool_hash, Some input_hashes =>
          key ← lk_build (link_key_builder tool_hash (link_key_flags key_root plan)
                            (keyed_link_env (default [] (lr_env r))) input_hashes);
          Some (LookUp parsed key)
      | _, _ => Some PassThrough
      end
  end.

(** [link_output_path] of the handler. *)
Definition link_output_path (parsed : ParsedLinkTool) (cwd : bytes) : NormalizedPath :=
  if has_root (lt_output_file parsed) then lt_output_file parsed else NormalizedPath_new (path_push cwd (lt_output_file parsed)).

(** Where the payloads of a hit go: the output, the side outputs the request
    names, and beside the output by name what it does not. *)
Definition link_targets (parsed : ParsedLinkTool) (cwd : bytes) (names : list bytes) : list NormalizedPath :=
  let output_path := link_output_path parsed cwd in
  imap (fun i name =>
    match i with
    | O => output_path
    | S k =>
        match lt_secondary_outputs parsed !! k with
        | Some secondary => if has_root secondary then secondary else NormalizedPath_new (path_push cwd secondary)
        | None => NormalizedPath_new (path_push (default cwd (path_parent output_path)) name)
        end
    end) names.

(** ** The builder *)

Lemma link_key_builder_fields t flags env inputs :
  let b := link_key_builder t flags env inputs in
  tool_id b = Some t /\ lk_flags b = flags /\ input_hashes b = inputs /\
  lk_env_vars b = fold_left (fun m e => bt_insert String.compare e.1 e.2 m) env [].
Proof.
  intros b. subst b. unfold link_key_builder.
  set (b0 := lk_tool t lk_new).
  assert (forall l b, let r := fold_left (fun b f => lk_flag f b) l b in
    tool_id r = tool_id b /\ lk_flags r = lk_flags b ++ l /\ input_hashes r = input_hashes b /\ lk_env_vars r = lk_env_vars b) as Hf.
  { induction l as [|f l IH]; intros b; simpl; [by rewrite app_nil_r|].
    destruct (IH (lk_flag f b)) as (-> & -> & -> & ->). simpl. by rewrite <- app_assoc. }
  assert (forall l b, let r := fold_left (fun b e => lk_env e.1 e.2 b) l b in
    tool_id r = tool_id b /\ lk_flags r = lk_flags b /\ input_hashes r = input_hashes b /\
    lk_env_vars r = fold_left (fun m e => bt_insert String.compare e.1 e.2 m) l (lk_env_vars b)) as He.
  { induction l as [|e l IH]; intros b; simpl; [done|]. by destruct (IH (lk_env e.1 e.2 b)) as (-> & -> & -> & ->). }
  assert (forall l b, let r := fold_left (fun b h => lk_input h b) l b in
    tool_id r = tool_id b /\ lk_flags r = lk_flags b /\ input_hashes r = input_hashes b ++ l /\ lk_env_vars r = lk_env_vars b) as Hi.
  { induction l as [|h l IH]; intros b; simpl; [by rewrite app_nil_r|].
    destruct (IH (lk_input h b)) as (-> & -> & -> & ->). simpl. by rewrite <- app_assoc. }
  cbv zeta. edestruct Hi as (-> & -> & -> & ->). edestruct He as (-> & -> & -> & ->).
  by edestruct Hf as (-> & -> & -> & ->).
Qed.

(** A decision to look up, taken apart. *)
Lemma link_decision_inv {B3 : Blake3} up w r parsed key :
  link_decision up w r = Some (LookUp parsed key) ->
  let key_root := link_key_root w r in
  let plan := build_link_path_remap_key_plan (lw_is_file w) (lt_cache_relevant_flags parsed) (lr_cwd r) key_root in
  exists tool_hash inputs,
    parse_link_tool up (lr_tool r) (lr_args r) = Some (ToolCacheable parsed) /\
    lw_hash w (NormalizedPath_new (lr_tool r)) = Some tool_hash /\
    all_hashes w (link_inputs parsed plan (lr_cwd r)) = Some inputs /\
    lk_build (link_key_builder tool_hash (link_key_flags key_root plan) (keyed_link_env (default [] (lr_env r))) inputs) = Some key.
Proof.
  unfold link_decision. destruct (parse_link_tool up (lr_tool r) (lr_args r)) as [[p|? ?]|]; simpl; [|done..].
  destruct (lw_hash w _) as [t|] eqn:Ht; [|done]. destruct (all_hashes w _) as [l|] eqn:Hl; [|done].
  destruct (lk_build _) as [k|] eqn:Hk; [|done]. simpl. intros [= <- <-]. by exists t, l.
Qed.

(** What a request puts into its key. *)
Record LinkKeyed := mkKeyed {
  keyed_tool : option ContentHash;
  keyed_flags : list bytes;
  keyed_env : EnvList;
  keyed_inputs : option (list ContentHash);
}.

Definition link_keyed (w : LinkWorld) (r : LinkRequest) (parsed : ParsedLinkTool) : LinkKeyed :=
  let key_root := link_key_root w r in
  let plan := build_link_path_remap_key_plan (lw_is_file w) (lt_cache_relevant_flags parsed) (lr_cwd r) key_root in
  mkKeyed (lw_hash w (NormalizedPath_new (lr_tool r))) (link_key_flags key_root plan)
    (fold_left (fun m e => bt_insert String.compare e.1 e.2 m) (keyed_link_env (default [] (lr_env r))) [])
    (all_hashes w (link_inputs parsed plan (lr_cwd r))).

(** The variables of the key come from two tables. *)
Definition LINK_KEYED_NAMES : list bytes := LINK_ENV_KEYED ++ APPLE_ENV_KEYED.
Definition spells_variable (flag : bytes) : bool := existsb (fun n => starts_with (n +:+ "=") flag) LINK_KEYED_NAMES.
Definition env_field (e : bytes * bytes) : bytes := e.1 +:+ "=" +:+ e.2.

(** Arguments and variables of a process hold no NUL; and no flag reads like a
    variable of the key. *)
Definition keyed_clean (k : LinkKeyed) : Prop :=
  Forall (fun f => no_nul f = true /\ spells_variable f = false) (keyed_flags k) /\
  Forall (fun e => no_nul (env_field e) = true) (keyed_env k).

(** The text of a key: the fields, each closed by a NUL, and the digests. *)
Definition keyed_fields (k : LinkKeyed) : list bytes := keyed_flags k ++ (env_field <$> keyed_env k).
Definition keyed_digests (k : LinkKeyed) : bytes := concat_bytes (default [] (keyed_inputs k)).
Definition keyed_text (k : LinkKeyed) : bytes :=
  "zccache-link-key-v1" +:+ default "" (keyed_tool k) +:+ nul_terminated (keyed_fields k) +:+ keyed_digests k.

(** The first bytes of one request's digests are fields of the other: the number
    of fields is not part of the text. *)
Definition digests_spell_fields (k l : LinkKeyed) : Prop :=
  exists extra, extra <> [] /\ keyed_fields l = keyed_fields k ++ extra /\
    keyed_digests k = nul_terminated extra +:+ keyed_digests l.

Lemma all_hashes_wf w paths l :
  (forall p h, lw_hash w p = Some h -> hash_wf h) -> all_hashes w paths = Some l -> Forall hash_wf l.
Proof.
  intros Hw Hl. apply mapM_Some in Hl. induction Hl; constructor; eauto.
Qed.

(** Fields with the text behind them: the shorter list is the start of the
    other, whose further fields the text spells. *)
Lemma nul_terminated_app_inv l k r s :
  Forall (fun a => no_nul a = true) l -> Forall (fun a => no_nul a = true) k ->
  nul_terminated l +:+ r = nul_terminated k +:+ s ->
  (l = k /\ r = s) \/
  (exists extra, extra <> [] /\ k = l ++ extra /\ r = nul_terminated extra +:+ s) \/
  (exists extra, extra <> [] /\ l = k ++ extra /\ s = nul_terminated extra +:+ r).
Proof.
  intros Hl. revert k. induction Hl as [|a l Ha Hl IH]; intros [|b k] Hk Heq.
  - by left.
  - right; left. by exists (b :: k).
  - right; right. by exists (a :: l).
  - apply Forall_cons in Hk as [Hb Hk]. rewrite !nul_terminated_cons, !string_app_assoc in Heq.
    apply nul_field_inv in Heq as [-> Heq]; [|done..].
    destruct (IH k Hk Heq) as [[-> ->]|[(x & ? & -> & ->)|(x & ? & -> & ->)]];
      [by left|right; left; by exists x|right; right; by exists x].
Qed.

(** A list in two parts that a test tells apart. *)
Lemma app_split_by {A} (t : A -> bool) (l1 l2 r1 r2 : list A) :
  Forall (fun x => t x = false) l1 -> Forall (fun x => t x = false) l2 ->
  Forall (fun x => t x = true) r1 -> Forall (fun x => t x = true) r2 -> l1 ++ r1 = l2 ++ r2 -> l1 = l2 /\ r1 = r2.
Proof.
  intros H1. revert l2. induction H1 as [|x l1 Hx H1 IH]; intros [|y l2] H2 Hr1 Hr2 Heq; [done| | |].
  - apply Forall_cons in H2 as [Hy _]. simpl in Heq. subst r1. apply Forall_cons in Hr1 as [Hy' _]. congruence.
  - simpl in Heq. subst r2. apply Forall_cons in Hr2 as [Hx' _]. congruence.
  - apply Forall_cons in H2 as [_ H2]. simplify_eq/=. by destruct (IH l2 H2 Hr1 Hr2) as [-> ->].
Qed.

Lemma keyed_name_no_equals n : n ∈ LINK_KEYED_NAMES -> no_equals n = true.
Proof.
  intros Hn. assert (Forall (fun n => no_equals n = true) LINK_KEYED_NAMES) as H by (vm_compute; by repeat constructor).
  rewrite Forall_forall in H. by apply H.
Qed.

Lemma env_fields_inj (e1 e2 : EnvList) :
  Forall (fun e => e.1 ∈ LINK_KEYED_NAMES) e1 -> Forall (fun e => e.1 ∈ LINK_KEYED_NAMES) e2 ->
  env_field <$> e1 = env_field <$> e2 -> e1 = e2.
Proof.
  intros H1. revert e2. induction H1 as [|[k v] e1 Hk H1 IH]; intros [|[k' v'] e2] H2; try done.
  apply Forall_cons in H2 as [Hk' H2]. cbn [fmap list_fmap]. intros Heq.
  assert (env_field (k, v) = env_field (k', v')) as Hkv by congruence. unfold env_field in Hkv. simpl in *.
  apply key_value_inj in Hkv as [-> ->]; [|by apply keyed_name_no_equals..]. f_equal. apply IH; [done|]. congruence.
Qed.

Lemma env_field_spells e : e.1 ∈ LINK_KEYED_NAMES -> spells_variable (env_field e) = true.
Proof.
  intros Hn. apply existsb_exists. exists e.1. split; [by apply list_elem_of_In|]. apply starts_with_spec.
  exists e.2. unfold env_field. by rewrite string_app_assoc.
Qed.

(** The names in the key are those of the tables. *)
Lemma bt_insert_names (P : bytes -> Prop) k v (m : EnvList) :
  P k -> Forall (fun e => P e.1) m -> Forall (fun e => P e.1) (bt_insert String.compare k v m).
Proof.
  intros Hk Hm. induction Hm as [|[k' v'] m Hk' Hm IH]; cbn [bt_insert]; [by repeat constructor|].
  destruct (String.compare k k'); by repeat constructor.
Qed.

Lemma keyed_link_env_names env : Forall (fun e => e.1 ∈ LINK_KEYED_NAMES) (keyed_link_env env).
Proof.
  apply Forall_forall. intros [n v]. unfold keyed_link_env, collect_link_table, collect, LINK_KEYED_NAMES. cbn [fst].
  rewrite !elem_of_app, !list_elem_of_omap.
  intros [(x & Hx & (? & _ & [= <- _])%fmap_Some)|(x & Hx & (? & _ & [= <- _])%fmap_Some)]; [by left|by right].
Qed.

Lemma link_keyed_names w r p : Forall (fun e => e.1 ∈ LINK_KEYED_NAMES) (keyed_env (link_keyed w r p)).
Proof.
  unfold link_keyed. cbn [keyed_env]. generalize (keyed_link_env_names (default [] (lr_env r))).
  generalize (keyed_link_env (default [] (lr_env r))). intros l.
  assert (Forall (fun e : bytes * bytes => e.1 ∈ LINK_KEYED_NAMES) ([] : EnvList)) as H0 by constructor. revert H0.
  generalize ([] : EnvList). induction l as [|e l IH]; intros m Hm Hl; [done|].
  apply Forall_cons in Hl as [He Hl]. simpl. apply IH; [by apply (bt_insert_names (fun n => n ∈ LINK_KEYED_NAMES))|done].
Qed.

Lemma keyed_fields_text flags (env : EnvList) d :
  nul_terminated (flags ++ (env_field <$> env)) +:+ d = nul_terminated flags +:+ env_section env +:+ d.
Proof.
  rewrite nul_terminated_app, env_section_fields, string_app_assoc. do 3 f_equal. apply list_fmap_ext. by intros ? [].
Qed.

(** The key is the digest of the text. *)
Lemma link_decision_text {B3 : Blake3} up w r parsed key :
  link_decision up w r = Some (LookUp parsed key) ->
  let k := link_keyed w r parsed in
  is_Some (keyed_tool k) /\ is_Some (keyed_inputs k) /\ key = blake3 (keyed_text k).
Proof.
  intros (t & i & _ & Ht & Hi & Hk)%link_decision_inv. unfold keyed_text, keyed_fields, keyed_digests, link_keyed.
  cbn [keyed_tool keyed_flags keyed_env keyed_inputs]. rewrite Ht, Hi, keyed_fields_text. split_and!; [by eexists..|].
  revert Hk. unfold lk_build, lk_preimage.
  match goal with |- context [link_key_builder t ?f ?e i] =>
    destruct (link_key_builder_fields t f e i) as (-> & -> & -> & ->) end.
  cbn [mbind option_bind]. case_bool_decide; [done|]. by intros [= <-].
Qed.

(** What the text of a clean request determines. *)
Lemma keyed_text_inv (k l : LinkKeyed) :
  keyed_clean k -> keyed_clean l ->
  Forall (fun e => e.1 ∈ LINK_KEYED_NAMES) (keyed_env k) -> Forall (fun e => e.1 ∈ LINK_KEYED_NAMES) (keyed_env l) ->
  (exists t, keyed_tool k = Some t /\ hash_wf t) -> (exists t, keyed_tool l = Some t /\ hash_wf t) ->
  (exists i, keyed_inputs k = Some i /\ Forall hash_wf i) -> (exists i, keyed_inputs l = Some i /\ Forall hash_wf i) ->
  keyed_text k = keyed_text l -> k = l \/ digests_spell_fields k l \/ digests_spell_fields l k.
Proof.
  destruct k as [tk fk ek ik], l as [tl fl el il].
  unfold keyed_clean, digests_spell_fields, keyed_text, keyed_fields, keyed_digests. cbn.
  intros [Hfk Hek] [Hfl Hel] Hnk Hnl (t & -> & Ht) (t' & -> & Ht') (i & -> & Hi) (i' & -> & Hi') Heq. simpl in *.
  injection Heq as Heq. apply string_app_inv_len in Heq as [-> Heq]; [|by rewrite Ht, Ht'].
  apply nul_terminated_app_inv in Heq as [[Hf Hd]|[H|H]]; [left|right; by left|right; by right|..].
  - apply concat_hashes_inj in Hd as ->; [|done..].
    apply (app_split_by spells_variable) in Hf as [-> He].
    + by apply env_fields_inj in He as ->.
    + eapply Forall_impl; [exact Hfk|]. by intros ? [].
    + eapply Forall_impl; [exact Hfl|]. by intros ? [].
    + apply Forall_fmap. eapply Forall_impl; [exact Hnk|]. intros e. apply env_field_spells.
    + apply Forall_fmap. eapply Forall_impl; [exact Hnl|]. intros e. apply env_field_spells.
  - apply Forall_app. split; [eapply Forall_impl; [exact Hfk|]; by intros ? []|by apply Forall_fmap].
  - apply Forall_app. split; [eapply Forall_impl; [exact Hfl|]; by intros ? []|by apply Forall_fmap].
Qed.

(** C17: a hit in the link cache is a link of the same things.  The key is the
    blake3 digest of the text of the tool's digest, the keyed flags, the linker's
    variables and the digests of the inputs.  Two requests that look up one key,
    on whatever machines and in whatever worktrees, have the same tool contents,
    the same keyed flags in order, the same linker environment and inputs of the
    same contents in order; or these two texts collide; or the raw digests of
    one request begin with further fields of the other.  Flags and variables
    hold no NUL and no flag reads like a keyed variable ([LIB=..]). *)
Theorem link_key_identifies {B3 : Blake3} (to_uppercase : bytes -> bytes) (w1 w2 : LinkWorld) (r1 r2 : LinkRequest)
    (p1 p2 : ParsedLinkTool) (key : ContentHash) :
  link_decision to_uppercase w1 r1 = Some (LookUp p1 key) -> link_decision to_uppercase w2 r2 = Some (LookUp p2 key) ->
  (forall p h, lw_hash w1 p = Some h -> hash_wf h) -> (forall p h, lw_hash w2 p = Some h -> hash_wf h) ->
  let k1 := link_keyed w1 r1 p1 in
  let k2 := link_keyed w2 r2 p2 in
  keyed_clean k1 -> keyed_clean k2 ->
  is_Some (keyed_tool k1) /\ is_Some (keyed_inputs k1) /\ key = blake3 (keyed_text k1) /\
  (k1 = k2 \/ blake3_collision (keyed_text k1) (keyed_text k2) \/
   digests_spell_fields k1 k2 \/ digests_spell_fields k2 k1).
Proof.
  intros H1 H2 Hw1 Hw2 k1 k2 Hc1 Hc2.
  destruct (link_decision_text _ _ _ _ _ H1) as ([t1 Ht1] & [i1 Hi1] & ->).
  destruct (link_decision_text _ _ _ _ _ H2) as ([t2 Ht2] & [i2 Hi2] & Heq). fold k1 in Ht1, Hi1, Heq |- *. fold k2 in Ht2, Hi2, Heq.
  split_and!; [by eexists..|done|]. apply blake3_eq in Heq as [Heq|]; [|by right; left].
  enough (k1 = k2 \/ digests_spell_fields k1 k2 \/ digests_spell_fields k2 k1) as [?|[?|?]] by eauto.
  apply keyed_text_inv; try done; [apply link_keyed_names..| | | |]; eexists; (split; [eassumption|]);
    [exact (Hw1 _ _ Ht1)|exact (Hw2 _ _ Ht2)|exact (all_hashes_wf _ _ _ Hw1 Hi1)|exact (all_hashes_wf _ _ _ Hw2 Hi2)].
Qed.

(** The toy machine of the examples: every file is there and has one digest. *)
Definition demo_link_world (digest : bytes -> ContentHash) : LinkWorld :=
  mkLinkWorld (fun _ => false) (fun _ => false) (fun p => Some (digest p)).

Definition demo_link_request (args : list bytes) : LinkRequest := mkLinkRequest "/usr/bin/ld" args "/w" None.

Definition demo_args1 : list bytes := ["-z"; "now"; "a.o"; "-o"; "app"].
Definition demo_args2 : list bytes := ["-o"; "other"; "-z"; "now"; "b.o"].
Definition demo_machine : LinkWorld := demo_link_world (fun _ => demo_hash).

Definition demo_lookup (args : list bytes) : option LinkDecision :=
  link_decision (B3 := toy_blake3) ascii_upper demo_machine (demo_link_request args).
Definition demo_parsed (args : list bytes) : ParsedLinkTool :=
  match demo_lookup args with Some (LookUp p _) => p | _ => mkLinkTool [] "" [] [] false "" false OutputFile end.
Definition demo_link_key : ContentHash := match demo_lookup demo_args1 with Some (LookUp _ k) => k | _ => "" end.

Lemma link_key_identifies_witness :
  let k1 := link_keyed demo_machine (demo_link_request demo_args1) (demo_parsed demo_args1) in
  let k2 := link_keyed demo_machine (demo_link_request demo_args2) (demo_parsed demo_args2) in
  is_Some (keyed_tool k1) /\ is_Some (keyed_inputs k1) /\ demo_link_key = blake3 (Blake3 := toy_blake3) (keyed_text k1) /\
  (k1 = k2 \/ blake3_collision (B3 := toy_blake3) (keyed_text k1) (keyed_text k2) \/
   digests_spell_fields k1 k2 \/ digests_spell_fields k2 k1).
Proof.
  apply (@link_key_identifies toy_blake3 ascii_upper demo_machine demo_machine
    (demo_link_request demo_args1) (demo_link_request demo_args2) _ _ demo_link_key).
  - vm_compute. reflexivity.
  - vm_compute. reflexivity.
  - by intros p h [= <-].
  - by intros p h [= <-].
  - split; vm_compute; repeat constructor.
  - split; vm_compute; repeat constructor.
Defined.

(** ** What the key does not hold *)

(** No test for an option matches an argument without a dash. *)
Lemma not_one_of l a : starts_with "-" a = false -> Forall (fun o => starts_with "-" o = true) l -> is_one_of l a = false.
Proof.
  intros Ha Hl. unfold is_one_of. apply bool_decide_eq_false_2. intros Hin. rewrite Forall_forall in Hl.
  specialize (Hl a Hin). congruence.
Qed.

Lemma not_option a o : starts_with "-" a = false -> starts_with "-" o = true -> bool_decide (a = o) = false.
Proof. intros Ha Ho. apply bool_decide_eq_false_2. intros ->. congruence. Qed.

Lemma ld_positional a next : starts_with "-" a = false -> gnu_ld_step a next = ([AInput (NormalizedPath_new a)], false).
Proof.
  intros Ha. unfold gnu_ld_step. rewrite !(strip_prefix_head "-") by done.
  rewrite !not_option by done. rewrite !not_one_of by (done || by repeat constructor).
  by rewrite !(starts_with_head "-") by done.
Qed.

Lemma driver_operand a next :
  starts_with "-" a = false -> is_linker_input a = false -> driver_step a next = ([], false).
Proof.
  intros Ha Hi. unfold driver_step. rewrite !not_option by done. rewrite !not_one_of by (done || by repeat constructor).
  rewrite !(starts_with_head "-") by done. by rewrite Hi.
Qed.

Lemma link_actions_one step a rest acts :
  (forall next, step a next = (acts, false)) -> link_actions step (a :: rest) = acts ++ link_actions step rest.
Proof. intros Hs. cbn [link_actions]. by rewrite Hs. Qed.

(** Flags and inputs are separate lists: their order among each other is lost. *)
Lemma ld_interleaving f1 f2 a b rest :
  (forall next, gnu_ld_step f1 next = ([AFlag f1], false)) -> (forall next, gnu_ld_step f2 next = ([AFlag f2], false)) ->
  starts_with "-" a = false -> starts_with "-" b = false ->
  link_loop gnu_ld_step (f1 :: a :: f2 :: b :: rest) = link_loop gnu_ld_step (f1 :: f2 :: a :: b :: rest).
Proof.
  intros H1 H2 Ha Hb. unfold link_loop.
  rewrite (link_actions_one _ f1 (a :: f2 :: b :: rest) _ H1), (link_actions_one _ f1 (f2 :: a :: b :: rest) _ H1).
  rewrite (link_actions_one _ a (f2 :: b :: rest) _ (fun n => ld_positional a n Ha)), (link_actions_one _ f2 (b :: rest) _ H2).
  by rewrite (link_actions_one _ f2 (a :: b :: rest) _ H2), (link_actions_one _ a (b :: rest) _ (fun n => ld_positional a n Ha)).
Qed.

Lemma driver_drops a rest :
  starts_with "-" a = false -> is_linker_input a = false -> link_loop driver_step (a :: rest) = link_loop driver_step rest.
Proof.
  intros Ha Hi. unfold link_loop. by rewrite (link_actions_one _ a rest [] (fun n => driver_operand a n Ha Hi)).
Qed.

Definition with_args (r : LinkRequest) (args : list bytes) : LinkRequest :=
  mkLinkRequest (lr_tool r) args (lr_cwd r) (lr_env r).

(** Requests that parse alike are decided alike. *)
Lemma same_parse_same_decision {B3 : Blake3} up w r args1 args2 :
  parse_link_tool up (lr_tool r) args1 = parse_link_tool up (lr_tool r) args2 ->
  link_decision up w (with_args r args1) = link_decision up w (with_args r args2).
Proof. unfold link_decision, with_args, link_key_root. simpl. by intros ->. Qed.

(** A machine on which two lists of files have the same contents. *)
Definition same_contents (w : LinkWorld) (cwd : bytes) (l k : list bytes) : Prop :=
  let file m := if has_root (NormalizedPath_new m) then NormalizedPath_new m else NormalizedPath_new (path_push cwd (NormalizedPath_new m)) in
  map (fun m => lw_hash w (file m)) l = map (fun m => lw_hash w (file m)) k.

Lemma mapM_map_ext {A B} (f : A -> option B) (l k : list A) : map f l = map f k -> mapM f l = mapM f k.
Proof.
  revert k. induction l as [|x l IH]; intros [|y k]; try done. intros [= Hx Hl]. simpl. by rewrite Hx, (IH k Hl).
Qed.

Definition decided_key (d : option LinkDecision) : option ContentHash :=
  match d with Some (LookUp _ key) => Some key | _ => None end.

(** An archive's key does not name its members. *)
Lemma archive_members_unkeyed {B3 : Blake3} up w r op archive ms ns :
  detect_archiver (if from_utf8_ok (lr_tool r) then lr_tool r else "") = Some Ar -> path_remap_auto_enabled (lr_env r) = false ->
  starts_with "--" op = false -> ar_refused (ar_op_str op) = None -> ar_skipped (ar_op_str op) = 0%nat ->
  same_contents w (lr_cwd r) ms ns -> ms <> [] ->
  decided_key (link_decision up w (with_args r (op :: archive :: ms))) =
  decided_key (link_decision up w (with_args r (op :: archive :: ns))).
Proof.
  intros Hd Hp Hop Hr Hs Hc Hne. assert (ns <> []) as Hne' by (intros ->; destruct ms; [done|by apply (f_equal length) in Hc]).
  unfold link_decision, parse_link_tool, parse_archive_invocation, with_args, link_key_root. cbn [lr_tool lr_args lr_cwd lr_env].
  rewrite Hd, Hp. unfold parse_gnu_ar. cbn [ar_long_options]. rewrite Hop, Hr, Hs. cbn [drop].
  destruct ms as [|m ms]; [done|]. destruct ns as [|n ns]; [done|]. cbn [mbind option_bind lt_cache_relevant_flags].
  unfold link_inputs, build_link_path_remap_key_plan. cbn [extra_input_files lt_input_files]. rewrite !app_nil_r.
  assert (all_hashes w (map (fun input => if has_root input then input else NormalizedPath_new (path_push (lr_cwd r) input))
            (NormalizedPath_new <$> m :: ms)) =
          all_hashes w (map (fun input => if has_root input then input else NormalizedPath_new (path_push (lr_cwd r) input))
            (NormalizedPath_new <$> n :: ns))) as Hh.
  { apply mapM_map_ext. rewrite map_map, (map_map _ (lw_hash w)).
    change (NormalizedPath_new <$> m :: ms) with (map NormalizedPath_new (m :: ms)).
    change (NormalizedPath_new <$> n :: ns) with (map NormalizedPath_new (n :: ns)). rewrite !map_map. exact Hc. }
  cbn [ca_input_files ca_cache_relevant_flags] in *. rewrite Hh.
  destruct (lw_hash w (NormalizedPath_new (lr_tool r))) as [t|]; [|done].
  set (hashes := all_hashes w _). clearbody hashes. destruct hashes as [l|]; [|done]. by destruct (lk_build _).
Qed.

Lemma parse_ld_requests up tool args family :
  detect_archiver (if from_utf8_ok tool then tool else "") = None ->
  detect_linker (if from_utf8_ok tool then tool else "") = Some family -> family = Ld \/ family = Lld ->
  forall args', args <> [] -> args' <> [] -> link_loop gnu_ld_step args = link_loop gnu_ld_step args' ->
  parse_link_tool up tool args = parse_link_tool up tool args'.
Proof.
  intros Ha Hl Hf args' Hn Hn' Hloop. unfold parse_link_tool, parse_archive_invocation, parse_linker_invocation.
  rewrite Ha, Hl. simpl. destruct args as [|a args]; [done|]. destruct args' as [|b args']; [done|].
  destruct Hf as [-> | ->]; unfold parse_gnu_ld; rewrite Hloop; unfold link_result;
    (destruct (output_file _); [|done]); by case_bool_decide.
Qed.

Lemma parse_driver_requests up tool a rest :
  detect_archiver (if from_utf8_ok tool then tool else "") = None ->
  detect_linker (if from_utf8_ok tool then tool else "") = None ->
  is_compiler_driver (if from_utf8_ok tool then tool else "") = true ->
  link_loop driver_step (a :: rest) = link_loop driver_step rest -> rest <> [] ->
  parse_link_tool up tool (a :: rest) = parse_link_tool up tool rest.
Proof.
  intros Ha Hl Hc Hloop Hn. unfold parse_link_tool, parse_archive_invocation, parse_linker_invocation.
  rewrite Ha, Hl, Hc. simpl. destruct rest as [|b rest]; [done|]. unfold parse_compiler_driver_link. rewrite Hloop.
  destruct (has_compile_only _); [done|]. unfold link_result. destruct (output_file _); [|done]. by case_bool_decide.
Qed.

(** C39: the link key misses what changes the product.  For a direct linker the
    order of a flag and the inputs around it is lost, so that
    [--whole-archive a --no-whole-archive b] and
    [--whole-archive --no-whole-archive a b] are one request; for a compiler
    driver an operand without an object's extension is lost, be it a source, a
    linker script behind [-T] or a response file; for [ar] the members' names are
    lost, though the archive records them. *)
Theorem link_key_forgets {B3 : Blake3} (to_uppercase : bytes -> bytes) (w : LinkWorld) (r : LinkRequest) :
  let name := if from_utf8_ok (lr_tool r) then lr_tool r else "" in
  let decide_on args := link_decision to_uppercase w (with_args r args) in
  (forall family f1 f2 a b rest,
     detect_archiver name = None -> detect_linker name = Some family -> family = Ld \/ family = Lld ->
     (forall next, gnu_ld_step f1 next = ([AFlag f1], false)) -> (forall next, gnu_ld_step f2 next = ([AFlag f2], false)) ->
     starts_with "-" a = false -> starts_with "-" b = false ->
     decide_on (f1 :: a :: f2 :: b :: rest) = decide_on (f1 :: f2 :: a :: b :: rest)) /\
  (forall a rest,
     detect_archiver name = None -> detect_linker name = None -> is_compiler_driver name = true ->
     starts_with "-" a = false -> is_linker_input a = false -> rest <> [] ->
     decide_on (a :: rest) = decide_on rest) /\
  (forall op archive ms ns,
     detect_archiver name = Some Ar -> path_remap_auto_enabled (lr_env r) = false -> starts_with "--" op = false ->
     ar_refused (ar_op_str op) = None -> ar_skipped (ar_op_str op) = 0%nat ->
     same_contents w (lr_cwd r) ms ns -> ms <> [] ->
     decided_key (decide_on (op :: archive :: ms)) = decided_key (decide_on (op :: archive :: ns))).
Proof.
  split_and!.
  - intros family f1 f2 a b rest Ha Hl Hf H1 H2 Hpa Hpb. apply same_parse_same_decision.
    eapply parse_ld_requests; [done..|]. by apply ld_interleaving.
  - intros a rest Ha Hl Hc Hpa Hi Hn. apply same_parse_same_decision. apply parse_driver_requests; [done..| |done].
    by apply driver_drops.
  - intros. by apply archive_members_unkeyed.
Qed.

(** All three at work: keys of pairs of requests with different products. *)
Lemma link_key_forgets_witness :
  let k tool args := decided_key (link_decision (B3 := toy_blake3) ascii_upper demo_machine (mkLinkRequest tool args "/w" None)) in
  k "/usr/bin/ld" ["--whole-archive"; "a.a"; "--no-whole-archive"; "b.a"; "-o"; "app"] =
  k "/usr/bin/ld" ["--whole-archive"; "--no-whole-archive"; "a.a"; "b.a"; "-o"; "app"] /\
  k "/usr/bin/gcc" ["@rest.rsp"; "main.o"; "-o"; "app"] = k "/usr/bin/gcc" ["main.o"; "-o"; "app"] /\
  k "/usr/bin/ar" ["rcsD"; "lib.a"; "x.o"] = k "/usr/bin/ar" ["rcsD"; "lib.a"; "y.o"] /\
  is_Some (k "/usr/bin/gcc" ["main.o"; "-o"; "app"]) /\ is_Some (k "/usr/bin/ar" ["rcsD"; "lib.a"; "x.o"]) /\
  is_Some (k "/usr/bin/ld" ["--whole-archive"; "a.a"; "--no-whole-archive"; "b.a"; "-o"; "app"]).
Proof.
  intros k.
  pose proof (@link_key_forgets toy_blake3 ascii_upper demo_machine (mkLinkRequest "/usr/bin/ld" [] "/w" None)) as (H1 & _ & _).
  pose proof (@link_key_forgets toy_blake3 ascii_upper demo_machine (mkLinkRequest "/usr/bin/gcc" [] "/w" None)) as (_ & H2 & _).
  pose proof (@link_key_forgets toy_blake3 ascii_upper demo_machine (mkLinkRequest "/usr/bin/ar" [] "/w" None)) as (_ & _ & H3).
  split_and!; [| | |vm_compute; by eexists..].
  - exact (f_equal decided_key (H1 Ld "--whole-archive" "--no-whole-archive" "a.a" "b.a" ["-o"; "app"] eq_refl eq_refl
      (or_introl eq_refl) (fun _ => eq_refl) (fun _ => eq_refl) eq_refl eq_refl)).
  - refine (f_equal decided_key (H2 "@rest.rsp" ["main.o"; "-o"; "app"] eq_refl eq_refl eq_refl eq_refl eq_refl _)). discriminate.
  - refine (H3 "rcsD" "lib.a" ["x.o"] ["y.o"] eq_refl eq_refl eq_refl eq_refl eq_refl eq_refl _). discriminate.
Defined.

(** ** Libraries below the worktree *)

(** With path remapping on, a link that may be shared between worktrees hashes
    the libraries of its own worktree: when a search directory lies below the
    root and the key does not name the root, every library [-l] names was found,
    below the root, and is one of the inputs; and there is such a library. *)
Theorem remap_plan_covers_libraries (is_file : bytes -> bool) (flags : list bytes) (cwd root : bytes) :
  let a := analyze_link_search_flags flags in
  let plan := build_link_path_remap_key_plan is_file flags cwd (Some root) in
  root_specific plan = false -> is_root_local root cwd a = true ->
  lib_names a <> [] /\
  forall lib, lib ∈ lib_names a -> exists p,
    resolve_link_library is_file lib (search_dirs a) cwd = Some p /\
    path_is_under_root (link_path_to_absolute p cwd) root = true /\
    case_key (NormalizedPath_new (link_path_to_absolute p cwd)) ∈ case_key <$> extra_input_files plan.
Proof.
  intros a plan Hs Hl. unfold plan in *. clear plan. unfold build_link_path_remap_key_plan in *. fold a in Hs |- *.
  cbn [root_specific extra_input_files] in *. rewrite Hl in *.
  apply orb_false_elim in Hs as [Hn Hs]. simpl in Hn. apply bool_decide_eq_false in Hn. split; [done|].
  intros lib Hlib.
  assert ((plan_library is_file a true root cwd lib).2 = false) as Hb.
  { destruct ((plan_library is_file a true root cwd lib).2) eqn:E; [|done]. rewrite <- Hs. symmetry. apply existsb_exists.
    exists (plan_library is_file a true root cwd lib). split; [|done]. apply in_map. by apply list_elem_of_In. }
  assert (forall q, q ∈ (plan_library is_file a true root cwd lib).1 ->
    case_key q ∈ case_key <$> dedup_paths (sort_by_key case_key (flat_map fst (map (plan_library is_file a true root cwd) (lib_names a))))) as Hin.
  { intros q Hq. apply dedup_paths_keys. rewrite sort_by_key_perm. apply list_elem_of_In, in_flat_map.
    exists (plan_library is_file a true root cwd lib). split; [apply in_map|]; by apply list_elem_of_In. }
  revert Hb Hin. unfold plan_library at 1 2. destruct (resolve_link_library is_file lib (search_dirs a) cwd) as [p|]; [|done].
  simpl. destruct (path_is_under_root (link_path_to_absolute p cwd) root) eqn:Hu; [|done]. simpl. intros _ Hin.
  exists p. split_and!; [done|done|]. apply Hin. by left.
Qed.

Definition demo_flags : list bytes := ["-L/w/lib"; "-lfoo"].
Definition demo_lib_file (p : bytes) : bool := bool_decide (p = "/w/lib/libfoo.a").

Lemma remap_plan_covers_libraries_witness :
  let a := analyze_link_search_flags demo_flags in
  let plan := build_link_path_remap_key_plan demo_lib_file demo_flags "/w" (Some "/w") in
  (lib_names a <> [] /\
   forall lib, lib ∈ lib_names a -> exists p,
     resolve_link_library demo_lib_file lib (search_dirs a) "/w" = Some p /\
     path_is_under_root (link_path_to_absolute p "/w") "/w" = true /\
     case_key (NormalizedPath_new (link_path_to_absolute p "/w")) ∈ case_key <$> extra_input_files plan) /\
  extra_input_files plan = ["/w/lib/libfoo.a"] /\ plan_flags plan = ["-L$ZCCACHE_WORKTREE_ROOT/lib"; "-lfoo"].
Proof.
  intros a plan. split; [|by vm_compute].
  apply (remap_plan_covers_libraries demo_lib_file demo_flags "/w" "/w"); vm_compute; reflexivity.
Defined.
