(* ===== verification/FastPath.v ===== *)
(** * The hit paths in front of the dependency graph
      ([handle_compile/hit_branches.rs], [keys.rs], [util.rs], [out_dir.rs])

    Two caches answer a repeated compile request without hashing anything: the
    request cache maps a request's fingerprint to its context, and the fast-hit
    cache maps the context to an artifact key and the journal clock at which the
    key was good.  An entry is believed while the watcher has reported none of the
    context's files since that clock.  A request of another worktree is believed
    after its own files were hashed to the same key.

    The daemon's state is what these paths read and write; a path that finds a
    hit hands an artifact key and destinations to the materializer, whose success
    is an argument.  Left out: profiling, the wait for a pending publication, and
    rustc's own output map.  Two arguments stand for code of the sources that is
    not modelled: the certificates of [out_dir.rs], which hash whole source trees,
    and the dependency-info destination a rustc command line asks for. *)

From stdpp Require Import list strings gmap.
From Stdlib Require Import Lia.
From S2P Require Import Prelude Path Hash RustStr Clock Metadata Verify CacheSystem Watcher KeyEnv RequestFingerprint.
From S2P Require Import ContextKeys Detect DepGraph DepGraphVerdict CcContext Eviction RequestKeys.

Definition ONE_SECOND : Z := 1000000000.
Definition FAST_HIT_MAX_AGE : Z := 60 * ONE_SECOND.
Definition EPHEMERAL_CACHE_MAX_AGE : Z := 300 * ONE_SECOND.

Definition cache_age_at (now cached : Z) : Z := Z.max 0 (now - cached).
Definition cache_entry_fresh_at (now cached max_age : Z) : bool := cache_age_at now cached <? max_age.

Record RequestValidationEntry := mkValidation { rv_artifact_key_hex : bytes; rv_clock : Clock; rv_cached_at : Z }.

(** [d_tick] is the instant of the file system the next observation sees. *)
Record Daemon := mkDaemon {
  d_sys : CacheSystem;
  d_tick : nat;
  d_graph : DepGraph;
  d_fast : gmap ContextKey FastHitEntry;
  d_requests : gmap ContentHash RequestCacheEntry;
  d_validation : gmap (ContentHash * NormalizedPath) RequestValidationEntry;
  watcher_active : bool;
}.

Definition with_sys (d : Daemon) (s : CacheSystem) (t : nat) : Daemon :=
  mkDaemon s t (d_graph d) (d_fast d) (d_requests d) (d_validation d) (watcher_active d).
Definition put_fast (d : Daemon) (k : ContextKey) (e : FastHitEntry) : Daemon :=
  mkDaemon (d_sys d) (d_tick d) (d_graph d) (<[k := e]> (d_fast d)) (d_requests d) (d_validation d) (watcher_active d).
Definition put_request (d : Daemon) (fp : ContentHash) (e : RequestCacheEntry) : Daemon :=
  mkDaemon (d_sys d) (d_tick d) (d_graph d) (d_fast d) (<[fp := e]> (d_requests d)) (d_validation d) (watcher_active d).
Definition put_validation (d : Daemon) (k : ContentHash * NormalizedPath) (e : RequestValidationEntry) : Daemon :=
  mkDaemon (d_sys d) (d_tick d) (d_graph d) (d_fast d) (d_requests d) (<[k := e]> (d_validation d)) (watcher_active d).

(** ** What the watcher's silence proves *)

Definition journal_proves_fresh (j : ChangeJournal) (path : NormalizedPath) (since : Clock) : bool :=
  negb (should_ignore IgnoreFilter_default path) && negb (changed_since j path since).

Definition context_files_fresh (d : Daemon) (context_key : ContextKey) (source_path : bytes) (since : Clock) : bool :=
  let fresh p := journal_proves_fresh (sys_journal (d_sys d)) p since in
  fresh (NormalizedPath_new source_path) &&
  match get_includes (d_graph d) context_key with Some includes => forallb fresh includes | None => true end &&
  match get_force_includes (d_graph d) context_key with Some forced => forallb fresh forced | None => true end &&
  match get_rustc_externs (d_graph d) context_key with Some externs => forallb (fun e => fresh e.2) externs | None => true end.

(** ** Environment reads of rustc ([out_dir.rs]) *)

Definition ROOT_RELATIVE_OUT_DIR_PREFIX : bytes := "zccache:root-relative-out-dir:v1:".

Definition root_relative_out_dir_value (client_env : option EnvList) (key_root : option bytes) : option bytes :=
  if negb (path_remap_auto_enabled client_env) then None
  else
    out_dir ← rustc_env_dep_value client_env "OUT_DIR";
    if negb (has_root out_dir) then None
    else
      root ← key_root;
      relative ← path_strip_prefix out_dir root;
      let relative := normalize_for_key relative in
      if bool_decide (relative = "") then None else Some (ROOT_RELATIVE_OUT_DIR_PREFIX +:+ relative).

(** Batches of changes the watcher reports. *)
Abbreviation Batches := (list (list NormalizedPath)).

Section Hits.
Context {B3 : Blake3} {F : Facade B3} (env : Env) (tol : Z).

(** The cache value of the certificate that matches, if one does. *)
Context (certificate : option EnvList -> bytes -> list NormalizedPath -> option bytes).

Definition rustc_env_dep_cache_value (client_env : option EnvList) (name source_path : bytes)
    (resolved_includes : list NormalizedPath) : option bytes :=
  match (if bool_decide (name = "OUT_DIR") then certificate client_env source_path resolved_includes else None) with
  | Some value => Some value
  | None => rustc_env_dep_value client_env name
  end.

Definition rustc_env_dep_lookup_value (recorded_out_dir : option bytes) (client_env : option EnvList)
    (name source_path : bytes) (resolved_includes : list NormalizedPath) : option bytes :=
  match (if bool_decide (name = "OUT_DIR") then recorded_out_dir else None) with
  | Some candidate => Some candidate
  | None => rustc_env_dep_cache_value client_env name source_path resolved_includes
  end.

Definition recorded_root_relative_out_dir (g : DepGraph) (context_key : ContextKey) (client_env : option EnvList) :
    option bytes :=
  key_root ← get_key_root g context_key;
  candidate ← root_relative_out_dir_value client_env (Some key_root);
  deps ← get_rustc_env_deps g context_key;
  recorded ← snd <$> List.find (fun dep => bool_decide (dep.1 = "OUT_DIR")) deps;
  hash ← recorded;
  if bool_decide (hash_env_dep_value (Some candidate) = Some hash) then Some candidate else None.

Definition context_env_deps_fresh (d : Daemon) (context_key : ContextKey) (source_path : bytes)
    (client_env : option EnvList) : bool :=
  match get_rustc_env_deps (d_graph d) context_key with
  | None => true
  | Some deps =>
      let includes := default [] (get_includes (d_graph d) context_key) in
      let recorded := recorded_root_relative_out_dir (d_graph d) context_key client_env in
      forallb (fun dep => bool_decide
        (hash_env_dep_value (rustc_env_dep_lookup_value recorded client_env dep.1 source_path includes) = dep.2)) deps
  end.

Definition context_files_and_env_fresh (d : Daemon) (context_key : ContextKey) (source_path : bytes) (since : Clock)
    (client_env : option EnvList) : bool :=
  context_env_deps_fresh d context_key source_path client_env && context_files_fresh d context_key source_path since.

(** ** Inputs of a request *)

Definition request_cache_input_paths (d : Daemon) (context_key : ContextKey) (source_path : NormalizedPath)
    (ctx : CompileContext) : list NormalizedPath :=
  let paths := [source_path] ++ default [] (get_includes (d_graph d) context_key) ++
               (snd <$> default [] (get_rustc_externs (d_graph d) context_key)) ++ force_includes ctx in
  dedup_paths (sort_by_key case_key paths).

Definition request_cache_inputs_fresh_since (j : ChangeJournal) (paths : list NormalizedPath) (since : Clock) : bool :=
  forallb (fun path => journal_proves_fresh j path since) paths.

(** The watcher's batches, applied in order. *)
Definition apply_batches (batches : Batches) (s : CacheSystem) : CacheSystem :=
  fold_left (fun s batch => (apply_changes batch s).1) batches s.

(** The loop over the paths returns at the first that cannot be hashed; the
    system keeps what was looked up.  [reports] are the batches the watcher
    reports meanwhile: those before the first lookup, before the second, and so
    on. *)
Fixpoint hash_all (paths : list NormalizedPath) (clock : Clock) (reports : list Batches) (st : CacheSystem * nat) :
    option (list (bytes * ContentHash)) * (CacheSystem * nat) :=
  let st := (apply_batches (default [] (head reports)) st.1, st.2) in
  match paths with
  | [] => (Some [], st)
  | path :: rest =>
      match lookup_since env tol (NormalizedPath_new path) clock st with
      | (inl _, st') => (None, st')
      | (inr r, st') =>
          let '(more, st'') := hash_all rest clock (tail reports) st' in
          (cons (path, cl_hash r) <$> more, st'')
      end
  end.

(** The stored validation of a request in a worktree still stands. *)
Definition validation_holds (d : Daemon) (paths : list NormalizedPath) (key : ContentHash * NormalizedPath)
    (expected : bytes) (now : Z) : bool :=
  match d_validation d !! key with
  | Some v =>
      bool_decide (rv_artifact_key_hex v = expected) && cache_entry_fresh_at now (rv_cached_at v) EPHEMERAL_CACHE_MAX_AGE &&
      request_cache_inputs_fresh_since (sys_journal (d_sys d)) paths (rv_clock v)
  | None => false
  end.

(** [now] is the request's start, [now'] the instant of the insertion and
    [reports] what the watcher reports while the files are hashed. *)
Definition request_cache_artifact_matches (d : Daemon) (entry : RequestCacheEntry) (request_fp : ContentHash)
    (key_root : option NormalizedPath) (expected_artifact_key_hex : bytes) (now now' : Z) (clock : Clock)
    (reports : list Batches) : Daemon * bool :=
  match key_root with
  | None => (d, false)
  | Some root =>
      match request_cache_resolved_inputs entry root with
      | None => (d, false)
      | Some paths =>
          if validation_holds d paths (request_fp, root) expected_artifact_key_hex now then (d, true)
          else
            let s := register_tracked paths (d_sys d) in
            let validation_clock := sys_current_clock s in
            let '(file_hashes, (s', t')) := hash_all paths clock reports (s, d_tick d) in
            let d' := with_sys d s' t' in
            match file_hashes, logical_context_key (d_graph d) (re_context_key entry) with
            | Some file_hashes, Some logical_context_key =>
                let matches := bool_decide
                  (to_hex (compute_artifact_key logical_context_key file_hashes (Some root)) = expected_artifact_key_hex) in
                (if matches
                 then put_validation d' (request_fp, root) (mkValidation expected_artifact_key_hex validation_clock now')
                 else d', matches)
            | _, _ => (d', false)
            end
      end
  end.

(** ** The three hit paths *)

(** What a hit hands to the materializer. *)
Record HitPlan := mkHitPlan {
  hp_artifact_key_hex : bytes;
  hp_source_path : NormalizedPath;
  hp_output_path : NormalizedPath;
  hp_depfile_dest : option NormalizedPath;
  hp_label : bytes;
  hp_mtime_floor_paths : list NormalizedPath;
}.

Record RequestProbe := mkRequestProbe {
  rp_compiler_path : bytes;
  rp_effective_args : list bytes;
  rp_cwd : bytes;
  rp_key_root : option NormalizedPath;
  rp_client_env : option EnvList;
  rp_compile_start : Z;
  rp_snap_clock : Clock;
}.

Definition probe_fingerprint (p : RequestProbe) : ContentHash :=
  request_fingerprint (rp_compiler_path p) (rp_effective_args p) (rp_cwd p) (rp_key_root p) (rp_client_env p).

(** [rustc_depfile] is the destination a rustc command line asks for,
    [admits_test_harness] the admission policy of the request. *)
Definition try_request_cache_hit (d : Daemon) (p : RequestProbe) (rustc_depfile : option NormalizedPath)
    (admits_test_harness : bool) (now' : Z) (reports : list Batches) : Daemon * option HitPlan :=
  if negb (watcher_active d) then (d, None)
  else
    let request_fp := probe_fingerprint p in
    match d_requests d !! request_fp with
    | None => (d, None)
    | Some req_entry =>
        if re_test_harness req_entry && negb admits_test_harness then (d, None)
        else if negb (request_cache_entry_matches_root req_entry (rp_key_root p)) then (d, None)
        else match d_fast d !! re_context_key req_entry with
        | None => (d, None)
        | Some fh_entry =>
            let resolved path := resolve_cached path (rp_key_root p) in
            let source_path := resolved (re_source_path req_entry) in
            let same_root := bool_decide (re_root req_entry = rp_key_root p) in
            let '(d', inputs_match) :=
              if same_root
              then (d, context_files_and_env_fresh d (re_context_key req_entry) source_path (fh_clock fh_entry) (rp_client_env p))
              else request_cache_artifact_matches d req_entry request_fp (rp_key_root p) (artifact_key_hex fh_entry)
                     (rp_compile_start p) now' (rp_snap_clock p) reports in
            if negb (cache_entry_fresh_at (rp_compile_start p) (cached_at fh_entry) FAST_HIT_MAX_AGE) ||
               negb (cache_entry_fresh_at (rp_compile_start p) (re_cached_at req_entry) EPHEMERAL_CACHE_MAX_AGE) ||
               negb inputs_match
            then (d', None)
            else
              (d', Some (mkHitPlan (artifact_key_hex fh_entry) source_path (resolved (re_output_path req_entry))
                (match rustc_depfile with Some f => Some f | None => resolved <$> re_depfile_path req_entry end)
                (if same_root then "HIT_REQUEST" else "HIT_WORKTREE_REQUEST")
                (map resolved (re_input_paths req_entry))))
        end
    end.

(** A request that was parsed: its context, its files, and what its entry in the
    request cache will hold. *)
Record ContextProbe := mkContextProbe {
  cp_request : RequestProbe;
  cp_context_key : ContextKey;
  cp_source_path : NormalizedPath;
  cp_output_path : NormalizedPath;
  cp_ctx : CompileContext;
  cp_depfile_dest : option NormalizedPath;
  cp_test_harness : bool;
  cp_worktree_equivalent_context : bool;
  cp_worktree_bound : bool;
}.

Definition probe_entry (p : ContextProbe) (input_paths : list NormalizedPath) (now : Z) : RequestCacheEntry :=
  for_test_harness
    (request_cache_entry now (cp_context_key p) (cp_source_path p) (cp_output_path p) (cp_depfile_dest p) input_paths
       (rp_key_root (cp_request p)) (cp_worktree_bound p))
    (cp_test_harness p).

(** [materialized]: whether the artifact could be delivered. *)
Definition try_fast_hit_probe (d : Daemon) (p : ContextProbe) (materialized : bool) (now : Z) : Daemon * option HitPlan :=
  let r := cp_request p in
  if negb (watcher_active d) then (d, None)
  else if cp_worktree_equivalent_context p then (d, None)
  else match d_fast d !! cp_context_key p with
  | None => (d, None)
  | Some entry =>
      if negb (cache_entry_fresh_at (rp_compile_start r) (cached_at entry) FAST_HIT_MAX_AGE) ||
         negb (context_files_and_env_fresh d (cp_context_key p) (cp_source_path p) (fh_clock entry) (rp_client_env r))
      then (d, None)
      else
        let input_paths := request_cache_input_paths d (cp_context_key p) (cp_source_path p) (cp_ctx p) in
        if negb materialized then (d, None)
        else
          (put_request d (probe_fingerprint r) (probe_entry p input_paths now),
           Some (mkHitPlan (artifact_key_hex entry) (cp_source_path p) (cp_output_path p) (cp_depfile_dest p)
                   "HIT_FAST" input_paths))
  end.

(** A hit of the dependency graph is delivered and then remembered; [during] are
    the batches the watcher reports while it is delivered. *)
Definition try_depgraph_cached_hit (d : Daemon) (p : ContextProbe) (artifact_key_hex : bytes) (materialized : bool)
    (during : Batches) (now : Z) : Daemon * option HitPlan :=
  let input_paths := request_cache_input_paths d (cp_context_key p) (cp_source_path p) (cp_ctx p) in
  let d1 := with_sys d (apply_batches during (d_sys d)) (d_tick d) in
  if negb materialized then (d1, None)
  else
    (if cp_worktree_equivalent_context p then d1
     else
       let s := register_tracked input_paths (d_sys d1) in
       let current_clock := sys_current_clock s in
       put_request
         (put_fast (with_sys d1 s (d_tick d1)) (cp_context_key p) (mkFastHit current_clock artifact_key_hex now))
         (probe_fingerprint (cp_request p)) (probe_entry p input_paths now),
     Some (mkHitPlan artifact_key_hex (cp_source_path p) (cp_output_path p) (cp_depfile_dest p)
             (if cp_worktree_equivalent_context p then "HIT_WORKTREE" else "HIT") input_paths)).
End Hits.

(** ** Forgetting *)

(** A miss drops the context's entry before the compiler runs. *)
Definition forget_context (d : Daemon) (k : ContextKey) : Daemon :=
  mkDaemon (d_sys d) (d_tick d) (d_graph d) (delete k (d_fast d)) (d_requests d) (d_validation d) (watcher_active d).

Definition REQUEST_CACHE_MAX_ENTRIES : nat := Z.to_nat 4096.
Definition REQUEST_VALIDATION_CACHE_MAX_ENTRIES : nat := Z.to_nat 8192.

Definition trim_ephemeral {K V} `{Countable K} (stamp : V -> Z) (limit : nat) (cache : gmap K V) (max_age now : Z) :
    gmap K V * nat :=
  let kept := filter (fun x => cache_age_at now (stamp x.2) <= max_age) cache in
  let removed := (size cache - size kept)%nat in
  if bool_decide (limit < size kept)%nat then (∅, (removed + size kept)%nat) else (kept, removed).

Definition trim_request_cache_at (cache : gmap ContentHash RequestCacheEntry) (max_age now : Z) :=
  trim_ephemeral re_cached_at REQUEST_CACHE_MAX_ENTRIES cache max_age now.
Definition trim_request_validation_cache_at (cache : gmap (ContentHash * NormalizedPath) RequestValidationEntry) (max_age now : Z) :=
  trim_ephemeral rv_cached_at REQUEST_VALIDATION_CACHE_MAX_ENTRIES cache max_age now.

(** ** Theorems *)

Section Theorems.
Context {B3 : Blake3} {F : Facade B3} (env : Env) (tol : Z).
Context (certificate : option EnvList -> bytes -> list NormalizedPath -> option bytes).

(** The files a hit of the context vouches for. *)
Definition context_inputs (g : DepGraph) (k : ContextKey) (source_path : bytes) : list NormalizedPath :=
  NormalizedPath_new source_path :: default [] (get_includes g k) ++ default [] (get_force_includes g k) ++
  (snd <$> default [] (get_rustc_externs g k)).

Lemma context_files_fresh_inputs d k source since :
  context_files_fresh d k source since =
    forallb (fun p => journal_proves_fresh (sys_journal (d_sys d)) p since) (context_inputs (d_graph d) k source).
Proof.
  unfold context_files_fresh, context_inputs. cbn [forallb]. rewrite !forallb_app, <- !andb_assoc.
  set (fresh p := journal_proves_fresh _ p since).
  assert (forall l : list (bytes * NormalizedPath), forallb (fun e => fresh e.2) l = forallb fresh (snd <$> l)) as Hl.
  { induction l as [|e l IH]; [done|]. rewrite fmap_cons. simpl. by rewrite IH. }
  by destruct (get_includes _ _), (get_force_includes _ _), (get_rustc_externs _ _); cbn [default]; rewrite ?Hl.
Qed.

(** What the watcher's full history says of a file no look was taken at. *)
Definition vouched (ops : list JournalOp) (since : Clock) (p : NormalizedPath) : Prop :=
  should_ignore IgnoreFilter_default p = false /\ history_changed (history_run ops) p since = false.

Lemma journal_fresh_vouched cap ops p since :
  Z.of_nat (length ops) < 2 ^ 64 -> 0 <= since ->
  journal_proves_fresh (journal_run (with_capacity cap) ops) p since = true -> vouched ops since p.
Proof.
  intros Hlen Hs [Hi Hc]%andb_prop. rewrite negb_true_iff in Hi, Hc. split; [done|].
  by eapply changed_since_sound.
Qed.

Lemma inputs_fresh_vouched cap ops paths since :
  Z.of_nat (length ops) < 2 ^ 64 -> 0 <= since ->
  forallb (fun p => journal_proves_fresh (journal_run (with_capacity cap) ops) p since) paths = true ->
  Forall (vouched ops since) paths.
Proof.
  intros Hlen Hs Hf. rewrite forallb_forall in Hf. apply Forall_forall. intros p Hp%list_elem_of_In.
  eapply journal_fresh_vouched; eauto.
Qed.

(** The conditions under which an entry answers without a look at any file. *)
Definition answers_for (ops : list JournalOp) (d : Daemon) (k : ContextKey) (source : bytes)
    (client_env : option EnvList) (start : Z) (key : bytes) : Prop :=
  exists entry, d_fast d !! k = Some entry /\ key = artifact_key_hex entry /\
    cache_age_at start (cached_at entry) < FAST_HIT_MAX_AGE /\
    context_env_deps_fresh certificate d k source client_env = true /\
    Forall (vouched ops (fh_clock entry)) (context_inputs (d_graph d) k source).

Lemma fresh_answers_for cap ops d k source client_env start entry :
  Z.of_nat (length ops) < 2 ^ 64 -> sys_journal (d_sys d) = journal_run (with_capacity cap) ops ->
  d_fast d !! k = Some entry -> 0 <= fh_clock entry ->
  cache_entry_fresh_at start (cached_at entry) FAST_HIT_MAX_AGE = true ->
  context_files_and_env_fresh certificate d k source (fh_clock entry) client_env = true ->
  answers_for ops d k source client_env start (artifact_key_hex entry).
Proof.
  intros Hlen Hj He Hc Ha%Z.ltb_lt [Henv Hf]%andb_prop. exists entry. split_and!; [done..|].
  rewrite context_files_fresh_inputs, Hj in Hf. by eapply inputs_fresh_vouched.
Qed.

(** C15: an answer given without hashing rests on what the watcher reported.
    When the fast-hit cache answers a request, or the request cache answers one of
    the worktree its entry was made in, the key is that of the context's entry,
    the entry is younger than a minute, the environment reads recorded for the
    context give the values of this request, and each file the context depends on
    (the source, its includes, its forced includes, its extern crates) is one the
    watcher does not filter and, by the full history of reports, neither changed
    nor possibly lost an event since the clock of the entry.  The journal is any
    one reachable with fewer than 2^64 operations.  The answer changes nothing in
    the daemon but the request's entry. *)
Theorem unhashed_hit_unreported (cap : nat) (ops : list JournalOp) (d : Daemon) (p : ContextProbe)
    (rustc_depfile : option NormalizedPath) (harness materialized : bool) (now : Z) (reports : list Batches) :
  Z.of_nat (length ops) < 2 ^ 64 -> sys_journal (d_sys d) = journal_run (with_capacity cap) ops ->
  map_Forall (fun _ e => 0 <= fh_clock e) (d_fast d) ->
  let r := cp_request p in
  let fp := probe_fingerprint r in
  (forall d' plan, try_fast_hit_probe certificate d p materialized now = (d', Some plan) ->
     answers_for ops d (cp_context_key p) (cp_source_path p) (rp_client_env r) (rp_compile_start r)
       (hp_artifact_key_hex plan) /\
     watcher_active d = true /\ materialized = true /\
     d' = put_request d fp (probe_entry p (hp_mtime_floor_paths plan) now)) /\
  (forall d' plan entry, d_requests d !! fp = Some entry -> re_root entry = rp_key_root r ->
     try_request_cache_hit env tol certificate d r rustc_depfile harness now reports = (d', Some plan) ->
     answers_for ops d (re_context_key entry) (resolve_cached (re_source_path entry) (rp_key_root r)) (rp_client_env r)
       (rp_compile_start r) (hp_artifact_key_hex plan) /\
     watcher_active d = true /\ cache_age_at (rp_compile_start r) (re_cached_at entry) < EPHEMERAL_CACHE_MAX_AGE /\
     d' = d).
Proof.
  intros Hlen Hj Hpos r fp. split.
  - intros d' plan. unfold try_fast_hit_probe. destruct (watcher_active d) eqn:Hw; [|done]. cbn [negb].
    destruct (cp_worktree_equivalent_context p); [done|].
    destruct (d_fast d !! cp_context_key p) as [entry|] eqn:He; [|done].
    destruct (cache_entry_fresh_at _ _ _) eqn:Ha; [|done]. cbn [negb orb].
    destruct (context_files_and_env_fresh _ _ _ _ _ _) eqn:Hf; [|done]. cbn [negb].
    destruct materialized; [|done]. cbn [negb]. intros [= <- <-]. split_and!; [|done..].
    by eapply fresh_answers_for; [..|exact (Hpos _ _ He)| |].
  - intros d' plan entry Hq Hroot. unfold try_request_cache_hit. fold fp. rewrite Hq.
    destruct (watcher_active d) eqn:Hw; [|done]. cbn [negb]. case_match; [done|]. case_match; [done|].
    destruct (d_fast d !! re_context_key entry) as [fast|] eqn:He; [|done].
    rewrite bool_decide_true by done. cbn [negb].
    destruct (cache_entry_fresh_at _ (cached_at fast) _) eqn:Ha; [|done].
    destruct (cache_entry_fresh_at _ (re_cached_at entry) _) eqn:Hb; [|done]. cbn [negb orb].
    destruct (context_files_and_env_fresh _ _ _ _ _ _) eqn:Hf; [|done]. cbn [negb].
    intros [= <- <-]. apply Z.ltb_lt in Hb. split_and!; [|done..].
    by eapply fresh_answers_for; [..|exact (Hpos _ _ He)| |].
Qed.

(** *** Clocks and batches *)

Lemma apply_batches_journal during s :
  sys_journal (apply_batches during s) = journal_run (sys_journal s) (map Advance during).
Proof. revert s. induction during as [|b during IH]; intros s; [done|]. cbn [map apply_batches fold_left]. by rewrite IH. Qed.

Lemma register_tracked_journal paths s :
  sys_journal (register_tracked paths s) = journal_run (sys_journal s) (map Register paths).
Proof.
  unfold register_tracked, journal_run. cbn [sys_journal]. generalize (sys_journal s) as j.
  induction paths as [|p paths IH]; intros j; [done|]. apply IH.
Qed.

Lemma journal_run_app j ops1 ops2 : journal_run j (ops1 ++ ops2) = journal_run (journal_run j ops1) ops2.
Proof. apply fold_left_app. Qed.

Lemma registered_known paths j p :
  p ∈ paths \/ is_Some (last_change j !! p) -> is_Some (last_change (journal_run j (map Register paths)) !! p).
Proof.
  revert j. induction paths as [|q paths IH]; intros j Hp; [by destruct Hp as [?%elem_of_nil|]|].
  cbn [map]. apply (IH (register j q)). destruct Hp as [[-> |Hp]%elem_of_cons|Hp]; [|by left|]; right;
    unfold register; simpl; destruct (last_change j !! q) eqn:Hq; try done.
  - rewrite lookup_insert_eq. done.
  - destruct (decide (q = p)) as [-> |]; [by rewrite lookup_insert_eq|]. by rewrite lookup_insert_ne.
Qed.

(** A known path is unchanged since the current clock. *)
Lemma known_unchanged_now cap j h p :
  journal_refines cap j h -> is_Some (last_change j !! p) -> changed_since j p (current_clock j) = false.
Proof.
  intros [Hnow _ Hlost Hpos Hlast _ _ _] [c Hc]. unfold changed_since, current_clock. rewrite Hc.
  rewrite (proj2 (Z.ltb_ge (Clock.current j) (last_overflow j))), andb_false_r by lia.
  apply Hlast in Hc as [Hc _]. apply Z.ltb_ge. lia.
Qed.

(** A batch is in the history with a later clock, whatever follows it. *)
Lemma batches_in_history during h q t :
  t <= h_now h -> q ∈ concat during \/ (exists c, h_last h !! q = Some c /\ t < c) ->
  exists c, h_last (fold_left history_step (map Advance during) h) !! q = Some c /\ t < c.
Proof.
  revert h. induction during as [|b during IH]; intros h Ht Hq; [by destruct Hq as [?%elem_of_nil|]|].
  cbn [map fold_left]. apply IH; [simpl; lia|]. simpl. rewrite record_last_change_lookup.
  destruct (decide (q ∈ b)); [right; eexists; split; [done|lia]|].
  destruct Hq as [[? |Hq]%elem_of_app|Hq]; [done|by left|by right].
Qed.

Lemma register_history paths h : fold_left history_step (map Register paths) h = h.
Proof. induction paths as [|p paths IH]; [done|]. apply IH. Qed.

(** Whatever is registered afterwards, the journal answers that a path of a batch
    has changed since a clock read before the batch. *)
Lemma batches_changed cap ops during paths q :
  let later := ops ++ map Advance during ++ map Register paths in
  Z.of_nat (length later) < 2 ^ 64 -> q ∈ concat during ->
  changed_since (journal_run (with_capacity cap) later) q (current_clock (journal_run (with_capacity cap) ops)) = true.
Proof.
  intros later Hlen Hq. unfold later in *.
  assert (Z.of_nat (length ops) < 2 ^ 64) as Hlen' by (rewrite length_app in Hlen; lia).
  pose proof (journal_run_refines cap ops Hlen') as [Hnow _ _ _ _ _ _ _]. unfold current_clock. rewrite Hnow.
  pose proof (history_run_bound ops) as [Hb _].
  destruct (changed_since _ _ _) eqn:Hc; [done|]. apply (changed_since_sound cap _ q _ Hlen Hb) in Hc.
  unfold history_changed, history_run in Hc. rewrite !fold_left_app, register_history in Hc.
  destruct (batches_in_history during (fold_left history_step ops history_init) q (h_now (history_run ops)))
    as (c & Hl & Hlt); [done|by left|].
  rewrite Hl in Hc. apply orb_false_elim in Hc as [_ Hc]. apply Z.ltb_ge in Hc. unfold history_run in *. lia.
Qed.

(** The same request, started at another time. *)
Definition restarted (p : ContextProbe) (start : Z) : ContextProbe :=
  let r := cp_request p in
  mkContextProbe
    (mkRequestProbe (rp_compiler_path r) (rp_effective_args r) (rp_cwd r) (rp_key_root r) (rp_client_env r) start
       (rp_snap_clock r))
    (cp_context_key p) (cp_source_path p) (cp_output_path p) (cp_ctx p) (cp_depfile_dest p) (cp_test_harness p)
    (cp_worktree_equivalent_context p) (cp_worktree_bound p).

Lemma context_inputs_tracked d p :
  let g := d_graph d in
  let k := cp_context_key p in
  default [] (get_force_includes g k) ⊆ force_includes (cp_ctx p) ->
  Forall (fun q => NormalizedPath_new q = q) (cp_source_path p :: force_includes (cp_ctx p) ++
    default [] (get_includes g k) ++ (snd <$> default [] (get_rustc_externs g k))) ->
  forall q, q ∈ context_inputs g k (cp_source_path p) -> q ∈ request_cache_input_paths d k (cp_source_path p) (cp_ctx p).
Proof.
  intros g k Hforced Hn q Hq. apply Forall_cons in Hn as [Hsrc Hn]. unfold request_cache_input_paths.
  rewrite !Forall_app in Hn. destruct Hn as (Hf & Hi & He).
  apply dedup_paths_elem.
  { rewrite sort_by_key_perm. apply Forall_app; split; [by constructor|]. by rewrite !Forall_app. }
  rewrite sort_by_key_perm. unfold context_inputs in Hq. rewrite Hsrc in Hq.
  apply elem_of_cons in Hq as [-> |Hq]; [by left|]. fold g k.
  rewrite !elem_of_app in *. destruct Hq as [Hq|[Hq%Hforced|Hq]]; auto.
Qed.

(** C38: changes reported while a hit is being delivered are forgotten.  A hit of
    the dependency graph is remembered with the clock read after its delivery, not
    with the clock at which the inputs were hashed.  So whatever batches the watcher
    reports during the delivery, also ones that name the inputs, the next request
    for the context within a minute is answered with the same artifact, without a
    look at any file; while the journal itself still answers, for the clock from
    before the delivery, that each file of those batches has changed. *)
Theorem fast_hit_serves_stale (cap : nat) (ops : list JournalOp) (d : Daemon) (p : ContextProbe) (key : bytes)
    (during : Batches) (now start now' : Z) :
  let k := cp_context_key p in
  let src := cp_source_path p in
  let tracked := request_cache_input_paths d k src (cp_ctx p) in
  let '(d1, first) := try_depgraph_cached_hit d p key true during now in
  Z.of_nat (length ops + length during + length tracked) < 2 ^ 64 ->
  sys_journal (d_sys d) = journal_run (with_capacity cap) ops ->
  watcher_active d = true -> cp_worktree_equivalent_context p = false ->
  default [] (get_force_includes (d_graph d) k) ⊆ force_includes (cp_ctx p) ->
  Forall (fun q => NormalizedPath_new q = q) (src :: force_includes (cp_ctx p) ++
    default [] (get_includes (d_graph d) k) ++ (snd <$> default [] (get_rustc_externs (d_graph d) k))) ->
  Forall (fun q => should_ignore IgnoreFilter_default q = false) (context_inputs (d_graph d) k src) ->
  context_env_deps_fresh certificate d k src (rp_client_env (cp_request p)) = true ->
  cache_age_at start now < FAST_HIT_MAX_AGE ->
  hp_artifact_key_hex <$> first = Some key /\
  hp_artifact_key_hex <$> (try_fast_hit_probe certificate d1 (restarted p start) true now').2 = Some key /\
  forall q, q ∈ concat during -> changed_since (sys_journal (d_sys d1)) q (sys_current_clock (d_sys d)) = true.
Proof.
  intros k src tracked. unfold try_depgraph_cached_hit. cbn [negb].
  destruct (cp_worktree_equivalent_context p) eqn:Hw; [done|]. fold k src tracked.
  set (s1 := register_tracked tracked _). intros Hlen Hj Hact _ Hforced Hn Hign Henv Hage.
  assert (sys_journal s1 = journal_run (with_capacity cap) (ops ++ map Advance during ++ map Register tracked)) as Hj1.
  { unfold s1. rewrite register_tracked_journal. cbn [d_sys with_sys]. by rewrite apply_batches_journal, Hj, !journal_run_app. }
  assert (Z.of_nat (length (ops ++ map Advance during ++ map Register tracked)) < 2 ^ 64) as Hlen1
    by (rewrite !length_app, !length_map; lia).
  set (d1 := put_request _ _ _). split; [done|]. split.
  - assert (d_fast d1 !! k = Some (mkFastHit (sys_current_clock s1) key now)) as Hfast by apply lookup_insert_eq.
    assert (context_files_and_env_fresh certificate d1 k src (sys_current_clock s1) (rp_client_env (cp_request p)) = true)
      as Hfresh.
    { apply andb_true_intro. split; [exact Henv|].
      rewrite context_files_fresh_inputs. apply forallb_forall. intros q Hq%list_elem_of_In.
      unfold journal_proves_fresh. rewrite (proj1 (Forall_forall _ _) Hign q Hq). cbn [negb andb].
      apply negb_true_iff. unfold sys_current_clock. eapply known_unchanged_now.
      - change (d_sys d1) with s1. rewrite Hj1. by apply journal_run_refines.
      - unfold d1, s1. cbn [d_sys put_request put_fast with_sys]. rewrite register_tracked_journal.
        apply registered_known. left. by apply context_inputs_tracked. }
    unfold try_fast_hit_probe, restarted.
    cbn [cp_request cp_context_key cp_source_path cp_worktree_equivalent_context rp_compile_start rp_client_env].
    change (watcher_active d1) with (watcher_active d). fold k src. rewrite Hact, Hw, Hfast.
    cbn [negb cached_at fh_clock artifact_key_hex]. unfold cache_entry_fresh_at. rewrite (proj2 (Z.ltb_lt _ _) Hage), Hfresh.
    done.
  - intros q Hq. change (d_sys d1) with s1. unfold sys_current_clock. rewrite Hj1, Hj. by apply batches_changed.
Qed.

(** *** Requests of another worktree *)

(** [h] is the hash of the file between the instants [t] and [t'], or the file
    did not hold still through four snapshots after [t]. *)
Definition looked_at (t t' : nat) (p : NormalizedPath) (h : ContentHash) : Prop :=
  (exists stamp, hash_at env t t' p stamp h) \/ (exists t1, (t <= t1)%nat /\ unstable env p t1).

Lemma looked_at_weaken t t' u u' p h : (u <= t)%nat -> (t' <= u')%nat -> looked_at t t' p h -> looked_at u u' p h.
Proof.
  intros Ht Ht' [[stamp Hs]|(t1 & H1 & H2)]; [left; exists stamp; by eapply hash_at_weaken|right].
  exists t1. split; [lia|done].
Qed.

Lemma lookup_since_advances p since s t r st' :
  HonestFs env tol -> normalize p = p -> lookup_since env tol p since (s, t) = (r, st') ->
  sys_journal st'.1 = sys_journal s /\ (t <= st'.2)%nat.
Proof. intros Hh Hn Hl. by destruct (lookup_since_frame env tol _ _ _ _ _ _ Hh Hn Hl) as (? & ? & _). Qed.

Lemma apply_batches_trusted during s t : HonestFs env tol -> sys_trusted env (s, t) -> sys_trusted env (apply_batches during s, t).
Proof.
  intros Hh. revert s. induction during as [|b during IH]; intros s Hs; [done|]. apply IH.
  exact (sys_step_trusted env tol (s, t) (ApplyChanges b) Hh ltac:(discriminate) Hs).
Qed.

(** The batches that arrive while [n] files are hashed. *)
Definition arrived (n : nat) (reports : list Batches) : Batches := concat (take (S n) reports).

Lemma arrived_cons n reports : arrived (S n) reports = default [] (head reports) ++ arrived n (tail reports).
Proof. destruct reports as [|r reports]; [done|]. unfold arrived. by rewrite firstn_cons. Qed.

(** What hashing all inputs establishes: a look at each, and nothing lost of what
    the watcher reported meanwhile. *)
Lemma hash_all_spec paths clock reports s t hashes s' t' :
  HonestFs env tol -> sys_trusted env (s, t) ->
  hash_all env tol paths clock reports (s, t) = (Some hashes, (s', t')) ->
  (t <= t')%nat /\ hashes.*1 = paths /\
  Forall (fun e => looked_at t t' (NormalizedPath_new e.1) e.2) hashes /\
  sys_journal s' = journal_run (sys_journal s) (map Advance (arrived (length paths) reports)).
Proof.
  intros Hh. revert reports s t hashes. induction paths as [|p paths IH]; intros reports s t hashes Htr; cbn [hash_all fst snd].
  { intros [= <- <- <-]. split_and!; [done..|]. rewrite apply_batches_journal. f_equal. f_equal.
    destruct reports as [|b reports]; [done|]. cbn. by rewrite app_nil_r. }
  set (s0 := apply_batches _ s).
  assert (sys_trusted env (s0, t)) as Htr0 by by apply apply_batches_trusted.
  destruct (lookup_since env tol _ clock (s0, t)) as [[e|r] [s1 t1]] eqn:Hl; [done|].
  assert (normalize (NormalizedPath_new p) = NormalizedPath_new p) as Hnp by apply normalize_idem.
  pose proof (lookup_since_advances _ _ _ _ _ _ Hh Hnp Hl) as [Hj1 Ht1]. simpl in Hj1, Ht1.
  destruct (lookup_since_spec _ _ _ _ _ _ _ Hh Hnp Htr0 Hl) as [Htr1 Hserved].
  destruct (hash_all env tol paths clock (tail reports) (s1, t1)) as [more [s2 t2]] eqn:Hm.
  destruct more as [more|]; [|done]. intros [= <- <- <-].
  destruct (IH _ _ _ _ Htr1 Hm) as (Ht2 & Hfst & Hall & Hj2). split_and!; [lia| | |].
  - rewrite fmap_cons. by rewrite Hfst.
  - constructor.
    + destruct (Hserved r eq_refl) as [_ [[stamp Hs]|(m & u & _ & _ & _ & Hu & Hun)]].
      * apply (looked_at_weaken t t1); [lia..|]. left. by exists stamp.
      * right. by exists u.
    + eapply Forall_impl; [exact Hall|]. intros e. by apply looked_at_weaken.
  - rewrite Hj2, Hj1. unfold s0. rewrite apply_batches_journal, <- journal_run_app, <- map_app. cbn [length]. by rewrite arrived_cons.
Qed.

(** C16: a request of another worktree is answered only for its own files.  When
    the artifact of one worktree is accepted for a request of another, then either
    an earlier acceptance of the same key in this worktree, younger than five
    minutes, still stands, because none of this worktree's inputs is filtered by
    the watcher or was reported since its clock; or every input was looked at
    during the call and the hashes found give the very key under the logical
    context.  Such an acceptance is stored with the clock read before the files
    were hashed, so that a batch which arrives while they are being hashed and
    names an input makes it void. *)
Theorem cross_root_validated (cap : nat) (ops : list JournalOp) (d d' : Daemon) (entry : RequestCacheEntry)
    (fp : ContentHash) (root : NormalizedPath) (expected : bytes) (now now' : Z) (clock : Clock) (reports : list Batches) :
  HonestFs env tol -> sys_trusted env (d_sys d, d_tick d) ->
  sys_journal (d_sys d) = journal_run (with_capacity cap) ops ->
  map_Forall (fun _ v => 0 <= rv_clock v) (d_validation d) ->
  request_cache_artifact_matches env tol d entry fp (Some root) expected now now' clock reports = (d', true) ->
  exists paths, request_cache_resolved_inputs entry root = Some paths /\
  (Z.of_nat (length ops + length paths + length (arrived (length paths) reports)) < 2 ^ 64 ->
   (d' = d /\ exists v, d_validation d !! (fp, root) = Some v /\ rv_artifact_key_hex v = expected /\
      cache_age_at now (rv_cached_at v) < EPHEMERAL_CACHE_MAX_AGE /\ Forall (vouched ops (rv_clock v)) paths) \/
   (exists logical hashes, logical_context_key (d_graph d) (re_context_key entry) = Some logical /\
      hashes.*1 = paths /\ to_hex (compute_artifact_key logical hashes (Some root)) = expected /\
      Forall (fun e => looked_at (d_tick d) (d_tick d') (NormalizedPath_new e.1) e.2) hashes /\
      d_validation d' = <[(fp, root) := mkValidation expected (sys_current_clock (d_sys d)) now']> (d_validation d) /\
      (forall q now2, q ∈ paths -> q ∈ concat (arrived (length paths) reports) ->
         validation_holds d' paths (fp, root) expected now2 = false))).
Proof.
  intros Hh Htr Hj Hpos. unfold request_cache_artifact_matches.
  destruct (request_cache_resolved_inputs entry root) as [paths|]; [|done].
  destruct (validation_holds d paths (fp, root) expected now) eqn:Hv.
  { intros [= <-]. exists paths. split; [done|]. intros Hlen. left. split; [done|].
    unfold validation_holds in Hv. destruct (d_validation d !! (fp, root)) as [v|] eqn:He; [|done].
    exists v. apply andb_prop in Hv as [[Hk%bool_decide_eq_true Ha%Z.ltb_lt]%andb_prop Hf]. split_and!; [done..|].
    unfold request_cache_inputs_fresh_since in Hf. rewrite Hj in Hf. eapply inputs_fresh_vouched; [lia| |done].
    exact (Hpos _ _ He). }
  destruct (hash_all env tol paths clock reports _) as [[hashes|] [s' t']] eqn:Hall; [|done].
  destruct (logical_context_key (d_graph d) (re_context_key entry)) as [logical|]; [|done].
  case_bool_decide as Hkey; [|done]. intros [= <-]. exists paths. split; [done|]. intros Hlen. right.
  assert (sys_trusted env (register_tracked paths (d_sys d), d_tick d)) as Htr0
    by exact (sys_step_trusted env tol (d_sys d, d_tick d) (RegisterTracked paths) Hh ltac:(discriminate) Htr).
  destruct (hash_all_spec _ _ _ _ _ _ _ _ Hh Htr0 Hall) as (_ & Hfst & Hlook & Hj').
  rewrite register_tracked_journal, Hj in Hj'.
  assert (sys_current_clock (register_tracked paths (d_sys d)) = sys_current_clock (d_sys d)) as Hclock.
  { unfold sys_current_clock, register_tracked. cbn [sys_journal]. generalize (sys_journal (d_sys d)) as j.
    clear. induction paths as [|q paths IH]; intros j; [done|]. apply (IH (register j q)). }
  exists logical, hashes. rewrite Hclock. split_and!; [done..|].
  intros q now2 Hq Hin. unfold validation_holds. cbn [d_validation put_validation with_sys]. rewrite lookup_insert_eq.
  apply andb_false_intro2. apply not_true_iff_false. intros Hf. unfold request_cache_inputs_fresh_since in Hf.
  rewrite forallb_forall in Hf. apply list_elem_of_In, Hf, andb_prop, proj2 in Hq. cbn [d_sys put_validation with_sys rv_clock] in Hq.
  rewrite <- journal_run_app, <- journal_run_app in Hj'.
  assert (changed_since (sys_journal s') q (sys_current_clock (d_sys d)) = true) as Hc; [|by rewrite Hc in Hq].
  rewrite Hj'. rewrite <- Hclock. unfold sys_current_clock. rewrite register_tracked_journal, Hj, <- journal_run_app.
  pose proof (batches_changed cap (ops ++ map Register paths) (arrived (length paths) reports) [] q) as Hb.
  cbn zeta in Hb. cbn [map] in Hb. rewrite app_nil_r, <- app_assoc in Hb. apply Hb; [|done].
  rewrite !length_app, !length_map. lia.
Qed.
End Theorems.

(** ** Witnesses *)

#[local] Existing Instance toy_blake3.
#[local] Existing Instance toy_facade.

Definition no_certificate (_ : option EnvList) (_ : bytes) (_ : list NormalizedPath) : option bytes := None.

Definition demo_request : RequestProbe :=
  mkRequestProbe "/usr/bin/cc" ["-c"; "src/a.c"; "-o"; "a.o"] "/w" (Some "/w") None (5 * ONE_SECOND) 0.
Definition demo_probe : ContextProbe :=
  mkContextProbe demo_request demo_instance "/w/src/a.c" "/w/a.o" (demo_workspace "/w") None false false false.

(** The inputs are registered and a batch that names none of them follows. *)
Definition demo_journal_ops : list JournalOp :=
  [Register "/w/src/a.c"; Register "/w/include/a.h"; Register "/usr/include/stdio.h"; Advance ["/w/src/b.c"]].

Definition demo_daemon : Daemon :=
  mkDaemon (mkSystem MetadataCache_new (journal_run (with_capacity 10) demo_journal_ops)) 0 demo_updated.1
    {[demo_instance := mkFastHit 0 "key" ONE_SECOND]}
    {[probe_fingerprint demo_request := probe_entry demo_probe ["/w/src/a.c"] ONE_SECOND]} ∅ true.

Lemma unhashed_hit_unreported_witness :
  let ops := demo_journal_ops in
  let fast := try_fast_hit_probe no_certificate demo_daemon demo_probe true (6 * ONE_SECOND) in
  let request := try_request_cache_hit (busy_env 0) 0 no_certificate demo_daemon demo_request None false 0 [] in
  (hp_label <$> fast.2 = Some "HIT_FAST" /\ hp_label <$> request.2 = Some "HIT_REQUEST") /\
  answers_for no_certificate ops demo_daemon demo_instance "/w/src/a.c" None (5 * ONE_SECOND) "key" /\
  request.1 = demo_daemon.
Proof.
  intros ops fast request. split; [split; vm_compute; reflexivity|].
  assert (exists p1, fast.2 = Some p1 /\ hp_artifact_key_hex p1 = "key") as (p1 & H1 & K1)
    by (vm_compute; eexists; split; reflexivity).
  assert (exists p2, request.2 = Some p2) as (p2 & H2) by (vm_compute; eexists; reflexivity).
  destruct (unhashed_hit_unreported (busy_env 0) 0 no_certificate 10 ops demo_daemon demo_probe None false true (6 * ONE_SECOND) [])
    as [Hf _]; [reflexivity|reflexivity|apply map_Forall_singleton; vm_compute; discriminate|].
  destruct (unhashed_hit_unreported (busy_env 0) 0 no_certificate 10 ops demo_daemon demo_probe None false true 0 [])
    as [_ Hr]; [reflexivity|reflexivity|apply map_Forall_singleton; vm_compute; discriminate|].
  split.
  - rewrite <- K1. destruct (Hf fast.1 p1) as [Ha _]; [rewrite <- H1; apply surjective_pairing|]. exact Ha.
  - destruct (Hr request.1 p2 (probe_entry demo_probe ["/w/src/a.c"] ONE_SECOND)) as (_ & _ & _ & Hd);
      [apply lookup_singleton_eq|reflexivity|rewrite <- H2; apply surjective_pairing|]. exact Hd.
Defined.

(** A batch that names the source and a header arrives during the delivery. *)
Lemma fast_hit_serves_stale_witness :
  let during := [["/w/src/a.c"; "/w/include/a.h"]] in
  let out := try_depgraph_cached_hit demo_daemon demo_probe "key" true during (6 * ONE_SECOND) in
  hp_artifact_key_hex <$> out.2 = Some "key" /\
  hp_artifact_key_hex <$> (try_fast_hit_probe no_certificate out.1 (restarted demo_probe (7 * ONE_SECOND)) true 0).2 = Some "key" /\
  forall q, q ∈ concat during -> changed_since (sys_journal (d_sys out.1)) q (sys_current_clock (d_sys demo_daemon)) = true.
Proof.
  intros during out.
  pose proof (fast_hit_serves_stale no_certificate 10 demo_journal_ops demo_daemon demo_probe "key" during
    (6 * ONE_SECOND) (7 * ONE_SECOND) 0) as H. cbn zeta in H. fold out in H. destruct out as [d1 first] eqn:Ho.
  apply H; clear H.
  - vm_compute. reflexivity.
  - reflexivity.
  - reflexivity.
  - reflexivity.
  - intros q Hq. vm_compute in Hq. inversion Hq.
  - vm_compute. repeat constructor.
  - vm_compute. repeat constructor.
  - vm_compute. reflexivity.
  - vm_compute. reflexivity.
Defined.

(** The entry of the worktree [/w], asked for from the worktree [/]. *)
Definition demo_shared : RequestCacheEntry :=
  request_cache_entry 0 demo_instance "/w/f" "/w/f.o" None ["/w/f"] (Some "/w") false.
Definition demo_expected : bytes :=
  to_hex (compute_artifact_key (default demo_hash (logical_context_key demo_updated.1 demo_instance))
            [("/f", hash_bytes "b")] (Some "/")).

Lemma cross_root_validated_witness :
  let out := request_cache_artifact_matches (busy_env 0) 0 demo_daemon demo_shared demo_hash (Some "/") demo_expected
               0 1 0 [[]; [["/f"]]] in
  out.2 = true /\ request_cache_resolved_inputs demo_shared "/" = Some ["/f"] /\
  (exists h, looked_at (busy_env 0) 0 (d_tick out.1) "/f" h) /\
  validation_holds out.1 ["/f"] (demo_hash, "/") demo_expected 2 = false.
Proof.
  intros out. assert (out.2 = true) as Ho by (vm_compute; reflexivity). split; [done|]. split; [reflexivity|].
  destruct (cross_root_validated (busy_env 0) 0 10 demo_journal_ops demo_daemon out.1 demo_shared demo_hash "/" demo_expected
    0 1 0 [[]; [["/f"]]]) as (paths & Hp & H).
  - apply busy_env_honest.
  - apply (trusted_new (B3 := toy_blake3)).
  - reflexivity.
  - apply map_Forall_empty.
  - rewrite <- Ho. apply surjective_pairing.
  - injection Hp as <-. destruct H as [[_ (v & Hv & _)]|(logical & hashes & _ & Hfst & _ & Hlook & _ & Hvoid)].
    + vm_compute. reflexivity.
    + vm_compute in Hv. discriminate.
    + split.
      * destruct hashes as [|[q h] [|]]; try discriminate Hfst. injection Hfst as ->.
        apply Forall_cons in Hlook as [Hlook _]. by exists h.
      * apply (Hvoid "/f" 2); vm_compute; left.
Defined.

(** Trimming bounds the cache and drops no young entry of a cache within bounds. *)
Theorem trim_ephemeral_bounds {K V} `{Countable K} (stamp : V -> Z) (limit : nat) (cache : gmap K V) (max_age now : Z) :
  let '(cache', removed) := trim_ephemeral stamp limit cache max_age now in
  (size cache' <= limit)%nat /\ (removed + size cache' = size cache)%nat /\
  (forall k v, cache' !! k = Some v -> cache !! k = Some v /\ cache_age_at now (stamp v) <= max_age) /\
  ((size cache <= limit)%nat -> forall k v, cache !! k = Some v -> cache_age_at now (stamp v) <= max_age ->
     cache' !! k = Some v).
Proof.
  unfold trim_ephemeral. set (kept := filter _ cache).
  assert (size kept <= size cache)%nat as Hle by (apply map_size_filter || apply map_subseteq_size, map_filter_subseteq).
  case_bool_decide as Hb; split_and!.
  - rewrite map_size_empty. lia.
  - rewrite map_size_empty. lia.
  - intros k v Hk. by apply lookup_empty_Some in Hk.
  - lia.
  - lia.
  - lia.
  - by intros k v [Hk Ha]%map_lookup_filter_Some.
  - intros _ k v Hk Ha. by apply map_lookup_filter_Some.
Qed.
